(* ===== verification/_CoqProject ===== *)
-Q . S2P
Prelude.v
Io.v
BitRead.v
BitWrite.v
BytesCursor.v
ExpGolomb.v
Aac.v
Amf0.v
RtmpChunk.v
RtmpChunkDecode.v
RtmpChunkRoundTrip.v
RtmpMessages.v
RtmpHandshake.v
RtmpSession.v
RtmpSessionProofs.v
BitIo.v
Av1.v
H264.v
H264Sps.v
H265.v
Flv.v
Av1Obu.v
H265Sps.v
Mp4Box.v
Mp4Movie.v
Mp4Tables.v
Mp4Fragment.v
Mp4Esds.v
Mp4Config.v
Mp4Containers.v
Mp4Dyn.v
Mp4DynLaws.v
Mp4DynTotal.v
Mp4Traf.v
Mp4Codec.v
Mp4Theorems.v
F64.v
Transmuxer.v
TransmuxerLaws.v
TransmuxerInit.v
TransmuxerTheorems.v
BatchQueue.v
DataLoader.v
DataLoaderLaws.v
Batcher.v
BatcherLaws.v
BatchingTheorems.v
Context.v
ContextTheorems.v
FeatureSets.v
FeatureSetsLaws.v
FeatureSetsTheorems.v
FfmpegIo.v
HttpBody.v
HttpIdle.v
HttpTcp.v
WebTransport.v
WebTransportTheorems.v
Metrics.v
Signal.v
HttpError.v
