(* ===== verification/Prelude.v ===== *)
(** * Scuffle video: verification of the media path

    The repository is a Rust workspace for live video. This development models
    the crates a live stream passes through on its way in: an RTMP session
    accepts a publisher (crates/rtmp), its chunks carry AMF0 commands
    (crates/amf0) and FLV tags (crates/flv), the tags carry codec
    configuration records and bit streams (crates/aac, crates/h264,
    crates/h265, crates/av1) that are read and written with the bit-level
    primitives of crates/bytes-util and crates/expgolomb, and the transmuxer
    (crates/transmuxer) turns the tags into fragmented MP4 (crates/mp4). Beside
    the media path it models the utilities of the workspace with a logic of
    their own: request batching (crates/batching), cooperative shutdown
    (crates/context, crates/signal), WebTransport sessions
    (crates/h3-webtransport), bodies, errors and idle connections of the HTTP
    server (crates/http), channels as I/O for FFmpeg (crates/ffmpeg), the
    Prometheus exporter (crates/metrics) and the choice of feature
    combinations to test (dev-tools/xtask).

    ** Files, sources and theorems

    - [Prelude], [Io]: machine integers at their width, the outcome type
      [res] ([Ok], [Err], [Panic], [Fuel]) and the state-and-error
      monad [M] of all stateful code; [std::io] ([Read], [Seek], [Write] as
      classes with their laws, [Cursor] and [Vec<u8>] as instances).
    - [BitRead], [BitWrite], [BytesCursor]: crates/bytes-util. The reader
      refines a position in a stream of bits ([read_bits_refines],
      [seek_bits_correct]), the writer appends to one ([write_bits_refines]),
      and fields written are read back ([bit_fields_roundtrip]); slices are
      extracted without panics ([extract_bytes_total]).
    - [ExpGolomb]: crates/expgolomb, round trip and the outcome on every bit
      string, long prefixes included.
    - [Aac], [H264], [H264Sps], [H265], [H265Sps], [Av1], [Av1Obu]: the codec
      crates. Configuration records round trip through [mux] and [demux] and
      fill exactly [size()] bytes; parameter sets and headers laid out as the
      standards say are parsed to the values they denote.
    - [Amf0]: crates/amf0: the decoder stops on every input, values round
      trip, and two inputs the code mishandles are characterised.
    - [RtmpChunk], [RtmpChunkDecode], [RtmpChunkRoundTrip]: the chunk layer of
      crates/rtmp: bounds of the decoder's memory in every reachable state,
      termination, independence of network segmentation, round trip with the
      encoder, and the panics that are left.
    - [RtmpMessages]: message parser and writers, proved against the chunk
      layer and the AMF0 codec.
    - [RtmpHandshake]: digests and the two server handshakes.
    - [RtmpSession], [RtmpSessionProofs]: the session state machine over its
      socket and channels: media is forwarded only after a publish request was
      accepted, forwarding is complete and in order, termination, and the one
      way not to terminate.
    - [BitIo]: byte-level I/O through the bit reader and writer and the small
      logic ([reads], [writes], [keeps], [calm]) in which the codec proofs are
      done.
    - [Flv]: crates/flv: every laid-out file is decoded to its contents, and
      demuxing of arbitrary bytes stops with a classified outcome.
    - [Mp4Box], [Mp4Movie], [Mp4Tables], [Mp4Fragment], [Mp4Esds],
      [Mp4Config], [Mp4Containers], [Mp4Dyn]: crates/mp4/src/boxes. [Mp4Box]
      has the box header, the [BoxType] trait as a class ([primitive_size],
      [primitive_mux], [validate], with [size] and [mux] derived from them) and
      the laws of a box that is written and read back; then one Module per box
      type with the operations of its file. Containers are polymorphic in the
      type of the boxes they hold and [Mp4Dyn] ties the knot with [DynBox]; its
      reader carries the number of bytes left as fuel, because a nested box is
      at least eight bytes shorter.
    - [Mp4DynLaws], [Mp4DynTotal], [Mp4Theorems]: [every] states a condition of
      a box and of all boxes inside it; boxes that are well-formed
      ([local_wf]) and that can be represented and pass validation
      ([local_fair]) round trip; the reader returns well-formed boxes only; and
      its panics.
    - [Mp4Traf], [Mp4Codec]: [Traf::optimize] against the effective values of
      the samples of a fragment, and the codec strings.
    - [F64], [Transmuxer], [TransmuxerLaws], [TransmuxerInit],
      [TransmuxerTheorems]: crates/transmuxer. The state is the struct's; [mux]
      and [demux] are state transformers. The abstract specification is the
      [timeline] of a list of tags: one piece per packet, numbered
      consecutively, each track without gaps. Draining the transmuxer produces
      the init segment and then exactly the timeline, as bytes that read back
      as the boxes they should be ([transmux_stream]).
    - [BatchQueue], [DataLoader], [DataLoaderLaws], [Batcher], [BatcherLaws],
      [BatchingTheorems]: crates/batching. A task runs without interruption
      from one await to the next, so the state (the current batch, the
      semaphore, the spawned batches, the open calls, the clock) moves by one
      event per such stretch: a call, the timer, a permit, an answer, the
      passing of time. The executor is a parameter, and a panic of it is an
      event. For every sequence of events: a call returns the data of its own
      requests, limits on batch size, concurrency and delay hold, and every
      open call can still return.
    - [Context], [ContextTheorems]: crates/context. One event per atomic
      operation of a drop, a cancellation or a wait, in any interleaving; no
      wake-up of a shutdown is lost, and waits without a cancellation that
      sleep for ever are characterised.
    - [FeatureSets], [FeatureSetsLaws], [FeatureSetsTheorems]:
      dev-tools/xtask/src/utils.rs. [implied] and [enabled] say which features
      a set switches on; every set of features that is not skipped is tested by
      a combination that switches on the same features, and the panics of the
      search are characterised.
    - [FfmpegIo]: crates/ffmpeg/src/io: a channel as a reader ([ChannelLaws]
      is what is asked of it, with std's mpsc as the instance), the callbacks
      of the C library, and the order of calls to a muxer.
    - [HttpBody], [HttpIdle], [HttpTcp], [HttpError]: crates/http: the frames
      of a QUIC body, tracked and incoming bodies and the copy of a response;
      the idle timeout under every interleaving; the accept loop and the TLS
      check; the severity of an error against its chain of sources.
    - [WebTransport], [WebTransportTheorems]: crates/h3-webtransport: one event
      per stretch of the driver between two awaits and per operation of the
      application; every stream is accounted for and none reaches a session it
      does not name.
    - [Metrics]: crates/metrics/src/prometheus: what an export writes, and
      which label names are valid.
    - [Signal]: crates/signal: the handler and the shutdown service.

    ** Conventions

    A [u8] is a [Byte.byte]; wider integers are [Z] with the width written at
    each operation. Arithmetic that the source leaves unchecked is
    [checked_u w] / [checked_i w], which panic on overflow as a build with
    overflow checks does; [as] casts are [wrap] and [swrap]; slice indexing out
    of range panics. [Cursor::read_exact] moves the cursor to the end when it
    fails, as the standard library does since Rust 1.81. An [f64] of AMF0 is
    its bit pattern; the frame rate of a parameter set is computed with the
    standard library's executable IEEE 754 ([SpecFloat], 53 and 1024).

    Loops that are not structural carry fuel, and running out is the outcome
    [Fuel], which the termination theorems exclude: the number of
    unread bytes or bits, plus one, bounds every loop that reads; nesting of
    AMF0 values is bounded by the input length; a session is run for as many
    turns as the socket has outcomes; a transmuxer with [n] tags queued is
    drained in [n + 2] calls.

    Code outside the repository is a parameter: [byteorder] is a class whose
    laws are its documented behaviour (with an executable instance), HMAC is a
    class that only fixes the digest length, the clock and the random bytes
    are streams the code consumes, and the socket and the channels are lists
    of outcomes of the awaited calls, in order. The fixed-point numbers of the
    [fixed] crate are their bit patterns, with a class for [from_num].
    Allocation is not bounded: [Vec::with_capacity] is the empty list. In the
    concurrent crates tokio's tasks, timer, mutex, semaphore, oneshot channels,
    [OnceCell], [Notify] and cancellation tokens behave as documented, and
    memory is sequentially consistent.
    The h3 connection, hyper's bodies, the channels given to FFmpeg, the text
    encoder of prometheus-client, Unicode's classes of letters and the values
    the C library returns are parameters: classes with the laws the code relies
    on, or part of the events. The fuel of the feature search is the number of
    pairs it can visit ([find_fuel], [flatten_fuel]); a read from a channel
    takes at most the messages that are queued.

    ** Not modelled

    Only demuxing exists in crates/flv. The rest of crates/ffmpeg is bindings:
    what it does is done by the C library. The rest of crates/http configures
    hyper, h3, quinn and rustls and hands connections to them. The stream types
    of crates/h3-webtransport forward every call to h3. crates/bootstrap and
    its telemetry, crates/settings, crates/pprof, crates/postcompile,
    crates/future-ext, the OpenTelemetry wrappers of crates/metrics, the rest
    of the xtask and the proc macros start processes, read configuration,
    generate code ([nutype_enum] among them) or rename a library's functions; there is no state or
    decision of their own to state a theorem about. Tracing and Debug output
    are left out everywhere, Display output except for the HTTP errors.
 *)

From Stdlib Require Import Strings.String.
From stdpp Require Import base list numbers gmap.
From Stdlib Require Import Strings.Byte.

Declare Scope rust_scope.
Delimit Scope rust_scope with rust.

#[global] Open Scope Z_scope.

(** ** Bytes and machine integers *)

(** A [u8] is a [Byte.byte]; wider unsigned integers are a [Z] with their
    width written where it matters. *)
Abbreviation byte := Byte.byte.

(** The value of a byte, [b as u64]. *)
Definition b2z (b : byte) : Z := Z.of_N (Byte.to_N b).

(** Truncation to a byte, [z as u8]. *)
Definition z2b (z : Z) : byte :=
  default x00 (Byte.of_N (Z.to_N (z `mod` 256))).

(** [z] is representable in [w] unsigned bits. *)
Definition fits (w z : Z) : Prop := 0 <= z < 2 ^ w.

#[global] Instance fits_dec w z : Decision (fits w z).
Proof. unfold fits; apply _. Defined.

(** Truncation to [w] bits, [z as uW]. *)
Definition wrap (w z : Z) : Z := z `mod` 2 ^ w.

(** Reinterpretation of a [w]-bit pattern as a signed integer, [z as iW]. *)
Definition swrap (w z : Z) : Z :=
  let r := z `mod` 2 ^ w in if r <? 2 ^ (w - 1) then r else r - 2 ^ w.

(** Big-endian value of a byte string and its inverse at [n] bytes. *)
Fixpoint be_val_acc (acc : Z) (bs : list byte) : Z :=
  match bs with
  | [] => acc
  | b :: bs => be_val_acc (acc * 256 + b2z b) bs
  end.

Definition be_val (bs : list byte) : Z := be_val_acc 0 bs.

Definition le_val (bs : list byte) : Z := be_val (rev bs).

Fixpoint le_bytes (n : nat) (z : Z) : list byte :=
  match n with
  | O => []
  | S n => z2b z :: le_bytes n (z / 256)
  end.

Definition be_bytes (n : nat) (z : Z) : list byte := rev (le_bytes n z).

(** The bytes of a string literal. *)
Definition str (s : string) : list byte := list_byte_of_string s.

(** Length of a byte string, a [usize]. *)
Definition blen {A} (bs : list A) : Z := Z.of_nat (length bs).

(** The range [a..b] of a slice or of a [Bytes]; [None] is the panic of an
    out-of-range index. *)
Definition slice {A} (a b : Z) (bs : list A) : option (list A) :=
  if (0 <=? a) && (a <=? b) && (b <=? blen bs)
  then Some (take (Z.to_nat (b - a)) (drop (Z.to_nat a) bs))
  else None.

(** ** Results of Rust code

    [Ok] and [Err] are the two cases of [Result]; [Panic] is an unwinding
    panic (failed slice, [unwrap] on [None], arithmetic overflow under
    [overflow-checks]); [Fuel] is reached only when the bound given to a
    modelled loop is exhausted, and each loop has a theorem that says which
    bound is enough. *)
Inductive res (E A : Type) : Type :=
| Ok (a : A)
| Err (e : E)
| Panic
| Fuel.
Arguments Ok {E A} _.
Arguments Err {E A} _.
Arguments Panic {E A}.
Arguments Fuel {E A}.

(** A method with [&mut self]: the state survives an error. *)
Definition M (S E A : Type) : Type := S -> res E A * S.

Section monad.
Context {S E : Type}.

Definition ret {A} (a : A) : M S E A := fun s => (Ok a, s).
Definition throw {A} (e : E) : M S E A := fun s => (Err e, s).
Definition panic {A} : M S E A := fun s => (Panic, s).
Definition out_of_fuel {A} : M S E A := fun s => (Fuel, s).
Definition get : M S E S := fun s => (Ok s, s).
Definition put (s : S) : M S E unit := fun _ => (Ok tt, s).
Definition modify (f : S -> S) : M S E unit := fun s => (Ok tt, f s).

Definition bind {A B} (m : M S E A) (k : A -> M S E B) : M S E B := fun s =>
  match m s with
  | (Ok a, s') => k a s'
  | (Err e, s') => (Err e, s')
  | (Panic, s') => (Panic, s')
  | (Fuel, s') => (Fuel, s')
  end.

(** Lift a pure result. *)
Definition lift {A} (r : res E A) : M S E A := fun s => (r, s).

(** [o.ok_or(e)?] *)
Definition ok_or {A} (o : option A) (e : E) : M S E A :=
  match o with Some a => ret a | None => throw e end.

(** [o.unwrap()] *)
Definition unwrap {A} (o : option A) : M S E A :=
  match o with Some a => ret a | None => panic end.

(** Checked unsigned and signed arithmetic at [w] bits: an intermediate
    result outside the type panics under [overflow-checks]. *)
Definition checked_u (w z : Z) : M S E Z :=
  if (0 <=? z) && (z <? 2 ^ w) then ret z else panic.
Definition checked_i (w z : Z) : M S E Z :=
  if (- 2 ^ (w - 1) <=? z) && (z <? 2 ^ (w - 1)) then ret z else panic.
End monad.

(** Run an action on a field of the state. *)
Definition zoom {S T E A} (gets : S -> T) (sets : T -> S -> S) (m : M T E A) : M S E A :=
  fun s => let '(r, t) := m (gets s) in (r, sets t s).

(** [r.map_err(f)], and the [From] conversion that [?] applies. *)
Definition map_err {S E E' A} (f : E -> E') (m : M S E A) : M S E' A := fun s =>
  match m s with
  | (Ok a, s') => (Ok a, s')
  | (Err e, s') => (Err (f e), s')
  | (Panic, s') => (Panic, s')
  | (Fuel, s') => (Fuel, s')
  end.

Notation "'let*' x ':=' m 'in' k" := (bind m (fun x => k))
  (at level 10, x pattern, m at level 100, k at level 200) : rust_scope.
Notation "m ';;;' k" := (bind m (fun _ => k))
  (at level 100, k at level 200, right associativity) : rust_scope.
Open Scope rust_scope.

(** ** Enumerations with explicit discriminants

    [#[derive(FromPrimitive)]]: the variant with a given discriminant. *)
Definition from_primitive {A} (variants : list A) (discr : A -> Z) (z : Z) : option A :=
  List.find (fun v => discr v =? z) variants.

(** ** [std::io] errors *)

(** The [io::ErrorKind]s the code produces or observes. *)
Inductive ErrorKind :=
| UnexpectedEof
| InvalidData
| InvalidInput
| ConnectionAborted
| ConnectionReset
| TimedOut
| WriteZero
| OtherIo.

#[global] Instance ErrorKind_eq_dec : EqDecision ErrorKind.
Proof. solve_decision. Defined.

(** ** Lemmas on bytes *)

Create HintDb scuffle.

Lemma b2z_range b : 0 <= b2z b < 256.
Proof. unfold b2z. pose proof (Byte.to_N_bounded b). lia. Qed.

Lemma b2z_fits b : fits 8 (b2z b).
Proof. unfold fits. pose proof (b2z_range b). lia. Qed.

Lemma b2z_z2b z : b2z (z2b z) = z `mod` 256.
Proof.
  unfold b2z, z2b. pose proof (Z.mod_pos_bound z 256 ltac:(lia)) as Hb.
  destruct (Byte.of_N (Z.to_N (z `mod` 256))) as [b|] eqn:E; simpl.
  - apply Byte.to_of_N in E. rewrite E. lia.
  - apply Byte.of_N_None_iff in E. lia.
Qed.

Lemma b2z_z2b_small z : 0 <= z < 256 -> b2z (z2b z) = z.
Proof. intros. rewrite b2z_z2b. by apply Z.mod_small. Qed.

Lemma b2z_inj b1 b2 : b2z b1 = b2z b2 -> b1 = b2.
Proof.
  unfold b2z. intros H%N2Z.inj.
  pose proof (Byte.of_to_N b1) as E1. pose proof (Byte.of_to_N b2) as E2.
  rewrite H in E1. congruence.
Qed.

Lemma z2b_b2z b : z2b (b2z b) = b.
Proof. apply b2z_inj. rewrite b2z_z2b. apply Z.mod_small, b2z_range. Qed.

Lemma z2b_mod z : z2b (z `mod` 256) = z2b z.
Proof. apply b2z_inj. rewrite !b2z_z2b. by rewrite Z.mod_mod. Qed.

#[global] Instance byte_eq_dec : EqDecision byte.
Proof. intros x y. exact (Byte.byte_eq_dec x y). Defined.

Lemma blen_nil {A} : blen (@nil A) = 0.
Proof. done. Qed.

Lemma blen_cons {A} (x : A) xs : blen (x :: xs) = 1 + blen xs.
Proof. unfold blen. simpl. lia. Qed.

Lemma blen_app {A} (xs ys : list A) : blen (xs ++ ys) = blen xs + blen ys.
Proof. unfold blen. rewrite length_app. lia. Qed.

Lemma blen_nonneg {A} (xs : list A) : 0 <= blen xs.
Proof. unfold blen. lia. Qed.

Lemma slice_app {A} (xs ys zs : list A) a b :
  a = blen xs -> b = blen xs + blen ys -> slice a b (xs ++ ys ++ zs) = Some ys.
Proof.
  intros -> ->. unfold slice. rewrite !blen_app.
  pose proof (blen_nonneg xs). pose proof (blen_nonneg ys). pose proof (blen_nonneg zs).
  rewrite !(proj2 (Z.leb_le _ _)) by lia. simpl. f_equal.
  unfold blen. rewrite Nat2Z.id, drop_app_length.
  replace (Z.to_nat _) with (length ys) by lia. apply take_app_length.
Qed.

Lemma slice_Some {A} (xs : list A) a b : 0 <= a <= b -> b <= blen xs ->
  slice a b xs = Some (take (Z.to_nat (b - a)) (drop (Z.to_nat a) xs)).
Proof. intros. unfold slice. by rewrite !(proj2 (Z.leb_le _ _)) by lia. Qed.

Lemma slice_None {A} (xs : list A) a b : 0 <= a <= b -> blen xs < b -> slice a b xs = None.
Proof.
  intros. unfold slice. rewrite (proj2 (Z.leb_gt b (blen xs))) by lia.
  by rewrite andb_false_r.
Qed.

(** ** Lemmas on big-endian and little-endian byte strings *)

Lemma be_val_acc_eq acc bs : be_val_acc acc bs = acc * 256 ^ blen bs + be_val bs.
Proof.
  unfold be_val. revert acc. induction bs as [|b bs IH]; intros acc; cbn [be_val_acc].
  - rewrite blen_nil. lia.
  - rewrite IH, (IH (0 * 256 + b2z b)), blen_cons, Z.pow_add_r by (unfold blen; lia). lia.
Qed.

Lemma be_val_cons b bs : be_val (b :: bs) = b2z b * 256 ^ blen bs + be_val bs.
Proof. unfold be_val at 1. simpl. rewrite be_val_acc_eq. lia. Qed.

Lemma be_val_app xs ys : be_val (xs ++ ys) = be_val xs * 256 ^ blen ys + be_val ys.
Proof.
  induction xs as [|x xs IH]; [unfold be_val at 2; simpl; lia|].
  rewrite <-app_comm_cons, !be_val_cons, IH, blen_app, Z.pow_add_r
    by (unfold blen; lia). lia.
Qed.

Lemma be_val_range bs : 0 <= be_val bs < 256 ^ blen bs.
Proof.
  induction bs as [|b bs IH]; [done|].
  rewrite be_val_cons, blen_cons, Z.pow_add_r by (unfold blen; lia).
  pose proof (b2z_range b). nia.
Qed.

Lemma length_le_bytes n z : length (le_bytes n z) = n.
Proof. revert z. induction n; intros; simpl; auto. Qed.

Lemma length_be_bytes n z : length (be_bytes n z) = n.
Proof. unfold be_bytes. by rewrite length_rev, length_le_bytes. Qed.

Lemma blen_be_bytes n z : blen (be_bytes n z) = Z.of_nat n.
Proof. unfold blen. by rewrite length_be_bytes. Qed.

Lemma be_val_be_bytes_mod n z : be_val (be_bytes n z) = z `mod` 256 ^ Z.of_nat n.
Proof.
  unfold be_bytes. revert z. induction n as [|n IH]; intros z.
  { simpl. by rewrite Z.mod_1_r. }
  change (rev (le_bytes (S n) z)) with (rev (le_bytes n (z / 256)) ++ [z2b z]).
  rewrite be_val_app, IH. change (blen [z2b z]) with 1.
  rewrite be_val_cons, b2z_z2b. change (be_val []) with 0. change (blen []) with 0.
  rewrite Z.pow_0_r, Z.pow_1_r, Nat2Z.inj_succ, Z.pow_succ_r by lia.
  rewrite Z.rem_mul_r by (try apply Z.pow_nonzero; lia). lia.
Qed.

Lemma be_val_be_bytes n z :
  0 <= z < 256 ^ Z.of_nat n -> be_val (be_bytes n z) = z.
Proof. intros. rewrite be_val_be_bytes_mod. by apply Z.mod_small. Qed.

Lemma be_val_inj xs ys : length xs = length ys -> be_val xs = be_val ys -> xs = ys.
Proof.
  revert ys. induction xs as [|x xs IH]; intros [|y ys] Hl Hv; try done.
  simpl in Hl. injection Hl as Hl. rewrite !be_val_cons in Hv.
  assert (blen xs = blen ys) as Hb by (unfold blen; lia). rewrite Hb in Hv.
  pose proof (be_val_range xs) as Hx. pose proof (be_val_range ys) as Hy.
  rewrite Hb in Hx.
  assert (b2z x = b2z y) as Hxy by nia.
  rewrite Hxy in Hv. f_equal; [by apply b2z_inj|]. apply IH; [done|lia].
Qed.

Lemma be_bytes_be_val n bs : length bs = n -> be_bytes n (be_val bs) = bs.
Proof.
  intros <-. apply be_val_inj; [apply length_be_bytes|].
  apply be_val_be_bytes, be_val_range.
Qed.

Lemma le_val_le_bytes n z : 0 <= z < 256 ^ Z.of_nat n -> le_val (le_bytes n z) = z.
Proof. apply be_val_be_bytes. Qed.

Lemma le_val_range bs : 0 <= le_val bs < 256 ^ blen bs.
Proof.
  unfold le_val. pose proof (be_val_range (rev bs)) as H.
  by replace (blen (rev bs)) with (blen bs) in H by (unfold blen; by rewrite length_rev).
Qed.

#[export] Hint Rewrite @length_app @length_rev length_le_bytes length_be_bytes
  blen_be_bytes @blen_app @blen_cons @blen_nil : scuffle.
#[export] Hint Resolve b2z_range b2z_fits be_val_range le_val_range : scuffle.

(** ** Lemmas on enumerations *)

Lemma from_primitive_Some {A} (variants : list A) discr z v :
  from_primitive variants discr z = Some v -> discr v = z.
Proof. intros H%List.find_some. destruct H as [_ H]. by apply Z.eqb_eq. Qed.

Lemma from_primitive_discr {A} (variants : list A) discr v :
  v ∈ variants -> (forall w, w ∈ variants -> discr w = discr v -> w = v) ->
  from_primitive variants discr (discr v) = Some v.
Proof.
  intros Hin Hinj. unfold from_primitive.
  destruct (List.find _ _) as [w|] eqn:E.
  - apply List.find_some in E as [Hw He]. f_equal. apply Hinj.
    + by apply list_elem_of_In.
    + by apply Z.eqb_eq.
  - apply List.find_none with (x := v) in E; [|by apply list_elem_of_In].
    by rewrite Z.eqb_refl in E.
Qed.

(** ** Lemmas on the monad *)

Section monad_lemmas.
Context {S E : Type}.

Lemma bind_ok {A B} (m : M S E A) (k : A -> M S E B) s a s' :
  m s = (Ok a, s') -> bind m k s = k a s'.
Proof. unfold bind. by intros ->. Qed.

Lemma bind_err {A B} (m : M S E A) (k : A -> M S E B) s e s' :
  m s = (Err e, s') -> bind m k s = (Err e, s').
Proof. unfold bind. by intros ->. Qed.

Lemma bind_panic {A B} (m : M S E A) (k : A -> M S E B) s s' :
  m s = (Panic, s') -> bind m k s = (Panic, s').
Proof. unfold bind. by intros ->. Qed.

Lemma bind_ret {A B} (a : A) (k : A -> M S E B) s : bind (ret a) k s = k a s.
Proof. done. Qed.

Lemma bind_Ok_inv {A B} (m : M S E A) (k : A -> M S E B) s b s' :
  bind m k s = (Ok b, s') -> exists a s1, m s = (Ok a, s1) /\ k a s1 = (Ok b, s').
Proof. unfold bind. destruct (m s) as [[] s1]; intros; simplify_eq; eauto. Qed.

Lemma checked_u_ok w z (s : S) : fits w z -> checked_u (E := E) w z s = (Ok z, s).
Proof.
  unfold checked_u. intros [H1 H2]. apply Z.leb_le in H1. apply Z.ltb_lt in H2.
  by rewrite H1, H2.
Qed.

Lemma checked_u_panic w z (s : S) : ~ fits w z -> checked_u (E := E) w z s = (Panic, s).
Proof.
  unfold checked_u, fits. intros H.
  destruct (Z.leb_spec 0 z), (Z.ltb_spec z (2 ^ w)); simpl; auto. lia.
Qed.

Lemma checked_i_ok w z (s : S) :
  - 2 ^ (w - 1) <= z < 2 ^ (w - 1) -> checked_i (E := E) w z s = (Ok z, s).
Proof.
  unfold checked_i. intros [H1 H2]. apply Z.leb_le in H1. apply Z.ltb_lt in H2.
  by rewrite H1, H2.
Qed.

Lemma zoom_ok {T A} (gets : S -> T) sets (m : M T E A) s a t :
  m (gets s) = (Ok a, t) -> zoom gets sets m s = (Ok a, sets t s).
Proof. unfold zoom. by intros ->. Qed.

Lemma zoom_err {T A} (gets : S -> T) sets (m : M T E A) s e t :
  m (gets s) = (Err e, t) -> zoom gets sets m s = (Err e, sets t s).
Proof. unfold zoom. by intros ->. Qed.
End monad_lemmas.

Lemma map_err_ok {S E E' A} (f : E -> E') (m : M S E A) s a s' :
  m s = (Ok a, s') -> map_err f m s = (Ok a, s').
Proof. unfold map_err. by intros ->. Qed.

Lemma map_err_err {S E E' A} (f : E -> E') (m : M S E A) s e s' :
  m s = (Err e, s') -> map_err f m s = (Err (f e), s').
Proof. unfold map_err. by intros ->. Qed.

(** [mstep L] runs the first action of a monadic program by the equation
    [L] about that action, directly or under an error conversion; the side
    conditions of [L] become the goals after the main one. *)
Ltac mstep L :=
  first
    [ erewrite bind_ok; [cbv beta iota zeta | first [ eapply L | eapply map_err_ok, L ] ]
    | erewrite bind_err; [| first [ eapply L | eapply map_err_err, L ] ]
    | erewrite map_err_ok; [| eapply L ]
    | rewrite L ].

(** [mret] runs a first action that is pure. *)
Ltac mret := erewrite bind_ok; [cbv beta iota zeta | reflexivity].

(** [minv H] splits a hypothesis that a monadic program returned [Ok]. *)
Ltac minv H :=
  let a := fresh "a" in let s := fresh "s" in let H1 := fresh "H" in
  apply bind_Ok_inv in H as (a & s & H1 & H).

(** ** Bit strings, most significant bit first *)

(** Value of a bit string. *)
Fixpoint bits_val_acc (acc : Z) (bs : list bool) : Z :=
  match bs with
  | [] => acc
  | b :: bs => bits_val_acc (2 * acc + Z.b2z b) bs
  end.
Definition bits_val (bs : list bool) : Z := bits_val_acc 0 bs.

(** The low [n] bits of [z]. *)
Fixpoint val_bits (n : nat) (z : Z) : list bool :=
  match n with
  | O => []
  | S n => Z.testbit z (Z.of_nat n) :: val_bits n z
  end.

Definition byte_bits (b : byte) : list bool := val_bits 8 (b2z b).
Definition bytes_bits (bs : list byte) : list bool := bs ≫= byte_bits.

Lemma length_val_bits n z : length (val_bits n z) = n.
Proof. induction n; simpl; auto. Qed.

Lemma bits_val_acc_eq acc bs : bits_val_acc acc bs = acc * 2 ^ blen bs + bits_val bs.
Proof.
  unfold bits_val. revert acc. induction bs as [|b bs IH]; intros acc; cbn [bits_val_acc].
  - rewrite blen_nil. lia.
  - rewrite IH, (IH (2 * 0 + Z.b2z b)), blen_cons, Z.pow_add_r by (unfold blen; lia). lia.
Qed.

Lemma bits_val_cons b bs : bits_val (b :: bs) = Z.b2z b * 2 ^ blen bs + bits_val bs.
Proof. unfold bits_val at 1. cbn [bits_val_acc]. rewrite bits_val_acc_eq. lia. Qed.

Lemma bits_val_app xs ys : bits_val (xs ++ ys) = bits_val xs * 2 ^ blen ys + bits_val ys.
Proof.
  induction xs as [|x xs IH]; [by unfold bits_val at 2|].
  rewrite <-app_comm_cons, !bits_val_cons, IH, blen_app, Z.pow_add_r
    by (unfold blen; lia). lia.
Qed.

Lemma bits_val_snoc bs b : bits_val (bs ++ [b]) = 2 * bits_val bs + Z.b2z b.
Proof.
  rewrite bits_val_app, bits_val_cons. change (blen [b]) with 1.
  change (blen (@nil bool)) with 0. change (bits_val []) with 0. lia.
Qed.

Lemma bits_val_range bs : 0 <= bits_val bs < 2 ^ blen bs.
Proof.
  induction bs as [|b bs IH]; [done|].
  rewrite bits_val_cons, blen_cons, Z.pow_add_r by (unfold blen; lia).
  destruct b; simpl Z.b2z; nia.
Qed.

Lemma bits_val_replicate_false n : bits_val (replicate n false) = 0.
Proof.
  induction n as [|n IH]; [done|].
  cbn [replicate]. rewrite bits_val_cons, IH. done.
Qed.

Lemma val_bits_S n z :
  val_bits (S n) z = Z.testbit z (Z.of_nat n) :: val_bits n z.
Proof. done. Qed.

Lemma bits_val_val_bits n z : 0 <= z -> bits_val (val_bits n z) = z `mod` 2 ^ Z.of_nat n.
Proof.
  intros Hz. induction n as [|n IH].
  - by rewrite Z.mod_1_r.
  - rewrite val_bits_S, bits_val_cons, IH. unfold blen. rewrite length_val_bits.
    rewrite Nat2Z.inj_succ, Z.pow_succ_r, (Z.mul_comm 2) by lia.
    rewrite Z.rem_mul_r by (try apply Z.pow_nonzero; lia).
    rewrite Z.testbit_spec' by lia. lia.
Qed.

Lemma bits_val_val_bits_small n z : fits (Z.of_nat n) z -> bits_val (val_bits n z) = z.
Proof. intros [H1 H2]. rewrite bits_val_val_bits by done. by apply Z.mod_small. Qed.

Lemma bits_val_inj xs ys : length xs = length ys -> bits_val xs = bits_val ys -> xs = ys.
Proof.
  revert ys. induction xs as [|x xs IH]; intros [|y ys] Hl Hv; try done.
  simpl in Hl. injection Hl as Hl. rewrite !bits_val_cons in Hv.
  assert (blen xs = blen ys) as Hb by (unfold blen; lia). rewrite Hb in Hv.
  pose proof (bits_val_range xs) as Hx. pose proof (bits_val_range ys) as Hy.
  rewrite Hb in Hx.
  assert (x = y) as -> by (destruct x, y; simpl Z.b2z in Hv; first [done|nia]).
  f_equal. apply IH; [done|lia].
Qed.

Lemma val_bits_bits_val n bs : length bs = n -> val_bits n (bits_val bs) = bs.
Proof.
  intros <-. apply bits_val_inj; [apply length_val_bits|].
  apply bits_val_val_bits_small, bits_val_range.
Qed.

Lemma length_byte_bits b : length (byte_bits b) = 8%nat.
Proof. apply length_val_bits. Qed.

Lemma bytes_bits_cons b bs : bytes_bits (b :: bs) = byte_bits b ++ bytes_bits bs.
Proof. done. Qed.

Lemma bytes_bits_app xs ys : bytes_bits (xs ++ ys) = bytes_bits xs ++ bytes_bits ys.
Proof. unfold bytes_bits. apply bind_app. Qed.

Lemma length_bytes_bits bs : length (bytes_bits bs) = (8 * length bs)%nat.
Proof.
  induction bs as [|b bs IH]; [done|].
  rewrite bytes_bits_cons, length_app, IH, length_byte_bits. simpl. lia.
Qed.

Lemma bytes_bits_inj xs ys : bytes_bits xs = bytes_bits ys -> xs = ys.
Proof.
  revert ys. induction xs as [|x xs IH]; intros [|y ys] H; try done.
  rewrite !bytes_bits_cons in H. apply app_inj_1 in H as [H1 H2];
    [|by rewrite !length_byte_bits].
  f_equal; [|by apply IH]. apply b2z_inj.
  rewrite <-(bits_val_val_bits_small 8 (b2z x)), <-(bits_val_val_bits_small 8 (b2z y))
    by apply b2z_fits.
  by f_equal.
Qed.

(** The idiom [(x >> n) & 1 == 1]. *)
Lemma testbit_shiftr_land a n : 0 <= n ->
  (Z.land (Z.shiftr a n) 1 =? 1) = Z.testbit a n.
Proof.
  intros Hn. change 1 with (Z.ones 1) at 1. rewrite Z.land_ones by lia.
  rewrite Z.testbit_odd. change (2 ^ 1) with 2. rewrite Zmod_odd.
  by destruct (Z.odd _).
Qed.

(** The idiom [(x << 1) | bit]. *)
Lemma lor_shiftl_bit a (b : bool) : Z.lor (Z.shiftl a 1) (Z.b2z b) = 2 * a + Z.b2z b.
Proof.
  rewrite Z.shiftl_mul_pow2 by lia. change (2 ^ 1) with 2. rewrite (Z.mul_comm a 2).
  destruct b; simpl Z.b2z; [|by rewrite Z.lor_0_r, Z.add_0_r].
  apply Z.bits_inj'. intros k Hk. rewrite Z.lor_spec.
  destruct (Z.eq_dec k 0) as [->|Hne].
  - by rewrite Z.testbit_odd_0, orb_comm.
  - replace k with (Z.succ (k - 1)) by lia.
    rewrite Z.testbit_odd_succ, Z.testbit_even_succ by lia.
    replace (Z.testbit 1 (Z.succ (k - 1))) with false; [by rewrite orb_false_r|].
    symmetry. apply (Z.bits_above_log2 1); simpl; lia.
Qed.

(** A number with no bit at or above [w] fits in [w] bits, and conversely. *)
Lemma fits_bits w z : 0 <= w -> (forall i, w <= i -> Z.testbit z i = false) -> fits w z.
Proof.
  intros Hw Hb. assert (z `mod` 2 ^ w = z) as Heq.
  { apply Z.bits_inj'. intros i Hi. destruct (Z.lt_ge_cases i w).
    - by rewrite Z.mod_pow2_bits_low by lia.
    - rewrite Z.mod_pow2_bits_high by lia. by rewrite Hb. }
  unfold fits. rewrite <-Heq. apply Z.mod_pos_bound, Z.pow_pos_nonneg; lia.
Qed.

Lemma fits_testbit w z i : fits w z -> 0 <= w <= i -> Z.testbit z i = false.
Proof.
  intros [H1 H2] Hi. rewrite <-(Z.mod_small z (2 ^ w)) by done.
  apply Z.mod_pow2_bits_high. lia.
Qed.

#[global] Arguments val_bits : simpl never.
#[global] Arguments be_val : simpl never.
#[global] Arguments be_bytes : simpl never.
#[global] Arguments le_bytes : simpl never.
#[global] Arguments blen : simpl never.
