(* ===== verification/Io.v ===== *)
(** * [std::io] and the [byteorder] crate

    The parts of the standard library every crate reads and writes through:
    [io::Read], [io::Seek] and [io::Write] as operation classes with the laws
    their clients use, [io::Cursor] and [Vec<u8>] as the instances the code
    uses, and the [byteorder] crate (which is not part of the repository) as a
    class of operations whose laws are its documented behaviour. *)

From stdpp Require Import base list numbers.
From S2P Require Import Prelude.

(** ** Reading *)

(** [io::Read]: [read n] fills at most [n] bytes, [read_exact n] exactly [n]. *)
Class IoRead (T : Type) := {
  read : nat -> M T ErrorKind (list byte);
  read_exact : nat -> M T ErrorKind (list byte);
}.

(** What a client may assume of a reader over an in-memory source: it denotes
    the bytes that are still to be read. *)
Class IoReadLaws (T : Type) `{IoRead T} := {
  rest : T -> list byte;
  read_exact_some : forall n t, (n <= length (rest t))%nat ->
    exists t', read_exact n t = (Ok (take n (rest t)), t') /\ rest t' = drop n (rest t);
  read_exact_none : forall n t, (length (rest t) < n)%nat ->
    exists t', read_exact n t = (Err UnexpectedEof, t') /\ rest t' = [];
}.

(** [io::SeekFrom] *)
Inductive SeekFrom :=
| Start (n : Z)
| End_ (n : Z)
| Current (n : Z).

(** [io::Seek] *)
Class IoSeek (T : Type) := {
  seek : SeekFrom -> M T ErrorKind Z;
}.

(** [Seek::stream_position] is a seek by zero. *)
Definition stream_position {T} `{IoSeek T} : M T ErrorKind Z := seek (Current 0).

(** ** Writing *)

(** [io::Write]; [write] returns how many bytes it took. *)
Class IoWrite (W : Type) := {
  write : list byte -> M W ErrorKind Z;
  write_all : list byte -> M W ErrorKind unit;
  flush : M W ErrorKind unit;
}.

(** A writer that never fails and appends, as [Vec<u8>] does. *)
Class IoWriteLaws (W : Type) `{IoWrite W} := {
  written : W -> list byte;
  write_all_ok : forall bs w, exists w',
    write_all bs w = (Ok tt, w') /\ written w' = written w ++ bs;
  write_ok : forall bs w, exists w',
    write bs w = (Ok (blen bs), w') /\ written w' = written w ++ bs;
  flush_ok : forall w, exists w', flush w = (Ok tt, w') /\ written w' = written w;
}.

(** ** [io::Cursor] *)

Record Cursor := mkCursor { inner : list byte; pos : N }.

(** The bytes after the position, empty when the position is past the end. *)
Definition cursor_rest (c : Cursor) : list byte := drop (N.to_nat (N.min (pos c) (N.of_nat (length (inner c))))) (inner c).

Definition cursor_read (n : nat) : M Cursor ErrorKind (list byte) := fun c =>
  let bs := take n (cursor_rest c) in
  (Ok bs, mkCursor (inner c) (pos c + N.of_nat (length bs))).

(** On end of file the position moves to the end of the buffer. *)
Definition cursor_read_exact (n : nat) : M Cursor ErrorKind (list byte) := fun c =>
  if decide (n <= length (cursor_rest c))%nat
  then (Ok (take n (cursor_rest c)), mkCursor (inner c) (pos c + N.of_nat n))
  else (Err UnexpectedEof, mkCursor (inner c) (N.of_nat (length (inner c)))).

(** [u64::checked_add_signed] decides whether the target exists. *)
Definition cursor_seek (style : SeekFrom) : M Cursor ErrorKind Z := fun c =>
  let move base off :=
    if decide (fits 64 (base + off))
    then (Ok (base + off), mkCursor (inner c) (Z.to_N (base + off)))
    else (Err InvalidInput, c) in
  match style with
  | Start n => (Ok n, mkCursor (inner c) (Z.to_N n))
  | End_ n => move (blen (inner c)) n
  | Current n => move (Z.of_N (pos c)) n
  end.

#[global] Instance cursor_IoRead : IoRead Cursor :=
  {| read := cursor_read; read_exact := cursor_read_exact |}.
#[global] Instance cursor_IoSeek : IoSeek Cursor := {| seek := cursor_seek |}.

Definition cursor_new (bs : list byte) : Cursor := mkCursor bs 0.

(** ** [Vec<u8>] as a writer *)

Definition vec_write_all (bs : list byte) : M (list byte) ErrorKind unit :=
  modify (fun w => w ++ bs).
Definition vec_write (bs : list byte) : M (list byte) ErrorKind Z := fun w =>
  (Ok (blen bs), w ++ bs).

#[global] Instance vec_IoWrite : IoWrite (list byte) :=
  {| write := vec_write; write_all := vec_write_all; flush := ret tt |}.

(** ** The [byteorder] crate *)

Inductive Endian := BigEndian | LittleEndian.

(** [<E as ByteOrder>::read_uN] on a buffer of exactly N/8 bytes, and
    [write_uN], which panics ([None]) outside its documented domain. *)
Class ByteOrder := {
  bo_read : Endian -> list byte -> Z;
  bo_write : Endian -> nat -> Z -> option (list byte);
  bo_read_be : forall bs, bo_read BigEndian bs = be_val bs;
  bo_read_le : forall bs, bo_read LittleEndian bs = le_val bs;
  bo_write_be : forall n z, 0 <= z < 256 ^ Z.of_nat n ->
    bo_write BigEndian n z = Some (be_bytes n z);
  bo_write_le : forall n z, 0 <= z < 256 ^ Z.of_nat n ->
    bo_write LittleEndian n z = Some (le_bytes n z);
}.

Section byteorder.
Context `{BO : ByteOrder}.

(** [ReadBytesExt::read_uN::<E>]: [read_exact], then decode. *)
Definition read_uint {T} `{IoRead T} (e : Endian) (n : nat) : M T ErrorKind Z :=
  let* bs := read_exact n in ret (bo_read e bs).

(** [WriteBytesExt::write_uN::<E>]: encode, then [write_all]. *)
Definition write_uint {W} `{IoWrite W} (e : Endian) (n : nat) (z : Z) : M W ErrorKind unit :=
  let* bs := unwrap (bo_write e n z) in write_all bs.
End byteorder.

Abbreviation read_u8 := (read_uint BigEndian 1).
Abbreviation read_u16 := (read_uint BigEndian 2).
Abbreviation read_u24 := (read_uint BigEndian 3).
Abbreviation read_u32 := (read_uint BigEndian 4).
Abbreviation read_u64 := (read_uint BigEndian 8).
Abbreviation write_u8 := (write_uint BigEndian 1).
Abbreviation write_u16 := (write_uint BigEndian 2).
Abbreviation write_u24 := (write_uint BigEndian 3).
Abbreviation write_u32 := (write_uint BigEndian 4).
Abbreviation write_u64 := (write_uint BigEndian 8).

(** The crate's functions exist: an instance of the class. *)
#[global] Instance byteorder_crate : ByteOrder.
Proof.
  refine {|
    bo_read e bs := match e with BigEndian => be_val bs | LittleEndian => le_val bs end;
    bo_write e n z :=
      if (0 <=? z) && (z <? 256 ^ Z.of_nat n)
      then Some (match e with BigEndian => be_bytes n z | LittleEndian => le_bytes n z end)
      else None |};
    try done; intros n z [H1 H2]; apply Z.leb_le in H1; apply Z.ltb_lt in H2;
    by rewrite H1, H2.
Defined.

(** ** Cursor lemmas *)

(** A cursor over [pre ++ post] that has read [pre]. *)
Definition at_pos (pre post : list byte) : Cursor :=
  mkCursor (pre ++ post) (N.of_nat (length pre)).

Lemma cursor_rest_at pre post : cursor_rest (at_pos pre post) = post.
Proof.
  unfold cursor_rest, at_pos; simpl. rewrite length_app.
  replace (N.to_nat _) with (length pre) by lia. apply drop_app_length.
Qed.

Lemma cursor_at c : (pos c <= N.of_nat (length (inner c)))%N ->
  exists pre post, c = at_pos pre post.
Proof.
  destruct c as [bs p]; simpl; intros Hp.
  exists (take (N.to_nat p) bs), (drop (N.to_nat p) bs).
  unfold at_pos. rewrite take_drop, length_take. f_equal. lia.
Qed.

Lemma at_pos_app pre bs post :
  mkCursor (pre ++ bs ++ post) (N.of_nat (length pre) + N.of_nat (length bs))
  = at_pos (pre ++ bs) post.
Proof. unfold at_pos. rewrite (assoc_L (++)), length_app. f_equal. lia. Qed.

Lemma read_exact_at pre bs post n : length bs = n ->
  cursor_read_exact n (at_pos pre (bs ++ post)) = (Ok bs, at_pos (pre ++ bs) post).
Proof.
  intros <-. unfold cursor_read_exact. rewrite cursor_rest_at.
  rewrite decide_True by (rewrite length_app; lia).
  rewrite take_app_length. f_equal. apply at_pos_app.
Qed.

Lemma read_exact_eof pre post n : (length post < n)%nat ->
  cursor_read_exact n (at_pos pre post) = (Err UnexpectedEof, at_pos (pre ++ post) []).
Proof.
  intros. unfold cursor_read_exact. rewrite cursor_rest_at, decide_False by lia.
  unfold at_pos at 1 2; simpl. unfold at_pos. by rewrite app_nil_r.
Qed.

Lemma read_at pre post n :
  cursor_read n (at_pos pre post) =
    (Ok (take n post), at_pos (pre ++ take n post) (drop n post)).
Proof.
  unfold cursor_read. rewrite cursor_rest_at. f_equal.
  rewrite <-at_pos_app, take_drop. done.
Qed.

#[global] Instance cursor_IoReadLaws : IoReadLaws Cursor.
Proof.
  refine {| rest := cursor_rest |}; simpl; unfold cursor_read_exact.
  - intros n c Hn. rewrite decide_True by done. eexists; split; [done|].
    unfold cursor_rest in *. simpl. rewrite drop_drop. rewrite length_drop in Hn.
    f_equal. lia.
  - intros n c Hn. rewrite decide_False by lia. eexists; split; [done|].
    unfold cursor_rest. simpl. apply drop_ge. lia.
Defined.

#[global] Instance vec_IoWriteLaws : IoWriteLaws (list byte).
Proof. refine {| written := id |}; simpl; intros; eexists; split; done. Defined.

Lemma seek_current_at pre mid post (d : Z) :
  d = blen mid -> fits 64 (blen (pre ++ mid)) ->
  cursor_seek (Current d) (at_pos pre (mid ++ post))
    = (Ok (blen (pre ++ mid)), at_pos (pre ++ mid) post).
Proof.
  intros -> Hf. unfold cursor_seek, at_pos; simpl.
  replace (Z.of_N (N.of_nat (length pre)) + blen mid) with (blen (pre ++ mid))
    by (rewrite blen_app; unfold blen; lia).
  rewrite decide_True by done. do 2 f_equal; [by rewrite (assoc_L (++))|].
  unfold blen. lia.
Qed.

Lemma seek_start_at pre post cur :
  inner cur = pre ++ post ->
  cursor_seek (Start (blen pre)) cur = (Ok (blen pre), at_pos pre post).
Proof.
  intros Hi. unfold cursor_seek, at_pos. rewrite Hi. do 2 f_equal. unfold blen. lia.
Qed.

(** ** Decoding lemmas: [read_uint] and [write_uint] *)

Section byteorder_lemmas.
Context `{BO : ByteOrder}.

Lemma read_uint_be_at pre bs post n : length bs = n ->
  read_uint (T := Cursor) BigEndian n (at_pos pre (bs ++ post))
    = (Ok (be_val bs), at_pos (pre ++ bs) post).
Proof.
  intros Hl. unfold read_uint. mstep (read_exact_at pre bs post n Hl).
  unfold ret. by rewrite bo_read_be.
Qed.

Lemma read_uint_le_at pre bs post n : length bs = n ->
  read_uint (T := Cursor) LittleEndian n (at_pos pre (bs ++ post))
    = (Ok (le_val bs), at_pos (pre ++ bs) post).
Proof.
  intros Hl. unfold read_uint. mstep (read_exact_at pre bs post n Hl).
  unfold ret. by rewrite bo_read_le.
Qed.

Lemma read_uint_be_bytes pre z post n : 0 <= z < 256 ^ Z.of_nat n ->
  read_uint (T := Cursor) BigEndian n (at_pos pre (be_bytes n z ++ post))
    = (Ok z, at_pos (pre ++ be_bytes n z) post).
Proof.
  intros Hz. rewrite read_uint_be_at by apply length_be_bytes.
  by rewrite be_val_be_bytes.
Qed.

Lemma read_uint_le_bytes pre z post n : 0 <= z < 256 ^ Z.of_nat n ->
  read_uint (T := Cursor) LittleEndian n (at_pos pre (le_bytes n z ++ post))
    = (Ok z, at_pos (pre ++ le_bytes n z) post).
Proof.
  intros Hz. rewrite read_uint_le_at by apply length_le_bytes.
  by rewrite le_val_le_bytes.
Qed.

Lemma read_uint_eof e pre post n : (length post < n)%nat ->
  read_uint (T := Cursor) e n (at_pos pre post) = (Err UnexpectedEof, at_pos (pre ++ post) []).
Proof. intros Hl. unfold read_uint. by mstep (read_exact_eof pre post n Hl). Qed.

(** Every outcome of [read_uint] on an in-range cursor. *)
Lemma read_uint_cases e pre post n :
  (exists bs post', post = bs ++ post' /\ length bs = n /\
    read_uint (T := Cursor) e n (at_pos pre post)
      = (Ok (match e with BigEndian => be_val bs | LittleEndian => le_val bs end),
         at_pos (pre ++ bs) post'))
  \/ ((length post < n)%nat /\
    read_uint (T := Cursor) e n (at_pos pre post) = (Err UnexpectedEof, at_pos (pre ++ post) [])).
Proof.
  destruct (decide (length post < n)%nat) as [Hlt|Hge].
  - right. split; [done|]. by apply read_uint_eof.
  - left. exists (take n post), (drop n post).
    assert (length (take n post) = n) as Hl by (rewrite length_take; lia).
    split; [by rewrite take_drop|]. split; [done|].
    rewrite <-(take_drop n post) at 1.
    destruct e; [by rewrite read_uint_be_at | by rewrite read_uint_le_at].
Qed.

Lemma write_uint_be w n z : 0 <= z < 256 ^ Z.of_nat n ->
  write_uint (W := list byte) BigEndian n z w = (Ok tt, w ++ be_bytes n z).
Proof. intros Hz. unfold write_uint. by rewrite bo_write_be. Qed.

Lemma write_uint_le w n z : 0 <= z < 256 ^ Z.of_nat n ->
  write_uint (W := list byte) LittleEndian n z w = (Ok tt, w ++ le_bytes n z).
Proof. intros Hz. unfold write_uint. by rewrite bo_write_le. Qed.
End byteorder_lemmas.

(** ** Parsers over a cursor

    [parses m pre post Q]: started after [pre] with [post] left, [m] does not
    run out of fuel; a result comes from a prefix of [post] it consumed and
    satisfies [Q]; after an error the cursor is still inside the buffer. *)
Definition parses {E A} (m : M Cursor E A) (pre post : list byte) (Q : A -> list byte -> Prop) : Prop :=
  match m (at_pos pre post) with
  | (Ok a, c) => exists bs post', post = bs ++ post' /\ c = at_pos (pre ++ bs) post' /\ Q a bs
  | (Err _, c) => exists pre' post', pre ++ post = pre' ++ post' /\ c = at_pos pre' post'
  | (Panic, _) => True
  | (Fuel, _) => False
  end.

Lemma parses_ret {E A} (a : A) pre post (Q : A -> list byte -> Prop) :
  Q a [] -> parses (E := E) (ret a) pre post Q.
Proof. intros HQ. exists [], post. by rewrite app_nil_r. Qed.

Lemma parses_throw {E A} (e : E) pre post (Q : A -> list byte -> Prop) :
  parses (throw e) pre post Q.
Proof. by exists pre, post. Qed.

Lemma parses_bind {E A B} (m : M Cursor E A) (k : A -> M Cursor E B) pre post
    (Q : A -> list byte -> Prop) (R : B -> list byte -> Prop) :
  parses m pre post Q ->
  (forall a bs post', post = bs ++ post' -> Q a bs ->
    parses (k a) (pre ++ bs) post' (fun b bs' => R b (bs ++ bs'))) ->
  parses (bind m k) pre post R.
Proof.
  unfold parses, bind. destruct (m (at_pos pre post)) as [[a|e| |] c]; try done.
  intros (bs & post' & -> & -> & HQ) Hk. specialize (Hk a bs post' eq_refl HQ).
  destruct (k a _) as [[b|e| |] c']; try done.
  - destruct Hk as (bs' & post'' & -> & -> & HR). exists (bs ++ bs'), post''.
    by rewrite !(assoc_L (++)).
  - destruct Hk as (pre' & post'' & Heq & ->). exists pre', post''.
    by rewrite <-Heq, (assoc_L (++)).
Qed.

Lemma parses_mono {E A} (m : M Cursor E A) pre post (Q R : A -> list byte -> Prop) :
  parses m pre post Q -> (forall a bs, Q a bs -> R a bs) -> parses m pre post R.
Proof.
  unfold parses. destruct (m _) as [[]]; try done.
  intros (bs & post' & ? & ? & ?) HQR. exists bs, post'. eauto.
Qed.

Lemma parses_map_err {E E' A} (f : E -> E') (m : M Cursor E A) pre post (Q : A -> list byte -> Prop) :
  parses m pre post Q -> parses (map_err f m) pre post Q.
Proof. unfold parses, map_err. by destruct (m _) as [[]]. Qed.

Lemma parses_uint `{BO : ByteOrder} e n pre post :
  parses (read_uint (T := Cursor) e n) pre post
    (fun z bs => length bs = n /\ 0 <= z < 256 ^ Z.of_nat n).
Proof.
  unfold parses. destruct (read_uint_cases e pre post n) as [(bs & post' & -> & Hl & ->)|[Hl ->]].
  - exists bs, post'. split; [done|]. split; [done|]. split; [done|]. subst n.
    destruct e; [apply be_val_range|apply le_val_range].
  - exists (pre ++ post), []. by rewrite app_nil_r.
Qed.
