(* ===== verification/BitRead.v ===== *)
(** * [scuffle-bytes-util]: [BitReader] (crates/bytes-util/src/bit_read.rs)

    Definitions of every method, generic in the underlying reader, and the
    refinement to the stream of bits the reader denotes: reading consumes the
    stream from its front, most significant bit first, and seeking moves an
    absolute bit position. *)

From stdpp Require Import base list numbers.
From Stdlib Require Import Strings.Byte.
From S2P Require Import Prelude Io.

Module BitReader.

Record t (T : Type) := mk { data : T; bit_pos : Z; current_byte : Z }.
Arguments mk {T} _ _ _.
Arguments data {T} _.
Arguments bit_pos {T} _.
Arguments current_byte {T} _.

Definition new {T} (data : T) : t T := mk data 0 0.

Definition new_from_slice (bs : list byte) : t Cursor := new (cursor_new bs).

Definition is_aligned {T} (r : t T) : bool := bit_pos r =? 0.

Definition into_inner {T} (r : t T) : T := data r.

Definition set_data {T} (d : T) (r : t T) : t T := mk d (bit_pos r) (current_byte r).
Definition set_bit_pos {T} (p : Z) (r : t T) : t T := mk (data r) p (current_byte r).
Definition set_current_byte {T} (b : Z) (r : t T) : t T := mk (data r) (bit_pos r) b.

Section reader.
Context {T : Type} `{IoRead T}.

Definition update_byte : M (t T) ErrorKind unit :=
  let* buf := zoom data set_data (read_exact 1) in
  let* b := unwrap (head buf) in
  modify (set_current_byte (b2z b)).

Definition read_bit : M (t T) ErrorKind bool :=
  let* r := get in
  (if is_aligned r then update_byte else ret tt) ;;;
  let* r := get in
  let bit := Z.land (Z.shiftr (current_byte r) (7 - bit_pos r)) 1 in
  put (set_bit_pos ((bit_pos r + 1) `mod` 8) r) ;;;
  ret (bit =? 1).

(** The loop of [read_bits]: [bits] is a [u64], shifted left by one and or-ed
    with the bit. *)
Fixpoint read_bits_loop (n : nat) (bits : Z) : M (t T) ErrorKind Z :=
  match n with
  | O => ret bits
  | S n =>
      let* bit := read_bit in
      read_bits_loop n (Z.lor (wrap 64 (Z.shiftl bits 1)) (if bit then 1 else 0))
  end.

Definition read_bits (count : Z) : M (t T) ErrorKind Z :=
  let count := Z.min count 64 in
  read_bits_loop (Z.to_nat count) 0.

Definition align : M (t T) ErrorKind unit := modify (set_bit_pos 0).

(** One byte of an unaligned [io::Read::read]. *)
Fixpoint read_byte_loop (n : nat) (byte : Z) : M (t T) ErrorKind Z :=
  match n with
  | O => ret byte
  | S n =>
      let* bit := read_bit in
      read_byte_loop n (Z.lor (wrap 8 (Z.shiftl byte 1)) (Z.b2z bit))
  end.

Fixpoint read_unaligned (n : nat) : M (t T) ErrorKind (list byte) :=
  match n with
  | O => ret []
  | S n =>
      let* b := read_byte_loop 8 0 in
      let* bs := read_unaligned n in
      ret (z2b b :: bs)
  end.

(** [io::Read::read]; the result is what was put in the buffer. *)
Definition read (n : nat) : M (t T) ErrorKind (list byte) :=
  let* r := get in
  if is_aligned r then zoom data set_data (Io.read n) else read_unaligned n.

Context `{IoSeek T}.

Definition bit_stream_position : M (t T) ErrorKind Z :=
  let* p := zoom data set_data stream_position in
  let* r := get in
  let* p8 := checked_u 64 (p * 8) in
  let* q := checked_u 64 (p8 + (if is_aligned r then 8 else bit_pos r)) in
  checked_u 64 (q - 8).

Definition seek_bits (count : Z) : M (t T) ErrorKind Z :=
  if count =? 0 then bit_stream_position
  else
    let* r := get in
    let* count := checked_i 64 (bit_pos r + count) in
    let bit_move := Z.rem count 8 in
    let byte_move := Z.quot count 8 in
    let* byte_move := if is_aligned r then ret byte_move else checked_i 64 (byte_move - 1) in
    let* byte_move := if bit_move <? 0 then checked_i 64 (byte_move - 1) else ret byte_move in
    let* p := zoom data set_data (Io.seek (Current byte_move)) in
    let* p := checked_u 64 (p * 8) in
    modify (set_bit_pos (Z.rem (8 + bit_move) 8)) ;;;
    let* r := get in
    if is_aligned r then ret p
    else
      update_byte ;;;
      let* r := get in
      checked_u 64 (p + bit_pos r).

(** [io::Seek::seek]; [div_ceil(8)] rounds a bit position up to a byte. *)
Definition seek (p : SeekFrom) : M (t T) ErrorKind Z :=
  let* r := get in
  match p with
  | Current offset =>
      if is_aligned r
      then modify (set_bit_pos 0) ;;; zoom data set_data (Io.seek p)
      else
        let* bits := checked_i 64 (offset * 8) in
        let* q := seek_bits bits in
        ret ((q + 7) / 8)
  | _ => modify (set_bit_pos 0) ;;; zoom data set_data (Io.seek p)
  end.
End reader.

(** ** The bit stream a reader denotes *)

(** [bit_pos] is below 8 and [current_byte] is a byte. *)
Definition wf {T} (r : t T) : Prop := 0 <= bit_pos r < 8 /\ fits 8 (current_byte r).

Section denotation.
Context {T : Type} `{IoReadLaws T}.

(** The bits of the current byte that are not yet consumed. *)
Definition partial (r : t T) : list bool :=
  if is_aligned r then [] else drop (Z.to_nat (bit_pos r)) (val_bits 8 (current_byte r)).

Definition bits (r : t T) : list bool := partial r ++ bytes_bits (rest (data r)).

Lemma drop_val_bits8 (p : nat) c : (p < 8)%nat ->
  drop p (val_bits 8 c) = Z.testbit c (7 - Z.of_nat p) :: drop (S p) (val_bits 8 c).
Proof. intros. do 8 (destruct p as [|p]; [reflexivity|]). lia. Qed.

(** The part of [read_bit] after the byte is loaded. *)
Lemma read_bit_loaded (r : t T) : 0 <= bit_pos r < 8 ->
  let r' := set_bit_pos ((bit_pos r + 1) `mod` 8) r in
  drop (Z.to_nat (bit_pos r)) (val_bits 8 (current_byte r))
    = Z.testbit (current_byte r) (7 - bit_pos r) :: partial r' /\ 0 <= bit_pos r' < 8.
Proof.
  intros Hp r'. unfold partial, is_aligned, r'; simpl.
  rewrite drop_val_bits8 by lia. rewrite Z2Nat.id by lia.
  assert (bit_pos r = 7 \/ bit_pos r < 7) as [->|Hlt] by lia; [done|].
  rewrite (Z.mod_small (bit_pos r + 1)) by lia.
  rewrite (proj2 (Z.eqb_neq (bit_pos r + 1) 0)) by lia.
  replace (Z.to_nat (bit_pos r + 1)) with (S (Z.to_nat (bit_pos r))) by lia.
  split; [done|lia].
Qed.

Lemma update_byte_some (r : t T) b bs : rest (data r) = b :: bs ->
  exists d, update_byte r = (Ok tt, mk d (bit_pos r) (b2z b)) /\ rest d = bs.
Proof.
  intros Hr. destruct (read_exact_some 1 (data r)) as (d & Hd & Hrest).
  { rewrite Hr. simpl. lia. }
  exists d. rewrite Hr in Hd, Hrest. split; [|by rewrite Hrest].
  unfold update_byte. erewrite bind_ok; [|by apply zoom_ok]. done.
Qed.

Lemma update_byte_none (r : t T) : rest (data r) = [] ->
  exists d, update_byte r = (Err UnexpectedEof, set_data d r) /\ rest d = [].
Proof.
  intros Hr. destruct (read_exact_none 1 (data r)) as (d & Hd & Hrest).
  { rewrite Hr. simpl. lia. }
  exists d. split; [|done]. unfold update_byte. erewrite bind_err; [|by apply zoom_err]. done.
Qed.

Lemma read_bit_cons (r : t T) b bs : wf r -> bits r = b :: bs ->
  exists r', read_bit r = (Ok b, r') /\ bits r' = bs /\ wf r'.
Proof.
  intros [Hp Hc] Hb. unfold read_bit. erewrite bind_ok; [|done].
  destruct (is_aligned r) eqn:Ha.
  - unfold bits, partial in Hb. rewrite Ha in Hb. simpl in Hb.
    destruct (rest (data r)) as [|y ys] eqn:Hr; [done|].
    destruct (update_byte_some r y ys Hr) as (d & Hu & Hd).
    unfold is_aligned in Ha. apply Z.eqb_eq in Ha.
    erewrite bind_ok; [|exact Hu]. erewrite bind_ok; [|done].
    erewrite bind_ok; [|done]. unfold ret. simpl.
    rewrite Ha, testbit_shiftr_land by lia. rewrite bytes_bits_cons in Hb.
    unfold byte_bits in Hb. rewrite val_bits_S in Hb. injection Hb as Hbit Hbs.
    eexists; split; [by rewrite <-Hbit|]. unfold bits, wf, partial; simpl.
    rewrite Hd. split; [by rewrite <-Hbs|]. split; [done|apply b2z_fits].
  - erewrite bind_ok; [|done]. erewrite bind_ok; [|done]. erewrite bind_ok; [|done].
    unfold ret. rewrite testbit_shiftr_land by lia.
    destruct (read_bit_loaded r Hp) as [Hd Hp'].
    unfold bits in Hb. unfold partial in Hb. rewrite Ha, Hd in Hb. injection Hb as <- Hbs.
    eexists; split; [done|]. split; [exact Hbs|]. split; done.
Qed.

Lemma read_bit_nil (r : t T) : wf r -> bits r = [] ->
  exists r', read_bit r = (Err UnexpectedEof, r') /\ bits r' = [].
Proof.
  intros [Hp Hc] Hb. unfold bits in Hb. apply app_nil in Hb as [Hpart Hr].
  unfold read_bit. erewrite bind_ok; [|done].
  destruct (is_aligned r) eqn:Ha.
  - destruct (rest (data r)) as [|y ys] eqn:Hrest; [|done].
    destruct (update_byte_none r Hrest) as (d & Hu & Hd).
    erewrite bind_err; [|exact Hu]. eexists; split; [done|].
    unfold bits, partial. simpl. change (is_aligned (set_data d r)) with (is_aligned r).
    by rewrite Ha, Hd.
  - exfalso. unfold partial in Hpart. rewrite Ha in Hpart.
    pose proof (read_bit_loaded r Hp) as [Hd _]. by rewrite Hd in Hpart.
Qed.

(** The accumulating loops of [read_bits] and of [io::Read::read] consume the
    stream; a loop of at most [w] steps at width [w] loses no bit. *)
Lemma lor_step w acc (b : bool) k : 0 <= acc < 2 ^ k -> 0 <= k < w ->
  Z.lor (wrap w (Z.shiftl acc 1)) (if b then 1 else 0) = 2 * acc + Z.b2z b.
Proof.
  intros Hacc Hk. unfold wrap. rewrite Z.mod_small.
  - apply (lor_shiftl_bit acc b).
  - rewrite Z.shiftl_mul_pow2 by lia.
    assert (2 ^ (k + 1) <= 2 ^ w) by (apply Z.pow_le_mono_r; lia).
    rewrite Z.pow_add_r in * by lia. lia.
Qed.

Lemma read_bits_loop_ok n : forall acc (r : t T) k,
  wf r -> (n <= length (bits r))%nat -> 0 <= acc < 2 ^ k -> 0 <= k -> k + Z.of_nat n <= 64 ->
  exists r', read_bits_loop n acc r = (Ok (bits_val_acc acc (take n (bits r))), r')
    /\ bits r' = drop n (bits r) /\ wf r'.
Proof.
  induction n as [|n IH]; intros acc r k Hwf Hl Hacc Hk Hn.
  - exists r. rewrite drop_0. done.
  - destruct (bits r) as [|b bs] eqn:Hb; [simpl in Hl; lia|].
    destruct (read_bit_cons r b bs Hwf Hb) as (r1 & H1 & Hb1 & Hwf1).
    cbn [read_bits_loop]. erewrite bind_ok; [|exact H1].
    rewrite (lor_step 64 acc b k) by lia.
    destruct (IH (2 * acc + Z.b2z b) r1 (k + 1)) as (r' & H' & Hb' & Hwf');
      [done|rewrite Hb1; simpl in Hl; lia| |lia|lia|].
    { rewrite Z.pow_add_r by lia. destruct b; simpl; lia. }
    exists r'. rewrite H', Hb1. split; [done|]. split; [by rewrite Hb', Hb1|done].
Qed.

Lemma read_bits_loop_eof n : forall acc (r : t T),
  wf r -> (length (bits r) < n)%nat ->
  exists r', read_bits_loop n acc r = (Err UnexpectedEof, r') /\ bits r' = [].
Proof.
  induction n as [|n IH]; intros acc r Hwf Hl; [lia|]. cbn [read_bits_loop].
  destruct (bits r) as [|b bs] eqn:Hb.
  - destruct (read_bit_nil r Hwf Hb) as (r' & Hr' & Hn).
    erewrite bind_err; [|exact Hr']. eauto.
  - destruct (read_bit_cons r b bs Hwf Hb) as (r1 & H1 & Hb1 & Hwf1).
    erewrite bind_ok; [|exact H1]. apply IH; [done|]. rewrite Hb1. simpl in Hl. lia.
Qed.

(** The form in which clients use [read_bits]: the stream starts with [xs]. *)
Lemma read_bits_app (r : t T) count xs ys :
  wf r -> bits r = xs ++ ys -> Z.of_nat (length xs) = count -> count <= 64 ->
  exists r', read_bits count r = (Ok (bits_val xs), r') /\ bits r' = ys /\ wf r'.
Proof.
  intros Hwf Hb <- Hc. unfold read_bits. rewrite Z.min_l, Nat2Z.id by lia.
  destruct (read_bits_loop_ok (length xs) 0 r 0) as (r' & H1 & H2 & H3);
    [done|rewrite Hb, length_app; lia|lia|lia|lia|].
  rewrite Hb, take_app_length in H1. rewrite Hb, drop_app_length in H2. eauto.
Qed.
End denotation.

Lemma wf_new {T} (d : T) : wf (new d).
Proof. split; done. Qed.

Lemma bits_new `{IoReadLaws T} (d : T) : bits (new d) = bytes_bits (rest d).
Proof. done. Qed.

Lemma bits_new_from_slice bs : bits (new_from_slice bs) = bytes_bits bs.
Proof.
  unfold new_from_slice. rewrite bits_new. simpl. unfold cursor_rest. simpl.
  rewrite N.min_0_l. done.
Qed.

(** ** [io::Read] for [BitReader] *)

Lemma read_byte_loop_eq {T} `{IoRead T} n : forall acc k, 0 <= acc < 2 ^ k -> 0 <= k ->
  k + Z.of_nat n <= 8 -> forall r : t T, read_byte_loop n acc r = read_bits_loop n acc r.
Proof.
  induction n as [|n IH]; intros acc k Hacc Hk Hn r; [done|].
  cbn [read_byte_loop read_bits_loop]. unfold bind.
  destruct (read_bit r) as [[b| | |] r1]; try done.
  change (Z.b2z b) with (if b then 1 else 0).
  rewrite (lor_step 8 acc b k), (lor_step 64 acc b k) by lia.
  apply (IH _ (k + 1)); [|lia|lia]. rewrite Z.pow_add_r by lia. destruct b; simpl; lia.
Qed.

Lemma read_unaligned_ok {T} `{IoReadLaws T} n : forall r : t T,
  wf r -> (8 * n <= length (bits r))%nat ->
  exists bs r', read_unaligned n r = (Ok bs, r') /\ length bs = n
    /\ bytes_bits bs = take (8 * n) (bits r) /\ bits r' = drop (8 * n) (bits r) /\ wf r'.
Proof.
  induction n as [|n IH]; intros r Hwf Hl.
  { exists [], r. by rewrite Nat.mul_0_r, drop_0, take_0. }
  destruct (read_bits_loop_ok 8 0 r 0) as (r1 & H1 & Hb1 & Hwf1); [done|lia|lia|lia|lia|].
  destruct (IH r1 Hwf1) as (bs & r' & H2 & Hlen & Hbs & Hb2 & Hwf2).
  { rewrite Hb1, length_drop. lia. }
  cbn [read_unaligned]. exists (z2b (bits_val (take 8 (bits r))) :: bs), r'.
  erewrite bind_ok; [|rewrite (read_byte_loop_eq 8 0 0) by lia; exact H1].
  erewrite bind_ok; [|exact H2].
  split; [done|]. split; [simpl; by rewrite Hlen|].
  replace (8 * S n)%nat with (8 + 8 * n)%nat by lia.
  rewrite Hb2, Hb1, drop_drop. split; [|done].
  rewrite bytes_bits_cons, Hbs, Hb1, <-take_take_drop. f_equal.
  unfold byte_bits. pose proof (bits_val_range (take 8 (bits r))) as Hr.
  assert (length (take 8 (bits r)) = 8%nat) as H8 by (rewrite length_take; lia).
  unfold blen in Hr. rewrite H8 in Hr. change (2 ^ Z.of_nat 8) with 256 in Hr.
  rewrite b2z_z2b_small by done. by apply val_bits_bits_val.
Qed.

(** [io::Read::read] returns the next whole bytes of the bit stream, whether
    the reader is aligned (it delegates) or not (it shifts). *)
Lemma read_refines (r : t Cursor) n : wf r -> (8 * n <= length (bits r))%nat ->
  exists bs r', read n r = (Ok bs, r') /\ bytes_bits bs = take (8 * n) (bits r)
    /\ bits r' = drop (8 * n) (bits r) /\ wf r'.
Proof.
  intros Hwf Hl. unfold read. erewrite bind_ok; [|done].
  destruct (is_aligned r) eqn:Ha.
  - assert (bits r = bytes_bits (cursor_rest (data r))) as Hb.
    { unfold bits, partial. by rewrite Ha. }
    rewrite Hb, length_bytes_bits in Hl.
    destruct (read_exact_some n (data r)) as (d & Hd & Hrest); [simpl; lia|].
    exists (take n (cursor_rest (data r))),
      (set_data (mkCursor (inner (data r)) (pos (data r) + N.of_nat n)) r).
    split.
    { apply zoom_ok. simpl. unfold cursor_read. rewrite length_take, Nat.min_l by lia. done. }
    simpl in Hd, Hrest. unfold cursor_read_exact in Hd.
    rewrite decide_True in Hd by lia. injection Hd as Hd.
    rewrite Hb. split; [|split].
    + symmetry. rewrite <-(take_drop n (cursor_rest (data r))) at 1.
      rewrite bytes_bits_app. apply take_app_length'.
      rewrite length_bytes_bits, length_take. lia.
    + unfold bits, partial. change (is_aligned (set_data _ r)) with (is_aligned r).
      rewrite Ha. simpl. rewrite Hd, Hrest. symmetry.
      rewrite <-(take_drop n (cursor_rest (data r))) at 1.
      rewrite bytes_bits_app. apply drop_app_length'.
      rewrite length_bytes_bits, length_take. lia.
    + exact Hwf.
  - destruct (read_unaligned_ok n r Hwf Hl) as (bs & r' & ? & ? & ? & ? & ?). eauto 10.
Qed.

(** ** Absolute bit positions over a cursor *)

(** The number of bits of the buffer that are consumed. *)
Definition position (r : t Cursor) : Z :=
  8 * Z.of_N (pos (data r)) + (if is_aligned r then 0 else bit_pos r - 8).

(** A reader over a cursor: the position is in the buffer, and when it is not
    aligned the current byte is the one just before the cursor. *)
Definition inv (r : t Cursor) : Prop :=
  wf r /\ Z.of_N (pos (data r)) <= blen (inner (data r)) /\
  (is_aligned r = false -> exists b, 0 < Z.of_N (pos (data r)) /\
     inner (data r) !! Z.to_nat (Z.of_N (pos (data r)) - 1) = Some b /\ current_byte r = b2z b).

Lemma inv_new bs : inv (new_from_slice bs).
Proof. split; [apply wf_new|]. split; [apply blen_nonneg|done]. Qed.

Lemma drop_bytes_bits n bs : drop (8 * n) (bytes_bits bs) = bytes_bits (drop n bs).
Proof.
  revert n. induction bs as [|b bs IH]; intros n.
  { change (bytes_bits []) with (@nil bool). by rewrite !drop_nil. }
  destruct n as [|n]; [done|]. rewrite bytes_bits_cons. cbn [drop].
  replace (8 * S n)%nat with (length (byte_bits b) + 8 * n)%nat
    by (rewrite length_byte_bits; lia).
  rewrite drop_app_add. apply IH.
Qed.

Lemma inv_bits (r : t Cursor) : inv r ->
  bits r = drop (Z.to_nat (position r)) (bytes_bits (inner (data r))) /\
  0 <= position r <= 8 * blen (inner (data r)).
Proof.
  intros ([Hp Hc] & Hle & Hcur). destruct r as [[bs p] bp cb]. simpl in *.
  unfold bits, partial, position, is_aligned, blen in *. simpl in *. unfold cursor_rest. simpl.
  replace (N.to_nat (N.min p (N.of_nat (length bs)))) with (N.to_nat p) by lia.
  destruct (Z.eqb_spec bp 0) as [->|Hne].
  - split; [|lia]. rewrite <-drop_bytes_bits. simpl. f_equal. lia.
  - destruct (Hcur eq_refl) as (b & Hpos & Hb & ->). split; [|lia].
    replace (Z.to_nat (8 * Z.of_N p + (bp - 8)))
      with (8 * Z.to_nat (Z.of_N p - 1) + Z.to_nat bp)%nat by lia.
    rewrite <-drop_drop, drop_bytes_bits.
    rewrite (drop_S bs b _ Hb), bytes_bits_cons, drop_app_le
      by (rewrite length_byte_bits; lia).
    unfold byte_bits. do 3 f_equal. lia.
Qed.

Lemma bit_stream_position_ok (r : t Cursor) :
  inv r -> 8 * blen (inner (data r)) < 2 ^ 63 ->
  bit_stream_position r = (Ok (position r), r).
Proof.
  intros Hinv Hlen. pose proof (inv_bits r Hinv) as [_ Hpos].
  destruct Hinv as ([Hp Hc] & Hle & Hcur). destruct r as [[bs p] bp cb]. simpl in *.
  unfold bit_stream_position, position, is_aligned in *. simpl in *.
  erewrite bind_ok; [|apply zoom_ok; simpl; unfold cursor_seek; simpl;
    rewrite Z.add_0_r, decide_True by (unfold fits; lia); reflexivity].
  erewrite bind_ok; [|done]. unfold set_data; simpl. rewrite N2Z.id.
  unfold is_aligned; simpl.
  destruct (Z.eqb_spec bp 0) as [->|Hne].
  - do 2 (erewrite bind_ok; [|apply checked_u_ok; unfold fits; lia]).
    rewrite checked_u_ok by (unfold fits; lia). do 2 f_equal. lia.
  - destruct (Hcur eq_refl) as (b & Hpp & _).
    do 2 (erewrite bind_ok; [|apply checked_u_ok; unfold fits; lia]).
    rewrite checked_u_ok by (unfold fits; lia). do 2 f_equal. lia.
Qed.

(** The truncating division of [seek_bits], corrected by its two decrements,
    is the floor division of the target position. *)
Lemma seek_moves c : let bm := if Z.rem c 8 <? 0 then Z.quot c 8 - 1 else Z.quot c 8 in
  bm = c / 8 /\ Z.rem (8 + Z.rem c 8) 8 = c `mod` 8.
Proof.
  intros bm. unfold bm. pose proof (Z.quot_rem' c 8) as Hq.
  assert (- 8 < Z.rem c 8 < 8) as Hr.
  { pose proof (Z.rem_bound_abs c 8 ltac:(lia)). lia. }
  rewrite (Z.rem_mod_nonneg (8 + Z.rem c 8)) by lia.
  destruct (Z.ltb_spec (Z.rem c 8) 0).
  - rewrite (Z.mod_small (8 + Z.rem c 8)) by lia. split.
    + apply (Z.div_unique c 8 _ (8 + Z.rem c 8)); lia.
    + apply (Z.mod_unique c 8 (Z.quot c 8 - 1)); lia.
  - replace ((8 + Z.rem c 8) `mod` 8) with (Z.rem c 8)
      by (apply (Z.mod_unique (8 + Z.rem c 8) 8 1); lia).
    split; [apply (Z.div_unique c 8 _ (Z.rem c 8)); lia|].
    apply (Z.mod_unique c 8 (Z.quot c 8)); lia.
Qed.

Lemma read_exact_byte bs p b :
  bs !! N.to_nat p = Some b ->
  cursor_read_exact 1 (mkCursor bs p) = (Ok [b], mkCursor bs (p + 1)).
Proof.
  intros Hb. pose proof (lookup_lt_Some _ _ _ Hb) as Hlt.
  unfold cursor_read_exact, cursor_rest. simpl.
  replace (N.to_nat (N.min p (N.of_nat (length bs)))) with (N.to_nat p) by lia.
  rewrite (drop_S bs b _ Hb), decide_True by (simpl; lia). done.
Qed.

(** The byte offset [seek_bits] hands to the cursor. *)
Lemma seek_bits_move (r : t Cursor) count : wf r -> count <> 0 ->
  - 2 ^ 63 <= count < 2 ^ 63 - 8 ->
  seek_bits count r =
    (let* p := zoom data set_data
                 (Io.seek (Current ((bit_pos r + count) / 8 - if is_aligned r then 0 else 1))) in
     let* p := checked_u 64 (p * 8) in
     modify (set_bit_pos ((bit_pos r + count) `mod` 8)) ;;;
     let* r := get in
     if is_aligned r then ret p
     else update_byte ;;; let* r := get in checked_u 64 (p + bit_pos r)) r.
Proof.
  intros [Hp _] Hne Hc. unfold seek_bits. rewrite (proj2 (Z.eqb_neq count 0)) by done.
  erewrite bind_ok; [|done].
  erewrite bind_ok; [|apply checked_i_ok; lia].
  destruct (seek_moves (bit_pos r + count)) as [Hq ->].
  set (c := bit_pos r + count) in *.
  assert (- 2 ^ 62 <= Z.quot c 8 <= 2 ^ 62) as Hb.
  { pose proof (Z.quot_rem' c 8). pose proof (Z.rem_bound_abs c 8 ltac:(lia)). lia. }
  destruct (is_aligned r); cbn match in *;
    (erewrite bind_ok; [|first [reflexivity | apply checked_i_ok; lia]]);
    destruct (Z.rem c 8 <? 0); rewrite <-Hq;
    (erewrite bind_ok; [|first [reflexivity | apply checked_i_ok; lia]]);
    first [ by rewrite Z.sub_0_r | done ].
Qed.

(** The reader at an absolute bit position of a buffer. *)
Definition seeked (bs : list byte) (target cb : Z) : t Cursor :=
  if target `mod` 8 =? 0 then mk (mkCursor bs (Z.to_N (target / 8))) 0 cb
  else mk (mkCursor bs (Z.to_N (target / 8 + 1))) (target `mod` 8)
         (b2z (default x00 (bs !! Z.to_nat (target / 8)))).

Lemma seeked_inv bs target cb : 0 <= target <= 8 * blen bs -> fits 8 cb ->
  inv (seeked bs target cb) /\ position (seeked bs target cb) = target.
Proof.
  intros Ht Hcb. pose proof (Z.div_mod target 8 ltac:(lia)) as Hdm.
  pose proof (Z.mod_pos_bound target 8 ltac:(lia)) as Hm. unfold blen in *.
  unfold seeked. destruct (Z.eqb_spec (target `mod` 8) 0) as [H0|Hne].
  - unfold inv, wf, position, is_aligned; simpl. unfold blen. lia || (split; [|lia]).
    split; [split; [lia|done]|]. split; [lia|done].
  - destruct (lookup_lt_is_Some_2 bs (Z.to_nat (target / 8))) as [b Hb]; [lia|].
    rewrite Hb. unfold inv, wf, position, is_aligned, blen; simpl.
    rewrite (proj2 (Z.eqb_neq (target `mod` 8) 0)) by done. split; [|lia].
    split; [split; [lia|apply b2z_fits]|]. split; [lia|]. intros _. exists b.
    split; [lia|]. split; [|done]. rewrite <-Hb. f_equal. lia.
Qed.

Lemma seek_bits_to (r : t Cursor) count : inv r -> count <> 0 ->
  8 * blen (inner (data r)) < 2 ^ 63 -> - 2 ^ 63 <= count < 2 ^ 63 - 8 ->
  0 <= position r + count <= 8 * blen (inner (data r)) ->
  seek_bits count r =
    (Ok (position r + count), seeked (inner (data r)) (position r + count) (current_byte r)).
Proof.
  intros Hinv Hne Hlen Hcount Ht. destruct (Hinv) as (Hwf & Hle & Hcur).
  rewrite seek_bits_move by done. destruct r as [[bs p] bp cb]. simpl in *.
  unfold position, is_aligned in *. simpl in *.
  set (u := if bp =? 0 then 0 else 1) in *.
  set (target := 8 * Z.of_N p + (if bp =? 0 then 0 else bp - 8) + count) in *.
  assert (target = 8 * (Z.of_N p - u) + (bp + count)) as Htc.
  { unfold target, u. destruct (Z.eqb_spec bp 0); lia. }
  assert ((bp + count) `mod` 8 = target `mod` 8) as ->.
  { rewrite Htc. replace (8 * (Z.of_N p - u) + (bp + count))
      with ((bp + count) + (Z.of_N p - u) * 8) by lia. by rewrite Z.mod_add. }
  assert (Z.of_N p + ((bp + count) / 8 - u) = target / 8) as Hdiv.
  { rewrite Htc, Z.mul_comm, Z.div_add_l by lia. lia. }
  pose proof (Z.div_mod target 8 ltac:(lia)) as Hdm.
  pose proof (Z.mod_pos_bound target 8 ltac:(lia)) as Hm.
  erewrite bind_ok; [|apply zoom_ok; simpl; unfold cursor_seek; simpl; rewrite Hdiv,
    decide_True by (unfold fits; lia); reflexivity].
  erewrite bind_ok; [|apply checked_u_ok; unfold fits; lia].
  erewrite bind_ok; [|done]. erewrite bind_ok; [|done].
  unfold seeked, is_aligned; simpl. destruct (Z.eqb_spec (target `mod` 8) 0) as [H0|Hn0].
  - unfold ret, set_bit_pos, set_data; simpl. rewrite H0. do 2 f_equal. lia.
  - unfold blen in *.
    destruct (lookup_lt_is_Some_2 bs (Z.to_nat (target / 8))) as [b Hb]; [lia|].
    erewrite bind_ok; cycle 1.
    { unfold update_byte. erewrite bind_ok; [|apply zoom_ok; simpl; apply read_exact_byte;
        rewrite <-Hb; f_equal; lia]. reflexivity. }
    erewrite bind_ok; [|done]. unfold set_bit_pos, set_data, set_current_byte; simpl.
    rewrite checked_u_ok by (unfold fits; lia). rewrite Hb. simpl.
    replace (Z.to_N (target / 8 + 1)) with (Z.to_N (target / 8) + 1)%N by lia.
    do 2 f_equal. lia.
Qed.

Lemma seek_bits_negative (r : t Cursor) count : inv r ->
  8 * blen (inner (data r)) < 2 ^ 63 -> - 2 ^ 63 <= count < 2 ^ 63 - 8 ->
  position r + count < 0 -> seek_bits count r = (Err InvalidInput, r).
Proof.
  intros Hinv Hlen Hcount Ht. pose proof (inv_bits r Hinv) as [_ Hpos].
  destruct Hinv as (Hwf & Hle & Hcur).
  rewrite seek_bits_move by (done || lia). destruct r as [[bs p] bp cb]. simpl in *.
  unfold position, is_aligned in *. simpl in *.
  erewrite bind_err; [|apply zoom_err; simpl; unfold cursor_seek; simpl;
    rewrite decide_False; [reflexivity|]]; [done|].
  pose proof (Z.div_mod (bp + count) 8 ltac:(lia)).
  pose proof (Z.mod_pos_bound (bp + count) 8 ltac:(lia)).
  unfold fits. destruct (Z.eqb_spec bp 0); lia.
Qed.

(** ** Properties *)

(** C29. [read_bits(count)] reads the stream of bits the reader denotes from
    its front: it returns the first [min(count, 64)] bits as a big-endian
    number and leaves the rest, or, when there are fewer, ends with
    [UnexpectedEof] and an exhausted stream. This holds over every reader that
    satisfies the [io::Read] laws, aligned or not. *)
Theorem read_bits_refines {T} `{IoReadLaws T} (r : t T) (count : Z) (Hwf : wf r) (Hc : fits 8 count) :
  let n := Z.to_nat (Z.min count 64) in
  if decide (n <= length (bits r))%nat
  then exists r', read_bits count r = (Ok (bits_val (take n (bits r))), r')
         /\ bits r' = drop n (bits r) /\ wf r'
  else exists r', read_bits count r = (Err UnexpectedEof, r') /\ bits r' = [].
Proof.
  intros n. unfold fits in Hc. case_decide as Hl; unfold read_bits; fold n.
  - apply (read_bits_loop_ok n 0 r 0); [done|done|lia|lia|]. unfold n. lia.
  - apply read_bits_loop_eof; [done|lia].
Qed.

Lemma read_bits_refines_witness :
  read_bits 12 (new_from_slice [x0f; xa5; x01]) =
    (Ok 250, mk (mkCursor [x0f; xa5; x01] 2) 4 165) /\
  exists r', read_bits 12 (new_from_slice [x0f; xa5; x01]) = (Ok 250, r')
    /\ bits r' = drop 12 (bits (new_from_slice [x0f; xa5; x01])) /\ wf r'.
Proof.
  split; [vm_compute; reflexivity|].
  exact (read_bits_refines (new_from_slice [x0f; xa5; x01]) 12
           (wf_new _) ltac:(split; lia)).
Defined.

(** Over a cursor, [seek_bits(count)] moves the absolute bit position by
    exactly [count], forward or backward and across byte boundaries: a target
    inside the buffer is returned as the new position and the bits read next
    are those of the buffer from that position on; a target before the start
    is refused with [InvalidInput] and leaves the reader as it was. *)
Theorem seek_bits_correct (r : t Cursor) (count : Z) (Hinv : inv r)
    (Hlen : 8 * blen (inner (data r)) < 2 ^ 63) (Hcount : - 2 ^ 63 <= count < 2 ^ 63 - 8) :
  let target := position r + count in
  (0 <= target <= 8 * blen (inner (data r)) ->
     exists r', seek_bits count r = (Ok target, r') /\ position r' = target /\ inv r'
       /\ bits r' = drop (Z.to_nat target) (bytes_bits (inner (data r)))) /\
  (target < 0 -> seek_bits count r = (Err InvalidInput, r)).
Proof.
  intros target. split; [|by apply seek_bits_negative]. intros Ht.
  destruct (decide (count = 0)) as [->|Hne].
  - exists r. unfold target. rewrite Z.add_0_r. unfold seek_bits. simpl.
    rewrite bit_stream_position_ok by done. destruct (inv_bits r Hinv) as [Hb _]. auto.
  - destruct (seeked_inv (inner (data r)) target (current_byte r) Ht) as [Hi Hp];
      [apply Hinv|].
    eexists. split; [by apply seek_bits_to|]. fold target. split; [done|]. split; [done|].
    destruct (inv_bits _ Hi) as [-> _]. rewrite Hp. f_equal. f_equal.
    unfold seeked. by destruct (_ =? _).
Qed.

Lemma seek_bits_correct_witness :
  let r := snd (read_bits 6 (new_from_slice [xaa; xcc; xf1; x55])) in
  position r = 6 /\ exists r', seek_bits 10 r = (Ok 16, r') /\ position r' = 16 /\ inv r'
    /\ bits r' = drop 16 (bytes_bits [xaa; xcc; xf1; x55]).
Proof.
  intros r. split; [vm_compute; reflexivity|].
  apply (seek_bits_correct r 10).
  - split; [split; vm_compute; split; congruence|]. split; [vm_compute; congruence|].
    intros _. exists xaa. split; [vm_compute; reflexivity|]. split; vm_compute; reflexivity.
  - vm_compute; reflexivity.
  - lia.
  - vm_compute. split; congruence.
Defined.

End BitReader.
