(* ===== verification/BitWrite.v ===== *)
(** * [scuffle-bytes-util]: [BitWriter] (crates/bytes-util/src/bit_write.rs)

    Every method of the writer, generic in the underlying [io::Write], the bit
    string a writer denotes, and the round trip with [BitReader]. *)

From stdpp Require Import base list numbers.
From Stdlib Require Import Strings.Byte.
From S2P Require Import Prelude Io BitRead.

Module BitWriter.

Record t (W : Type) := mk { bit_pos_ : Z; current_byte : Z; writer : W }.
Arguments mk {W} _ _ _.
Arguments bit_pos_ {W} _.
Arguments current_byte {W} _.
Arguments writer {W} _.

Definition new {W} (w : W) : t W := mk 0 0 w.

Definition bit_pos {W} (w : t W) : Z := bit_pos_ w `mod` 8.

Definition is_aligned {W} (w : t W) : bool := bit_pos_ w `mod` 8 =? 0.

Definition set_writer {W} (x : W) (w : t W) : t W := mk (bit_pos_ w) (current_byte w) x.

Section writer.
Context {W : Type} `{IoWrite W}.

(** The mask [1 << (7 - bit_pos)] and its complement are [u8]s. *)
Definition write_bit (bit : bool) : M (t W) ErrorKind unit :=
  let* w := get in
  let mask := Z.shiftl 1 (7 - bit_pos_ w) in
  let cur := if bit then Z.lor (current_byte w) mask
             else Z.land (current_byte w) (wrap 8 (Z.lnot mask)) in
  let p := bit_pos_ w + 1 in
  put (mk p cur (writer w)) ;;;
  if p =? 8
  then zoom writer set_writer (write_all [z2b cur]) ;;;
       modify (fun w => mk 0 0 (writer w))
  else ret tt.

Fixpoint write_bits_loop (bits count : Z) (n : nat) (i : Z) : M (t W) ErrorKind unit :=
  match n with
  | O => ret tt
  | S n =>
      write_bit (Z.land (Z.shiftr bits (count - i - 1)) 1 =? 1) ;;;
      write_bits_loop bits count n (i + 1)
  end.

Definition write_bits (bits count : Z) : M (t W) ErrorKind unit :=
  let count := Z.min count 64 in
  if negb (count =? 64) && (Z.shiftl 1 count - 1 <? bits)
  then throw InvalidData
  else write_bits_loop bits count (Z.to_nat count) 0.

Definition align : M (t W) ErrorKind unit :=
  let* w := get in
  if is_aligned w then ret tt else write_bits 0 (8 - bit_pos w).

Definition finish : M (t W) ErrorKind W :=
  align ;;; let* w := get in ret (writer w).

Fixpoint write_unaligned (buf : list byte) : M (t W) ErrorKind unit :=
  match buf with
  | [] => ret tt
  | b :: buf => write_bits (b2z b) 8 ;;; write_unaligned buf
  end.

(** [io::Write::write] *)
Definition write (buf : list byte) : M (t W) ErrorKind Z :=
  let* w := get in
  if is_aligned w then zoom writer set_writer (Io.write buf)
  else write_unaligned buf ;;; ret (blen buf).

(** [io::Write::flush] *)
Definition flush : M (t W) ErrorKind unit := zoom writer set_writer Io.flush.
End writer.

(** ** The bit string a writer denotes *)

Definition wf {W} (w : t W) : Prop := 0 <= bit_pos_ w < 8 /\ fits 8 (current_byte w).

Section denotation.
Context {W : Type} `{IoWriteLaws W}.

Definition bits (w : t W) : list bool :=
  bytes_bits (written (writer w)) ++ take (Z.to_nat (bit_pos_ w)) (val_bits 8 (current_byte w)).

(** Setting or clearing bit [7 - p] of the current byte. *)
Definition set_bit (p c : Z) (b : bool) : Z :=
  if b then Z.lor c (Z.shiftl 1 (7 - p)) else Z.land c (wrap 8 (Z.lnot (Z.shiftl 1 (7 - p)))).

Lemma set_bit_spec (p c : Z) (b : bool) : 0 <= p < 8 -> fits 8 c ->
  fits 8 (set_bit p c b) /\
  take (Z.to_nat (p + 1)) (val_bits 8 (set_bit p c b)) = take (Z.to_nat p) (val_bits 8 c) ++ [b].
Proof.
  intros Hp [Hc1 Hc2].
  assert (forall i, 0 <= i < 8 ->
    Z.testbit (set_bit p c b) i = if i =? 7 - p then b else Z.testbit c i) as Hbit.
  { intros i Hi. unfold set_bit, wrap.
    assert (Z.testbit (Z.shiftl 1 (7 - p)) i = (i =? 7 - p)) as Hs.
    { rewrite Z.shiftl_1_l, Z.pow2_bits_eqb by lia. by rewrite Z.eqb_sym. }
    destruct b.
    - rewrite Z.lor_spec, Hs. by destruct (i =? 7 - p), (Z.testbit c i).
    - rewrite Z.land_spec, Z.mod_pow2_bits_low, Z.lnot_spec, Hs by lia.
      by destruct (i =? 7 - p), (Z.testbit c i). }
  split.
  - apply fits_bits; [lia|]. intros i Hi. pose proof (fits_testbit 8 c i ltac:(done) ltac:(lia)) as Hci.
    unfold set_bit. destruct b; [|by rewrite Z.land_spec, Hci].
    rewrite Z.lor_spec, Hci, Z.shiftl_1_l, Z.pow2_bits_eqb by lia. by apply Z.eqb_neq; lia.
  - assert (p = 0 \/ p = 1 \/ p = 2 \/ p = 3 \/ p = 4 \/ p = 5 \/ p = 6 \/ p = 7) as Hcases by lia.
    repeat destruct Hcases as [->|Hcases]; try subst p;
      rewrite !val_bits_S, !Hbit by lia; reflexivity.
Qed.

Lemma write_bit_app (w : t W) b : wf w ->
  exists w', write_bit b w = (Ok tt, w') /\ bits w' = bits w ++ [b] /\ wf w'.
Proof.
  intros [Hp Hc]. unfold write_bit. erewrite bind_ok; [|done]. erewrite bind_ok; [|done].
  fold (set_bit (bit_pos_ w) (current_byte w) b).
  destruct (set_bit_spec (bit_pos_ w) (current_byte w) b Hp Hc) as [Hf Ht].
  set (cur := set_bit _ _ _) in *.
  destruct (Z.eqb_spec (bit_pos_ w + 1) 8) as [H8|H8].
  - destruct (write_all_ok [z2b cur] (writer w)) as (x & Hx & Hwr).
    erewrite bind_ok; [|by apply zoom_ok]. eexists; split; [done|].
    rewrite H8 in Ht. unfold bits; simpl. rewrite Hwr, bytes_bits_app.
    split; [|split; done]. rewrite <-!(assoc_L (++)), <-Ht. f_equal.
    change (bytes_bits [z2b cur]) with (byte_bits (z2b cur)). unfold byte_bits.
    rewrite b2z_z2b_small, app_nil_r by exact Hf.
    by rewrite take_ge by by rewrite length_val_bits.
  - eexists; split; [done|]. unfold bits; simpl. rewrite Ht, (assoc_L (++)).
    split; [done|]. split; [simpl; lia|done].
Qed.

Lemma write_bits_loop_app bits0 count n : forall i (w : t W),
  wf w -> 0 <= i -> count = i + Z.of_nat n ->
  exists w', write_bits_loop bits0 count n i w = (Ok tt, w')
    /\ bits w' = bits w ++ val_bits n bits0 /\ wf w'.
Proof.
  induction n as [|n IH]; intros i w Hwf Hi Hc.
  - exists w. cbn [val_bits]. by rewrite app_nil_r.
  - cbn [write_bits_loop]. rewrite testbit_shiftr_land by lia.
    destruct (write_bit_app w (Z.testbit bits0 (count - i - 1)) Hwf) as (w1 & H1 & Hb1 & Hwf1).
    erewrite bind_ok; [|exact H1].
    destruct (IH (i + 1) w1 Hwf1) as (w' & H2 & Hb2 & Hwf2); [lia|lia|].
    exists w'. split; [done|]. split; [|done].
    rewrite Hb2, Hb1, val_bits_S, <-(assoc_L (++)). simpl. do 3 f_equal. lia.
Qed.

(** Writing a value that fits in [count] bits appends its [count] bits. *)
Lemma write_bits_app (w : t W) v count : wf w -> 0 <= count <= 64 -> fits count v ->
  exists w', write_bits v count w = (Ok tt, w')
    /\ bits w' = bits w ++ val_bits (Z.to_nat count) v /\ wf w'.
Proof.
  intros Hwf Hc [Hv1 Hv2]. unfold write_bits. rewrite Z.min_l by lia.
  replace (negb (count =? 64) && (Z.shiftl 1 count - 1 <? v)) with false.
  - apply write_bits_loop_app; [done|lia|lia].
  - symmetry. apply andb_false_iff. right. apply Z.ltb_ge.
    rewrite Z.shiftl_1_l. lia.
Qed.

(** Padding to the next byte boundary. *)
Definition pad (n : nat) : nat := ((8 - n mod 8) mod 8)%nat.

Lemma length_bits (w : t W) : wf w ->
  length (bits w) = (8 * length (written (writer w)) + Z.to_nat (bit_pos_ w))%nat.
Proof.
  intros [Hp _]. unfold bits.
  rewrite length_app, length_bytes_bits, length_take, length_val_bits. lia.
Qed.

Lemma val_bits_0 n : val_bits n 0 = replicate n false.
Proof. induction n as [|n IH]; [done|]. rewrite val_bits_S, IH, Z.bits_0. done. Qed.

Lemma align_pads (w : t W) : wf w ->
  exists w', align w = (Ok tt, w') /\ wf w' /\ bit_pos_ w' = 0
    /\ bits w' = bits w ++ replicate (pad (length (bits w))) false.
Proof.
  intros Hwf. pose proof (length_bits w Hwf) as Hlen. destruct (Hwf) as [Hp Hc].
  unfold align. erewrite bind_ok; [|done]. unfold is_aligned, bit_pos.
  rewrite (Z.mod_small (bit_pos_ w)) by lia.
  assert (length (bits w) mod 8 = Z.to_nat (bit_pos_ w))%nat as Hmod.
  { rewrite Hlen, Nat.add_comm, Nat.mul_comm, Nat.Div0.mod_add, Nat.mod_small; lia. }
  destruct (Z.eqb_spec (bit_pos_ w) 0) as [Hz|Hz].
  - exists w. split; [done|]. split; [done|]. split; [done|]. unfold pad.
    rewrite Hmod, Hz. simpl. by rewrite app_nil_r.
  - destruct (write_bits_app w 0 (8 - bit_pos_ w) Hwf) as (w' & H1 & Hb & Hwf');
      [lia|split; [lia|apply Z.pow_pos_nonneg; lia]|].
    exists w'. rewrite val_bits_0 in Hb. unfold pad. rewrite Hmod.
    rewrite Nat.mod_small by lia.
    split; [done|]. split; [done|]. split; [|rewrite Hb; do 2 f_equal; lia].
    apply (f_equal length) in Hb. rewrite (length_bits w' Hwf'), length_app, Hlen in Hb.
    rewrite length_replicate in Hb. destruct Hwf' as [? _]. lia.
Qed.
End denotation.

(** [finish] hands out the bytes whose bits are the written bits, padded with
    zeros. *)
Lemma finish_bits (w : t (list byte)) : wf w ->
  exists bs w', finish w = (Ok bs, w')
    /\ bytes_bits bs = bits w ++ replicate (pad (length (bits w))) false.
Proof.
  intros Hwf. destruct (align_pads w Hwf) as (w' & H1 & Hwf' & Hp & Hb).
  exists (writer w'), w'. unfold finish. erewrite bind_ok; [|exact H1]. split; [done|].
  rewrite <-Hb. unfold bits. rewrite Hp. simpl. by rewrite app_nil_r.
Qed.

(** Writing and reading back a sequence of [(value, width)] fields. *)
Fixpoint write_fields {W} `{IoWrite W} (fs : list (Z * Z)) : M (t W) ErrorKind unit :=
  match fs with
  | [] => ret tt
  | (v, c) :: fs => write_bits v c ;;; write_fields fs
  end.

Fixpoint read_fields {T} `{IoRead T} (cs : list Z) : M (BitReader.t T) ErrorKind (list Z) :=
  match cs with
  | [] => ret []
  | c :: cs =>
      let* v := BitReader.read_bits c in
      let* vs := read_fields cs in
      ret (v :: vs)
  end.

Definition fields_ok (fs : list (Z * Z)) : Prop :=
  Forall (fun f => 0 <= f.2 <= 64 /\ fits f.2 f.1) fs.

Definition fields_bits (fs : list (Z * Z)) : list bool :=
  fs ≫= fun f => val_bits (Z.to_nat f.2) f.1.

Lemma write_fields_app {W} `{IoWriteLaws W} fs : forall w : t W, wf w -> fields_ok fs ->
  exists w', write_fields fs w = (Ok tt, w') /\ bits w' = bits w ++ fields_bits fs /\ wf w'.
Proof.
  induction fs as [|[v c] fs IH]; intros w Hwf Hok.
  - exists w. simpl. by rewrite app_nil_r.
  - apply Forall_cons_1 in Hok as [[Hc Hv] Hok]. simpl in Hc, Hv.
    destruct (write_bits_app w v c Hwf Hc Hv) as (w1 & H1 & Hb1 & Hwf1).
    destruct (IH w1 Hwf1 Hok) as (w2 & H2 & Hb2 & Hwf2).
    exists w2. cbn [write_fields]. erewrite bind_ok; [|exact H1]. split; [done|].
    split; [|done]. rewrite Hb2, Hb1, <-(assoc_L (++)). done.
Qed.

Lemma read_fields_app {T} `{IoReadLaws T} fs : forall (r : BitReader.t T) ys,
  BitReader.wf r -> fields_ok fs -> BitReader.bits r = fields_bits fs ++ ys ->
  exists r', read_fields fs.*2 r = (Ok fs.*1, r') /\ BitReader.bits r' = ys.
Proof.
  induction fs as [|[v c] fs IH]; intros r ys Hwf Hok Hb; [by exists r|].
  apply Forall_cons_1 in Hok as [[Hc Hv] Hok]. simpl in Hc, Hv.
  change (fields_bits ((v, c) :: fs)) with (val_bits (Z.to_nat c) v ++ fields_bits fs) in Hb.
  rewrite <-(assoc_L (++)) in Hb.
  destruct (BitReader.read_bits_app r c _ _ Hwf Hb) as (r1 & H1 & Hb1 & Hwf1);
    [rewrite length_val_bits; lia|lia|].
  destruct (IH r1 ys Hwf1 Hok Hb1) as (r2 & H2 & Hb2).
  exists r2. cbn [fmap list_fmap fst snd read_fields]. split; [|done].
  erewrite bind_ok; [|exact H1]. simpl. erewrite bind_ok; [|exact H2].
  rewrite bits_val_val_bits_small; [done|]. by rewrite Z2Nat.id by lia.
Qed.

(** ** Properties *)

(** C30. [write_bits(bits, count)] appends exactly the low [min(count, 64)]
    bits of the value, most significant first, to the bits written so far,
    across byte boundaries; a value that needs more bits is refused with
    [InvalidData] and nothing is written. *)
Theorem write_bits_refines {W} `{IoWriteLaws W} (w : t W) (v count : Z)
    (Hwf : wf w) (Hv : fits 64 v) (Hc : fits 8 count) :
  let n := Z.min count 64 in
  if decide (fits n v)
  then exists w', write_bits v count w = (Ok tt, w')
         /\ bits w' = bits w ++ val_bits (Z.to_nat n) v /\ wf w'
  else write_bits v count w = (Err InvalidData, w).
Proof.
  intros n. assert (0 <= n <= 64) as Hn by (unfold fits, n in *; lia).
  assert (forall c, write_bits v c w = write_bits v (Z.min c 64) w) as Hmin.
  { intros c. unfold write_bits. by rewrite (Z.min_l (Z.min c 64)) by lia. }
  rewrite Hmin. fold n. case_decide as Hf; [by apply write_bits_app|].
  unfold write_bits. rewrite Z.min_l by lia.
  replace (negb (n =? 64) && (Z.shiftl 1 n - 1 <? v)) with true; [done|].
  rewrite Z.shiftl_1_l. unfold fits in *. symmetry. apply andb_true_iff.
  destruct (Z.eqb_spec n 64) as [He|He]; [rewrite He in Hf; lia|].
  split; [done|]. apply Z.ltb_lt. lia.
Qed.

Lemma write_bits_refines_witness :
  (let w := snd (write_bits 5 3 (new (@nil byte))) in
   exists w', write_bits 170 8 w = (Ok tt, w')
     /\ bits w' = bits w ++ val_bits 8 170 /\ wf w')
  /\ write_bits 16 4 (new (@nil byte)) = (Err InvalidData, new []).
Proof.
  split.
  - exact (write_bits_refines (snd (write_bits 5 3 (new (@nil byte)))) 170 8
             ltac:(split; vm_compute; split; congruence)
             ltac:(split; lia) ltac:(split; lia)).
  - exact (write_bits_refines (new (@nil byte)) 16 4
             ltac:(split; vm_compute; split; congruence)
             ltac:(split; lia) ltac:(split; lia)).
Defined.

(** Bit fields round trip: whatever sequence of fields, each of at most
    64 bits and holding a value of its width, is written with [write_bits] and
    closed with [finish], reading the produced bytes back with [BitReader] at
    the same widths gives the same values, and what remains is the zero
    padding of [align], less than a byte. *)
Theorem bit_fields_roundtrip (fs : list (Z * Z)) (Hok : fields_ok fs) :
  exists bs w', (write_fields fs ;;; finish) (new []) = (Ok bs, w') /\
  exists r', read_fields fs.*2 (BitReader.new_from_slice bs) = (Ok fs.*1, r')
    /\ BitReader.bits r' = replicate (pad (length (fields_bits fs))) false
    /\ (pad (length (fields_bits fs)) < 8)%nat.
Proof.
  destruct (write_fields_app fs (new (@nil byte))) as (w1 & H1 & Hb1 & Hwf1);
    [split; vm_compute; split; congruence|done|].
  destruct (finish_bits w1 Hwf1) as (bs & w2 & H2 & Hb2).
  exists bs, w2. erewrite bind_ok; [|exact H1]. split; [done|].
  rewrite Hb1 in Hb2. change (bits (new [])) with (@nil bool) in Hb2.
  rewrite (app_nil_l (fields_bits fs)) in Hb2.
  destruct (read_fields_app fs (BitReader.new_from_slice bs)
    (replicate (pad (length (fields_bits fs))) false)) as (r' & H3 & Hb3);
    [apply BitReader.wf_new|done|by rewrite BitReader.bits_new_from_slice|].
  exists r'. split; [done|]. split; [done|]. unfold pad. apply Nat.mod_upper_bound. lia.
Qed.

Lemma bit_fields_roundtrip_witness :
  exists bs w', (write_fields [(5, 3); (300, 12); (0, 0); (1, 1)] ;;; finish) (new []) = (Ok bs, w') /\
  exists r', read_fields [3; 12; 0; 1] (BitReader.new_from_slice bs) = (Ok [5; 300; 0; 1], r')
    /\ BitReader.bits r' = replicate 0 false /\ (0 < 8)%nat.
Proof.
  apply (bit_fields_roundtrip [(5, 3); (300, 12); (0, 0); (1, 1)]).
  repeat constructor; simpl; lia.
Defined.

End BitWriter.
