(* ===== verification/BytesCursor.v ===== *)
(** * [scuffle-bytes-util]: [BytesCursorExt] (crates/bytes-util/src/bytes_cursor.rs)

    Zero-copy extraction of sub-slices from a [Cursor<Bytes>]. A [Bytes] is
    the byte string it denotes; [Bytes::slice] panics outside the buffer. *)

From stdpp Require Import base list numbers.
From Stdlib Require Import Strings.Byte.
From S2P Require Import Prelude Io.

Module BytesCursorExt.

Definition remaining (c : Cursor) : Z := Z.max 0 (blen (inner c) - Z.of_N (pos c)).

Definition set_position (p : Z) (c : Cursor) : Cursor := mkCursor (inner c) (Z.to_N p).

Definition extract_bytes (size : Z) : M Cursor ErrorKind (list byte) :=
  if size =? 0 then ret []
  else
    let* c := get in
    if remaining c <? size then throw UnexpectedEof
    else
      let position := Z.of_N (pos c) in
      let* bs := unwrap (slice position (position + size) (inner c)) in
      modify (set_position (position + size)) ;;;
      ret bs.

(** [unwrap_or_default]: an error becomes the empty [Bytes]. *)
Definition extract_remaining : M Cursor ErrorKind (list byte) := fun c =>
  match extract_bytes (remaining c) c with
  | (Err _, c') => (Ok [], c')
  | r => r
  end.

Lemma extract_bytes_at pre bs post size : size = blen bs ->
  extract_bytes size (at_pos pre (bs ++ post)) = (Ok bs, at_pos (pre ++ bs) post).
Proof.
  intros ->. unfold extract_bytes. destruct (Z.eqb_spec (blen bs) 0) as [H0|H0].
  { assert (bs = []) as -> by (unfold blen in H0; destruct bs; simpl in *; [done|lia]).
    by rewrite app_nil_r. }
  erewrite bind_ok; [|done]. unfold remaining, at_pos at 1 2; simpl.
  rewrite !blen_app, (proj2 (Z.ltb_ge _ _))
    by (pose proof (blen_nonneg post); unfold blen; lia).
  erewrite bind_ok; cycle 1.
  { unfold unwrap. erewrite slice_app; [reflexivity| |]; unfold blen; lia. }
  erewrite bind_ok; [|done]. unfold ret, set_position. do 2 f_equal.
  unfold at_pos; simpl. rewrite (assoc_L (++)), length_app. f_equal. unfold blen. lia.
Qed.

Lemma extract_bytes_eof pre post size : blen post < size ->
  extract_bytes size (at_pos pre post) = (Err UnexpectedEof, at_pos pre post).
Proof.
  intros Hl. pose proof (blen_nonneg post). unfold extract_bytes.
  rewrite (proj2 (Z.eqb_neq _ _)) by lia. erewrite bind_ok; [|done].
  unfold remaining, at_pos at 1 2; simpl.
  by rewrite blen_app, (proj2 (Z.ltb_lt _ _)) by (unfold blen in *; lia).
Qed.

Lemma remaining_rest c : remaining c = blen (cursor_rest c).
Proof. unfold remaining, cursor_rest, blen. rewrite length_drop. lia. Qed.

Lemma extract_bytes_rest c size : 0 < size <= remaining c ->
  extract_bytes size c =
    (Ok (take (Z.to_nat size) (cursor_rest c)), set_position (Z.of_N (pos c) + size) c).
Proof.
  intros Hs. assert ((pos c <= N.of_nat (length (inner c)))%N) as Hp
    by (unfold remaining, blen in Hs; lia).
  destruct (cursor_at c Hp) as (pre & post & ->).
  rewrite remaining_rest in Hs. rewrite cursor_rest_at in *.
  rewrite <-(take_drop (Z.to_nat size) post) at 1.
  rewrite extract_bytes_at by (unfold blen in *; rewrite length_take; lia). f_equal.
  unfold set_position, at_pos; simpl.
  rewrite <-(assoc_L (++)), take_drop, length_app, length_take. f_equal.
  unfold blen in *. lia.
Qed.

Lemma extract_remaining_at pre post :
  extract_remaining (at_pos pre post) = (Ok post, at_pos (pre ++ post) []).
Proof.
  unfold extract_remaining. rewrite remaining_rest, cursor_rest_at.
  rewrite <-(app_nil_r post) at 2. by rewrite extract_bytes_at.
Qed.

(** ** Properties *)

(** [extract_bytes(size)] is total: for every cursor, even one whose
    position is past the end of the buffer, it returns the next [size] bytes
    and advances by [size] when they exist, returns the empty slice without
    moving for size zero, and otherwise fails with [UnexpectedEof] without
    moving (the slice it takes is always inside the buffer); and
    [extract_remaining] returns exactly the unread bytes and leaves none. *)
Theorem extract_bytes_total (c : Cursor) (size : Z) (Hs : 0 <= size) :
  extract_bytes size c =
    (if size =? 0 then (Ok [], c)
     else if size <=? blen (cursor_rest c)
     then (Ok (take (Z.to_nat size) (cursor_rest c)), set_position (Z.of_N (pos c) + size) c)
     else (Err UnexpectedEof, c)) /\
  exists c', extract_remaining c = (Ok (cursor_rest c), c') /\ cursor_rest c' = [].
Proof.
  assert (forall n, 0 < n -> extract_bytes n c =
    if n <=? blen (cursor_rest c)
    then (Ok (take (Z.to_nat n) (cursor_rest c)), set_position (Z.of_N (pos c) + n) c)
    else (Err UnexpectedEof, c)) as Hpos.
  { intros n Hn. destruct (Z.leb_spec n (blen (cursor_rest c))).
    - apply extract_bytes_rest. rewrite remaining_rest. lia.
    - unfold extract_bytes. rewrite (proj2 (Z.eqb_neq n 0)) by lia.
      erewrite bind_ok; [|done]. rewrite remaining_rest.
      by rewrite (proj2 (Z.ltb_lt _ _)) by lia. }
  split.
  - destruct (Z.eqb_spec size 0) as [->|]; [done|]. apply Hpos. lia.
  - unfold extract_remaining. rewrite remaining_rest.
    pose proof (blen_nonneg (cursor_rest c)) as Hnn.
    destruct (Z.eqb_spec (blen (cursor_rest c)) 0) as [H0|H0].
    + exists c. rewrite H0. unfold extract_bytes. simpl.
      assert (cursor_rest c = []) as -> by (unfold blen in H0; by destruct (cursor_rest c)).
      done.
    + rewrite Hpos, Z.leb_refl by lia. eexists. split.
      * do 2 f_equal. apply take_ge. unfold blen. lia.
      * rewrite <-remaining_rest in *. unfold remaining in *.
        unfold cursor_rest, set_position; simpl. apply drop_ge. unfold blen in *. lia.
Qed.

Lemma extract_bytes_total_witness :
  extract_bytes 2 (mkCursor [x01; x02; x03; x04] 1) = (Ok [x02; x03], mkCursor [x01; x02; x03; x04] 3)
  /\ extract_bytes 1 (mkCursor [x01; x02] 10) = (Err UnexpectedEof, mkCursor [x01; x02] 10).
Proof.
  split.
  - exact (proj1 (extract_bytes_total (mkCursor [x01; x02; x03; x04] 1) 2 ltac:(lia))).
  - exact (proj1 (extract_bytes_total (mkCursor [x01; x02] 10) 1 ltac:(lia))).
Defined.

End BytesCursorExt.
