(* ===== verification/ExpGolomb.v ===== *)
(** * [scuffle-expgolomb] (crates/expgolomb/src/lib.rs)

    Exponential-Golomb codes over [BitReader] and [BitWriter]: the two
    extension traits, the code words they write, the round trip, and the
    behaviour of the decoder on prefixes longer than a [u64] can hold. *)

From stdpp Require Import base list numbers.
From Stdlib Require Import Strings.Byte.
From S2P Require Import Prelude Io BitRead BitWrite.

Module ExpGolomb.

Section read.
Context {T : Type} `{IoReadLaws T}.

(** [while !self.read_bit()? { leading_zeros += 1 }]; the counter is an
    [i32]. Each turn consumes a bit, so the number of bits left, plus one,
    bounds the turns. *)
Fixpoint count_zeros (fuel : nat) (leading_zeros : Z) : M (BitReader.t T) ErrorKind Z :=
  match fuel with
  | O => out_of_fuel
  | S fuel =>
      let* bit := BitReader.read_bit in
      if bit then ret leading_zeros
      else
        let* leading_zeros := checked_i 32 (leading_zeros + 1) in
        count_zeros fuel leading_zeros
  end.

(** The second loop ([result <<= 1; result |= bit]) is the loop of
    [read_bits], started at one. *)
Definition read_exp_golomb : M (BitReader.t T) ErrorKind Z :=
  let* r := get in
  let* leading_zeros := count_zeros (S (length (BitReader.bits r))) 0 in
  let* result := BitReader.read_bits_loop (Z.to_nat leading_zeros) 1 in
  checked_u 64 (result - 1).

Definition read_signed_exp_golomb : M (BitReader.t T) ErrorKind Z :=
  let* exp_glob := read_exp_golomb in
  if exp_glob `mod` 2 =? 0
  then checked_i 64 (- swrap 64 (exp_glob / 2))
  else checked_i 64 (swrap 64 (exp_glob / 2) + 1).
End read.

Section write.
Context {W : Type} `{IoWrite W}.

(** [while number > 1 { number >>= 1; leading_zeros += 1 }]; a [u64] reaches
    one in at most 63 turns. *)
Fixpoint count_shifts (fuel : nat) (number leading_zeros : Z) : M (BitWriter.t W) ErrorKind Z :=
  match fuel with
  | O => out_of_fuel
  | S fuel =>
      if 1 <? number
      then
        let* leading_zeros := checked_u 8 (leading_zeros + 1) in
        count_shifts fuel (Z.shiftr number 1) leading_zeros
      else ret leading_zeros
  end.

Fixpoint write_zeros (n : nat) : M (BitWriter.t W) ErrorKind unit :=
  match n with
  | O => ret tt
  | S n => BitWriter.write_bit false ;;; write_zeros n
  end.

Definition write_exp_golomb (input : Z) : M (BitWriter.t W) ErrorKind unit :=
  let* number := checked_u 64 (input + 1) in
  let* leading_zeros := count_shifts 64 number 0 in
  write_zeros (Z.to_nat leading_zeros) ;;;
  let* number := checked_u 64 (input + 1) in
  let* count := checked_u 8 (leading_zeros + 1) in
  BitWriter.write_bits number count.

(** [-number as u64 * 2] negates first; [i64::MIN] has no negation. *)
Definition write_signed_exp_golomb (number : Z) : M (BitWriter.t W) ErrorKind unit :=
  let* number :=
    if number <=? 0
    then let* n := checked_i 64 (- number) in checked_u 64 (wrap 64 n * 2)
    else let* n := checked_u 64 (wrap 64 number * 2) in checked_u 64 (n - 1) in
  write_exp_golomb number.
End write.

(** ** Code words *)

(** The prefix length of the code of [n]. *)
Definition prefix (n : Z) : nat := Z.to_nat (Z.log2 (n + 1)).

(** [prefix n] zeros, then the [prefix n + 1] bits of [n + 1]. *)
Definition code (n : Z) : list bool := replicate (prefix n) false ++ val_bits (S (prefix n)) (n + 1).

(** The unsigned number a signed one is mapped to. *)
Definition zigzag (z : Z) : Z := if z <=? 0 then 2 * - z else 2 * z - 1.

Lemma prefix_bounds n : 0 <= n < 2 ^ 64 - 1 ->
  (prefix n < 64)%nat /\ 2 ^ Z.of_nat (prefix n) <= n + 1 < 2 ^ Z.of_nat (S (prefix n)).
Proof.
  intros Hn. unfold prefix. pose proof (Z.log2_spec (n + 1) ltac:(lia)) as [H1 H2].
  pose proof (Z.log2_nonneg (n + 1)).
  assert (Z.log2 (n + 1) < 64) by (apply Z.log2_lt_pow2; lia).
  rewrite Nat2Z.inj_succ, Z2Nat.id by lia. lia.
Qed.

(** The code word starts with the ones digit of [n + 1]. *)
Lemma code_cons n : 0 <= n < 2 ^ 64 - 1 ->
  code n = replicate (prefix n) false ++ true :: val_bits (prefix n) (n + 1).
Proof.
  intros Hn. pose proof (prefix_bounds n Hn) as [_ [H1 H2]]. unfold code. f_equal.
  rewrite val_bits_S. f_equal.
  unfold prefix. rewrite Z2Nat.id by apply Z.log2_nonneg. apply Z.bit_log2. lia.
Qed.

Lemma shiftr1_log2 n : 1 < n -> Z.log2 n = Z.log2 (Z.shiftr n 1) + 1 /\ 0 < Z.shiftr n 1.
Proof.
  intros Hn. assert (0 < Z.shiftr n 1) as Hp.
  { rewrite Z.shiftr_div_pow2 by lia. apply Z.div_str_pos. simpl. lia. }
  split; [|done]. pose proof (Z.log2_pos n Hn).
  rewrite Z.log2_shiftr by lia. lia.
Qed.

Section write_lemmas.
Context {W : Type} `{IoWriteLaws W}.

Lemma count_shifts_log2 fuel : forall number lz (w : BitWriter.t W),
  0 < number -> Z.log2 number < Z.of_nat fuel -> 0 <= lz -> lz + Z.log2 number < 256 ->
  count_shifts fuel number lz w = (Ok (lz + Z.log2 number), w).
Proof.
  induction fuel as [|fuel IH]; intros number lz w Hn Hf Hlz Hb.
  { pose proof (Z.log2_nonneg number). lia. }
  cbn [count_shifts]. destruct (Z.ltb_spec 1 number) as [H1|H1].
  - destruct (shiftr1_log2 number H1) as [Hl Hp].
    pose proof (Z.log2_nonneg (Z.shiftr number 1)).
    erewrite bind_ok; [|apply checked_u_ok; split; lia].
    rewrite IH by lia. do 2 f_equal. lia.
  - assert (number = 1) as -> by lia. unfold ret. do 2 f_equal. simpl. lia.
Qed.

Lemma write_zeros_app n : forall w : BitWriter.t W, BitWriter.wf w ->
  exists w', write_zeros n w = (Ok tt, w')
    /\ BitWriter.bits w' = BitWriter.bits w ++ replicate n false /\ BitWriter.wf w'.
Proof.
  induction n as [|n IH]; intros w Hwf.
  - exists w. simpl. by rewrite app_nil_r.
  - destruct (BitWriter.write_bit_app w false Hwf) as (w1 & H1 & Hb1 & Hwf1).
    destruct (IH w1 Hwf1) as (w2 & H2 & Hb2 & Hwf2).
    exists w2. cbn [write_zeros]. erewrite bind_ok; [|exact H1]. split; [done|].
    split; [|done]. rewrite Hb2, Hb1, <-(assoc_L (++)). done.
Qed.

Lemma write_exp_golomb_app (w : BitWriter.t W) n : BitWriter.wf w -> 0 <= n < 2 ^ 64 - 1 ->
  exists w', write_exp_golomb n w = (Ok tt, w')
    /\ BitWriter.bits w' = BitWriter.bits w ++ code n /\ BitWriter.wf w'.
Proof.
  intros Hwf Hn. pose proof (prefix_bounds n Hn) as [Hp [H1 H2]].
  assert (Z.of_nat (prefix n) = Z.log2 (n + 1)) as Hlog.
  { unfold prefix. rewrite Z2Nat.id; [done|apply Z.log2_nonneg]. }
  unfold write_exp_golomb. erewrite bind_ok; [|apply checked_u_ok; split; lia].
  erewrite bind_ok; [|apply count_shifts_log2; lia].
  destruct (write_zeros_app (prefix n) w Hwf) as (w1 & Hz & Hb1 & Hwf1).
  erewrite bind_ok; [|exact Hz].
  erewrite bind_ok; [|apply checked_u_ok; split; lia].
  erewrite bind_ok; [|apply checked_u_ok; split; lia].
  destruct (BitWriter.write_bits_app w1 (n + 1) (0 + Z.log2 (n + 1) + 1) Hwf1)
    as (w2 & H3 & Hb2 & Hwf2); [lia|split; [lia|]|].
  { replace (0 + Z.log2 (n + 1) + 1) with (Z.of_nat (S (prefix n))) by lia. lia. }
  exists w2. split; [done|]. split; [|done]. rewrite Hb2, Hb1, <-(assoc_L (++)).
  unfold code. do 3 f_equal. lia.
Qed.

Lemma write_signed_exp_golomb_eq (w : BitWriter.t W) z : - 2 ^ 63 < z < 2 ^ 63 ->
  write_signed_exp_golomb z w = write_exp_golomb (zigzag z) w.
Proof.
  intros Hz. unfold write_signed_exp_golomb, zigzag, wrap.
  destruct (Z.leb_spec z 0).
  - erewrite bind_ok; cycle 1.
    { erewrite bind_ok; [|apply checked_i_ok; lia]. rewrite Z.mod_small by lia.
      apply checked_u_ok. split; lia. }
    by rewrite Z.mul_comm.
  - erewrite bind_ok; cycle 1.
    { rewrite Z.mod_small by lia. erewrite bind_ok; [|apply checked_u_ok; split; lia].
      apply checked_u_ok. split; lia. }
    by rewrite Z.mul_comm.
Qed.
End write_lemmas.

Section read_lemmas.
Context {T : Type} `{IoReadLaws T}.

Lemma count_zeros_app k : forall fuel lz (r : BitReader.t T) ys, BitReader.wf r ->
  BitReader.bits r = replicate k false ++ true :: ys -> (k < fuel)%nat ->
  0 <= lz -> lz + Z.of_nat k < 2 ^ 31 ->
  exists r', count_zeros fuel lz r = (Ok (lz + Z.of_nat k), r')
    /\ BitReader.bits r' = ys /\ BitReader.wf r'.
Proof.
  induction k as [|k IH]; intros [|fuel] lz r ys Hwf Hb Hf Hlz Hk; try lia;
    cbn [count_zeros]; simpl in Hb.
  - destruct (BitReader.read_bit_cons r true ys Hwf Hb) as (r1 & H1 & Hb1 & Hwf1).
    erewrite bind_ok; [|exact H1]. exists r1. rewrite Z.add_0_r. done.
  - destruct (BitReader.read_bit_cons r false _ Hwf Hb) as (r1 & H1 & Hb1 & Hwf1).
    erewrite bind_ok; [|exact H1]. cbv beta iota. erewrite bind_ok; [|apply checked_i_ok; lia].
    destruct (IH fuel (lz + 1) r1 ys Hwf1 Hb1) as (r' & H2 & Hb2 & Hwf2); [lia|lia|lia|].
    exists r'. rewrite H2. split; [do 2 f_equal; lia|done].
Qed.

(** The code word decoded: [k < 64] zeros, a one, and [k] digits. *)
Lemma read_exp_golomb_digits (r : BitReader.t T) k xs ys : BitReader.wf r ->
  BitReader.bits r = replicate k false ++ true :: xs ++ ys -> length xs = k -> (k < 64)%nat ->
  exists r', read_exp_golomb r = (Ok (2 ^ Z.of_nat k - 1 + bits_val xs), r')
    /\ BitReader.bits r' = ys /\ BitReader.wf r'.
Proof.
  intros Hwf Hb Hxs Hk. unfold read_exp_golomb. erewrite bind_ok; [|done].
  destruct (count_zeros_app k (S (length (BitReader.bits r))) 0 r (xs ++ ys) Hwf Hb)
    as (r1 & H1 & Hb1 & Hwf1); [rewrite Hb, length_app, length_replicate; lia|lia|lia|].
  erewrite bind_ok; [|exact H1]. rewrite Z.add_0_l, Nat2Z.id.
  destruct (BitReader.read_bits_loop_ok k 1 r1 1) as (r2 & H2 & Hb2 & Hwf2);
    [done|rewrite Hb1, length_app; lia|lia|lia|lia|].
  erewrite bind_ok; [|exact H2].
  rewrite Hb1, take_app_length' by done. rewrite Hb1, drop_app_length' in Hb2 by done.
  rewrite bits_val_acc_eq. pose proof (bits_val_range xs) as Hr.
  assert (blen xs = Z.of_nat k) as Hblen by (unfold blen; lia). rewrite Hblen in *.
  assert (2 ^ Z.of_nat k <= 2 ^ 63) by (apply Z.pow_le_mono_r; lia).
  exists r2. split; [|done]. rewrite checked_u_ok by (split; lia). do 2 f_equal. lia.
Qed.

Lemma read_exp_golomb_app (r : BitReader.t T) n ys : BitReader.wf r -> 0 <= n < 2 ^ 64 - 1 ->
  BitReader.bits r = code n ++ ys ->
  exists r', read_exp_golomb r = (Ok n, r') /\ BitReader.bits r' = ys /\ BitReader.wf r'.
Proof.
  intros Hwf Hn Hb. pose proof (prefix_bounds n Hn) as [Hp [H1 H2]].
  rewrite code_cons, <-(assoc_L (++)) in Hb by done.
  destruct (read_exp_golomb_digits r (prefix n) (val_bits (prefix n) (n + 1)) ys Hwf Hb)
    as (r' & H3 & Hb' & Hwf'); [apply length_val_bits|done|].
  exists r'. split; [|done]. rewrite H3. do 2 f_equal.
  rewrite bits_val_val_bits by lia.
  rewrite Nat2Z.inj_succ, Z.pow_succ_r in H2 by lia.
  set (p := 2 ^ Z.of_nat (prefix n)) in *.
  replace ((n + 1) `mod` p) with (n + 1 - p); [lia|].
  apply (Z.mod_unique _ _ 1); lia.
Qed.

Lemma read_signed_exp_golomb_app (r : BitReader.t T) z ys : BitReader.wf r ->
  - 2 ^ 63 < z < 2 ^ 63 -> BitReader.bits r = code (zigzag z) ++ ys ->
  exists r', read_signed_exp_golomb r = (Ok z, r') /\ BitReader.bits r' = ys /\ BitReader.wf r'.
Proof.
  intros Hwf Hz Hb. unfold read_signed_exp_golomb.
  destruct (read_exp_golomb_app r (zigzag z) ys Hwf) as (r' & H1 & Hb' & Hwf');
    [unfold zigzag; destruct (Z.leb_spec z 0); lia|done|].
  exists r'. split; [|done]. erewrite bind_ok; [|exact H1]. unfold zigzag, swrap.
  destruct (Z.leb_spec z 0) as [Hle|Hgt].
  - replace ((2 * - z) `mod` 2) with 0 by (rewrite Z.mul_comm, Z.mod_mul; lia).
    replace (2 * - z / 2) with (- z) by (rewrite Z.mul_comm, Z.div_mul; lia).
    change (0 =? 0) with true. cbv iota. rewrite (Z.mod_small (- z)), (proj2 (Z.ltb_lt _ _)) by lia.
    rewrite checked_i_ok by lia. do 2 f_equal. lia.
  - replace ((2 * z - 1) `mod` 2) with 1 by (apply (Z.mod_unique _ _ (z - 1)); lia).
    replace ((2 * z - 1) / 2) with (z - 1) by (apply (Z.div_unique _ _ _ 1); lia).
    change (1 =? 0) with false. cbv iota. rewrite (Z.mod_small (z - 1)), (proj2 (Z.ltb_lt _ _)) by lia.
    rewrite checked_i_ok by lia. do 2 f_equal. lia.
Qed.
End read_lemmas.

(** ** The decoder on arbitrary streams *)

(** Leading zeros of a bit string. *)
Fixpoint leading (bs : list bool) : nat :=
  match bs with
  | false :: bs => S (leading bs)
  | _ => O
  end.

(** What the decoder computes from the bits in front of it: the digits are
    accumulated in a [u64], so only the low 64 bits of the code survive, and
    the final [result - 1] overflows when they are all zero. *)
Definition decode_spec (bs : list bool) : res ErrorKind Z :=
  let k := leading bs in
  match drop k bs with
  | [] => Err UnexpectedEof
  | _ :: digits =>
      if decide (length digits < k)%nat then Err UnexpectedEof
      else
        let m := (2 ^ Z.of_nat k + bits_val (take k digits)) `mod` 2 ^ 64 in
        if m =? 0 then Panic else Ok (m - 1)
  end.

Lemma leading_split bs : bs = replicate (leading bs) false ++ drop (leading bs) bs /\
  (drop (leading bs) bs = [] \/ exists ys, drop (leading bs) bs = true :: ys).
Proof.
  induction bs as [|[] bs [IH1 IH2]]; simpl; [by auto|by eauto|].
  split; [|done]. f_equal. exact IH1.
Qed.

Section decode.
Context {T : Type} `{IoReadLaws T}.

Lemma lor_step_mod acc (b : bool) : 0 <= acc ->
  Z.lor (wrap 64 (Z.shiftl acc 1)) (if b then 1 else 0) = (2 * acc + Z.b2z b) `mod` 2 ^ 64.
Proof.
  intros Ha. unfold wrap. rewrite Z.shiftl_mul_pow2 by lia. change (2 ^ 1) with 2.
  change (2 ^ 64) with (2 ^ 63 * 2). rewrite Zmult_mod_distr_r.
  pose proof (lor_shiftl_bit (acc `mod` 2 ^ 63) b) as Hl.
  rewrite Z.shiftl_mul_pow2 in Hl by lia. change (2 ^ 1) with 2 in Hl.
  transitivity (2 * (acc `mod` 2 ^ 63) + Z.b2z b); [exact Hl|].
  apply (Z.mod_unique _ _ (acc / 2 ^ 63)).
  - pose proof (Z.mod_pos_bound acc (2 ^ 63) ltac:(lia)). left. destruct b; simpl; lia.
  - pose proof (Z.div_mod acc (2 ^ 63) ltac:(lia)). lia.
Qed.

Lemma read_bits_loop_mod n : forall acc (r : BitReader.t T),
  BitReader.wf r -> (n <= length (BitReader.bits r))%nat -> 0 <= acc < 2 ^ 64 ->
  exists r', BitReader.read_bits_loop n acc r =
      (Ok ((acc * 2 ^ Z.of_nat n + bits_val (take n (BitReader.bits r))) `mod` 2 ^ 64), r')
    /\ BitReader.wf r'.
Proof.
  induction n as [|n IH]; intros acc r Hwf Hl Hacc.
  { exists r. cbn [BitReader.read_bits_loop]. unfold ret. rewrite take_0, Z.pow_0_r.
    change (bits_val []) with 0. rewrite Z.mul_1_r, Z.add_0_r, Z.mod_small by lia. done. }
  destruct (BitReader.bits r) as [|b bs] eqn:Hb; [simpl in Hl; lia|].
  destruct (BitReader.read_bit_cons r b bs Hwf Hb) as (r1 & H1 & Hb1 & Hwf1).
  cbn [BitReader.read_bits_loop]. erewrite bind_ok; [|exact H1].
  rewrite lor_step_mod by lia.
  destruct (IH ((2 * acc + Z.b2z b) `mod` 2 ^ 64) r1 Hwf1) as (r' & H2 & Hwf2);
    [rewrite Hb1; simpl in Hl; lia|apply Z.mod_pos_bound; lia|].
  exists r'. rewrite H2, Hb1. split; [|done]. do 2 f_equal. cbn [take].
  rewrite bits_val_cons, Nat2Z.inj_succ, Z.pow_succ_r by lia.
  replace (blen (take n bs)) with (Z.of_nat n)
    by (unfold blen; rewrite length_take; simpl in Hl; lia).
  rewrite <-Zplus_mod_idemp_l, Zmult_mod_idemp_l, Zplus_mod_idemp_l. f_equal. lia.
Qed.

Lemma count_zeros_eof k : forall fuel lz (r : BitReader.t T), BitReader.wf r ->
  BitReader.bits r = replicate k false -> (k < fuel)%nat ->
  0 <= lz -> lz + Z.of_nat k < 2 ^ 31 ->
  exists r', count_zeros fuel lz r = (Err UnexpectedEof, r').
Proof.
  induction k as [|k IH]; intros [|fuel] lz r Hwf Hb Hf Hlz Hk; try lia;
    cbn [count_zeros]; simpl in Hb.
  - destruct (BitReader.read_bit_nil r Hwf Hb) as (r1 & H1 & _).
    erewrite bind_err; [|exact H1]. eauto.
  - destruct (BitReader.read_bit_cons r false _ Hwf Hb) as (r1 & H1 & Hb1 & Hwf1).
    erewrite bind_ok; [|exact H1]. cbv beta iota. erewrite bind_ok; [|apply checked_i_ok; lia].
    apply IH; [done|done|lia|lia|lia].
Qed.
End decode.

(** A sequence of codes, as parameter sets have them. *)
Inductive elem := Ue (n : Z) | Se (z : Z).

Definition elem_ok (e : elem) : Prop :=
  match e with Ue n => 0 <= n < 2 ^ 64 - 1 | Se z => - 2 ^ 63 < z < 2 ^ 63 end.

Definition is_signed (e : elem) : bool := match e with Ue _ => false | Se _ => true end.

Definition elem_code (e : elem) : list bool :=
  match e with Ue n => code n | Se z => code (zigzag z) end.

Fixpoint write_elems {W} `{IoWrite W} (es : list elem) : M (BitWriter.t W) ErrorKind unit :=
  match es with
  | [] => ret tt
  | Ue n :: es => write_exp_golomb n ;;; write_elems es
  | Se z :: es => write_signed_exp_golomb z ;;; write_elems es
  end.

Fixpoint read_elems {T} `{IoReadLaws T} (signed : list bool) : M (BitReader.t T) ErrorKind (list elem) :=
  match signed with
  | [] => ret []
  | s :: signed =>
      let* e := (if s then let* z := read_signed_exp_golomb in ret (Se z)
                 else let* n := read_exp_golomb in ret (Ue n)) in
      let* es := read_elems signed in
      ret (e :: es)
  end.

Lemma write_elems_app {W} `{IoWriteLaws W} es : forall w : BitWriter.t W,
  BitWriter.wf w -> Forall elem_ok es ->
  exists w', write_elems es w = (Ok tt, w')
    /\ BitWriter.bits w' = BitWriter.bits w ++ (es ≫= elem_code) /\ BitWriter.wf w'.
Proof.
  induction es as [|e es IH]; intros w Hwf Hok.
  { exists w. simpl. by rewrite app_nil_r. }
  apply Forall_cons_1 in Hok as [He Hok].
  assert (exists w1, (match e with Ue n => write_exp_golomb n | Se z => write_signed_exp_golomb z end) w
    = (Ok tt, w1) /\ BitWriter.bits w1 = BitWriter.bits w ++ elem_code e /\ BitWriter.wf w1)
    as (w1 & H1 & Hb1 & Hwf1).
  { destruct e as [n|z]; simpl in He |- *; [by apply write_exp_golomb_app|].
    rewrite write_signed_exp_golomb_eq by done. apply write_exp_golomb_app; [done|].
    unfold zigzag. destruct (Z.leb_spec z 0); lia. }
  destruct (IH w1 Hwf1 Hok) as (w2 & H2 & Hb2 & Hwf2). exists w2. split.
  - destruct e; cbn [write_elems]; (erewrite bind_ok; [|exact H1]); done.
  - split; [|done]. rewrite Hb2, Hb1, <-(assoc_L (++)). done.
Qed.

Lemma read_elems_app {T} `{IoReadLaws T} es : forall (r : BitReader.t T) ys,
  BitReader.wf r -> Forall elem_ok es -> BitReader.bits r = (es ≫= elem_code) ++ ys ->
  exists r', read_elems (is_signed <$> es) r = (Ok es, r') /\ BitReader.bits r' = ys.
Proof.
  induction es as [|e es IH]; intros r ys Hwf Hok Hb; [by exists r|].
  apply Forall_cons_1 in Hok as [He Hok]. cbn [mbind list_bind] in Hb.
  rewrite <-(assoc_L (++)) in Hb. cbn [fmap list_fmap read_elems].
  destruct e as [n|z]; simpl in He, Hb; cbn [is_signed].
  - destruct (read_exp_golomb_app r n _ Hwf He Hb) as (r1 & H1 & Hb1 & Hwf1).
    destruct (IH r1 ys Hwf1 Hok Hb1) as (r2 & H2 & Hb2). exists r2. split; [|done].
    erewrite bind_ok; [|erewrite bind_ok; [|exact H1]; reflexivity].
    erewrite bind_ok; [|exact H2]. done.
  - destruct (read_signed_exp_golomb_app r z _ Hwf He Hb) as (r1 & H1 & Hb1 & Hwf1).
    destruct (IH r1 ys Hwf1 Hok Hb1) as (r2 & H2 & Hb2). exists r2. split; [|done].
    erewrite bind_ok; [|erewrite bind_ok; [|exact H1]; reflexivity].
    erewrite bind_ok; [|exact H2]. done.
Qed.

(** ** Properties *)

(** Exp-Golomb codes round trip through bytes: any sequence of unsigned
    values below [u64::MAX] and signed values above [i64::MIN], written with
    [write_exp_golomb] and [write_signed_exp_golomb] and closed with [finish],
    is read back by [read_exp_golomb] and [read_signed_exp_golomb]. *)
Theorem exp_golomb_roundtrip (es : list elem) (Hok : Forall elem_ok es) :
  exists bs w', (write_elems es ;;; BitWriter.finish) (BitWriter.new []) = (Ok bs, w') /\
  exists r', read_elems (is_signed <$> es) (BitReader.new_from_slice bs) = (Ok es, r').
Proof.
  destruct (write_elems_app es (BitWriter.new (@nil byte))) as (w1 & H1 & Hb1 & Hwf1);
    [split; vm_compute; split; congruence|done|].
  destruct (BitWriter.finish_bits w1 Hwf1) as (bs & w2 & H2 & Hb2).
  exists bs, w2. erewrite bind_ok; [|exact H1]. split; [done|].
  rewrite Hb1 in Hb2.
  destruct (read_elems_app es (BitReader.new_from_slice bs)
    (replicate (BitWriter.pad (length (es ≫= elem_code))) false)) as (r' & H3 & _);
    [apply BitReader.wf_new|done|by rewrite BitReader.bits_new_from_slice|].
  by exists r'.
Qed.

Lemma exp_golomb_roundtrip_witness :
  exists bs w', (write_elems [Ue 0; Ue 6; Se (-3); Ue (2 ^ 64 - 2); Se (2 ^ 63 - 1)] ;;; BitWriter.finish)
    (BitWriter.new []) = (Ok bs, w') /\
  exists r', read_elems [false; false; true; false; true] (BitReader.new_from_slice bs)
    = (Ok [Ue 0; Ue 6; Se (-3); Ue (2 ^ 64 - 2); Se (2 ^ 63 - 1)], r').
Proof.
  apply (exp_golomb_roundtrip [Ue 0; Ue 6; Se (-3); Ue (2 ^ 64 - 2); Se (2 ^ 63 - 1)]).
  repeat constructor; simpl; lia.
Defined.

(** [read_exp_golomb] on every stream of fewer than 2^31 bits: it stops
    (end of stream is an error, never a loop); a code with fewer than 64
    leading zeros gives the number it denotes; and a longer prefix is not
    rejected: the digits wrap around in the [u64] accumulator, and when the
    surviving 64 bits are all zero the final subtraction overflows. *)
Theorem read_exp_golomb_total {T} `{IoReadLaws T} (r : BitReader.t T) (Hwf : BitReader.wf r)
    (Hlen : blen (BitReader.bits r) < 2 ^ 31) :
  exists r', read_exp_golomb r = (decode_spec (BitReader.bits r), r').
Proof.
  destruct (leading_split (BitReader.bits r)) as [Hb Hd]. unfold decode_spec.
  set (k := leading (BitReader.bits r)) in *.
  assert (Z.of_nat k < 2 ^ 31) as Hk.
  { rewrite Hb in Hlen. unfold blen in Hlen. rewrite length_app, length_replicate in Hlen. lia. }
  assert (k < S (length (BitReader.bits r)))%nat as Hf.
  { rewrite Hb, length_app, length_replicate. lia. }
  unfold read_exp_golomb. erewrite bind_ok; [|done]. destruct Hd as [Hd|[ys Hd]]; rewrite Hd.
  - rewrite Hd, app_nil_r in Hb.
    destruct (count_zeros_eof k (S (length (BitReader.bits r))) 0 r Hwf Hb) as (r' & Hr);
      [lia|lia|lia|].
    exists r'. by erewrite bind_err; [|exact Hr].
  - rewrite Hd in Hb.
    destruct (count_zeros_app k (S (length (BitReader.bits r))) 0 r ys Hwf Hb)
      as (r1 & H1 & Hb1 & Hwf1); [lia|lia|lia|].
    erewrite bind_ok; [|exact H1]. rewrite Z.add_0_l, Nat2Z.id.
    case_decide as Hl.
    + destruct (BitReader.read_bits_loop_eof k 1 r1 Hwf1) as (r' & Hr & _); [by rewrite Hb1|].
      exists r'. by erewrite bind_err; [|exact Hr].
    + destruct (read_bits_loop_mod k 1 r1 Hwf1) as (r' & Hr & _); [rewrite Hb1; lia|lia|].
      exists r'. erewrite bind_ok; [|exact Hr]. rewrite Hb1, Z.mul_1_l.
      set (m := (_ + _) `mod` 2 ^ 64). pose proof (Z.mod_pos_bound (2 ^ Z.of_nat k + bits_val (take k ys)) (2 ^ 64) ltac:(lia)) as Hm.
      fold m in Hm. destruct (Z.eqb_spec m 0) as [->|Hne].
      * by rewrite checked_u_panic by (unfold fits; lia).
      * by rewrite checked_u_ok by (split; lia).
Qed.

Lemma read_exp_golomb_total_witness :
  let zeros := repeat x00 8 ++ [x80] ++ repeat x00 8 in
  (exists r', read_exp_golomb (BitReader.new_from_slice [x2c]) = (Ok 4, r'))
  /\ (exists r', read_exp_golomb (BitReader.new_from_slice zeros) = (Panic, r')).
Proof.
  intros zeros.
  assert (blen (BitReader.bits (BitReader.new_from_slice [x2c])) < 2 ^ 31) as Hl1
    by (vm_compute; reflexivity).
  assert (blen (BitReader.bits (BitReader.new_from_slice zeros)) < 2 ^ 31) as Hl2
    by (vm_compute; reflexivity).
  split.
  - destruct (read_exp_golomb_total _ (BitReader.wf_new _) Hl1) as [r' Hr].
    exists r'. etransitivity; [exact Hr|]. f_equal; vm_compute; reflexivity.
  - destruct (read_exp_golomb_total _ (BitReader.wf_new _) Hl2) as [r' Hr].
    exists r'. etransitivity; [exact Hr|]. f_equal; vm_compute; reflexivity.
Defined.

End ExpGolomb.
