(* ===== verification/Aac.v ===== *)
(** * [scuffle-aac] (crates/aac/src/lib.rs)

    The partial [AudioSpecificConfig] parser over [BitReader]. *)

From stdpp Require Import base list numbers.
From Stdlib Require Import Strings.Byte.
From S2P Require Import Prelude Io BitRead BitWrite.

Module Aac.

Inductive AudioObjectType :=
| AacMain
| AacLowComplexity
| Unknown (value : Z).

Definition as_u16 (t : AudioObjectType) : Z :=
  match t with
  | AacMain => 1
  | AacLowComplexity => 2
  | Unknown value => value
  end.

Definition from_u16 (value : Z) : AudioObjectType :=
  match value with
  | 1 => AacMain
  | 2 => AacLowComplexity
  | _ => Unknown value
  end.

Record PartialAudioSpecificConfig := mkConfig {
  audio_object_type : AudioObjectType;
  sampling_frequency : Z;
  channel_configuration : Z;
}.

Inductive SampleFrequencyIndex :=
| Freq96000 | Freq88200 | Freq64000 | Freq48000 | Freq44100 | Freq32000 | Freq24000
| Freq22050 | Freq16000 | Freq12000 | Freq11025 | Freq8000 | Freq7350
| FreqReserved | FreqReserved2 | FreqEscape.

Definition all_indices : list SampleFrequencyIndex :=
  [Freq96000; Freq88200; Freq64000; Freq48000; Freq44100; Freq32000; Freq24000;
   Freq22050; Freq16000; Freq12000; Freq11025; Freq8000; Freq7350;
   FreqReserved; FreqReserved2; FreqEscape].

Definition index_discr (i : SampleFrequencyIndex) : Z :=
  match i with
  | Freq96000 => 0x0 | Freq88200 => 0x1 | Freq64000 => 0x2 | Freq48000 => 0x3
  | Freq44100 => 0x4 | Freq32000 => 0x5 | Freq24000 => 0x6 | Freq22050 => 0x7
  | Freq16000 => 0x8 | Freq12000 => 0x9 | Freq11025 => 0xA | Freq8000 => 0xB
  | Freq7350 => 0xC | FreqReserved => 0xD | FreqReserved2 => 0xE | FreqEscape => 0xF
  end.

Definition to_freq (i : SampleFrequencyIndex) : option Z :=
  match i with
  | Freq96000 => Some 96000
  | Freq88200 => Some 88200
  | Freq64000 => Some 64000
  | Freq48000 => Some 48000
  | Freq44100 => Some 44100
  | Freq32000 => Some 32000
  | Freq24000 => Some 24000
  | Freq22050 => Some 22050
  | Freq16000 => Some 16000
  | Freq12000 => Some 12000
  | Freq11025 => Some 11025
  | Freq8000 => Some 8000
  | Freq7350 => Some 7350
  | FreqReserved => None
  | FreqReserved2 => None
  | FreqEscape => None
  end.

(** GetAudioObjectType(): five bits, and six more after the escape 31. *)
Definition get_audio_object_type : M (BitReader.t Cursor) ErrorKind Z :=
  let* v := BitReader.read_bits 5 in
  let audio_object_type := wrap 16 v in
  if audio_object_type =? 31
  then let* v := BitReader.read_bits 6 in checked_u 16 (32 + wrap 16 v)
  else ret audio_object_type.

(** The body of [parse] on the bit reader it creates. *)
Definition parse_bits : M (BitReader.t Cursor) ErrorKind PartialAudioSpecificConfig :=
  let* audio_object_type := get_audio_object_type in
  let* v := BitReader.read_bits 4 in
  let* index := ok_or (from_primitive all_indices index_discr (wrap 8 v)) InvalidData in
  let* sampling_frequency :=
    match index with
    | FreqEscape => let* v := BitReader.read_bits 24 in ret (wrap 32 v)
    | _ => ok_or (to_freq index) InvalidData
    end in
  let* v := BitReader.read_bits 4 in
  ret (mkConfig (from_u16 audio_object_type) sampling_frequency (wrap 8 v)).

Definition parse (data : list byte) : res ErrorKind PartialAudioSpecificConfig :=
  fst (parse_bits (BitReader.new_from_slice data)).

(** ** The bit layout (ISO/IEC 14496-3, tables 1.19 and 1.20) *)

(** Object types 31 and up are escaped; index 15 is followed by the frequency. *)
Definition layout (t : Z) (i : SampleFrequencyIndex) (freq chan : Z) : list bool :=
  (if t <? 31 then val_bits 5 t else val_bits 5 31 ++ val_bits 6 (t - 32)) ++
  val_bits 4 (index_discr i) ++
  (match i with FreqEscape => val_bits 24 freq | _ => [] end) ++
  val_bits 4 chan.

(** The frequency a header denotes. *)
Definition frequency (i : SampleFrequencyIndex) (freq : Z) : option Z :=
  match i with FreqEscape => Some freq | _ => to_freq i end.

Lemma index_of_discr i : from_primitive all_indices index_discr (index_discr i) = Some i.
Proof. by destruct i. Qed.

Lemma wrap_small w z : fits w z -> wrap w z = z.
Proof. intros. by apply Z.mod_small. Qed.

Lemma read_val_bits (r : BitReader.t Cursor) n v ys :
  BitReader.wf r -> BitReader.bits r = val_bits n v ++ ys -> fits (Z.of_nat n) v -> (n <= 64)%nat ->
  exists r', BitReader.read_bits (Z.of_nat n) r = (Ok v, r') /\ BitReader.bits r' = ys /\ BitReader.wf r'.
Proof.
  intros Hwf Hb Hv Hn.
  destruct (BitReader.read_bits_app r (Z.of_nat n) (val_bits n v) ys Hwf Hb) as (r' & H1 & H2 & H3);
    [by rewrite length_val_bits|lia|].
  rewrite bits_val_val_bits_small in H1 by done. eauto.
Qed.

Lemma get_audio_object_type_ok (r : BitReader.t Cursor) t ys :
  BitReader.wf r -> (0 <= t < 31 \/ 32 <= t < 96) ->
  BitReader.bits r = (if t <? 31 then val_bits 5 t else val_bits 5 31 ++ val_bits 6 (t - 32)) ++ ys ->
  exists r', get_audio_object_type r = (Ok t, r') /\ BitReader.bits r' = ys /\ BitReader.wf r'.
Proof.
  intros Hwf Ht Hb. unfold get_audio_object_type. destruct (Z.ltb_spec t 31) as [Hlt|Hge].
  - destruct (read_val_bits r 5 t ys Hwf Hb) as (r1 & H1 & Hb1 & Hwf1); [split; lia|lia|].
    exists r1. mstep H1. rewrite wrap_small by (split; lia).
    by rewrite (proj2 (Z.eqb_neq t 31)) by lia.
  - rewrite <-(assoc_L (++)) in Hb.
    destruct (read_val_bits r 5 31 _ Hwf Hb) as (r1 & H1 & Hb1 & Hwf1); [split; lia|lia|].
    destruct (read_val_bits r1 6 (t - 32) ys Hwf1 Hb1) as (r2 & H2 & Hb2 & Hwf2); [split; lia|lia|].
    exists r2. mstep H1. change (wrap 16 31 =? 31) with true. cbv iota. mstep H2.
    rewrite wrap_small by (split; lia). rewrite checked_u_ok by (split; lia).
    by replace (32 + (t - 32)) with t by lia.
Qed.

(** The last field. *)
Lemma read_channel t f chan r rest : BitReader.wf r -> fits 4 chan ->
  BitReader.bits r = val_bits 4 chan ++ rest ->
  fst ((let* v := BitReader.read_bits 4 in ret (mkConfig t f (wrap 8 v))) r) = Ok (mkConfig t f chan).
Proof.
  intros Hwf Hc Hb. destruct (read_val_bits r 4 chan rest Hwf Hb) as (r' & H & _); [done|lia|].
  mstep H. rewrite wrap_small; [done|]. unfold fits in *. lia.
Qed.

(** ** Properties *)

(** [PartialAudioSpecificConfig::parse] on every header laid out as the
    specification says, whatever follows it: plain and escaped object types,
    table frequencies and explicit 24-bit ones are decoded to the object type,
    frequency and channel configuration that were encoded; the two reserved
    frequency indices are refused as [InvalidData]. *)
Theorem aac_parse_layout (t : Z) (i : SampleFrequencyIndex) (freq chan : Z) (data : list byte)
    (rest : list bool) (Ht : 0 <= t < 31 \/ 32 <= t < 96) (Hf : fits 24 freq) (Hc : fits 4 chan)
    (Hdata : bytes_bits data = layout t i freq chan ++ rest) :
  parse data = match frequency i freq with
               | Some f => Ok (mkConfig (from_u16 t) f chan)
               | None => Err InvalidData
               end.
Proof.
  unfold parse, parse_bits, layout in *. rewrite <-!(assoc_L (++)) in Hdata.
  rewrite <-BitReader.bits_new_from_slice in Hdata.
  destruct (get_audio_object_type_ok _ t _ (BitReader.wf_new _) Ht Hdata) as (r1 & H1 & Hb1 & Hwf1).
  mstep H1.
  assert (fits 4 (index_discr i) /\ fits 8 (index_discr i)) as [Hi Hi8]
    by (destruct i; split; split; simpl; lia).
  destruct (read_val_bits r1 4 (index_discr i) _ Hwf1 Hb1) as (r2 & H2 & Hb2 & Hwf2); [done|lia|].
  mstep H2. rewrite wrap_small by done. rewrite index_of_discr. mret.
  destruct i; cbn [frequency to_freq]; try (mret; by eapply read_channel);
    try (by erewrite bind_err; [|reflexivity]).
  destruct (read_val_bits r2 24 freq _ Hwf2 Hb2) as (r3 & H3 & Hb3 & Hwf3); [done|lia|].
  erewrite bind_ok; [|mstep H3; reflexivity].
  rewrite wrap_small; [by eapply read_channel|]. unfold fits in *. lia.
Qed.

Lemma aac_parse_layout_witness :
  parse [x12; x10; x56] = Ok (mkConfig AacLowComplexity 44100 2).
Proof.
  exact (aac_parse_layout 2 Freq44100 0 2 [x12; x10; x56]
           (val_bits 3 0 ++ val_bits 8 86) ltac:(lia) ltac:(split; lia) ltac:(split; lia) eq_refl).
Defined.

End Aac.
