(* ===== verification/Amf0.v ===== *)
(** * [scuffle-amf0] (crates/amf0/src)

    The AMF0 values (define.rs), the decoder (decode.rs), the encoder
    (encode.rs) and their errors (errors.rs). A [str] is the byte string it is
    made of, with the UTF-8 check of [std::str::from_utf8] written out; an
    [f64] is its 64-bit pattern. *)

From stdpp Require Import base list numbers.
From Stdlib Require Import Strings.Byte.
From S2P Require Import Prelude Io.

(** ** UTF-8 *)

Module Utf8.

Definition in_range (lo hi : Z) (b : byte) : bool := (lo <=? b2z b) && (b2z b <=? hi).
Definition cont : byte -> bool := in_range 0x80 0xBF.

(** [std::str::from_utf8(bs).is_ok()], by the table of well-formed byte
    sequences of the Unicode standard. *)
Fixpoint valid (bs : list byte) : bool :=
  match bs with
  | [] => true
  | b0 :: bs =>
      if in_range 0x00 0x7F b0 then valid bs
      else if in_range 0xC2 0xDF b0 then
        match bs with b1 :: bs => cont b1 && valid bs | _ => false end
      else if in_range 0xE0 0xEF b0 then
        match bs with
        | b1 :: b2 :: bs =>
            (if in_range 0xE0 0xE0 b0 then in_range 0xA0 0xBF b1
             else if in_range 0xED 0xED b0 then in_range 0x80 0x9F b1
             else cont b1) && cont b2 && valid bs
        | _ => false
        end
      else if in_range 0xF0 0xF4 b0 then
        match bs with
        | b1 :: b2 :: b3 :: bs =>
            (if in_range 0xF0 0xF0 b0 then in_range 0x90 0xBF b1
             else if in_range 0xF4 0xF4 b0 then in_range 0x80 0x8F b1
             else cont b1) && cont b2 && cont b3 && valid bs
        | _ => false
        end
      else false
  end.

End Utf8.

(** ** Markers and values (define.rs) *)

Module Amf0Marker.

Inductive t :=
| Number | Boolean | String | Object | MovieClipMarker | Null | Undefined | Reference
| EcmaArray | ObjectEnd | StrictArray | Date | LongString | Unsupported | Recordset
| XmlDocument | TypedObject | AVMPlusObject.

#[global] Instance t_eq_dec : EqDecision t.
Proof. solve_decision. Defined.

Definition all : list t :=
  [Number; Boolean; String; Object; MovieClipMarker; Null; Undefined; Reference;
   EcmaArray; ObjectEnd; StrictArray; Date; LongString; Unsupported; Recordset;
   XmlDocument; TypedObject; AVMPlusObject].

(** [marker as u8] *)
Definition discr (m : t) : Z :=
  match m with
  | Number => 0x00 | Boolean => 0x01 | String => 0x02 | Object => 0x03
  | MovieClipMarker => 0x04 | Null => 0x05 | Undefined => 0x06 | Reference => 0x07
  | EcmaArray => 0x08 | ObjectEnd => 0x09 | StrictArray => 0x0a | Date => 0x0b
  | LongString => 0x0c | Unsupported => 0x0d | Recordset => 0x0e | XmlDocument => 0x0f
  | TypedObject => 0x10 | AVMPlusObject => 0x11
  end.

(** [Amf0Marker::from_u8] and [from_u32] *)
Definition from_u (z : Z) : option t := from_primitive all discr z.

Lemma from_u_discr m : from_u (discr m) = Some m.
Proof. by destruct m. Qed.

Lemma discr_byte m : 0 <= discr m < 256.
Proof. destruct m; simpl; lia. Qed.

End Amf0Marker.

Module Amf0Value.

#[local] Unset Elimination Schemes.

Inductive t :=
| Number (bits : Z)
| Boolean (b : bool)
| String (s : list byte)
| Object (properties : list (list byte * t))
| Null
| ObjectEnd
| LongString (s : list byte).

#[local] Set Elimination Schemes.

Definition marker (v : t) : Amf0Marker.t :=
  match v with
  | Boolean _ => Amf0Marker.Boolean
  | Number _ => Amf0Marker.Number
  | String _ => Amf0Marker.String
  | Object _ => Amf0Marker.Object
  | Null => Amf0Marker.Null
  | ObjectEnd => Amf0Marker.ObjectEnd
  | LongString _ => Amf0Marker.LongString
  end.

(** Induction through the properties of objects. *)
Lemma t_ind' (P : t -> Prop)
    (Hnum : forall n, P (Number n)) (Hbool : forall b, P (Boolean b))
    (Hstr : forall s, P (String s))
    (Hobj : forall ps, Forall (fun p => P p.2) ps -> P (Object ps))
    (Hnull : P Null) (Hend : P ObjectEnd) (Hlong : forall s, P (LongString s)) :
  forall v, P v.
Proof.
  fix IH 1. intros [n|b|s|ps| | |s];
    [apply Hnum|apply Hbool|apply Hstr| |apply Hnull|apply Hend|apply Hlong].
  apply Hobj. induction ps as [|[k v] ps IHps]; constructor; [apply IH|exact IHps].
Qed.

End Amf0Value.

(** ** Errors (errors.rs) *)

Inductive Amf0ReadError :=
| UnknownMarker (m : Z)
| UnsupportedType (m : Amf0Marker.t)
| StringParseError
| ReadIo (e : ErrorKind)
| WrongType (expected got : Amf0Marker.t).

Inductive Amf0WriteError :=
| NormalStringTooLong
| WriteIo (e : ErrorKind)
| WriteUnsupportedType (m : Amf0Marker.t).

(** ** The decoder (decode.rs) *)

Module Amf0Decoder.
Section decoder.
Context `{BO : ByteOrder}.

Definition new (buff : list byte) : Cursor := cursor_new buff.

Definition is_empty (c : Cursor) : bool := blen (inner c) =? Z.of_N (pos c).

(** The seek succeeds past the end of the buffer; the slice does not. *)
Definition read_bytes (len : Z) : M Cursor Amf0ReadError (list byte) :=
  let* c := get in
  let pos := Z.of_N (pos c) in
  map_err ReadIo (Io.seek (Current (swrap 64 len))) ;;;
  let* c := get in
  unwrap (slice pos (pos + len) (inner c)).

Definition read_number : M Cursor Amf0ReadError Z := map_err ReadIo read_u64.

Definition read_bool : M Cursor Amf0ReadError bool :=
  let* b := map_err ReadIo read_u8 in ret (0 <? b).

Definition from_utf8 (bs : list byte) : M Cursor Amf0ReadError (list byte) :=
  if Utf8.valid bs then ret bs else throw StringParseError.

Definition read_string : M Cursor Amf0ReadError (list byte) :=
  let* l := map_err ReadIo read_u16 in
  let* bytes := read_bytes l in
  from_utf8 bytes.

Definition read_long_string : M Cursor Amf0ReadError (list byte) :=
  let* l := map_err ReadIo read_u32 in
  let* buff := read_bytes l in
  from_utf8 buff.

(** A failed read and a marker other than [ObjectEnd] both seek back. *)
Definition is_read_object_eof : M Cursor Amf0ReadError bool := fun c =>
  let p := Z.of_N (pos c) in
  match read_u24 c with
  | (Ok z, c') =>
      match Amf0Marker.from_u z with
      | Some Amf0Marker.ObjectEnd => (Ok true, c')
      | _ => (map_err ReadIo (Io.seek (Start p)) ;;; ret false) c'
      end
  | (Err _, c') => (map_err ReadIo (Io.seek (Start p)) ;;; ret false) c'
  | (Panic, c') => (Panic, c')
  | (Fuel, c') => (Fuel, c')
  end.

(** [decode] and the two loops it enters for objects and arrays recurse into
    each other; every call consumes input, so the bytes left bound the depth
    plus the turns of the loops. *)
Fixpoint decode_fuel (fuel : nat) : M Cursor Amf0ReadError Amf0Value.t :=
  match fuel with
  | O => out_of_fuel
  | S fuel =>
      let* z := map_err ReadIo read_u8 in
      let* marker := ok_or (Amf0Marker.from_u z) (UnknownMarker z) in
      match marker with
      | Amf0Marker.Number => let* n := read_number in ret (Amf0Value.Number n)
      | Amf0Marker.Boolean => let* b := read_bool in ret (Amf0Value.Boolean b)
      | Amf0Marker.String => let* s := read_string in ret (Amf0Value.String s)
      | Amf0Marker.Object => let* ps := read_object fuel [] in ret (Amf0Value.Object ps)
      | Amf0Marker.Null => ret Amf0Value.Null
      | Amf0Marker.EcmaArray =>
          let* len := map_err ReadIo read_u32 in
          let* ps := read_ecma_loop fuel len [] in
          (fun c => (Ok tt, snd (is_read_object_eof c))) ;;;
          ret (Amf0Value.Object ps)
      | Amf0Marker.LongString => let* s := read_long_string in ret (Amf0Value.LongString s)
      | _ => throw (UnsupportedType marker)
      end
  end
with read_object (fuel : nat) (properties : list (list byte * Amf0Value.t)) :
    M Cursor Amf0ReadError (list (list byte * Amf0Value.t)) :=
  match fuel with
  | O => out_of_fuel
  | S fuel =>
      let* is_eof := is_read_object_eof in
      if is_eof then ret properties
      else
        let* key := read_string in
        let* val := decode_fuel fuel in
        read_object fuel (properties ++ [(key, val)])
  end
with read_ecma_loop (fuel : nat) (len : Z) (properties : list (list byte * Amf0Value.t)) :
    M Cursor Amf0ReadError (list (list byte * Amf0Value.t)) :=
  match fuel with
  | O => out_of_fuel
  | S fuel =>
      if len =? 0 then ret properties
      else
        let* key := read_string in
        let* val := decode_fuel fuel in
        read_ecma_loop fuel (len - 1) (properties ++ [(key, val)])
  end.

Definition decode : M Cursor Amf0ReadError Amf0Value.t := fun c =>
  decode_fuel (S (length (cursor_rest c))) c.

Fixpoint decode_all_loop (fuel : nat) (results : list Amf0Value.t) :
    M Cursor Amf0ReadError (list Amf0Value.t) :=
  match fuel with
  | O => out_of_fuel
  | S fuel =>
      let* c := get in
      if is_empty c then ret results
      else let* v := decode in decode_all_loop fuel (results ++ [v])
  end.

Definition decode_all : M Cursor Amf0ReadError (list Amf0Value.t) := fun c =>
  decode_all_loop (S (length (cursor_rest c))) [] c.

Definition decode_with_type (specified_marker : Amf0Marker.t) : M Cursor Amf0ReadError Amf0Value.t :=
  let* z := map_err ReadIo read_u8 in
  map_err ReadIo (Io.seek (Current (-1))) ;;;
  let* marker := ok_or (Amf0Marker.from_u z) (UnknownMarker z) in
  if decide (marker = specified_marker) then decode
  else throw (WrongType specified_marker marker).

(** [Iterator::next]: [None] at the end of the data. *)
Definition next (c : Cursor) : option (res Amf0ReadError Amf0Value.t) * Cursor :=
  if is_empty c then (None, c) else let '(r, c') := decode c in (Some r, c').

End decoder.
End Amf0Decoder.

(** ** The encoder (encode.rs) *)

Module Amf0Encoder.
Section encoder.
Context `{BO : ByteOrder} {W : Type} `{IoWrite W}.

Definition put_u (n : nat) (z : Z) : M W Amf0WriteError unit := map_err WriteIo (write_uint BigEndian n z).
Definition put_all (bs : list byte) : M W Amf0WriteError unit := map_err WriteIo (write_all bs).

Definition object_eof : M W Amf0WriteError unit := put_u 3 (Amf0Marker.discr Amf0Marker.ObjectEnd).

Definition encode_number (value : Z) : M W Amf0WriteError unit :=
  put_u 1 (Amf0Marker.discr Amf0Marker.Number) ;;; put_u 8 value.

Definition encode_bool (value : bool) : M W Amf0WriteError unit :=
  put_u 1 (Amf0Marker.discr Amf0Marker.Boolean) ;;; put_u 1 (Z.b2z value).

Definition encode_string (value : list byte) : M W Amf0WriteError unit :=
  if 65535 <? blen value then throw NormalStringTooLong
  else
    put_u 1 (Amf0Marker.discr Amf0Marker.String) ;;;
    put_u 2 (wrap 16 (blen value)) ;;;
    put_all value.

Definition encode_null : M W Amf0WriteError unit := put_u 1 (Amf0Marker.discr Amf0Marker.Null).

(** The loop of [encode_object], with the call of [encode] on each value as
    an argument. *)
Definition encode_properties (enc : Amf0Value.t -> M W Amf0WriteError unit) :
    list (list byte * Amf0Value.t) -> M W Amf0WriteError unit :=
  fix loop ps :=
    match ps with
    | [] => ret tt
    | (key, value) :: ps =>
        put_u 2 (wrap 16 (blen key)) ;;;
        put_all key ;;;
        enc value ;;;
        loop ps
    end.

Definition encode_object_with (enc : Amf0Value.t -> M W Amf0WriteError unit)
    (properties : list (list byte * Amf0Value.t)) : M W Amf0WriteError unit :=
  put_u 1 (Amf0Marker.discr Amf0Marker.Object) ;;;
  encode_properties enc properties ;;;
  object_eof.

Fixpoint encode (value : Amf0Value.t) : M W Amf0WriteError unit :=
  match value with
  | Amf0Value.Boolean val => encode_bool val
  | Amf0Value.Null => encode_null
  | Amf0Value.Number val => encode_number val
  | Amf0Value.String val => encode_string val
  | Amf0Value.Object val => encode_object_with encode val
  | _ => throw (WriteUnsupportedType (Amf0Value.marker value))
  end.

Definition encode_object : list (list byte * Amf0Value.t) -> M W Amf0WriteError unit :=
  encode_object_with encode.

End encoder.
End Amf0Encoder.

(** ** Well-formed values *)

(** A string of fewer than [bound] bytes that is valid UTF-8. *)
Definition str_ok (bound : Z) (s : list byte) : Prop := Utf8.valid s = true /\ blen s < bound.

(** What the decoder can return. *)
Inductive value_ok : Amf0Value.t -> Prop :=
| ok_Number n : fits 64 n -> value_ok (Amf0Value.Number n)
| ok_Boolean b : value_ok (Amf0Value.Boolean b)
| ok_String s : str_ok (2 ^ 16) s -> value_ok (Amf0Value.String s)
| ok_Object ps : Forall (fun p => str_ok (2 ^ 16) p.1 /\ value_ok p.2) ps -> value_ok (Amf0Value.Object ps)
| ok_Null : value_ok Amf0Value.Null
| ok_LongString s : str_ok (2 ^ 32) s -> value_ok (Amf0Value.LongString s).

(** What the encoder accepts and the decoder gives back. *)
Inductive encodable : Amf0Value.t -> Prop :=
| enc_Number n : fits 64 n -> encodable (Amf0Value.Number n)
| enc_Boolean b : encodable (Amf0Value.Boolean b)
| enc_String s : str_ok (2 ^ 16) s -> encodable (Amf0Value.String s)
| enc_Object ps : Forall (fun p => str_ok (2 ^ 16) p.1 /\ encodable p.2) ps -> encodable (Amf0Value.Object ps)
| enc_Null : encodable Amf0Value.Null.

#[export] Hint Constructors value_ok encodable : scuffle.

(** The buffer fits in memory. *)
Definition in_memory (pre post : list byte) : Prop := blen pre + blen post < 2 ^ 63.

Lemma in_memory_app pre bs post : in_memory pre (bs ++ post) -> in_memory (pre ++ bs) post.
Proof. unfold in_memory. rewrite !blen_app. lia. Qed.

Module Amf0DecoderLemmas.
Import Amf0Decoder.
Section lemmas.
Context `{BO : ByteOrder}.

Lemma swrap_small l : 0 <= l < 2 ^ 63 -> swrap 64 l = l.
Proof. intros. unfold swrap. rewrite Z.mod_small by lia. by rewrite (proj2 (Z.ltb_lt _ _)) by lia. Qed.

Lemma read_bytes_at pre bs post len :
  len = blen bs -> len < 2 ^ 32 -> in_memory pre (bs ++ post) ->
  read_bytes len (at_pos pre (bs ++ post)) = (Ok bs, at_pos (pre ++ bs) post).
Proof.
  unfold in_memory. intros Hl Hlen Hmem.
  pose proof (blen_nonneg bs). pose proof (blen_nonneg pre). pose proof (blen_nonneg post).
  rewrite blen_app in Hmem.
  unfold read_bytes. mret. rewrite swrap_small by lia.
  mstep (seek_current_at pre bs post); [|done|split; rewrite blen_app; lia]. mret.
  unfold unwrap. unfold at_pos at 1; simpl. rewrite <-(assoc_L (++)).
  erewrite slice_app; [reflexivity| |]; unfold blen in *; lia.
Qed.

Lemma read_bytes_short pre post len :
  blen post < len < 2 ^ 32 -> in_memory pre post ->
  exists c, read_bytes len (at_pos pre post) = (Panic, c).
Proof.
  unfold in_memory. intros Hl Hmem. pose proof (blen_nonneg post). pose proof (blen_nonneg pre).
  eexists. unfold read_bytes. mret. rewrite swrap_small by lia.
  erewrite bind_ok; cycle 1.
  { apply map_err_ok. simpl. unfold cursor_seek; simpl. rewrite decide_True; [reflexivity|].
    unfold fits, blen in *. lia. }
  mret. simpl. rewrite slice_None; [reflexivity|lia|]. rewrite blen_app. unfold blen in *. lia.
Qed.

Lemma parses_read_bytes pre post len : 0 <= len < 2 ^ 32 -> in_memory pre post ->
  parses (read_bytes len) pre post (fun s bs => s = bs /\ blen s = len).
Proof.
  intros Hlen Hmem. unfold parses. destruct (Z.le_gt_cases len (blen post)) as [Hle|Hgt].
  - rewrite <-(take_drop (Z.to_nat len) post) in Hmem |- *.
    assert (blen (take (Z.to_nat len) post) = len) as Hb.
    { unfold blen in *. rewrite length_take. lia. }
    rewrite read_bytes_at by (done || lia). eauto 10.
  - destruct (read_bytes_short pre post len) as [c ->]; [lia|done|done].
Qed.

Lemma parses_from_utf8 s pre post :
  parses (from_utf8 s) pre post (fun s' bs => s' = s /\ bs = [] /\ Utf8.valid s = true).
Proof.
  unfold from_utf8. destruct (Utf8.valid s) eqn:E; [by apply parses_ret|apply parses_throw].
Qed.

(** Both kinds of string: an [n]-byte length, then that many bytes of UTF-8. *)
Lemma parses_str n pre post : (n <= 4)%nat -> in_memory pre post ->
  parses (let* l := map_err ReadIo (read_uint BigEndian n) in
          let* bytes := read_bytes l in from_utf8 bytes) pre post
    (fun s bs => str_ok (256 ^ Z.of_nat n) s /\ (n <= length bs)%nat).
Proof.
  intros Hn Hmem. eapply parses_bind; [apply parses_map_err, parses_uint|].
  intros l bs post' -> [Hl Hr]. simpl in *.
  assert (256 ^ Z.of_nat n <= 256 ^ 4) by (apply Z.pow_le_mono_r; lia).
  eapply parses_bind; [apply parses_read_bytes; [lia|by apply in_memory_app]|].
  intros s bs' post'' -> [-> Hs]. eapply parses_mono; [apply parses_from_utf8|].
  intros s' bs'' (-> & -> & Hv). split; [split; [done|lia]|].
  rewrite !length_app. lia.
Qed.

Lemma object_end_discr z : Amf0Marker.from_u z = Some Amf0Marker.ObjectEnd <-> z = 9.
Proof. split; [intros H%from_primitive_Some; by rewrite <-H|]. by intros ->. Qed.

(** [is_read_object_eof] consumes the three bytes of an object end, and
    nothing otherwise. *)
Lemma eof_true pre post : is_read_object_eof (at_pos pre ([x00; x00; x09] ++ post))
  = (Ok true, at_pos (pre ++ [x00; x00; x09]) post).
Proof. unfold is_read_object_eof. by rewrite read_uint_be_at. Qed.

Lemma eof_false pre post :
  (forall bs post', post = bs ++ post' -> length bs = 3%nat -> be_val bs <> 9) ->
  is_read_object_eof (at_pos pre post) = (Ok false, at_pos pre post).
Proof.
  intros Hne. unfold is_read_object_eof.
  assert (forall c, inner c = pre ++ post ->
    (map_err ReadIo (Io.seek (Start (Z.of_N (pos (at_pos pre post))))) ;;; ret false) c
      = (Ok false, at_pos pre post)) as Hback.
  { intros c Hc. unfold at_pos at 1; simpl.
    replace (Z.of_N (N.of_nat (length pre))) with (blen pre) by (unfold blen; lia).
    by mstep (seek_start_at pre post c Hc). }
  destruct (read_uint_cases BigEndian pre post 3) as [(bs & post' & Hp & Hl & ->)|[Hl ->]].
  - specialize (Hne bs post' Hp Hl).
    destruct (Amf0Marker.from_u (be_val bs)) as [m|] eqn:E.
    + destruct m; try (apply Hback; simpl; by rewrite Hp, (assoc_L (++))).
      by apply object_end_discr in E.
    + apply Hback; simpl. by rewrite Hp, (assoc_L (++)).
  - apply Hback. simpl. by rewrite app_nil_r.
Qed.

Lemma eof_cases pre post :
  (exists post', post = [x00; x00; x09] ++ post' /\
    is_read_object_eof (at_pos pre post) = (Ok true, at_pos (pre ++ [x00; x00; x09]) post'))
  \/ is_read_object_eof (at_pos pre post) = (Ok false, at_pos pre post).
Proof.
  destruct (decide (take 3 post = [x00; x00; x09])) as [Ht|Ht].
  - left. exists (drop 3 post).
    assert (post = [x00; x00; x09] ++ drop 3 post) as Hp by (by rewrite <-Ht, take_drop).
    split; [done|]. rewrite Hp at 1. apply eof_true.
  - right. apply eof_false. intros bs post' -> Hl H9. apply Ht.
    rewrite take_app_length' by done.
    apply be_val_inj; [done|]. rewrite H9. reflexivity.
Qed.

Lemma parses_eof pre post :
  parses is_read_object_eof pre post (fun b bs => b = true \/ bs = []).
Proof.
  unfold parses. destruct (eof_cases pre post) as [(post' & -> & ->)| ->]; [eauto 10|].
  exists [], post. rewrite app_nil_r. auto.
Qed.

Definition props_ok : list (list byte * Amf0Value.t) -> Prop :=
  Forall (fun p => str_ok (2 ^ 16) p.1 /\ value_ok p.2).

(** The statement proved by induction on the fuel, one per function. *)
Definition decode_good (fuel : nat) : Prop := forall pre post,
  in_memory pre post -> (length post < fuel)%nat ->
  parses (decode_fuel fuel) pre post (fun v bs => value_ok v /\ (1 <= length bs)%nat).

Definition loop_good (fuel : nat) (loop : list (list byte * Amf0Value.t) ->
    M Cursor Amf0ReadError (list (list byte * Amf0Value.t))) : Prop := forall pre post ps,
  in_memory pre post -> (length post < fuel)%nat -> props_ok ps ->
  parses (loop ps) pre post (fun r _ => props_ok r).

(** One turn of either loop: a key, a value, and the rest of the loop. *)
Lemma parses_property fuel loop pre post ps :
  decode_good fuel -> loop_good fuel loop ->
  in_memory pre post -> (length post < S fuel)%nat -> props_ok ps ->
  parses (let* key := read_string in let* val := decode_fuel fuel in loop (ps ++ [(key, val)]))
    pre post (fun r _ => props_ok r).
Proof.
  intros Hdec Hloop Hmem Hl Hps.
  eapply parses_bind; [apply (parses_str 2); [lia|done]|].
  intros key bs post1 -> [Hkey Hbs]. apply in_memory_app in Hmem. rewrite length_app in Hl.
  eapply parses_bind; [apply Hdec; [done|lia]|].
  intros v bs2 post2 -> [Hv Hbs2]. apply in_memory_app in Hmem. rewrite length_app in Hl.
  eapply parses_mono; [apply Hloop; [done|lia|]|done].
  apply Forall_app_2; [done|]. apply Forall_singleton. by split.
Qed.

(** The part of [decode] after the marker byte. *)
Definition payload (fuel : nat) (m : Amf0Marker.t) : M Cursor Amf0ReadError Amf0Value.t :=
  match m with
  | Amf0Marker.Number => let* n := read_number in ret (Amf0Value.Number n)
  | Amf0Marker.Boolean => let* b := read_bool in ret (Amf0Value.Boolean b)
  | Amf0Marker.String => let* s := read_string in ret (Amf0Value.String s)
  | Amf0Marker.Object => let* ps := read_object fuel [] in ret (Amf0Value.Object ps)
  | Amf0Marker.Null => ret Amf0Value.Null
  | Amf0Marker.EcmaArray =>
      let* len := map_err ReadIo read_u32 in
      let* ps := read_ecma_loop fuel len [] in
      (fun c => (Ok tt, snd (is_read_object_eof c))) ;;;
      ret (Amf0Value.Object ps)
  | Amf0Marker.LongString => let* s := read_long_string in ret (Amf0Value.LongString s)
  | _ => throw (UnsupportedType m)
  end.

Lemma decode_fuel_S fuel : decode_fuel (S fuel) =
  let* z := map_err ReadIo read_u8 in
  let* marker := ok_or (Amf0Marker.from_u z) (UnknownMarker z) in
  payload fuel marker.
Proof. reflexivity. Qed.

Lemma parses_payload fuel m pre post :
  loop_good fuel (read_object fuel) -> (forall len, loop_good fuel (read_ecma_loop fuel len)) ->
  in_memory pre post -> (length post < fuel)%nat ->
  parses (payload fuel m) pre post (fun v _ => value_ok v).
Proof.
  intros IHo IHe Hmem Hl.
  destruct m; try apply parses_throw; try (by apply parses_ret; constructor).
  - eapply parses_bind; [apply parses_map_err, parses_uint|]. intros n bs ? -> [_ Hn].
    apply parses_ret. by constructor.
  - eapply parses_bind with (Q := fun _ _ => True).
    { eapply parses_bind; [apply parses_map_err, parses_uint|]. intros. by apply parses_ret. }
    intros. apply parses_ret. constructor.
  - eapply parses_bind; [apply (parses_str 2); [lia|done]|]. intros s bs ? -> [Hs _].
    apply parses_ret. by constructor.
  - eapply parses_bind; [apply IHo; [done|lia|constructor]|]. intros ps bs ? -> Hps.
    apply parses_ret. by constructor.
  - eapply parses_bind; [apply parses_map_err, parses_uint|]. intros len bs post1 -> [Hb _].
    apply in_memory_app in Hmem. rewrite length_app in Hl.
    eapply parses_bind; [apply IHe; [done|lia|constructor]|]. intros ps bs2 post2 -> Hps.
    eapply parses_bind with (Q := fun _ _ => True).
    { unfold parses. destruct (eof_cases ((pre ++ bs) ++ bs2) post2) as [(p & Hp & ->)| ->].
      - exists [x00; x00; x09], p. done.
      - exists [], post2. by rewrite app_nil_r. }
    intros. apply parses_ret. by constructor.
  - eapply parses_bind; [apply (parses_str 4); [lia|done]|]. intros s bs ? -> [Hs _].
    apply parses_ret. by constructor.
Qed.

(** Every run of the decoder, on any input, with more fuel than bytes left. *)
Lemma decode_parses fuel :
  decode_good fuel /\ loop_good fuel (read_object fuel) /\
  forall len, loop_good fuel (read_ecma_loop fuel len).
Proof.
  induction fuel as [|fuel (IHd & IHo & IHe)]; [unfold decode_good, loop_good; split_and!; lia|].
  split_and!.
  - intros pre post Hmem Hl. rewrite decode_fuel_S.
    eapply parses_bind; [apply parses_map_err, parses_uint|].
    intros z bs post1 -> [Hbs Hz]. apply in_memory_app in Hmem. rewrite length_app in Hl.
    unfold ok_or. destruct (Amf0Marker.from_u z) as [m|]; [|apply (parses_throw (A := Amf0Value.t))].
    eapply parses_mono; [apply parses_payload; [done|done|done|lia]|].
    intros v bs2 Hv. split; [done|]. rewrite length_app. lia.
  - intros pre post ps Hmem Hl Hps. cbn [read_object].
    eapply parses_bind; [apply parses_eof|]. intros b bs post1 -> Hb.
    destruct b; [by apply parses_ret|]. destruct Hb as [?| ->]; [done|]. rewrite app_nil_r.
    by apply parses_property.
  - intros len pre post ps Hmem Hl Hps. cbn [read_ecma_loop].
    destruct (len =? 0); [by apply parses_ret|]. by apply parses_property.
Qed.
End lemmas.
End Amf0DecoderLemmas.

(** ** The encoding of a value *)

Definition prop_bytes (enc : Amf0Value.t -> list byte) (p : list byte * Amf0Value.t) : list byte :=
  be_bytes 2 (blen p.1) ++ p.1 ++ enc p.2.

Fixpoint value_bytes (v : Amf0Value.t) : list byte :=
  match v with
  | Amf0Value.Number n => x00 :: be_bytes 8 n
  | Amf0Value.Boolean b => [x01; if b then x01 else x00]
  | Amf0Value.String s => x02 :: be_bytes 2 (blen s) ++ s
  | Amf0Value.Object ps => x03 :: (ps ≫= prop_bytes value_bytes) ++ [x00; x00; x09]
  | Amf0Value.Null => [x05]
  | _ => []
  end.

Section encoding.
Context `{BO : ByteOrder}.

Lemma put_u_ok n z (w : list byte) : 0 <= z < 256 ^ Z.of_nat n ->
  Amf0Encoder.put_u n z w = (Ok tt, w ++ be_bytes n z).
Proof. intros Hz. unfold Amf0Encoder.put_u. apply map_err_ok. by apply write_uint_be. Qed.

Lemma put_all_ok bs (w : list byte) : Amf0Encoder.put_all bs w = (Ok tt, w ++ bs).
Proof. done. Qed.

(** Splits the first write off a sequence of writes. *)
Ltac wstep := first
  [ mstep put_all_ok | mstep put_u_ok; [|split; simpl; lia] ].

Lemma wrap16_len (s : list byte) : blen s < 2 ^ 16 -> wrap 16 (blen s) = blen s.
Proof. intros. pose proof (blen_nonneg s). apply Z.mod_small. lia. Qed.

Lemma str_len_range (s : list byte) : blen s < 2 ^ 16 -> 0 <= blen s < 256 ^ Z.of_nat 2.
Proof. intros. pose proof (blen_nonneg s). change (256 ^ Z.of_nat 2) with (2 ^ 16). lia. Qed.

Lemma encode_string_ok s (w : list byte) : blen s < 2 ^ 16 ->
  Amf0Encoder.encode_string s w = (Ok tt, w ++ value_bytes (Amf0Value.String s)).
Proof.
  intros Hs. pose proof (str_len_range s Hs). unfold Amf0Encoder.encode_string.
  rewrite (proj2 (Z.ltb_ge _ _)) by lia. rewrite wrap16_len by done.
  wstep. mstep put_u_ok; [|done]. rewrite put_all_ok.
  cbn [value_bytes]. by rewrite <-!(assoc_L (++)).
Qed.

Lemma encode_properties_ok ps : forall w : list byte,
  Forall (fun p => blen p.1 < 2 ^ 16 /\
    forall w : list byte, Amf0Encoder.encode p.2 w = (Ok tt, w ++ value_bytes p.2)) ps ->
  Amf0Encoder.encode_properties Amf0Encoder.encode ps w = (Ok tt, w ++ (ps ≫= prop_bytes value_bytes)).
Proof.
  induction ps as [|[k v] ps IH]; intros w Hps; cbn [Amf0Encoder.encode_properties].
  { by rewrite app_nil_r. }
  apply Forall_cons_1 in Hps as [[Hk Hv] Hps]. simpl in Hk, Hv. rewrite wrap16_len by done.
  mstep put_u_ok; [|by apply str_len_range]. wstep. mstep Hv.
  etransitivity; [exact (IH _ Hps)|]. cbn [mbind list_bind]. unfold prop_bytes at 2; simpl.
  by rewrite <-!(assoc_L (++)).
Qed.

Lemma encode_object_ok ps (w : list byte) :
  Forall (fun p => blen p.1 < 2 ^ 16 /\
    forall w : list byte, Amf0Encoder.encode p.2 w = (Ok tt, w ++ value_bytes p.2)) ps ->
  Amf0Encoder.encode_object ps w = (Ok tt, w ++ value_bytes (Amf0Value.Object ps)).
Proof.
  intros Hps. unfold Amf0Encoder.encode_object, Amf0Encoder.encode_object_with. wstep.
  mstep (encode_properties_ok ps); [|done]. unfold Amf0Encoder.object_eof.
  rewrite put_u_ok by (simpl; lia). cbn [value_bytes]. by rewrite <-!(assoc_L (++)).
Qed.

Lemma encode_ok v : encodable v -> forall w : list byte,
  Amf0Encoder.encode v w = (Ok tt, w ++ value_bytes v).
Proof.
  induction v as [n|b|s|ps IH| | |s] using Amf0Value.t_ind'; intros Henc w;
    inversion Henc as [? Hn|?|? [_ Hs]|? Hps|]; subst; cbn [Amf0Encoder.encode].
  - unfold Amf0Encoder.encode_number. wstep. rewrite put_u_ok by done.
    cbn [value_bytes]. by rewrite <-(assoc_L (++)).
  - unfold Amf0Encoder.encode_bool. wstep. rewrite put_u_ok by (destruct b; simpl; lia).
    rewrite <-(assoc_L (++)). by destruct b.
  - by apply encode_string_ok.
  - apply (encode_object_ok ps w). rewrite Forall_forall in IH, Hps |- *.
    intros p Hp. destruct (Hps p Hp) as [[_ Hk] Hv]. auto.
  - unfold Amf0Encoder.encode_null. by rewrite put_u_ok by (simpl; lia).
Qed.
End encoding.

(** ** Decoding what was encoded *)

Module Amf0RoundTrip.
Import Amf0Decoder Amf0DecoderLemmas.
Section roundtrip.
Context `{BO : ByteOrder}.

Lemma decode_marker fuel m b pre post : b2z b = Amf0Marker.discr m ->
  decode_fuel (S fuel) (at_pos pre (b :: post)) = payload fuel m (at_pos (pre ++ [b]) post).
Proof.
  intros Hb. rewrite decode_fuel_S. change (b :: post) with ([b] ++ post).
  mstep (read_uint_be_at pre [b] post 1); [|done].
  rewrite be_val_cons. change (be_val []) with 0. change (blen []) with 0.
  rewrite Z.mul_1_r, Z.add_0_r, Hb, Amf0Marker.from_u_discr. reflexivity.
Qed.

Lemma read_string_at pre s post : str_ok (2 ^ 16) s ->
  in_memory pre ((be_bytes 2 (blen s) ++ s) ++ post) ->
  read_string (at_pos pre ((be_bytes 2 (blen s) ++ s) ++ post))
    = (Ok s, at_pos (pre ++ be_bytes 2 (blen s) ++ s) post).
Proof.
  intros [Hv Hs] Hmem. rewrite <-(assoc_L (++)) in *. unfold read_string.
  mstep read_uint_be_bytes; [|by apply str_len_range].
  mstep read_bytes_at; [|done|lia|by apply in_memory_app].
  unfold from_utf8. rewrite Hv, (assoc_L (++)). done.
Qed.

(** The encoding of an encodable value starts with a marker other than that of
    an object end. *)
Lemma value_bytes_head v : encodable v ->
  exists b bs, value_bytes v = b :: bs /\ b2z b <> 9.
Proof. destruct 1; cbn [value_bytes]; eexists _, _; (split; [reflexivity|]); vm_compute; lia. Qed.

(** No property can be mistaken for the end of its object, even under an
    empty key. *)
Lemma prop_not_end k v tl bs post : encodable v -> blen k < 2 ^ 16 ->
  prop_bytes value_bytes (k, v) ++ tl = bs ++ post -> length bs = 3%nat -> be_val bs <> 9.
Proof.
  intros Hv Hk Heq Hl H9. destruct (value_bytes_head v Hv) as (m & ms & Hm & Hne).
  assert (exists x rest, k ++ value_bytes v ++ tl = x :: rest /\ (k = [] -> x = m)) as (x & rest & Hx & Hxm).
  { rewrite Hm. destruct k as [|y k]; simpl; eexists _, _; by split. }
  unfold prop_bytes in Heq; simpl in Heq. rewrite <-!(assoc_L (++)), Hx in Heq.
  assert (bs = be_bytes 2 (blen k) ++ [x]) as ->.
  { apply (app_inj_1 _ _ post rest); [rewrite length_app, length_be_bytes; simpl; lia|].
    by rewrite <-Heq, <-(assoc_L (++)). }
  rewrite be_val_app, be_val_be_bytes in H9 by by apply str_len_range.
  change (blen [x]) with 1 in H9. rewrite be_val_cons in H9. change (be_val []) with 0 in H9.
  change (blen (@nil byte)) with 0 in H9. pose proof (b2z_range x). pose proof (blen_nonneg k).
  assert (blen k = 0) as Hk0 by lia.
  assert (k = []) as Hk1 by (unfold blen in Hk0; destruct k; simpl in *; [done|lia]).
  rewrite (Hxm Hk1) in H9. lia.
Qed.

Definition decodes (v : Amf0Value.t) : Prop := forall fuel pre post,
  in_memory pre (value_bytes v ++ post) -> (length (value_bytes v ++ post) < fuel)%nat ->
  decode_fuel fuel (at_pos pre (value_bytes v ++ post)) = (Ok v, at_pos (pre ++ value_bytes v) post).

Lemma read_object_at ps : forall fuel acc pre post,
  Forall (fun p => str_ok (2 ^ 16) p.1 /\ encodable p.2 /\ decodes p.2) ps ->
  let bs := (ps ≫= prop_bytes value_bytes) ++ [x00; x00; x09] in
  in_memory pre (bs ++ post) -> (length (bs ++ post) < fuel)%nat ->
  read_object fuel acc (at_pos pre (bs ++ post)) = (Ok (acc ++ ps), at_pos (pre ++ bs) post).
Proof.
  induction ps as [|[k v] ps IH]; intros [|fuel] acc pre post Hps bs Hmem Hf; try lia;
    cbn [read_object].
  - mstep eof_true. by rewrite app_nil_r.
  - apply Forall_cons_1 in Hps as [(Hk & Hv & Hdec) Hps]. simpl in Hk, Hv, Hdec.
    set (tl := (ps ≫= prop_bytes value_bytes) ++ [x00; x00; x09]) in *.
    assert (bs ++ post = (be_bytes 2 (blen k) ++ k) ++ value_bytes v ++ tl ++ post) as Hbs.
    { unfold bs, tl. cbn [mbind list_bind]. unfold prop_bytes at 1; simpl.
      by rewrite <-!(assoc_L (++)). }
    mstep eof_false.
    2: { intros bs' post' Heq. apply (prop_not_end k v (tl ++ post) bs' post'); [done|apply Hk|].
         unfold prop_bytes; simpl. by rewrite <-Heq, Hbs, <-!(assoc_L (++)). }
    rewrite Hbs in Hmem, Hf |- *. mstep read_string_at; [|done|done].
    apply in_memory_app in Hmem. rewrite length_app in Hf.
    rewrite (length_app (be_bytes 2 _)), length_be_bytes in Hf.
    mstep Hdec; [|done|lia]. apply in_memory_app in Hmem. rewrite length_app in Hf.
    destruct (value_bytes_head v Hv) as (m & ms & Hm & _). rewrite Hm in Hf. simpl in Hf.
    rewrite IH by (done || lia). rewrite <-(assoc_L (++)). do 2 f_equal.
    unfold bs, tl. cbn [mbind list_bind]. unfold prop_bytes at 2; simpl.
    by rewrite <-!(assoc_L (++)).
Qed.

Lemma decode_value_bytes v : encodable v -> decodes v.
Proof.
  induction v as [n|b|s|ps IH| | |s] using Amf0Value.t_ind'; intros Henc [|fuel] pre post Hmem Hf;
    try lia; inversion Henc as [? Hn|?|? Hs|? Hps|]; subst; cbn [value_bytes] in *.
  - rewrite <-app_comm_cons in *. rewrite (decode_marker fuel Amf0Marker.Number) by done.
    cbn [payload]. mstep read_uint_be_bytes; [|done]. by rewrite <-(assoc_L (++)).
  - cbn [app]. rewrite (decode_marker fuel Amf0Marker.Boolean) by done. cbn [payload].
    unfold read_bool. change ((if b then x01 else x00) :: post) with ([if b then x01 else x00] ++ post).
    erewrite bind_ok; [|mstep read_uint_be_at; [reflexivity|done]].
    rewrite <-(assoc_L (++)). by destruct b.
  - rewrite <-app_comm_cons in *. rewrite (decode_marker fuel Amf0Marker.String) by done.
    cbn [payload]. mstep read_string_at; [by rewrite <-!(assoc_L (++))|done|].
    by apply (in_memory_app pre [x02]).
  - rewrite <-app_comm_cons in *. rewrite (decode_marker fuel Amf0Marker.Object) by done.
    cbn [payload]. mstep (read_object_at ps fuel []).
    + by rewrite <-!(assoc_L (++)).
    + rewrite Forall_forall in IH, Hps |- *. intros p Hp. destruct (Hps p Hp). auto.
    + by apply (in_memory_app pre [x03]).
    + simpl in Hf. lia.
  - cbn [app]. by rewrite (decode_marker fuel Amf0Marker.Null) by done.
Qed.
End roundtrip.
End Amf0RoundTrip.

(** ** Properties *)

Module Amf0Props.
Import Amf0Decoder Amf0DecoderLemmas Amf0RoundTrip.
Section props.
Context `{BO : ByteOrder}.

Lemma parses_decode pre post : in_memory pre post ->
  parses decode pre post (fun v bs => value_ok v /\ (1 <= length bs)%nat).
Proof.
  intros Hmem. unfold parses, decode. rewrite cursor_rest_at.
  destruct (decode_parses (S (length post))) as [Hd _]. apply Hd; [done|lia].
Qed.

Lemma is_empty_at pre post : is_empty (at_pos pre post) = match post with [] => true | _ => false end.
Proof.
  unfold is_empty, at_pos; simpl. rewrite blen_app.
  destruct post; [apply Z.eqb_eq|apply Z.eqb_neq]; unfold blen; simpl; lia.
Qed.

Lemma decode_all_loop_parses fuel : forall vs pre post, in_memory pre post ->
  (length post < fuel)%nat -> Forall value_ok vs ->
  parses (decode_all_loop fuel vs) pre post (fun r bs => Forall value_ok r /\ bs = post).
Proof.
  induction fuel as [|fuel IH]; intros vs pre post Hmem Hl Hvs; [lia|].
  unfold parses. cbn [decode_all_loop]. erewrite bind_ok; [|done]. rewrite is_empty_at.
  destruct post as [|b post]; [by apply parses_ret|].
  eapply (parses_bind decode); [by apply parses_decode|].
  intros v bs post' Hp [Hv Hbs]. rewrite Hp in Hl, Hmem. rewrite length_app in Hl.
  apply in_memory_app in Hmem.
  eapply parses_mono; [apply IH; [done|lia|by apply Forall_app_2, Forall_singleton]|].
  intros r bs' [Hr ->]. by rewrite Hp.
Qed.

(** Encoding a sequence of values, as a command message does. *)
Fixpoint encode_all (vs : list Amf0Value.t) : M (list byte) Amf0WriteError unit :=
  match vs with
  | [] => ret tt
  | v :: vs => Amf0Encoder.encode v ;;; encode_all vs
  end.

Lemma encode_all_ok vs : forall w, Forall encodable vs ->
  encode_all vs w = (Ok tt, w ++ (vs ≫= value_bytes)).
Proof.
  induction vs as [|v vs IH]; intros w Hvs; cbn [encode_all]; [by rewrite app_nil_r|].
  apply Forall_cons_1 in Hvs as [Hv Hvs]. mstep encode_ok; [|done].
  rewrite IH by done. cbn [mbind list_bind]. by rewrite <-(assoc_L (++)).
Qed.

Lemma decode_at v pre post : encodable v -> in_memory pre (value_bytes v ++ post) ->
  decode (at_pos pre (value_bytes v ++ post)) = (Ok v, at_pos (pre ++ value_bytes v) post).
Proof.
  intros Hv Hmem. unfold decode. rewrite cursor_rest_at.
  apply decode_value_bytes; [done|done|lia].
Qed.

Lemma decode_all_at vs : forall fuel acc pre, Forall encodable vs ->
  in_memory pre (vs ≫= value_bytes) -> (length (vs ≫= value_bytes) < fuel)%nat ->
  decode_all_loop fuel acc (at_pos pre (vs ≫= value_bytes))
    = (Ok (acc ++ vs), at_pos (pre ++ (vs ≫= value_bytes)) []).
Proof.
  induction vs as [|v vs IH]; intros [|fuel] acc pre Hvs Hmem Hf; try lia;
    cbn [decode_all_loop]; (erewrite bind_ok; [|done]); rewrite is_empty_at.
  - simpl. by rewrite !app_nil_r.
  - apply Forall_cons_1 in Hvs as [Hv Hvs]. cbn [mbind list_bind] in *.
    destruct (value_bytes_head v Hv) as (m & ms & Hm & _).
    assert ((match value_bytes v ++ (vs ≫= value_bytes) with [] => true | _ => false end) = false)
      as -> by (by rewrite Hm).
    mstep decode_at; [|done|done].
    rewrite length_app, Hm in Hf. simpl in Hf.
    etransitivity; [apply IH; [done|by apply in_memory_app|simpl; lia]|].
    by rewrite <-!(assoc_L (++)).
Qed.

(** C32. The AMF0 decoder stops on every input, and what it returns is well
    formed: the recursion through objects and arrays is bounded by the bytes
    left (no array length in the data can make it loop), every string it
    returns is valid UTF-8 of its declared size, and the position stays inside
    the buffer; the same holds for [decode_all], which consumes the whole
    buffer. *)
Theorem amf0_decode_total (buf : list byte) (Hmem : blen buf < 2 ^ 63) :
  match decode (new buf) with
  | (Ok v, c) => value_ok v /\ inner c = buf /\ (0 < pos c <= N.of_nat (length buf))%N
  | (Err _, c) => inner c = buf /\ (pos c <= N.of_nat (length buf))%N
  | (Panic, _) => True
  | (Fuel, _) => False
  end /\
  match decode_all (new buf) with
  | (Ok vs, c) => Forall value_ok vs /\ c = mkCursor buf (N.of_nat (length buf))
  | (Err _, c) => inner c = buf
  | (Panic, _) => True
  | (Fuel, _) => False
  end.
Proof.
  assert (in_memory [] buf) as Hm by done. change (new buf) with (at_pos [] buf). split.
  - pose proof (parses_decode [] buf Hm) as Hp. unfold parses in Hp.
    destruct (decode _) as [[v|e| |] c]; [| |done|done].
    + destruct Hp as (bs & post & -> & -> & Hv & Hbs). simpl. rewrite length_app.
      split; [done|]. split; [done|]. lia.
    + destruct Hp as (pre' & post' & Hb & ->). simpl in *. subst buf.
      rewrite length_app. split; [done|lia].
  - unfold decode_all. rewrite cursor_rest_at.
    pose proof (decode_all_loop_parses (S (length buf)) [] [] buf Hm ltac:(lia) ltac:(constructor)) as Hp.
    unfold parses in Hp. destruct (decode_all_loop _ _ _) as [[vs|e| |] c]; [| |done|done].
    + destruct Hp as (bs & post & Hb & -> & Hv & ->). split; [done|].
      assert (post = []) as -> by (apply (f_equal length) in Hb; rewrite length_app in Hb; destruct post; simpl in *; [done|lia]).
      unfold at_pos. by rewrite app_nil_r.
    + destruct Hp as (pre' & post' & Heq & ->). done.
Qed.

(** C8. AMF0 round trip: any sequence of encodable values (numbers, booleans,
    strings below 64 KiB, null, and objects of such values with keys below
    64 KiB, empty keys included) is encoded without error, and [decode_all]
    returns exactly the sequence from the produced bytes. *)
Theorem amf0_roundtrip (vs : list Amf0Value.t) (Hvs : Forall encodable vs)
    (Hmem : blen (vs ≫= value_bytes) < 2 ^ 63) :
  exists bs, encode_all vs [] = (Ok tt, bs) /\
    decode_all (new bs) = (Ok vs, mkCursor bs (N.of_nat (length bs))).
Proof.
  eexists. split; [by apply encode_all_ok|]. rewrite app_nil_l.
  change (new ?bs) with (at_pos [] bs). unfold decode_all. rewrite cursor_rest_at.
  rewrite decode_all_at by (done || lia). unfold at_pos. by rewrite app_nil_r.
Qed.

(** A truncated string is not an error but a panic: when the declared
    length of a string runs past the end of the data, the seek succeeds and
    the slice that follows is out of range, whatever the bytes are. *)
Theorem amf0_truncated_string_panics (s : list byte) (l : Z) (Hl : blen s < l < 2 ^ 16) :
  exists c, decode (new (x02 :: be_bytes 2 l ++ s)) = (Panic, c).
Proof.
  change (new ?bs) with (at_pos [] bs). unfold decode. rewrite cursor_rest_at.
  rewrite (decode_marker _ Amf0Marker.String) by done. cbn [payload].
  pose proof (blen_nonneg s).
  destruct (read_bytes_short ([x02] ++ be_bytes 2 l) s l) as [c Hc].
  { lia. }
  { unfold in_memory. rewrite blen_app, blen_be_bytes. change (blen [x02]) with 1. lia. }
  exists c. erewrite bind_panic; [done|]. unfold read_string.
  mstep read_uint_be_bytes; [by erewrite bind_panic|].
  change (256 ^ Z.of_nat 2) with (2 ^ 16). lia.
Qed.

(** Keys of 64 KiB and more: the encoder refuses such a string as a
    value, but as a key it writes the length modulo 2^16 and still all the
    bytes, so the object does not decode to what was encoded. *)
Theorem amf0_long_key_truncated (k : list byte) (v : Amf0Value.t) (Hk : 2 ^ 16 <= blen k)
    (Hv : encodable v) :
  Amf0Encoder.encode_string k [] = (Err NormalStringTooLong, []) /\
  Amf0Encoder.encode_object [(k, v)] [] =
    (Ok tt, x03 :: be_bytes 2 (blen k `mod` 2 ^ 16) ++ k ++ value_bytes v ++ [x00; x00; x09]).
Proof.
  split.
  - unfold Amf0Encoder.encode_string. by rewrite (proj2 (Z.ltb_lt _ _)) by lia.
  - unfold Amf0Encoder.encode_object, Amf0Encoder.encode_object_with.
    mstep put_u_ok; [|simpl; lia]. cbn [Amf0Encoder.encode_properties].
    erewrite bind_ok; cycle 1.
    { mstep put_u_ok; [|unfold wrap; apply Z.mod_pos_bound; lia]. mstep put_all_ok.
      mstep encode_ok; [|done]. reflexivity. }
    unfold Amf0Encoder.object_eof. rewrite put_u_ok by (simpl; lia).
    by rewrite <-!(assoc_L (++)).
Qed.
End props.

Lemma amf0_decode_total_witness :
  decode (new [x03; x00; x01; x61; x05; x00; x00; x09]) =
    (Ok (Amf0Value.Object [([x61], Amf0Value.Null)]), mkCursor [x03; x00; x01; x61; x05; x00; x00; x09] 8)
  /\ value_ok (Amf0Value.Object [([x61], Amf0Value.Null)]).
Proof.
  assert (decode (new [x03; x00; x01; x61; x05; x00; x00; x09]) =
    (Ok (Amf0Value.Object [([x61], Amf0Value.Null)]), mkCursor [x03; x00; x01; x61; x05; x00; x00; x09] 8))
    as Hd by (vm_compute; reflexivity).
  pose proof (amf0_decode_total [x03; x00; x01; x61; x05; x00; x00; x09]
    ltac:(vm_compute; reflexivity)) as [H _].
  rewrite Hd in H. split; [exact Hd|]. apply H.
Defined.

Lemma amf0_roundtrip_witness :
  let vs := [Amf0Value.String [x61; x62]; Amf0Value.Number 0x3ff0000000000000;
             Amf0Value.Object [([], Amf0Value.Boolean true); ([x78], Amf0Value.Object [])]; Amf0Value.Null] in
  exists bs, encode_all vs [] = (Ok tt, bs) /\
    decode_all (new bs) = (Ok vs, mkCursor bs (N.of_nat (length bs))).
Proof.
  intros vs. apply (amf0_roundtrip vs).
  - assert (Hs : forall s, Utf8.valid s = true -> Z.ltb (blen s) (2 ^ 16) = true -> str_ok (2 ^ 16) s)
      by (intros s Hu Hl; apply Z.ltb_lt in Hl; split; assumption).
    constructor; [apply enc_String, Hs; reflexivity|].
    constructor; [apply enc_Number; split; [discriminate|reflexivity]|].
    constructor; [|constructor; [apply enc_Null|constructor]].
    apply enc_Object. constructor; [split; [apply Hs; reflexivity|apply enc_Boolean]|].
    constructor; [split; [apply Hs; reflexivity|]|constructor].
    apply enc_Object. constructor.
  - vm_compute. reflexivity.
Defined.

Lemma amf0_truncated_string_panics_witness :
  exists c, decode (new [x02; x00; x0b; x48; x65]) = (Panic, c).
Proof. exact (amf0_truncated_string_panics [x48; x65] 11 ltac:(vm_compute; auto)). Defined.

Lemma amf0_long_key_truncated_witness :
  let k := repeat x61 (Z.to_nat (2 ^ 16 + 2)) in
  snd (Amf0Encoder.encode_object [(k, Amf0Value.Null)] [])
    = x03 :: be_bytes 2 2 ++ k ++ [x05; x00; x00; x09].
Proof.
  intros k. assert (blen k = 2 ^ 16 + 2) as Hk.
  { unfold k, blen. rewrite repeat_length. lia. }
  clearbody k. rewrite (proj2 (amf0_long_key_truncated k Amf0Value.Null ltac:(lia) enc_Null)), Hk. reflexivity.
Defined.

End Amf0Props.
