(* ===== verification/RtmpChunk.v ===== *)
(** * RTMP chunk streams (crates/rtmp/src/chunk)

    The data of define.rs and errors.rs, the chunk encoder (encoder.rs) and
    the chunk decoder (decoder.rs), which reassembles messages from the
    interleaved pieces of several chunk streams.  The two hash maps of the
    decoder are finite maps; a buffer of received bytes is a list that
    [read_chunk] consumes from the front. *)

From stdpp Require Import base list numbers gmap.
From Stdlib Require Import Strings.Byte.
From S2P Require Import Prelude Io.

(** ** Message types (messages/define.rs) *)

Module MessageTypeID.

Inductive t :=
| SetChunkSize | Abort | Acknowledgement | UserControlEvent | WindowAcknowledgementSize
| SetPeerBandwidth | Audio | Video | DataAMF3 | SharedObjAMF3 | CommandAMF3 | DataAMF0
| SharedObjAMF0 | CommandAMF0 | Aggregate.

#[global] Instance t_eq_dec : EqDecision t.
Proof. solve_decision. Defined.

Definition all : list t :=
  [ SetChunkSize; Abort; Acknowledgement; UserControlEvent; WindowAcknowledgementSize;
    SetPeerBandwidth; Audio; Video; DataAMF3; SharedObjAMF3; CommandAMF3; DataAMF0;
    SharedObjAMF0; CommandAMF0; Aggregate ].

Definition discr (m : t) : Z :=
  match m with
  | SetChunkSize => 1 | Abort => 2 | Acknowledgement => 3 | UserControlEvent => 4
  | WindowAcknowledgementSize => 5 | SetPeerBandwidth => 6 | Audio => 8 | Video => 9
  | DataAMF3 => 15 | SharedObjAMF3 => 16 | CommandAMF3 => 17 | DataAMF0 => 18
  | SharedObjAMF0 => 19 | CommandAMF0 => 20 | Aggregate => 22
  end.

Definition from_u8 (z : Z) : option t := from_primitive all discr z.

Lemma message_type_from_discr m : from_u8 (discr m) = Some m.
Proof. by destruct m. Qed.

Lemma discr_range m : 0 <= discr m < 256.
Proof. by destruct m. Qed.

End MessageTypeID.

(** ** Data (define.rs) *)

Module DefinedChunkStreamID.

Inductive t := Command | Audio | Video.

Definition discr (c : t) : Z := match c with Command => 3 | Audio => 4 | Video => 5 end.

End DefinedChunkStreamID.

Module ChunkType.

Inductive t := Type0 | Type1 | Type2 | Type3.

Definition all : list t := [Type0; Type1; Type2; Type3].

Definition discr (c : t) : Z := match c with Type0 => 0 | Type1 => 1 | Type2 => 2 | Type3 => 3 end.

Definition from_u8 (z : Z) : option t := from_primitive all discr z.

Lemma chunk_type_from_discr c : from_u8 (discr c) = Some c.
Proof. by destruct c. Qed.

Lemma from_u8_total z : 0 <= z < 4 -> exists c, from_u8 z = Some c.
Proof.
  intros Hz. assert (z = 0 \/ z = 1 \/ z = 2 \/ z = 3) as [-> | [-> | [-> | ->]]] by lia; by eexists.
Qed.

End ChunkType.

Record ChunkBasicHeader := mkBasic { format : ChunkType.t; chunk_stream_id : Z }.

Record ChunkMessageHeader := mkHeader {
  timestamp : Z;
  msg_length : Z;
  msg_type_id : MessageTypeID.t;
  msg_stream_id : Z;
  was_extended_timestamp : bool;
}.

Definition is_extended_timestamp (h : ChunkMessageHeader) : bool := 0xFFFFFF <=? timestamp h.

Record Chunk := mkChunk {
  basic_header : ChunkBasicHeader;
  message_header : ChunkMessageHeader;
  payload : list byte;
}.

Definition Chunk_new (chunk_stream_id timestamp : Z) (msg_type_id : MessageTypeID.t)
    (msg_stream_id : Z) (payload : list byte) : Chunk :=
  mkChunk (mkBasic ChunkType.Type0 chunk_stream_id)
    (mkHeader timestamp (wrap 32 (blen payload)) msg_type_id msg_stream_id false)
    payload.

Definition CHUNK_SIZE : Z := 4096.
Definition MAX_CHUNK_SIZE : Z := 4096 * 16.
Definition INIT_CHUNK_SIZE : Z := 128.

(** ** Errors (errors.rs) *)

Inductive ChunkDecodeError :=
| DecodeIO (e : ErrorKind)
| InvalidChunkType (z : Z)
| InvalidMessageTypeID (z : Z)
| MissingPreviousChunkHeader (csid : Z)
| TooManyPartialChunks
| TooManyPreviousChunkHeaders
| PartialChunkTooLarge (size : Z)
| TimestampOverflow (timestamp delta : Z).

Inductive ChunkEncodeError :=
| UnknownReadState
| EncodeIO (e : ErrorKind).

(** ** The encoder (encoder.rs) *)

Module ChunkEncoder.

Record t := mk { chunk_size : Z }.

Definition default : t := mk INIT_CHUNK_SIZE.

Definition set_chunk_size (chunk_size : Z) (_ : t) : t := mk chunk_size.

Section encoder.
Context `{BO : ByteOrder} {W : Type} `{IoWrite W}.

Definition put_be (n : nat) (z : Z) : M W ChunkEncodeError unit := map_err EncodeIO (write_uint BigEndian n z).
Definition put_le (n : nat) (z : Z) : M W ChunkEncodeError unit := map_err EncodeIO (write_uint LittleEndian n z).
Definition put_all (bs : list byte) : M W ChunkEncodeError unit := map_err EncodeIO (write_all bs).

Definition write_basic_header (fmt : ChunkType.t) (csid : Z) : M W ChunkEncodeError unit :=
  let fmt := ChunkType.discr fmt in
  if 64 + 255 <=? csid then
    put_be 1 (Z.lor (wrap 8 (Z.shiftl fmt 6)) 1) ;;;
    let csid := csid - 64 in
    let div := csid / 256 in
    let rem := csid `mod` 256 in
    put_be 1 (wrap 8 rem) ;;;
    put_be 1 (wrap 8 div)
  else if 64 <=? csid then
    put_be 1 (wrap 8 (Z.shiftl fmt 6)) ;;;
    put_be 1 (wrap 8 (csid - 64))
  else
    put_be 1 (Z.lor (wrap 8 (Z.shiftl fmt 6)) (wrap 8 csid)).

Definition write_extened_timestamp (timestamp : Z) : M W ChunkEncodeError unit := put_be 4 timestamp.

Definition write_message_header (message_header : ChunkMessageHeader) : M W ChunkEncodeError unit :=
  let ts := if 0xFFFFFF <=? timestamp message_header then 0xFFFFFF else timestamp message_header in
  put_be 3 ts ;;;
  put_be 3 (msg_length message_header) ;;;
  put_be 1 (MessageTypeID.discr (msg_type_id message_header)) ;;;
  put_le 4 (msg_stream_id message_header) ;;;
  if is_extended_timestamp message_header then write_extened_timestamp (timestamp message_header)
  else ret tt.

(** The loop of [write_chunk] over what is left of the payload.  With a chunk
    size of 0 it makes no progress; otherwise every turn shortens the payload. *)
Fixpoint write_payload (self : t) (csid : Z) (header : ChunkMessageHeader) (fuel : nat)
    (payload : list byte) : M W ChunkEncodeError unit :=
  match fuel with
  | O => out_of_fuel
  | S fuel =>
      match payload with
      | [] => ret tt
      | _ =>
          let cur_payload_size := if chunk_size self <? blen payload then chunk_size self else blen payload in
          let payload_bytes := take (Z.to_nat cur_payload_size) payload in
          let payload := drop (Z.to_nat cur_payload_size) payload in
          put_all payload_bytes ;;;
          match payload with
          | [] => ret tt
          | _ =>
              write_basic_header ChunkType.Type3 csid ;;;
              if is_extended_timestamp header then write_extened_timestamp (timestamp header) else ret tt
          end ;;;
          write_payload self csid header fuel payload
      end
  end.

Definition write_chunk (self : t) (chunk_info : Chunk) : M W ChunkEncodeError unit :=
  write_basic_header ChunkType.Type0 (chunk_stream_id (basic_header chunk_info)) ;;;
  write_message_header (message_header chunk_info) ;;;
  write_payload self (chunk_stream_id (basic_header chunk_info)) (message_header chunk_info)
    (S (length (payload chunk_info))) (payload chunk_info).

End encoder.
End ChunkEncoder.

(** ** The decoder (decoder.rs) *)

Module ChunkDecoder.

Definition MAX_PARTIAL_CHUNK_SIZE : Z := 10 * 1024 * 1024.
Definition MAX_PREVIOUS_CHUNK_HEADERS : Z := 100.
Definition MAX_PARTIAL_CHUNK_COUNT : Z := 4.

Record t := mk {
  previous_chunk_headers : gmap Z ChunkMessageHeader;
  partial_chunks : gmap (Z * Z) (list byte);
  max_chunk_size : Z;
}.

Definition default : t := mk ∅ ∅ INIT_CHUNK_SIZE.

Definition set_headers (h : gmap Z ChunkMessageHeader) (d : t) : t :=
  mk h (partial_chunks d) (max_chunk_size d).
Definition set_partials (p : gmap (Z * Z) (list byte)) (d : t) : t :=
  mk (previous_chunk_headers d) p (max_chunk_size d).

(** The number of entries of a map, [HashMap::len]. *)
Definition len {K A} `{Countable K} (m : gmap K A) : Z := Z.of_nat (size m).

Definition update_max_chunk_size (chunk_size : Z) (self : t) : bool * t :=
  if negb ((INIT_CHUNK_SIZE <=? chunk_size) && (chunk_size <=? MAX_CHUNK_SIZE)) then (false, self)
  else (true, mk (previous_chunk_headers self) (partial_chunks self) chunk_size).

(** Errors while a header is read: [None] asks for more data. *)
Abbreviation HeaderM := (M Cursor (option ChunkDecodeError)).

Section decoder.
Context `{BO : ByteOrder}.

(** [cursor.read_uN().map_err(|_| None)?] *)
Definition need (e : Endian) (n : nat) : HeaderM Z := map_err (fun _ => None) (read_uint e n).

Definition read_header : HeaderM ChunkBasicHeader :=
  let* byte := need BigEndian 1 in
  let format := Z.land (Z.shiftr byte 6) 3 in
  let* format := ok_or (ChunkType.from_u8 format) (Some (InvalidChunkType format)) in
  let* chunk_stream_id :=
    match Z.land byte 63 with
    | 0 => let* b := need BigEndian 1 in ret (64 + b)
    | 1 => let* b0 := need BigEndian 1 in let* b1 := need BigEndian 1 in ret (64 + b0 + b1 * 256)
    | csid => ret csid
    end in
  ret (mkBasic format chunk_stream_id).

(** A 24-bit timestamp or delta of 0xFFFFFF announces a 32-bit one. *)
Definition read_extended (ts : Z) : HeaderM (Z * bool) :=
  if ts =? 0xFFFFFF then let* ts := need BigEndian 4 in ret (ts, true) else ret (ts, false).

Definition check_msg_length (msg_length : Z) : HeaderM unit :=
  if MAX_PARTIAL_CHUNK_SIZE <? msg_length then throw (Some (PartialChunkTooLarge msg_length)) else ret tt.

Definition read_msg_type_id : HeaderM MessageTypeID.t :=
  let* z := need BigEndian 1 in
  ok_or (MessageTypeID.from_u8 z) (Some (InvalidMessageTypeID z)).

Definition previous_header (self : t) (header : ChunkBasicHeader) : HeaderM ChunkMessageHeader :=
  ok_or (previous_chunk_headers self !! chunk_stream_id header)
    (Some (MissingPreviousChunkHeader (chunk_stream_id header))).

Definition read_message_header (self : t) (header : ChunkBasicHeader) : HeaderM ChunkMessageHeader :=
  match format header with
  | ChunkType.Type0 =>
      let* timestamp := need BigEndian 3 in
      let* msg_length := need BigEndian 3 in
      check_msg_length msg_length ;;;
      let* msg_type_id := read_msg_type_id in
      let* msg_stream_id := need LittleEndian 4 in
      let* (timestamp, was_extended_timestamp) := read_extended timestamp in
      ret (mkHeader timestamp msg_length msg_type_id msg_stream_id was_extended_timestamp)
  | ChunkType.Type1 =>
      let* timestamp_delta := need BigEndian 3 in
      let* msg_length := need BigEndian 3 in
      check_msg_length msg_length ;;;
      let* msg_type_id := read_msg_type_id in
      let* (timestamp_delta, was_extended_timestamp) := read_extended timestamp_delta in
      let* previous_header := previous_header self header in
      let sum := timestamp previous_header + timestamp_delta in
      let timestamp := if sum <? 2 ^ 32 then sum else timestamp previous_header in
      ret (mkHeader timestamp msg_length msg_type_id (msg_stream_id previous_header)
             was_extended_timestamp)
  | ChunkType.Type2 =>
      let* timestamp_delta := need BigEndian 3 in
      let* (timestamp_delta, was_extended_timestamp) := read_extended timestamp_delta in
      let* previous_header := previous_header self header in
      let* timestamp := checked_u 32 (timestamp previous_header + timestamp_delta) in
      ret (mkHeader timestamp (msg_length previous_header) (msg_type_id previous_header)
             (msg_stream_id previous_header) was_extended_timestamp)
  | ChunkType.Type3 =>
      let* previous_header := previous_header self header in
      (if was_extended_timestamp previous_header then need BigEndian 4 ;;; ret tt else ret tt) ;;;
      ret previous_header
  end.

(** How much of the message of [key] has been received. *)
Definition partial_len (self : t) (key : Z * Z) : Z :=
  match partial_chunks self !! key with Some data => blen data | None => 0 end.

Definition get_payload_range (self : t) (header : ChunkBasicHeader) (message_header : ChunkMessageHeader) :
    HeaderM (Z * Z) :=
  let key := (chunk_stream_id header, msg_stream_id message_header) in
  let* remaining_read_length := checked_u 64 (msg_length message_header - partial_len self key) in
  let need_read_length := Z.min remaining_read_length (max_chunk_size self) in
  let* c := get in
  let p := Z.of_N (pos c) in
  map_err (fun _ => None) (Io.seek (Current (swrap 64 need_read_length))) ;;;
  ret (p, p + need_read_length).

(** The three header reads of [read_chunk]; each failure is handled alike. *)
Definition read_piece (self : t) : HeaderM (ChunkBasicHeader * ChunkMessageHeader * (Z * Z)) :=
  let* header := read_header in
  let* message_header := read_message_header self header in
  let* range := get_payload_range self header message_header in
  ret (header, message_header, range).

(** The second half of a turn of [read_chunk]: the payload of a piece is known
    and the decoder's maps are updated.  [None] lets the loop continue. *)
Definition store_piece (header : ChunkBasicHeader) (message_header : ChunkMessageHeader)
    (payload : list byte) : M t ChunkDecodeError (option Chunk) :=
  let* self := get in
  let csid := chunk_stream_id header in
  let count := match previous_chunk_headers self !! csid with
               | Some _ => len (previous_chunk_headers self)
               | None => len (previous_chunk_headers self) + 1
               end in
  if MAX_PREVIOUS_CHUNK_HEADERS <? count then throw TooManyPreviousChunkHeaders else
  modify (set_headers (<[csid := message_header]> (previous_chunk_headers self))) ;;;
  if blen payload =? msg_length message_header then
    ret (Some (mkChunk header message_header payload))
  else
    let key := (csid, msg_stream_id message_header) in
    let* partial_chunk :=
      match partial_chunks self !! key with
      | Some partial_chunk => ret partial_chunk
      | None =>
          if MAX_PARTIAL_CHUNK_COUNT <=? len (partial_chunks self) then throw TooManyPartialChunks
          else modify (set_partials (<[key := []]> (partial_chunks self))) ;;; ret []
      end in
    if MAX_PARTIAL_CHUNK_SIZE <? blen partial_chunk + blen payload
    then throw (PartialChunkTooLarge (blen partial_chunk + blen payload))
    else
      let partial_chunk := partial_chunk ++ payload in
      if blen partial_chunk =? msg_length message_header then
        modify (set_partials (delete key (partial_chunks self))) ;;;
        ret (Some (mkChunk header message_header partial_chunk))
      else
        modify (set_partials (<[key := partial_chunk]> (partial_chunks self))) ;;;
        ret None.

(** One turn of the loop of [read_chunk] on the decoder and the buffer:
    [Some r] returns [r], [None] takes another turn. *)
Definition read_turn : M (t * list byte) ChunkDecodeError (option (option Chunk)) := fun '(self, buffer) =>
  match read_piece self (cursor_new buffer) with
  | (Err None, _) => (Ok (Some None), (self, buffer))
  | (Err (Some err), _) => (Err err, (self, buffer))
  | (Panic, _) => (Panic, (self, buffer))
  | (Fuel, _) => (Fuel, (self, buffer))
  | (Ok (header, message_header, (payload_range_start, payload_range_end)), cursor) =>
      let position := Z.of_N (pos cursor) in
      if blen buffer <? position then (Ok (Some None), (self, buffer))
      else
        let data := take (Z.to_nat position) buffer in
        let buffer := drop (Z.to_nat position) buffer in
        match slice payload_range_start payload_range_end data with
        | None => (Panic, (self, buffer))
        | Some payload =>
            let '(r, self) := store_piece header message_header payload self in
            match r with
            | Ok (Some chunk) => (Ok (Some (Some chunk)), (self, buffer))
            | Ok None => (Ok None, (self, buffer))
            | Err err => (Err err, (self, buffer))
            | Panic => (Panic, (self, buffer))
            | Fuel => (Fuel, (self, buffer))
            end
        end
  end.

(** Every turn that continues removes a header from the buffer, whose length
    therefore bounds the turns. *)
Fixpoint read_chunk_loop (fuel : nat) : M (t * list byte) ChunkDecodeError (option Chunk) :=
  match fuel with
  | O => out_of_fuel
  | S fuel =>
      let* r := read_turn in
      match r with
      | Some r => ret r
      | None => read_chunk_loop fuel
      end
  end.

Definition read_chunk : M (t * list byte) ChunkDecodeError (option Chunk) := fun s =>
  read_chunk_loop (S (length s.2)) s.

End decoder.
End ChunkDecoder.
