(* ===== verification/RtmpChunkDecode.v ===== *)
(** * The chunk decoder on arbitrary input

    Bounds on the memory the decoder keeps, termination of [read_chunk], and
    independence of its results from how the network splits the bytes. *)

From stdpp Require Import base list numbers gmap.
From Stdlib Require Import Strings.Byte.
From S2P Require Import Prelude Io RtmpChunk.

Module ChunkDecoderLemmas.
Import ChunkDecoder.

Create HintDb parser.

(** ** Header parsers move forwards *)

(** [advances k m]: a result of [m] comes with the position moved by at
    least [k] in the same buffer, and [m] does not run out of fuel. *)
Definition advances {A} (k : N) (m : HeaderM A) : Prop := forall c,
  match m c with
  | (Ok _, c') => inner c' = inner c /\ (pos c + k <= pos c')%N
  | (Fuel, _) => False
  | _ => True
  end.

Lemma advances_ret {A} (a : A) : advances 0 (ret a).
Proof. intros c. simpl. split; [done|lia]. Qed.

Lemma advances_throw {A} k e : advances (A := A) k (throw e).
Proof. done. Qed.

Lemma advances_bind {A B} k1 k2 k (m : HeaderM A) (f : A -> HeaderM B) :
  advances k1 m -> (forall a, advances k2 (f a)) -> (k <= k1 + k2)%N -> advances k (bind m f).
Proof.
  intros Hm Hf Hk c. unfold bind. specialize (Hm c). destruct (m c) as [[a|e| |] c1]; try done.
  specialize (Hf a c1). destruct (f a c1) as [[b|e| |] c2]; try done.
  destruct Hm as [<- ?], Hf as [-> ?]. split; [done|lia].
Qed.

Lemma advances_bind0 {A B} (m : HeaderM A) (f : A -> HeaderM B) :
  advances 0 m -> (forall a, advances 0 (f a)) -> advances 0 (bind m f).
Proof. intros. by eapply (advances_bind 0 0). Qed.

Lemma advances_weaken {A} k (m : HeaderM A) : advances k m -> advances 0 m.
Proof.
  intros Hm c. specialize (Hm c). destruct (m c) as [[a|e| |] c1]; try done.
  destruct Hm. split; [done|lia].
Qed.

Lemma advances_ok_or {A} (o : option A) e : advances 0 (ok_or o e).
Proof. destruct o; [apply advances_ret|apply advances_throw]. Qed.

Lemma advances_checked w z : advances 0 (checked_u w z).
Proof. intros c. unfold checked_u. destruct (_ && _); simpl; [|done]. split; [done|lia]. Qed.

(** ** Header parsers do not look ahead *)

(** The same cursor on a buffer that has received [more]. *)
Definition extend (more : list byte) (c : Cursor) : Cursor := mkCursor (inner c ++ more) (pos c).

(** [stable m]: unless [m] asks for more data, its outcome does not change
    when more data is there. *)
Definition stable {A} (m : HeaderM A) : Prop := forall c more,
  match m c with
  | (Err None, _) => True
  | (r, c') => m (extend more c) = (r, extend more c')
  end.

Lemma stable_ret {A} (a : A) : stable (ret a).
Proof. done. Qed.

Lemma stable_throw {A} e : stable (A := A) (throw e).
Proof. intros c more. by destruct e. Qed.

Lemma stable_bind {A B} (m : HeaderM A) (f : A -> HeaderM B) :
  stable m -> (forall a, stable (f a)) -> stable (bind m f).
Proof.
  intros Hm Hf c more. unfold bind. specialize (Hm c more).
  destruct (m c) as [[a|[e|]| |] c1]; try done; rewrite Hm; [|done..]. apply Hf.
Qed.

Lemma stable_ok_or {A} (o : option A) e : stable (ok_or o e).
Proof. destruct o; [apply stable_ret|apply stable_throw]. Qed.

Lemma stable_checked w z : stable (checked_u w z).
Proof. intros c more. unfold checked_u. by destruct (_ && _). Qed.

Lemma stable_if {A} (b : bool) (m n : HeaderM A) : stable m -> stable n -> stable (if b then m else n).
Proof. by destruct b. Qed.

Lemma advances_if {A} (b : bool) k (m n : HeaderM A) :
  advances k m -> advances k n -> advances k (if b then m else n).
Proof. by destruct b. Qed.

#[local] Hint Resolve advances_ret advances_throw advances_ok_or advances_checked advances_bind0 advances_if
  stable_ret stable_throw stable_bind stable_ok_or stable_checked stable_if : parser.

Section decoder.
Context `{BO : ByteOrder}.

Lemma advances_need e n : advances (N.of_nat n) (need e n).
Proof.
  intros c. unfold need, map_err, read_uint, bind. simpl. unfold cursor_read_exact.
  destruct (decide _); simpl; [|done]. split; [done|lia].
Qed.

Lemma advances_need0 e n : advances 0 (need e n).
Proof. eapply advances_weaken, advances_need. Qed.

Lemma stable_need e n : (0 < n)%nat -> stable (need e n).
Proof.
  intros Hn c more. unfold need, map_err, read_uint, bind. simpl. unfold cursor_read_exact.
  destruct (decide (n <= length (cursor_rest c))%nat) as [Hl|]; [|done].
  assert (cursor_rest (extend more c) = cursor_rest c ++ more) as ->.
  { unfold cursor_rest, extend in *. simpl. rewrite length_drop in Hl. rewrite length_app.
    rewrite (drop_app_le (inner c)) by lia. do 2 f_equal. lia. }
  rewrite length_app, decide_True, take_app_le by lia. done.
Qed.

#[local] Hint Resolve advances_need0 : parser.
#[local] Hint Extern 1 (stable (need _ _)) => apply stable_need; lia : parser.

Lemma advances_read_header : advances 1 read_header.
Proof.
  eapply (advances_bind 1 0); [apply (advances_need _ 1)| |lia].
  intros b. apply advances_bind0; [auto with parser|]. intros fmt.
  apply advances_bind0; [|auto with parser].
  destruct (Z.land b 63) as [|[]|]; auto with parser.
Qed.

Lemma stable_read_header : stable read_header.
Proof.
  apply stable_bind; [auto with parser|]. intros b.
  apply stable_bind; [auto with parser|]. intros fmt.
  apply stable_bind; [|auto with parser].
  destruct (Z.land b 63) as [|[]|]; auto with parser.
Qed.

Lemma advances_read_extended ts : advances 0 (read_extended ts).
Proof. unfold read_extended. auto with parser. Qed.

Lemma stable_read_extended ts : stable (read_extended ts).
Proof. unfold read_extended. auto with parser. Qed.

Lemma advances_check_msg_length l : advances 0 (check_msg_length l).
Proof. unfold check_msg_length. auto with parser. Qed.

Lemma stable_check_msg_length l : stable (check_msg_length l).
Proof. unfold check_msg_length. auto with parser. Qed.

Lemma advances_read_msg_type_id : advances 0 read_msg_type_id.
Proof. unfold read_msg_type_id. auto with parser. Qed.

Lemma stable_read_msg_type_id : stable read_msg_type_id.
Proof. unfold read_msg_type_id. auto with parser. Qed.

#[local] Hint Resolve advances_read_extended stable_read_extended advances_check_msg_length
  stable_check_msg_length advances_read_msg_type_id stable_read_msg_type_id : parser.
#[local] Hint Extern 1 => match goal with p : (_ * _)%type |- _ => destruct p end : parser.

Lemma advances_previous_header d h : advances 0 (previous_header d h).
Proof. apply advances_ok_or. Qed.

Lemma stable_previous_header d h : stable (previous_header d h).
Proof. apply stable_ok_or. Qed.

#[local] Hint Resolve advances_previous_header stable_previous_header : parser.

Lemma advances_read_message_header d h : advances 0 (read_message_header d h).
Proof. unfold read_message_header. destruct (format h); cbv zeta; auto 20 with parser. Qed.

Lemma stable_read_message_header d h : stable (read_message_header d h).
Proof. unfold read_message_header. destruct (format h); cbv zeta; auto 20 with parser. Qed.

(** ** Ranges of the fields *)

Definition basic_ok (h : ChunkBasicHeader) : Prop := 2 <= chunk_stream_id h < 2 ^ 16 + 64.

Definition header_ok (h : ChunkMessageHeader) : Prop :=
  fits 32 (timestamp h) /\ 0 <= msg_length h <= MAX_PARTIAL_CHUNK_SIZE /\ fits 32 (msg_stream_id h).

(** The bounds on what the decoder keeps. *)
Record wf (d : t) : Prop := {
  wf_chunk_size : INIT_CHUNK_SIZE <= max_chunk_size d <= MAX_CHUNK_SIZE;
  wf_headers : map_Forall (fun _ => header_ok) (previous_chunk_headers d);
  wf_headers_len : len (previous_chunk_headers d) <= MAX_PREVIOUS_CHUNK_HEADERS;
  wf_partials : map_Forall (fun _ bs => blen bs <= MAX_PARTIAL_CHUNK_SIZE) (partial_chunks d);
  wf_partials_len : len (partial_chunks d) <= MAX_PARTIAL_CHUNK_COUNT;
}.

(** [yields Q m]: a result of [m] satisfies [Q]. *)
Definition yields {A} (Q : A -> Prop) (m : HeaderM A) : Prop := forall c,
  match m c with (Ok a, _) => Q a | _ => True end.

Lemma yields_ret {A} (Q : A -> Prop) a : Q a -> yields Q (ret a).
Proof. intros HQ c. exact HQ. Qed.

Lemma yields_bind {A B} (P : A -> Prop) (Q : B -> Prop) (m : HeaderM A) f :
  yields P m -> (forall a, P a -> yields Q (f a)) -> yields Q (bind m f).
Proof.
  intros Hm Hf c. unfold bind. specialize (Hm c). destruct (m c) as [[a|e| |] c1]; try done.
  by apply Hf.
Qed.

Lemma yields_any {A} (m : HeaderM A) : yields (fun _ => True) m.
Proof. intros c. by destruct (m c) as [[]]. Qed.

Lemma yields_ok_or {A} (Q : A -> Prop) o e : (forall a, o = Some a -> Q a) -> yields Q (ok_or o e).
Proof. intros HQ c. destruct o; simpl; auto. Qed.

Lemma yields_need e n : yields (fun z => 0 <= z < 256 ^ Z.of_nat n) (need e n).
Proof.
  intros c. unfold need, map_err, read_uint, bind. simpl. unfold cursor_read_exact.
  destruct (decide _) as [Hl|]; simpl; [|done].
  assert (blen (take n (cursor_rest c)) = Z.of_nat n) as Hn by (unfold blen; rewrite length_take; lia).
  rewrite <-Hn. destruct e; [rewrite bo_read_be; apply be_val_range|rewrite bo_read_le; apply le_val_range].
Qed.

Lemma yields_read_header : yields basic_ok read_header.
Proof.
  eapply yields_bind; [apply yields_need|cbv beta]. intros b Hb.
  eapply yields_bind; [apply yields_any|cbv beta]. intros fmt _.
  eapply (yields_bind (fun csid => 2 <= csid < 2 ^ 16 + 64)); [|intros csid ?; by apply yields_ret].
  assert (0 <= Z.land b 63 < 64) as Hl.
  { change 63 with (Z.ones 6). rewrite Z.land_ones by lia. apply Z.mod_pos_bound. lia. }
  destruct (Z.land b 63) as [|p|p] eqn:E; [|destruct (decide (p = 1%positive)) as [->|Hp]|lia].
  - eapply yields_bind; [apply yields_need|cbv beta]. intros b0 Hb0. apply yields_ret.
    change (256 ^ Z.of_nat 1) with 256 in *. cbv beta; lia.
  - eapply yields_bind; [apply yields_need|cbv beta]. intros b0 Hb0.
    eapply yields_bind; [apply yields_need|cbv beta]. intros b1 Hb1. apply yields_ret.
    change (256 ^ Z.of_nat 1) with 256 in *. cbv beta; lia.
  - destruct p; try done; apply yields_ret; cbv beta; lia.
Qed.

Lemma yields_read_extended ts : fits 24 ts -> yields (fun r => fits 32 r.1) (read_extended ts).
Proof.
  intros Hts. unfold read_extended. destruct (ts =? _).
  - eapply yields_bind; [apply yields_need|cbv beta]. intros z Hz. apply yields_ret.
    change (256 ^ Z.of_nat 4) with (2 ^ 32) in Hz. done.
  - apply yields_ret. unfold fits in *. simpl. lia.
Qed.

Lemma yields_check_msg_length l : yields (fun _ => l <= MAX_PARTIAL_CHUNK_SIZE) (check_msg_length l).
Proof.
  unfold check_msg_length. destruct (Z.ltb_spec MAX_PARTIAL_CHUNK_SIZE l); [done|].
  by apply yields_ret.
Qed.

Lemma yields_previous_header d h : wf d -> yields header_ok (previous_header d h).
Proof. intros Hd. apply yields_ok_or. intros p Hp. by apply (wf_headers d Hd) in Hp. Qed.

Lemma yields_read_message_header d h : wf d -> yields header_ok (read_message_header d h).
Proof.
  intros Hd. unfold read_message_header.
  assert (256 ^ Z.of_nat 3 = 2 ^ 24) as H24 by done. assert (256 ^ Z.of_nat 4 = 2 ^ 32) as H32 by done.
  destruct (format h); cbv zeta.
  - eapply yields_bind; [apply yields_need|cbv beta]. intros ts Hts.
    eapply yields_bind; [apply yields_need|cbv beta]. intros l Hl.
    eapply yields_bind; [apply yields_check_msg_length|cbv beta]. intros _ Hmax.
    eapply yields_bind; [apply yields_any|cbv beta]. intros ty _.
    eapply yields_bind; [apply yields_need|cbv beta]. intros sid Hsid.
    eapply yields_bind; [apply yields_read_extended; unfold fits; lia|cbv beta]. intros [ts' ext] Hts'.
    apply yields_ret. split; [done|]. split; [simpl; lia|]. unfold fits. simpl. lia.
  - eapply yields_bind; [apply yields_need|cbv beta]. intros ts Hts.
    eapply yields_bind; [apply yields_need|cbv beta]. intros l Hl.
    eapply yields_bind; [apply yields_check_msg_length|cbv beta]. intros _ Hmax.
    eapply yields_bind; [apply yields_any|cbv beta]. intros ty _.
    eapply yields_bind; [apply yields_read_extended; unfold fits; lia|cbv beta]. intros [ts' ext] Hts'.
    eapply yields_bind; [by apply yields_previous_header|cbv beta]. intros prev (Hp1 & Hp2 & Hp3).
    apply yields_ret. split; [|split; [simpl; lia|done]]. unfold fits in *. simpl in *.
    destruct (Z.ltb_spec (timestamp prev + ts') (2 ^ 32)); lia.
  - eapply yields_bind; [apply yields_need|cbv beta]. intros ts Hts.
    eapply yields_bind; [apply yields_read_extended; unfold fits; lia|cbv beta]. intros [ts' ext] Hts'.
    eapply yields_bind; [by apply yields_previous_header|cbv beta]. intros prev (Hp1 & Hp2 & Hp3).
    eapply (yields_bind (fits 32)).
    { intros c. destruct (decide (fits 32 (timestamp prev + ts'))).
      - by rewrite checked_u_ok. - by rewrite checked_u_panic. }
    intros z Hz. by apply yields_ret.
  - eapply yields_bind; [by apply yields_previous_header|cbv beta]. intros prev Hprev.
    eapply yields_bind; [apply yields_any|cbv beta]. intros _ _. by apply yields_ret.
Qed.

(** ** The payload range *)

Lemma partial_len_nonneg d key : 0 <= partial_len d key.
Proof. unfold partial_len. destruct (_ !! _); [apply blen_nonneg|done]. Qed.

(** The size of the next piece of a message. *)
Definition piece_size (d : t) (h : ChunkBasicHeader) (mh : ChunkMessageHeader) : Z :=
  Z.min (msg_length mh - partial_len d (chunk_stream_id h, msg_stream_id mh)) (max_chunk_size d).

Lemma get_payload_range_cases d h mh c : wf d -> header_ok mh ->
  (piece_size d h mh < 0 /\ get_payload_range d h mh c = (Panic, c)) \/
  (0 <= piece_size d h mh /\
    ((exists c', get_payload_range d h mh c = (Err None, c')) \/
     get_payload_range d h mh c =
       (Ok (Z.of_N (pos c), Z.of_N (pos c) + piece_size d h mh),
        mkCursor (inner c) (pos c + Z.to_N (piece_size d h mh))))).
Proof.
  intros [Hsz _ _ _ _] (_ & Hl & _). unfold get_payload_range, piece_size.
  set (key := (chunk_stream_id h, msg_stream_id mh)). pose proof (partial_len_nonneg d key) as Hp.
  unfold MAX_PARTIAL_CHUNK_SIZE, INIT_CHUNK_SIZE, MAX_CHUNK_SIZE in *.
  set (rem := msg_length mh - partial_len d key) in *. cbv zeta.
  destruct (decide (0 <= rem)) as [Hr|Hr].
  - right. split; [lia|]. mstep (checked_u_ok (E := option ChunkDecodeError) 64 rem c); [|unfold fits; lia].
    mret. set (n := Z.min rem (max_chunk_size d)) in *.
    assert (swrap 64 n = n) as ->.
    { unfold swrap. rewrite Z.mod_small by lia. by rewrite (proj2 (Z.ltb_lt _ _)) by lia. }
    unfold bind, map_err. simpl. unfold cursor_seek.
    destruct (decide _); [right|left; by eexists]. simpl. do 2 f_equal. lia.
  - left. split; [lia|]. erewrite bind_panic; [done|]. apply checked_u_panic. unfold fits. lia.
Qed.

Lemma stable_get_payload_range d h mh : stable (get_payload_range d h mh).
Proof.
  apply stable_bind; [apply stable_checked|]. intros z c more. cbv zeta.
  unfold bind, get, map_err. simpl. unfold cursor_seek. simpl. destruct (decide _); done.
Qed.

Lemma stable_read_piece d : stable (read_piece d).
Proof.
  apply stable_bind; [apply stable_read_header|]. intros h.
  apply stable_bind; [apply stable_read_message_header|]. intros mh.
  apply stable_bind; [apply stable_get_payload_range|]. intros r. apply stable_ret.
Qed.

(** What a successful read of the headers gives. *)
Lemma read_piece_ok d buf : wf d ->
  match read_piece d (cursor_new buf) with
  | (Ok (h, mh, (a, b)), c) =>
      basic_ok h /\ header_ok mh /\ 0 <= piece_size d h mh /\
      1 <= a /\ b = a + piece_size d h mh /\ Z.of_N (pos c) = b
  | (Fuel, _) => False
  | _ => True
  end.
Proof.
  intros Hd. unfold read_piece, bind.
  pose proof (advances_read_header (cursor_new buf)) as Ha. pose proof (yields_read_header (cursor_new buf)) as Hy.
  destruct (read_header _) as [[h|e| |] c1]; try done.
  pose proof (advances_read_message_header d h c1) as Ha2.
  pose proof (yields_read_message_header d h Hd c1) as Hy2.
  destruct (read_message_header d h c1) as [[mh|e| |] c2]; try done.
  destruct (get_payload_range_cases d h mh c2 Hd Hy2) as [[_ ->]|[Hn [[c' ->]| ->]]]; [done|done|].
  simpl. destruct Ha as [_ Ha], Ha2 as [_ Ha2]. simpl in Ha.
  split; [done|]. split; [done|]. split; [done|]. split; [lia|]. split; [done|]. lia.
Qed.

(** ** Storing a piece *)

Definition chunk_ok (ch : Chunk) : Prop :=
  basic_ok (basic_header ch) /\ header_ok (message_header ch) /\
  blen (payload ch) = msg_length (message_header ch).

Lemma len_insert {K A} `{Countable K} (m : gmap K A) k a :
  len (<[k := a]> m) = match m !! k with Some _ => len m | None => len m + 1 end.
Proof. unfold len. rewrite map_size_insert. destruct (m !! k); simpl; lia. Qed.

Lemma len_delete {K A} `{Countable K} (m : gmap K A) k : len (delete k m) <= len m.
Proof. unfold len. rewrite map_size_delete. destruct (m !! k); simpl; lia. Qed.

Lemma wf_set_headers d csid mh : wf d -> header_ok mh ->
  match previous_chunk_headers d !! csid with
  | Some _ => len (previous_chunk_headers d) | None => len (previous_chunk_headers d) + 1
  end <= MAX_PREVIOUS_CHUNK_HEADERS ->
  wf (set_headers (<[csid := mh]> (previous_chunk_headers d)) d).
Proof.
  intros [] Hmh Hcount. constructor; simpl; try done.
  - by apply map_Forall_insert_2.
  - by rewrite len_insert.
Qed.

Lemma wf_set_partials d p : wf d ->
  map_Forall (fun _ bs => blen bs <= MAX_PARTIAL_CHUNK_SIZE) p -> len p <= MAX_PARTIAL_CHUNK_COUNT ->
  wf (set_partials p d).
Proof. intros []. by constructor. Qed.

Lemma wf_insert_partial d key bs : wf d -> blen bs <= MAX_PARTIAL_CHUNK_SIZE ->
  (partial_chunks d !! key = None -> len (partial_chunks d) < MAX_PARTIAL_CHUNK_COUNT) ->
  wf (set_partials (<[key := bs]> (partial_chunks d)) d).
Proof.
  intros Hd Hbs Hroom. apply wf_set_partials; [done| |].
  - apply map_Forall_insert_2; [done|by apply wf_partials].
  - rewrite len_insert. pose proof (wf_partials_len d Hd). destruct (_ !! _); [done|].
    specialize (Hroom eq_refl). lia.
Qed.

Lemma wf_delete_partial d key : wf d -> wf (set_partials (delete key (partial_chunks d)) d).
Proof.
  intros Hd. apply wf_set_partials; [done| |].
  - apply map_Forall_delete. by apply wf_partials.
  - pose proof (wf_partials_len d Hd). pose proof (len_delete (partial_chunks d) key). lia.
Qed.

Lemma store_piece_wf h mh pl d : wf d -> basic_ok h -> header_ok mh ->
  match store_piece h mh pl d with
  | (Ok (Some ch), d') => wf d' /\ chunk_ok ch
  | (Ok None, d') => wf d'
  | (Err _, d') => wf d'
  | _ => False
  end.
Proof.
  intros Hd Hh Hmh. unfold store_piece. mret.
  destruct (Z.ltb_spec MAX_PREVIOUS_CHUNK_HEADERS
    (match previous_chunk_headers d !! chunk_stream_id h with
     | Some _ => len (previous_chunk_headers d) | None => len (previous_chunk_headers d) + 1 end))
    as [|Hcount]; [done|]. mret.
  set (d1 := set_headers (<[chunk_stream_id h := mh]> (previous_chunk_headers d)) d).
  assert (wf d1) as Hd1 by by apply wf_set_headers.
  change (partial_chunks d) with (partial_chunks d1).
  destruct (Z.eqb_spec (blen pl) (msg_length mh)) as [Hl|Hl]; [split; done|].
  set (key := (chunk_stream_id h, msg_stream_id mh)).
  destruct (partial_chunks d1 !! key) as [bs|] eqn:Hkey.
  - mret. destruct (Z.ltb_spec MAX_PARTIAL_CHUNK_SIZE (blen bs + blen pl)); [done|].
    destruct (Z.eqb_spec (blen (bs ++ pl)) (msg_length mh)) as [Hl2|Hl2].
    + split; [by apply wf_delete_partial|done].
    + apply wf_insert_partial; [done|by rewrite blen_app|congruence].
  - destruct (Z.leb_spec MAX_PARTIAL_CHUNK_COUNT (len (partial_chunks d1))); [done|].
    assert (wf (set_partials (<[key := []]> (partial_chunks d1)) d1)) as Hd2.
    { by apply wf_insert_partial. }
    mret. rewrite blen_nil.
    destruct (Z.ltb_spec MAX_PARTIAL_CHUNK_SIZE (0 + blen pl)); [done|].
    change ([] ++ pl) with pl. destruct (Z.eqb_spec (blen pl) (msg_length mh)); [done|].
    apply (wf_insert_partial d1); [done|lia|done].
Qed.

(** ** One turn *)

Lemma read_turn_wf d buf : wf d ->
  match read_turn (d, buf) with
  | (Ok (Some None), s) => s = (d, buf)
  | (Ok (Some (Some ch)), (d', buf')) =>
      wf d' /\ chunk_ok ch /\ exists bs, buf = bs ++ buf' /\ (0 < length bs)%nat
  | (Ok None, (d', buf')) => wf d' /\ exists bs, buf = bs ++ buf' /\ (0 < length bs)%nat
  | (Err _, (d', buf')) => wf d' /\ exists bs, buf = bs ++ buf'
  | (Panic, (d', buf')) => wf d' /\ exists bs, buf = bs ++ buf'
  | (Fuel, _) => False
  end.
Proof.
  intros Hd. pose proof (read_piece_ok d buf Hd) as Hp. unfold read_turn.
  destruct (read_piece d (cursor_new buf)) as [[[[h mh] [a b]]|[e|]| |] c]; try done.
  - destruct Hp as (Hh & Hmh & Hn & Ha & -> & Hpos). rewrite Hpos.
    destruct (Z.ltb_spec (blen buf) (a + piece_size d h mh)) as [|Hlen]; [done|].
    set (n := Z.to_nat (a + piece_size d h mh)).
    assert (buf = take n buf ++ drop n buf) as Hsplit by (by rewrite take_drop).
    assert (length (take n buf) = n) as Hlt by (rewrite length_take; unfold blen in Hlen; lia).
    rewrite slice_Some by (unfold blen; rewrite ?Hlt; lia).
    set (pl := take _ (drop _ _)). pose proof (store_piece_wf h mh pl d Hd Hh Hmh) as Hst.
    destruct (store_piece h mh pl d) as [[[ch|]|e| |] d']; simpl; try done.
    + destruct Hst. split; [done|]. split; [done|]. exists (take n buf). split; [done|lia].
    + split; [done|]. exists (take n buf). split; [done|lia].
    + split; [done|]. by exists (take n buf).
  - split; [done|]. by exists [].
  - split; [done|]. by exists [].
Qed.

Lemma read_turn_stable d buf more : wf d ->
  match read_turn (d, buf) with
  | (Ok (Some None), _) => True
  | (r, (d', buf')) => read_turn (d, buf ++ more) = (r, (d', buf' ++ more))
  end.
Proof.
  intros Hd. pose proof (read_piece_ok d buf Hd) as Hp.
  pose proof (stable_read_piece d (cursor_new buf) more) as Hs. unfold read_turn.
  change (cursor_new (buf ++ more)) with (extend more (cursor_new buf)).
  destruct (read_piece d (cursor_new buf)) as [[[[h mh] [a b]]|[e|]| |] c]; try done;
    rewrite Hs; [|done..].
  destruct Hp as (Hh & Hmh & Hn & Ha & -> & Hpos).
  change (pos (extend more c)) with (pos c). rewrite Hpos.
  destruct (Z.ltb_spec (blen buf) (a + piece_size d h mh)) as [|Hlen]; [done|].
  pose proof (blen_nonneg more).
  rewrite (proj2 (Z.ltb_ge (blen (buf ++ more)) _)) by (rewrite blen_app; lia).
  unfold blen in Hlen. rewrite take_app_le, drop_app_le by lia.
  destruct (slice a _ _) as [pl|]; [|done].
  by destruct (store_piece h mh pl d) as [[[ch|]|err| |] d'].
Qed.

(** ** The loop *)

Lemma read_chunk_loop_fuel f1 : forall f2 d buf, wf d ->
  (length buf < f1)%nat -> (length buf < f2)%nat ->
  read_chunk_loop f1 (d, buf) = read_chunk_loop f2 (d, buf).
Proof.
  induction f1 as [|f1 IH]; intros [|f2] d buf Hd H1 H2; try lia. cbn [read_chunk_loop].
  unfold bind. pose proof (read_turn_wf d buf Hd) as Ht.
  destruct (read_turn (d, buf)) as [[[r|]|e| |] [d' buf']]; try done.
  destruct Ht as (Hd' & bs & -> & Hbs). rewrite length_app in *. apply IH; [done|lia..].
Qed.

Lemma read_chunk_turn d buf : wf d -> read_chunk (d, buf) =
  (let* r := read_turn in match r with Some r => ret r | None => read_chunk end) (d, buf).
Proof.
  intros Hd. unfold read_chunk at 1. cbn [read_chunk_loop]. unfold bind.
  pose proof (read_turn_wf d buf Hd) as Ht.
  destruct (read_turn (d, buf)) as [[[r|]|e| |] [d' buf']]; try done.
  destruct Ht as (Hd' & bs & -> & Hbs). cbn [snd]. rewrite length_app in *. unfold read_chunk.
  apply read_chunk_loop_fuel; simpl; [done|lia..].
Qed.

(** Induction over the turns of [read_chunk]. *)
Lemma read_chunk_ind (P : t -> list byte -> Prop) :
  (forall d buf, wf d ->
    (forall d' buf', read_turn (d, buf) = (Ok None, (d', buf')) -> wf d' -> P d' buf') -> P d buf) ->
  forall d buf, wf d -> P d buf.
Proof.
  intros HP d buf. remember (length buf) as n eqn:Hn. revert d buf Hn.
  induction (lt_wf n) as [n _ IH]. intros d buf -> Hd. apply HP; [done|].
  intros d' buf' Ht Hd'. pose proof (read_turn_wf d buf Hd) as Hw. rewrite Ht in Hw.
  destruct Hw as (_ & bs & -> & Hbs). eapply IH; [|done|done]. rewrite length_app. lia.
Qed.

Lemma read_chunk_wf d buf : wf d ->
  match read_chunk (d, buf) with
  | (Ok (Some ch), (d', buf')) =>
      wf d' /\ chunk_ok ch /\ exists bs, buf = bs ++ buf' /\ (0 < length bs)%nat
  | (Fuel, _) => False
  | (_, (d', buf')) => wf d' /\ exists bs, buf = bs ++ buf'
  end.
Proof.
  intros Hd. revert d buf Hd. apply read_chunk_ind. intros d buf Hd IH.
  rewrite read_chunk_turn by done. unfold bind. pose proof (read_turn_wf d buf Hd) as Ht.
  destruct (read_turn (d, buf)) as [[[[ch|]|]|e| |] [d' buf']]; simpl; try done.
  - simplify_eq. split; [done|]. by exists [].
  - destruct Ht as (Hd' & bs & -> & Hbs). specialize (IH d' buf' eq_refl Hd').
    destruct (read_chunk (d', buf')) as [[[ch|]|e| |] [d2 buf2]]; try done.
    + destruct IH as (? & ? & bs2 & -> & ?). split; [done|]. split; [done|].
      exists (bs ++ bs2). rewrite (assoc_L (++)), length_app. split; [done|lia].
    + destruct IH as (? & bs2 & ->). split; [done|]. exists (bs ++ bs2). by rewrite (assoc_L (++)).
    + destruct IH as (? & bs2 & ->). split; [done|]. exists (bs ++ bs2). by rewrite (assoc_L (++)).
    + destruct IH as (? & bs2 & ->). split; [done|]. exists (bs ++ bs2). by rewrite (assoc_L (++)).
Qed.

Lemma read_chunk_stable d buf more : wf d ->
  match read_chunk (d, buf) with
  | (Ok None, (d', buf')) => read_chunk (d, buf ++ more) = read_chunk (d', buf' ++ more)
  | (r, (d', buf')) => read_chunk (d, buf ++ more) = (r, (d', buf' ++ more))
  end.
Proof.
  intros Hd. revert d buf Hd. apply read_chunk_ind. intros d buf Hd IH.
  pose proof (read_turn_wf d buf Hd) as Ht. pose proof (read_turn_stable d buf more Hd) as Hs.
  rewrite !(read_chunk_turn d) by done. unfold bind.
  destruct (read_turn (d, buf)) as [[[[ch|]|]|e| |] [d' buf']]; try done;
    try (by rewrite Hs).
  - injection Ht as -> ->. cbv beta iota delta [ret]. by rewrite read_chunk_turn.
  - destruct Ht as [Hd' _]. rewrite Hs. by apply IH.
Qed.

Lemma wf_default : wf default.
Proof.
  constructor; simpl; try done; apply map_Forall_empty.
Qed.

Lemma update_max_chunk_size_wf n d : wf d -> wf (update_max_chunk_size n d).2.
Proof.
  intros Hd. unfold update_max_chunk_size.
  destruct (Z.leb_spec INIT_CHUNK_SIZE n), (Z.leb_spec n MAX_CHUNK_SIZE); simpl; try done.
  destruct Hd. by constructor.
Qed.

(** What the owner of a decoder does with it and its buffer. *)
Inductive decoder_step : t * list byte -> t * list byte -> Prop :=
| step_receive d buf bs : decoder_step (d, buf) (d, buf ++ bs)
| step_read d buf r s : read_chunk (d, buf) = (r, s) -> decoder_step (d, buf) s
| step_update d buf n : decoder_step (d, buf) ((update_max_chunk_size n d).2, buf).

Lemma decoder_step_wf s s' : decoder_step s s' -> wf s.1 -> wf s'.1.
Proof.
  intros [d buf bs|d buf r [d' buf'] Hr|d buf n] Hd; simpl in *; [done| |by apply update_max_chunk_size_wf].
  pose proof (read_chunk_wf d buf Hd) as Hw. rewrite Hr in Hw.
  destruct r as [[ch|]|e| |]; [by destruct Hw as (? & _)..|done].
Qed.

(** The bytes held in unfinished messages. *)
Definition held (d : t) : Z := map_fold (fun _ bs n => blen bs + n) 0 (partial_chunks d).

Lemma held_bound (p : gmap (Z * Z) (list byte)) b :
  map_Forall (fun _ bs => blen bs <= b) p ->
  map_fold (fun _ bs n => blen bs + n) 0 p <= len p * b.
Proof.
  induction p as [|k bs p Hk Hfst IH] using map_first_key_ind; intros Hp.
  { rewrite map_fold_empty. done. }
  rewrite map_fold_insert_first_key by done.
  apply map_Forall_insert in Hp as [Hbs Hp]; [|done]. specialize (IH Hp).
  rewrite len_insert, Hk. lia.
Qed.

(** ** Draining a buffer

    The loop of the session around [read_chunk]: take messages out of the
    buffer until it asks for more data or fails. *)
Fixpoint drain_loop (fuel : nat) (s : t * list byte) : list Chunk * (res ChunkDecodeError unit * (t * list byte)) :=
  match fuel with
  | O => ([], (Fuel, s))
  | S fuel =>
      match read_chunk s with
      | (Ok (Some ch), s') => let '(chs, r) := drain_loop fuel s' in (ch :: chs, r)
      | (Ok None, s') => ([], (Ok tt, s'))
      | (Err e, s') => ([], (Err e, s'))
      | (Panic, s') => ([], (Panic, s'))
      | (Fuel, s') => ([], (Fuel, s'))
      end
  end.

Definition drain (s : t * list byte) := drain_loop (S (length s.2)) s.

(** Receive the segments one after the other, draining after each, until an
    error. *)
Fixpoint feed (s : t * list byte) (segments : list (list byte)) :
    list Chunk * (res ChunkDecodeError unit * (t * list byte)) :=
  match segments with
  | [] => ([], (Ok tt, s))
  | seg :: segments =>
      match drain (s.1, s.2 ++ seg) with
      | (chs, (Ok _, s')) => let '(chs', r) := feed s' segments in (chs ++ chs', r)
      | r => r
      end
  end.

Lemma drain_loop_fuel f1 : forall f2 d buf, wf d -> (length buf < f1)%nat -> (length buf < f2)%nat ->
  drain_loop f1 (d, buf) = drain_loop f2 (d, buf).
Proof.
  induction f1 as [|f1 IH]; intros [|f2] d buf Hd H1 H2; try lia. cbn [drain_loop].
  pose proof (read_chunk_wf d buf Hd) as Hw.
  destruct (read_chunk (d, buf)) as [[[ch|]|e| |] [d' buf']]; try done.
  destruct Hw as (Hd' & _ & bs & -> & Hbs). rewrite length_app in *.
  by rewrite (IH f2 d' buf') by (done || lia).
Qed.

Lemma drain_step d buf : wf d -> drain (d, buf) =
  match read_chunk (d, buf) with
  | (Ok (Some ch), s') => let '(chs, r) := drain s' in (ch :: chs, r)
  | (Ok None, s') => ([], (Ok tt, s'))
  | (Err e, s') => ([], (Err e, s'))
  | (Panic, s') => ([], (Panic, s'))
  | (Fuel, s') => ([], (Fuel, s'))
  end.
Proof.
  intros Hd. unfold drain at 1. cbn [drain_loop]. pose proof (read_chunk_wf d buf Hd) as Hw.
  destruct (read_chunk (d, buf)) as [[[ch|]|e| |] [d' buf']]; try done.
  destruct Hw as (Hd' & _ & bs & -> & Hbs). unfold drain. cbn [snd]. rewrite length_app in *.
  by rewrite (drain_loop_fuel _ (S (length buf')) d' buf') by (done || lia).
Qed.

Lemma drain_ind (P : t -> list byte -> Prop) :
  (forall d buf, wf d ->
    (forall ch d' buf', read_chunk (d, buf) = (Ok (Some ch), (d', buf')) -> wf d' -> P d' buf') -> P d buf) ->
  forall d buf, wf d -> P d buf.
Proof.
  intros HP d buf. remember (length buf) as n eqn:Hn. revert d buf Hn.
  induction (lt_wf n) as [n _ IH]. intros d buf -> Hd. apply HP; [done|].
  intros ch d' buf' Hr Hd'. pose proof (read_chunk_wf d buf Hd) as Hw. rewrite Hr in Hw.
  destruct Hw as (_ & _ & bs & -> & Hbs). eapply IH; [|done|done]. rewrite length_app. lia.
Qed.

Lemma drain_wf d buf : wf d -> wf (drain (d, buf)).2.2.1.
Proof.
  revert d buf. apply drain_ind. intros d buf Hd IH. rewrite drain_step by done.
  pose proof (read_chunk_wf d buf Hd) as Hw.
  destruct (read_chunk (d, buf)) as [[[ch|]|e| |] [d' buf']]; simpl; try by destruct Hw.
  destruct Hw as (Hd' & _). specialize (IH ch d' buf' eq_refl Hd').
  by destruct (drain (d', buf')).
Qed.

Lemma drain_app d buf more : wf d ->
  match drain (d, buf) with
  | (chs, (Ok _, (d', buf'))) =>
      drain (d, buf ++ more) = let '(chs', r) := drain (d', buf' ++ more) in (chs ++ chs', r)
  | (chs, (r, (d', buf'))) => drain (d, buf ++ more) = (chs, (r, (d', buf' ++ more)))
  end.
Proof.
  intros Hd. revert d buf Hd. apply drain_ind. intros d buf Hd IH.
  pose proof (read_chunk_wf d buf Hd) as Hw. pose proof (read_chunk_stable d buf more Hd) as Hs.
  rewrite !(drain_step d) by done.
  destruct (read_chunk (d, buf)) as [[[ch|]|e| |] [d' buf']]; try (by rewrite Hs).
  - destruct Hw as (Hd' & _). specialize (IH ch d' buf' eq_refl Hd'). rewrite Hs.
    destruct (drain (d', buf')) as [chs [[[]|e| |] [d2 buf2]]]; rewrite IH; try done.
    by destruct (drain (d2, buf2 ++ more)).
  - destruct Hw as [Hd' _]. rewrite drain_step by done. rewrite Hs.
    by destruct (read_chunk (d', buf' ++ more)) as [[[ch|]|e| |] [d2 buf2]]; [destruct (drain (d2, buf2))|..].
Qed.

Lemma feed_cons s seg segments : feed s (seg :: segments) =
  match drain (s.1, s.2 ++ seg) with
  | (chs, (Ok _, s')) => let '(chs', r) := feed s' segments in (chs ++ chs', r)
  | r => r
  end.
Proof. done. Qed.

Lemma feed_concat segments : forall d buf seg, wf d ->
  let '(chs, (r, (d', _))) := feed (d, buf) (seg :: segments) in
  let '(chs', (r', (d'', _))) := drain (d, buf ++ seg ++ concat segments) in
  chs = chs' /\ r = r' /\ d' = d''.
Proof.
  induction segments as [|seg2 segments IH]; intros d buf seg Hd;
    rewrite feed_cons; cbn [fst snd concat].
  - rewrite app_nil_r. destruct (drain (d, buf ++ seg)) as [chs [[[]|e| |] [d' buf']]]; try done.
    simpl. by rewrite app_nil_r.
  - rewrite (assoc_L (++)). pose proof (drain_app d (buf ++ seg) (seg2 ++ concat segments) Hd) as Hda.
    pose proof (drain_wf d (buf ++ seg) Hd) as Hd'.
    destruct (drain (d, buf ++ seg)) as [chs [[[]|e| |] [d' buf']]]; rewrite Hda; try done.
    specialize (IH d' buf' seg2 Hd').
    destruct (drain (d', buf' ++ seg2 ++ concat segments)) as [chs2 [r2 [d2 buf2]]].
    destruct (feed (d', buf') (seg2 :: segments)) as [chs3 [r3 [d3 buf3]]].
    by destruct IH as (-> & -> & ->).
Qed.

End decoder.
End ChunkDecoderLemmas.

(** ** Properties *)

Module ChunkDecoderProps.
Import ChunkDecoder ChunkDecoderLemmas.

Section props.
Context `{BO : ByteOrder}.

(** C33. [read_chunk] stops on every input: from a decoder within its bounds,
    whatever the buffer holds, it returns (no loop of partial chunks is
    endless), keeps the decoder within its bounds also after an error, only
    removes bytes from the front of the buffer, and a message it delivers has
    exactly the announced length, at most 10 MB, on a chunk stream id in
    2..65599; when it asks for more data, asking again changes nothing. *)
Theorem read_chunk_total (d : t) (buf : list byte) (Hd : wf d) :
  match read_chunk (d, buf) with
  | (Ok (Some ch), (d', buf')) =>
      wf d' /\ chunk_ok ch /\ exists bs, buf = bs ++ buf' /\ bs <> []
  | (Ok None, (d', buf')) =>
      wf d' /\ (exists bs, buf = bs ++ buf') /\ read_chunk (d', buf') = (Ok None, (d', buf'))
  | (Fuel, _) => False
  | (_, (d', buf')) => wf d' /\ exists bs, buf = bs ++ buf'
  end.
Proof.
  pose proof (read_chunk_wf d buf Hd) as Hw. pose proof (read_chunk_stable d buf [] Hd) as Hs.
  rewrite !app_nil_r in Hs.
  destruct (read_chunk (d, buf)) as [[[ch|]|e| |] [d' buf']] eqn:Hr; try done.
  - destruct Hw as (? & ? & bs & -> & Hbs). split; [done|]. split; [done|]. exists bs.
    split; [done|]. by destruct bs; [simpl in Hbs; lia|].
  - destruct Hw as [? ?]. rewrite app_nil_r in Hs. done.
Qed.

(** C11. The memory bounds hold in every reachable state: whatever bytes
    arrive in whatever order, and however often the peer changes the chunk
    size, a decoder keeps at most 100 headers and at most 4 unfinished
    messages of at most 10 MB each, 40 MB in all, and its chunk size stays in
    128..=65536. *)
Theorem decoder_memory_bounded (d : t) (buf : list byte)
    (Hreach : rtc decoder_step (default, []) (d, buf)) :
  len (previous_chunk_headers d) <= 100 /\ len (partial_chunks d) <= 4 /\
  (forall key bs, partial_chunks d !! key = Some bs -> blen bs <= 10 * 1024 * 1024) /\
  held d <= 40 * 1024 * 1024 /\ 128 <= max_chunk_size d <= 65536.
Proof.
  assert (wf d) as Hd.
  { change d with (d, buf).1. revert Hreach. generalize (d, buf). intros s Hreach.
    refine (rtc_ind_r (R := decoder_step) (fun s => wf s.1) (default, []) wf_default _ s Hreach).
    intros s1 s2 _ Hstep Hs1. by eapply decoder_step_wf. }
  split; [by apply wf_headers_len|]. split; [by apply wf_partials_len|].
  split; [intros key bs Hk; by apply (wf_partials d Hd) in Hk|].
  split; [|apply Hd]. unfold held.
  etransitivity; [apply held_bound, (wf_partials d Hd)|]. pose proof (wf_partials_len d Hd).
  unfold MAX_PARTIAL_CHUNK_COUNT, MAX_PARTIAL_CHUNK_SIZE in *. lia.
Qed.

(** C6. The result does not depend on how the bytes arrive: receiving any
    list of segments and draining the buffer after each delivers the same
    messages, ends with the same result (also the same error) and in the
    same decoder as draining all the bytes at once. *)
Theorem read_chunk_incremental (d : t) (segments : list (list byte)) (Hd : wf d)
    (Hseg : segments <> []) :
  let '(chs, (r, (d', _))) := feed (d, []) segments in
  let '(chs', (r', (d'', _))) := drain (d, concat segments) in
  chs = chs' /\ r = r' /\ d' = d''.
Proof. destruct segments as [|seg segments]; [done|]. by apply (feed_concat segments d [] seg). Qed.
End props.

(** A [SetChunkSize] message in the default state. *)
Definition sample : list byte :=
  [x02; x00; x00; x00; x00; x00; x04; x01; x00; x00; x00; x00; x00; x00; x10; x00].

Lemma read_chunk_total_witness :
  wf default /\
  match read_chunk (default, sample ++ [xc2]) with
  | (Ok (Some ch), (_, buf')) => chunk_ok ch /\ payload ch = [x00; x00; x10; x00] /\ buf' = [xc2]
  | _ => False
  end.
Proof.
  split; [exact wf_default|].
  pose proof (read_chunk_total default (sample ++ [xc2]) wf_default) as H.
  destruct (read_chunk (default, sample ++ [xc2])) as [r s] eqn:E. vm_compute in E.
  injection E as <- <-. destruct H as (_ & H & _). split; [exact H|]. split; reflexivity.
Defined.

Lemma decoder_memory_bounded_witness :
  exists d, rtc decoder_step (default, []) (d, sample) /\ max_chunk_size d = 4096 /\
    len (previous_chunk_headers d) <= 100.
Proof.
  exists (update_max_chunk_size 4096 default).2.
  assert (rtc decoder_step (default, []) ((update_max_chunk_size 4096 default).2, sample)) as Hr.
  { eapply rtc_l; [apply (step_receive default [] sample)|].
    eapply rtc_l; [apply (step_update default sample 4096)|]. apply rtc_refl. }
  split; [exact Hr|]. split; [reflexivity|].
  exact (proj1 (decoder_memory_bounded _ _ Hr)).
Defined.

Lemma read_chunk_incremental_witness :
  (feed (default, []) [take 5 sample; drop 5 sample]).1 = (drain (default, sample)).1.
Proof.
  pose proof (read_chunk_incremental default [take 5 sample; drop 5 sample] wf_default
    ltac:(discriminate)) as H.
  change (concat [take 5 sample; drop 5 sample]) with sample in H.
  destruct (feed _ _) as [chs [r [d' b]]]. destruct (drain _) as [chs' [r' [d'' b']]].
  exact (proj1 H).
Defined.

End ChunkDecoderProps.
