(* ===== verification/RtmpChunkRoundTrip.v ===== *)
(** * Chunk streams: what the encoder writes the decoder reads

    The bytes the encoder produces, and the decoder on them, over any split of
    the bytes into network segments. *)

From stdpp Require Import base list numbers gmap fin_maps fin_map_dom.
From Stdlib Require Import Strings.Byte.
From S2P Require Import Prelude Io RtmpChunk RtmpChunkDecode.

Module ChunkBytes.
Import ChunkDecoder ChunkDecoderLemmas.

(** ** The bytes of a chunk *)

Definition basic_bytes (fmt : ChunkType.t) (csid : Z) : list byte :=
  if 64 + 255 <=? csid then
    be_bytes 1 (ChunkType.discr fmt * 64 + 1) ++ be_bytes 1 ((csid - 64) `mod` 256)
      ++ be_bytes 1 ((csid - 64) / 256)
  else if 64 <=? csid then be_bytes 1 (ChunkType.discr fmt * 64) ++ be_bytes 1 (csid - 64)
  else be_bytes 1 (ChunkType.discr fmt * 64 + csid).

Definition ext_bytes (mh : ChunkMessageHeader) : list byte :=
  if is_extended_timestamp mh then be_bytes 4 (timestamp mh) else [].

Definition header_bytes (mh : ChunkMessageHeader) : list byte :=
  be_bytes 3 (Z.min (timestamp mh) 0xFFFFFF) ++ be_bytes 3 (msg_length mh)
    ++ be_bytes 1 (MessageTypeID.discr (msg_type_id mh)) ++ le_bytes 4 (msg_stream_id mh) ++ ext_bytes mh.

(** The pieces after the first, each with its header. *)
Fixpoint rest_bytes (size : Z) (csid : Z) (mh : ChunkMessageHeader) (fuel : nat) (pl : list byte) : list byte :=
  match fuel, pl with
  | S fuel, _ :: _ =>
      basic_bytes ChunkType.Type3 csid ++ ext_bytes mh ++ take (Z.to_nat size) pl
        ++ rest_bytes size csid mh fuel (drop (Z.to_nat size) pl)
  | _, _ => []
  end.

Definition chunk_bytes (size : Z) (ch : Chunk) : list byte :=
  let csid := chunk_stream_id (basic_header ch) in
  basic_bytes ChunkType.Type0 csid ++ header_bytes (message_header ch)
    ++ take (Z.to_nat size) (payload ch)
    ++ rest_bytes size csid (message_header ch) (length (payload ch)) (drop (Z.to_nat size) (payload ch)).

(** What can be sent: the fields have the widths of the format and the
    length is that of the payload. *)
Record sendable (ch : Chunk) : Prop := {
  send_csid : 2 <= chunk_stream_id (basic_header ch) < 2 ^ 16 + 64;
  send_timestamp : fits 32 (timestamp (message_header ch));
  send_stream : fits 32 (msg_stream_id (message_header ch));
  send_length : msg_length (message_header ch) = blen (payload ch);
  send_max : blen (payload ch) <= MAX_PARTIAL_CHUNK_SIZE;
}.

Section encoder.
Context `{BO : ByteOrder}.

Lemma put_be_ok n z w : 0 <= z < 256 ^ Z.of_nat n ->
  ChunkEncoder.put_be (W := list byte) n z w = (Ok tt, w ++ be_bytes n z).
Proof. intros. unfold ChunkEncoder.put_be. apply map_err_ok. by apply write_uint_be. Qed.

Lemma put_le_ok n z w : 0 <= z < 256 ^ Z.of_nat n ->
  ChunkEncoder.put_le (W := list byte) n z w = (Ok tt, w ++ le_bytes n z).
Proof. intros. unfold ChunkEncoder.put_le. apply map_err_ok. by apply write_uint_le. Qed.

Lemma fmt_shift fmt : wrap 8 (Z.shiftl (ChunkType.discr fmt) 6) = ChunkType.discr fmt * 64.
Proof. by destruct fmt. Qed.

Lemma discr_fmt fmt : 0 <= ChunkType.discr fmt < 4.
Proof. by destruct fmt. Qed.

Lemma lor_fmt fmt c : 0 <= c < 64 ->
  Z.lor (ChunkType.discr fmt * 64) c = ChunkType.discr fmt * 64 + c.
Proof.
  intros Hc. assert (Z.land (ChunkType.discr fmt * 64) c = 0) as Hl.
  { change 64 with (2 ^ 6). rewrite <-Z.shiftl_mul_pow2 by lia. apply Z.bits_inj'. intros i Hi.
    rewrite Z.land_spec, Z.bits_0, Z.shiftl_spec by lia.
    destruct (decide (i < 6)) as [|Hi6]; [by rewrite Z.testbit_neg_r by lia|].
    rewrite <-(Z.mod_small c (2 ^ 6)), Z.mod_pow2_bits_high, andb_false_r by lia. done. }
  pose proof (Z.add_lor_land (ChunkType.discr fmt * 64) c). lia.
Qed.

Lemma write_basic_header_ok fmt csid w : 2 <= csid < 2 ^ 16 + 64 ->
  ChunkEncoder.write_basic_header fmt csid w = (Ok tt, w ++ basic_bytes fmt csid).
Proof.
  intros Hc. pose proof (discr_fmt fmt) as Hf. assert (256 ^ Z.of_nat 1 = 256) as H256 by done.
  unfold ChunkEncoder.write_basic_header, basic_bytes. rewrite fmt_shift. unfold wrap. cbv zeta.
  destruct (Z.leb_spec (64 + 255) csid).
  - rewrite lor_fmt by lia. mstep put_be_ok; [|lia].
    pose proof (Z.mod_pos_bound (csid - 64) 256 ltac:(lia)).
    assert (0 <= (csid - 64) / 256 < 256)
      by (split; [apply Z.div_pos; lia|apply Z.div_lt_upper_bound; lia]).
    rewrite (Z.mod_small ((csid - 64) `mod` 256) (2 ^ 8)), (Z.mod_small ((csid - 64) / 256) (2 ^ 8)) by lia.
    mstep put_be_ok; [|lia]. rewrite put_be_ok by lia. by rewrite <-!(assoc_L (++)).
  - destruct (Z.leb_spec 64 csid).
    + mstep put_be_ok; [|lia]. rewrite Z.mod_small by lia. rewrite put_be_ok by lia.
      by rewrite <-!(assoc_L (++)).
    + rewrite Z.mod_small, lor_fmt by lia. by rewrite put_be_ok by lia.
Qed.

Lemma write_ext_ok mh w : fits 32 (timestamp mh) ->
  (if is_extended_timestamp mh then ChunkEncoder.write_extened_timestamp (W := list byte) (timestamp mh)
   else ret tt) w = (Ok tt, w ++ ext_bytes mh).
Proof.
  intros Ht. unfold ext_bytes. destruct (is_extended_timestamp mh); [|by rewrite app_nil_r].
  by apply put_be_ok.
Qed.

Lemma write_message_header_ok mh w : header_ok mh ->
  ChunkEncoder.write_message_header mh w = (Ok tt, w ++ header_bytes mh).
Proof.
  intros (Ht & Hl & Hs). unfold ChunkEncoder.write_message_header, header_bytes, fits in *. cbv zeta.
  unfold MAX_PARTIAL_CHUNK_SIZE in *. pose proof (MessageTypeID.discr_range (msg_type_id mh)).
  assert ((if 0xFFFFFF <=? timestamp mh then 0xFFFFFF else timestamp mh) = Z.min (timestamp mh) 0xFFFFFF)
    as -> by (destruct (Z.leb_spec 0xFFFFFF (timestamp mh)); lia).
  mstep put_be_ok; [|change (256 ^ Z.of_nat 3) with (2 ^ 24); lia].
  mstep put_be_ok; [|change (256 ^ Z.of_nat 3) with (2 ^ 24); lia].
  mstep put_be_ok; [|done]. mstep put_le_ok; [|done].
  rewrite write_ext_ok by done. by rewrite <-!(assoc_L (++)).
Qed.

Lemma write_payload_ok size csid mh fuel : forall pl w, 1 <= size -> 2 <= csid < 2 ^ 16 + 64 ->
  fits 32 (timestamp mh) -> (length pl < fuel)%nat -> forall fuel', (length pl <= fuel')%nat ->
  ChunkEncoder.write_payload (ChunkEncoder.mk size) csid mh fuel pl w
    = (Ok tt, w ++ take (Z.to_nat size) pl ++ rest_bytes size csid mh fuel' (drop (Z.to_nat size) pl)).
Proof.
  induction fuel as [|fuel IH]; intros pl w Hs Hc Ht Hl fuel' Hl'; [lia|].
  cbn [ChunkEncoder.write_payload]. destruct pl as [|b pl].
  { rewrite take_nil, drop_nil. destruct fuel'; by rewrite app_nil_r. }
  set (bs := b :: pl) in *. assert (length bs = S (length pl)) as Hbs by done.
  cbn [ChunkEncoder.chunk_size]. cbv zeta.
  assert (take (Z.to_nat (if size <? blen bs then size else blen bs)) bs = take (Z.to_nat size) bs /\
          drop (Z.to_nat (if size <? blen bs then size else blen bs)) bs = drop (Z.to_nat size) bs) as [-> ->].
  { destruct (Z.ltb_spec size (blen bs)); [done|]. unfold blen in *. rewrite Nat2Z.id.
    by rewrite !take_ge, !drop_ge by lia. }
  destruct fuel' as [|fuel']; [simpl in Hl'; lia|].
  assert (length (drop (Z.to_nat size) bs) <= length pl)%nat as Hd by (rewrite length_drop; simpl; lia).
  mstep (map_err_ok EncodeIO (vec_write_all (take (Z.to_nat size) bs)) w tt); [|done].
  destruct (drop (Z.to_nat size) bs) as [|b' pl'] eqn:Hdrop.
  - mret. rewrite (IH [] _ Hs Hc Ht ltac:(cbn [length]; lia) 0%nat) by done. rewrite take_nil, drop_nil. simpl.
    by rewrite !app_nil_r.
  - erewrite bind_ok; cycle 1.
    { mstep write_basic_header_ok; [|done]. by apply write_ext_ok. }
    rewrite (IH (b' :: pl') _ Hs Hc Ht ltac:(lia) fuel' ltac:(lia)).
    cbn [rest_bytes]. by rewrite <-!(assoc_L (++)).
Qed.

Lemma write_chunk_ok size ch w : 1 <= size -> sendable ch ->
  ChunkEncoder.write_chunk (ChunkEncoder.mk size) ch w = (Ok tt, w ++ chunk_bytes size ch).
Proof.
  intros Hs [Hc Ht Hsid Hl Hm]. unfold ChunkEncoder.write_chunk, chunk_bytes.
  mstep write_basic_header_ok; [|done].
  mstep write_message_header_ok; [|pose proof (blen_nonneg (payload ch)); unfold header_ok; rewrite Hl; done].
  rewrite (write_payload_ok size _ _ _ (payload ch)) with (fuel' := length (payload ch)) by (done || lia).
  by rewrite <-!(assoc_L (++)).
Qed.

End encoder.
(** ** The decoder on these bytes *)

Section decoder.
Context `{BO : ByteOrder}.

Lemma need_be pre z post n : 0 <= z < 256 ^ Z.of_nat n ->
  need BigEndian n (at_pos pre (be_bytes n z ++ post)) = (Ok z, at_pos (pre ++ be_bytes n z) post).
Proof. intros. unfold need. apply map_err_ok. by apply read_uint_be_bytes. Qed.

Lemma need_le pre z post n : 0 <= z < 256 ^ Z.of_nat n ->
  need LittleEndian n (at_pos pre (le_bytes n z ++ post)) = (Ok z, at_pos (pre ++ le_bytes n z) post).
Proof. intros. unfold need. apply map_err_ok. by apply read_uint_le_bytes. Qed.

Lemma fmt_of_byte k c : 0 <= k < 4 -> 0 <= c < 64 -> Z.land (Z.shiftr (k * 64 + c) 6) 3 = k.
Proof.
  intros Hk Hc. rewrite Z.shiftr_div_pow2 by lia. change 3 with (Z.ones 2). rewrite Z.land_ones by lia.
  change (2 ^ 6) with 64. rewrite Z.div_add_l, (Z.div_small c) by lia. rewrite Z.mod_small; lia.
Qed.

Lemma csid_of_byte k c : 0 <= c < 64 -> Z.land (k * 64 + c) 63 = c.
Proof.
  intros Hc. change 63 with (Z.ones 6). rewrite Z.land_ones by lia. change (2 ^ 6) with 64.
  rewrite Z.add_comm, Z.mod_add by lia. by apply Z.mod_small.
Qed.

Lemma read_header_at fmt csid pre post : 2 <= csid < 2 ^ 16 + 64 ->
  read_header (at_pos pre (basic_bytes fmt csid ++ post))
    = (Ok (mkBasic fmt csid), at_pos (pre ++ basic_bytes fmt csid) post).
Proof.
  intros Hc. pose proof (discr_fmt fmt) as Hf. assert (256 ^ Z.of_nat 1 = 256) as H256 by done.
  assert (forall c, 0 <= c < 64 ->
    ok_or (ChunkType.from_u8 (Z.land (Z.shiftr (ChunkType.discr fmt * 64 + c) 6) 3))
      (Some (InvalidChunkType (Z.land (Z.shiftr (ChunkType.discr fmt * 64 + c) 6) 3)))
    = ret (S := Cursor) (E := option ChunkDecodeError) fmt) as Hfmt.
  { intros c Hc'. by rewrite fmt_of_byte, ChunkType.chunk_type_from_discr by lia. }
  unfold read_header, basic_bytes. destruct (Z.leb_spec (64 + 255) csid).
  - rewrite <-!(assoc_L (++)). mstep need_be; [|lia]. rewrite Hfmt by lia. mret.
    rewrite csid_of_byte by lia. pose proof (Z.mod_pos_bound (csid - 64) 256 ltac:(lia)).
    erewrite bind_ok; cycle 1.
    { mstep need_be; [|lia]. mstep need_be; [reflexivity|].
      rewrite H256. split; [apply Z.div_pos; lia|apply Z.div_lt_upper_bound; lia]. }
    unfold ret. rewrite <-!(assoc_L (++)). do 3 f_equal. pose proof (Z.div_mod (csid - 64) 256). lia.
  - destruct (Z.leb_spec 64 csid).
    + rewrite <-!(assoc_L (++)). rewrite <-(Z.add_0_r (ChunkType.discr fmt * 64)).
      mstep need_be; [|lia]. rewrite Hfmt by lia. mret. rewrite csid_of_byte by lia.
      erewrite bind_ok; cycle 1.
      { mstep need_be; [reflexivity|lia]. }
      unfold ret. rewrite <-!(assoc_L (++)). do 3 f_equal. lia.
    + mstep need_be; [|lia]. rewrite Hfmt by lia. mret. rewrite csid_of_byte by lia.
      destruct csid as [|[]|]; try lia; done.
Qed.

(** The header as the decoder keeps it. *)
Definition received (mh : ChunkMessageHeader) : ChunkMessageHeader :=
  mkHeader (timestamp mh) (msg_length mh) (msg_type_id mh) (msg_stream_id mh) (is_extended_timestamp mh).

Lemma read_message_header0_at d csid mh pre post : header_ok mh ->
  read_message_header d (mkBasic ChunkType.Type0 csid) (at_pos pre (header_bytes mh ++ post))
    = (Ok (received mh), at_pos (pre ++ header_bytes mh) post).
Proof.
  intros (Ht & Hl & Hs). unfold read_message_header, header_bytes, fits in *. cbn [format].
  unfold MAX_PARTIAL_CHUNK_SIZE in *. rewrite <-!(assoc_L (++)).
  mstep need_be; [|change (256 ^ Z.of_nat 3) with (2 ^ 24); lia].
  mstep need_be; [|change (256 ^ Z.of_nat 3) with (2 ^ 24); lia].
  unfold check_msg_length. rewrite (proj2 (Z.ltb_ge _ _)) by (unfold MAX_PARTIAL_CHUNK_SIZE; lia). mret.
  unfold read_msg_type_id. erewrite (bind_ok _ _ (at_pos _ _)); cycle 1.
  { mstep need_be; [|apply MessageTypeID.discr_range]. by rewrite MessageTypeID.message_type_from_discr. }
  mstep need_le; [|done]. unfold read_extended, ext_bytes, received, is_extended_timestamp.
  destruct (Z.leb_spec 0xFFFFFF (timestamp mh)).
  - rewrite Z.min_r by lia. erewrite bind_ok; cycle 1.
    { cbn [Z.eqb Pos.eqb]. by mstep need_be. }
    unfold ret. by rewrite <-!(assoc_L (++)).
  - rewrite Z.min_l by lia. rewrite (proj2 (Z.eqb_neq _ _)) by lia. mret. unfold ret.
    by rewrite <-!(assoc_L (++)).
Qed.

Lemma read_message_header3_at d csid mh pre post : fits 32 (timestamp mh) ->
  previous_chunk_headers d !! csid = Some (received mh) ->
  read_message_header d (mkBasic ChunkType.Type3 csid) (at_pos pre (ext_bytes mh ++ post))
    = (Ok (received mh), at_pos (pre ++ ext_bytes mh) post).
Proof.
  intros Ht Hprev. unfold read_message_header, previous_header. cbn [format chunk_stream_id]. rewrite Hprev.
  mret. cbn [received was_extended_timestamp]. unfold ext_bytes.
  destruct (is_extended_timestamp mh).
  - erewrite bind_ok; [reflexivity|]. by mstep need_be.
  - mret. unfold ret. by rewrite app_nil_r.
Qed.

(** ** One piece *)

Definition turn_of (r : res ChunkDecodeError (option Chunk)) : res ChunkDecodeError (option (option Chunk)) :=
  match r with
  | Ok (Some ch) => Ok (Some (Some ch)) | Ok None => Ok None
  | Err e => Err e | Panic => Panic | Fuel => Fuel
  end.

Lemma read_turn_piece d h mh hb mb pc rest : wf d -> header_ok mh ->
  (forall post, read_header (at_pos [] (hb ++ post)) = (Ok h, at_pos hb post)) ->
  (forall post, read_message_header d h (at_pos hb (mb ++ post)) = (Ok mh, at_pos (hb ++ mb) post)) ->
  piece_size d h mh = blen pc -> blen (hb ++ mb) < 2 ^ 32 ->
  read_turn (d, hb ++ mb ++ pc ++ rest)
    = (turn_of (store_piece h mh pc d).1, ((store_piece h mh pc d).2, rest)).
Proof.
  intros Hd Hmh Hh Hm Hsz Hsmall. pose proof (blen_nonneg pc) as Hnn. pose proof (blen_nonneg (hb ++ mb)).
  assert (blen pc <= 2 ^ 16) as Hpc.
  { destruct Hd as [[_ Hmax] _ _ _ _]. unfold piece_size, MAX_CHUNK_SIZE in *. lia. }
  assert (read_piece d (cursor_new (hb ++ mb ++ pc ++ rest))
    = (Ok (h, mh, (blen (hb ++ mb), blen (hb ++ mb) + blen pc)), at_pos ((hb ++ mb) ++ pc) rest)) as Hp.
  { unfold read_piece. change (cursor_new ?bs) with (at_pos [] bs).
    mstep Hh. mstep Hm. erewrite bind_ok; [reflexivity|].
    rewrite <-Hsz. unfold get_payload_range, piece_size in *. cbv zeta.
    destruct Hmh as (_ & Hl & _). unfold MAX_PARTIAL_CHUNK_SIZE in *.
    pose proof (partial_len_nonneg d (chunk_stream_id h, msg_stream_id mh)).
    mstep (checked_u_ok (S := Cursor) (E := option ChunkDecodeError)); [|unfold fits; lia].
    mret. assert (Z.of_N (pos (at_pos (hb ++ mb) (pc ++ rest))) = blen (hb ++ mb)) as ->
      by (simpl; unfold blen; lia).
    rewrite Hsz. assert (swrap 64 (blen pc) = blen pc) as ->.
    { unfold swrap. rewrite Z.mod_small by lia. by rewrite (proj2 (Z.ltb_lt _ _)) by lia. }
    erewrite bind_ok; [reflexivity|]. apply map_err_ok. apply seek_current_at; [done|].
    rewrite blen_app. unfold fits. lia. }
  unfold read_turn. rewrite Hp. set (pre := (hb ++ mb) ++ pc).
  assert (hb ++ mb ++ pc ++ rest = pre ++ rest) as -> by (unfold pre; by rewrite <-!(assoc_L (++))).
  assert (Z.of_N (pos (at_pos pre rest)) = blen pre) as -> by (simpl; unfold blen; lia).
  pose proof (blen_nonneg rest).
  rewrite (proj2 (Z.ltb_ge _ _)) by (rewrite blen_app; lia).
  assert (Z.to_nat (blen pre) = length pre) as -> by (unfold blen; lia).
  rewrite take_app_length, drop_app_length.
  assert (slice (blen (hb ++ mb)) (blen (hb ++ mb) + blen pc) pre = Some pc) as ->.
  { unfold pre. pose proof (slice_app (hb ++ mb) pc [] _ _ eq_refl eq_refl) as Hsl.
    by rewrite app_nil_r in Hsl. }
  by destruct (store_piece h mh pc d) as [[[ch|]|e| |] d'].
Qed.

(** ** Storing pieces of a message that is well sent *)

(** Room for the header of [csid]. *)
Definition header_room (d : t) (csid : Z) : Prop :=
  match previous_chunk_headers d !! csid with
  | Some _ => len (previous_chunk_headers d) | None => len (previous_chunk_headers d) + 1
  end <= MAX_PREVIOUS_CHUNK_HEADERS.

Definition with_header (csid : Z) (mh : ChunkMessageHeader) (d : t) : t :=
  set_headers (<[csid := mh]> (previous_chunk_headers d)) d.

Definition with_partial (key : Z * Z) (bs : list byte) (d : t) : t :=
  set_partials (<[key := bs]> (partial_chunks d)) d.

Lemma store_full h mh pc d : header_room d (chunk_stream_id h) -> blen pc = msg_length mh ->
  store_piece h mh pc d = (Ok (Some (mkChunk h mh pc)), with_header (chunk_stream_id h) mh d).
Proof.
  intros Hroom Hl. unfold store_piece. mret. rewrite (proj2 (Z.ltb_ge _ _)) by exact Hroom. mret.
  by rewrite Hl, Z.eqb_refl.
Qed.

Lemma store_first h mh pc d : header_room d (chunk_stream_id h) -> header_ok mh ->
  blen pc < msg_length mh ->
  partial_chunks d !! (chunk_stream_id h, msg_stream_id mh) = None ->
  len (partial_chunks d) < MAX_PARTIAL_CHUNK_COUNT ->
  store_piece h mh pc d = (Ok None,
    with_partial (chunk_stream_id h, msg_stream_id mh) pc (with_header (chunk_stream_id h) mh d)).
Proof.
  intros Hroom (_ & Hm & _) Hl Hkey Hcount. unfold store_piece. mret.
  rewrite (proj2 (Z.ltb_ge _ _)) by exact Hroom. mret.
  rewrite (proj2 (Z.eqb_neq _ _)) by lia. rewrite Hkey, (proj2 (Z.leb_gt _ _)) by done. mret.
  rewrite blen_nil, (proj2 (Z.ltb_ge _ _)) by lia. change ([] ++ pc) with pc.
  by rewrite (proj2 (Z.eqb_neq _ _)) by lia.
Qed.

Lemma store_next h mh pc d acc : header_room d (chunk_stream_id h) -> header_ok mh ->
  partial_chunks d !! (chunk_stream_id h, msg_stream_id mh) = Some acc ->
  blen acc + blen pc < msg_length mh ->
  store_piece h mh pc d = (Ok None,
    with_partial (chunk_stream_id h, msg_stream_id mh) (acc ++ pc) (with_header (chunk_stream_id h) mh d)).
Proof.
  intros Hroom (_ & Hm & _) Hkey Hl. pose proof (blen_nonneg acc). unfold store_piece. mret.
  rewrite (proj2 (Z.ltb_ge _ _)) by exact Hroom. mret.
  rewrite (proj2 (Z.eqb_neq _ _)) by lia. rewrite Hkey. mret.
  rewrite (proj2 (Z.ltb_ge _ _)) by lia. by rewrite blen_app, (proj2 (Z.eqb_neq _ _)) by lia.
Qed.

Lemma store_last h mh pc d acc : header_room d (chunk_stream_id h) -> header_ok mh ->
  partial_chunks d !! (chunk_stream_id h, msg_stream_id mh) = Some acc ->
  0 < blen acc -> blen acc + blen pc = msg_length mh ->
  store_piece h mh pc d = (Ok (Some (mkChunk h mh (acc ++ pc))),
    set_partials (delete (chunk_stream_id h, msg_stream_id mh) (partial_chunks d))
      (with_header (chunk_stream_id h) mh d)).
Proof.
  intros Hroom (_ & Hm & _) Hkey Hacc Hl. unfold store_piece. mret.
  rewrite (proj2 (Z.ltb_ge _ _)) by exact Hroom. mret.
  rewrite (proj2 (Z.eqb_neq _ _)) by lia. rewrite Hkey. mret.
  rewrite (proj2 (Z.ltb_ge _ _)) by lia. by rewrite blen_app, (proj2 (Z.eqb_eq _ _)) by lia.
Qed.

Lemma header_room_same d csid mh : wf d -> previous_chunk_headers d !! csid = Some mh -> header_room d csid.
Proof. intros Hd Hp. unfold header_room. rewrite Hp. by apply wf_headers_len. Qed.

Lemma with_header_same d csid mh : previous_chunk_headers d !! csid = Some mh -> with_header csid mh d = d.
Proof. intros Hp. unfold with_header. rewrite insert_id by done. by destruct d. Qed.

Lemma blen_basic_bytes fmt csid : blen (basic_bytes fmt csid) <= 3.
Proof.
  unfold basic_bytes. destruct (_ <=? _); [|destruct (_ <=? _)]; autorewrite with scuffle; simpl; lia.
Qed.

Lemma blen_ext_bytes mh : blen (ext_bytes mh) <= 4.
Proof. unfold ext_bytes. destruct (is_extended_timestamp mh); autorewrite with scuffle; simpl; lia. Qed.

Lemma blen_header_bytes mh : blen (header_bytes mh) <= 15.
Proof.
  unfold header_bytes. pose proof (blen_ext_bytes mh). autorewrite with scuffle.
  assert (blen (le_bytes 4 (msg_stream_id mh)) = 4) by (unfold blen; by rewrite length_le_bytes). lia.
Qed.

(** The pieces after the first complete the message. *)
Lemma read_rest csid mh fuel : forall pl d acc rest, wf d -> header_ok mh ->
  2 <= csid < 2 ^ 16 + 64 -> (length pl <= fuel)%nat -> (0 < length pl)%nat ->
  previous_chunk_headers d !! csid = Some (received mh) ->
  partial_chunks d !! (csid, msg_stream_id mh) = Some acc ->
  0 < blen acc -> blen acc + blen pl = msg_length mh ->
  read_chunk (d, rest_bytes (max_chunk_size d) csid mh fuel pl ++ rest)
    = (Ok (Some (mkChunk (mkBasic ChunkType.Type3 csid) (received mh) (acc ++ pl))),
       (set_partials (delete (csid, msg_stream_id mh) (partial_chunks d)) d, rest)).
Proof.
  induction fuel as [|fuel IH]; intros pl d acc rest Hd Hmh Hc Hf Hpl Hprev Hpart Hacc Hl; [lia|].
  rewrite read_chunk_turn by done. destruct pl as [|b pl']; [simpl in Hpl; lia|]. cbn [rest_bytes].
  set (pl := b :: pl') in *. set (size := max_chunk_size d).
  pose proof (wf_chunk_size d Hd) as Hsz. unfold INIT_CHUNK_SIZE in Hsz.
  set (h := mkBasic ChunkType.Type3 csid).
  assert (header_room d csid) as Hroom by by eapply header_room_same.
  assert (header_ok (received mh)) as Hmh' by done.
  assert (piece_size d h (received mh) = blen (take (Z.to_nat size) pl)) as Hps.
  { unfold piece_size, partial_len. cbn [h chunk_stream_id received msg_stream_id msg_length].
    rewrite Hpart. unfold blen in *. rewrite length_take. fold size. lia. }
  rewrite <-!(assoc_L (++)). unfold bind.
  rewrite (read_turn_piece d h (received mh)); [|done|done| | |done|].
  2: { intros post. by apply (read_header_at _ _ []). }
  2: { intros post. apply read_message_header3_at; [apply Hmh|done]. }
  2: { rewrite blen_app. pose proof (blen_basic_bytes ChunkType.Type3 csid). pose proof (blen_ext_bytes mh). lia. }
  destruct (decide (length pl <= Z.to_nat size)%nat) as [Hle|Hgt].
  - rewrite take_ge, drop_ge by done.
    rewrite (store_last h (received mh) pl d acc); [|done|done|done|done|done].
    cbn [fst snd turn_of h chunk_stream_id received msg_stream_id]. fold (received mh).
    rewrite with_header_same by done. unfold ret. by destruct fuel.
  - rewrite (store_next h (received mh) _ d acc); [|done|done|done|].
    2: { cbn [received msg_length]. unfold blen in *. rewrite length_take. lia. }
    cbn [fst snd turn_of h chunk_stream_id received msg_stream_id]. fold (received mh).
    rewrite with_header_same by done. set (key := (csid, msg_stream_id mh)) in *.
    set (d' := with_partial key (acc ++ take (Z.to_nat size) pl) d).
    assert (wf d') as Hd'.
    { apply wf_insert_partial; [done| |congruence]. destruct Hmh as (_ & Hm & _).
      rewrite blen_app. unfold blen in *. rewrite length_take. lia. }
    pose proof (IH (drop (Z.to_nat size) pl) d' (acc ++ take (Z.to_nat size) pl) rest Hd' Hmh Hc) as IH'.
    change (max_chunk_size d') with size in IH'. rewrite IH'.
    + unfold d', with_partial, set_partials. simpl. rewrite delete_insert_eq.
      by rewrite <-(assoc_L (++)), take_drop.
    + rewrite length_drop. lia.
    + rewrite length_drop. lia.
    + done.
    + apply lookup_insert_eq.
    + rewrite blen_app. pose proof (blen_nonneg (take (Z.to_nat size) pl)). lia.
    + rewrite <-Hl. rewrite <-(take_drop (Z.to_nat size) pl) at 3. rewrite !blen_app. lia.
Qed.

(** ** Whole messages *)

(** The message as it is delivered: the basic header is that of the last piece. *)
Definition delivered (size : Z) (ch : Chunk) : Chunk :=
  mkChunk
    (mkBasic (if blen (payload ch) <=? size then ChunkType.Type0 else ChunkType.Type3)
       (chunk_stream_id (basic_header ch)))
    (received (message_header ch)) (payload ch).

Definition chunk_key (ch : Chunk) : Z * Z :=
  (chunk_stream_id (basic_header ch), msg_stream_id (message_header ch)).

Lemma sendable_header ch : sendable ch -> header_ok (message_header ch).
Proof.
  intros [Hc Ht Hs Hl Hm]. unfold header_ok. rewrite Hl. pose proof (blen_nonneg (payload ch)). done.
Qed.

Lemma read_sent d ch rest : wf d -> sendable ch -> header_room d (chunk_stream_id (basic_header ch)) ->
  partial_chunks d !! chunk_key ch = None -> len (partial_chunks d) < MAX_PARTIAL_CHUNK_COUNT ->
  read_chunk (d, chunk_bytes (max_chunk_size d) ch ++ rest)
    = (Ok (Some (delivered (max_chunk_size d) ch)),
       (with_header (chunk_stream_id (basic_header ch)) (received (message_header ch)) d, rest)).
Proof.
  intros Hd Hch Hroom Hkey Hcount. pose proof (sendable_header ch Hch) as Hmh.
  destruct Hch as [Hc Ht Hs Hl Hm]. unfold chunk_bytes, delivered, chunk_key in *.
  destruct ch as [[fmt csid] mh pl]. cbn [basic_header message_header payload chunk_stream_id] in *.
  set (size := max_chunk_size d) in *. pose proof (wf_chunk_size d Hd) as Hsz. fold size in Hsz.
  unfold INIT_CHUNK_SIZE in Hsz. set (h := mkBasic ChunkType.Type0 csid).
  assert (header_ok (received mh)) as Hmh' by done.
  assert (piece_size d h (received mh) = blen (take (Z.to_nat size) pl)) as Hps.
  { unfold piece_size, partial_len. cbn [h chunk_stream_id received msg_stream_id msg_length].
    rewrite Hkey, Hl. unfold blen in *. rewrite length_take. fold size. lia. }
  rewrite read_chunk_turn by done. unfold bind. rewrite <-!(assoc_L (++)).
  rewrite (read_turn_piece d h (received mh)); [|done|done| | |done|].
  2: { intros post. by apply (read_header_at _ _ []). }
  2: { intros post. by apply read_message_header0_at. }
  2: { rewrite blen_app. pose proof (blen_basic_bytes ChunkType.Type0 csid).
       pose proof (blen_header_bytes mh). lia. }
  destruct (Z.leb_spec (blen pl) size) as [Hle|Hgt]; unfold blen in Hle || unfold blen in Hgt.
  - rewrite take_ge, drop_ge by lia. rewrite store_full by done. unfold ret. simpl. by destruct (length pl).
  - rewrite (store_first h (received mh)); [|done|done| |done|done].
    2: { cbn [received msg_length]. rewrite Hl. unfold blen. rewrite length_take. lia. }
    cbn [fst snd turn_of h chunk_stream_id received msg_stream_id]. fold (received mh).
    set (key := (csid, msg_stream_id mh)) in *.
    set (d' := with_partial key (take (Z.to_nat size) pl) (with_header csid (received mh) d)).
    assert (wf d') as Hd'.
    { apply wf_insert_partial; [by apply wf_set_headers| |done].
      unfold blen in *. rewrite length_take. lia. }
    pose proof (read_rest csid mh (length pl) (drop (Z.to_nat size) pl) d'
      (take (Z.to_nat size) pl) rest Hd' Hmh Hc) as Hrest.
    change (max_chunk_size d') with size in Hrest. rewrite Hrest.
    + rewrite take_drop. do 3 f_equal. unfold d', with_partial, set_partials. simpl.
      fold key. rewrite delete_insert_eq, delete_id by done. done.
    + rewrite length_drop. lia.
    + rewrite length_drop. lia.
    + apply lookup_insert_eq.
    + apply lookup_insert_eq.
    + unfold blen. rewrite length_take. lia.
    + rewrite Hl. rewrite <-(take_drop (Z.to_nat size) pl) at 3. rewrite blen_app. lia.
Qed.

(** A sequence of messages. *)
Fixpoint write_chunks (e : ChunkEncoder.t) (chs : list Chunk) : M (list byte) ChunkEncodeError unit :=
  match chs with
  | [] => ret tt
  | ch :: chs => ChunkEncoder.write_chunk e ch ;;; write_chunks e chs
  end.

Lemma write_chunks_ok size chs : forall w, 1 <= size -> Forall sendable chs ->
  write_chunks (ChunkEncoder.mk size) chs w = (Ok tt, w ++ (chs ≫= chunk_bytes size)).
Proof.
  induction chs as [|ch chs IH]; intros w Hs Hchs; cbn [write_chunks]; [by rewrite app_nil_r|].
  apply Forall_cons_1 in Hchs as [Hch Hchs]. mstep write_chunk_ok; [|done|done].
  rewrite IH by done. cbn [mbind list_bind]. by rewrite <-(assoc_L (++)).
Qed.

(** The chunk stream ids the decoder has seen or will see. *)
Definition streams (d : t) (chs : list Chunk) : gset Z :=
  dom (previous_chunk_headers d) ∪ list_to_set (map (fun ch => chunk_stream_id (basic_header ch)) chs).

Definition after (chs : list Chunk) (d : t) : t :=
  foldl (fun d ch => with_header (chunk_stream_id (basic_header ch)) (received (message_header ch)) d) d chs.

Lemma streams_room d ch chs : wf d -> Z.of_nat (size (streams d (ch :: chs))) <= MAX_PREVIOUS_CHUNK_HEADERS ->
  header_room d (chunk_stream_id (basic_header ch)).
Proof.
  intros Hd Hs. unfold header_room. set (csid := chunk_stream_id (basic_header ch)) in *.
  destruct (_ !! csid) eqn:Hk; [by apply wf_headers_len|].
  assert (csid ∉ dom (previous_chunk_headers d)) as Hnot by by apply not_elem_of_dom.
  assert (size ({[csid]} ∪ dom (previous_chunk_headers d)) <= size (streams d (ch :: chs)))%nat as Hle.
  { apply subseteq_size. unfold streams. simpl. fold csid. set_solver. }
  rewrite size_union, size_singleton, size_dom in Hle by set_solver. unfold len. lia.
Qed.

Lemma streams_step d ch chs :
  streams (with_header (chunk_stream_id (basic_header ch)) (received (message_header ch)) d) chs
    = streams d (ch :: chs).
Proof. unfold streams. simpl. rewrite dom_insert_L. set_solver. Qed.

Lemma drain_nil d : wf d -> drain (d, []) = ([], (Ok tt, (d, []))).
Proof. intros Hd. rewrite drain_step, read_chunk_turn by done. reflexivity. Qed.

Lemma drain_sent chs : forall d, wf d -> Forall sendable chs -> partial_chunks d = ∅ ->
  Z.of_nat (size (streams d chs)) <= MAX_PREVIOUS_CHUNK_HEADERS ->
  drain (d, chs ≫= chunk_bytes (max_chunk_size d))
    = (map (delivered (max_chunk_size d)) chs, (Ok tt, (after chs d, []))).
Proof.
  induction chs as [|ch chs IH]; intros d Hd Hchs Hp Hs; [by apply drain_nil|].
  apply Forall_cons_1 in Hchs as [Hch Hchs]. pose proof (streams_room d ch chs Hd Hs) as Hroom.
  cbn [mbind list_bind]. rewrite drain_step by done.
  rewrite read_sent; [|done|done|done|by rewrite Hp|by rewrite Hp].
  set (d' := with_header _ _ d). cbn [map]. change (max_chunk_size d) with (max_chunk_size d').
  rewrite IH; [done| |done|done|].
  - apply wf_set_headers; [done|by apply sendable_header|done].
  - unfold d'. by rewrite streams_step.
Qed.

End decoder.
End ChunkBytes.

(** ** Properties *)

Module ChunkProps.
Import ChunkDecoder ChunkDecoderLemmas ChunkBytes.

Section props.
Context `{BO : ByteOrder}.

(** C3. Chunk stream round trip: any sequence of messages with fields of the
    format's widths (any payload up to 10 MB, empty ones included, timestamps
    beyond 24 bits, chunk stream ids in all three encodings) is written
    without error by an encoder with the decoder's chunk size, and the decoder
    delivers exactly these messages, in order, for every way the bytes are
    split into segments, provided it knows at most 100 chunk streams. *)
Theorem chunk_stream_roundtrip (d : t) (chs : list Chunk) (Hd : wf d) (Hp : partial_chunks d = ∅)
    (Hchs : Forall sendable chs)
    (Hs : Z.of_nat (size (streams d chs)) <= MAX_PREVIOUS_CHUNK_HEADERS) :
  exists bs, write_chunks (ChunkEncoder.mk (max_chunk_size d)) chs [] = (Ok tt, bs) /\
    forall segments, segments <> [] -> concat segments = bs ->
      let '(got, (r, (d', _))) := feed (d, []) segments in
      got = map (delivered (max_chunk_size d)) chs /\ r = Ok tt /\ d' = after chs d.
Proof.
  pose proof (wf_chunk_size d Hd) as Hsz. unfold INIT_CHUNK_SIZE in Hsz.
  eexists. split; [apply write_chunks_ok; [lia|done]|]. rewrite app_nil_l.
  intros [|seg segments] Hseg Hcat; [done|]. pose proof (feed_concat segments d [] seg Hd) as Hf.
  cbn [concat] in Hcat. rewrite app_nil_l, Hcat, drain_sent in Hf by done.
  destruct (feed _ _) as [got [r [d' buf']]]. done.
Qed.

(** C34. Two inputs on which the decoder panics (under overflow checks)
    instead of failing: a new header on a stream with an unfinished message
    that announces less than what has been received, and a type 2 header whose
    delta carries the timestamp past 2^32, which the type 1 header handles. *)
Theorem chunk_decoder_panics (d : t) (csid : Z) (mh prev : ChunkMessageHeader) (acc rest : list byte)
    (delta : Z) (Hd : wf d) (Hc : 2 <= csid < 2 ^ 16 + 64) :
  (header_ok mh -> partial_chunks d !! (csid, msg_stream_id mh) = Some acc ->
    msg_length mh < blen acc ->
    (read_chunk (d, basic_bytes ChunkType.Type0 csid ++ header_bytes mh ++ rest)).1 = Panic) /\
  (previous_chunk_headers d !! csid = Some prev -> 0 <= delta < 0xFFFFFF ->
    2 ^ 32 <= timestamp prev + delta ->
    (read_chunk (d, basic_bytes ChunkType.Type2 csid ++ be_bytes 3 delta ++ rest)).1 = Panic).
Proof.
  split.
  - intros Hmh Hpart Hlt. rewrite read_chunk_turn by done. unfold bind, read_turn.
    assert (exists c, read_piece d (cursor_new (basic_bytes ChunkType.Type0 csid ++ header_bytes mh ++ rest))
      = (Panic, c)) as [c ->]; [|done].
    unfold read_piece. change (cursor_new ?bs) with (at_pos [] bs).
    mstep read_header_at; [|done]. mstep read_message_header0_at; [|done].
    eexists. apply bind_panic. apply bind_panic. apply checked_u_panic. unfold partial_len, fits.
    cbn [chunk_stream_id received msg_stream_id msg_length]. rewrite Hpart. lia.
  - intros Hprev Hdelta Hover. rewrite read_chunk_turn by done. unfold bind, read_turn.
    assert (exists c, read_piece d (cursor_new (basic_bytes ChunkType.Type2 csid ++ be_bytes 3 delta ++ rest))
      = (Panic, c)) as [c ->]; [|done].
    unfold read_piece. change (cursor_new ?bs) with (at_pos [] bs).
    mstep read_header_at; [|done]. eexists. apply bind_panic.
    unfold read_message_header. cbn [format].
    mstep need_be; [|change (256 ^ Z.of_nat 3) with (2 ^ 24); lia].
    unfold read_extended. rewrite (proj2 (Z.eqb_neq _ _)) by lia. mret.
    unfold previous_header. cbn [chunk_stream_id]. rewrite Hprev. mret.
    apply bind_panic, checked_u_panic. unfold fits. lia.
Qed.
End props.

Lemma chunk_stream_roundtrip_witness :
  let chs := [ Chunk_new 3 0x1000000 MessageTypeID.Audio 1 (replicate 300 x07);
               Chunk_new 400 5 MessageTypeID.SetChunkSize 0 [x00; x00; x10; x00];
               Chunk_new 70 6 MessageTypeID.Video 1 [] ] in
  exists bs, write_chunks (ChunkEncoder.mk 128) chs [] = (Ok tt, bs) /\
    forall segments, segments <> [] -> concat segments = bs ->
      let '(got, (r, (d', _))) := feed (default, []) segments in
      got = map (delivered 128) chs /\ r = Ok tt /\ d' = after chs default.
Proof.
  intros chs. apply (chunk_stream_roundtrip default chs wf_default).
  - reflexivity.
  - repeat constructor; vm_compute; discriminate.
  - vm_compute. discriminate.
Defined.

(** A decoder in the middle of a 300-byte message on stream (3, 1). *)
Definition busy : t :=
  (drain (default, take 150 (chunk_bytes 128 (Chunk_new 3 0xFFFFFFF0 MessageTypeID.Audio 1 (replicate 300 x07))))).2.2.1.

Lemma chunk_decoder_panics_witness :
  (read_chunk (busy, basic_bytes ChunkType.Type0 3 ++ header_bytes (mkHeader 0 10 MessageTypeID.Audio 1 false) ++ [])).1
    = Panic /\
  (read_chunk (busy, basic_bytes ChunkType.Type2 3 ++ be_bytes 3 16 ++ [])).1 = Panic.
Proof.
  assert (wf busy) as Hb by (apply drain_wf, wf_default).
  destruct (chunk_decoder_panics busy 3 (mkHeader 0 10 MessageTypeID.Audio 1 false)
    (mkHeader 0xFFFFFFF0 300 MessageTypeID.Audio 1 true) (replicate 128 x07) [] 16 Hb
    ltac:(split; reflexivity || discriminate)) as [H1 H2].
  split.
  - apply H1; [repeat split; vm_compute; congruence|vm_compute; reflexivity|vm_compute; reflexivity].
  - apply H2; [vm_compute; reflexivity|split; [discriminate|reflexivity]|vm_compute; discriminate].
Defined.

End ChunkProps.
