(* ===== verification/RtmpMessages.v ===== *)
(** * RTMP messages (crates/rtmp/src/messages, protocol_control_messages,
    netconnection, netstream, user_control_messages)

    The parser from chunks to messages and the writers of the messages the
    server sends, each a chunk given to the chunk encoder. *)

From Stdlib Require Import Strings.String Strings.Byte.
From stdpp Require Import base list numbers gmap.
From S2P Require Import Prelude Io Amf0 RtmpChunk RtmpChunkDecode RtmpChunkRoundTrip.

(** ** Errors *)

Inductive ProtocolControlMessageError :=
| PcIO (e : ErrorKind)
| PcChunkEncode (e : ChunkEncodeError).

Inductive NetConnectionError :=
| NcAmf0Write (e : Amf0WriteError)
| NcChunkEncode (e : ChunkEncodeError).

Inductive NetStreamError :=
| NsAmf0Write (e : Amf0WriteError)
| NsChunkEncode (e : ChunkEncodeError).

Inductive EventMessagesError :=
| EmChunkEncode (e : ChunkEncodeError).

Inductive MessageError :=
| Amf0Read (e : Amf0ReadError)
| ProtocolControlMessage (e : ProtocolControlMessageError).

(** ** Messages (messages/define.rs) *)

Inductive RtmpMessageData :=
| Amf0Command (command_name transaction_id command_object : Amf0Value.t) (others : list Amf0Value.t)
| AmfData (data : list byte)
| SetChunkSize (chunk_size : Z)
| AudioData (data : list byte)
| VideoData (data : list byte).

(** ** Protocol control messages *)

Module ProtocolControl.
Section protocol.
Context `{BO : ByteOrder}.

(** [ProtocolControlMessageReader::read_set_chunk_size] *)
Definition read_set_chunk_size (data : list byte) : res ProtocolControlMessageError Z :=
  fst (map_err PcIO read_u32 (cursor_new data)).

Context {W : Type} `{IoWrite W}.

Definition write_set_chunk_size (encoder : ChunkEncoder.t) (chunk_size : Z) :
    M W ProtocolControlMessageError unit :=
  let chunk_size := Z.land chunk_size 0x7FFFFFFF in
  map_err PcChunkEncode (ChunkEncoder.write_chunk encoder
    (Chunk_new 2 0 MessageTypeID.SetChunkSize 0 (be_bytes 4 chunk_size))).

Definition write_window_acknowledgement_size (encoder : ChunkEncoder.t) (window_size : Z) :
    M W ProtocolControlMessageError unit :=
  map_err PcChunkEncode (ChunkEncoder.write_chunk encoder
    (Chunk_new 2 0 MessageTypeID.WindowAcknowledgementSize 0 (be_bytes 4 window_size))).

(** [m] run on a new [Vec]; [.expect(..)] panics on an error. *)
Definition in_vec {S E} (m : M (list byte) E unit) : M S E (list byte) := fun s =>
  match m [] with
  | (Ok _, v) => (Ok v, s)
  | (Err e, _) => (Err e, s)
  | (Panic, _) => (Panic, s)
  | (Fuel, _) => (Fuel, s)
  end.

Definition expect {S E E' A} (m : M S E A) : M S E' A := fun s =>
  match m s with
  | (Ok a, s') => (Ok a, s')
  | (Err _, s') => (Panic, s')
  | (Panic, s') => (Panic, s')
  | (Fuel, s') => (Fuel, s')
  end.

Definition write_set_peer_bandwidth (encoder : ChunkEncoder.t) (window_size limit_type : Z) :
    M W ProtocolControlMessageError unit :=
  let* data := in_vec (expect (write_u32 window_size) ;;; expect (write_u8 limit_type)) in
  map_err PcChunkEncode (ChunkEncoder.write_chunk encoder
    (Chunk_new 2 0 MessageTypeID.SetPeerBandwidth 0 data)).

End protocol.
End ProtocolControl.
Import ProtocolControl (in_vec, expect).

(** ** The parser (messages/parser.rs) *)

Module MessageParser.
Section parser.
Context `{BO : ByteOrder}.

(** [decode_with_type(Object)], and on an error [decode_with_type(Null)] from
    where the decoder stands. *)
Definition read_command_object : M Cursor Amf0ReadError Amf0Value.t := fun c =>
  match Amf0Decoder.decode_with_type Amf0Marker.Object c with
  | (Err _, c') => Amf0Decoder.decode_with_type Amf0Marker.Null c'
  | r => r
  end.

Definition read_command : M Cursor Amf0ReadError RtmpMessageData :=
  let* command_name := Amf0Decoder.decode_with_type Amf0Marker.String in
  let* transaction_id := Amf0Decoder.decode_with_type Amf0Marker.Number in
  let* command_object := read_command_object in
  let* others := Amf0Decoder.decode_all in
  ret (Amf0Command command_name transaction_id command_object others).

Definition res_map {E E' A B} (f : E -> E') (g : A -> B) (r : res E A) : res E' B :=
  match r with Ok a => Ok (g a) | Err e => Err (f e) | Panic => Panic | Fuel => Fuel end.

Definition parse (chunk : Chunk) : res MessageError (option RtmpMessageData) :=
  match msg_type_id (message_header chunk) with
  | MessageTypeID.CommandAMF0 =>
      res_map Amf0Read Some (fst (read_command (Amf0Decoder.new (payload chunk))))
  | MessageTypeID.Audio => Ok (Some (AudioData (payload chunk)))
  | MessageTypeID.Video => Ok (Some (VideoData (payload chunk)))
  | MessageTypeID.SetChunkSize =>
      res_map ProtocolControlMessage (fun n => Some (SetChunkSize n))
        (ProtocolControl.read_set_chunk_size (payload chunk))
  | MessageTypeID.DataAMF0 | MessageTypeID.DataAMF3 => Ok (Some (AmfData (payload chunk)))
  | _ => Ok None
  end.

End parser.
End MessageParser.

(** ** The writers of commands (netconnection/writer.rs, netstream/writer.rs,
    user_control_messages/writer.rs) *)

Module NetConnection.
Section writer.
Context `{BO : ByteOrder} {W : Type} `{IoWrite W}.

Definition write_chunk (encoder : ChunkEncoder.t) (amf0 : list byte) : M W NetConnectionError unit :=
  map_err NcChunkEncode (ChunkEncoder.write_chunk encoder
    (Chunk_new (DefinedChunkStreamID.discr DefinedChunkStreamID.Command) 0 MessageTypeID.CommandAMF0 0 amf0)).

Definition write_connect_response (encoder : ChunkEncoder.t) (transaction_id : Z) (fmsver : list byte)
    (capabilities : Z) (code level description : list byte) (encoding : Z) : M W NetConnectionError unit :=
  let* amf0_writer := in_vec (map_err NcAmf0Write (
    Amf0Encoder.encode_string (str "_result") ;;;
    Amf0Encoder.encode_number transaction_id ;;;
    Amf0Encoder.encode_object
      [ (str "fmsVer", Amf0Value.String fmsver);
        (str "capabilities", Amf0Value.Number capabilities) ] ;;;
    Amf0Encoder.encode_object
      [ (str "level", Amf0Value.String level);
        (str "code", Amf0Value.String code);
        (str "description", Amf0Value.String description);
        (str "objectEncoding", Amf0Value.Number encoding) ])) in
  write_chunk encoder amf0_writer.

Definition write_create_stream_response (encoder : ChunkEncoder.t) (transaction_id stream_id : Z) :
    M W NetConnectionError unit :=
  let* amf0_writer := in_vec (map_err NcAmf0Write (
    Amf0Encoder.encode_string (str "_result") ;;;
    Amf0Encoder.encode_number transaction_id ;;;
    Amf0Encoder.encode_null ;;;
    Amf0Encoder.encode_number stream_id)) in
  write_chunk encoder amf0_writer.

End writer.
End NetConnection.

Module NetStreamWriter.
Section writer.
Context `{BO : ByteOrder} {W : Type} `{IoWrite W}.

Definition write_chunk (encoder : ChunkEncoder.t) (amf0_writer : list byte) : M W NetStreamError unit :=
  map_err NsChunkEncode (ChunkEncoder.write_chunk encoder
    (Chunk_new (DefinedChunkStreamID.discr DefinedChunkStreamID.Command) 0 MessageTypeID.CommandAMF0 0 amf0_writer)).

Definition write_on_status (encoder : ChunkEncoder.t) (transaction_id : Z)
    (level code description : list byte) : M W NetStreamError unit :=
  let* amf0_writer := in_vec (map_err NsAmf0Write (
    Amf0Encoder.encode_string (str "onStatus") ;;;
    Amf0Encoder.encode_number transaction_id ;;;
    Amf0Encoder.encode_null ;;;
    Amf0Encoder.encode_object
      [ (str "level", Amf0Value.String level);
        (str "code", Amf0Value.String code);
        (str "description", Amf0Value.String description) ])) in
  write_chunk encoder amf0_writer.

End writer.
End NetStreamWriter.

Module EventMessagesWriter.
Section writer.
Context `{BO : ByteOrder} {W : Type} `{IoWrite W}.

Definition RTMP_EVENT_STREAM_BEGIN : Z := 0.

Definition write_stream_begin (encoder : ChunkEncoder.t) (stream_id : Z) : M W EventMessagesError unit :=
  let* data := in_vec (expect (write_u16 RTMP_EVENT_STREAM_BEGIN) ;;; expect (write_u32 stream_id)) in
  map_err EmChunkEncode (ChunkEncoder.write_chunk encoder
    (Chunk_new 2 0 MessageTypeID.UserControlEvent 0 data)).

End writer.
End EventMessagesWriter.

(** ** Lemmas *)

Module MessageLemmas.
Import Amf0Decoder Amf0DecoderLemmas Amf0RoundTrip Amf0Props.
Import ChunkDecoder ChunkDecoderLemmas ChunkBytes.

Section lemmas.
Context `{BO : ByteOrder}.

Lemma value_bytes_marker v : encodable v ->
  exists b bs, value_bytes v = b :: bs /\ b2z b = Amf0Marker.discr (Amf0Value.marker v).
Proof. destruct 1; cbn [value_bytes]; eexists _, _; (split; [reflexivity|]); done. Qed.

(** [decode_with_type] reads the marker and seeks back before it decides. *)
Lemma decode_with_type_cons ty b bs pre : blen pre + blen (b :: bs) < 2 ^ 63 ->
  decode_with_type ty (at_pos pre (b :: bs)) =
    (let* m := ok_or (Amf0Marker.from_u (b2z b)) (UnknownMarker (b2z b)) in
     if decide (m = ty) then decode else throw (WrongType ty m)) (at_pos pre (b :: bs)).
Proof.
  intros Hmem. unfold decode_with_type.
  mstep (read_uint_be_at pre [b] bs 1); [|done].
  assert (cursor_seek (Current (-1)) (at_pos (pre ++ [b]) bs) = (Ok (blen pre), at_pos pre (b :: bs))) as Hseek.
  { unfold cursor_seek, at_pos; simpl. rewrite blen_cons in Hmem. pose proof (blen_nonneg bs).
    pose proof (blen_nonneg pre).
    replace (Z.of_N (N.of_nat (length (pre ++ [b]))) + -1) with (blen pre)
      by (rewrite length_app; unfold blen; simpl; lia).
    rewrite decide_True by (unfold fits; lia). rewrite <-(assoc_L (++)). do 2 f_equal. unfold blen. lia. }
  mstep Hseek. rewrite be_val_cons. change (be_val []) with 0. change (blen []) with 0.
  by rewrite Z.mul_1_r, Z.add_0_r.
Qed.

Lemma decode_with_type_marker ty m b bs pre : b2z b = Amf0Marker.discr m ->
  blen pre + blen (b :: bs) < 2 ^ 63 ->
  decode_with_type ty (at_pos pre (b :: bs))
    = (if decide (m = ty) then decode else throw (WrongType ty m)) (at_pos pre (b :: bs)).
Proof.
  intros Hb Hmem. rewrite decode_with_type_cons by done. rewrite Hb, Amf0Marker.from_u_discr. done.
Qed.

Lemma decode_with_type_at v pre post : encodable v -> in_memory pre (value_bytes v ++ post) ->
  decode_with_type (Amf0Value.marker v) (at_pos pre (value_bytes v ++ post))
    = (Ok v, at_pos (pre ++ value_bytes v) post).
Proof.
  intros Hv Hmem. rewrite <-(decode_at v pre post Hv Hmem). unfold in_memory in Hmem.
  destruct (value_bytes_marker v Hv) as (b & bs & Hbs & Hb). rewrite Hbs in *. cbn [app] in *.
  rewrite (decode_with_type_marker _ (Amf0Value.marker v)) by done. by rewrite decide_True.
Qed.

Lemma decode_with_type_wrong ty v pre post : encodable v -> in_memory pre (value_bytes v ++ post) ->
  Amf0Value.marker v <> ty ->
  decode_with_type ty (at_pos pre (value_bytes v ++ post))
    = (Err (WrongType ty (Amf0Value.marker v)), at_pos pre (value_bytes v ++ post)).
Proof.
  intros Hv Hmem Hne. unfold in_memory in Hmem.
  destruct (value_bytes_marker v Hv) as (b & bs & Hbs & Hb). rewrite Hbs in *. cbn [app] in *.
  rewrite (decode_with_type_marker _ (Amf0Value.marker v)) by done. by rewrite decide_False.
Qed.

(** ** The parser on arbitrary payloads *)

Definition in_buf (c : Cursor) : Prop := (pos c <= N.of_nat (length (inner c)))%N /\ blen (inner c) < 2 ^ 63.

(** [total m]: inside a buffer, [m] neither runs out of fuel nor leaves it. *)
Definition total {E A} (m : M Cursor E A) : Prop := forall c, in_buf c ->
  match m c with
  | (Ok _, c') | (Err _, c') => in_buf c'
  | (Panic, _) => True
  | (Fuel, _) => False
  end.

Lemma total_parses {E A} (m : M Cursor E A) Q :
  (forall pre post, in_memory pre post -> parses m pre post Q) -> total m.
Proof.
  intros Hm c [Hp Hl]. destruct (cursor_at c Hp) as (pre & post & ->). simpl in Hl.
  assert (in_memory pre post) as Hmem by (unfold in_memory; by rewrite <-blen_app).
  specialize (Hm pre post Hmem). unfold parses in Hm. destruct (m _) as [[a|e| |] c']; try done.
  - destruct Hm as (bs & post' & -> & -> & _). split; simpl; [rewrite !length_app; lia|].
    by rewrite <-(assoc_L (++)).
  - destruct Hm as (pre' & post' & Heq & ->). split; simpl; [rewrite length_app; lia|].
    by rewrite <-Heq.
Qed.

Lemma total_bind {E A B} (m : M Cursor E A) (k : A -> M Cursor E B) :
  total m -> (forall a, total (k a)) -> total (bind m k).
Proof.
  intros Hm Hk c Hc. unfold bind. specialize (Hm c Hc). destruct (m c) as [[a|e| |] c']; try done.
  by apply Hk.
Qed.

Lemma total_decode_with_type ty : total (decode_with_type ty).
Proof.
  apply (total_parses _ (fun _ _ => True)). intros pre post Hmem. destruct post as [|b bs].
  - unfold parses, decode_with_type. erewrite bind_err; [|apply map_err_err, read_uint_eof; simpl; lia].
    exists (pre ++ []), []. by rewrite !app_nil_r.
  - unfold parses. rewrite decode_with_type_cons by done.
    destruct (Amf0Marker.from_u (b2z b)) as [m|]; [|by apply parses_throw]. mret.
    destruct (decide (m = ty)); [|by apply parses_throw].
    eapply parses_mono; [by apply parses_decode|done].
Qed.

Lemma total_decode_all : total decode_all.
Proof.
  apply (total_parses _ (fun _ _ => True)). intros pre post Hmem. unfold parses, decode_all.
  rewrite cursor_rest_at. eapply parses_mono; [apply decode_all_loop_parses; [done|lia|constructor]|done].
Qed.

Lemma total_read_command : total MessageParser.read_command.
Proof.
  unfold MessageParser.read_command. apply total_bind; [apply total_decode_with_type|]. intros name.
  apply total_bind; [apply total_decode_with_type|]. intros tid. apply total_bind.
  - intros c Hc. unfold MessageParser.read_command_object.
    pose proof (total_decode_with_type Amf0Marker.Object c Hc) as H.
    destruct (decode_with_type Amf0Marker.Object c) as [[v|e| |] c']; try done.
    by apply total_decode_with_type.
  - intros obj. apply total_bind; [apply total_decode_all|]. intros others c Hc. done.
Qed.

Lemma parse_nofuel chunk : blen (RtmpChunk.payload chunk) < 2 ^ 63 -> MessageParser.parse chunk <> Fuel.
Proof.
  intros Hl. unfold MessageParser.parse. destruct (msg_type_id _); try done.
  - unfold ProtocolControl.read_set_chunk_size.
    destruct (read_uint_cases BigEndian [] (RtmpChunk.payload chunk) 4) as [(bs & post & _ & _ & Hr)|[_ Hr]];
      change (cursor_new ?bs) with (at_pos [] bs); unfold map_err; by rewrite Hr.
  - pose proof (total_read_command (new (RtmpChunk.payload chunk))) as H. simpl in H.
    destruct (MessageParser.read_command _) as [[v|e| |] c']; try done. exfalso. apply H.
    split; [simpl; lia|done].
Qed.

(** A command object is an object or null. *)
Definition command_object (v : Amf0Value.t) : Prop :=
  match v with Amf0Value.Object _ | Amf0Value.Null => True | _ => False end.

Lemma read_command_object_at v pre post : encodable v -> command_object v ->
  in_memory pre (value_bytes v ++ post) ->
  MessageParser.read_command_object (at_pos pre (value_bytes v ++ post))
    = (Ok v, at_pos (pre ++ value_bytes v) post).
Proof.
  intros Hv Hobj Hmem. unfold MessageParser.read_command_object.
  destruct v as [| | |ps| | |]; try done.
  - change Amf0Marker.Object with (Amf0Value.marker (Amf0Value.Object ps)).
    by rewrite decode_with_type_at.
  - rewrite decode_with_type_wrong by done.
    change Amf0Marker.Null with (Amf0Value.marker Amf0Value.Null). by rewrite decode_with_type_at.
Qed.

Lemma decode_all_rest vs pre : Forall encodable vs -> in_memory pre (vs ≫= value_bytes) ->
  decode_all (at_pos pre (vs ≫= value_bytes)) = (Ok vs, at_pos (pre ++ (vs ≫= value_bytes)) []).
Proof.
  intros Hvs Hmem. unfold decode_all. rewrite cursor_rest_at. rewrite decode_all_at by (done || lia).
  done.
Qed.

Lemma read_command_at name tid obj others :
  let vs := Amf0Value.String name :: Amf0Value.Number tid :: obj :: others in
  Forall encodable vs -> command_object obj -> blen (vs ≫= value_bytes) < 2 ^ 63 ->
  fst (MessageParser.read_command (new (vs ≫= value_bytes)))
    = Ok (Amf0Command (Amf0Value.String name) (Amf0Value.Number tid) obj others).
Proof.
  intros vs Hvs Hobj Hmem. unfold vs in *. assert (in_memory [] (vs ≫= value_bytes)) as Hm by done.
  apply Forall_cons_1 in Hvs as [Hn Hvs]. apply Forall_cons_1 in Hvs as [Ht Hvs].
  apply Forall_cons_1 in Hvs as [Ho Hvs]. unfold vs in Hm. cbn [mbind list_bind] in Hm |- *.
  change (new ?bs) with (at_pos [] bs). unfold MessageParser.read_command.
  change Amf0Marker.String with (Amf0Value.marker (Amf0Value.String name)).
  mstep decode_with_type_at; [|done|done]. apply in_memory_app in Hm.
  change Amf0Marker.Number with (Amf0Value.marker (Amf0Value.Number tid)).
  mstep decode_with_type_at; [|done|done]. apply in_memory_app in Hm.
  mstep read_command_object_at; [|done|done|done]. apply in_memory_app in Hm.
  mstep decode_all_rest; [|done|done]. reflexivity.
Qed.

(** ** What a peer makes of the messages written *)

(** The peer's decoder [d] can take a message on chunk stream [csid]. *)
Definition listening (d : t) (csid : Z) : Prop :=
  wf d /\ header_room d csid /\ partial_chunks d = ∅.

(** [w] writes one message, and a peer that reads it understands [m]. *)
Definition understood {E} (d : t) (w : M (list byte) E unit) (m : option RtmpMessageData) : Prop :=
  exists bs ch d', w [] = (Ok tt, bs) /\ read_chunk (d, bs) = (Ok (Some ch), (d', [])) /\
    MessageParser.parse ch = Ok m.

Lemma sendable_new csid ty sid pl : 2 <= csid < 2 ^ 16 + 64 -> fits 32 sid ->
  blen pl <= MAX_PARTIAL_CHUNK_SIZE -> sendable (Chunk_new csid 0 ty sid pl).
Proof.
  intros Hc Hs Hl. pose proof (blen_nonneg pl). unfold MAX_PARTIAL_CHUNK_SIZE in *.
  constructor; simpl; try done. unfold wrap. apply Z.mod_small. lia.
Qed.

Lemma understood_chunk {E} (f : ChunkEncodeError -> E) d csid ty pl m :
  listening d csid -> 2 <= csid < 2 ^ 16 + 64 -> blen pl <= MAX_PARTIAL_CHUNK_SIZE ->
  (forall ch, msg_type_id (message_header ch) = ty -> RtmpChunk.payload ch = pl -> MessageParser.parse ch = Ok m) ->
  understood d (map_err f (ChunkEncoder.write_chunk (ChunkEncoder.mk (max_chunk_size d))
    (Chunk_new csid 0 ty 0 pl))) m.
Proof.
  intros (Hd & Hroom & Hp) Hc Hl Hparse. pose proof (wf_chunk_size d Hd) as Hsz. unfold INIT_CHUNK_SIZE in Hsz.
  assert (sendable (Chunk_new csid 0 ty 0 pl)) as Hs by by apply sendable_new.
  eexists _, _, _. split; [apply map_err_ok, write_chunk_ok; [lia|done]|].
  rewrite app_nil_l, <-(app_nil_r (chunk_bytes _ _)).
  split; [apply read_sent; [done|done|done|by rewrite Hp|by rewrite Hp]|]. by apply Hparse.
Qed.

Lemma in_vec_ok {S E} (m : M (list byte) E unit) v (s : S) : m [] = (Ok tt, v) -> in_vec m s = (Ok v, s).
Proof. unfold in_vec. by intros ->. Qed.

Lemma expect_write {E'} n z w : 0 <= z < 256 ^ Z.of_nat n ->
  expect (E' := E') (write_uint (W := list byte) BigEndian n z) w = (Ok tt, w ++ be_bytes n z).
Proof. intros. unfold expect. by rewrite write_uint_be. Qed.

(** A command written with the AMF0 encoder and sent on the command stream. *)
Lemma understood_command {E} (f : Amf0WriteError -> E) (g : ChunkEncodeError -> E)
    (m : M (list byte) Amf0WriteError unit) d name tid obj others :
  let vs := Amf0Value.String name :: Amf0Value.Number tid :: obj :: others in
  listening d 3 -> Forall encodable vs -> command_object obj ->
  m [] = (Ok tt, vs ≫= value_bytes) -> blen (vs ≫= value_bytes) <= MAX_PARTIAL_CHUNK_SIZE ->
  understood d
    (let* data := in_vec (map_err f m) in
     map_err g (ChunkEncoder.write_chunk (ChunkEncoder.mk (max_chunk_size d))
       (Chunk_new 3 0 MessageTypeID.CommandAMF0 0 data)))
    (Some (Amf0Command (Amf0Value.String name) (Amf0Value.Number tid) obj others)).
Proof.
  intros vs Hd Hvs Hobj Hm Hl.
  destruct (understood_chunk g d 3 MessageTypeID.CommandAMF0 (vs ≫= value_bytes)
    (Some (Amf0Command (Amf0Value.String name) (Amf0Value.Number tid) obj others))) as (bs & ch & d' & H1 & H2 & H3);
    [done|lia|done| |].
  { intros ch Hty Hpl. unfold MessageParser.parse. rewrite Hty, Hpl.
    unfold MAX_PARTIAL_CHUNK_SIZE in Hl. unfold vs in *. by rewrite read_command_at by (done || lia). }
  exists bs, ch, d'. split; [|done]. erewrite bind_ok; [exact H1|]. apply in_vec_ok. by apply map_err_ok.
Qed.

(** The AMF0 calls of the writers, as encodings of values. *)
Lemma encode_string_value s : Amf0Encoder.encode_string (W := list byte) s = Amf0Encoder.encode (Amf0Value.String s).
Proof. done. Qed.
Lemma encode_number_value n : Amf0Encoder.encode_number (W := list byte) n = Amf0Encoder.encode (Amf0Value.Number n).
Proof. done. Qed.
Lemma encode_null_value : Amf0Encoder.encode_null (W := list byte) = Amf0Encoder.encode Amf0Value.Null.
Proof. done. Qed.
Lemma encode_object_value ps : Amf0Encoder.encode_object (W := list byte) ps = Amf0Encoder.encode (Amf0Value.Object ps).
Proof. done. Qed.

Lemma encodable_string s : Utf8.valid s = true -> blen s < 2 ^ 16 -> encodable (Amf0Value.String s).
Proof. intros. by apply enc_String. Qed.

Lemma Forall_nil_props : Forall (fun p : list byte * Amf0Value.t => str_ok (2 ^ 16) p.1 /\ encodable p.2) [].
Proof. constructor. Qed.

Lemma Forall_cons_props k v ps : Utf8.valid k = true -> blen k < 2 ^ 16 -> encodable v ->
  Forall (fun p : list byte * Amf0Value.t => str_ok (2 ^ 16) p.1 /\ encodable p.2) ps ->
  Forall (fun p : list byte * Amf0Value.t => str_ok (2 ^ 16) p.1 /\ encodable p.2) ((k, v) :: ps).
Proof. intros. by constructor. Qed.

Lemma blen_string s : blen (value_bytes (Amf0Value.String s)) = 3 + blen s.
Proof. cbn [value_bytes]. rewrite blen_cons, blen_app, blen_be_bytes. lia. Qed.
Lemma blen_number n : blen (value_bytes (Amf0Value.Number n)) = 9.
Proof. cbn [value_bytes]. by rewrite blen_cons, blen_be_bytes. Qed.
Lemma blen_null : blen (value_bytes Amf0Value.Null) = 1.
Proof. done. Qed.
Lemma blen_props_nil : blen (([] : list (list byte * Amf0Value.t)) ≫= prop_bytes value_bytes) = 0.
Proof. done. Qed.
Lemma blen_props_cons k v ps : blen (((k, v) :: ps) ≫= prop_bytes value_bytes)
  = 2 + blen k + blen (value_bytes v) + blen (ps ≫= prop_bytes value_bytes).
Proof.
  change (((k, v) :: ps) ≫= prop_bytes value_bytes)
    with ((be_bytes 2 (blen k) ++ k ++ value_bytes v) ++ (ps ≫= prop_bytes value_bytes)).
  rewrite !blen_app, blen_be_bytes. lia.
Qed.
Lemma blen_object ps : blen (value_bytes (Amf0Value.Object ps)) = 4 + blen (ps ≫= prop_bytes value_bytes).
Proof. cbn [value_bytes]. rewrite blen_cons, blen_app. change (blen [x00; x00; x09]) with 3. lia. Qed.
Lemma blen_values_cons v vs : blen ((v :: vs) ≫= value_bytes) = blen (value_bytes v) + blen (vs ≫= value_bytes).
Proof. cbn [mbind list_bind]. by rewrite blen_app. Qed.
Lemma blen_values_nil : blen (([] : list Amf0Value.t) ≫= value_bytes) = 0.
Proof. done. Qed.

End lemmas.

#[export] Hint Rewrite @blen_string blen_number blen_null blen_props_nil blen_props_cons blen_object
  blen_values_cons blen_values_nil : amf0_size.
#[export] Hint Extern 1 (blen (str _) < _) => vm_compute; reflexivity : scuffle.
#[export] Hint Extern 1 (Utf8.valid (str _) = true) => vm_compute; reflexivity : scuffle.
#[export] Hint Resolve encodable_string Forall_nil_props Forall_cons_props : scuffle.

(** [str_len] evaluates the lengths of string literals. *)
Ltac str_len :=
  repeat match goal with
  | |- context [blen (str ?s)] =>
      let n := eval vm_compute in (blen (str s)) in change (blen (str s)) with n
  end.

(** [encodes]: a sequence of AMF0 calls writes the values one after the other. *)
Ltac encodes :=
  rewrite ?encode_string_value, ?encode_number_value, ?encode_null_value, ?encode_object_value;
  repeat (mstep encode_ok; [|solve [eauto 12 with scuffle]]);
  cbn [mbind list_bind]; rewrite <-?(assoc_L (++)), ?app_nil_r; reflexivity.

End MessageLemmas.

(** ** Properties *)

Module MessageProps.
Import Amf0Props ChunkDecoder ChunkDecoderLemmas ChunkBytes MessageLemmas.

Section props.
Context `{BO : ByteOrder}.

(** The command parser inverts the AMF0 encoder: a command message whose
    payload is the encoding of a name, a transaction id, a command object (an
    object or null) and any further values is parsed to exactly these. *)
Theorem command_message_parses (chunk : Chunk) (name : list byte) (tid : Z) (obj : Amf0Value.t)
    (others : list Amf0Value.t)
    (Hty : msg_type_id (message_header chunk) = MessageTypeID.CommandAMF0)
    (Hobj : command_object obj)
    (Henc : Forall encodable (Amf0Value.String name :: Amf0Value.Number tid :: obj :: others))
    (Hpl : encode_all (Amf0Value.String name :: Amf0Value.Number tid :: obj :: others) []
             = (Ok tt, payload chunk))
    (Hmem : blen (payload chunk) < 2 ^ 63) :
  MessageParser.parse chunk
    = Ok (Some (Amf0Command (Amf0Value.String name) (Amf0Value.Number tid) obj others)).
Proof.
  rewrite encode_all_ok, app_nil_l in Hpl by done. apply (f_equal snd) in Hpl. unfold snd in Hpl.
  unfold MessageParser.parse. rewrite Hty, <-Hpl. rewrite <-Hpl in Hmem. by rewrite read_command_at.
Qed.

End props.

Lemma command_message_parses_witness :
  let vs := [ Amf0Value.String (str "publish"); Amf0Value.Number 0x4014000000000000; Amf0Value.Null;
              Amf0Value.String (str "key"); Amf0Value.String (str "live") ] in
  MessageParser.parse (Chunk_new 3 0 MessageTypeID.CommandAMF0 1 (snd (encode_all vs [])))
    = Ok (Some (Amf0Command (Amf0Value.String (str "publish")) (Amf0Value.Number 0x4014000000000000)
        Amf0Value.Null [Amf0Value.String (str "key"); Amf0Value.String (str "live")])).
Proof.
  intros vs.
  apply (command_message_parses (Chunk_new 3 0 MessageTypeID.CommandAMF0 1 (snd (encode_all vs [])))).
  - reflexivity.
  - exact I.
  - repeat (apply Forall_cons; split); [..|apply Forall_nil; exact I];
      (apply encodable_string; vm_compute; reflexivity) || apply enc_Null
      || (apply enc_Number; split; [discriminate|reflexivity]).
  - vm_compute. reflexivity.
  - vm_compute. reflexivity.
Defined.


End MessageProps.
