(* ===== verification/RtmpHandshake.v ===== *)
(** * The RTMP handshake (crates/rtmp/src/handshake)

    The digest of the complex handshake (digest.rs), the two server state
    machines and the choice between them (server.rs).  HMAC-SHA256 is a
    parameter; the clock and the random bytes are streams that the code reads
    in order. *)

From Stdlib Require Import Strings.String.
From stdpp Require Import base list numbers.
From Stdlib Require Import Strings.Byte.
From S2P Require Import Prelude Io BytesCursor.

(** ** Constants and data (define.rs, errors.rs) *)

Inductive SchemaVersion := Schema0 | Schema1.

Inductive RtmpVersion := Unknown | Version3.

Definition version_discr (v : RtmpVersion) : Z := match v with Unknown => 0 | Version3 => 3 end.

Inductive ServerHandshakeState := ReadC0C1 | WriteS0S1S2 | ReadC2 | Finish.

#[global] Instance ServerHandshakeState_eq_dec : EqDecision ServerHandshakeState.
Proof. solve_decision. Defined.

Definition RTMP_HANDSHAKE_SIZE : Z := 1536.
Definition RTMP_SERVER_VERSION : Z := 0x04050001.
Definition RTMP_DIGEST_LENGTH : Z := 32.
Definition TIME_VERSION_LENGTH : Z := 8.
Definition CHUNK_LENGTH : Z := (RTMP_HANDSHAKE_SIZE - TIME_VERSION_LENGTH) / 2.
Definition RTMP_SERVER_KEY_FIRST_HALF : list byte := str "Genuine Adobe Flash Media Server 001".
Definition RTMP_CLIENT_KEY_FIRST_HALF : list byte := str "Genuine Adobe Flash Player 001".
Definition RTMP_SERVER_KEY : list byte := map z2b [
  0x47; 0x65; 0x6e; 0x75; 0x69; 0x6e; 0x65; 0x20; 0x41; 0x64; 0x6f; 0x62; 0x65; 0x20; 0x46; 0x6c; 0x61; 0x73; 0x68; 0x20;
  0x4d; 0x65; 0x64; 0x69; 0x61; 0x20; 0x53; 0x65; 0x72; 0x76; 0x65; 0x72; 0x20; 0x30; 0x30; 0x31; 0xf0; 0xee; 0xc2; 0x4a;
  0x80; 0x68; 0xbe; 0xe8; 0x2e; 0x00; 0xd0; 0xd1; 0x02; 0x9e; 0x7e; 0x57; 0x6e; 0xec; 0x5d; 0x2d; 0x29; 0x80; 0x6f; 0xab;
  0x93; 0xb8; 0xe6; 0x36; 0xcf; 0xeb; 0x31; 0xae ].

Inductive DigestError := NotEnoughData | DigestLengthNotCorrect | CannotGenerate | UnknownSchema.

Inductive HandshakeError :=
| Digest (e : DigestError)
| HandshakeIO (e : ErrorKind).

(** ** The environment *)

(** [Hmac::<Sha256>] over a key and the concatenation of its updates. *)
Class HmacSha256 := {
  hmac : list byte -> list byte -> list byte;
  hmac_length : forall key data, length (hmac key data) = 32%nat;
}.

(** What the clock says at each reading (the time since the epoch in
    nanoseconds, [None] before it) and the bytes of [thread_rng]. *)
Class Environment := {
  clock : nat -> option Z;
  random : nat -> byte;
}.

(** ** Digests (digest.rs) *)

Module DigestProcessor.

Record t := new { data : list byte; key : list byte }.

Section digest.
Context `{HM : HmacSha256} {S : Type}.

Definition schema_offset (version : SchemaVersion) : Z :=
  match version with
  | Schema0 => CHUNK_LENGTH + TIME_VERSION_LENGTH
  | Schema1 => TIME_VERSION_LENGTH
  end.

(** [*self.data.get(i).unwrap() as usize] *)
Definition get_unwrap (self : t) (i : Z) : M S DigestError Z :=
  let* b := unwrap (data self !! Z.to_nat i) in ret (b2z b).

Definition find_digest_offset (self : t) (version : SchemaVersion) : M S DigestError Z :=
  let OFFSET_LENGTH := 4 in
  let schema_offset := schema_offset version in
  let* b0 := get_unwrap self schema_offset in
  let* b1 := get_unwrap self (schema_offset + 1) in
  let* b2 := get_unwrap self (schema_offset + 2) in
  let* b3 := get_unwrap self (schema_offset + 3) in
  ret ((b0 + b1 + b2 + b3) `mod` (CHUNK_LENGTH - RTMP_DIGEST_LENGTH - OFFSET_LENGTH)
       + schema_offset + OFFSET_LENGTH).

Definition cook_raw_message (self : t) (version : SchemaVersion) :
    M S DigestError (list byte * list byte * list byte) :=
  let* digest_offset := find_digest_offset self version in
  let* left_part := unwrap (slice 0 digest_offset (data self)) in
  let* digest_data := unwrap (slice digest_offset (digest_offset + RTMP_DIGEST_LENGTH) (data self)) in
  let* right_part := unwrap (slice (digest_offset + RTMP_DIGEST_LENGTH) (blen (data self)) (data self)) in
  ret (left_part, digest_data, right_part).

Definition make_digest (self : t) (left right : list byte) : M S DigestError (list byte) :=
  let result := hmac (key self) (left ++ right) in
  if negb (blen result =? RTMP_DIGEST_LENGTH) then throw DigestLengthNotCorrect else ret result.

Definition generate_and_fill_digest (self : t) (version : SchemaVersion) :
    M S DigestError (list byte * list byte * list byte) :=
  let* (left_part, _, right_part) := cook_raw_message self version in
  let* computed_digest := make_digest self left_part right_part in
  ret (left_part, computed_digest, right_part).

Definition generate_and_validate (self : t) (version : SchemaVersion) : M S DigestError (list byte) :=
  let* (left_part, digest_data, right_part) := cook_raw_message self version in
  let* computed := make_digest self left_part right_part in
  if decide (digest_data = computed) then ret digest_data else throw CannotGenerate.

Definition read_digest (self : t) : M S DigestError (list byte * SchemaVersion) := fun s =>
  match generate_and_validate self Schema0 s with
  | (Ok digest, s') => (Ok (digest, Schema0), s')
  | (Err _, s') => (let* digest := generate_and_validate self Schema1 in ret (digest, Schema1)) s'
  | (Panic, s') => (Panic, s')
  | (Fuel, s') => (Fuel, s')
  end.

End digest.
End DigestProcessor.

(** ** The state machines (server.rs) *)

(** What a handshaker works on: the input cursor, the output buffer, and how
    far the clock and the random bytes have been read. *)
Record World := mkWorld { input : Cursor; output : list byte; ticks : nat; drawn : nat }.

Definition set_input (c : Cursor) (w : World) : World := mkWorld c (output w) (ticks w) (drawn w).
Definition set_output (o : list byte) (w : World) : World := mkWorld (input w) o (ticks w) (drawn w).

(** A handshaker of type [A] and its world. *)
Abbreviation HsM A := (M (A * World) HandshakeError).

Section helpers.
Context `{BO : ByteOrder} `{EN : Environment} {A : Type}.

Definition on_input {B} (m : M Cursor ErrorKind B) : HsM A B :=
  map_err HandshakeIO (zoom (fun s => input s.2) (fun c s => (s.1, set_input c s.2)) m).

Definition on_output {B} (m : M (list byte) ErrorKind B) : HsM A B :=
  map_err HandshakeIO (zoom (fun s => output s.2) (fun o s => (s.1, set_output o s.2)) m).

Definition set_self (f : A -> A) : HsM A unit := modify (fun s => (f s.1, s.2)).

(** utils.rs: the low 32 bits of the time in nanoseconds. *)
Definition current_time : HsM A Z := fun '(a, w) =>
  (Ok (match clock (ticks w) with Some nanos => wrap 32 nanos | None => 0 end),
   (a, mkWorld (input w) (output w) (S (ticks w)) (drawn w))).

(** [rng.gen::<u8>()] *)
Definition gen : HsM A byte := fun '(a, w) =>
  (Ok (random (drawn w)), (a, mkWorld (input w) (output w) (ticks w) (S (drawn w)))).

(** [for _ in 0..n { writer.write_u8(rng.gen())?; }] on a local [Vec]. *)
Fixpoint gen_loop (n : nat) (writer : list byte) : HsM A (list byte) :=
  match n with
  | O => ret writer
  | S n => let* b := gen in gen_loop n (writer ++ [b])
  end.

(** The same loop on the output. *)
Definition write_random (n : nat) : HsM A unit :=
  let* s := get in
  let* writer := gen_loop n (output s.2) in
  modify (fun s => (s.1, set_output writer s.2)).

(** [Cursor::seek_relative] *)
Definition seek_relative (n : Z) : HsM A unit := on_input (Io.seek (Current n)) ;;; ret tt.

End helpers.

Module SimpleHandshakeServer.

Record t := mk {
  version : RtmpVersion;
  requested_version : RtmpVersion;
  state : ServerHandshakeState;
  c1_bytes : list byte;
  c1_timestamp : Z;
}.

Definition default : t := mk Unknown Unknown ReadC0C1 [] 0.

Definition set_state (s : ServerHandshakeState) (h : t) : t :=
  mk (version h) (requested_version h) s (c1_bytes h) (c1_timestamp h).

Section server.
Context `{BO : ByteOrder} `{EN : Environment}.

Definition read_c0 : HsM t unit :=
  let* requested := on_input read_u8 in
  set_self (fun h =>
    mk Version3 (if requested =? 3 then Version3 else Unknown) (state h) (c1_bytes h) (c1_timestamp h)).

Definition read_c1 : HsM t unit :=
  let* ts := on_input read_u32 in
  set_self (fun h => mk (version h) (requested_version h) (state h) (c1_bytes h) ts) ;;;
  on_input read_u32 ;;;
  let* bs := on_input (BytesCursorExt.extract_bytes (RTMP_HANDSHAKE_SIZE - TIME_VERSION_LENGTH)) in
  set_self (fun h => mk (version h) (requested_version h) (state h) bs (c1_timestamp h)).

Definition read_c2 : HsM t unit := seek_relative RTMP_HANDSHAKE_SIZE.

Definition write_s0 : HsM t unit :=
  let* s := get in on_output (write_u8 (version_discr (version s.1))).

Definition write_s1 : HsM t unit :=
  let* now := current_time in
  on_output (write_u32 now) ;;;
  on_output (write_u32 0) ;;;
  write_random 1528.

Definition write_s2 : HsM t unit :=
  let* s := get in
  on_output (write_u32 (c1_timestamp s.1)) ;;;
  let* now := current_time in
  on_output (write_u32 now) ;;;
  on_output (write_all (c1_bytes s.1)).

(** The loop of [handshake]: at most three turns follow each other. *)
Fixpoint handshake_loop (fuel : nat) : HsM t unit :=
  match fuel with
  | O => out_of_fuel
  | S fuel =>
      let* s := get in
      match state s.1 with
      | ReadC0C1 => read_c0 ;;; read_c1 ;;; set_self (set_state WriteS0S1S2) ;;; handshake_loop fuel
      | WriteS0S1S2 => write_s0 ;;; write_s1 ;;; write_s2 ;;; set_self (set_state ReadC2)
      | ReadC2 => read_c2 ;;; set_self (set_state Finish) ;;; handshake_loop fuel
      | Finish => ret tt
      end
  end.

Definition handshake : HsM t unit := handshake_loop 3.

End server.
End SimpleHandshakeServer.

Module ComplexHandshakeServer.

Record t := mk {
  version : RtmpVersion;
  requested_version : RtmpVersion;
  state : ServerHandshakeState;
  schema_version : SchemaVersion;
  c1_digest : list byte;
  c1_timestamp : Z;
  c1_version : Z;
}.

Definition default : t := mk Unknown Unknown ReadC0C1 Schema0 [] 0 0.

Definition set_state (s : ServerHandshakeState) (h : t) : t :=
  mk (version h) (requested_version h) s (schema_version h) (c1_digest h) (c1_timestamp h) (c1_version h).

Section server.
Context `{BO : ByteOrder} `{HM : HmacSha256} `{EN : Environment}.

Definition read_c0 : HsM t unit :=
  let* requested := on_input read_u8 in
  set_self (fun h => mk Version3 (if requested =? 3 then Version3 else Unknown) (state h) (schema_version h)
                       (c1_digest h) (c1_timestamp h) (c1_version h)).

(** [(&bytes[a..b]).read_u32::<BigEndian>()?] *)
Definition read_u32_of (a b : Z) (bytes : list byte) : HsM t Z :=
  let* part := unwrap (slice a b bytes) in
  lift (fst (map_err HandshakeIO read_u32 (cursor_new part))).

Definition read_c1 : HsM t unit :=
  let* c1_bytes := on_input (BytesCursorExt.extract_bytes RTMP_HANDSHAKE_SIZE) in
  let* ts := read_u32_of 0 4 c1_bytes in
  set_self (fun h => mk (version h) (requested_version h) (state h) (schema_version h) (c1_digest h) ts (c1_version h)) ;;;
  let* v := read_u32_of 4 8 c1_bytes in
  set_self (fun h => mk (version h) (requested_version h) (state h) (schema_version h) (c1_digest h) (c1_timestamp h) v) ;;;
  let data_digest := DigestProcessor.new c1_bytes RTMP_CLIENT_KEY_FIRST_HALF in
  let* (c1_digest_data, sv) := map_err Digest (DigestProcessor.read_digest data_digest) in
  set_self (fun h => mk (version h) (requested_version h) (state h) sv c1_digest_data (c1_timestamp h) (c1_version h)).

Definition read_c2 : HsM t unit := seek_relative RTMP_HANDSHAKE_SIZE.

Definition write_s0 : HsM t unit :=
  let* s := get in on_output (write_u8 (version_discr (version s.1))).

Definition write_s1 : HsM t unit :=
  let* now := current_time in
  let* writer := lift (match write_u32 now [] with (Ok _, w) => Ok w | (Err e, _) => Err (HandshakeIO e)
                       | (Panic, _) => Panic | (Fuel, _) => Fuel end) in
  let* writer := lift (match write_u32 RTMP_SERVER_VERSION writer with (Ok _, w) => Ok w
                       | (Err e, _) => Err (HandshakeIO e) | (Panic, _) => Panic | (Fuel, _) => Fuel end) in
  let* writer := gen_loop (Z.to_nat (RTMP_HANDSHAKE_SIZE - TIME_VERSION_LENGTH)) writer in
  let data_digest := DigestProcessor.new writer RTMP_SERVER_KEY_FIRST_HALF in
  let* s := get in
  let* (first, second, third) :=
    map_err Digest (DigestProcessor.generate_and_fill_digest data_digest (schema_version s.1)) in
  on_output (write_all first) ;;;
  on_output (write_all second) ;;;
  on_output (write_all third).

Definition write_s2 : HsM t unit :=
  let* s := get in
  let start := blen (output s.2) in
  let* now := current_time in
  on_output (write_u32 now) ;;;
  on_output (write_u32 (c1_timestamp s.1)) ;;;
  write_random (Z.to_nat (RTMP_HANDSHAKE_SIZE - RTMP_DIGEST_LENGTH - TIME_VERSION_LENGTH)) ;;;
  let key_digest := DigestProcessor.new [] RTMP_SERVER_KEY in
  let* key := map_err Digest (DigestProcessor.make_digest key_digest (c1_digest s.1) []) in
  let data_digest := DigestProcessor.new [] key in
  let* s := get in
  let* part := unwrap (slice start (start + RTMP_HANDSHAKE_SIZE - RTMP_DIGEST_LENGTH) (output s.2)) in
  let* digest := map_err Digest (DigestProcessor.make_digest data_digest part []) in
  on_output (write_all digest).

Fixpoint handshake_loop (fuel : nat) : HsM t unit :=
  match fuel with
  | O => out_of_fuel
  | S fuel =>
      let* s := get in
      match state s.1 with
      | ReadC0C1 => read_c0 ;;; read_c1 ;;; set_self (set_state WriteS0S1S2) ;;; handshake_loop fuel
      | WriteS0S1S2 => write_s0 ;;; write_s1 ;;; write_s2 ;;; set_self (set_state ReadC2)
      | ReadC2 => read_c2 ;;; set_self (set_state Finish) ;;; handshake_loop fuel
      | Finish => ret tt
      end
  end.

Definition handshake : HsM t unit := handshake_loop 3.

End server.
End ComplexHandshakeServer.

Module HandshakeServer.

Inductive t :=
| Simple (handshaker : SimpleHandshakeServer.t)
| Complex (handshaker : ComplexHandshakeServer.t).

Definition default : t := Complex ComplexHandshakeServer.default.

Definition state (self : t) : ServerHandshakeState :=
  match self with
  | Simple handshaker => SimpleHandshakeServer.state handshaker
  | Complex handshaker => ComplexHandshakeServer.state handshaker
  end.

Section server.
Context `{BO : ByteOrder} `{HM : HmacSha256} `{EN : Environment}.

(** The complex handshake; on its failure the input is rewound and a simple
    handshake takes over, which replaces the complex one once it succeeds. *)
Definition handshake : HsM t unit := fun '(self, w) =>
  match self with
  | Complex handshaker =>
      let position := Z.of_N (pos (input w)) in
      match ComplexHandshakeServer.handshake (handshaker, w) with
      | (Ok _, (handshaker, w)) => (Ok tt, (Complex handshaker, w))
      | (Err _, (handshaker, w)) =>
          let simple := SimpleHandshakeServer.default in
          match (on_input (Io.seek (Start position)) ;;; SimpleHandshakeServer.handshake) (simple, w) with
          | (Ok _, (simple, w)) => (Ok tt, (Simple simple, w))
          | (Err e, (_, w)) => (Err e, (Complex handshaker, w))
          | (Panic, (_, w)) => (Panic, (Complex handshaker, w))
          | (Fuel, (_, w)) => (Fuel, (Complex handshaker, w))
          end
      | (Panic, (handshaker, w)) => (Panic, (Complex handshaker, w))
      | (Fuel, (handshaker, w)) => (Fuel, (Complex handshaker, w))
      end
  | Simple handshaker =>
      let '(r, (handshaker, w)) := SimpleHandshakeServer.handshake (handshaker, w) in
      (r, (Simple handshaker, w))
  end.

End server.
End HandshakeServer.

(** ** Lemmas on digests *)

Module DigestLemmas.
Import DigestProcessor.

Section lemmas.
Context `{HM : HmacSha256} {S : Type}.

(** The byte at an index, and the place of the digest in 1536 bytes. *)
Definition at_ (data : list byte) (i : Z) : Z := b2z (default x00 (data !! Z.to_nat i)).

Definition digest_offset (data : list byte) (v : SchemaVersion) : Z :=
  (at_ data (schema_offset v) + at_ data (schema_offset v + 1) + at_ data (schema_offset v + 2)
    + at_ data (schema_offset v + 3)) `mod` 728 + schema_offset v + 4.

Lemma digest_offset_range data v :
  schema_offset v + 4 <= digest_offset data v < schema_offset v + 732 /\
  8 <= schema_offset v /\ digest_offset data v + 32 <= 1536.
Proof.
  unfold digest_offset. match goal with |- context [?x `mod` 728] =>
    pose proof (Z.mod_pos_bound x 728 ltac:(lia)) as Hm; revert Hm; generalize (x `mod` 728); intros m Hm end.
  assert (schema_offset v = 8 \/ schema_offset v = 772) as [-> | ->] by (destruct v; vm_compute; auto); lia.
Qed.

Lemma get_unwrap_ok data key i (s : S) : length data = 1536%nat -> 0 <= i < 1536 ->
  get_unwrap (new data key) i s = (Ok (at_ data i), s).
Proof.
  intros Hl Hi. unfold get_unwrap, at_. simpl.
  destruct (lookup_lt_is_Some_2 data (Z.to_nat i)) as [b ->]; [lia|done].
Qed.

Lemma find_digest_offset_ok data key v (s : S) : length data = 1536%nat ->
  find_digest_offset (new data key) v s = (Ok (digest_offset data v), s).
Proof.
  intros Hl. assert (0 <= schema_offset v < 800) as Hs by (destruct v; vm_compute; split; congruence).
  unfold find_digest_offset. cbv zeta.
  do 4 (mstep get_unwrap_ok; [|done|lia]). reflexivity.
Qed.

(** The three parts of a message. *)
Definition left_of (data : list byte) v := take (Z.to_nat (digest_offset data v)) data.
Definition digest_of (data : list byte) v := take 32 (drop (Z.to_nat (digest_offset data v)) data).
Definition right_of (data : list byte) v := drop (Z.to_nat (digest_offset data v) + 32) data.

Lemma parts data v : left_of data v ++ digest_of data v ++ right_of data v = data.
Proof. unfold left_of, digest_of, right_of. by rewrite <-drop_drop, take_drop, take_drop. Qed.

Lemma parts_length data v : length data = 1536%nat ->
  length (left_of data v) = Z.to_nat (digest_offset data v) /\ length (digest_of data v) = 32%nat /\
  (length (left_of data v) + 32 + length (right_of data v) = 1536)%nat.
Proof.
  intros Hl. pose proof (digest_offset_range data v) as (H1 & H2 & H3).
  unfold left_of, digest_of, right_of. rewrite !length_take, !length_drop. lia.
Qed.

Lemma cook_raw_message_ok data key v (s : S) : length data = 1536%nat ->
  cook_raw_message (new data key) v s = (Ok (left_of data v, digest_of data v, right_of data v), s).
Proof.
  intros Hl. pose proof (digest_offset_range data v) as (H1 & H2 & H3). unfold cook_raw_message.
  mstep find_digest_offset_ok; [|done]. simpl.
  assert (blen data = 1536) as Hb by (unfold blen; lia). unfold RTMP_DIGEST_LENGTH.
  set (off := digest_offset data v) in *. rewrite !slice_Some by lia. mret. mret. mret.
  assert (take (Z.to_nat (off - 0)) (drop (Z.to_nat 0) data) = left_of data v) as ->
    by (unfold left_of; by rewrite Z.sub_0_r).
  assert (take (Z.to_nat (off + 32 - off)) (drop (Z.to_nat off) data) = digest_of data v) as ->
    by (unfold digest_of; fold off; f_equal; lia).
  assert (take (Z.to_nat (blen data - (off + 32))) (drop (Z.to_nat (off + 32)) data) = right_of data v) as ->.
  { rewrite take_ge by (rewrite length_drop; lia). unfold right_of. fold off. f_equal. lia. }
  done.
Qed.

Lemma make_digest_ok data key l r (s : S) : make_digest (new data key) l r s = (Ok (hmac key (l ++ r)), s).
Proof. unfold make_digest. simpl. unfold blen. by rewrite hmac_length. Qed.

Lemma generate_and_validate_ok data key v (s : S) : length data = 1536%nat ->
  generate_and_validate (new data key) v s =
    ((if decide (digest_of data v = hmac key (left_of data v ++ right_of data v))
      then Ok (digest_of data v) else Err CannotGenerate), s).
Proof.
  intros Hl. unfold generate_and_validate. mstep cook_raw_message_ok; [|done]. cbv beta iota.
  mstep make_digest_ok. by destruct (decide _).
Qed.

Lemma generate_and_fill_digest_ok data key v (s : S) : length data = 1536%nat ->
  generate_and_fill_digest (new data key) v s =
    (Ok (left_of data v, hmac key (left_of data v ++ right_of data v), right_of data v), s).
Proof.
  intros Hl. unfold generate_and_fill_digest. mstep cook_raw_message_ok; [|done]. cbv beta iota.
  by mstep make_digest_ok.
Qed.

(** The message with its digest filled in. *)
Definition filled (key data : list byte) (v : SchemaVersion) : list byte :=
  left_of data v ++ hmac key (left_of data v ++ right_of data v) ++ right_of data v.

Lemma filled_length key data v : length data = 1536%nat -> length (filled key data v) = 1536%nat.
Proof.
  intros Hl. destruct (parts_length data v Hl) as (_ & _ & H). unfold filled.
  rewrite !length_app, hmac_length. lia.
Qed.

(** Filling the digest does not move it. *)
Lemma digest_offset_filled key data v : length data = 1536%nat ->
  digest_offset (filled key data v) v = digest_offset data v.
Proof.
  intros Hl. pose proof (digest_offset_range data v) as (H1 & H2 & H3).
  destruct (parts_length data v Hl) as (Hll & _ & _).
  assert (forall i, 0 <= i < digest_offset data v -> at_ (filled key data v) i = at_ data i) as Hat.
  { intros i Hi. unfold at_, filled. rewrite lookup_app_l by lia. unfold left_of.
    rewrite lookup_take_lt by lia. done. }
  unfold digest_offset at 1. rewrite !Hat by lia. done.
Qed.

Lemma filled_parts key data v : length data = 1536%nat ->
  left_of (filled key data v) v = left_of data v /\
  digest_of (filled key data v) v = hmac key (left_of data v ++ right_of data v) /\
  right_of (filled key data v) v = right_of data v.
Proof.
  intros Hl. destruct (parts_length data v Hl) as (Hll & _ & _).
  unfold left_of at 1, digest_of, right_of at 2. rewrite digest_offset_filled by done. rewrite <-Hll.
  unfold filled. split; [by rewrite take_app_length|]. split.
  - rewrite drop_app_length, take_app_le, take_ge; [done| |]; rewrite hmac_length; lia.
  - rewrite <-drop_drop, drop_app_length.
    rewrite drop_app_ge by (rewrite hmac_length; lia). by rewrite hmac_length, Nat.sub_diag.
Qed.

Lemma generate_and_validate_filled key data v (s : S) : length data = 1536%nat ->
  generate_and_validate (new (filled key data v) key) v s
    = (Ok (hmac key (left_of data v ++ right_of data v)), s).
Proof.
  intros Hl. rewrite generate_and_validate_ok by by apply filled_length.
  destruct (filled_parts key data v Hl) as (-> & -> & ->). by rewrite decide_True.
Qed.

(** The outcome of [read_digest]. *)
Definition accepted (data key : list byte) : option (list byte * SchemaVersion) :=
  let ok v := bool_decide (digest_of data v = hmac key (left_of data v ++ right_of data v)) in
  if ok Schema0 then Some (digest_of data Schema0, Schema0)
  else if ok Schema1 then Some (digest_of data Schema1, Schema1) else None.

Lemma read_digest_ok data key (s : S) : length data = 1536%nat ->
  read_digest (new data key) s =
    (match accepted data key with Some r => Ok r | None => Err CannotGenerate end, s).
Proof.
  intros Hl. unfold read_digest, accepted, bind. rewrite !generate_and_validate_ok by done.
  destruct (decide (digest_of data Schema0 = _)) as [H0|H0].
  - by rewrite bool_decide_true.
  - rewrite bool_decide_false by done. destruct (decide (digest_of data Schema1 = _)) as [H1|H1].
    + by rewrite bool_decide_true.
    + by rewrite bool_decide_false.
Qed.

End lemmas.
End DigestLemmas.

(** ** Lemmas on the state machines *)

Module HandshakeLemmas.
Import DigestLemmas.

Section helpers.
Context `{BO : ByteOrder} `{EN : Environment} {A : Type}.

Lemma on_input_ok {B} (m : M Cursor ErrorKind B) (a : A) i o t d b c :
  m i = (Ok b, c) -> on_input m (a, mkWorld i o t d) = (Ok b, (a, mkWorld c o t d)).
Proof. intros Hm. unfold on_input. apply map_err_ok. erewrite zoom_ok; [reflexivity|exact Hm]. Qed.

Lemma on_input_err {B} (m : M Cursor ErrorKind B) (a : A) i o t d e c :
  m i = (Err e, c) -> on_input m (a, mkWorld i o t d) = (Err (HandshakeIO e), (a, mkWorld c o t d)).
Proof. intros Hm. unfold on_input. apply map_err_err. erewrite zoom_err; [reflexivity|exact Hm]. Qed.

Lemma on_output_ok {B} (m : M (list byte) ErrorKind B) (a : A) i o t d b o' :
  m o = (Ok b, o') -> on_output m (a, mkWorld i o t d) = (Ok b, (a, mkWorld i o' t d)).
Proof. intros Hm. unfold on_output. apply map_err_ok. erewrite zoom_ok; [reflexivity|exact Hm]. Qed.

Lemma out_uint n z (a : A) i o t d : 0 <= z < 256 ^ Z.of_nat n ->
  on_output (write_uint BigEndian n z) (a, mkWorld i o t d) = (Ok tt, (a, mkWorld i (o ++ be_bytes n z) t d)).
Proof. intros Hz. apply on_output_ok. by apply write_uint_be. Qed.

Lemma out_all bs (a : A) i o t d :
  on_output (write_all bs) (a, mkWorld i o t d) = (Ok tt, (a, mkWorld i (o ++ bs) t d)).
Proof. by apply on_output_ok. Qed.

(** The [n]-th clock reading, and [n] random bytes from the [k]-th on. *)
Definition now (n : nat) : Z := match clock n with Some nanos => wrap 32 nanos | None => 0 end.
Definition randoms (k n : nat) : list byte := map random (seq k n).

Lemma now_range n : 0 <= now n < 256 ^ Z.of_nat 4.
Proof.
  unfold now, wrap. change (256 ^ Z.of_nat 4) with (2 ^ 32).
  destruct (clock n); [apply Z.mod_pos_bound|]; lia.
Qed.

Lemma length_randoms k n : length (randoms k n) = n.
Proof. unfold randoms. by rewrite length_map, length_seq. Qed.

Lemma gen_loop_ok n : forall bs (a : A) i o t d,
  gen_loop n bs (a, mkWorld i o t d) = (Ok (bs ++ randoms d n), (a, mkWorld i o t (d + n))).
Proof.
  induction n as [|n IH]; intros bs a i o t d; cbn [gen_loop].
  - unfold ret, randoms. simpl. by rewrite app_nil_r, Nat.add_0_r.
  - erewrite bind_ok; [|reflexivity]. cbn [input output ticks drawn]. rewrite IH.
    unfold randoms. cbn [seq map]. rewrite <-(assoc_L (++)). by rewrite <-Nat.add_succ_comm.
Qed.

Lemma write_random_ok n (a : A) i o t d :
  write_random n (a, mkWorld i o t d) = (Ok tt, (a, mkWorld i (o ++ randoms d n) t (d + n))).
Proof. unfold write_random. mret. erewrite bind_ok; [|apply gen_loop_ok]. done. Qed.

Lemma current_time_ok (a : A) i o t d :
  current_time (a, mkWorld i o t d) = (Ok (now t), (a, mkWorld i o (S t) d)).
Proof. done. Qed.

Lemma seek_relative_ok (a : A) i o t d n : 0 <= n -> Z.of_N (pos i) + n < 2 ^ 64 ->
  seek_relative n (a, mkWorld i o t d)
    = (Ok tt, (a, mkWorld (mkCursor (inner i) (pos i + Z.to_N n)) o t d)).
Proof.
  intros Hn Hf. unfold seek_relative. erewrite bind_ok; cycle 1.
  { apply on_input_ok. simpl. unfold cursor_seek. rewrite decide_True by (unfold fits; lia). reflexivity. }
  unfold ret. do 4 f_equal. lia.
Qed.

End helpers.

Section servers.
Context `{BO : ByteOrder} `{HM : HmacSha256} `{EN : Environment}.

Lemma blen_1536 (bs : list byte) : length bs = 1536%nat -> blen bs = 1536.
Proof. unfold blen. lia. Qed.

(** The parts of C1. *)
Lemma c1_parts (c1 : list byte) : length c1 = 1536%nat ->
  exists ts zero body, c1 = ts ++ zero ++ body /\ length ts = 4%nat /\ length zero = 4%nat /\
    length body = 1528%nat /\ ts = take 4 c1 /\ body = drop 8 c1.
Proof.
  intros Hl. exists (take 4 c1), (take 4 (drop 4 c1)), (drop 8 c1).
  split; [change 8%nat with (4 + 4)%nat; by rewrite <-drop_drop, take_drop, take_drop|].
  rewrite !length_take, !length_drop. repeat split; lia.
Qed.

Lemma bind_assoc {S E X Y Z'} (m : M S E X) (f : X -> M S E Y) (g : Y -> M S E Z') s :
  bind m (fun x => bind (f x) g) s = bind (bind m f) g s.
Proof. unfold bind. by destruct (m s) as [[] ?]. Qed.

(** *** The simple handshake *)

Definition simple_s1 (t d : nat) : list byte := be_bytes 4 (now t) ++ be_bytes 4 0 ++ randoms d 1528.
Definition simple_s2 (t : nat) (c1 : list byte) : list byte :=
  take 4 c1 ++ be_bytes 4 (now (S t)) ++ drop 8 c1.

Lemma simple_read pre c0 c1 post o t d : length c1 = 1536%nat ->
  (SimpleHandshakeServer.read_c0 ;;; SimpleHandshakeServer.read_c1)
    (SimpleHandshakeServer.default, mkWorld (at_pos pre (c0 :: c1 ++ post)) o t d) =
  (Ok tt, (SimpleHandshakeServer.mk Version3 (if be_val [c0] =? 3 then Version3 else Unknown) ReadC0C1
     (drop 8 c1) (be_val (take 4 c1)), mkWorld (at_pos (pre ++ c0 :: c1) post) o t d)).
Proof.
  intros Hl. destruct (c1_parts c1 Hl) as (ts & zero & body & -> & Hts & Hz & Hb & <- & <-).
  erewrite bind_ok; cycle 1.
  { unfold SimpleHandshakeServer.read_c0. erewrite bind_ok; cycle 1.
    { apply on_input_ok. apply (read_uint_be_at pre [c0]). done. }
    reflexivity. }
  unfold SimpleHandshakeServer.read_c1. rewrite <-!(assoc_L (++)). erewrite bind_ok; cycle 1.
  { apply on_input_ok. by apply read_uint_be_at. }
  mret. erewrite bind_ok; cycle 1.
  { apply on_input_ok. by apply read_uint_be_at. }
  erewrite bind_ok; cycle 1.
  { apply on_input_ok. apply BytesCursorExt.extract_bytes_at. unfold blen. rewrite Hb. reflexivity. }
  unfold set_self, modify. cbn. by rewrite <-!(assoc_L (++)).
Qed.

Lemma simple_write rq body ts i o t d : fits 32 ts ->
  ((SimpleHandshakeServer.write_s0 ;;; SimpleHandshakeServer.write_s1) ;;; SimpleHandshakeServer.write_s2)
    (SimpleHandshakeServer.mk Version3 rq WriteS0S1S2 body ts, mkWorld i o t d) =
  (Ok tt, (SimpleHandshakeServer.mk Version3 rq WriteS0S1S2 body ts,
    mkWorld i (o ++ [x03] ++ simple_s1 t d ++ be_bytes 4 ts ++ be_bytes 4 (now (S t)) ++ body) (S (S t)) (d + 1528))).
Proof.
  intros Hts. rewrite <-bind_assoc. erewrite bind_ok; cycle 1.
  { unfold SimpleHandshakeServer.write_s0. mret. by apply out_uint. }
  erewrite bind_ok; cycle 1.
  { unfold SimpleHandshakeServer.write_s1. erewrite bind_ok; [|apply current_time_ok].
    erewrite bind_ok; [|apply out_uint, now_range]. erewrite bind_ok; [|by apply out_uint].
    apply write_random_ok. }
  unfold SimpleHandshakeServer.write_s2. mret. erewrite bind_ok; [|by apply out_uint].
  erewrite bind_ok; [|apply current_time_ok]. erewrite bind_ok; [|apply out_uint, now_range].
  rewrite out_all. change (be_bytes 1 _) with [x03]. unfold simple_s1. by rewrite <-!(assoc_L (++)).
Qed.

Lemma ts_fits c1 : length c1 = 1536%nat -> fits 32 (be_val (take 4 c1)).
Proof.
  intros Hl. pose proof (be_val_range (take 4 c1)) as Hr. unfold blen in Hr.
  rewrite length_take, Hl in Hr. exact Hr.
Qed.

Lemma simple_first pre c0 c1 post o t d : length c1 = 1536%nat ->
  exists h, SimpleHandshakeServer.handshake
      (SimpleHandshakeServer.default, mkWorld (at_pos pre (c0 :: c1 ++ post)) o t d) =
    (Ok tt, (h, mkWorld (at_pos (pre ++ c0 :: c1) post)
       (o ++ [x03] ++ simple_s1 t d ++ simple_s2 t c1) (S (S t)) (d + 1528))) /\
    SimpleHandshakeServer.state h = ReadC2.
Proof.
  intros Hl.
  assert (simple_s2 t c1 = be_bytes 4 (be_val (take 4 c1)) ++ be_bytes 4 (now (S t)) ++ drop 8 c1) as ->.
  { unfold simple_s2. by rewrite be_bytes_be_val by (rewrite length_take; lia). }
  unfold SimpleHandshakeServer.handshake. cbn [SimpleHandshakeServer.handshake_loop]. mret.
  cbn [SimpleHandshakeServer.state SimpleHandshakeServer.default fst].
  rewrite bind_assoc. mstep simple_read; [|done]. mret. mret.
  cbn [SimpleHandshakeServer.state SimpleHandshakeServer.set_state fst].
  rewrite bind_assoc, bind_assoc.
  erewrite bind_ok; [|by apply simple_write, ts_fits]. eexists. split.
  - reflexivity.
  - reflexivity.
Qed.

(** *** The complex handshake *)

Definition complex_s1 (t d : nat) (v : SchemaVersion) : list byte :=
  filled RTMP_SERVER_KEY_FIRST_HALF
    (be_bytes 4 (now t) ++ be_bytes 4 RTMP_SERVER_VERSION ++ randoms d 1528) v.
Definition complex_s2_body (t d : nat) (ts : Z) : list byte :=
  be_bytes 4 (now t) ++ be_bytes 4 ts ++ randoms d 1496.
Definition complex_s2 (t d : nat) (ts : Z) (dg : list byte) : list byte :=
  complex_s2_body t d ts ++ hmac (hmac RTMP_SERVER_KEY dg) (complex_s2_body t d ts).

Lemma length_raw_s1 t d : length (be_bytes 4 (now t) ++ be_bytes 4 RTMP_SERVER_VERSION ++ randoms d 1528) = 1536%nat.
Proof. by rewrite !length_app, !length_be_bytes, length_randoms. Qed.

Lemma length_s2_body t d ts : length (complex_s2_body t d ts) = 1504%nat.
Proof. unfold complex_s2_body. by rewrite !length_app, !length_be_bytes, length_randoms. Qed.

Lemma read_u32_of_ok a b bs part (s : ComplexHandshakeServer.t * World) :
  slice a b bs = Some part -> length part = 4%nat ->
  ComplexHandshakeServer.read_u32_of a b bs s = (Ok (be_val part), s).
Proof.
  intros Hs Hl. unfold ComplexHandshakeServer.read_u32_of. rewrite Hs. mret.
  pose proof (read_uint_be_at [] part [] 4 Hl) as Hr. rewrite app_nil_r in Hr.
  change (cursor_new part) with (at_pos [] part).
  by rewrite (map_err_ok HandshakeIO _ _ _ _ Hr).
Qed.

Lemma complex_read pre c0 c1 post o t d : length c1 = 1536%nat ->
  exists rq, exists h, (ComplexHandshakeServer.read_c0 ;;; ComplexHandshakeServer.read_c1)
    (ComplexHandshakeServer.default, mkWorld (at_pos pre (c0 :: c1 ++ post)) o t d) =
  match accepted c1 RTMP_CLIENT_KEY_FIRST_HALF with
  | Some (dg, v) => (Ok tt, (ComplexHandshakeServer.mk Version3 rq ReadC0C1 v dg
      (be_val (take 4 c1)) (be_val (take 4 (drop 4 c1))), mkWorld (at_pos (pre ++ c0 :: c1) post) o t d))
  | None => (Err (Digest CannotGenerate), (h, mkWorld (at_pos (pre ++ c0 :: c1) post) o t d))
  end.
Proof.
  intros Hl. exists (if be_val [c0] =? 3 then Version3 else Unknown). eexists.
  erewrite bind_ok; cycle 1.
  { unfold ComplexHandshakeServer.read_c0. erewrite bind_ok; cycle 1.
    { apply on_input_ok. apply (read_uint_be_at pre [c0]). done. }
    reflexivity. }
  unfold ComplexHandshakeServer.read_c1. erewrite bind_ok; cycle 1.
  { apply on_input_ok. apply BytesCursorExt.extract_bytes_at. by rewrite blen_1536. }
  rewrite <-(assoc_L (++)). cbn [app].
  pose proof (blen_1536 c1 Hl) as Hb.
  erewrite bind_ok; [|apply (read_u32_of_ok _ _ _ (take 4 c1)); [by rewrite slice_Some by lia|rewrite length_take; lia]].
  mret.
  erewrite bind_ok; [|apply (read_u32_of_ok _ _ _ (take 4 (drop 4 c1)));
    [by rewrite slice_Some by lia|rewrite length_take, length_drop; lia]].
  mret. unfold bind, map_err. rewrite read_digest_ok by done.
  destruct (accepted c1 RTMP_CLIENT_KEY_FIRST_HALF) as [[dg v]|]; reflexivity.
Qed.

Lemma complex_write_s1 h i o t d :
  ComplexHandshakeServer.write_s1 (h, mkWorld i o t d) =
  (Ok tt, (h, mkWorld i (o ++ complex_s1 t d (ComplexHandshakeServer.schema_version h)) (S t) (d + 1528))).
Proof.
  unfold ComplexHandshakeServer.write_s1. erewrite bind_ok; [|apply current_time_ok].
  rewrite write_uint_be by apply now_range. mret. rewrite write_uint_be by done. mret.
  change (Z.to_nat (RTMP_HANDSHAKE_SIZE - TIME_VERSION_LENGTH)) with 1528%nat.
  erewrite bind_ok; [|apply gen_loop_ok]. mret. rewrite app_nil_l, <-(assoc_L (++)).
  erewrite bind_ok; [|apply map_err_ok, generate_and_fill_digest_ok, length_raw_s1]. cbv beta iota.
  erewrite bind_ok; [|apply out_all]. erewrite bind_ok; [|apply out_all]. rewrite out_all.
  by rewrite <-!(assoc_L (++)).
Qed.

Lemma complex_write_s2 h i o t d : fits 32 (ComplexHandshakeServer.c1_timestamp h) ->
  ComplexHandshakeServer.write_s2 (h, mkWorld i o t d) =
  (Ok tt, (h, mkWorld i (o ++ complex_s2 t d (ComplexHandshakeServer.c1_timestamp h)
     (ComplexHandshakeServer.c1_digest h)) (S t) (d + 1496))).
Proof.
  intros Hts. unfold ComplexHandshakeServer.write_s2. mret. cbn [fst snd output].
  set (ts := ComplexHandshakeServer.c1_timestamp h) in *.
  change (Z.to_nat (RTMP_HANDSHAKE_SIZE - RTMP_DIGEST_LENGTH - TIME_VERSION_LENGTH)) with 1496%nat.
  erewrite bind_ok; [|apply current_time_ok]. erewrite bind_ok; [|apply out_uint, now_range].
  erewrite bind_ok; [|by apply out_uint]. erewrite bind_ok; [|apply write_random_ok].
  erewrite bind_ok; [|apply map_err_ok, make_digest_ok]. mret. cbn [snd output].
  rewrite <-!(assoc_L (++)). fold (complex_s2_body t d ts).
  assert (slice (blen o) (blen o + RTMP_HANDSHAKE_SIZE - RTMP_DIGEST_LENGTH) (o ++ complex_s2_body t d ts)
    = Some (complex_s2_body t d ts)) as ->.
  { rewrite <-(app_nil_r (complex_s2_body t d ts)) at 1. apply slice_app; [done|].
    unfold blen at 3. rewrite length_s2_body. unfold RTMP_HANDSHAKE_SIZE, RTMP_DIGEST_LENGTH. lia. }
  mret. erewrite bind_ok; [|apply map_err_ok, make_digest_ok]. rewrite out_all.
  rewrite !app_nil_r. unfold complex_s2. by rewrite <-(assoc_L (++)).
Qed.

Lemma complex_first pre c0 c1 post o t d : length c1 = 1536%nat ->
  exists h, ComplexHandshakeServer.handshake
      (ComplexHandshakeServer.default, mkWorld (at_pos pre (c0 :: c1 ++ post)) o t d) =
    match accepted c1 RTMP_CLIENT_KEY_FIRST_HALF with
    | Some (dg, v) => (Ok tt, (h, mkWorld (at_pos (pre ++ c0 :: c1) post)
       (o ++ [x03] ++ complex_s1 t d v ++ complex_s2 (S t) (d + 1528) (be_val (take 4 c1)) dg)
       (S (S t)) (d + 1528 + 1496)))
    | None => (Err (Digest CannotGenerate), (h, mkWorld (at_pos (pre ++ c0 :: c1) post) o t d))
    end /\
    (accepted c1 RTMP_CLIENT_KEY_FIRST_HALF <> None -> ComplexHandshakeServer.state h = ReadC2).
Proof.
  intros Hl. unfold ComplexHandshakeServer.handshake. cbn [ComplexHandshakeServer.handshake_loop].
  destruct (complex_read pre c0 c1 post o t d Hl) as (rq & h & Hr).
  destruct (accepted c1 RTMP_CLIENT_KEY_FIRST_HALF) as [[dg v]|].
  - eexists. split; [|intros _].
    + mret. cbn [ComplexHandshakeServer.state ComplexHandshakeServer.default fst].
      rewrite bind_assoc. mstep Hr. mret. mret.
      cbn [ComplexHandshakeServer.state ComplexHandshakeServer.set_state fst].
      erewrite bind_ok; cycle 1.
      { unfold ComplexHandshakeServer.write_s0. mret. by apply out_uint. }
      erewrite bind_ok; [|apply complex_write_s1].
      erewrite bind_ok; [|by apply complex_write_s2, ts_fits].
      unfold set_self, modify. rewrite <-!(assoc_L (++)). reflexivity.
    + reflexivity.
  - exists h. split; [|done]. mret. cbn [ComplexHandshakeServer.state ComplexHandshakeServer.default fst].
    rewrite bind_assoc. by erewrite bind_err.
Qed.

(** *** Short input, and the second round *)

Lemma complex_short pre post o t d : (length post < 1537)%nat ->
  exists h c, ComplexHandshakeServer.handshake (ComplexHandshakeServer.default, mkWorld (at_pos pre post) o t d)
    = (Err (HandshakeIO UnexpectedEof), (h, mkWorld c o t d)) /\ inner c = pre ++ post /\
    ComplexHandshakeServer.state h = ReadC0C1.
Proof.
  intros Hl. unfold ComplexHandshakeServer.handshake. cbn [ComplexHandshakeServer.handshake_loop].
  destruct post as [|b post].
  - eexists _, _. split; [|split].
    + mret. cbn [ComplexHandshakeServer.state ComplexHandshakeServer.default fst].
      apply bind_err. apply bind_err. apply on_input_err. apply read_uint_eof. simpl. lia.
    + simpl. by rewrite !app_nil_r.
    + reflexivity.
  - eexists _, _. split; [|split].
    + mret. cbn [ComplexHandshakeServer.state ComplexHandshakeServer.default fst].
      erewrite bind_ok; cycle 1.
      { unfold ComplexHandshakeServer.read_c0. erewrite bind_ok; cycle 1.
        { apply on_input_ok. apply (read_uint_be_at pre [b]). done. }
        reflexivity. }
      apply bind_err. apply bind_err. apply on_input_err. apply BytesCursorExt.extract_bytes_eof.
      unfold blen, RTMP_HANDSHAKE_SIZE. simpl in Hl. lia.
    + simpl. by rewrite <-(assoc_L (++)).
    + reflexivity.
Qed.

Lemma simple_short pre post o t d : (length post < 1537)%nat ->
  exists h c, SimpleHandshakeServer.handshake (SimpleHandshakeServer.default, mkWorld (at_pos pre post) o t d)
    = (Err (HandshakeIO UnexpectedEof), (h, mkWorld c o t d)).
Proof.
  intros Hl. unfold SimpleHandshakeServer.handshake. cbn [SimpleHandshakeServer.handshake_loop].
  destruct post as [|b post].
  { eexists _, _. mret. cbn [SimpleHandshakeServer.state SimpleHandshakeServer.default fst].
    apply bind_err. apply bind_err. apply on_input_err. apply read_uint_eof. simpl. lia. }
  simpl in Hl.
  assert (exists h c, SimpleHandshakeServer.read_c1
    (SimpleHandshakeServer.mk Version3 (if be_val [b] =? 3 then Version3 else Unknown) ReadC0C1 [] 0,
     mkWorld (at_pos (pre ++ [b]) post) o t d)
    = (Err (HandshakeIO UnexpectedEof), (h, mkWorld c o t d))) as (h & c & Hc).
  { unfold SimpleHandshakeServer.read_c1.
    destruct (read_uint_cases BigEndian (pre ++ [b]) post 4) as [(ts & post1 & -> & Hts & Hr1)|[_ Hr1]];
      [|eexists _, _; apply bind_err, on_input_err; exact Hr1].
    erewrite bind_ok; [|apply on_input_ok; exact Hr1]. mret.
    destruct (read_uint_cases BigEndian ((pre ++ [b]) ++ ts) post1 4) as [(z & post2 & -> & Hz & Hr2)|[_ Hr2]];
      [|eexists _, _; apply bind_err, on_input_err; exact Hr2].
    erewrite bind_ok; [|apply on_input_ok; exact Hr2]. eexists _, _. apply bind_err, on_input_err.
    apply BytesCursorExt.extract_bytes_eof. rewrite !length_app in Hl.
    unfold blen, RTMP_HANDSHAKE_SIZE, TIME_VERSION_LENGTH. lia. }
  exists h, c. mret. cbn [SimpleHandshakeServer.state SimpleHandshakeServer.default fst].
  erewrite bind_ok; cycle 1.
  { unfold SimpleHandshakeServer.read_c0. erewrite bind_ok; cycle 1.
    { apply on_input_ok. apply (read_uint_be_at pre [b]). done. }
    reflexivity. }
  by apply bind_err.
Qed.

(** A server that waits for C2 takes the next 1536 bytes, whatever they are
    and whether they are there or not. *)
Lemma handshake_second h i o t d : HandshakeServer.state h = ReadC2 ->
  Z.of_N (pos i) + RTMP_HANDSHAKE_SIZE < 2 ^ 64 ->
  exists h', HandshakeServer.handshake (h, mkWorld i o t d) =
    (Ok tt, (h', mkWorld (mkCursor (inner i) (pos i + 1536)) o t d)) /\ HandshakeServer.state h' = Finish.
Proof.
  intros Hs Hp. destruct h as [h|h]; simpl in Hs.
  - assert (SimpleHandshakeServer.handshake (h, mkWorld i o t d) =
      (Ok tt, (SimpleHandshakeServer.set_state Finish h, mkWorld (mkCursor (inner i) (pos i + 1536)) o t d))) as Hh.
    { unfold SimpleHandshakeServer.handshake. cbn [SimpleHandshakeServer.handshake_loop]. mret. cbn [fst].
      rewrite Hs. erewrite bind_ok; [|by apply seek_relative_ok]. reflexivity. }
    eexists. unfold HandshakeServer.handshake. rewrite Hh. by split.
  - assert (ComplexHandshakeServer.handshake (h, mkWorld i o t d) =
      (Ok tt, (ComplexHandshakeServer.set_state Finish h, mkWorld (mkCursor (inner i) (pos i + 1536)) o t d))) as Hh.
    { unfold ComplexHandshakeServer.handshake. cbn [ComplexHandshakeServer.handshake_loop]. mret. cbn [fst].
      rewrite Hs. erewrite bind_ok; [|by apply seek_relative_ok]. reflexivity. }
    eexists. unfold HandshakeServer.handshake. rewrite Hh. by split.
Qed.

End servers.
End HandshakeLemmas.

(** ** Properties *)

Module HandshakeProps.
Import DigestProcessor DigestLemmas HandshakeLemmas.

Section props.
Context `{BO : ByteOrder} `{HM : HmacSha256} `{EN : Environment}.

(** C36. Digests: on every 1536-byte message and for both schemas the digest
    lies inside the message (nothing panics), the digest that is filled in
    replaces 32 bytes and validates afterwards under the same key and schema,
    [read_digest] then accepts the message, and whatever [read_digest]
    accepts contains the HMAC of the rest of the message. *)
Theorem digest_fill_validates (data key : list byte) (v : SchemaVersion) (Hl : length data = 1536%nat) :
  (exists l dg r, fst (generate_and_fill_digest (new data key) v tt) = Ok (l, dg, r) /\
    length (l ++ dg ++ r) = 1536%nat /\
    fst (generate_and_validate (new (l ++ dg ++ r) key) v tt) = Ok dg /\
    exists dg' v', fst (read_digest (new (l ++ dg ++ r) key) tt) = Ok (dg', v') /\
      (v = Schema0 -> dg' = dg /\ v' = Schema0)) /\
  match fst (read_digest (new data key) tt) with
  | Ok (dg, _) => exists l r, data = l ++ dg ++ r /\ dg = hmac key (l ++ r)
  | Err e => e = CannotGenerate
  | _ => False
  end.
Proof.
  split.
  - eexists _, _, _. rewrite generate_and_fill_digest_ok by done. split; [reflexivity|].
    fold (filled key data v). split; [by apply filled_length|].
    rewrite generate_and_validate_filled by done. split; [done|].
    rewrite read_digest_ok by by apply filled_length. destruct (filled_parts key data v Hl) as (E1 & E2 & E3).
    unfold accepted. destruct v; rewrite ?E1, ?E2, ?E3.
    + rewrite (bool_decide_true _ eq_refl). eexists _, _. by split.
    + destruct (bool_decide _); [eexists _, _; by split|].
      rewrite (bool_decide_true _ eq_refl). eexists _, _. by split.
  - rewrite read_digest_ok by done. unfold accepted.
    case_bool_decide as H0; [|case_bool_decide as H1; [|done]]; cbn [fst].
    + exists (left_of data Schema0), (right_of data Schema0). split; [by rewrite parts|done].
    + exists (left_of data Schema1), (right_of data Schema1). split; [by rewrite parts|done].
Qed.

(** The first round on any C0 and C1: the server answers with version 3
    and 2 * 1536 bytes, has consumed exactly C0 and C1, and waits for C2.
    When C1 carries a digest, the complex handshake is used: S1 carries a
    digest that validates under the server key in the client's schema, and S2
    ends in the HMAC of the rest of S2 under the key derived from the C1
    digest; otherwise the simple handshake echoes the time and the random
    bytes of C1 in S2. *)
Theorem handshake_first_round (pre : list byte) (c0 : byte) (c1 post o : list byte) (t d : nat)
    (Hl : length c1 = 1536%nat) :
  exists h s1 s2 t' d',
    HandshakeServer.handshake (HandshakeServer.default, mkWorld (at_pos pre (c0 :: c1 ++ post)) o t d)
      = (Ok tt, (h, mkWorld (at_pos (pre ++ c0 :: c1) post) (o ++ [x03] ++ s1 ++ s2) t' d')) /\
    HandshakeServer.state h = ReadC2 /\ length s1 = 1536%nat /\ length s2 = 1536%nat /\
    match fst (read_digest (new c1 RTMP_CLIENT_KEY_FIRST_HALF) tt) with
    | Ok (dg, v) =>
        (exists sdg, fst (generate_and_validate (new s1 RTMP_SERVER_KEY_FIRST_HALF) v tt) = Ok sdg) /\
        drop 1504 s2 = hmac (hmac RTMP_SERVER_KEY dg) (take 1504 s2)
    | _ => take 4 s2 = take 4 c1 /\ drop 8 s2 = drop 8 c1
    end.
Proof.
  rewrite read_digest_ok by done. destruct (complex_first pre c0 c1 post o t d Hl) as (h & Hh & Hst).
  unfold HandshakeServer.handshake, HandshakeServer.default. rewrite Hh.
  destruct (accepted c1 RTMP_CLIENT_KEY_FIRST_HALF) as [[dg v]|]; cbn [fst].
  - eexists _, _, _, _, _. split; [reflexivity|]. split; [by apply Hst|].
    split; [apply filled_length, length_raw_s1|].
    split; [unfold complex_s2; by rewrite length_app, length_s2_body, hmac_length|]. split.
    + eexists. unfold complex_s1. by rewrite generate_and_validate_filled by apply length_raw_s1.
    + unfold complex_s2. rewrite <-(length_s2_body (S t) (d + 1528) (be_val (take 4 c1))).
      by rewrite drop_app_length, take_app_length.
  - cbn [input]. assert (Z.of_N (pos (at_pos pre (c0 :: c1 ++ post))) = blen pre) as ->
      by (simpl; unfold blen; lia).
    destruct (simple_first pre c0 c1 post o t d Hl) as (h' & Hh' & Hst').
    erewrite (bind_ok (on_input _)); cycle 1.
    { apply on_input_ok. apply (seek_start_at pre (c0 :: c1 ++ post)). simpl. by rewrite <-(assoc_L (++)). }
    rewrite Hh'. assert (length (take 4 c1) = 4%nat) as H4 by (rewrite length_take; lia).
    eexists _, _, _, _, _. split; [reflexivity|]. split; [done|].
    split; [unfold simple_s1; by rewrite !length_app, !length_be_bytes, length_randoms|].
    unfold simple_s2. split; [rewrite !length_app, length_be_bytes, H4, length_drop; lia|]. split.
    + rewrite <-H4 at 1. by rewrite take_app_length.
    + rewrite (assoc_L (++)). rewrite drop_app_ge by (rewrite length_app, length_be_bytes; lia).
      by rewrite length_app, length_be_bytes, H4.
Qed.

(** The rest of the handshake: with fewer than 1537 bytes the first
    round fails with an end-of-file error and sends nothing, the server still
    waiting for C0 and C1; a server that waits for C2 finishes in one more
    round without sending anything and without looking at the bytes; a
    finished one stays finished. *)
Theorem handshake_rounds (pre post o : list byte) (t d : nat) (h : HandshakeServer.t) (i : Cursor)
    (Hshort : (length post < 1537)%nat) (Hp : Z.of_N (pos i) + RTMP_HANDSHAKE_SIZE < 2 ^ 64) :
  (exists h' c, HandshakeServer.handshake (HandshakeServer.default, mkWorld (at_pos pre post) o t d)
      = (Err (HandshakeIO UnexpectedEof), (h', mkWorld c o t d)) /\ HandshakeServer.state h' = ReadC0C1) /\
  (HandshakeServer.state h = ReadC2 -> exists h', HandshakeServer.handshake (h, mkWorld i o t d)
      = (Ok tt, (h', mkWorld (mkCursor (inner i) (pos i + 1536)) o t d)) /\ HandshakeServer.state h' = Finish) /\
  (HandshakeServer.state h = Finish -> HandshakeServer.handshake (h, mkWorld i o t d) = (Ok tt, (h, mkWorld i o t d))).
Proof.
  split; [|split].
  - destruct (complex_short pre post o t d Hshort) as (h' & c & Hh & Hc & Hst).
    unfold HandshakeServer.handshake, HandshakeServer.default. rewrite Hh. cbn [input].
    assert (Z.of_N (pos (at_pos pre post)) = blen pre) as -> by (simpl; unfold blen; lia).
    destruct (simple_short pre post o t d Hshort) as (h2 & c2 & Hh2).
    erewrite (bind_ok (on_input _)); [|apply on_input_ok, seek_start_at; exact Hc].
    rewrite Hh2. eexists _, _. by split.
  - intros Hs. by apply handshake_second.
  - intros Hs. destruct h as [h|h]; simpl in Hs; unfold HandshakeServer.handshake,
      SimpleHandshakeServer.handshake, ComplexHandshakeServer.handshake;
      cbn [SimpleHandshakeServer.handshake_loop ComplexHandshakeServer.handshake_loop].
    + rewrite (bind_ok _ _ _ (h, mkWorld i o t d) (h, mkWorld i o t d)) by done. cbn [fst]. by rewrite Hs.
    + rewrite (bind_ok _ _ _ (h, mkWorld i o t d) (h, mkWorld i o t d)) by done. cbn [fst]. by rewrite Hs.
Qed.
End props.

(** Concrete parameters: a checksum in place of HMAC-SHA256, a clock and a
    byte stream. *)
#[local] Instance toy_hmac : HmacSha256.
Proof.
  refine {| hmac key data := be_bytes 32 (be_val (take 24 key) + be_val (take 24 data) + blen data) |}.
  intros. apply length_be_bytes.
Defined.

#[local] Instance toy_env : Environment := {| clock n := Some (Z.of_nat n); random n := z2b (Z.of_nat n) |}.

Lemma digest_fill_validates_witness :
  exists l dg r,
    fst (generate_and_fill_digest (new (replicate 1536 x07) RTMP_SERVER_KEY_FIRST_HALF) Schema1 tt) = Ok (l, dg, r) /\
    fst (generate_and_validate (new (l ++ dg ++ r) RTMP_SERVER_KEY_FIRST_HALF) Schema1 tt) = Ok dg.
Proof.
  destruct (digest_fill_validates (replicate 1536 x07) RTMP_SERVER_KEY_FIRST_HALF Schema1
    (length_replicate 1536 x07)) as [(l & dg & r & H1 & _ & H2 & _) _].
  exists l, dg, r. split; [exact H1|exact H2].
Defined.

Lemma handshake_first_round_witness :
  exists h s1 s2 t' d',
    HandshakeServer.handshake (HandshakeServer.default,
        mkWorld (at_pos [] (x03 :: replicate 1536 x07 ++ [])) [] 0 0)
      = (Ok tt, (h, mkWorld (at_pos ([] ++ x03 :: replicate 1536 x07) []) ([] ++ [x03] ++ s1 ++ s2) t' d')) /\
    HandshakeServer.state h = ReadC2.
Proof.
  destruct (handshake_first_round [] x03 (replicate 1536 x07) [] [] 0 0 (length_replicate 1536 x07))
    as (h & s1 & s2 & t' & d' & H1 & H2 & _).
  exists h, s1, s2, t', d'. split; [exact H1|exact H2].
Defined.

Lemma handshake_rounds_witness :
  exists h' c, HandshakeServer.handshake (HandshakeServer.default, mkWorld (at_pos [] [x03; x00]) [] 0 0)
    = (Err (HandshakeIO UnexpectedEof), (h', mkWorld c [] 0 0)) /\ HandshakeServer.state h' = ReadC0C1.
Proof.
  assert (length [x03; x00] < 1537)%nat as Hs by (cbn [length]; lia).
  exact (proj1 (handshake_rounds [] [x03; x00] [] 0 0 HandshakeServer.default (at_pos [] []) Hs eq_refl)).
Defined.

End HandshakeProps.
