(* ===== verification/RtmpSession.v ===== *)
(** * RTMP server sessions (crates/rtmp/src/session, channels)

    The session as a state machine over its socket and its two channels:
    handshake, command dispatch, and the forwarding of published media.  The
    socket, the data channel and the publish channel answer each awaited call
    with the next outcome of a list; what the session sends to them is
    recorded. *)

From Stdlib Require Import Strings.String.
From stdpp Require Import base list numbers gmap.
From Stdlib Require Import Strings.Byte.
From S2P Require Import Prelude Io BytesCursor Amf0 RtmpChunk RtmpChunkDecode RtmpChunkRoundTrip.
From S2P Require Import RtmpMessages RtmpHandshake.

(** ** Channels (channels/mod.rs) *)

(** A [uuid::Uuid] is 128 bits. *)
Definition UniqueID : Type := Z.

Inductive ChannelData :=
| Video (timestamp : Z) (data : list byte)
| Audio (timestamp : Z) (data : list byte)
| Metadata (timestamp : Z) (data : list byte).

Definition channel_timestamp (c : ChannelData) : Z :=
  match c with Video timestamp _ | Audio timestamp _ | Metadata timestamp _ => timestamp end.

Definition channel_data (c : ChannelData) : list byte :=
  match c with Video _ data | Audio _ data | Metadata _ data => data end.

(** [PublishRequest]; its [response] sender is in the outcome of the send. *)
Record PublishRequest := mkRequest { req_app_name : list byte; req_stream_name : list byte }.

(** [DataProducer]: whether each send goes through within its time limit, and
    what has been sent. *)
Record DataProducer := mkData { send_results : list bool; sent : list ChannelData }.

(** [PublishProducer]: the receiver may be gone, drop the request, or answer
    it with an id. *)
Inductive PublishReply := SendFailed | Dropped | Accepted (uid : UniqueID).

Record PublishProducer := mkPublish { replies : list PublishReply; requests : list PublishRequest }.

(** ** The socket *)

(** [read_buf] under a timeout: bytes (none at the end of the stream), an
    error, or the timeout. *)
Inductive ReadEvent := Received (bs : list byte) | ReadFailed (e : ErrorKind) | ReadElapsed.

(** [write_all] under a timeout; a failed one may have written a prefix. *)
Inductive WriteEvent := Written | WriteFailed (n : nat) (e : ErrorKind) | WriteElapsed (n : nat).

Record IoStream := mkIo { reads : list ReadEvent; writes : list WriteEvent; wire : list byte }.

(** ** Commands and errors (define.rs, errors.rs) *)

Module RtmpCommand.

Inductive t :=
| Connect | CreateStream | Publish | Play | DeleteStream | CloseStream | ReleaseStream
| Unknown (name : list byte).

Definition from (command : list byte) : t :=
  if decide (command = str "connect") then Connect
  else if decide (command = str "createStream") then CreateStream
  else if decide (command = str "deleteStream") then DeleteStream
  else if decide (command = str "publish") then Publish
  else if decide (command = str "play") then Play
  else if decide (command = str "closeStream") then CloseStream
  else if decide (command = str "releaseStream") then ReleaseStream
  else Unknown command.

End RtmpCommand.

Inductive SessionError :=
| SHandshake (e : HandshakeError)
| SMessage (e : MessageError)
| SChunkDecode (e : ChunkDecodeError)
| SProtocolControlMessage (e : ProtocolControlMessageError)
| SNetStream (e : NetStreamError)
| SNetConnection (e : NetConnectionError)
| SEventMessages (e : EventMessagesError)
| UnknownStreamID (id : Z)
| PublisherDisconnected (uid : UniqueID)
| SIo (e : ErrorKind)
| STimeout
| NoAppName
| NoStreamName
| PublishRequestDenied
| ConnectRequestDenied
| PlayNotSupported
| PublisherDropped
| InvalidChunkSize (size : Z).

Definition is_client_closed (e : SessionError) : bool :=
  match e with
  | SIo ConnectionAborted | SIo ConnectionReset | SIo UnexpectedEof => true
  | STimeout => true
  | _ => false
  end.

(** ** Floating point

    [x as u32] of an [f64] given by its bits: towards zero, saturating, and 0
    for NaN. *)
Definition f64_to_u32 (bits : Z) : Z :=
  let sign := Z.testbit bits 63 in
  let exp := Z.land (Z.shiftr bits 52) 0x7FF in
  let frac := Z.land bits (2 ^ 52 - 1) in
  if exp =? 0x7FF then (if (frac =? 0) && negb sign then 2 ^ 32 - 1 else 0)
  else if sign then 0
  else
    let e := exp - 1075 in
    let mant := if exp =? 0 then frac else 2 ^ 52 + frac in
    Z.min (if 0 <=? e then Z.shiftl mant e else Z.shiftr mant (- e)) (2 ^ 32 - 1).

Definition f64_0 : Z := 0.
Definition f64_1 : Z := 0x3FF0000000000000.
Definition f64_31 : Z := 0x403F000000000000.

(** ** The session (server_session.rs) *)

Module Session.

Record t := mk {
  app_name : option (list byte);
  uid : option UniqueID;
  io : IoStream;
  read_buf : list byte;
  write_buf : list byte;
  skip_read : bool;
  chunk_decoder : ChunkDecoder.t;
  chunk_encoder : ChunkEncoder.t;
  stream_id : Z;
  data_producer : DataProducer;
  is_publishing : bool;
  publish_request_producer : PublishProducer;
}.

Definition new (io : IoStream) (data_producer : DataProducer) (publish_request_producer : PublishProducer) : t :=
  mk None None io [] [] false ChunkDecoder.default ChunkEncoder.default 0 data_producer false
    publish_request_producer.

Definition set_app_name x '(mk _ u i r w k d e s p b q) := mk x u i r w k d e s p b q.
Definition set_uid x '(mk a _ i r w k d e s p b q) := mk a x i r w k d e s p b q.
Definition set_io x '(mk a u _ r w k d e s p b q) := mk a u x r w k d e s p b q.
Definition set_read_buf x '(mk a u i _ w k d e s p b q) := mk a u i x w k d e s p b q.
Definition set_write_buf x '(mk a u i r _ k d e s p b q) := mk a u i r x k d e s p b q.
Definition set_skip_read x '(mk a u i r w _ d e s p b q) := mk a u i r w x d e s p b q.
Definition set_decoder x '(mk a u i r w k _ e s p b q) := mk a u i r w k x e s p b q.
Definition set_encoder x '(mk a u i r w k d _ s p b q) := mk a u i r w k d x s p b q.
Definition set_stream_id x '(mk a u i r w k d e _ p b q) := mk a u i r w k d e x p b q.
Definition set_data_producer x '(mk a u i r w k d e s _ b q) := mk a u i r w k d e s x b q.
Definition set_publishing x '(mk a u i r w k d e s p _ q) := mk a u i r w k d e s p x q.
Definition set_publish_producer x '(mk a u i r w k d e s p b _) := mk a u i r w k d e s p b x.

Abbreviation SM := (M t SessionError).

Section session.
Context `{BO : ByteOrder} `{HM : HmacSha256} `{EN : Environment}.

(** A writer on [self.write_buf] with [self.chunk_encoder]. *)
Definition respond {E} (f : E -> SessionError) (w : ChunkEncoder.t -> M (list byte) E unit) : SM unit :=
  let* self := get in
  map_err f (zoom write_buf set_write_buf (w (chunk_encoder self))).

(** The next outcome of [io.read_buf(&mut self.read_buf).with_timeout(..).await??],
    and the number of bytes read.  After the last outcome the peer has closed. *)
Definition io_read : SM Z := fun self =>
  let s := io self in
  match reads s with
  | [] => (Ok 0, self)
  | ev :: evs =>
      let self := set_io (mkIo evs (writes s) (wire s)) self in
      match ev with
      | Received bs => (Ok (blen bs), set_read_buf (read_buf self ++ bs) self)
      | ReadFailed e => (Err (SIo e), self)
      | ReadElapsed => (Err STimeout, self)
      end
  end.

(** [flush] *)
Definition flush : SM unit := fun self =>
  match write_buf self with
  | [] => (Ok tt, self)
  | bs =>
      let s := io self in
      match writes s with
      | [] | Written :: _ =>
          (Ok tt, set_write_buf [] (set_io (mkIo (reads s) (tail (writes s)) (wire s ++ bs)) self))
      | WriteFailed n e :: evs => (Err (SIo e), set_io (mkIo (reads s) evs (wire s ++ take n bs)) self)
      | WriteElapsed n :: evs => (Err STimeout, set_io (mkIo (reads s) evs (wire s ++ take n bs)) self)
      end
  end.

Definition send_set_chunk_size : SM unit :=
  respond SProtocolControlMessage (fun e => ProtocolControl.write_set_chunk_size e CHUNK_SIZE) ;;;
  modify (fun self => set_encoder (ChunkEncoder.set_chunk_size CHUNK_SIZE (chunk_encoder self)) self).

Definition on_data (stream_id_ : Z) (data : ChannelData) : SM unit := fun self =>
  if negb (stream_id_ =? stream_id self) || negb (is_publishing self) then (Err (UnknownStreamID stream_id_), self)
  else
    let p := data_producer self in
    match send_results p with
    | true :: rs => (Ok tt, set_data_producer (mkData rs (sent p ++ [data])) self)
    | rs => (Err PublisherDropped, set_data_producer (mkData (tail rs) (sent p)) self)
    end.

Definition on_set_chunk_size (chunk_size : Z) : SM unit := fun self =>
  let '(ok, d) := ChunkDecoder.update_max_chunk_size chunk_size (chunk_decoder self) in
  if ok then (Ok tt, set_decoder d self) else (Err (InvalidChunkSize chunk_size), set_decoder d self).

Definition on_command_connect (transaction_id : Z) (command_obj : list (list byte * Amf0Value.t)) : SM unit :=
  respond SProtocolControlMessage (fun e => ProtocolControl.write_window_acknowledgement_size e CHUNK_SIZE) ;;;
  respond SProtocolControlMessage (fun e => ProtocolControl.write_set_peer_bandwidth e CHUNK_SIZE 2) ;;;
  match List.find (fun p => bool_decide (p.1 = str "app")) command_obj with
  | Some (_, Amf0Value.String app) =>
      modify (set_app_name (Some app)) ;;;
      respond SNetConnection (fun e => NetConnection.write_connect_response e transaction_id
        (str "FMS/3,0,1,123") f64_31 (str "NetConnection.Connect.Success") (str "status")
        (str "Connection Succeeded.") f64_0)
  | _ => throw NoAppName
  end.

Definition on_command_create_stream (transaction_id : Z) : SM unit :=
  respond SNetConnection (fun e => NetConnection.write_create_stream_response e transaction_id f64_1).

Definition on_command_delete_stream (transaction_id : Z) (others : list Amf0Value.t) : SM unit :=
  let id := f64_to_u32 (match others with Amf0Value.Number n :: _ => n | _ => f64_0 end) in
  modify (fun self =>
    if (stream_id self =? id) && is_publishing self then set_publishing false (set_stream_id 0 self) else self) ;;;
  respond SNetStream (fun e => NetStreamWriter.write_on_status e transaction_id
    (str "status") (str "NetStream.DeleteStream.Suceess") (str "")).

(** The request is sent, and its answer awaited. *)
Definition request_publish (app stream : list byte) : SM UniqueID := fun self =>
  let p := publish_request_producer self in
  match replies p with
  | [] => (Err PublishRequestDenied, self)
  | SendFailed :: rs =>
      (Err PublishRequestDenied, set_publish_producer (mkPublish rs (requests p)) self)
  | Dropped :: rs =>
      (Err PublishRequestDenied, set_publish_producer (mkPublish rs (requests p ++ [mkRequest app stream])) self)
  | Accepted u :: rs =>
      (Ok u, set_publish_producer (mkPublish rs (requests p ++ [mkRequest app stream])) self)
  end.

Definition on_command_publish (transaction_id stream_id_ : Z) (others : list Amf0Value.t) : SM unit :=
  match others with
  | Amf0Value.String stream_name :: _ =>
      let* self := get in
      match app_name self with
      | None => throw NoAppName
      | Some app_name =>
          let* u := request_publish app_name stream_name in
          modify (set_uid (Some u)) ;;;
          modify (set_publishing true) ;;;
          modify (set_stream_id stream_id_) ;;;
          respond SEventMessages (fun e => EventMessagesWriter.write_stream_begin e stream_id_) ;;;
          respond SNetStream (fun e => NetStreamWriter.write_on_status e transaction_id
            (str "status") (str "NetStream.Publish.Start") (str ""))
      end
  | _ => throw NoStreamName
  end.

Definition on_amf0_command_message (stream_id_ : Z) (command_name transaction_id command_object : Amf0Value.t)
    (others : list Amf0Value.t) : SM unit :=
  let cmd := RtmpCommand.from (match command_name with Amf0Value.String s => s | _ => [] end) in
  let transaction_id := match transaction_id with Amf0Value.Number n => n | _ => f64_0 end in
  let obj := match command_object with Amf0Value.Object obj => obj | _ => [] end in
  match cmd with
  | RtmpCommand.Connect => on_command_connect transaction_id obj
  | RtmpCommand.CreateStream => on_command_create_stream transaction_id
  | RtmpCommand.DeleteStream => on_command_delete_stream transaction_id others
  | RtmpCommand.Play => throw PlayNotSupported
  | RtmpCommand.Publish => on_command_publish transaction_id stream_id_ others
  | RtmpCommand.CloseStream | RtmpCommand.ReleaseStream => ret tt
  | RtmpCommand.Unknown _ => ret tt
  end.

Definition process_messages (rtmp_msg : RtmpMessageData) (stream_id_ timestamp : Z) : SM unit :=
  match rtmp_msg with
  | Amf0Command command_name transaction_id command_object others =>
      on_amf0_command_message stream_id_ command_name transaction_id command_object others
  | SetChunkSize chunk_size => on_set_chunk_size chunk_size
  | AudioData data => on_data stream_id_ (Audio timestamp data)
  | VideoData data => on_data stream_id_ (Video timestamp data)
  | AmfData data => on_data stream_id_ (Metadata timestamp data)
  end.

(** [self.chunk_decoder.read_chunk(&mut self.read_buf)?] *)
Definition read_chunk : SM (option Chunk) :=
  map_err SChunkDecode (zoom (fun self => (chunk_decoder self, read_buf self))
    (fun s self => set_read_buf s.2 (set_decoder s.1 self)) ChunkDecoder.read_chunk).

(** One chunk: parsed, and its message processed. *)
Definition process_chunk (chunk : Chunk) : SM unit :=
  let timestamp := timestamp (message_header chunk) in
  let msg_stream_id := msg_stream_id (message_header chunk) in
  let* msg := map_err SMessage (lift (MessageParser.parse chunk)) in
  match msg with
  | Some msg => process_messages msg msg_stream_id timestamp
  | None => ret tt
  end.

(** Every chunk takes at least one byte out of the buffer. *)
Fixpoint parse_chunks_loop (fuel : nat) : SM unit :=
  match fuel with
  | O => out_of_fuel
  | S fuel =>
      let* chunk := read_chunk in
      match chunk with
      | Some chunk => process_chunk chunk ;;; parse_chunks_loop fuel
      | None => ret tt
      end
  end.

Definition parse_chunks : SM unit := fun self =>
  parse_chunks_loop (S (length (read_buf self))) self.

Definition do_ready : SM bool :=
  let* self := get in
  if skip_read self then
    modify (set_skip_read false) ;;; parse_chunks ;;; ret true
  else
    let* n := io_read in
    if n =? 0 then ret false else parse_chunks ;;; ret true.

(** *** The handshake stage *)

Definition READ_SIZE : Z := RTMP_HANDSHAKE_SIZE + 1.

(** The loop that fills the buffer.  At the end of the stream every read
    returns 0 bytes and the loop goes on. *)
Fixpoint fill_loop (fuel : nat) (bytes_read : Z) : SM unit :=
  match fuel with
  | O => out_of_fuel
  | S fuel =>
      if bytes_read <? READ_SIZE then
        let* n := io_read in fill_loop fuel (bytes_read + n)
      else ret tt
  end.

(** The handshaker with the session, and the environment's counters. *)
Record hs := mkHs { handshaker : HandshakeServer.t; hs_ticks : nat; hs_drawn : nat; session : t }.

Definition set_session (s : t) (h : hs) : hs := mkHs (handshaker h) (hs_ticks h) (hs_drawn h) s.

(** [handshaker.handshake(&mut cursor, &mut self.write_buf)?]; the cursor is
    what is left of the input. *)
Definition run_handshaker (bytes : list byte) : M hs SessionError Cursor := fun h =>
  let w := mkWorld (cursor_new bytes) (write_buf (session h)) (hs_ticks h) (hs_drawn h) in
  let '(r, (hk, w)) := HandshakeServer.handshake (handshaker h, w) in
  let h := mkHs hk (ticks w) (drawn w) (set_write_buf (output w) (session h)) in
  match r with
  | Ok _ => (Ok (input w), h)
  | Err e => (Err (SHandshake e), h)
  | Panic => (Panic, h)
  | Fuel => (Fuel, h)
  end.

(** [fuel] bounds the turns of the reading loop. *)
Definition do_handshake (fuel : nat) : M hs SessionError bool :=
  zoom session set_session (fill_loop fuel 0) ;;;
  let* h := get in
  let bytes := read_buf (session h) in
  modify (fun h => set_session (set_read_buf [] (session h)) h) ;;;
  let* cursor := run_handshaker bytes in
  let* h := get in
  if decide (HandshakeServer.state (handshaker h) = Finish) then
    let* over_read := lift (match BytesCursorExt.extract_remaining cursor with
                            | (Ok bs, _) => Ok bs | (Err e, _) => Err (SIo e)
                            | (Panic, _) => Panic | (Fuel, _) => Fuel end) in
    match over_read with
    | [] => ret tt
    | _ => modify (fun h => set_session (set_read_buf (read_buf (session h) ++ over_read)
             (set_skip_read true (session h))) h)
    end ;;;
    zoom session set_session send_set_chunk_size ;;;
    ret true
  else ret false.

(** *** The whole session *)

(** [while !self.do_handshake(..).await? { self.flush().await?; }] *)
Fixpoint handshake_loop (fuel read_fuel : nat) : M hs SessionError unit :=
  match fuel with
  | O => out_of_fuel
  | S fuel =>
      let* done := do_handshake read_fuel in
      if (done : bool) then ret tt
      else zoom session set_session flush ;;; handshake_loop fuel read_fuel
  end.

(** [while match self.do_ready().await { .. } { self.flush().await?; }] *)
Fixpoint ready_loop (fuel : nat) : SM unit :=
  match fuel with
  | O => out_of_fuel
  | S fuel => fun self =>
      match do_ready self with
      | (Ok true, self) => (flush ;;; ready_loop fuel) self
      | (Ok false, self) => (Ok tt, self)
      | (Err err, self) => if is_client_closed err then (Ok tt, self) else (Err err, self)
      | (Panic, self) => (Panic, self)
      | (Fuel, self) => (Fuel, self)
      end
  end.

(** [run].  The handshake takes two rounds; every later turn takes a read of
    the socket, but for the one on bytes left by the handshake. *)
Definition run (read_fuel : nat) : SM bool := fun self =>
  match handshake_loop 3 read_fuel (mkHs HandshakeServer.default 0 0 self) with
  | (Ok _, h) =>
      (ready_loop (S (S (length (reads (io (session h)))))) ;;;
       let* self := get in ret (negb (is_publishing self))) (session h)
  | (Err e, h) => (Err e, session h)
  | (Panic, h) => (Panic, session h)
  | (Fuel, h) => (Fuel, session h)
  end.

End session.
End Session.
