(* ===== verification/RtmpSessionProofs.v ===== *)
(** * RTMP sessions: safety, termination and forwarding

    [NoFuel] follows the loops of the session down to the chunk decoder and
    shows that none runs out of fuel; [SessionLemmas] has the invariants of the
    session state over every sequence of socket outcomes; [SessionProps] the
    properties. *)

From Stdlib Require Import Strings.String.
From stdpp Require Import base list numbers gmap.
From Stdlib Require Import Strings.Byte.
From S2P Require Import Prelude Io BytesCursor Amf0 RtmpChunk RtmpChunkDecode RtmpChunkRoundTrip.
From S2P Require Import RtmpMessages RtmpHandshake RtmpSession.

(** ** Programs that do not run out of fuel *)

Module NoFuel.

Definition nofuel {S E A} (m : M S E A) : Prop := forall s, fst (m s) <> Fuel.

Create HintDb nofuel.

Section monad.
Context {S E : Type}.

Lemma nofuel_ret {A} (a : A) : nofuel (S := S) (E := E) (ret a).
Proof. done. Qed.

Lemma nofuel_throw {A} (e : E) : nofuel (S := S) (A := A) (throw e).
Proof. done. Qed.

Lemma nofuel_get : nofuel (S := S) (E := E) get.
Proof. done. Qed.

Lemma nofuel_modify (f : S -> S) : nofuel (E := E) (modify f).
Proof. done. Qed.

Lemma nofuel_unwrap {A} (o : option A) : nofuel (S := S) (E := E) (unwrap o).
Proof. by destruct o. Qed.

Lemma nofuel_bind {A B} (m : M S E A) (k : A -> M S E B) :
  nofuel m -> (forall a, nofuel (k a)) -> nofuel (bind m k).
Proof.
  intros Hm Hk s. unfold bind. specialize (Hm s).
  destruct (m s) as [[a|e| |] s1]; try done. apply Hk.
Qed.

Lemma nofuel_if {A} (b : bool) (m n : M S E A) : nofuel m -> nofuel n -> nofuel (if b then m else n).
Proof. by destruct b. Qed.

Lemma nofuel_map_err {E' A} (f : E -> E') (m : M S E A) : nofuel m -> nofuel (map_err f m).
Proof. intros Hm s. unfold map_err. specialize (Hm s). by destruct (m s) as [[] ?]. Qed.

Lemma nofuel_zoom {T A} (g : S -> T) st (m : M T E A) : nofuel m -> nofuel (zoom g st m).
Proof. intros Hm s. unfold zoom. specialize (Hm (g s)). by destruct (m (g s)) as [[] ?]. Qed.

Lemma nofuel_in_vec {E'} (m : M (list byte) E' unit) : nofuel m -> nofuel (S := S) (ProtocolControl.in_vec m).
Proof. intros Hm s. unfold ProtocolControl.in_vec. specialize (Hm []). by destruct (m []) as [[] ?]. Qed.

Lemma nofuel_expect {E' A} (m : M S E A) : nofuel m -> nofuel (E := E') (ProtocolControl.expect m).
Proof. intros Hm s. unfold ProtocolControl.expect. specialize (Hm s). by destruct (m s) as [[] ?]. Qed.
End monad.

#[export] Hint Resolve nofuel_ret nofuel_throw nofuel_get nofuel_modify nofuel_unwrap nofuel_bind nofuel_if
  nofuel_map_err nofuel_zoom nofuel_in_vec nofuel_expect : nofuel.

Section writers.
Context `{BO : ByteOrder}.

Lemma nofuel_write_all bs : nofuel (write_all (W := list byte) bs).
Proof. done. Qed.
#[local] Hint Resolve nofuel_write_all : nofuel.

Lemma nofuel_write_uint e n z : nofuel (write_uint (W := list byte) e n z).
Proof. unfold write_uint. auto with nofuel. Qed.
#[local] Hint Resolve nofuel_write_uint : nofuel.

Lemma nofuel_put_u n z : nofuel (Amf0Encoder.put_u (W := list byte) n z).
Proof. unfold Amf0Encoder.put_u. auto with nofuel. Qed.

Lemma nofuel_put_all bs : nofuel (Amf0Encoder.put_all (W := list byte) bs).
Proof. unfold Amf0Encoder.put_all. auto with nofuel. Qed.
#[local] Hint Resolve nofuel_put_u nofuel_put_all : nofuel.

Lemma nofuel_encode_object_with (enc : Amf0Value.t -> M (list byte) Amf0WriteError unit) ps :
  Forall (fun p => nofuel (enc p.2)) ps -> nofuel (Amf0Encoder.encode_object_with enc ps).
Proof.
  intros Hps. unfold Amf0Encoder.encode_object_with, Amf0Encoder.object_eof.
  apply nofuel_bind; [auto with nofuel|]. intros _. apply nofuel_bind; [|auto with nofuel].
  induction Hps as [|[k v] ps Hv Hps IH]; cbn [Amf0Encoder.encode_properties]; auto 10 with nofuel.
Qed.

Lemma nofuel_encode v : nofuel (Amf0Encoder.encode (W := list byte) v).
Proof.
  induction v as [n|b|s|ps IH| | |s] using Amf0Value.t_ind'; cbn [Amf0Encoder.encode]; auto with nofuel.
  - unfold Amf0Encoder.encode_number. auto with nofuel.
  - unfold Amf0Encoder.encode_bool. auto with nofuel.
  - unfold Amf0Encoder.encode_string. auto with nofuel.
  - by apply nofuel_encode_object_with.
  - unfold Amf0Encoder.encode_null. auto with nofuel.
Qed.

Lemma nofuel_encode_string s : nofuel (Amf0Encoder.encode_string (W := list byte) s).
Proof. apply (nofuel_encode (Amf0Value.String s)). Qed.
Lemma nofuel_encode_number n : nofuel (Amf0Encoder.encode_number (W := list byte) n).
Proof. apply (nofuel_encode (Amf0Value.Number n)). Qed.
Lemma nofuel_encode_null : nofuel (Amf0Encoder.encode_null (W := list byte)).
Proof. apply (nofuel_encode Amf0Value.Null). Qed.
Lemma nofuel_encode_object ps : nofuel (Amf0Encoder.encode_object (W := list byte) ps).
Proof. apply (nofuel_encode (Amf0Value.Object ps)). Qed.

(** A chunk encoder whose chunk size is positive stops. *)
Lemma nofuel_write_basic_header fmt csid : nofuel (ChunkEncoder.write_basic_header (W := list byte) fmt csid).
Proof. unfold ChunkEncoder.write_basic_header, ChunkEncoder.put_be. cbv zeta. auto 10 with nofuel. Qed.

Lemma nofuel_write_ext ts : nofuel (ChunkEncoder.write_extened_timestamp (W := list byte) ts).
Proof. unfold ChunkEncoder.write_extened_timestamp, ChunkEncoder.put_be. auto with nofuel. Qed.
#[local] Hint Resolve nofuel_write_basic_header nofuel_write_ext : nofuel.

Lemma nofuel_write_message_header mh : nofuel (ChunkEncoder.write_message_header (W := list byte) mh).
Proof.
  unfold ChunkEncoder.write_message_header, ChunkEncoder.put_be, ChunkEncoder.put_le. cbv zeta.
  auto 10 with nofuel.
Qed.
#[local] Hint Resolve nofuel_write_message_header : nofuel.

Lemma nofuel_write_payload e csid mh fuel : forall pl, 1 <= ChunkEncoder.chunk_size e -> (length pl < fuel)%nat ->
  nofuel (ChunkEncoder.write_payload (W := list byte) e csid mh fuel pl).
Proof.
  induction fuel as [|fuel IH]; intros pl He Hl; [lia|]. cbn [ChunkEncoder.write_payload].
  destruct pl as [|b pl]; [done|]. cbv zeta. unfold ChunkEncoder.put_all.
  apply nofuel_bind; [auto with nofuel|]. intros _. apply nofuel_bind.
  - destruct (drop _ _); auto with nofuel.
  - intros _. apply IH; [done|]. rewrite length_drop.
    destruct (Z.ltb_spec (ChunkEncoder.chunk_size e) (blen (b :: pl))); unfold blen in *; simpl in *; lia.
Qed.

Lemma nofuel_write_chunk e ch : 1 <= ChunkEncoder.chunk_size e ->
  nofuel (ChunkEncoder.write_chunk (W := list byte) e ch).
Proof.
  intros He. unfold ChunkEncoder.write_chunk. apply nofuel_bind; [auto with nofuel|]. intros _.
  apply nofuel_bind; [auto with nofuel|]. intros _. apply nofuel_write_payload; [done|lia].
Qed.
End writers.

#[export] Hint Resolve nofuel_write_uint nofuel_encode_string nofuel_encode_number nofuel_encode_null
  nofuel_encode_object nofuel_write_chunk : nofuel.

End NoFuel.

(** ** The session invariant *)

Module SessionLemmas.
Import Session NoFuel ChunkDecoderLemmas.

(** Relative to the answers [R0] the owner will give to publish requests: the
    chunk decoder is within its bounds, the chunk encoder makes progress, and
    an id stands for an accepted request; publishing, and data sent, imply
    an id. *)
Record inv (R0 : list PublishReply) (s : t) : Prop := {
  inv_decoder : wf (chunk_decoder s);
  inv_encoder : 1 <= ChunkEncoder.chunk_size (chunk_encoder s);
  inv_replies : exists used, R0 = used ++ replies (publish_request_producer s);
  inv_uid : forall u, uid s = Some u -> Accepted u ∈ R0;
  inv_requests : uid s <> None -> requests (publish_request_producer s) <> [] /\ app_name s <> None;
  inv_publishing : is_publishing s = true -> uid s <> None;
  inv_sent : sent (data_producer s) <> [] -> uid s <> None;
}.

Section session.
Context `{BO : ByteOrder} `{HM : HmacSha256} `{EN : Environment}.
Variable R0 : list PublishReply.

(** [good m]: from a state with the invariant, [m] stops in one. *)
Definition good {A} (m : SM A) : Prop := forall s, inv R0 s ->
  match m s with (Fuel, _) => False | (_, s') => inv R0 s' end.

Lemma good_ret {A} (a : A) : good (ret a).
Proof. intros s Hs. exact Hs. Qed.

Lemma good_throw {A} e : good (A := A) (throw e).
Proof. intros s Hs. exact Hs. Qed.

Lemma good_get : good get.
Proof. intros s Hs. exact Hs. Qed.

Lemma good_modify f : (forall s, inv R0 s -> inv R0 (f s)) -> good (modify f).
Proof. intros Hf s Hs. by apply Hf. Qed.

Lemma good_bind {A B} (m : SM A) (k : A -> SM B) : good m -> (forall a, good (k a)) -> good (bind m k).
Proof.
  intros Hm Hk s Hs. unfold bind. specialize (Hm s Hs). destruct (m s) as [[a|e| |] s1]; try done.
  by apply Hk.
Qed.

(** Changes of fields the invariant does not mention. *)
Ltac frame := let s := fresh in let H := fresh in intros s H; destruct s, H; constructor; simpl in *; auto.

Lemma inv_write_buf x s : inv R0 s -> inv R0 (set_write_buf x s).
Proof. revert s. frame. Qed.
Lemma inv_read_buf x s : inv R0 s -> inv R0 (set_read_buf x s).
Proof. revert s. frame. Qed.
Lemma inv_io x s : inv R0 s -> inv R0 (set_io x s).
Proof. revert s. frame. Qed.
Lemma inv_skip_read x s : inv R0 s -> inv R0 (set_skip_read x s).
Proof. revert s. frame. Qed.
Lemma inv_stream_id x s : inv R0 s -> inv R0 (set_stream_id x s).
Proof. revert s. frame. Qed.
Lemma inv_set_decoder d s : wf d -> inv R0 s -> inv R0 (set_decoder d s).
Proof. intros Hd. revert s. frame. Qed.
Lemma inv_set_encoder e s : 1 <= ChunkEncoder.chunk_size e -> inv R0 s -> inv R0 (set_encoder e s).
Proof. intros Hd. revert s. frame. Qed.
Lemma inv_app_name a s : inv R0 s -> inv R0 (set_app_name (Some a) s).
Proof. revert s. frame. intros Hu. split; [by apply inv_requests0|done]. Qed.
Lemma inv_not_publishing s : inv R0 s -> inv R0 (set_publishing false s).
Proof. revert s. frame. Qed.

#[local] Hint Resolve good_ret good_throw good_get good_modify good_bind inv_write_buf inv_read_buf inv_io
  inv_skip_read inv_stream_id inv_app_name inv_not_publishing : session.

Lemma good_respond {E} (f : E -> SessionError) w :
  (forall e, 1 <= ChunkEncoder.chunk_size e -> nofuel (w e)) -> good (respond f w).
Proof.
  intros Hw s Hs. unfold respond. mret. unfold map_err, zoom.
  specialize (Hw (chunk_encoder s) (inv_encoder _ _ Hs) (write_buf s)).
  destruct (w (chunk_encoder s) (write_buf s)) as [[] bs]; try done; by apply inv_write_buf.
Qed.

Lemma good_io_read : good io_read.
Proof.
  intros s Hs. unfold io_read. destruct (reads (io s)) as [|[bs|e|] evs]; auto with session.
Qed.

Lemma good_flush : good flush.
Proof.
  intros s Hs. unfold flush. destruct (write_buf s); [done|].
  destruct (writes (io s)) as [|[|n e|n] evs]; auto with session.
Qed.

(** The writers stop when the encoder makes progress. *)
Lemma good_send_set_chunk_size : good send_set_chunk_size.
Proof.
  unfold send_set_chunk_size. apply good_bind.
  - apply good_respond. intros e He. unfold ProtocolControl.write_set_chunk_size. cbv zeta. auto with nofuel.
  - intros _. apply good_modify. intros s Hs. by apply inv_set_encoder.
Qed.

Lemma good_on_data sid data : good (on_data sid data).
Proof.
  intros s Hs. unfold on_data. destruct (negb _ || negb _) eqn:Hb; [done|].
  apply orb_false_iff in Hb as [_ Hpub]. apply negb_false_iff in Hpub.
  destruct s, Hs. simpl in *.
  destruct (send_results data_producer0) as [|[] rs]; constructor; simpl; auto.
Qed.

Lemma good_on_set_chunk_size n : good (on_set_chunk_size n).
Proof.
  intros s Hs. unfold on_set_chunk_size.
  pose proof (update_max_chunk_size_wf n (chunk_decoder s) (inv_decoder _ _ Hs)) as Hw.
  destruct (ChunkDecoder.update_max_chunk_size n (chunk_decoder s)) as [[] d]; by apply inv_set_decoder.
Qed.

Lemma good_on_command_connect tid obj : good (on_command_connect tid obj).
Proof.
  unfold on_command_connect. apply good_bind; [|intros _].
  { apply good_respond. intros e He. unfold ProtocolControl.write_window_acknowledgement_size. auto with nofuel. }
  apply good_bind; [|intros _].
  { apply good_respond. intros e He. unfold ProtocolControl.write_set_peer_bandwidth. auto 10 with nofuel. }
  destruct (List.find _ obj) as [[k v]|]; [|auto with session]. destruct v; auto with session.
  apply good_bind; [auto with session|]. intros _. apply good_respond. intros e He.
  unfold NetConnection.write_connect_response, NetConnection.write_chunk. auto 10 with nofuel.
Qed.

Lemma nofuel_on_status e tid level code description : 1 <= ChunkEncoder.chunk_size e ->
  nofuel (NetStreamWriter.write_on_status (W := list byte) e tid level code description).
Proof. intros He. unfold NetStreamWriter.write_on_status, NetStreamWriter.write_chunk. auto 10 with nofuel. Qed.

Lemma good_on_command_create_stream tid : good (on_command_create_stream tid).
Proof.
  apply good_respond. intros e He. unfold NetConnection.write_create_stream_response, NetConnection.write_chunk.
  auto 10 with nofuel.
Qed.

Lemma good_on_command_delete_stream tid others : good (on_command_delete_stream tid others).
Proof.
  unfold on_command_delete_stream. cbv zeta. apply good_bind.
  - apply good_modify. intros s Hs. destruct (_ && _); auto with session.
  - intros _. apply good_respond. intros. by apply nofuel_on_status.
Qed.

(** After an accepted request the session may publish. *)
Lemma good_publish_accepted sid app stream u s s' : inv R0 s -> app_name s <> None ->
  request_publish app stream s = (Ok u, s') ->
  inv R0 (set_stream_id sid (set_publishing true (set_uid (Some u) s'))).
Proof.
  intros Hs Happ. unfold request_publish. destruct s, Hs. simpl in *.
  destruct (replies publish_request_producer0) as [|[| |u'] rs] eqn:Hr; try done.
  intros [= -> <-]. destruct inv_replies0 as [used HR].
  constructor; simpl; auto.
  - exists (used ++ [Accepted u]). by rewrite <-(assoc_L (++)).
  - intros u' [= <-]. rewrite HR. apply elem_of_app. right. by left.
  - intros _. split; [by destruct (requests publish_request_producer0)|done].
Qed.

Lemma good_request_publish app stream : good (request_publish app stream).
Proof.
  intros s Hs. unfold request_publish. destruct s, Hs. simpl in *.
  destruct inv_replies0 as [used HR].
  assert (requests publish_request_producer0 ++ [mkRequest app stream] <> [])
    by (by destruct (requests publish_request_producer0)).
  destruct (replies publish_request_producer0) as [|[| |u] rs] eqn:Hr.
  - constructor; simpl; auto. exists used. by rewrite Hr.
  - constructor; simpl; auto. exists (used ++ [SendFailed]). by rewrite <-(assoc_L (++)).
  - constructor; simpl; auto; [exists (used ++ [Dropped]); by rewrite <-(assoc_L (++))|].
    intros Hu. split; [done|by apply inv_requests0].
  - constructor; simpl; auto; [exists (used ++ [Accepted u]); by rewrite <-(assoc_L (++))|].
    intros Hu. split; [done|by apply inv_requests0].
Qed.

Lemma good_on_command_publish tid sid others : good (on_command_publish tid sid others).
Proof.
  unfold on_command_publish. destruct others as [|v others]; [auto with session|].
  destruct v as [| |name| | | |]; auto with session. intros s Hs. mret.
  destruct (app_name s) as [app|] eqn:Happ; [|done].
  pose proof (good_request_publish app name s Hs) as Hg.
  destruct (request_publish app name s) as [[u|e| |] s1] eqn:Hr; unfold bind at 1; rewrite Hr; try done.
  mret. mret. mret.
  assert (good (respond SEventMessages (fun e => EventMessagesWriter.write_stream_begin e sid) ;;;
    respond SNetStream (fun e => NetStreamWriter.write_on_status e tid
      (str "status") (str "NetStream.Publish.Start") (str "")))) as Hw.
  { apply good_bind; [|intros _; apply good_respond; intros; by apply nofuel_on_status].
    apply good_respond. intros e He. unfold EventMessagesWriter.write_stream_begin. auto 10 with nofuel. }
  apply Hw. eapply good_publish_accepted; [exact Hs|congruence|exact Hr].
Qed.

Lemma good_process_messages msg sid ts : good (process_messages msg sid ts).
Proof.
  destruct msg as [name tid obj others|data|n|data|data]; cbn [process_messages];
    [|apply good_on_data|apply good_on_set_chunk_size|apply good_on_data|apply good_on_data].
  unfold on_amf0_command_message. cbv zeta. destruct (RtmpCommand.from _).
  - apply good_on_command_connect.
  - apply good_on_command_create_stream.
  - apply good_on_command_publish.
  - apply good_throw.
  - apply good_on_command_delete_stream.
  - apply good_ret.
  - apply good_ret.
  - apply good_ret.
Qed.

(** ** What the handlers leave alone *)

Definition same (s s' : t) : Prop :=
  read_buf s' = read_buf s /\ io s' = io s /\ skip_read s' = skip_read s.

Definition keeps {A} (m : SM A) : Prop := forall s, same s (m s).2.

Lemma keeps_ret {A} (a : A) : keeps (ret a).
Proof. intros s. done. Qed.
Lemma keeps_throw {A} e : keeps (A := A) (throw e).
Proof. intros s. done. Qed.
Lemma keeps_get : keeps get.
Proof. intros s. done. Qed.
Lemma keeps_modify f : (forall s, same s (f s)) -> keeps (modify f).
Proof. intros Hf s. apply Hf. Qed.
Lemma keeps_bind {A B} (m : SM A) (k : A -> SM B) : keeps m -> (forall a, keeps (k a)) -> keeps (bind m k).
Proof.
  intros Hm Hk s. unfold bind. specialize (Hm s). destruct (m s) as [[a|e| |] s1]; try done.
  specialize (Hk a s1). destruct (k a s1) as [r s2]. unfold same in *. simpl in *. intuition congruence.
Qed.
Lemma keeps_respond {E} (f : E -> SessionError) w : keeps (respond f w).
Proof.
  intros s. unfold respond. mret. unfold map_err, zoom.
  destruct (w (chunk_encoder s) (write_buf s)) as [[] bs]; by destruct s.
Qed.
Lemma keeps_on_data sid data : keeps (on_data sid data).
Proof.
  intros s. unfold on_data. destruct (_ || _); [done|].
  destruct (send_results _) as [|[] rs]; by destruct s.
Qed.
Lemma keeps_on_set_chunk_size n : keeps (on_set_chunk_size n).
Proof.
  intros s. unfold on_set_chunk_size. destruct (ChunkDecoder.update_max_chunk_size _ _) as [[] d]; by destruct s.
Qed.
Lemma keeps_request_publish app stream : keeps (request_publish app stream).
Proof.
  intros s. unfold request_publish. destruct (replies _) as [|[| |u] rs]; by destruct s.
Qed.

#[local] Hint Resolve keeps_ret keeps_throw keeps_get keeps_bind keeps_respond keeps_on_data
  keeps_on_set_chunk_size keeps_request_publish : session.
#[local] Hint Extern 1 (keeps (modify _)) => apply keeps_modify; intros []; done : session.

Lemma keeps_process_messages msg sid ts : keeps (process_messages msg sid ts).
Proof.
  destruct msg as [name tid obj others|data|n|data|data]; cbn [process_messages]; auto with session.
  unfold on_amf0_command_message. cbv zeta.
  destruct (RtmpCommand.from _); auto with session.
  - unfold on_command_connect. do 2 (apply keeps_bind; [auto with session|intros _]).
    destruct (List.find _ _) as [[k v]|]; [destruct v|]; auto with session.
  - unfold on_command_create_stream. auto with session.
  - unfold on_command_publish. destruct others as [|[] others]; auto with session.
    apply keeps_bind; [auto with session|]. intros self. destruct (app_name self); auto 10 with session.
  - unfold on_command_delete_stream. cbv zeta. apply keeps_bind; [|auto with session].
    apply keeps_modify. intros s. destruct (_ && _); by destruct s.
Qed.

(** ** The loop over the chunks *)

Lemma session_read_chunk s : inv R0 s ->
  match read_chunk s with
  | (Ok (Some ch), s') =>
      inv R0 s' /\ chunk_ok ch /\ (length (read_buf s') < length (read_buf s))%nat /\
      io s' = io s /\ skip_read s' = skip_read s
  | (Fuel, _) => False
  | (_, s') => inv R0 s' /\ io s' = io s /\ skip_read s' = skip_read s
  end.
Proof.
  intros Hs. unfold read_chunk, map_err, zoom.
  pose proof (read_chunk_wf (chunk_decoder s) (read_buf s) (inv_decoder _ _ Hs)) as Hw.
  destruct (ChunkDecoder.read_chunk (chunk_decoder s, read_buf s)) as [[[ch|]|e| |] [d buf]]; simpl in *; try done.
  - destruct Hw as (Hd & Hch & bs & Hbs & Hl). split; [by apply inv_read_buf, inv_set_decoder|].
    split; [done|]. rewrite Hbs, length_app. destruct s; simpl. split; [lia|done].
  - destruct Hw as [Hd _]. split; [by apply inv_read_buf, inv_set_decoder|by destruct s].
  - destruct Hw as [Hd _]. split; [by apply inv_read_buf, inv_set_decoder|by destruct s].
  - destruct Hw as [Hd _]. split; [by apply inv_read_buf, inv_set_decoder|by destruct s].
Qed.

Lemma good_process_chunk ch : chunk_ok ch -> good (process_chunk ch).
Proof.
  intros (_ & (_ & Hm & _) & Hl). unfold ChunkDecoder.MAX_PARTIAL_CHUNK_SIZE in Hm.
  unfold process_chunk. cbv zeta. apply good_bind.
  - intros s Hs. unfold map_err, lift. pose proof (MessageLemmas.parse_nofuel ch ltac:(lia)).
    destruct (MessageParser.parse ch); done.
  - intros [msg|]; [apply good_process_messages|apply good_ret].
Qed.

Lemma keeps_process_chunk ch : keeps (process_chunk ch).
Proof.
  unfold process_chunk. cbv zeta. apply keeps_bind.
  - intros s. unfold map_err, lift. by destruct (MessageParser.parse ch).
  - intros [msg|]; [apply keeps_process_messages|apply keeps_ret].
Qed.

(** [parse_chunks] stops, and does not touch the socket. *)
Lemma parse_chunks_loop_good fuel : forall s, inv R0 s -> (length (read_buf s) < fuel)%nat ->
  match parse_chunks_loop fuel s with
  | (Fuel, _) => False
  | (_, s') => inv R0 s' /\ io s' = io s /\ skip_read s' = skip_read s
  end.
Proof.
  induction fuel as [|fuel IH]; intros s Hs Hl; [lia|]. cbn [parse_chunks_loop]. unfold bind at 1.
  pose proof (session_read_chunk s Hs) as Hr.
  destruct (read_chunk s) as [[[ch|]|e| |] s1]; try done.
  destruct Hr as (Hs1 & Hch & Hlt & Hio & Hsk). unfold bind.
  pose proof (good_process_chunk ch Hch s1 Hs1) as Hg. pose proof (keeps_process_chunk ch s1) as (Hk1 & Hk2 & Hk3).
  destruct (process_chunk ch s1) as [[u|e| |] s2]; simpl in *; try done;
    rewrite <-?Hio, <-?Hsk, <-?Hk2, <-?Hk3; try done.
  apply IH; [done|]. rewrite Hk1. lia.
Qed.

Lemma parse_chunks_good s : inv R0 s ->
  match parse_chunks s with
  | (Fuel, _) => False
  | (_, s') => inv R0 s' /\ io s' = io s /\ skip_read s' = skip_read s
  end.
Proof. intros Hs. unfold parse_chunks. apply parse_chunks_loop_good; [done|lia]. Qed.

(** ** The ready stage *)

(** The reads left, and the turn on bytes left by the handshake. *)
Definition turns (s : t) : nat := length (reads (io s)) + (if skip_read s then 1 else 0).

Lemma do_ready_good s : inv R0 s ->
  match do_ready s with
  | (Fuel, _) => False
  | (Ok true, s') => inv R0 s' /\ (turns s' < turns s)%nat
  | (_, s') => inv R0 s'
  end.
Proof.
  intros Hs. unfold do_ready. mret. destruct (skip_read s) eqn:Hsk.
  - mret. pose proof (parse_chunks_good (set_skip_read false s) (inv_skip_read _ _ Hs)) as Hp. unfold bind.
    destruct (parse_chunks (set_skip_read false s)) as [[u|e| |] s']; simpl; try done; try by destruct Hp.
    destruct Hp as (Hs' & Hio & Hsk'). split; [done|]. unfold turns. rewrite Hio, Hsk', Hsk. destruct s; simpl. lia.
  - pose proof (good_io_read s Hs) as Hi. unfold bind.
    destruct (io_read s) as [[n|e| |] s1] eqn:Hr; try done.
    destruct (Z.eqb_spec n 0) as [|Hn]; [done|].
    assert ((length (reads (io s1)) < length (reads (io s)))%nat /\ skip_read s1 = skip_read s) as [Hlt Hsk1].
    { unfold io_read in Hr. destruct (reads (io s)) as [|[bs|e|] evs] eqn:Hev; simplify_eq.
      destruct s; simpl in *. split; [lia|done]. }
    pose proof (parse_chunks_good s1 Hi) as Hp.
    destruct (parse_chunks s1) as [[u|e| |] s']; simpl; try done; try by destruct Hp.
    destruct Hp as (Hs' & Hio & Hsk'). split; [done|]. unfold turns. rewrite Hio, Hsk', Hsk1. lia.
Qed.

Lemma flush_turns s : turns (flush s).2 = turns s.
Proof.
  unfold flush. destruct (write_buf s); [done|]. destruct s; simpl.
  destruct (writes io0) as [|[|n e|n] evs]; done.
Qed.

Lemma ready_loop_good fuel : forall s, inv R0 s -> (turns s < fuel)%nat ->
  match ready_loop fuel s with (Fuel, _) => False | (_, s') => inv R0 s' end.
Proof.
  induction fuel as [|fuel IH]; intros s Hs Hf; [lia|]. cbn [ready_loop].
  pose proof (do_ready_good s Hs) as Hd. destruct (do_ready s) as [[[]|e| |] s1]; try done.
  - destruct Hd as [Hs1 Hlt]. unfold bind. pose proof (good_flush s1 Hs1) as Hfl. pose proof (flush_turns s1) as Ht.
    destruct (flush s1) as [[u|e| |] s2]; try done. simpl in Ht. apply IH; [done|lia].
  - by destruct (is_client_closed e).
Qed.

(** ** The handshake stage *)

Lemma io_read_spec s : inv R0 s ->
  match io_read s with
  | (Ok n, s') => inv R0 s' /\ blen (read_buf s') = blen (read_buf s) + n /\
      (reads (io s) = [] /\ s' = s \/ (length (reads (io s')) < length (reads (io s)))%nat)
  | (Err _, s') => inv R0 s'
  | _ => False
  end.
Proof.
  intros Hs. pose proof (good_io_read s Hs) as Hg. unfold io_read in *.
  destruct (reads (io s)) as [|[bs|e|] evs] eqn:Hev; try done.
  - split; [done|]. split; [lia|by left].
  - split; [done|]. split; [destruct s; simpl; by rewrite blen_app|]. right. destruct s; simpl. lia.
Qed.

(** Filling the buffer ends with enough bytes, with an error, or never once
    the peer has closed. *)
Lemma fill_loop_spec fuel : forall n s, inv R0 s ->
  match fill_loop fuel n s with
  | (Ok _, s') => inv R0 s' /\ READ_SIZE <= n + (blen (read_buf s') - blen (read_buf s)) /\
      (length (reads (io s')) <= length (reads (io s)))%nat
  | (Err _, s') => inv R0 s'
  | (Fuel, s') => inv R0 s' /\ ((length (reads (io s)) <= fuel)%nat -> reads (io s') = [])
  | (Panic, _) => False
  end.
Proof.
  induction fuel as [|fuel IH]; intros n s Hs; cbn [fill_loop].
  { split; [done|]. simpl. destruct (reads (io s)); simpl; [done|lia]. }
  destruct (Z.ltb_spec n READ_SIZE) as [Hlt|Hge]; [|split; [done|split; [lia|done]]].
  pose proof (io_read_spec s Hs) as Hi. unfold bind. destruct (io_read s) as [[k|e| |] s1]; try done.
  destruct Hi as (Hs1 & Hlen & Hev). specialize (IH (n + k) s1 Hs1).
  destruct (fill_loop fuel (n + k) s1) as [[u|e| |] s2]; try done.
  - destruct IH as (Hs2 & Hsz & Hle). split; [done|]. split; [lia|].
    destruct Hev as [[_ ->]|Hev]; [done|lia].
  - destruct IH as (Hs2 & Hfuel). split; [done|]. intros Hf.
    apply Hfuel. destruct Hev as [[Hnil ->]|Hev]; [rewrite Hnil; simpl|]; lia.
Qed.

Lemma fill_loop_eof fuel : forall n s,
  Forall (fun ev => exists bs, ev = Received bs) (reads (io s)) ->
  n + blen (reads (io s) ≫= (fun ev => match ev with Received bs => bs | _ => [] end)) < READ_SIZE ->
  fst (fill_loop fuel n s) = Fuel.
Proof.
  induction fuel as [|fuel IH]; intros n s Hev Hn; [done|]. cbn [fill_loop].
  pose proof (blen_nonneg (reads (io s) ≫= (fun ev => match ev with Received bs => bs | _ => [] end))).
  rewrite (proj2 (Z.ltb_lt _ _)) by lia. unfold bind, io_read.
  destruct (reads (io s)) as [|ev evs] eqn:Hr.
  - apply IH; rewrite Hr; [done|]. simpl in *. lia.
  - apply Forall_cons_1 in Hev as [[bs ->] Hev]. cbn [mbind list_bind] in Hn. rewrite blen_app in Hn.
    apply IH; destruct s; simpl in *; [done|]. lia.
Qed.

(** The first round on enough bytes leaves the server waiting for C2. *)
Lemma handshake_first_state bytes o tk dr : READ_SIZE <= blen bytes ->
  exists h w, HandshakeServer.handshake (HandshakeServer.default, mkWorld (cursor_new bytes) o tk dr)
    = (Ok tt, (h, w)) /\ HandshakeServer.state h = ReadC2.
Proof.
  intros Hb. destruct bytes as [|c0 bytes]; [unfold blen, READ_SIZE, RTMP_HANDSHAKE_SIZE in Hb; simpl in Hb; lia|].
  assert (length (take 1536 bytes) = 1536%nat) as Hl.
  { rewrite length_take. unfold blen, READ_SIZE, RTMP_HANDSHAKE_SIZE in Hb. simpl in Hb. lia. }
  rewrite <-(take_drop 1536 bytes). change (cursor_new ?bs) with (at_pos [] bs).
  destruct (HandshakeLemmas.complex_first [] c0 (take 1536 bytes) (drop 1536 bytes) o tk dr Hl) as (h & Hh & Hst).
  unfold HandshakeServer.handshake, HandshakeServer.default. rewrite Hh.
  destruct (DigestLemmas.accepted _ _) as [[dg v]|]; [eexists _, _; split; [reflexivity|by apply Hst]|].
  destruct (HandshakeLemmas.simple_first [] c0 (take 1536 bytes) (drop 1536 bytes) o tk dr Hl) as (h' & Hh' & Hst').
  cbn [input]. erewrite (bind_ok (on_input _)); cycle 1.
  { apply HandshakeLemmas.on_input_ok. apply (seek_start_at [] (c0 :: take 1536 bytes ++ drop 1536 bytes)). done. }
  rewrite Hh'. eexists _, _. by split.
Qed.

(** One round of the handshake: the first ends with a server that waits for
    C2, the second finishes. *)
Definition waiting (h : hs) : Prop :=
  handshaker h = HandshakeServer.default \/ HandshakeServer.state (handshaker h) = ReadC2.

Lemma run_handshaker_spec bytes h : waiting h -> READ_SIZE <= blen bytes ->
  exists c h', run_handshaker bytes h = (Ok c, h') /\
    session h' = set_write_buf (write_buf (session h')) (session h) /\
    (handshaker h = HandshakeServer.default /\ HandshakeServer.state (handshaker h') = ReadC2 \/
     HandshakeServer.state (handshaker h) = ReadC2 /\ HandshakeServer.state (handshaker h') = Finish).
Proof.
  intros Hw Hb. unfold run_handshaker. destruct Hw as [Hdef|H2].
  - rewrite Hdef. destruct (handshake_first_state bytes (write_buf (session h)) (hs_ticks h) (hs_drawn h) Hb)
      as (hk & w & -> & Hst).
    eexists _, _. split; [reflexivity|]. cbn [session handshaker]. split; [by destruct (session h)|]. by left.
  - destruct (HandshakeLemmas.handshake_second (handshaker h) (cursor_new bytes) (write_buf (session h))
      (hs_ticks h) (hs_drawn h) H2 ltac:(done)) as (hk & -> & Hst).
    eexists _, _. split; [reflexivity|]. cbn [session handshaker]. split; [by destruct (session h)|]. by right.
Qed.

Lemma nofuel_extract_remaining c : fst (BytesCursorExt.extract_remaining c) <> Fuel.
Proof.
  unfold BytesCursorExt.extract_remaining.
  assert (nofuel (BytesCursorExt.extract_bytes (BytesCursorExt.remaining c))) as Hn.
  { unfold BytesCursorExt.extract_bytes. apply nofuel_if; [done|]. apply nofuel_bind; [done|]. intros c'.
    cbv zeta. auto 10 with nofuel. }
  specialize (Hn c). by destruct (BytesCursorExt.extract_bytes _ c) as [[] ?].
Qed.

Lemma do_handshake_spec fuel h : inv R0 (session h) -> waiting h ->
  match do_handshake fuel h with
  | (Ok true, h') => inv R0 (session h') /\ HandshakeServer.state (handshaker h) = ReadC2
  | (Ok false, h') => inv R0 (session h') /\ HandshakeServer.state (handshaker h') = ReadC2 /\
      handshaker h = HandshakeServer.default /\
      (length (reads (io (session h'))) <= length (reads (io (session h))))%nat
  | (Fuel, h') => inv R0 (session h') /\
      ((length (reads (io (session h))) <= fuel)%nat -> reads (io (session h')) = [])
  | (_, h') => inv R0 (session h')
  end.
Proof.
  intros Hs Hw. unfold do_handshake, bind at 1, zoom at 1. pose proof (fill_loop_spec fuel 0 (session h) Hs) as Hf.
  destruct (fill_loop fuel 0 (session h)) as [[u|e| |] s1]; try done. destruct Hf as (Hs1 & Hb & Hle).
  mret. mret. cbn [session set_session handshaker].
  set (h1 := mkHs (handshaker h) (hs_ticks h) (hs_drawn h) (set_read_buf [] s1)).
  pose proof (blen_nonneg (read_buf (session h))).
  destruct (run_handshaker_spec (read_buf s1) h1) as (c & h2 & Hr & Hsess & Hcase);
    [exact Hw|lia|]. erewrite bind_ok; [|exact Hr]. mret.
  assert (inv R0 (session h2)) as Hs2.
  { rewrite Hsess. apply inv_write_buf. unfold h1. by apply inv_read_buf. }
  destruct (decide (HandshakeServer.state (handshaker h2) = Finish)) as [Hfin|Hfin].
  - destruct Hcase as [[_ Hc]|[Hc _]]; [congruence|]. change (handshaker h1) with (handshaker h) in Hc.
    pose proof (nofuel_extract_remaining c) as Hex. unfold bind at 1, lift.
    destruct (BytesCursorExt.extract_remaining c) as [[over|e| |] c']; try done.
    set (h3 := match over with [] => h2 | _ => set_session (set_read_buf (read_buf (session h2) ++ over)
             (set_skip_read true (session h2))) h2 end).
    assert (inv R0 (session h3)) as Hs3.
    { unfold h3. destruct over; [done|]. cbn [session set_session]. by apply inv_read_buf, inv_skip_read. }
    unfold bind at 1. replace (match over with [] => ret tt | _ => _ end h2) with (Ok (E := SessionError) tt, h3)
      by (unfold h3; by destruct over).
    unfold bind, zoom. pose proof (good_send_set_chunk_size (session h3) Hs3) as Hg.
    destruct (send_set_chunk_size (session h3)) as [[u'|e| |] s4]; try done.
  - destruct Hcase as [[Hdef Hc]|[_ Hc]]; [|congruence]. split; [done|]. split; [done|]. split; [done|].
    rewrite Hsess. unfold h1. cbn [session]. destruct s1; simpl in *; lia.
Qed.

(** The handshake loop ends within two rounds. *)
Lemma handshake_loop_spec fuel s : inv R0 s ->
  match handshake_loop 3 fuel (mkHs HandshakeServer.default 0 0 s) with
  | (Fuel, h') => inv R0 (session h') /\ ((length (reads (io s)) <= fuel)%nat -> reads (io (session h')) = [])
  | (_, h') => inv R0 (session h')
  end.
Proof.
  intros Hs. set (h := mkHs HandshakeServer.default 0 0 s).
  pose proof (do_handshake_spec fuel h Hs (or_introl eq_refl)) as H1.
  cbn [handshake_loop]. unfold bind at 1.
  destruct (do_handshake fuel h) as [[[]|e| |] h1]; try done.
  - by destruct H1.
  - destruct H1 as (Hs1 & Hst & _ & Hle). unfold bind at 1, zoom.
    pose proof (good_flush (session h1) Hs1) as Hfl. pose proof (flush_turns (session h1)) as Ht.
    destruct (flush (session h1)) as [[u|e| |] s2] eqn:Hflush; try done.
    assert (length (reads (io s2)) = length (reads (io (session h1)))) as Hreads.
    { unfold flush in Hflush. destruct (write_buf (session h1)); [by simplify_eq|].
      destruct (session h1); simpl in *. destruct (writes io0) as [|[|n e|n] evs]; by simplify_eq. }
    pose proof (do_handshake_spec fuel (set_session s2 h1) Hfl (or_intror Hst)) as H2. unfold bind at 1.
    destruct (do_handshake fuel (set_session s2 h1)) as [[[]|e| |] h2]; try done.
    + by destruct H2.
    + destruct H2 as (_ & _ & Hd & _). cbn [handshaker set_session] in Hd. rewrite Hd in Hst. done.
    + destruct H2 as [Hs2 H2]. split; [done|]. intros Hf. apply H2. cbn [session set_session]. subst h. cbn [session] in Hle. lia.
Qed.

(** The handshake does not give the session an id. *)
Lemma fill_loop_uid fuel : forall n s, uid (fill_loop fuel n s).2 = uid s.
Proof.
  induction fuel as [|fuel IH]; intros n s; [done|]. cbn [fill_loop]. destruct (n <? READ_SIZE); [|done].
  unfold bind, io_read. destruct (reads (io s)) as [|[bs|e|] evs]; rewrite ?IH; by destruct s.
Qed.

Lemma respond_uid {E} (f : E -> SessionError) w s : uid (respond f w s).2 = uid s.
Proof.
  unfold respond. mret. unfold map_err, zoom.
  destruct (w (chunk_encoder s) (write_buf s)) as [[] bs]; by destruct s.
Qed.

Lemma send_set_chunk_size_uid s : uid (send_set_chunk_size s).2 = uid s.
Proof.
  unfold send_set_chunk_size, bind.
  match goal with |- context [respond ?f ?w s] => pose proof (respond_uid f w s) as Hu end.
  destruct (respond _ _ s) as [[] s1]; simpl in *; by destruct s1.
Qed.

Lemma flush_uid s : uid (flush s).2 = uid s.
Proof.
  unfold flush. destruct (write_buf s); [done|]. destruct (writes (io s)) as [|[|n e|n] evs]; by destruct s.
Qed.

Lemma do_handshake_uid fuel h : uid (session (do_handshake fuel h).2) = uid (session h).
Proof.
  unfold do_handshake, bind at 1, zoom at 1. pose proof (fill_loop_uid fuel 0 (session h)) as Hf.
  destruct (fill_loop fuel 0 (session h)) as [[u|e| |] s1]; try done. mret. mret. cbn [session set_session].
  unfold bind at 1, run_handshaker. cbn [session handshaker hs_ticks hs_drawn].
  destruct (HandshakeServer.handshake _) as [[u'|e| |] [hk w]]; try (simpl in *; by destruct s1).
  mret. cbn [handshaker]. destruct (decide _) as [Hfin|_]; [|simpl in *; by destruct s1]. unfold bind at 1, lift.
  destruct (BytesCursorExt.extract_remaining _) as [[over|e| |] c]; try (simpl in *; by destruct s1).
  unfold bind at 1. destruct over as [|b over]; unfold ret at 1, modify; unfold bind, zoom; cbn [session set_session];
    match goal with |- context [send_set_chunk_size ?x] => pose proof (send_set_chunk_size_uid x) as Hu;
      destruct (send_set_chunk_size x) as [[] s4] end; simpl in *; rewrite Hu; by destruct s1.
Qed.

Lemma handshake_loop_uid fuel rf : forall h, uid (session h) = None ->
  uid (session (handshake_loop fuel rf h).2) = None.
Proof.
  induction fuel as [|fuel IH]; intros h Hh; [done|]. cbn [handshake_loop]. unfold bind at 1.
  pose proof (do_handshake_uid rf h) as Hd. destruct (do_handshake rf h) as [[[]|e| |] h1]; simpl in Hd; try (simpl; congruence).
  unfold bind, zoom. pose proof (flush_uid (session h1)) as Hf.
  destruct (flush (session h1)) as [[] s2]; simpl in *; try congruence. apply IH. simpl. congruence.
Qed.

(** ** Forwarding media *)

(** A media message on the stream [sid], and what the owner receives for it. *)
Definition media (sid : Z) (ch : Chunk) : Prop :=
  msg_stream_id (message_header ch) = sid /\
  match msg_type_id (message_header ch) with
  | MessageTypeID.Audio | MessageTypeID.Video | MessageTypeID.DataAMF0 | MessageTypeID.DataAMF3 => True
  | _ => False
  end.

Definition channel_of (ch : Chunk) : ChannelData :=
  let ts := timestamp (message_header ch) in
  match msg_type_id (message_header ch) with
  | MessageTypeID.Audio => Audio ts (payload ch)
  | MessageTypeID.Video => Video ts (payload ch)
  | _ => Metadata ts (payload ch)
  end.

Lemma process_media ch size s rs : media (stream_id s) ch -> is_publishing s = true ->
  send_results (data_producer s) = true :: rs ->
  process_chunk (ChunkBytes.delivered size ch) s
    = (Ok tt, set_data_producer (mkData rs (sent (data_producer s) ++ [channel_of ch])) s).
Proof.
  intros [Hsid Hty] Hpub Hsend. unfold process_chunk, ChunkBytes.delivered, ChunkBytes.received, MessageParser.parse, channel_of.
  cbn [message_header msg_type_id msg_stream_id timestamp payload].
  destruct (msg_type_id (message_header ch)); try done; mret; cbn [process_messages];
    unfold on_data; by rewrite Hsid, Z.eqb_refl, Hpub, Hsend.
Qed.

(** The fields that media leaves alone. *)
Definition forwarded (s s' : t) : Prop :=
  is_publishing s' = is_publishing s /\ stream_id s' = stream_id s /\ write_buf s' = write_buf s /\
  app_name s' = app_name s /\ uid s' = uid s /\ io s' = io s.

Lemma parse_chunks_loop_media chs : forall fuel s rs,
  (length chs < fuel)%nat -> is_publishing s = true -> wf (chunk_decoder s) ->
  ChunkDecoder.partial_chunks (chunk_decoder s) = ∅ ->
  Forall ChunkBytes.sendable chs -> Forall (media (stream_id s)) chs ->
  Z.of_nat (size (ChunkBytes.streams (chunk_decoder s) chs)) <= ChunkDecoder.MAX_PREVIOUS_CHUNK_HEADERS ->
  send_results (data_producer s) = replicate (length chs) true ++ rs ->
  read_buf s = (chs ≫= ChunkBytes.chunk_bytes (ChunkDecoder.max_chunk_size (chunk_decoder s))) ->
  exists s', parse_chunks_loop fuel s = (Ok tt, s') /\ read_buf s' = [] /\ forwarded s s' /\
    data_producer s' = mkData rs (sent (data_producer s) ++ map channel_of chs).
Proof.
  induction chs as [|ch chs IH]; intros [|fuel] s rs Hf Hpub Hd Hp Hsend Hmed Hs Hres Hbuf; try (simpl in Hf; lia).
  - cbn [parse_chunks_loop]. exists s. simpl in Hbuf, Hres.
    assert (read_chunk s = (Ok None, s)) as Hr.
    { unfold read_chunk, map_err, zoom. rewrite Hbuf, read_chunk_turn by done. destruct s; simpl in *; subst; reflexivity. }
    rewrite (bind_ok _ _ _ _ _ Hr). split; [done|]. split; [done|]. split; [done|]. simpl.
    rewrite app_nil_r, <-Hres. by destruct (data_producer s).
  - apply Forall_cons_1 in Hsend as [Hch Hchs]. apply Forall_cons_1 in Hmed as [Hm Hms].
    pose proof (ChunkBytes.streams_room _ ch chs Hd Hs) as Hroom.
    set (d := chunk_decoder s) in *. set (sz := ChunkDecoder.max_chunk_size d) in *.
    set (d' := ChunkBytes.with_header (chunk_stream_id (basic_header ch)) (ChunkBytes.received (message_header ch)) d).
    set (s1 := set_read_buf (chs ≫= ChunkBytes.chunk_bytes sz) (set_decoder d' s)).
    assert (read_chunk s = (Ok (Some (ChunkBytes.delivered sz ch)), s1)) as Hr.
    { unfold read_chunk, map_err, zoom. rewrite Hbuf. cbn [mbind list_bind]. fold d.
      rewrite ChunkBytes.read_sent; [done|done|done|done|by rewrite Hp|by rewrite Hp]. }
    cbn [parse_chunks_loop]. rewrite (bind_ok _ _ _ _ _ Hr). cbv iota beta.
    assert (is_publishing s1 = is_publishing s /\ stream_id s1 = stream_id s /\ write_buf s1 = write_buf s /\
      app_name s1 = app_name s /\ uid s1 = uid s /\ io s1 = io s /\ data_producer s1 = data_producer s /\
      chunk_decoder s1 = d' /\ read_buf s1 = chs ≫= ChunkBytes.chunk_bytes sz)
      as (E1 & E2 & E3 & E4 & E5 & E6 & E7 & E8 & E9) by (unfold s1; destruct s; repeat split; done).
    clearbody s1. rewrite <-E7 in Hres. cbn [length replicate app] in Hres. rewrite <-E2 in Hm, Hms. rewrite <-E1 in Hpub.
    erewrite bind_ok; [|by apply process_media].
    set (s2 := set_data_producer _ s1).
    assert (is_publishing s2 = is_publishing s1 /\ stream_id s2 = stream_id s1 /\ write_buf s2 = write_buf s1 /\
      app_name s2 = app_name s1 /\ uid s2 = uid s1 /\ io s2 = io s1 /\
      chunk_decoder s2 = chunk_decoder s1 /\ read_buf s2 = read_buf s1 /\
      data_producer s2 = mkData (replicate (length chs) true ++ rs) (sent (data_producer s1) ++ [channel_of ch]))
      as (F1 & F2 & F3 & F4 & F5 & F6 & F7 & F8 & F9) by (unfold s2; destruct s1; repeat split; done).
    clearbody s2.
    destruct (IH fuel s2 rs) as (s3 & H1 & H2 & H3 & H4).
    + simpl in Hf. lia.
    + congruence.
    + rewrite F7, E8. apply wf_set_headers; [done|by apply ChunkBytes.sendable_header|done].
    + by rewrite F7, E8.
    + done.
    + by rewrite F2.
    + rewrite F7, E8. unfold d'. by rewrite ChunkBytes.streams_step.
    + by rewrite F9.
    + rewrite F8, E9, F7, E8. done.
    + exists s3. split; [done|]. split; [done|]. split; [unfold forwarded in *; intuition congruence|].
      rewrite H4, F9, E7. cbn [sent map]. by rewrite <-(assoc_L (++)).
Qed.

Lemma length_chunks size chs : (length chs <= length (chs ≫= ChunkBytes.chunk_bytes size))%nat.
Proof.
  induction chs as [|ch chs IH]; [done|]. cbn [mbind list_bind length]. rewrite length_app.
  assert (1 <= length (ChunkBytes.chunk_bytes size ch))%nat; [|lia].
  unfold ChunkBytes.chunk_bytes, ChunkBytes.header_bytes. rewrite !length_app, !length_be_bytes. lia.
Qed.

(** ** Commands *)

Lemma respond_state {E} (f : E -> SessionError) w s : exists x, (respond f w s).2 = set_write_buf x s.
Proof.
  unfold respond. mret. unfold map_err, zoom.
  destruct (w (chunk_encoder s) (write_buf s)) as [[] bs]; by exists bs.
Qed.

End session.
End SessionLemmas.

(** The binary64 encoding of an unsigned 32-bit integer. *)
Definition f64_of_u32 (n : Z) : Z :=
  if n =? 0 then 0 else (1023 + Z.log2 n) * 2 ^ 52 + (n * 2 ^ (52 - Z.log2 n) - 2 ^ 52).

Lemma f64_to_of_u32 n : fits 32 n -> f64_to_u32 (f64_of_u32 n) = n.
Proof.
  intros [H0 H1]. unfold f64_of_u32. destruct (Z.eqb_spec n 0) as [->|Hn]; [done|].
  set (k := Z.log2 n). pose proof (Z.log2_spec n ltac:(lia)) as Hk. fold k in Hk.
  pose proof (Z.log2_nonneg n) as Hk0. fold k in Hk0.
  assert (k < 32) as Hk32 by (apply Z.log2_lt_pow2; lia).
  set (m := n * 2 ^ (52 - k)).
  assert (2 ^ 52 <= m < 2 * 2 ^ 52) as Hm.
  { unfold m. assert (2 ^ 52 = 2 ^ k * 2 ^ (52 - k)) as Hp by (rewrite <-Z.pow_add_r by lia; f_equal; lia).
    rewrite Hp. rewrite Z.pow_succ_r in Hk by lia. pose proof (Z.pow_pos_nonneg 2 (52 - k) ltac:(lia) ltac:(lia)). nia. }
  set (bits := (1023 + k) * 2 ^ 52 + (m - 2 ^ 52)).
  assert (Z.shiftr bits 52 = 1023 + k) as Hexp.
  { rewrite Z.shiftr_div_pow2 by lia. unfold bits. rewrite Z.div_add_l by lia. rewrite Z.div_small; lia. }
  assert (Z.land bits (2 ^ 52 - 1) = m - 2 ^ 52) as Hfrac.
  { change (2 ^ 52 - 1) with (Z.ones 52). rewrite Z.land_ones by lia. unfold bits.
    rewrite Z.add_comm, Z.mod_add by lia. apply Z.mod_small. lia. }
  assert (Z.testbit bits 63 = false) as Hsign.
  { rewrite Z.testbit_false by lia. rewrite Z.div_small; [done|]. unfold bits.
    assert (2 ^ 63 = 2048 * 2 ^ 52) as -> by done. nia. }
  unfold f64_to_u32. rewrite Hsign, Hexp, Hfrac. cbv zeta.
  assert (Z.land (1023 + k) 0x7FF = 1023 + k) as ->.
  { change 0x7FF with (Z.ones 11). rewrite Z.land_ones by lia. apply Z.mod_small. lia. }
  rewrite (proj2 (Z.eqb_neq (1023 + k) 0x7FF)), (proj2 (Z.eqb_neq (1023 + k) 0)) by lia.
  rewrite (proj2 (Z.leb_gt 0 _)) by lia. replace (2 ^ 52 + (m - 2 ^ 52)) with m by lia.
  replace (- (1023 + k - 1075)) with (52 - k) by lia.
  rewrite Z.shiftr_div_pow2 by lia. unfold m. rewrite Z.div_mul by (apply Z.pow_nonzero; lia). lia.
Qed.

(** ** Properties *)

Module SessionProps.
Import Session SessionLemmas ChunkDecoderLemmas.

Section props.
Context `{BO : ByteOrder} `{HM : HmacSha256} `{EN : Environment}.

Lemma session_inv_new i results reps : inv reps (new i (mkData results []) (mkPublish reps [])).
Proof. constructor; simpl; try done; first [apply wf_default | by exists []]. Qed.

(** C2. Publishing is gated by the owner: whatever a peer sends, however its
    bytes arrive and the socket fails, if a session ever forwards media or is
    publishing, the owner has accepted a publish request of this session with
    the session's id, after the peer has named an application; and the memory
    of the chunk decoder stays within its bounds to the end. *)
Theorem session_publish_gate (i : IoStream) (results : list bool) (reps : list PublishReply) (read_fuel : nat) :
  let s := (run read_fuel (new i (mkData results []) (mkPublish reps []))).2 in
  (sent (data_producer s) <> [] \/ is_publishing s = true ->
    exists u, uid s = Some u /\ Accepted u ∈ reps /\
      requests (publish_request_producer s) <> [] /\ app_name s <> None) /\
  wf (chunk_decoder s).
Proof.
  assert (inv reps (run read_fuel (new i (mkData results []) (mkPublish reps []))).2) as Hs.
  { unfold run. pose proof (handshake_loop_spec reps read_fuel _ (session_inv_new i results reps)) as Hh.
    destruct (handshake_loop _ _ _) as [[u|e| |] h]; try done; [|by destruct Hh].
    pose proof (ready_loop_good reps (S (S (length (reads (io (session h)))))) (session h) Hh
      ltac:(unfold turns; destruct (skip_read _); lia)) as Hr.
    unfold bind. by destruct (ready_loop _ _) as [[]]. }
  intros s. split; [|by eapply inv_decoder].
  intros Hp. assert (uid s <> None) as Hu.
  { destruct Hp; [by eapply inv_sent|by eapply inv_publishing]. }
  destruct (uid s) as [u|] eqn:E; [|done]. exists u. split; [done|].
  split; [by eapply inv_uid|]. eapply inv_requests; [done|]. by rewrite E.
Qed.

(** C7. Published media is forwarded unchanged: when a session publishes on
    a stream and its buffer holds any sequence of audio, video and metadata
    messages of that stream as an encoder with the peer's chunk size writes
    them, [parse_chunks] gives the owner exactly these messages, in order,
    with their timestamps and payloads, empties the buffer, and changes
    nothing else of the session. *)
Theorem published_media_forwarded (s : t) (chs : list Chunk) (rs : list bool)
    (Hpub : is_publishing s = true) (Hd : wf (chunk_decoder s))
    (Hp : ChunkDecoder.partial_chunks (chunk_decoder s) = ∅)
    (Hsend : Forall ChunkBytes.sendable chs) (Hmed : Forall (media (stream_id s)) chs)
    (Hstreams : Z.of_nat (size (ChunkBytes.streams (chunk_decoder s) chs)) <= ChunkDecoder.MAX_PREVIOUS_CHUNK_HEADERS)
    (Hres : send_results (data_producer s) = replicate (length chs) true ++ rs)
    (Hbuf : ChunkBytes.write_chunks (ChunkEncoder.mk (ChunkDecoder.max_chunk_size (chunk_decoder s))) chs []
              = (Ok tt, read_buf s)) :
  exists s', parse_chunks s = (Ok tt, s') /\ read_buf s' = [] /\ forwarded s s' /\
    sent (data_producer s') = sent (data_producer s) ++ map channel_of chs.
Proof.
  pose proof (wf_chunk_size _ Hd) as Hsz. unfold INIT_CHUNK_SIZE in Hsz.
  rewrite ChunkBytes.write_chunks_ok, app_nil_l in Hbuf by (done || lia).
  apply (f_equal snd) in Hbuf. unfold snd in Hbuf.
  destruct (parse_chunks_loop_media chs (S (length (read_buf s))) s rs) as (s' & H1 & H2 & H3 & H4); try done.
  { rewrite <-Hbuf. pose proof (length_chunks (ChunkDecoder.max_chunk_size (chunk_decoder s)) chs). lia. }
  exists s'. split; [done|]. split; [done|]. split; [done|]. by rewrite H4.
Qed.


(** C37. A peer that closes the connection before the first 1537 bytes keeps
    the session busy for ever: at the end of the stream each read returns 0
    bytes at once, and the loop that fills the handshake buffer goes on
    without bound. *)
Theorem handshake_eof_spins (i : IoStream) (d : DataProducer) (p : PublishProducer) (read_fuel : nat)
    (Hreads : Forall (fun ev => exists bs, ev = Received bs) (reads i))
    (Hshort : blen (reads i ≫= (fun ev => match ev with Received bs => bs | _ => [] end)) < READ_SIZE) :
  (run read_fuel (new i d p)).1 = Fuel.
Proof.
  pose proof (fill_loop_eof read_fuel 0 (new i d p) Hreads Hshort) as Hf.
  unfold run. cbn [handshake_loop]. unfold do_handshake, bind, zoom. cbn [session].
  by destruct (fill_loop read_fuel 0 (new i d p)) as [[] s'].
Qed.

(** Commands and data in the wrong state: [publish] before [connect] and
    [play] are refused and change nothing, unknown commands are ignored, data
    is refused unless the session publishes on that very stream and is then
    not forwarded; and after [deleteStream] with the id of the published
    stream (any 32-bit id, sent as a number) data on it is refused. *)
Theorem command_outcomes (s : t) (sid tid ts : Z) (obj : Amf0Value.t) (name cmd bs : list byte)
    (others : list Amf0Value.t) (Hid : fits 32 (stream_id s)) (Hpub : is_publishing s = true)
    (Hsid : sid <> stream_id s)
    (Hcmd : RtmpCommand.from cmd = RtmpCommand.Unknown cmd) :
  let command c os := on_amf0_command_message sid (Amf0Value.String c) (Amf0Value.Number tid) obj os in
  (app_name s = None -> command (str "publish") (Amf0Value.String name :: others) s = (Err NoAppName, s)) /\
  command (str "play") others s = (Err PlayNotSupported, s) /\
  command cmd others s = (Ok tt, s) /\
  on_data sid (Video ts bs) s = (Err (UnknownStreamID sid), s) /\
  on_data sid (Video ts bs) (set_publishing false s) = (Err (UnknownStreamID sid), set_publishing false s) /\
  let s' := (command (str "deleteStream") (Amf0Value.Number (f64_of_u32 (stream_id s)) :: others) s).2 in
  is_publishing s' = false /\
  on_data (stream_id s) (Video ts bs) s' = (Err (UnknownStreamID (stream_id s)), s').
Proof.
  intros command. split; [|split; [|split; [|split; [|split]]]].
  - intros Happ. unfold command, on_amf0_command_message. cbn [RtmpCommand.from].
    change (RtmpCommand.from (str "publish")) with RtmpCommand.Publish. cbv iota zeta.
    unfold on_command_publish. mret. by rewrite Happ.
  - reflexivity.
  - unfold command, on_amf0_command_message. cbv zeta. by rewrite Hcmd.
  - unfold on_data. by rewrite (proj2 (Z.eqb_neq _ _)) by done.
  - unfold on_data. destruct s; simpl. by rewrite orb_true_r.
  - intros s'. assert (is_publishing s' = false) as Hs'.
    { unfold s', command, on_amf0_command_message.
      change (RtmpCommand.from (str "deleteStream")) with RtmpCommand.DeleteStream. cbv iota zeta.
      unfold on_command_delete_stream. rewrite f64_to_of_u32 by done. cbv zeta. mret.
      rewrite Z.eqb_refl, Hpub. simpl (true && true).
      match goal with |- is_publishing (respond ?f ?w ?x).2 = _ =>
        destruct (respond_state f w x) as [y ->] end.
      by destruct s. }
    split; [done|]. unfold on_data. rewrite Hs'. by rewrite orb_true_r.
Qed.
End props.

#[local] Existing Instance HandshakeProps.toy_hmac.
#[local] Existing Instance HandshakeProps.toy_env.

(** A peer: C0 and C1, then C2 with the commands and one audio message. *)
Definition peer_chunks : list Chunk :=
  let command vs := snd (Amf0Props.encode_all vs []) in
  [ Chunk_new 3 0 MessageTypeID.CommandAMF0 0 (command
      [Amf0Value.String (str "connect"); Amf0Value.Number f64_1;
       Amf0Value.Object [(str "app", Amf0Value.String (str "live"))]]);
    Chunk_new 3 0 MessageTypeID.CommandAMF0 1 (command
      [Amf0Value.String (str "publish"); Amf0Value.Number f64_31; Amf0Value.Null;
       Amf0Value.String (str "key")]);
    Chunk_new 4 40 MessageTypeID.Audio 1 [xaf; x01; x21] ].

Definition peer : IoStream :=
  mkIo [ Received (x03 :: replicate 1536 x00);
         Received (replicate 1536 x00 ++ snd (ChunkBytes.write_chunks ChunkEncoder.default peer_chunks [])) ] [] [].

Lemma session_publish_gate_witness :
  let s := (run 5 (new peer (mkData [true] []) (mkPublish [Accepted 7] []))).2 in
  sent (data_producer s) = [Audio 40 [xaf; x01; x21]] /\ exists u, uid s = Some u /\ Accepted u ∈ [Accepted 7].
Proof.
  intros s. assert (sent (data_producer s) = [Audio 40 [xaf; x01; x21]]) as Hs by (vm_compute; reflexivity).
  split; [exact Hs|].
  destruct (session_publish_gate peer [true] [Accepted 7] 5) as [H _]. fold s in H.
  destruct H as (u & Hu & Ha & _); [left; rewrite Hs; discriminate|]. exists u. split; [exact Hu|exact Ha].
Defined.

(** A session that publishes on stream 1, with two messages in its buffer. *)
Definition live_chunks : list Chunk :=
  [ Chunk_new 4 40 MessageTypeID.Audio 1 [xaf; x01]; Chunk_new 6 50 MessageTypeID.Video 1 (replicate 300 x17) ].

Definition live : t :=
  mk (Some (str "live")) (Some 7) (mkIo [] [] [])
    (snd (ChunkBytes.write_chunks (ChunkEncoder.mk 128) live_chunks []))
    [] false ChunkDecoder.default ChunkEncoder.default 1 (mkData [true; true] []) true (mkPublish [] []).

Lemma published_media_forwarded_witness :
  exists s', parse_chunks live = (Ok tt, s') /\
    sent (data_producer s') = [Audio 40 [xaf; x01]; Video 50 (replicate 300 x17)].
Proof.
  assert (Forall ChunkBytes.sendable live_chunks) as H1 by (repeat constructor; vm_compute; discriminate).
  assert (Forall (media (stream_id live)) live_chunks) as H2 by (repeat constructor).
  assert (Z.of_nat (size (ChunkBytes.streams (chunk_decoder live) live_chunks))
    <= ChunkDecoder.MAX_PREVIOUS_CHUNK_HEADERS) as H3 by (vm_compute; discriminate).
  assert (ChunkBytes.write_chunks (ChunkEncoder.mk (ChunkDecoder.max_chunk_size (chunk_decoder live))) live_chunks []
    = (Ok tt, read_buf live)) as H4 by (vm_compute; reflexivity).
  destruct (published_media_forwarded live live_chunks [] eq_refl wf_default eq_refl H1 H2 H3 eq_refl H4)
    as (s' & Hr & _ & _ & Hsent).
  exists s'. split; [exact Hr|exact Hsent].
Defined.

(** A peer that sends one byte and then nothing until the timeout. *)
Definition silent : IoStream := mkIo [Received [x03]; ReadElapsed] [] [].


Lemma handshake_eof_spins_witness :
  (run 1000 (new (mkIo [Received [x03; x00]] [] []) (mkData [] []) (mkPublish [] []))).1 = Fuel.
Proof.
  apply (handshake_eof_spins (mkIo [Received [x03; x00]] [] []) (mkData [] []) (mkPublish [] []) 1000).
  - constructor; [exists [x03; x00]; reflexivity|constructor].
  - vm_compute. reflexivity.
Defined.

Lemma command_outcomes_witness :
  on_amf0_command_message 5 (Amf0Value.String (str "getStreamLength")) (Amf0Value.Number 0) Amf0Value.Null [] live
    = (Ok tt, live) /\
  on_data 5 (Video 0 [x00]) live = (Err (UnknownStreamID 5), live).
Proof.
  assert (fits 32 (stream_id live)) as Hid by (split; [discriminate|reflexivity]).
  destruct (command_outcomes live 5 0 0 Amf0Value.Null [] (str "getStreamLength") [x00] [] Hid eq_refl
    ltac:(discriminate) eq_refl) as (_ & _ & H1 & H2 & _).
  split; [exact H1|exact H2].
Defined.

End SessionProps.
