(* ===== verification/BitIo.v ===== *)
(** * Byte-level I/O through the bit reader and the bit writer

    [BitReader] and [BitWriter] implement [io::Read] and [io::Write], so the
    codec crates read whole bytes ([read_u8], [read_u32], [read_exact],
    [write_all]) in the middle of a bit stream. This file gives the two the
    provided methods of the standard traits and a small logic in which codec
    proofs are carried out: [reads m xs a] ("[m] consumes the bits [xs] and
    returns [a]") and [writes m xs] ("[m] appends the bits [xs]"), both closed
    under sequencing. *)

From stdpp Require Import base list numbers.
From Stdlib Require Import Strings.Byte.
From S2P Require Import Prelude Io BitRead BitWrite ExpGolomb.

Module BitIo.

(** [io::default_read_exact]: call [read] until the buffer is full; a read of
    zero bytes is the end of the stream. Every turn fills at least a byte. *)
Fixpoint read_exact_loop {T} (rd : nat -> M T ErrorKind (list byte)) (fuel n : nat) : M T ErrorKind (list byte) :=
  match n with
  | O => ret []
  | S _ =>
      match fuel with
      | O => out_of_fuel
      | S fuel =>
          let* bs := rd n in
          match bs with
          | [] => throw UnexpectedEof
          | _ => let* bs' := read_exact_loop rd fuel (n - length bs) in ret (bs ++ bs')
          end
      end
  end.

(** The provided [io::Write::write_all]: call [write] until the buffer is
    empty; a write of zero bytes is an error. *)
Fixpoint write_all_loop {W} (wr : list byte -> M W ErrorKind Z) (fuel : nat) (buf : list byte) : M W ErrorKind unit :=
  match buf with
  | [] => ret tt
  | _ =>
      match fuel with
      | O => out_of_fuel
      | S fuel =>
          let* n := wr buf in
          if n =? 0 then throw WriteZero
          else let* buf' := unwrap (slice n (blen buf) buf) in write_all_loop wr fuel buf'
      end
  end.

#[global] Instance bit_reader_IoRead {T} `{IoRead T} : IoRead (BitReader.t T) :=
  {| Io.read := BitReader.read; Io.read_exact n := read_exact_loop BitReader.read n n |}.

#[global] Instance bit_writer_IoWrite {W} `{IoWrite W} : IoWrite (BitWriter.t W) :=
  {| Io.write := BitWriter.write;
     Io.write_all buf := write_all_loop BitWriter.write (length buf) buf;
     Io.flush := BitWriter.flush |}.

(** [BitReader::new(reader)] over a [&mut Cursor]: the cursor is the one the
    bit reader leaves. *)
Definition with_bit_reader {A} (m : M (BitReader.t Cursor) ErrorKind A) : M Cursor ErrorKind A :=
  fun c => let '(x, r) := m (BitReader.new c) in (x, BitReader.data r).

(** [BitWriter::new(writer)] over a [&mut W]. *)
Definition with_bit_writer {W A} (m : M (BitWriter.t W) ErrorKind A) : M W ErrorKind A :=
  fun w => let '(x, bw) := m (BitWriter.new w) in (x, BitWriter.writer bw).

(** ** Reading *)

(** The reader is at a position of its buffer, and the buffer is one Rust can
    allocate. *)
Definition ready (r : BitReader.t Cursor) : Prop :=
  BitReader.inv r /\ 8 * blen (inner (BitReader.data r)) < 2 ^ 62.

(** [m] consumes the bits [xs] and returns [a], provided what follows them
    satisfies [P]. *)
Definition reads_on {A} (P : list bool -> Prop) (m : M (BitReader.t Cursor) ErrorKind A) (xs : list bool) (a : A) : Prop :=
  forall r ys, P ys -> ready r -> BitReader.bits r = xs ++ ys ->
  exists r', m r = (Ok a, r') /\ BitReader.bits r' = ys /\ ready r'
    /\ inner (BitReader.data r') = inner (BitReader.data r).

Abbreviation reads := (reads_on (fun _ => True)).

(** A successful run keeps the reader inside the same buffer. *)
Definition keeps {A} (m : M (BitReader.t Cursor) ErrorKind A) : Prop :=
  forall r a r', BitReader.inv r -> m r = (Ok a, r') ->
    BitReader.inv r' /\ inner (BitReader.data r') = inner (BitReader.data r).

Lemma keeps_buffer_ret {A} (a : A) : keeps (ret a).
Proof. intros r a' r' Hr. unfold ret. by intros [= _ <-]. Qed.

Lemma keeps_buffer_bind {A B} (m : M (BitReader.t Cursor) ErrorKind A) (k : A -> M _ _ B) :
  keeps m -> (forall a, keeps (k a)) -> keeps (bind m k).
Proof.
  intros Hm Hk r b r' Hr H. minv H. destruct (Hm _ _ _ Hr H0) as [Hs <-].
  by eapply Hk.
Qed.

Lemma keeps_pure {A} (m : M (BitReader.t Cursor) ErrorKind A) :
  (forall r, snd (m r) = r) -> keeps m.
Proof. intros Hm r a r' Hr H. specialize (Hm r). rewrite H in Hm. simpl in Hm. by subst. Qed.

Lemma keeps_checked_u w z : keeps (checked_u w z).
Proof. apply keeps_pure. intros. unfold checked_u. by destruct (_ && _). Qed.

Lemma keeps_checked_i w z : keeps (checked_i w z).
Proof. apply keeps_pure. intros. unfold checked_i. by destruct (_ && _). Qed.

(** Loading the next byte of the buffer. *)
Lemma update_byte_cursor (r r' : BitReader.t Cursor) : BitReader.inv r ->
  BitReader.update_byte r = (Ok tt, r') ->
  exists b, inner (BitReader.data r) !! N.to_nat (pos (BitReader.data r)) = Some b /\
    r' = BitReader.mk (mkCursor (inner (BitReader.data r)) (pos (BitReader.data r) + 1))
           (BitReader.bit_pos r) (b2z b).
Proof.
  intros (_ & Hle & _) H. destruct r as [[bs p] bp cb]. simpl in *. unfold blen in Hle.
  destruct (bs !! N.to_nat p) as [b|] eqn:Hb.
  - exists b. split; [done|]. unfold BitReader.update_byte in H.
    erewrite bind_ok in H; [|apply zoom_ok; simpl; by apply BitReader.read_exact_byte].
    by injection H as <-.
  - apply lookup_ge_None in Hb. exfalso. revert H. unfold BitReader.update_byte.
    erewrite bind_err; [|apply zoom_err; simpl; unfold cursor_read_exact, cursor_rest; simpl;
      rewrite decide_False by (rewrite length_drop; lia); reflexivity]. done.
Qed.

Lemma keeps_read_bit : keeps BitReader.read_bit.
Proof.
  intros r a r' Hinv H. destruct (Hinv) as ([Hp Hc] & Hle & Hcur). unfold BitReader.read_bit in H.
  erewrite bind_ok in H; [|done].
  apply bind_Ok_inv in H as ([] & r1 & H1 & H). erewrite bind_ok in H; [|done].
  injection H as _ <-. destruct (BitReader.is_aligned r) eqn:Ha.
  - destruct (update_byte_cursor r r1 Hinv H1) as (b & Hb & ->).
    pose proof (lookup_lt_Some _ _ _ Hb) as Hlt.
    unfold BitReader.is_aligned in Ha. apply Z.eqb_eq in Ha.
    split; [|done]. split; [split; simpl; [rewrite Ha; done|apply b2z_fits]|].
    simpl. unfold blen in *. split; [lia|]. intros _. exists b.
    split; [lia|]. split; [|done]. rewrite <-Hb. f_equal. lia.
  - injection H1 as <-. split; [|done].
    split; [split; simpl; [apply Z.mod_pos_bound; lia|done]|]. split; [done|].
    intros _. by apply Hcur.
Qed.

Lemma keeps_read_bits_loop n : forall acc, keeps (BitReader.read_bits_loop n acc).
Proof.
  induction n as [|n IH]; intros acc; [apply keeps_buffer_ret|].
  apply keeps_buffer_bind; [apply keeps_read_bit|]. intros b. apply IH.
Qed.

Lemma keeps_count_zeros fuel : forall lz, keeps (ExpGolomb.count_zeros fuel lz).
Proof.
  induction fuel as [|fuel IH]; intros lz; [by apply keeps_pure|].
  apply keeps_buffer_bind; [apply keeps_read_bit|]. intros [|]; [apply keeps_buffer_ret|].
  apply keeps_buffer_bind; [apply keeps_checked_i|]. intros z. apply IH.
Qed.

Lemma keeps_read_exp_golomb : keeps ExpGolomb.read_exp_golomb.
Proof.
  apply keeps_buffer_bind; [by apply keeps_pure|]. intros r.
  apply keeps_buffer_bind; [apply keeps_count_zeros|]. intros z.
  apply keeps_buffer_bind; [apply keeps_read_bits_loop|]. intros. apply keeps_checked_u.
Qed.

Lemma keeps_read_signed_exp_golomb : keeps ExpGolomb.read_signed_exp_golomb.
Proof.
  apply keeps_buffer_bind; [apply keeps_read_exp_golomb|]. intros z.
  destruct (_ =? 0); apply keeps_checked_i.
Qed.

Lemma keeps_read_byte_loop n : forall acc, keeps (BitReader.read_byte_loop n acc).
Proof.
  induction n as [|n IH]; intros acc; [apply keeps_buffer_ret|].
  apply keeps_buffer_bind; [apply keeps_read_bit|]. intros b. apply IH.
Qed.

Lemma keeps_read_unaligned n : keeps (BitReader.read_unaligned n).
Proof.
  induction n as [|n IH]; [apply keeps_buffer_ret|].
  apply keeps_buffer_bind; [apply keeps_read_byte_loop|]. intros b.
  apply keeps_buffer_bind; [apply IH|]. intros bs. apply keeps_buffer_ret.
Qed.

Lemma keeps_read n : keeps (BitReader.read n).
Proof.
  intros r a r' Hinv H. unfold BitReader.read in H. erewrite bind_ok in H; [|done].
  destruct (BitReader.is_aligned r) eqn:Ha; [|by eapply keeps_read_unaligned].
  destruct (Hinv) as (Hwf & Hle & Hcur). destruct r as [[bs p] bp cb].
  unfold zoom in H. simpl in *. injection H as <- <-. split; [|done].
  split; [done|]. split; [|unfold BitReader.is_aligned in *; simpl in *; congruence].
  simpl. unfold cursor_rest, blen in *. simpl. rewrite length_take, length_drop. lia.
Qed.

(** A command that consumes [xs] from every stream and keeps the reader. *)
Lemma reads_keeps {A} P (m : M (BitReader.t Cursor) ErrorKind A) xs a :
  keeps m ->
  (forall r ys, BitReader.wf r -> BitReader.bits r = xs ++ ys ->
     exists r', m r = (Ok a, r') /\ BitReader.bits r' = ys /\ BitReader.wf r') ->
  reads_on P m xs a.
Proof.
  intros Hk Hm r ys _ [Hinv Hlen] Hb. destruct (Hm r ys) as (r' & H1 & Hb1 & _); [apply Hinv|done|].
  exists r'. destruct (Hk _ _ _ Hinv H1) as [Hi He]. split; [done|]. split; [done|].
  split; [|done]. split; [done|]. by rewrite He.
Qed.

Lemma reads_ret {A} P (a : A) : reads_on P (ret a) [] a.
Proof. intros r ys HP Hr Hb. exists r. auto. Qed.

Lemma reads_bind {A B} P (m : M (BitReader.t Cursor) ErrorKind A) (k : A -> M _ _ B) xs ys a b :
  reads m xs a -> reads_on P (k a) ys b -> reads_on P (bind m k) (xs ++ ys) b.
Proof.
  intros Hm Hk r zs HP Hr Hb. rewrite <-(assoc_L (++)) in Hb.
  destruct (Hm r _ I Hr Hb) as (r1 & H1 & Hb1 & Hr1 & He1).
  destruct (Hk r1 _ HP Hr1 Hb1) as (r2 & H2 & Hb2 & Hr2 & He2).
  exists r2. erewrite bind_ok; [|exact H1]. by rewrite He2, He1.
Qed.

(** The last command of a sequence, and a command without input. *)
Lemma reads_last {A B} P (m : M (BitReader.t Cursor) ErrorKind A) (k : A -> M _ _ B) xs a b :
  reads m xs a -> reads_on P (k a) [] b -> reads_on P (bind m k) xs b.
Proof. intros Hm Hk. rewrite <-(app_nil_r xs). by eapply reads_bind. Qed.

Lemma reads_first {A B} P (m : M (BitReader.t Cursor) ErrorKind A) (k : A -> M _ _ B) ys a b :
  reads m [] a -> reads_on P (k a) ys b -> reads_on P (bind m k) ys b.
Proof. intros Hm Hk. change ys with ([] ++ ys). by eapply reads_bind. Qed.

Lemma reads_bit P b : reads_on P BitReader.read_bit [b] b.
Proof. apply reads_keeps; [apply keeps_read_bit|]. intros. by apply BitReader.read_bit_cons. Qed.

Lemma reads_bits P n count v : Z.of_nat n = count -> (n <= 64)%nat -> fits count v ->
  reads_on P (BitReader.read_bits count) (val_bits n v) v.
Proof.
  intros <- Hn Hv. apply reads_keeps; [apply keeps_read_bits_loop|]. intros r ys Hwf Hb.
  destruct (BitReader.read_bits_app r (Z.of_nat n) (val_bits n v) ys Hwf Hb) as (r' & H1 & H2 & H3);
    [by rewrite length_val_bits|lia|].
  rewrite bits_val_val_bits_small in H1 by done. eauto.
Qed.

(** [read_bits(c)? as uW] with [c <= W]. *)
Lemma reads_bits_as {B} P n count w v (k : Z -> M _ ErrorKind B) ys b :
  Z.of_nat n = count -> (n <= 64)%nat -> fits count v -> count <= w ->
  reads_on P (k v) ys b ->
  reads_on P (let* x := BitReader.read_bits count in k (wrap w x)) (val_bits n v ++ ys) b.
Proof.
  intros Hc Hn Hv Hw Hk. eapply reads_bind; [by apply reads_bits|]. unfold wrap.
  rewrite Z.mod_small; [done|]. unfold fits in Hv.
  assert (2 ^ count <= 2 ^ w) by (apply Z.pow_le_mono_r; lia). lia.
Qed.

Lemma reads_ue P n : 0 <= n < 2 ^ 64 - 1 -> reads_on P ExpGolomb.read_exp_golomb (ExpGolomb.code n) n.
Proof.
  intros Hn. apply reads_keeps; [apply keeps_read_exp_golomb|]. intros.
  by apply ExpGolomb.read_exp_golomb_app.
Qed.

Lemma reads_se P z : - 2 ^ 63 < z < 2 ^ 63 ->
  reads_on P ExpGolomb.read_signed_exp_golomb (ExpGolomb.code (ExpGolomb.zigzag z)) z.
Proof.
  intros Hz. apply reads_keeps; [apply keeps_read_signed_exp_golomb|]. intros.
  by apply ExpGolomb.read_signed_exp_golomb_app.
Qed.

Lemma reads_checked_u P w z : fits w z -> reads_on P (checked_u w z) [] z.
Proof. intros Hz r ys HP Hr Hb. exists r. by rewrite checked_u_ok. Qed.

Lemma reads_checked_i P w z : - 2 ^ (w - 1) <= z < 2 ^ (w - 1) -> reads_on P (checked_i w z) [] z.
Proof. intros Hz r ys HP Hr Hb. exists r. by rewrite checked_i_ok. Qed.

(** A command that looks at the reader before it consumes [xs]. *)
Lemma reads_get {B} P (k : BitReader.t Cursor -> M _ ErrorKind B) xs b :
  (forall r, (length xs <= length (BitReader.bits r))%nat -> reads_on P (k r) xs b) ->
  reads_on P (let* r := get in k r) xs b.
Proof.
  intros Hk r ys HP Hr Hb. erewrite bind_ok; [|done].
  apply (Hk r); [rewrite Hb, length_app; lia|done..].
Qed.

(** [yields m xs o]: whatever follows [xs], the outcome of [m] is [o], a
    result, an error or a panic. *)
Definition yields {A} (m : M (BitReader.t Cursor) ErrorKind A) (xs : list bool) (o : res ErrorKind A) : Prop :=
  forall r ys, ready r -> BitReader.bits r = xs ++ ys -> fst (m r) = o.

Lemma yields_then {A B} (m : M (BitReader.t Cursor) ErrorKind A) (k : A -> M _ _ B) xs ys a o :
  reads m xs a -> yields (k a) ys o -> yields (bind m k) (xs ++ ys) o.
Proof.
  intros Hm Hk r zs Hr Hb. rewrite <-(assoc_L (++)) in Hb.
  destruct (Hm r _ I Hr Hb) as (r1 & H1 & Hb1 & Hr1 & _).
  erewrite bind_ok; [|exact H1]. by eapply Hk.
Qed.

Lemma yields_reads {A} (m : M (BitReader.t Cursor) ErrorKind A) xs a : reads m xs a -> yields m xs (Ok a).
Proof. intros Hm r ys Hr Hb. by destruct (Hm r ys I Hr Hb) as (r' & -> & _). Qed.

(** The first command fails or panics. *)
Lemma yields_stop {A B} (m : M (BitReader.t Cursor) ErrorKind A) (k : A -> M _ _ B) xs o o' ys :
  yields m xs o -> match o with Ok _ => False | Err e => o' = Err e | Panic => o' = Panic | Fuel => o' = Fuel end ->
  yields (bind m k) (xs ++ ys) o'.
Proof.
  intros Hm Ho r zs Hr Hb. rewrite <-(assoc_L (++)) in Hb. specialize (Hm r _ Hr Hb).
  unfold bind. destruct (m r) as [[a|e| |] r1]; simpl in Hm; subst o; simpl in *; [done|by subst..].
Qed.

(** The number of bits left determines the position. *)
Lemma position_bits (r : BitReader.t Cursor) : BitReader.inv r ->
  BitReader.position r + blen (BitReader.bits r) = 8 * blen (inner (BitReader.data r)).
Proof.
  intros Hinv. destruct (BitReader.inv_bits r Hinv) as [-> Hp]. unfold blen in *.
  rewrite length_drop, length_bytes_bits. lia.
Qed.

(** [seek_bits] forward over the bits [xs]; the position it returns is unused. *)
Lemma reads_seek {B} P n count xs (m : M (BitReader.t Cursor) ErrorKind B) ys b :
  length xs = n -> Z.of_nat n = count -> (0 < n)%nat -> reads_on P m ys b ->
  reads_on P (BitReader.seek_bits count ;;; m) (xs ++ ys) b.
Proof.
  intros Hxs <- Hn Hm r zs HP [Hinv Hlen] Hb. rewrite <-(assoc_L (++)) in Hb.
  pose proof (position_bits r Hinv) as Hpos. pose proof (BitReader.inv_bits r Hinv) as [Hbits Hp].
  rewrite Hb, blen_app in Hpos. pose proof (blen_nonneg (ys ++ zs)).
  assert (blen xs = Z.of_nat n) as Hx by (unfold blen; lia).
  set (target := BitReader.position r + Z.of_nat n).
  destruct (BitReader.seeked_inv (inner (BitReader.data r)) target (BitReader.current_byte r))
    as [Hi He]; [unfold target; lia|apply Hinv|].
  set (r1 := BitReader.seeked _ _ _) in *.
  assert (inner (BitReader.data r1) = inner (BitReader.data r)) as Hin
    by (unfold r1, BitReader.seeked; by destruct (_ =? _)).
  destruct (Hm r1 zs) as (r2 & H2 & Hb2 & Hr2 & He2).
  { exact HP. }
  { split; [done|]. by rewrite Hin. }
  { destruct (BitReader.inv_bits r1 Hi) as [-> _]. rewrite Hin, He.
    unfold target. rewrite Z2Nat.inj_add, <-drop_drop, <-Hbits, Hb, Nat2Z.id, <-Hxs by lia.
    apply drop_app_length. }
  exists r2. erewrite bind_ok; [|apply BitReader.seek_bits_to; [done|lia|lia|lia|lia]].
  fold target r1. by rewrite He2, Hin.
Qed.

(** [read] over a stream with enough bits fills the buffer. *)
Lemma reads_read P bs n : length bs = n -> reads_on P (BitReader.read n) (bytes_bits bs) bs.
Proof.
  intros Hl. apply reads_keeps; [apply keeps_read|]. intros r ys Hwf Hb.
  assert (length (bytes_bits bs) = 8 * n)%nat as Hlb by (rewrite length_bytes_bits; lia).
  destruct (BitReader.read_refines r n Hwf) as (bs' & r' & H1 & H2 & H3 & H4).
  { rewrite Hb, length_app. lia. }
  rewrite Hb, take_app_length' in H2 by done. rewrite Hb, drop_app_length' in H3 by done.
  apply bytes_bits_inj in H2 as ->. eauto.
Qed.

Lemma reads_read_exact P bs n : length bs = n ->
  reads_on P (Io.read_exact (T := BitReader.t Cursor) n) (bytes_bits bs) bs.
Proof.
  intros Hl. simpl. destruct n as [|n]; [by destruct bs; [apply reads_ret|]|].
  cbn [read_exact_loop]. eapply reads_last; [by apply reads_read|].
  destruct bs as [|b bs]; [done|]. rewrite Hl, Nat.sub_diag.
  destruct n; simpl; (eapply reads_first; [apply reads_ret|]);
    rewrite app_nil_r; apply reads_ret.
Qed.

Section byteorder.
Context `{BO : ByteOrder}.

Lemma reads_uint_be P n z : 0 <= z < 256 ^ Z.of_nat n ->
  reads_on P (read_uint (T := BitReader.t Cursor) BigEndian n) (bytes_bits (be_bytes n z)) z.
Proof.
  intros Hz. eapply reads_last; [apply reads_read_exact, length_be_bytes|].
  rewrite bo_read_be, be_val_be_bytes by done. apply reads_ret.
Qed.

Lemma reads_uint_le P n z : 0 <= z < 256 ^ Z.of_nat n ->
  reads_on P (read_uint (T := BitReader.t Cursor) LittleEndian n) (bytes_bits (le_bytes n z)) z.
Proof.
  intros Hz. eapply reads_last; [apply reads_read_exact, length_le_bytes|].
  rewrite bo_read_le, le_val_le_bytes by done. apply reads_ret.
Qed.
End byteorder.

(** ** Parsers that cannot panic

    [calm m]: whatever is in the buffer, [m] returns or fails with one of the
    two errors a parser reports, and stays in the buffer; it neither panics
    nor diverges. *)
Definition parse_error (e : ErrorKind) : Prop := e = UnexpectedEof \/ e = InvalidData.

Definition calm {A} (m : M (BitReader.t Cursor) ErrorKind A) : Prop := forall r, ready r ->
  match m r with
  | (Ok _, r') => ready r' /\ inner (BitReader.data r') = inner (BitReader.data r)
  | (Err e, _) => parse_error e
  | (Panic, _) => False
  | (Fuel, _) => False
  end.

Lemma calm_ret {A} (a : A) : calm (ret a).
Proof. intros r Hr. done. Qed.

Lemma calm_get : calm get.
Proof. intros r Hr. done. Qed.

Lemma calm_throw {A} e : parse_error e -> calm (throw (A := A) e).
Proof. intros He r Hr. done. Qed.

Lemma calm_bind {A B} (m : M (BitReader.t Cursor) ErrorKind A) (k : A -> M _ _ B) :
  calm m -> (forall a, calm (k a)) -> calm (bind m k).
Proof.
  intros Hm Hk r Hr. specialize (Hm r Hr). unfold bind. destruct (m r) as [[a|e| |] r1]; try done.
  destruct Hm as [Hr1 He]. specialize (Hk a r1 Hr1). by rewrite He in Hk.
Qed.

Lemma calm_read_bit : calm BitReader.read_bit.
Proof.
  intros r [Hinv Hl]. destruct (BitReader.bits r) as [|b bs] eqn:Hb.
  - destruct (BitReader.read_bit_nil r (proj1 Hinv) Hb) as (r' & -> & _). by left.
  - destruct (BitReader.read_bit_cons r b bs (proj1 Hinv) Hb) as (r' & H & _). rewrite H.
    destruct (keeps_read_bit r b r' Hinv H) as [Hi He]. split; [|done]. split; [done|]. by rewrite He.
Qed.

Lemma calm_read_bits count : calm (BitReader.read_bits count).
Proof.
  unfold BitReader.read_bits. generalize 0. induction (Z.to_nat (Z.min count 64)) as [|n IH]; intros acc;
    [apply calm_ret|]. apply calm_bind; [apply calm_read_bit|]. intros b. apply IH.
Qed.

Lemma calm_read_unaligned n : calm (BitReader.read_unaligned n).
Proof.
  assert (forall k acc, calm (BitReader.read_byte_loop k acc)) as Hbyte.
  { induction k as [|k IH]; intros acc; [apply calm_ret|].
    apply calm_bind; [apply calm_read_bit|]. intros b. apply IH. }
  induction n as [|n IH]; [apply calm_ret|].
  apply calm_bind; [apply Hbyte|]. intros b. apply calm_bind; [apply IH|]. intros bs. apply calm_ret.
Qed.

Lemma calm_read n : calm (BitReader.read n).
Proof.
  intros r Hr. destruct (BitReader.read n r) as [o r'] eqn:H.
  destruct (BitReader.is_aligned r) eqn:Ha.
  - assert (exists bs, o = Ok bs) as [bs ->].
    { unfold BitReader.read in H. erewrite bind_ok in H; [|done]. rewrite Ha in H.
      unfold zoom in H. simpl in H. injection H as <- _. eauto. }
    destruct (keeps_read n r bs r' (proj1 Hr) H) as [Hi He]. split; [|done]. split; [done|].
    rewrite He. apply Hr.
  - unfold BitReader.read in H. erewrite bind_ok in H; [|done]. rewrite Ha in H.
    pose proof (calm_read_unaligned n r Hr) as Hc. by rewrite H in Hc.
Qed.

Lemma calm_read_exact n : calm (Io.read_exact (T := BitReader.t Cursor) n).
Proof.
  simpl. assert (forall fuel n, (n <= fuel)%nat -> calm (read_exact_loop BitReader.read fuel n)) as Hloop;
    [|by apply Hloop].
  clear n. induction fuel as [|fuel IH]; intros [|n] Hn; [apply calm_ret|lia|apply calm_ret|].
  cbn [read_exact_loop]. apply calm_bind; [apply calm_read|].
  intros [|b bs]; [apply calm_throw; by left|].
  apply calm_bind; [apply IH; simpl; lia|]. intros bs'. apply calm_ret.
Qed.

Lemma calm_uint `{ByteOrder} e n : calm (read_uint (T := BitReader.t Cursor) e n).
Proof. apply calm_bind; [apply calm_read_exact|]. intros bs. apply calm_ret. Qed.

(** A forward seek of less than a byte either lands in the buffer or, when it
    has to load a byte past the end, fails. *)
Lemma calm_seek count : 0 < count < 8 -> calm (BitReader.seek_bits count).
Proof.
  intros Hc r [Hinv Hl]. destruct (BitReader.inv_bits r Hinv) as [_ Hp].
  destruct (Z.le_gt_cases (BitReader.position r + count) (8 * blen (inner (BitReader.data r)))) as [Hle|Hgt].
  - rewrite BitReader.seek_bits_to by (done || lia).
    destruct (BitReader.seeked_inv (inner (BitReader.data r)) (BitReader.position r + count)
      (BitReader.current_byte r)) as [Hi _]; [lia|apply Hinv|].
    assert (inner (BitReader.data (BitReader.seeked (inner (BitReader.data r))
      (BitReader.position r + count) (BitReader.current_byte r))) = inner (BitReader.data r)) as He
      by (unfold BitReader.seeked; by destruct (_ =? _)).
    split; [|done]. split; [done|]. by rewrite He.
  - rewrite BitReader.seek_bits_move by (apply Hinv || lia).
    destruct Hinv as ([Hbp Hcb] & Hpos & Hcur). destruct r as [[bs p] bp cb]. simpl in *.
    unfold BitReader.position, BitReader.is_aligned, blen in *. simpl in *.
    pose proof (Z.div_mod (bp + count) 8 ltac:(lia)) as Hdm.
    pose proof (Z.mod_pos_bound (bp + count) 8 ltac:(lia)) as Hm.
    set (u := if bp =? 0 then 0 else 1) in *.
    set (q := Z.of_N p + ((bp + count) / 8 - u)).
    assert (q = Z.of_nat (length bs) /\ (bp + count) `mod` 8 <> 0) as [Hq Hnz].
    { unfold q, u. destruct (Z.eqb_spec bp 0); lia. }
    erewrite bind_ok; [|apply zoom_ok; simpl; unfold cursor_seek; simpl; fold q;
      rewrite decide_True by (unfold fits; lia); reflexivity].
    erewrite bind_ok; [|apply checked_u_ok; unfold fits; lia].
    erewrite bind_ok; [|done]. erewrite bind_ok; [|done].
    unfold BitReader.is_aligned; simpl. rewrite (proj2 (Z.eqb_neq _ 0)) by done.
    erewrite bind_err; [by left|]. unfold BitReader.update_byte. erewrite bind_err; [done|].
    apply zoom_err. simpl. unfold cursor_read_exact, cursor_rest; simpl.
    by rewrite decide_False by (rewrite length_drop; lia).
Qed.

(** [calm_tac] walks through a parser made of these commands. *)
Ltac calm_tac :=
  repeat first
    [ match goal with |- calm (bind _ _) => apply calm_bind; [|intro] end
    | apply calm_ret | apply calm_get | apply calm_read_bit | apply calm_read_bits
    | apply calm_uint | apply calm_read_exact | apply calm_seek; lia
    | apply calm_throw; first [by left | by right]
    | progress cbv zeta
    | match goal with |- calm (if ?b then _ else _) => destruct b end ].

(** ** Running a bit-level parser on a cursor *)

(** Bits that fill whole bytes are the bits of those bytes. *)
Lemma bits_bytes n : forall xs, length xs = (8 * n)%nat ->
  exists bs, bytes_bits bs = xs /\ length bs = n.
Proof.
  induction n as [|n IH]; intros xs Hl.
  { exists []. split; [|done]. by destruct xs; [|simpl in Hl; lia]. }
  destruct (IH (drop 8 xs)) as (bs & Hbs & Hn); [rewrite length_drop; lia|].
  exists (z2b (bits_val (take 8 xs)) :: bs). split; [|simpl; by rewrite Hn].
  rewrite bytes_bits_cons, Hbs. etrans; [|apply (take_drop 8 xs)]. f_equal. unfold byte_bits.
  assert (length (take 8 xs) = 8%nat) as H8 by (rewrite length_take; lia).
  pose proof (bits_val_range (take 8 xs)) as Hr. unfold blen in Hr. rewrite H8 in Hr.
  rewrite b2z_z2b_small by exact Hr. by apply val_bits_bits_val.
Qed.

Lemma ready_new pre post : 8 * blen (pre ++ post) < 2 ^ 62 -> ready (BitReader.new (at_pos pre post)).
Proof.
  intros Hl. split; [|done]. split; [apply BitReader.wf_new|]. split; [|done].
  simpl. unfold blen. rewrite length_app. lia.
Qed.

Lemma bits_new_at pre post : BitReader.bits (BitReader.new (at_pos pre post)) = bytes_bits post.
Proof. rewrite BitReader.bits_new. simpl. by rewrite cursor_rest_at. Qed.

(** A reader whose unread bits are whole bytes is aligned, and its cursor has
    those bytes left. *)
Lemma whole_bytes_left (r : BitReader.t Cursor) pre post : ready r ->
  inner (BitReader.data r) = pre ++ post -> BitReader.bits r = bytes_bits post ->
  BitReader.is_aligned r = true /\ BitReader.data r = at_pos pre post.
Proof.
  intros [Hinv _] Hin Hb. pose proof (position_bits r Hinv) as Hpos.
  rewrite Hb, Hin, blen_app in Hpos. unfold blen in Hpos. rewrite length_bytes_bits in Hpos.
  destruct Hinv as ([Hp _] & _). unfold BitReader.position in Hpos.
  destruct (BitReader.is_aligned r) eqn:Ha.
  - split; [done|]. destruct (BitReader.data r) as [bs p]. simpl in *. unfold at_pos.
    subst bs. f_equal. lia.
  - exfalso. unfold BitReader.is_aligned in Ha. apply Z.eqb_neq in Ha. lia.
Qed.

(** The check [if !bit_reader.is_aligned()], where whole bytes follow. *)
Definition whole_bytes (ys : list bool) : Prop := exists n, length ys = (8 * n)%nat.

Lemma whole_bytes_bits bs : whole_bytes (bytes_bits bs).
Proof. exists (length bs). apply length_bytes_bits. Qed.

Lemma reads_aligned {A} e (m : M (BitReader.t Cursor) ErrorKind A) b :
  reads_on whole_bytes m [] b ->
  reads_on whole_bytes
    (let* r := get in if negb (BitReader.is_aligned r) then throw e else m) [] b.
Proof.
  intros Hm r ys [n Hn] Hr Hb. erewrite bind_ok; [|done].
  assert (BitReader.is_aligned r = true) as ->.
  { pose proof (position_bits r (proj1 Hr)) as Hpos. rewrite Hb in Hpos. simpl in Hpos.
    destruct Hr as [([Hp _] & _) _]. unfold BitReader.position, blen in Hpos.
    destruct (BitReader.is_aligned r) eqn:Ha; [done|].
    unfold BitReader.is_aligned in Ha. apply Z.eqb_neq in Ha. lia. }
  apply Hm; [by exists n|done|done].
Qed.

(** A bit-level parser that consumes the bits of [bs] takes the cursor over
    [bs], wherever it starts. *)
Lemma with_bit_reader_at {A} (P : list bool -> Prop) (m : M (BitReader.t Cursor) ErrorKind A) bs a pre post :
  reads_on P m (bytes_bits bs) a -> P (bytes_bits post) -> 8 * blen (pre ++ bs ++ post) < 2 ^ 62 ->
  with_bit_reader m (at_pos pre (bs ++ post)) = (Ok a, at_pos (pre ++ bs) post).
Proof.
  intros Hm HP Hl. destruct (Hm (BitReader.new (at_pos pre (bs ++ post))) (bytes_bits post) HP)
    as (r' & H1 & Hb & Hr & He); [by apply ready_new|by rewrite bits_new_at, bytes_bits_app|].
  unfold with_bit_reader. rewrite H1. f_equal.
  apply (whole_bytes_left r'); [done| |done]. rewrite He. simpl. by rewrite (assoc_L (++)).
Qed.

(** ** Fields packed in a byte *)

Lemma val_bits_app n m a b : fits (Z.of_nat n) a -> fits (Z.of_nat m) b ->
  val_bits (n + m) (a * 2 ^ Z.of_nat m + b) = val_bits n a ++ val_bits m b.
Proof.
  intros [Ha1 Ha2] [Hb1 Hb2].
  assert (fits (Z.of_nat (n + m)) (a * 2 ^ Z.of_nat m + b)) as Hf.
  { rewrite Nat2Z.inj_add. unfold fits. rewrite Z.pow_add_r by lia. nia. }
  apply bits_val_inj; [by rewrite length_app, !length_val_bits|].
  rewrite bits_val_val_bits_small by done. rewrite bits_val_app.
  rewrite !bits_val_val_bits_small by done. unfold blen. by rewrite length_val_bits.
Qed.

Lemma byte_val_bits z : fits 8 z -> bytes_bits (be_bytes 1 z) = val_bits 8 z.
Proof.
  intros Hz. change (be_bytes 1 z) with [z2b z]. rewrite bytes_bits_cons. unfold byte_bits.
  rewrite b2z_z2b_small by exact Hz. apply app_nil_r.
Qed.

(** A byte that holds a field of [n] bits and one of [m] bits. *)
Lemma packed_byte n m hi a b : (n + m = 8)%nat -> hi = a * 2 ^ Z.of_nat m ->
  fits (Z.of_nat n) a -> fits (Z.of_nat m) b ->
  bytes_bits (be_bytes 1 (hi + b)) = val_bits n a ++ val_bits m b.
Proof.
  intros Hnm -> Ha Hb. rewrite <-val_bits_app, Hnm by done. apply byte_val_bits.
  change 8 with (Z.of_nat 8). rewrite <-Hnm, Nat2Z.inj_add. unfold fits in *.
  rewrite Z.pow_add_r by lia. nia.
Qed.

(** [byte & mask] for a mask of low ones. *)
Lemma land_low m hi b : 0 <= m -> hi `mod` 2 ^ m = 0 -> fits m b -> Z.land (hi + b) (Z.ones m) = b.
Proof.
  intros Hm Hhi Hb. rewrite Z.land_ones by done.
  rewrite Z.add_mod, Hhi, Z.add_0_l, Z.mod_mod by (apply Z.pow_nonzero; lia).
  by apply Z.mod_small.
Qed.

(** ** Automation for layouts

    [rstep] runs the first command of a parser against the first field of the
    layout, [rpure] a first command that consumes nothing; the side conditions
    are ranges of fields. [wrapped] removes the truncations of values that
    fit. *)

Lemma wrap_fits w z : fits w z -> wrap w z = z.
Proof. intros. by apply Z.mod_small. Qed.

Ltac fits_tac := first [ assumption | done | unfold fits in *; lia ].

Ltac wrapped := repeat (rewrite wrap_fits by fits_tac).

Ltac rcmd :=
  first
    [ apply reads_bit
    | apply reads_bits; [reflexivity | lia | fits_tac]
    | apply reads_ue; fits_tac
    | apply reads_se; fits_tac
    | apply reads_uint_be; fits_tac
    | apply reads_uint_le; fits_tac
    | apply reads_read_exact; reflexivity ].

Ltac rstep :=
  first
    [ eapply reads_seek; [rewrite ?length_val_bits; reflexivity | reflexivity | simpl; lia |]
    | eapply reads_bind; [rcmd|] ];
  cbv beta zeta; wrapped.

Ltac rlast :=
  first
    [ rewrite <-(app_nil_r (val_bits _ _)); rstep; apply reads_ret
    | eapply reads_last; [rcmd|]; cbv beta zeta; wrapped; apply reads_ret ].

Ltac rpure :=
  eapply reads_first;
    [ first [ apply reads_ret | apply reads_checked_u; fits_tac | apply reads_checked_i; fits_tac ] |];
  cbv beta zeta.

(** ** Descriptors of the video standards *)

(** Descriptors: [ue(v)], [se(v)], [u(8 n)], and a flag that announces a
    structure. *)
Definition ue (n : Z) : list bool := ExpGolomb.code n.
Definition se (z : Z) : list bool := ExpGolomb.code (ExpGolomb.zigzag z).
Definition u (n : nat) (z : Z) : list bool := bytes_bits (be_bytes n z).
Definition flagged {A} (f : A -> list bool) (o : option A) : list bool :=
  match o with Some a => [true] ++ f a | None => [false] end.

(** The range of an Exp-Golomb coded element (ISO/IEC 14496-10, 7.4.2.1.1
    bounds every one of them by 32 bits). *)
Definition ue_ok (n : Z) : Prop := 0 <= n < 2 ^ 32.
Definition se_ok (z : Z) : Prop := - 2 ^ 31 <= z < 2 ^ 31.

Ltac ranges := unfold ue_ok, se_ok in *.

Lemma se_nonempty z : (1 <= length (se z))%nat.
Proof. unfold se, ExpGolomb.code. rewrite length_app, length_val_bits. lia. Qed.

Lemma length_ses zs : (length zs <= length (zs ≫= se))%nat.
Proof.
  induction zs as [|z zs IH]; [done|].
  change ((z :: zs) ≫= se) with (se z ++ (zs ≫= se)). rewrite length_app.
  pose proof (se_nonempty z). simpl. lia.
Qed.

Lemma yields_pure {A B} (m : M (BitReader.t Cursor) ErrorKind A) (k : A -> M _ _ B) xs a o :
  reads m [] a -> yields (k a) xs o -> yields (bind m k) xs o.
Proof. intros Hm Hk. change xs with ([] ++ xs). by eapply yields_then. Qed.

Ltac ystep :=
  eapply yields_then; [rcmd|]; cbv beta zeta.

(** A forward seek in front of a command with a known outcome. *)
Lemma yields_seek {B} n count xs (m : M (BitReader.t Cursor) ErrorKind B) ys o :
  length xs = n -> Z.of_nat n = count -> (0 < n)%nat -> yields m ys o ->
  yields (BitReader.seek_bits count ;;; m) (xs ++ ys) o.
Proof.
  intros Hx Hc Hn Hm r zs Hr Hb.
  rewrite <-(assoc_L (++)) in Hb.
  assert (exists r1 p, BitReader.seek_bits count r = (Ok p, r1) /\ BitReader.bits r1 = ys ++ zs /\ ready r1)
    as (r1 & p & H1 & Hb1 & Hr1).
  { destruct (reads_seek (fun _ => True) n count xs (ret tt) [] tt Hx Hc Hn (reads_ret _ tt) r (ys ++ zs) I Hr)
      as (r' & H' & Hb' & Hr' & _); [by rewrite app_nil_r|].
    minv H'. injection H' as <-. eauto. }
  erewrite bind_ok; [|exact H1]. by eapply Hm.
Qed.

(** ** Writing *)

Section writes.
Context {W : Type} `{IoWriteLaws W}.

Definition writes (m : M (BitWriter.t W) ErrorKind unit) (xs : list bool) : Prop :=
  forall w, BitWriter.wf w ->
  exists w', m w = (Ok tt, w') /\ BitWriter.bits w' = BitWriter.bits w ++ xs /\ BitWriter.wf w'.

Lemma writes_ret : writes (ret tt) [].
Proof. intros w Hw. exists w. by rewrite app_nil_r. Qed.

Lemma writes_seq (m k : M (BitWriter.t W) ErrorKind unit) xs ys :
  writes m xs -> writes k ys -> writes (m ;;; k) (xs ++ ys).
Proof.
  intros Hm Hk w Hw. destruct (Hm w Hw) as (w1 & H1 & Hb1 & Hw1).
  destruct (Hk w1 Hw1) as (w2 & H2 & Hb2 & Hw2). exists w2.
  erewrite bind_ok; [|exact H1]. split; [done|]. split; [|done].
  by rewrite Hb2, Hb1, (assoc_L (++)).
Qed.

Lemma writes_bit b : writes (BitWriter.write_bit b) [b].
Proof. intros w Hw. by apply BitWriter.write_bit_app. Qed.

Lemma writes_bits n count v : Z.of_nat n = count -> (n <= 64)%nat -> fits count v ->
  writes (BitWriter.write_bits v count) (val_bits n v).
Proof.
  intros <- Hn Hv w Hw.
  destruct (BitWriter.write_bits_app w v (Z.of_nat n) Hw) as (w' & H1 & H2 & H3); [lia|done|].
  rewrite Nat2Z.id in H2. eauto.
Qed.

Lemma writes_unaligned bs : writes (BitWriter.write_unaligned bs) (bytes_bits bs).
Proof.
  induction bs as [|b bs IH]; [apply writes_ret|]. rewrite bytes_bits_cons.
  apply writes_seq; [|done]. apply (writes_bits 8); [done|lia|apply b2z_fits].
Qed.

Lemma aligned_bits (w : BitWriter.t W) : BitWriter.wf w -> BitWriter.is_aligned w = true ->
  BitWriter.bit_pos_ w = 0 /\ BitWriter.bits w = bytes_bits (written (BitWriter.writer w)).
Proof.
  intros [Hp _] Ha. unfold BitWriter.is_aligned in Ha. apply Z.eqb_eq in Ha.
  rewrite Z.mod_small in Ha by done. split; [done|]. unfold BitWriter.bits. rewrite Ha.
  by rewrite take_0, app_nil_r.
Qed.

(** [io::Write::write] takes the whole buffer. *)
Lemma write_takes_all bs (w : BitWriter.t W) : BitWriter.wf w ->
  exists w', BitWriter.write bs w = (Ok (blen bs), w')
    /\ BitWriter.bits w' = BitWriter.bits w ++ bytes_bits bs /\ BitWriter.wf w'.
Proof.
  intros Hw. unfold BitWriter.write. erewrite bind_ok; [|done].
  destruct (BitWriter.is_aligned w) eqn:Ha.
  - destruct (aligned_bits w Hw Ha) as [Hp Hb].
    destruct (write_ok bs (BitWriter.writer w)) as (x & Hx & Hwr).
    eexists. split; [by apply zoom_ok|]. split; [|exact Hw].
    rewrite Hb. unfold BitWriter.bits, BitWriter.set_writer; simpl.
    by rewrite Hwr, Hp, take_0, app_nil_r, bytes_bits_app.
  - destruct (writes_unaligned bs w Hw) as (w' & H1 & Hb & Hw').
    exists w'. by erewrite bind_ok; [|exact H1].
Qed.

Lemma writes_write_all bs : writes (Io.write_all (W := BitWriter.t W) bs) (bytes_bits bs).
Proof.
  intros w Hw. destruct (write_takes_all bs w Hw) as (w' & H1 & Hb & Hw').
  destruct bs as [|b bs]; [by apply writes_ret|]. exists w'. split; [|done]. simpl.
  erewrite bind_ok; [|exact H1].
  rewrite (proj2 (Z.eqb_neq _ 0)) by (rewrite blen_cons; pose proof (blen_nonneg bs); lia).
  erewrite bind_ok; [|unfold unwrap; rewrite slice_Some by (pose proof (blen_nonneg (b :: bs)); lia);
    rewrite Z.sub_diag; reflexivity].
  by destruct (length bs).
Qed.

Context `{BO : ByteOrder}.

Lemma writes_uint_be n z : 0 <= z < 256 ^ Z.of_nat n ->
  writes (write_uint (W := BitWriter.t W) BigEndian n z) (bytes_bits (be_bytes n z)).
Proof.
  intros Hz w Hw. unfold write_uint. rewrite bo_write_be by done.
  by apply writes_write_all.
Qed.

Lemma writes_uint_le n z : 0 <= z < 256 ^ Z.of_nat n ->
  writes (write_uint (W := BitWriter.t W) LittleEndian n z) (bytes_bits (le_bytes n z)).
Proof.
  intros Hz w Hw. unfold write_uint. rewrite bo_write_le by done.
  by apply writes_write_all.
Qed.

(** A bit-level printer of whole bytes, run on a fresh writer and finished,
    appends those bytes. *)
Lemma with_bit_writer_finish (m : M (BitWriter.t W) ErrorKind unit) bs w :
  writes m (bytes_bits bs) ->
  exists w', with_bit_writer (m ;;; BitWriter.finish) w = (Ok w', w') /\ written w' = written w ++ bs.
Proof.
  intros Hm. destruct (Hm (BitWriter.new w)) as (bw & H1 & Hb & Hw); [split; vm_compute; split; congruence|].
  exists (BitWriter.writer bw). unfold with_bit_writer. erewrite bind_ok; [|exact H1].
  assert (BitWriter.bits (BitWriter.new w) = bytes_bits (written w)) as Hn.
  { unfold BitWriter.bits; simpl. by rewrite app_nil_r. }
  rewrite Hn, <-bytes_bits_app in Hb.
  assert (BitWriter.is_aligned bw = true) as Ha.
  { pose proof (BitWriter.length_bits bw Hw) as Hl. rewrite Hb, length_bytes_bits in Hl.
    unfold BitWriter.is_aligned. apply Z.eqb_eq. destruct Hw as [Hp _]. rewrite Z.mod_small by done. lia. }
  destruct (aligned_bits bw Hw Ha) as [_ Hb']. rewrite Hb' in Hb. apply bytes_bits_inj in Hb.
  unfold BitWriter.finish, BitWriter.align. erewrite bind_ok; cycle 1.
  { erewrite bind_ok; [|done]. rewrite Ha. reflexivity. }
  done.
Qed.
End writes.

Ltac wcmd :=
  first
    [ apply writes_ret
    | apply writes_bit
    | apply writes_bits; [reflexivity | lia | fits_tac]
    | apply writes_uint_be; fits_tac
    | apply writes_uint_le; fits_tac
    | apply writes_write_all ].

Ltac wstep := first [ apply writes_seq; [wcmd|] | wcmd ].
End BitIo.
