(* ===== verification/Av1.v ===== *)
(** * [scuffle-av1] (crates/av1/src/config.rs)

    The AV1 codec configuration record and the MPEG-2 TS video descriptor that
    wraps it: [demux], [size] and [mux], and how they fit together. *)

From stdpp Require Import base list numbers.
From Stdlib Require Import Strings.Byte.
From S2P Require Import Prelude Io BitRead BitWrite BytesCursor BitIo.

Module Av1Config.
Import BitIo.

Record AV1CodecConfigurationRecord := mkConfig {
  seq_profile : Z;
  seq_level_idx_0 : Z;
  seq_tier_0 : bool;
  high_bitdepth : bool;
  twelve_bit : bool;
  monochrome : bool;
  chroma_subsampling_x : bool;
  chroma_subsampling_y : bool;
  chroma_sample_position : Z;
  hdr_wcg_idc : Z;
  initial_presentation_delay_minus_one : option Z;
  config_obu : list byte;
}.

Record AV1VideoDescriptor := mkDescriptor {
  tag : Z;
  length_ : Z;
  codec_configuration_record : AV1CodecConfigurationRecord;
}.

(** The part of [demux] that runs on the bit reader; what is left is to fill
    in the OBUs. *)
Definition demux_bits : M (BitReader.t Cursor) ErrorKind (list byte -> AV1CodecConfigurationRecord) :=
  let* marker := BitReader.read_bit in
  if negb marker then throw InvalidData
  else
    let* v := BitReader.read_bits 7 in
    let version := wrap 8 v in
    if negb (version =? 1) then throw InvalidData
    else
      let* v := BitReader.read_bits 3 in
      let seq_profile := wrap 8 v in
      let* v := BitReader.read_bits 5 in
      let seq_level_idx_0 := wrap 8 v in
      let* seq_tier_0 := BitReader.read_bit in
      let* high_bitdepth := BitReader.read_bit in
      let* twelve_bit := BitReader.read_bit in
      let* monochrome := BitReader.read_bit in
      let* chroma_subsampling_x := BitReader.read_bit in
      let* chroma_subsampling_y := BitReader.read_bit in
      let* v := BitReader.read_bits 2 in
      let chroma_sample_position := wrap 8 v in
      let* v := BitReader.read_bits 2 in
      let hdr_wcg_idc := wrap 8 v in
      BitReader.seek_bits 1 ;;;
      let* present := BitReader.read_bit in
      let* initial_presentation_delay_minus_one :=
        if present
        then let* v := BitReader.read_bits 4 in ret (Some (wrap 8 v))
        else BitReader.seek_bits 4 ;;; ret None in
      let* r := get in
      if negb (BitReader.is_aligned r) then throw InvalidData
      else
        ret (mkConfig seq_profile seq_level_idx_0 seq_tier_0 high_bitdepth twelve_bit
               monochrome chroma_subsampling_x chroma_subsampling_y
               chroma_sample_position hdr_wcg_idc initial_presentation_delay_minus_one).

Definition demux : M Cursor ErrorKind AV1CodecConfigurationRecord :=
  let* config := with_bit_reader demux_bits in
  let* config_obu := BytesCursorExt.extract_remaining in
  ret (config config_obu).

Definition size (c : AV1CodecConfigurationRecord) : Z :=
  1 + 1 + 1 + 1 + blen (config_obu c).

Section mux.
Context {W : Type} `{IoWrite W}.

Definition mux_bits (c : AV1CodecConfigurationRecord) : M (BitWriter.t W) ErrorKind unit :=
  BitWriter.write_bit true ;;;
  BitWriter.write_bits 1 7 ;;;
  BitWriter.write_bits (seq_profile c) 3 ;;;
  BitWriter.write_bits (seq_level_idx_0 c) 5 ;;;
  BitWriter.write_bit (seq_tier_0 c) ;;;
  BitWriter.write_bit (high_bitdepth c) ;;;
  BitWriter.write_bit (twelve_bit c) ;;;
  BitWriter.write_bit (monochrome c) ;;;
  BitWriter.write_bit (chroma_subsampling_x c) ;;;
  BitWriter.write_bit (chroma_subsampling_y c) ;;;
  BitWriter.write_bits (chroma_sample_position c) 2 ;;;
  BitWriter.write_bits 0 3 ;;;
  match initial_presentation_delay_minus_one c with
  | Some delay => BitWriter.write_bit true ;;; BitWriter.write_bits delay 4
  | None => BitWriter.write_bit false ;;; BitWriter.write_bits 0 4
  end.

Definition mux (c : AV1CodecConfigurationRecord) : M W ErrorKind unit :=
  with_bit_writer (mux_bits c ;;; BitWriter.finish) ;;;
  write_all (config_obu c).
End mux.

(** [AV1VideoDescriptor::demux] *)
Definition descriptor_demux `{ByteOrder} : M Cursor ErrorKind AV1VideoDescriptor :=
  let* tag := read_u8 in
  if negb (tag =? 0x80) then throw InvalidData
  else
    let* length := read_u8 in
    if negb (length =? 4) then throw InvalidData
    else
      let* record := demux in
      ret (mkDescriptor tag length record).

(** ** The bit layout *)

(** The 32 bits of the header, with the value of the two HDR/WCG bits. *)
Definition layout (hdr : Z) (c : AV1CodecConfigurationRecord) : list bool :=
  [true] ++ val_bits 7 1 ++ val_bits 3 (seq_profile c) ++ val_bits 5 (seq_level_idx_0 c) ++
  [seq_tier_0 c] ++ [high_bitdepth c] ++ [twelve_bit c] ++ [monochrome c] ++
  [chroma_subsampling_x c] ++ [chroma_subsampling_y c] ++
  val_bits 2 (chroma_sample_position c) ++ val_bits 2 hdr ++ [false] ++
  match initial_presentation_delay_minus_one c with
  | Some delay => [true] ++ val_bits 4 delay
  | None => [false] ++ val_bits 4 0
  end.

(** Every field fits the bits it has in the record. *)
Definition config_ok (c : AV1CodecConfigurationRecord) : Prop :=
  fits 3 (seq_profile c) /\ fits 5 (seq_level_idx_0 c) /\ fits 2 (chroma_sample_position c) /\
  fits 2 (hdr_wcg_idc c) /\
  match initial_presentation_delay_minus_one c with Some delay => fits 4 delay | None => True end.

Definition set_hdr_wcg_idc (hdr : Z) (c : AV1CodecConfigurationRecord) : AV1CodecConfigurationRecord :=
  mkConfig (seq_profile c) (seq_level_idx_0 c) (seq_tier_0 c) (high_bitdepth c) (twelve_bit c)
    (monochrome c) (chroma_subsampling_x c) (chroma_subsampling_y c) (chroma_sample_position c)
    hdr (initial_presentation_delay_minus_one c) (config_obu c).

Lemma av1_length_layout hdr c : length (layout hdr c) = 32%nat.
Proof.
  unfold layout. by destruct (initial_presentation_delay_minus_one c);
    rewrite !length_app, ?length_val_bits.
Qed.

Lemma av1_demux_bits_reads hdr c : config_ok c -> fits 2 hdr ->
  reads_on whole_bytes demux_bits (layout hdr c)
    (fun obu => mkConfig (seq_profile c) (seq_level_idx_0 c) (seq_tier_0 c) (high_bitdepth c)
       (twelve_bit c) (monochrome c) (chroma_subsampling_x c) (chroma_subsampling_y c)
       (chroma_sample_position c) hdr (initial_presentation_delay_minus_one c) obu).
Proof.
  intros (H1 & H2 & H3 & _ & H4) Hhdr. unfold demux_bits, layout.
  do 2 (rstep; cbn [negb]; cbv iota). do 10 rstep. rstep.
  destruct (initial_presentation_delay_minus_one c) as [delay|]; rstep; cbv iota;
    (eapply reads_last; [rlast|]); apply reads_aligned, reads_ret.
Qed.

Section mux_lemmas.
Context {W : Type} `{IoWriteLaws W}.

Lemma av1_mux_bits_writes c : config_ok c -> writes (mux_bits c) (layout 0 c).
Proof.
  intros (H1 & H2 & H3 & _ & H4). unfold mux_bits, layout. do 11 wstep.
  rewrite (assoc_L (++) (val_bits 2 0)). change (val_bits 2 0 ++ [false]) with (val_bits 3 0).
  wstep. destruct (initial_presentation_delay_minus_one c); repeat wstep.
Qed.

Lemma av1_mux_writes c w : config_ok c ->
  exists w' hd, mux c w = (Ok tt, w') /\ written w' = written w ++ hd ++ config_obu c
    /\ length hd = 4%nat /\ bytes_bits hd = layout 0 c.
Proof.
  intros Hok. destruct (bits_bytes 4 (layout 0 c) (av1_length_layout 0 c)) as (hd & Hhd & Hl).
  pose proof (av1_mux_bits_writes c Hok) as Hm. rewrite <-Hhd in Hm.
  destruct (with_bit_writer_finish (mux_bits c) hd w Hm) as (w1 & H1 & Hw1).
  destruct (write_all_ok (config_obu c) w1) as (w2 & H2 & Hw2).
  exists w2, hd. unfold mux. mstep H1. split; [done|].
  by rewrite Hw2, Hw1, <-(assoc_L (++)).
Qed.
End mux_lemmas.

(** [demux] on a header laid out with the HDR/WCG bits [hdr]. *)
Lemma demux_layout hdr c hd pre : config_ok c -> fits 2 hdr -> bytes_bits hd = layout hdr c ->
  8 * blen (pre ++ hd ++ config_obu c) < 2 ^ 62 ->
  demux (at_pos pre (hd ++ config_obu c))
    = (Ok (set_hdr_wcg_idc hdr c), at_pos (pre ++ hd ++ config_obu c) []).
Proof.
  intros Hok Hhdr Hhd Hlen. unfold demux. pose proof (av1_demux_bits_reads hdr c Hok Hhdr) as Hr.
  rewrite <-Hhd in Hr.
  mstep (with_bit_reader_at _ _ hd _ pre (config_obu c) Hr (whole_bytes_bits _) Hlen).
  mstep (BytesCursorExt.extract_remaining_at (pre ++ hd) (config_obu c)).
  unfold ret. by rewrite <-(assoc_L (++)).
Qed.

Lemma descriptor_demux_at `{ByteOrder} pre bs r :
  demux (at_pos (pre ++ [x80; x04]) bs) = (Ok r, at_pos ((pre ++ [x80; x04]) ++ bs) []) ->
  descriptor_demux (at_pos pre (x80 :: x04 :: bs))
    = (Ok (mkDescriptor 0x80 4 r), at_pos (pre ++ x80 :: x04 :: bs) []).
Proof.
  intros Hd. unfold descriptor_demux.
  mstep (read_uint_be_at pre [x80] (x04 :: bs) 1 eq_refl). change (be_val [x80] =? 0x80) with true.
  cbn [negb]. cbv iota.
  mstep (read_uint_be_at (pre ++ [x80]) [x04] bs 1 eq_refl). change (be_val [x04] =? 4) with true.
  cbn [negb]. cbv iota. rewrite <-(assoc_L (++)). mstep Hd. unfold ret.
  by rewrite <-(assoc_L (++)).
Qed.

(** ** Properties *)

(** The AV1 configuration record: [mux] writes exactly [size()] bytes
    for every record whose fields fit, and [demux] reads every field of the
    record back, bare or inside a video descriptor, except [hdr_wcg_idc],
    which [mux] drops: the record that comes back has zero there. On a header
    that does carry the two bits, [demux] returns them. *)
Theorem av1_config_roundtrip {W} `{IoWriteLaws W, ByteOrder} (c : AV1CodecConfigurationRecord)
    (w : W) (pre : list byte) (Hok : config_ok c) (Hlen : blen pre + size c < 2 ^ 58) :
  exists w' bs, mux c w = (Ok tt, w') /\ written w' = written w ++ bs /\ blen bs = size c /\
    demux (at_pos pre bs) = (Ok (set_hdr_wcg_idc 0 c), at_pos (pre ++ bs) []) /\
    descriptor_demux (at_pos pre (x80 :: x04 :: bs))
      = (Ok (mkDescriptor 0x80 4 (set_hdr_wcg_idc 0 c)), at_pos (pre ++ x80 :: x04 :: bs) []) /\
    exists hd, bytes_bits hd = layout (hdr_wcg_idc c) c /\
      demux (at_pos pre (hd ++ config_obu c)) = (Ok c, at_pos (pre ++ hd ++ config_obu c) []).
Proof.
  destruct (av1_mux_writes c w Hok) as (w' & hd & Hmux & Hw & Hl & Hhd). unfold size in *.
  exists w', (hd ++ config_obu c). split; [done|]. split; [done|].
  assert (blen hd = 4) as Hl4 by (unfold blen; lia).
  split; [rewrite blen_app; lia|]. split; [|split].
  - apply demux_layout; [done|by split; lia|done|]. rewrite !blen_app. lia.
  - apply descriptor_demux_at, demux_layout; [done|by split; lia|done|].
    rewrite !blen_app. change (blen [x80; x04]) with 2. lia.
  - destruct (bits_bytes 4 (layout (hdr_wcg_idc c) c) (av1_length_layout _ c)) as (hd' & Hhd' & Hl').
    exists hd'. split; [done|]. rewrite (demux_layout (hdr_wcg_idc c)); [by destruct c|done|apply Hok|done|].
    rewrite !blen_app. assert (blen hd' = 4) by (unfold blen; lia). lia.
Qed.

Lemma av1_config_roundtrip_witness :
  let c := mkConfig 1 13 true false true false true true 2 3 (Some 5) [x0a; x0f] in
  exists w' bs, mux c (@nil byte) = (Ok tt, w') /\ written w' = written (@nil byte) ++ bs /\ blen bs = size c /\
    demux (at_pos [x00] bs) = (Ok (set_hdr_wcg_idc 0 c), at_pos ([x00] ++ bs) []) /\
    descriptor_demux (at_pos [x00] (x80 :: x04 :: bs))
      = (Ok (mkDescriptor 0x80 4 (set_hdr_wcg_idc 0 c)), at_pos ([x00] ++ x80 :: x04 :: bs) []) /\
    exists hd, bytes_bits hd = layout (hdr_wcg_idc c) c /\
      demux (at_pos [x00] (hd ++ config_obu c)) = (Ok c, at_pos ([x00] ++ hd ++ config_obu c) []).
Proof.
  intros c. apply (av1_config_roundtrip c (@nil byte) [x00]).
  - repeat split; vm_compute; congruence.
  - vm_compute. reflexivity.
Defined.

End Av1Config.
