(* ===== verification/H264.v ===== *)
(** * [scuffle-h264]: the AVC decoder configuration record
    (crates/h264/src/config.rs)

    [demux], [size] and [mux] of the record that carries the parameter sets,
    the byte layout they share, the round trip, and totality of [demux]. *)

From stdpp Require Import base list numbers.
From Stdlib Require Import Strings.Byte.
From S2P Require Import Prelude Io BitRead BitWrite BytesCursor BitIo.

(** ** Parsers that neither panic nor diverge *)

Module TotalParse.

(** [total m pre post Ee Q]: started after [pre] with [post] left, [m] either
    fails with an error in [Ee], or returns a value related by [Q] to the
    prefix of [post] it consumed; it never panics. *)
Definition total {E A} (m : M Cursor E A) (pre post : list byte) (Ee : E -> Prop) (Q : A -> list byte -> Prop) : Prop :=
  match m (at_pos pre post) with
  | (Ok a, c) => exists bs post', post = bs ++ post' /\ c = at_pos (pre ++ bs) post' /\ Q a bs
  | (Err e, _) => Ee e
  | (Panic, _) => False
  | (Fuel, _) => False
  end.

Lemma total_ret {E A} (a : A) pre post (Ee : E -> Prop) (Q : A -> list byte -> Prop) :
  Q a [] -> total (ret a) pre post Ee Q.
Proof. intros HQ. exists [], post. by rewrite app_nil_r. Qed.

Lemma total_parse_bind {E A B} (m : M Cursor E A) (k : A -> M Cursor E B) pre post
    (Ee : E -> Prop) (Q : A -> list byte -> Prop) (R : B -> list byte -> Prop) :
  total m pre post Ee Q ->
  (forall a bs post', post = bs ++ post' -> Q a bs ->
    total (k a) (pre ++ bs) post' Ee (fun b bs' => R b (bs ++ bs'))) ->
  total (bind m k) pre post Ee R.
Proof.
  unfold total, bind. destruct (m (at_pos pre post)) as [[a|e| |] c]; try done.
  intros (bs & post' & -> & -> & HQ) Hk. specialize (Hk a bs post' eq_refl HQ).
  destruct (k a _) as [[b|e| |] c']; try done.
  destruct Hk as (bs' & post'' & -> & -> & HR). exists (bs ++ bs'), post''.
  by rewrite !(assoc_L (++)).
Qed.

Lemma total_mono {E A} (m : M Cursor E A) pre post Ee (Q R : A -> list byte -> Prop) :
  total m pre post Ee Q -> (forall a bs, Q a bs -> R a bs) -> total m pre post Ee R.
Proof.
  unfold total. destruct (m _) as [[]]; try done.
  intros (bs & post' & ? & ? & ?) HQR. exists bs, post'. eauto.
Qed.

Lemma total_uint `{BO : ByteOrder} n pre post :
  total (read_uint (T := Cursor) BigEndian n) pre post (eq UnexpectedEof)
    (fun z bs => length bs = n /\ 0 <= z < 256 ^ Z.of_nat n).
Proof.
  unfold total. destruct (read_uint_cases BigEndian pre post n) as [(bs & post' & -> & Hl & ->)|[Hl ->]];
    [|done].
  exists bs, post'. split; [done|]. split; [done|]. split; [done|]. subst n. apply be_val_range.
Qed.

Lemma total_extract size pre post : 0 <= size ->
  total (BytesCursorExt.extract_bytes size) pre post (eq UnexpectedEof)
    (fun d bs => d = bs /\ blen d = size).
Proof.
  intros Hs. unfold total. destruct (Z.lt_ge_cases (blen post) size) as [Hlt|Hge].
  - by rewrite BytesCursorExt.extract_bytes_eof.
  - rewrite <-(take_drop (Z.to_nat size) post).
    assert (size = blen (take (Z.to_nat size) post)) as Hl
      by (unfold blen in *; rewrite length_take; lia).
    rewrite BytesCursorExt.extract_bytes_at by done. eauto 10.
Qed.

(** [takes_on P m bs a]: [m] consumes exactly [bs] and returns [a], provided
    what follows satisfies [P]. *)
Definition takes_on {E A} (P : list byte -> Prop) (m : M Cursor E A) (bs : list byte) (a : A) : Prop :=
  forall pre post, P post -> m (at_pos pre (bs ++ post)) = (Ok a, at_pos (pre ++ bs) post).

Lemma takes_ret {E A} P (a : A) : takes_on (E := E) P (ret a) [] a.
Proof. intros pre post _. by rewrite app_nil_r. Qed.

Lemma takes_bind {E A B} P (m : M Cursor E A) (k : A -> M Cursor E B) xs ys a b :
  takes_on (fun _ => True) m xs a -> takes_on P (k a) ys b -> takes_on P (bind m k) (xs ++ ys) b.
Proof.
  intros Hm Hk pre post HP. rewrite <-(assoc_L (++)). erewrite bind_ok; [|by apply Hm].
  rewrite Hk by done. by rewrite (assoc_L (++)).
Qed.

Lemma takes_last {E A B} P (m : M Cursor E A) (k : A -> M Cursor E B) xs a b :
  takes_on P m xs a -> takes_on P (k a) [] b -> takes_on P (bind m k) xs b.
Proof.
  intros Hm Hk pre post HP. erewrite bind_ok; [|by apply Hm].
  pose proof (Hk (pre ++ xs) post HP) as H. simpl in H. by rewrite app_nil_r in H.
Qed.

Lemma takes_uint `{BO : ByteOrder} P n z : 0 <= z < 256 ^ Z.of_nat n ->
  takes_on P (read_uint (T := Cursor) BigEndian n) (be_bytes n z) z.
Proof. intros Hz pre post _. by apply read_uint_be_bytes. Qed.

Lemma takes_extract P bs size : size = blen bs ->
  takes_on P (BytesCursorExt.extract_bytes size) bs bs.
Proof. intros Hs pre post _. by apply BytesCursorExt.extract_bytes_at. Qed.

Ltac tstep :=
  eapply takes_bind;
    [ first [ apply takes_uint; BitIo.fits_tac | apply takes_extract; reflexivity ] |];
  cbv beta zeta.
End TotalParse.

Module AvcConfig.
Import BitIo TotalParse.

Record AvccExtendedConfig := mkExt {
  chroma_format : Z;
  bit_depth_luma_minus8 : Z;
  bit_depth_chroma_minus8 : Z;
  sequence_parameter_set_ext : list (list byte);
}.

Record AVCDecoderConfigurationRecord := mkConfig {
  configuration_version : Z;
  profile_indication : Z;
  profile_compatibility : Z;
  level_indication : Z;
  length_size_minus_one : Z;
  sps : list (list byte);
  pps : list (list byte);
  extended_config : option AvccExtendedConfig;
}.

Section record.
Context `{BO : ByteOrder}.

(** The loop of the three parameter-set lists: a length and that many bytes. *)
Fixpoint read_sets (n : nat) : M Cursor ErrorKind (list (list byte)) :=
  match n with
  | O => ret []
  | S n =>
      let* len := read_u16 in
      let* data := BytesCursorExt.extract_bytes len in
      let* sets := read_sets n in
      ret (data :: sets)
  end.

Definition has_remaining : M Cursor ErrorKind bool :=
  let* c := get in ret (0 <? BytesCursorExt.remaining c).

(** The profiles that have no extended configuration. *)
Definition plain_profile (profile : Z) : bool :=
  match profile with 66 | 77 | 88 => true | _ => false end.

Definition demux_ext (profile : Z) : M Cursor ErrorKind (option AvccExtendedConfig) :=
  if plain_profile profile then ret None
  else
    let* more := has_remaining in
    if more
    then
      let* v := read_u8 in
      let chroma_format := Z.land v 3 in
      let* v := read_u8 in
      let bit_depth_luma_minus8 := Z.land v 7 in
      let* v := read_u8 in
      let bit_depth_chroma_minus8 := Z.land v 7 in
      let* number_of_sequence_parameter_set_ext := read_u8 in
      let* sets := read_sets (Z.to_nat number_of_sequence_parameter_set_ext) in
      ret (Some (mkExt chroma_format bit_depth_luma_minus8 bit_depth_chroma_minus8 sets))
    else ret None.

Definition demux : M Cursor ErrorKind AVCDecoderConfigurationRecord :=
  let* configuration_version := read_u8 in
  let* profile_indication := read_u8 in
  let* profile_compatibility := read_u8 in
  let* level_indication := read_u8 in
  let* v := read_u8 in
  let length_size_minus_one := Z.land v 3 in
  let* v := read_u8 in
  let num_of_sequence_parameter_sets := Z.land v 31 in
  let* sps := read_sets (Z.to_nat num_of_sequence_parameter_sets) in
  let* num_of_picture_parameter_sets := read_u8 in
  let* pps := read_sets (Z.to_nat num_of_picture_parameter_sets) in
  let* extended_config := demux_ext profile_indication in
  ret (mkConfig configuration_version profile_indication profile_compatibility level_indication
         length_size_minus_one sps pps extended_config).

(** [sets.iter().map(|s| 2 + s.len() as u64).sum()] *)
Fixpoint sets_size (sets : list (list byte)) : Z :=
  match sets with [] => 0 | s :: sets => 2 + blen s + sets_size sets end.

Definition size (c : AVCDecoderConfigurationRecord) : Z :=
  1 + 1 + 1 + 1 + 1 + 1 + sets_size (sps c) + 1 + sets_size (pps c) +
  match extended_config c with
  | Some config => 1 + 1 + 1 + 1 + sets_size (sequence_parameter_set_ext config)
  | None => 0
  end.

Context {W : Type} `{IoWrite W}.

(** [write_u16(s.len() as u16)] and [write_all(s)] for each set. *)
Fixpoint write_sets (sets : list (list byte)) : M (BitWriter.t W) ErrorKind unit :=
  match sets with
  | [] => ret tt
  | s :: sets =>
      write_u16 (wrap 16 (blen s)) ;;;
      write_all s ;;;
      write_sets sets
  end.

Definition mux_ext (config : AvccExtendedConfig) : M (BitWriter.t W) ErrorKind unit :=
  BitWriter.write_bits 63 6 ;;;
  BitWriter.write_bits (chroma_format config) 2 ;;;
  BitWriter.write_bits 31 5 ;;;
  BitWriter.write_bits (bit_depth_luma_minus8 config) 3 ;;;
  BitWriter.write_bits 31 5 ;;;
  BitWriter.write_bits (bit_depth_chroma_minus8 config) 3 ;;;
  BitWriter.write_bits (blen (sequence_parameter_set_ext config)) 8 ;;;
  write_sets (sequence_parameter_set_ext config).

Definition mux_bits (c : AVCDecoderConfigurationRecord) : M (BitWriter.t W) ErrorKind unit :=
  write_u8 (configuration_version c) ;;;
  write_u8 (profile_indication c) ;;;
  write_u8 (profile_compatibility c) ;;;
  write_u8 (level_indication c) ;;;
  BitWriter.write_bits 63 6 ;;;
  BitWriter.write_bits (length_size_minus_one c) 2 ;;;
  BitWriter.write_bits 7 3 ;;;
  BitWriter.write_bits (blen (sps c)) 5 ;;;
  write_sets (sps c) ;;;
  BitWriter.write_bits (blen (pps c)) 8 ;;;
  write_sets (pps c) ;;;
  match extended_config c with
  | Some config => mux_ext config
  | None => ret tt
  end.

Definition mux (c : AVCDecoderConfigurationRecord) : M W ErrorKind unit :=
  with_bit_writer (mux_bits c ;;; BitWriter.finish) ;;; ret tt.
End record.

(** ** The byte layout *)

Definition sets_bytes (sets : list (list byte)) : list byte :=
  sets ≫= fun s => be_bytes 2 (blen s) ++ s.

Definition ext_bytes (e : AvccExtendedConfig) : list byte :=
  be_bytes 1 (252 + chroma_format e) ++ be_bytes 1 (248 + bit_depth_luma_minus8 e) ++
  be_bytes 1 (248 + bit_depth_chroma_minus8 e) ++
  be_bytes 1 (blen (sequence_parameter_set_ext e)) ++ sets_bytes (sequence_parameter_set_ext e).

Definition layout (c : AVCDecoderConfigurationRecord) : list byte :=
  be_bytes 1 (configuration_version c) ++ be_bytes 1 (profile_indication c) ++
  be_bytes 1 (profile_compatibility c) ++ be_bytes 1 (level_indication c) ++
  be_bytes 1 (252 + length_size_minus_one c) ++ be_bytes 1 (224 + blen (sps c)) ++
  sets_bytes (sps c) ++ be_bytes 1 (blen (pps c)) ++ sets_bytes (pps c) ++
  match extended_config c with Some e => ext_bytes e | None => [] end.

(** Every field and every length fits the bits it has in the record, and only
    the profiles that have an extended configuration carry one. *)
Definition sets_ok (sets : list (list byte)) : Prop := Forall (fun s => blen s < 2 ^ 16) sets.

Definition ext_ok (e : AvccExtendedConfig) : Prop :=
  fits 2 (chroma_format e) /\ fits 3 (bit_depth_luma_minus8 e) /\ fits 3 (bit_depth_chroma_minus8 e) /\
  blen (sequence_parameter_set_ext e) < 256 /\ sets_ok (sequence_parameter_set_ext e).

Definition config_ok (c : AVCDecoderConfigurationRecord) : Prop :=
  fits 8 (configuration_version c) /\ fits 8 (profile_indication c) /\
  fits 8 (profile_compatibility c) /\ fits 8 (level_indication c) /\
  fits 2 (length_size_minus_one c) /\
  (blen (sps c) < 32 /\ sets_ok (sps c)) /\ (blen (pps c) < 256 /\ sets_ok (pps c)) /\
  match extended_config c with
  | Some e => plain_profile (profile_indication c) = false /\ ext_ok e
  | None => True
  end.

(** Whether bytes after the record would be taken for an extended
    configuration. *)
Definition closed (c : AVCDecoderConfigurationRecord) : bool :=
  match extended_config c with Some _ => true | None => plain_profile (profile_indication c) end.

Lemma blen_sets_bytes sets : blen (sets_bytes sets) = sets_size sets.
Proof.
  induction sets as [|s sets IH]; [done|].
  change (sets_bytes (s :: sets)) with ((be_bytes 2 (blen s) ++ s) ++ sets_bytes sets).
  rewrite !blen_app, blen_be_bytes, IH. simpl. lia.
Qed.

Lemma blen_layout c : blen (layout c) = size c.
Proof.
  unfold layout, size. rewrite !blen_app, !blen_be_bytes, !blen_sets_bytes.
  destruct (extended_config c) as [e|]; [|rewrite blen_nil; lia].
  unfold ext_bytes. rewrite !blen_app, !blen_be_bytes, blen_sets_bytes. lia.
Qed.

Section mux_lemmas.
Context {W : Type} `{IoWriteLaws W} `{BO : ByteOrder}.

Lemma write_sets_writes sets : sets_ok sets -> writes (write_sets sets) (bytes_bits (sets_bytes sets)).
Proof.
  induction sets as [|s sets IH]; intros Hok; [apply writes_ret|].
  apply Forall_cons_1 in Hok as [Hs Hok]. pose proof (blen_nonneg s).
  change (sets_bytes (s :: sets)) with ((be_bytes 2 (blen s) ++ s) ++ sets_bytes sets).
  rewrite !bytes_bits_app, <-(assoc_L (++)). cbn [write_sets]. wrapped.
  do 2 wstep. by apply IH.
Qed.

Lemma mux_ext_writes e : ext_ok e -> writes (mux_ext e) (bytes_bits (ext_bytes e)).
Proof.
  intros (H1 & H2 & H3 & H4 & H5). unfold ext_bytes, mux_ext.
  pose proof (blen_nonneg (sequence_parameter_set_ext e)). rewrite !bytes_bits_app.
  rewrite (packed_byte 6 2 252 63), !(packed_byte 5 3 248 31), byte_val_bits by fits_tac.
  rewrite <-!(assoc_L (++)). do 7 wstep. by apply write_sets_writes.
Qed.

Lemma avcc_mux_writes c w : config_ok c ->
  exists w', mux c w = (Ok tt, w') /\ written w' = written w ++ layout c.
Proof.
  intros (H1 & H2 & H3 & H4 & H5 & [H6 H6'] & [H7 H7'] & H8).
  assert (writes (mux_bits c) (bytes_bits (layout c))) as Hm.
  { pose proof (blen_nonneg (sps c)). pose proof (blen_nonneg (pps c)).
    unfold layout, mux_bits. rewrite !bytes_bits_app.
    rewrite (packed_byte 6 2 252 63), (packed_byte 3 5 224 7), (byte_val_bits (blen (pps c))) by fits_tac.
    rewrite <-!(assoc_L (++)). do 8 wstep.
    apply writes_seq; [by apply write_sets_writes|]. wstep.
    apply writes_seq; [by apply write_sets_writes|].
    destruct (extended_config c); [apply mux_ext_writes; apply H8|apply writes_ret]. }
  destruct (with_bit_writer_finish (mux_bits c) (layout c) w Hm) as (w' & Hw & Hwr).
  exists w'. split; [|done]. unfold mux. by mstep Hw.
Qed.
End mux_lemmas.

Section demux_lemmas.
Context `{BO : ByteOrder}.

Lemma read_sets_takes P sets : sets_ok sets -> takes_on P (read_sets (length sets)) (sets_bytes sets) sets.
Proof.
  induction sets as [|s sets IH]; intros Hok; [apply takes_ret|].
  apply Forall_cons_1 in Hok as [Hs Hok]. pose proof (blen_nonneg s).
  change (sets_bytes (s :: sets)) with ((be_bytes 2 (blen s) ++ s) ++ sets_bytes sets).
  rewrite <-(assoc_L (++)). cbn [read_sets length]. do 2 tstep.
  eapply takes_last; [by apply IH|apply takes_ret].
Qed.

Lemma read_sets_blen P sets z : sets_ok sets -> z = blen sets ->
  takes_on P (read_sets (Z.to_nat z)) (sets_bytes sets) sets.
Proof. intros Hok ->. unfold blen. rewrite Nat2Z.id. by apply read_sets_takes. Qed.

Lemma has_remaining_at pre post :
  has_remaining (at_pos pre post) = (Ok (0 <? blen post), at_pos pre post).
Proof.
  unfold has_remaining. erewrite bind_ok; [|done]. unfold ret.
  by rewrite BytesCursorExt.remaining_rest, cursor_rest_at.
Qed.

Lemma demux_ext_takes p e : plain_profile p = false -> ext_ok e ->
  takes_on (fun _ => True) (demux_ext p) (ext_bytes e) (Some e).
Proof.
  intros Hp (H1 & H2 & H3 & H4 & H5). unfold demux_ext. rewrite Hp.
  pose proof (blen_nonneg (sequence_parameter_set_ext e)).
  intros pre post _. mstep (has_remaining_at pre (ext_bytes e ++ post)).
  rewrite (proj2 (Z.ltb_lt _ _))
    by (unfold ext_bytes; rewrite !blen_app, blen_be_bytes; unfold blen; lia).
  cbv iota. match goal with |- ?m _ = _ =>
    assert (takes_on (fun _ => True) m (ext_bytes e) (Some e)) as Hm; [|by apply Hm] end.
  clear pre post. unfold ext_bytes.
  do 4 tstep. change 3 with (Z.ones 2). change 7 with (Z.ones 3).
  rewrite !land_low by (first [done|fits_tac]).
  eapply takes_last; [by apply read_sets_blen|]. destruct e. apply takes_ret.
Qed.

Lemma demux_ext_none p post : (p = true \/ post = []) ->
  forall q pre, plain_profile q = p -> demux_ext q (at_pos pre post) = (Ok None, at_pos pre post).
Proof.
  intros Hor q pre Hq. unfold demux_ext. rewrite Hq. destruct p; [done|].
  destruct Hor as [Ht| ->]; [done|]. by mstep (has_remaining_at pre []).
Qed.

Lemma demux_takes c : config_ok c ->
  takes_on (fun post => closed c = true \/ post = []) demux (layout c) c.
Proof.
  intros (H1 & H2 & H3 & H4 & H5 & [H6 H6'] & [H7 H7'] & H8). unfold demux, layout, closed.
  pose proof (blen_nonneg (sps c)). pose proof (blen_nonneg (pps c)).
  do 6 tstep. change 3 with (Z.ones 2). change 31 with (Z.ones 5).
  rewrite !land_low by (first [done|fits_tac]).
  eapply takes_bind; [by apply read_sets_blen|]. tstep.
  eapply takes_bind; [by apply read_sets_blen|].
  eapply (takes_last _ _ _ _ (extended_config c)); [|destruct c; apply takes_ret].
  destruct (extended_config c) as [e|].
  - destruct H8 as [Hp He]. intros pre post _. by apply demux_ext_takes.
  - intros pre post Hp. rewrite app_nil_r. simpl. by eapply demux_ext_none.
Qed.

Lemma read_sets_total n : forall pre post,
  total (read_sets n) pre post (eq UnexpectedEof)
    (fun sets bs => length sets = n /\ sets_ok sets /\ blen bs = sets_size sets).
Proof.
  induction n as [|n IH]; intros pre post; [apply total_ret; repeat constructor|]. cbn [read_sets].
  eapply total_parse_bind; [apply total_uint|]. intros len bs1 post1 -> [Hl1 Hlen].
  eapply total_parse_bind; [apply total_extract; lia|]. intros s bs2 post2 -> [<- Hs].
  eapply total_parse_bind; [apply IH|]. intros sets bs3 post3 -> (Hn & Hok & Hb).
  apply total_ret. split; [simpl; lia|]. split; [constructor; [lia|done]|].
  rewrite app_nil_r, !blen_app, Hb. simpl. unfold blen at 1. lia.
Qed.

(** A masked byte is in the range of the mask. *)
Lemma land_fits m z : 0 <= m -> fits m (Z.land z (Z.ones m)).
Proof. intros Hm. rewrite Z.land_ones by done. apply Z.mod_pos_bound, Z.pow_pos_nonneg; lia. Qed.

Lemma demux_ext_total p pre post :
  total (demux_ext p) pre post (eq UnexpectedEof)
    (fun o bs => match o with
                 | Some e => (plain_profile p = false /\ ext_ok e) /\
                     blen bs = 1 + 1 + 1 + 1 + sets_size (sequence_parameter_set_ext e)
                 | None => bs = []
                 end).
Proof.
  unfold demux_ext. destruct (plain_profile p); [by apply total_ret|].
  eapply (total_parse_bind _ _ _ _ _ (fun _ bs => bs = [])).
  { unfold total. rewrite has_remaining_at. exists [], post. by rewrite app_nil_r. }
  intros more bs post' -> ->. destruct more; [|by apply total_ret].
  do 4 (eapply total_parse_bind; [apply total_uint|]; intros ? ? ? -> [? ?]).
  eapply total_parse_bind; [apply read_sets_total|]. intros sets bs5 post5 -> (Hn & Hok & Hb).
  apply total_ret. split; [split; [done|]|].
  - unfold ext_ok; simpl. change 3 with (Z.ones 2) at 1. change 7 with (Z.ones 3).
    repeat (split; [by apply land_fits|]). split; [unfold blen; lia|done].
  - rewrite app_nil_r, app_nil_l, !blen_app, Hb. simpl. unfold blen. lia.
Qed.

Lemma demux_total pre post :
  total demux pre post (eq UnexpectedEof) (fun c bs => config_ok c /\ blen bs = size c).
Proof.
  unfold demux.
  do 6 (eapply total_parse_bind; [apply total_uint|]; intros ? ? ? -> [? ?]).
  eapply total_parse_bind; [apply read_sets_total|]. intros sps1 bs7 post7 -> (Hn & Hok & Hb).
  eapply total_parse_bind; [apply total_uint|]. intros npps bs8 post8 -> [Hl8 Hv8].
  eapply total_parse_bind; [apply read_sets_total|]. intros pps1 bs9 post9 -> (Hn9 & Hok9 & Hb9).
  eapply total_parse_bind; [apply demux_ext_total|]. intros ext bs10 post10 -> Hext.
  apply total_ret. pose proof (land_fits 5 a4 ltac:(lia)) as Hm5.
  change (Z.ones 5) with 31 in Hm5. unfold fits in Hm5. split.
  - unfold config_ok; simpl. repeat (split; [unfold fits; lia|]).
    split; [by apply (land_fits 2)|].
    split; [split; [unfold blen; lia|done]|]. split; [split; [unfold blen; lia|done]|].
    destruct ext; [apply Hext|done].
  - rewrite !blen_app, Hb, Hb9, blen_nil. unfold size; simpl.
    destruct ext as [e|]; [rewrite (proj2 Hext)|subst bs10]; unfold blen; simpl; lia.
Qed.
End demux_lemmas.

(** ** Properties *)

(** C38. The AVC decoder configuration record round trips: for every record
    whose fields fit their bits, [mux] writes exactly [size()] bytes, and
    [demux] reads the record back from them and stops right after them, with
    anything following; only a record of a high profile without its extended
    configuration has to be the last thing in the buffer. *)
Theorem avcc_roundtrip {W} `{IoWriteLaws W, ByteOrder} (c : AVCDecoderConfigurationRecord)
    (w : W) (pre post : list byte) (Hok : config_ok c) (Hpost : closed c = true \/ post = []) :
  exists w' bs, mux c w = (Ok tt, w') /\ written w' = written w ++ bs /\ blen bs = size c /\
    demux (at_pos pre (bs ++ post)) = (Ok c, at_pos (pre ++ bs) post).
Proof.
  destruct (avcc_mux_writes c w Hok) as (w' & Hmux & Hw). exists w', (layout c).
  split; [done|]. split; [done|]. split; [apply blen_layout|]. by apply demux_takes.
Qed.

Lemma avcc_roundtrip_witness :
  let c := mkConfig 1 100 0 31 3 [[x67; x64]] [[x68]; [x69]] (Some (mkExt 1 0 0 [[x0d]])) in
  exists w' bs, mux c (@nil byte) = (Ok tt, w') /\ written w' = written (@nil byte) ++ bs
    /\ blen bs = size c /\
    demux (at_pos [x00] (bs ++ [xff])) = (Ok c, at_pos ([x00] ++ bs) [xff]).
Proof.
  intros c. apply (avcc_roundtrip c (@nil byte) [x00] [xff]); [|by left].
  repeat split; repeat constructor; vm_compute; congruence.
Defined.

(** [AVCDecoderConfigurationRecord::demux] on arbitrary bytes: it never
    panics; its only error is [UnexpectedEof]; and a record it accepts has
    every field and length in range, so that it can be muxed again, and was
    taken from exactly [size()] bytes. *)
Theorem avcc_demux_total `{ByteOrder} (pre post : list byte) :
  match demux (at_pos pre post) with
  | (Ok c, cur) => config_ok c /\ exists bs post', post = bs ++ post' /\ blen bs = size c
                     /\ cur = at_pos (pre ++ bs) post'
  | (Err e, _) => e = UnexpectedEof
  | (Panic, _) => False
  | (Fuel, _) => False
  end.
Proof.
  pose proof (demux_total pre post) as Ht. unfold total in Ht.
  destruct (demux _) as [[c|e| |] cur]; try done.
  destruct Ht as (bs & post' & ? & ? & Hok & Hb). split; [done|]. by exists bs, post'.
Qed.

End AvcConfig.
