(* ===== verification/H264Sps.v ===== *)
(** * [scuffle-h264]: the sequence parameter set (crates/h264/src/sps.rs)

    [Sps::parse] and [SpsExtended::parse]: removal of the emulation prevention
    bytes, the syntax of ISO/IEC 14496-10 section 7.3.2.1 as a data type with
    its bit layout, and the theorems that relate the two. Floating point is
    the standard library's executable specification of IEEE 754. *)

From stdpp Require Import base list numbers.
From Stdlib Require Import Strings.Byte Floats.SpecFloat.
From S2P Require Import Prelude Io BitRead BitWrite ExpGolomb BitIo.

Module H264Sps.
Import BitIo.

(** ** [f64] *)

Definition f64_of (z : Z) : spec_float := binary_normalize 53 1024 z 0 false.
Definition f64_mul : spec_float -> spec_float -> spec_float := SFmul 53 1024.
Definition f64_div : spec_float -> spec_float -> spec_float := SFdiv 53 1024.

Record ColorConfig := mkColor {
  full_range : bool;
  color_primaries : Z;
  transfer_characteristics : Z;
  matrix_coefficients : Z;
}.

Record SpsExtended := mkSpsExtended {
  chroma_format_idc : Z;
  bit_depth_luma_minus8 : Z;
  bit_depth_chroma_minus8 : Z;
}.

Record Sps := mkSps {
  profile_idc : Z;
  level_idc : Z;
  ext : option SpsExtended;
  width : Z;
  height : Z;
  frame_rate : spec_float;
  color_config : option ColorConfig;
}.

Abbreviation P := (M (BitReader.t Cursor) ErrorKind).

(** ** Emulation prevention *)

(** [data[i]] *)
Definition index {S} (data : list byte) (i : Z) : M S ErrorKind byte := unwrap (data !! Z.to_nat i).

Definition push (b : byte) : M (list byte) ErrorKind unit := modify (fun vec => vec ++ [b]).

(** [data[i] == 0x00 && data[i + 1] == 0x00 && data[i + 2] == 0x03] *)
Definition escape_at {S} (data : list byte) (i : Z) : M S ErrorKind bool :=
  let* b0 := index data i in
  if b2z b0 =? 0
  then
    let* b1 := index data (i + 1) in
    if b2z b1 =? 0
    then let* b2 := index data (i + 2) in ret (b2z b2 =? 3)
    else ret false
  else ret false.

(** [while i < data.len() - 3]: the bound is a [usize]. Every turn advances
    [i], so one turn more than there are bytes is enough. *)
Fixpoint unescape_loop (fuel : nat) (data : list byte) (i : Z) : M (list byte) ErrorKind unit :=
  match fuel with
  | O => out_of_fuel
  | S fuel =>
      let* bound := checked_u 64 (blen data - 3) in
      if i <? bound
      then
        let* escape := escape_at data i in
        if escape
        then push x00 ;;; push x00 ;;; unescape_loop fuel data (i + 3)
        else let* b := index data i in push b ;;; unescape_loop fuel data (i + 1)
      else ret tt
  end.

(** ** [SpsExtended::parse] *)

(** The inner loop of a scaling list; [next_scale] is an [i64]. *)
Fixpoint scaling_list (size : nat) (next_scale : Z) : P unit :=
  match size with
  | O => ret tt
  | S size =>
      let* delta_scale := ExpGolomb.read_signed_exp_golomb in
      let* sum := checked_i 64 (next_scale + delta_scale) in
      let* sum := checked_i 64 (sum + 256) in
      let next_scale := Z.rem sum 256 in
      if next_scale =? 0 then ret tt else scaling_list size next_scale
  end.

(** [for i in 0..count] *)
Fixpoint scaling_lists (n : nat) (i : Z) : P unit :=
  match n with
  | O => ret tt
  | S n =>
      let* present := BitReader.read_bit in
      (if present then scaling_list (if i <? 6 then 16 else 64) 8 else ret tt) ;;;
      scaling_lists n (i + 1)
  end.

Definition SpsExtended_parse : P SpsExtended :=
  let* chroma_format_idc := ExpGolomb.read_exp_golomb in
  (if chroma_format_idc =? 3 then BitReader.read_bit ;;; ret tt else ret tt) ;;;
  let* bit_depth_luma_minus8 := ExpGolomb.read_exp_golomb in
  let* bit_depth_chroma_minus8 := ExpGolomb.read_exp_golomb in
  BitReader.read_bit ;;;
  let* matrix := BitReader.read_bit in
  (if matrix
   then scaling_lists (if negb (chroma_format_idc =? 3) then 8 else 12) 0
   else ret tt) ;;;
  ret (mkSpsExtended chroma_format_idc bit_depth_luma_minus8 bit_depth_chroma_minus8).

(** ** [Sps::parse] *)

Section parse.
Context `{BO : ByteOrder}.

(** [for _ in 0..n]: every turn consumes a bit, so the bits left, plus one,
    bound the turns. *)
Fixpoint offsets_for_ref_frame (fuel : nat) (n : Z) : P unit :=
  if n <=? 0 then ret tt
  else
    match fuel with
    | O => out_of_fuel
    | S fuel => ExpGolomb.read_signed_exp_golomb ;;; offsets_for_ref_frame fuel (n - 1)
    end.

Definition parse_pic_order_cnt : P unit :=
  let* pic_order_cnt_type := ExpGolomb.read_exp_golomb in
  if pic_order_cnt_type =? 0 then ExpGolomb.read_exp_golomb ;;; ret tt
  else if pic_order_cnt_type =? 1 then
    BitReader.seek_bits 1 ;;;
    ExpGolomb.read_signed_exp_golomb ;;;
    ExpGolomb.read_signed_exp_golomb ;;;
    let* num_ref_frames_in_pic_order_cnt_cycle := ExpGolomb.read_exp_golomb in
    let* r := get in
    offsets_for_ref_frame (S (length (BitReader.bits r))) num_ref_frames_in_pic_order_cnt_cycle
  else ret tt.

(** left, right, top, bottom *)
Definition parse_crop : P (Z * Z * Z * Z) :=
  let* frame_cropping_flag := BitReader.read_bit in
  if frame_cropping_flag
  then
    let* crop_left := ExpGolomb.read_exp_golomb in
    let* crop_right := ExpGolomb.read_exp_golomb in
    let* crop_top := ExpGolomb.read_exp_golomb in
    let* crop_bottom := ExpGolomb.read_exp_golomb in
    ret (crop_left, crop_right, crop_top, crop_bottom)
  else ret (0, 0, 0, 0).

(** [a - b * 2 - c * 2] on [u64]s. *)
Definition cropped (a b c : Z) : P Z :=
  let* b2 := checked_u 64 (b * 2) in
  let* x := checked_u 64 (a - b2) in
  let* c2 := checked_u 64 (c * 2) in
  checked_u 64 (x - c2).

Definition compute_width (pic_width_in_mbs_minus1 crop_right crop_left : Z) : P Z :=
  let* n := checked_u 64 (pic_width_in_mbs_minus1 + 1) in
  let* n := checked_u 64 (n * 16) in
  cropped n crop_right crop_left.

Definition compute_height (frame_mbs_only_flag : bool) (pic_height_in_map_units_minus1 crop_bottom crop_top : Z) : P Z :=
  let* n := checked_u 64 (pic_height_in_map_units_minus1 + 1) in
  let* n := checked_u 64 ((2 - Z.b2z frame_mbs_only_flag) * n) in
  let* n := checked_u 64 (n * 16) in
  cropped n crop_bottom crop_top.

Definition parse_color : P (option ColorConfig) :=
  let* video_signal_type_present_flag := BitReader.read_bit in
  if video_signal_type_present_flag
  then
    BitReader.seek_bits 3 ;;;
    let* full_range := BitReader.read_bit in
    let* colour_description_present_flag := BitReader.read_bit in
    if colour_description_present_flag
    then
      let* color_primaries := read_u8 in
      let* transfer_characteristics := read_u8 in
      let* matrix_coefficients := read_u8 in
      ret (Some (mkColor full_range color_primaries transfer_characteristics matrix_coefficients))
    else ret (Some (mkColor full_range 2 2 2))
  else ret None.

Definition parse_timing : P spec_float :=
  let* timing_info_present_flag := BitReader.read_bit in
  if timing_info_present_flag
  then
    let* num_units_in_tick := read_u32 in
    let* time_scale := read_u32 in
    if num_units_in_tick =? 0 then throw InvalidData
    else ret (f64_div (f64_of time_scale) (f64_mul (f64_of 2) (f64_of num_units_in_tick)))
  else ret (f64_of 0).

Definition parse_aspect : P unit :=
  let* aspect_ratio_info_present_flag := BitReader.read_bit in
  if aspect_ratio_info_present_flag
  then
    let* aspect_ratio_idc := read_u8 in
    if aspect_ratio_idc =? 255
    then BitReader.seek_bits 16 ;;; BitReader.seek_bits 16 ;;; ret tt
    else ret tt
  else ret tt.

Definition parse_overscan : P unit :=
  let* overscan_info_present_flag := BitReader.read_bit in
  if overscan_info_present_flag then BitReader.seek_bits 1 ;;; ret tt else ret tt.

Definition parse_chroma_loc : P unit :=
  let* chroma_loc_info_present_flag := BitReader.read_bit in
  if chroma_loc_info_present_flag
  then ExpGolomb.read_exp_golomb ;;; ExpGolomb.read_exp_golomb ;;; ret tt
  else ret tt.

Definition parse_vui : P (option ColorConfig * spec_float) :=
  parse_aspect ;;;
  parse_overscan ;;;
  let* color_config := parse_color in
  parse_chroma_loc ;;;
  let* frame_rate := parse_timing in
  ret (color_config, frame_rate).

(** The profiles with a [SpsExtended]. *)
Definition high_profile (profile : Z) : bool :=
  match profile with
  | 100 | 110 | 122 | 244 | 44 | 83 | 86 | 118 | 128 | 138 | 139 | 134 | 135 => true
  | _ => false
  end.

(** [Sps::parse] after the emulation prevention bytes are removed. *)
Definition parse_rbsp : P Sps :=
  let* forbidden_zero_bit := BitReader.read_bit in
  if forbidden_zero_bit then throw InvalidData
  else
  BitReader.seek_bits 2 ;;;
  let* nal_unit_type := BitReader.read_bits 5 in
  if negb (nal_unit_type =? 7) then throw InvalidData
  else
  let* profile_idc := read_u8 in
  BitReader.seek_bits (1 + 1 + 1 + 1 + 4) ;;;
  let* level_idc := read_u8 in
  ExpGolomb.read_exp_golomb ;;;
  let* sps_ext :=
    if high_profile profile_idc
    then let* e := SpsExtended_parse in ret (Some e)
    else ret None in
  ExpGolomb.read_exp_golomb ;;;
  parse_pic_order_cnt ;;;
  ExpGolomb.read_exp_golomb ;;;
  BitReader.read_bit ;;;
  let* pic_width_in_mbs_minus1 := ExpGolomb.read_exp_golomb in
  let* pic_height_in_map_units_minus1 := ExpGolomb.read_exp_golomb in
  let* frame_mbs_only_flag := BitReader.read_bit in
  (if negb frame_mbs_only_flag then BitReader.seek_bits 1 ;;; ret tt else ret tt) ;;;
  BitReader.seek_bits 1 ;;;
  let* (crop_left, crop_right, crop_top, crop_bottom) := parse_crop in
  let* width := compute_width pic_width_in_mbs_minus1 crop_right crop_left in
  let* height := compute_height frame_mbs_only_flag pic_height_in_map_units_minus1 crop_bottom crop_top in
  let* vui_parameters_present_flag := BitReader.read_bit in
  let* (color_config, frame_rate) :=
    if vui_parameters_present_flag then parse_vui else ret (None, f64_of 0) in
  ret (mkSps profile_idc level_idc sps_ext width height frame_rate color_config).

Definition parse (data : list byte) : res ErrorKind Sps :=
  match unescape_loop (S (length data)) data 0 [] with
  | (Ok _, vec) => fst (parse_rbsp (BitReader.new_from_slice vec))
  | (Err e, _) => Err e
  | (Panic, _) => Panic
  | (Fuel, _) => Fuel
  end.
End parse.

(** The parameter set of the crate's own test: 480 by 852, 30 frames per
    second, BT.709. *)
Definition sample : list byte :=
  [x67; x64; x00; x1f; xac; xd9; x41; xe0; x6d; xf9; xe6; xa0; x20; x20; x28; x00; x00; x03; x00; x08; x00; x00; x03; x01; xe0; x78; xc1; x8c; xb0].

Example sps_sample :
  parse sample = Ok (mkSps 100 31 (Some (mkSpsExtended 1 0 0)) 480 852 (f64_of 30)
                       (Some (mkColor false 1 1 1))).
Proof. vm_compute. reflexivity. Qed.

(** ** The syntax of a sequence parameter set (ISO/IEC 14496-10, 7.3.2.1.1) *)

Record ExtSyntax := mkExtSyntax {
  x_chroma_format_idc : Z;
  x_separate_colour_plane : bool;
  x_bit_depth_luma : Z;
  x_bit_depth_chroma : Z;
  x_qpprime : bool;
  x_scaling : option (list (option (list Z)));
}.

Inductive PocSyntax :=
| Poc0 (log2_max_lsb : Z)
| Poc1 (always_zero : bool) (non_ref top_to_bottom : Z) (offsets : list Z)
| PocOther (type : Z).

Record VuiSyntax := mkVuiSyntax {
  v_aspect : option (Z * (Z * Z));
  v_overscan : option bool;
  v_signal : option (Z * bool * option (Z * Z * Z));
  v_chroma_loc : option (Z * Z);
  v_timing : option (Z * Z);
}.

Record SpsSyntax := mkSyntax {
  s_nal_ref_idc : Z;
  s_profile : Z;
  s_constraints : Z;
  s_level : Z;
  s_id : Z;
  s_ext : ExtSyntax;
  s_log2_max_frame_num : Z;
  s_poc : PocSyntax;
  s_max_ref_frames : Z;
  s_gaps : bool;
  s_width_mbs : Z;
  s_height_units : Z;
  s_frame_mbs_only : bool;
  s_mbaff : bool;
  s_direct_8x8 : bool;
  s_crop : option (Z * Z * Z * Z);
  s_vui : option VuiSyntax;
}.

Definition ext_layout (x : ExtSyntax) : list bool :=
  ue (x_chroma_format_idc x) ++
  (if x_chroma_format_idc x =? 3 then [x_separate_colour_plane x] else []) ++
  ue (x_bit_depth_luma x) ++ ue (x_bit_depth_chroma x) ++ [x_qpprime x] ++
  flagged (fun lists => lists ≫= flagged (fun deltas => deltas ≫= se)) (x_scaling x).

Definition poc_layout (p : PocSyntax) : list bool :=
  match p with
  | Poc0 lsb => ue 0 ++ ue lsb
  | Poc1 always_zero non_ref top_bottom offsets =>
      ue 1 ++ [always_zero] ++ se non_ref ++ se top_bottom ++ ue (blen offsets) ++ (offsets ≫= se)
  | PocOther t => ue t
  end.

Definition crop_layout (c : Z * Z * Z * Z) : list bool :=
  let '(l, r, t, b) := c in ue l ++ ue r ++ ue t ++ ue b.

Definition signal_layout (v : Z * bool * option (Z * Z * Z)) : list bool :=
  let '(format, full, desc) := v in
  val_bits 3 format ++ [full] ++ flagged (fun '(cp, tc, mc) => u 1 cp ++ u 1 tc ++ u 1 mc) desc.

Definition aspect_layout (v : Z * (Z * Z)) : list bool :=
  let '(idc, (w, h)) := v in u 1 idc ++ if idc =? 255 then val_bits 16 w ++ val_bits 16 h else [].

Definition vui_layout (v : VuiSyntax) : list bool :=
  flagged aspect_layout (v_aspect v) ++
  flagged (fun b => [b]) (v_overscan v) ++
  flagged signal_layout (v_signal v) ++
  flagged (fun '(t, b) => ue t ++ ue b) (v_chroma_loc v) ++
  flagged (fun '(units, scale) => u 4 units ++ u 4 scale) (v_timing v).

Definition layout (s : SpsSyntax) : list bool :=
  [false] ++ val_bits 2 (s_nal_ref_idc s) ++ val_bits 5 7 ++
  u 1 (s_profile s) ++ val_bits 8 (s_constraints s) ++ u 1 (s_level s) ++ ue (s_id s) ++
  (if high_profile (s_profile s) then ext_layout (s_ext s) else []) ++
  ue (s_log2_max_frame_num s) ++ poc_layout (s_poc s) ++ ue (s_max_ref_frames s) ++ [s_gaps s] ++
  ue (s_width_mbs s) ++ ue (s_height_units s) ++ [s_frame_mbs_only s] ++
  (if s_frame_mbs_only s then [] else [s_mbaff s]) ++ [s_direct_8x8 s] ++
  flagged crop_layout (s_crop s) ++ flagged vui_layout (s_vui s).

(** *** Well-formed syntax *)

(** The deltas of a scaling list: they stop when the next scale is zero or
    the list is full. *)
Fixpoint deltas_ok (size : nat) (next_scale : Z) (deltas : list Z) : Prop :=
  match size, deltas with
  | O, [] => True
  | S size, d :: deltas =>
      se_ok d /\
      let next := Z.rem (next_scale + d + 256) 256 in
      if next =? 0 then deltas = [] else deltas_ok size next deltas
  | _, _ => False
  end.

Fixpoint lists_ok (n : nat) (i : Z) (lists : list (option (list Z))) : Prop :=
  match n, lists with
  | O, [] => True
  | S n, l :: lists =>
      match l with
      | Some deltas => deltas_ok (if i <? 6 then 16 else 64) 8 deltas
      | None => True
      end /\ lists_ok n (i + 1) lists
  | _, _ => False
  end.

Definition ext_ok (x : ExtSyntax) : Prop :=
  ue_ok (x_chroma_format_idc x) /\ ue_ok (x_bit_depth_luma x) /\ ue_ok (x_bit_depth_chroma x) /\
  match x_scaling x with
  | Some lists => lists_ok (if negb (x_chroma_format_idc x =? 3) then 8 else 12) 0 lists
  | None => True
  end.

Definition poc_ok (p : PocSyntax) : Prop :=
  match p with
  | Poc0 lsb => ue_ok lsb
  | Poc1 _ non_ref top_bottom offsets =>
      se_ok non_ref /\ se_ok top_bottom /\ blen offsets < 2 ^ 32 /\ Forall se_ok offsets
  | PocOther t => ue_ok t /\ t <> 0 /\ t <> 1
  end.

Definition vui_ok (v : VuiSyntax) : Prop :=
  match v_aspect v with Some (idc, (w, h)) => fits 8 idc | None => True end /\
  match v_signal v with
  | Some (_, _, Some (cp, tc, mc)) => fits 8 cp /\ fits 8 tc /\ fits 8 mc
  | _ => True
  end /\
  match v_chroma_loc v with Some (t, b) => ue_ok t /\ ue_ok b | None => True end /\
  match v_timing v with Some (units, scale) => fits 32 units /\ fits 32 scale | None => True end.

Definition crop_of (s : SpsSyntax) : Z * Z * Z * Z := default (0, 0, 0, 0) (s_crop s).

Definition syntax_ok (s : SpsSyntax) : Prop :=
  fits 8 (s_profile s) /\ fits 8 (s_level s) /\ ue_ok (s_id s) /\
  (high_profile (s_profile s) = true -> ext_ok (s_ext s)) /\
  ue_ok (s_log2_max_frame_num s) /\ poc_ok (s_poc s) /\ ue_ok (s_max_ref_frames s) /\
  ue_ok (s_width_mbs s) /\ ue_ok (s_height_units s) /\
  (let '(l, r, t, b) := crop_of s in ue_ok l /\ ue_ok r /\ ue_ok t /\ ue_ok b) /\
  match s_vui s with Some v => vui_ok v | None => True end.

(** *** What the code makes of it *)

Definition dim_width (s : SpsSyntax) : Z :=
  let '(l, r, _, _) := crop_of s in (s_width_mbs s + 1) * 16 - r * 2 - l * 2.

Definition dim_height (s : SpsSyntax) : Z :=
  let '(_, _, t, b) := crop_of s in
  (2 - Z.b2z (s_frame_mbs_only s)) * (s_height_units s + 1) * 16 - b * 2 - t * 2.

Definition color_of (v : VuiSyntax) : option ColorConfig :=
  match v_signal v with
  | Some (_, full, Some (cp, tc, mc)) => Some (mkColor full cp tc mc)
  | Some (_, full, None) => Some (mkColor full 2 2 2)
  | None => None
  end.

Definition rate_of (v : VuiSyntax) : res ErrorKind spec_float :=
  match v_timing v with
  | Some (units, scale) =>
      if units =? 0 then Err InvalidData
      else Ok (f64_div (f64_of scale) (f64_mul (f64_of 2) (f64_of units)))
  | None => Ok (f64_of 0)
  end.

Definition denote (s : SpsSyntax) : res ErrorKind Sps :=
  if (dim_width s <? 0) || (dim_height s <? 0) then Panic
  else
    let e := if high_profile (s_profile s)
             then Some (mkSpsExtended (x_chroma_format_idc (s_ext s)) (x_bit_depth_luma (s_ext s))
                          (x_bit_depth_chroma (s_ext s)))
             else None in
    let sps := mkSps (s_profile s) (s_level s) e (dim_width s) (dim_height s) in
    match s_vui s with
    | None => Ok (sps (f64_of 0) None)
    | Some v =>
        match rate_of v with
        | Ok rate => Ok (sps rate (color_of v))
        | Err e => Err e
        | Panic => Panic
        | Fuel => Fuel
        end
    end.

(** ** The parser follows the layout *)

Lemma scaling_list_reads size : forall next deltas, - 256 < next < 256 -> deltas_ok size next deltas ->
  reads (scaling_list size next) (deltas ≫= se) tt.
Proof.
  induction size as [|size IH]; intros next [|d deltas] Hnext Hok; try done; [apply reads_ret|].
  destruct Hok as [Hd Hok]. cbv zeta in Hok. ranges.
  change ((d :: deltas) ≫= se) with (se d ++ (deltas ≫= se)). unfold se at 1.
  cbn [scaling_list]. rstep. do 2 rpure.
  destruct (Z.rem (next + d + 256) 256 =? 0); [subst deltas; apply reads_ret|].
  apply IH; [|done]. pose proof (Z.rem_bound_abs (next + d + 256) 256 ltac:(lia)). lia.
Qed.

Lemma scaling_lists_reads n : forall i lists, lists_ok n i lists ->
  reads (scaling_lists n i) (lists ≫= flagged (fun deltas => deltas ≫= se)) tt.
Proof.
  induction n as [|n IH]; intros i [|l lists] Hok; try done; [apply reads_ret|].
  destruct Hok as [Hl Hok]. cbn [scaling_lists].
  match goal with |- reads _ ((l :: lists) ≫= ?f) _ =>
    change ((l :: lists) ≫= f) with (f l ++ (lists ≫= f)) end.
  destruct l as [deltas|]; cbn [flagged]; [rewrite <-(assoc_L (++))|]; rstep; cbv iota.
  - eapply reads_bind; [by apply scaling_list_reads|]. by apply IH.
  - eapply reads_first; [apply reads_ret|]. by apply IH.
Qed.

Lemma SpsExtended_parse_reads x : ext_ok x ->
  reads SpsExtended_parse (ext_layout x)
    (mkSpsExtended (x_chroma_format_idc x) (x_bit_depth_luma x) (x_bit_depth_chroma x)).
Proof.
  intros (H1 & H2 & H3 & H4). ranges. unfold SpsExtended_parse, ext_layout, ue. rstep.
  eapply (reads_bind _ _ _ _ _ tt).
  { destruct (_ =? 3); [rlast|apply reads_ret]. }
  do 3 rstep. destruct (x_scaling x) as [lists|]; cbn [flagged].
  - rstep; cbv iota. eapply reads_last; [by apply scaling_lists_reads|apply reads_ret].
  - eapply reads_last; [apply reads_bit|]. cbv iota. rpure. apply reads_ret.
Qed.

Lemma offsets_reads os : forall fuel, Forall se_ok os -> (length os <= fuel)%nat ->
  reads (offsets_for_ref_frame fuel (blen os)) (os ≫= se) tt.
Proof.
  induction os as [|z os IH]; intros fuel Hok Hf.
  { destruct fuel; apply reads_ret. }
  apply Forall_cons_1 in Hok as [Hz Hok]. ranges. destruct fuel as [|fuel]; [simpl in Hf; lia|].
  cbn [offsets_for_ref_frame]. pose proof (blen_nonneg os). rewrite blen_cons.
  rewrite (proj2 (Z.leb_gt _ 0)) by lia.
  change ((z :: os) ≫= se) with (se z ++ (os ≫= se)). unfold se at 1. rstep.
  replace (1 + blen os - 1) with (blen os) by lia. apply IH; [done|simpl in Hf; lia].
Qed.

Lemma parse_pic_order_cnt_reads p : poc_ok p -> reads parse_pic_order_cnt (poc_layout p) tt.
Proof.
  intros Hok. unfold parse_pic_order_cnt. destruct p as [lsb|az nr tb os|t]; simpl in Hok; ranges;
    cbn [poc_layout]; unfold ue.
  - rstep. change (0 =? 0) with true. cbv iota. rlast.
  - destruct Hok as (H1 & H2 & H3 & H4). pose proof (blen_nonneg os). unfold se at 1 2.
    rstep. change (1 =? 0) with false. change (1 =? 1) with true. cbv iota.
    do 4 rstep. apply reads_get. intros r Hl. apply offsets_reads; [done|].
    pose proof (length_ses os). lia.
  - destruct Hok as (H1 & H2 & H3). eapply reads_last; [rcmd|]. cbv beta.
    rewrite (proj2 (Z.eqb_neq t 0)), (proj2 (Z.eqb_neq t 1)) by done. apply reads_ret.
Qed.

Lemma parse_crop_reads o :
  (let '(l, r, t, b) := default (0, 0, 0, 0) o in ue_ok l /\ ue_ok r /\ ue_ok t /\ ue_ok b) ->
  reads parse_crop (flagged crop_layout o) (default (0, 0, 0, 0) o).
Proof.
  destruct o as [[[[l r] t] b]|]; simpl; unfold parse_crop; ranges; unfold ue.
  - intros (H1 & H2 & H3 & H4). change (true :: ?x) with ([true] ++ x).
    do 4 rstep. rlast.
  - intros _. eapply reads_last; [apply reads_bit|]. apply reads_ret.
Qed.

(** Cropping succeeds exactly when the picture is not cropped below zero. *)
Lemma cropped_outcome a b c : 0 <= a < 2 ^ 60 -> ue_ok b -> ue_ok c ->
  if a - b * 2 - c * 2 <? 0 then yields (cropped a b c) [] Panic
  else reads (cropped a b c) [] (a - b * 2 - c * 2).
Proof.
  intros Ha Hb Hc. ranges. unfold cropped. destruct (Z.ltb_spec (a - b * 2 - c * 2) 0) as [Hlt|Hge].
  - intros r ys Hr Hbits. erewrite bind_ok; [|apply checked_u_ok; fits_tac].
    destruct (Z.lt_ge_cases (a - b * 2) 0) as [Hn|Hn].
    + by erewrite bind_panic; [|apply checked_u_panic; fits_tac].
    + do 2 (erewrite bind_ok; [|apply checked_u_ok; fits_tac]).
      by rewrite checked_u_panic by fits_tac.
  - do 3 rpure. apply reads_checked_u. fits_tac.
Qed.

Lemma compute_width_outcome w r l : ue_ok w -> ue_ok r -> ue_ok l ->
  if (w + 1) * 16 - r * 2 - l * 2 <? 0 then yields (compute_width w r l) [] Panic
  else reads (compute_width w r l) [] ((w + 1) * 16 - r * 2 - l * 2).
Proof.
  intros Hw Hr Hl. pose proof (cropped_outcome ((w + 1) * 16) r l) as Hc.
  ranges. specialize (Hc ltac:(lia) Hr Hl). unfold compute_width.
  destruct (_ <? 0).
  - do 2 (eapply yields_pure; [apply reads_checked_u; fits_tac|]). done.
  - do 2 rpure. done.
Qed.

Lemma compute_height_outcome (f : bool) h b t : ue_ok h -> ue_ok b -> ue_ok t ->
  if (2 - Z.b2z f) * (h + 1) * 16 - b * 2 - t * 2 <? 0 then yields (compute_height f h b t) [] Panic
  else reads (compute_height f h b t) [] ((2 - Z.b2z f) * (h + 1) * 16 - b * 2 - t * 2).
Proof.
  intros Hh Hb Ht. pose proof (cropped_outcome ((2 - Z.b2z f) * (h + 1) * 16) b t) as Hc.
  assert (0 <= (2 - Z.b2z f) * (h + 1) < 2 ^ 40) as Hr by (ranges; destruct f; simpl; lia).
  specialize (Hc ltac:(lia) Hb Ht). ranges. unfold compute_height.
  destruct (_ <? 0).
  - do 3 (eapply yields_pure; [apply reads_checked_u; fits_tac|]). done.
  - do 3 rpure. done.
Qed.

Section vui.
Context `{BO : ByteOrder}.

Lemma parse_color_reads v : vui_ok v -> reads parse_color (flagged signal_layout (v_signal v)) (color_of v).
Proof.
  intros (_ & Hs & _). unfold parse_color, color_of.
  destruct (v_signal v) as [[[format full] desc]|]; cbn [flagged signal_layout].
  - do 3 rstep. destruct desc as [[[cp tc] mc]|]; cbn [flagged]; unfold u.
    + destruct Hs as (H1 & H2 & H3). do 3 rstep. rlast.
    + eapply reads_last; [apply reads_bit|]. apply reads_ret.
  - eapply reads_last; [apply reads_bit|]. apply reads_ret.
Qed.

Lemma parse_timing_outcome v : vui_ok v ->
  match rate_of v with
  | Ok rate => reads parse_timing (flagged (fun '(units, scale) => u 4 units ++ u 4 scale) (v_timing v)) rate
  | o => yields parse_timing (flagged (fun '(units, scale) => u 4 units ++ u 4 scale) (v_timing v))
           (match o with Err e => Err e | _ => Panic end)
  end.
Proof.
  intros (_ & _ & _ & Ht). unfold parse_timing, rate_of.
  destruct (v_timing v) as [[units scale]|]; cbn [flagged]; unfold u.
  - destruct Ht as [H1 H2]. destruct (Z.eqb_spec units 0) as [->|Hne].
    + eapply yields_then; [apply reads_bit|]. cbv iota.
      eapply yields_then; [rcmd|]. rewrite <-(app_nil_r (bytes_bits (be_bytes 4 scale))).
      eapply yields_then; [rcmd|]. by intros r ys _ _.
    + do 2 rstep. eapply reads_last; [rcmd|].
      rewrite (proj2 (Z.eqb_neq units 0)) by done. apply reads_ret.
  - eapply reads_last; [apply reads_bit|]. apply reads_ret.
Qed.

Lemma aspect_reads v : vui_ok v -> reads parse_aspect (flagged aspect_layout (v_aspect v)) tt.
Proof.
  intros (Ha & _). unfold parse_aspect. destruct (v_aspect v) as [[idc [w h]]|]; cbn [flagged aspect_layout]; unfold u.
  - do 2 rstep. destruct (idc =? 255); [|apply reads_ret].
    rstep. rewrite <-(app_nil_r (val_bits 16 h)). rstep. apply reads_ret.
  - eapply reads_last; [apply reads_bit|]. apply reads_ret.
Qed.

Lemma overscan_reads o : reads parse_overscan (flagged (fun b => [b]) o) tt.
Proof.
  unfold parse_overscan. destruct o as [b|]; cbn [flagged].
  - rstep. rewrite <-(app_nil_r [b]). rstep. apply reads_ret.
  - eapply reads_last; [apply reads_bit|]. apply reads_ret.
Qed.

Lemma chroma_loc_reads v : vui_ok v ->
  reads parse_chroma_loc (flagged (fun '(t, b) => ue t ++ ue b) (v_chroma_loc v)) tt.
Proof.
  intros (_ & _ & Hc & _). unfold parse_chroma_loc.
  destruct (v_chroma_loc v) as [[t b]|]; cbn [flagged]; ranges; unfold ue.
  - destruct Hc as [H1 H2]. do 2 rstep. rlast.
  - eapply reads_last; [apply reads_bit|]. apply reads_ret.
Qed.

(** What a VUI structure yields. *)
Definition vui_of (v : VuiSyntax) : res ErrorKind (option ColorConfig * spec_float) :=
  match rate_of v with
  | Ok rate => Ok (color_of v, rate)
  | Err e => Err e
  | Panic => Panic
  | Fuel => Fuel
  end.

Lemma parse_vui_outcome v : vui_ok v ->
  match vui_of v with
  | Ok cr => reads parse_vui (vui_layout v) cr
  | o => yields parse_vui (vui_layout v) (match o with Err e => Err e | _ => Panic end)
  end.
Proof.
  intros Hok. pose proof (parse_timing_outcome v Hok) as Ht. unfold vui_of, parse_vui, vui_layout.
  pose proof (aspect_reads v Hok) as Ha. pose proof (parse_color_reads v Hok) as Hc.
  pose proof (chroma_loc_reads v Hok) as Hl. pose proof (overscan_reads (v_overscan v)) as Ho.
  assert (rate_of v <> Fuel /\ rate_of v <> Panic) as [Hf Hp].
  { unfold rate_of. destruct (v_timing v) as [[units scale]|]; [destruct (units =? 0)|]; done. }
  destruct (rate_of v) as [rate|e| |]; try done.
  - do 4 (eapply reads_bind; [eassumption|]). eapply reads_last; [eassumption|]. apply reads_ret.
  - do 4 (eapply yields_then; [eassumption|]).
    match goal with |- yields _ ?xs _ => rewrite <-(app_nil_r xs) end.
    by eapply yields_stop.
Qed.

Lemma sps_ext_reads s : (high_profile (s_profile s) = true -> ext_ok (s_ext s)) ->
  reads (if high_profile (s_profile s) then let* e := SpsExtended_parse in ret (Some e) else ret None)
    (if high_profile (s_profile s) then ext_layout (s_ext s) else [])
    (if high_profile (s_profile s)
     then Some (mkSpsExtended (x_chroma_format_idc (s_ext s)) (x_bit_depth_luma (s_ext s))
                  (x_bit_depth_chroma (s_ext s)))
     else None).
Proof.
  intros He. destruct (high_profile (s_profile s)); [|apply reads_ret].
  eapply reads_last; [by apply SpsExtended_parse_reads, He|]. apply reads_ret.
Qed.

Lemma mbaff_reads s :
  reads (if negb (s_frame_mbs_only s) then BitReader.seek_bits 1 ;;; ret tt else ret tt)
    (if s_frame_mbs_only s then [] else [s_mbaff s]) tt.
Proof.
  destruct (s_frame_mbs_only s); [apply reads_ret|]. cbn [negb].
  rewrite <-(app_nil_r [s_mbaff s]). rstep. apply reads_ret.
Qed.

(** The end of [parse]: the VUI and the result. *)
Lemma parse_tail_yields (mk : spec_float -> option ColorConfig -> Sps) o :
  match o with Some v => vui_ok v | None => True end ->
  yields (let* vui_parameters_present_flag := BitReader.read_bit in
          let* (color_config, frame_rate) :=
            if vui_parameters_present_flag then parse_vui else ret (None, f64_of 0) in
          ret (mk frame_rate color_config))
    (flagged vui_layout o)
    (match o with
     | None => Ok (mk (f64_of 0) None)
     | Some v => match rate_of v with
                 | Ok rate => Ok (mk rate (color_of v))
                 | Err e => Err e | Panic => Panic | Fuel => Fuel
                 end
     end).
Proof.
  intros Hok. destruct o as [v|]; cbn [flagged].
  - eapply yields_then; [apply reads_bit|]. cbv iota.
    pose proof (parse_vui_outcome v Hok) as Hv. unfold vui_of in Hv.
    assert (rate_of v <> Fuel /\ rate_of v <> Panic) as [Hf Hp].
    { unfold rate_of. destruct (v_timing v) as [[units scale]|]; [destruct (units =? 0)|]; done. }
    destruct (rate_of v) as [rate|e| |]; try done.
    + apply yields_reads. eapply reads_last; [exact Hv|]. apply reads_ret.
    + rewrite <-(app_nil_r (vui_layout v)). by eapply yields_stop.
  - apply yields_reads. eapply reads_last; [apply reads_bit|]. cbv iota.
    eapply reads_first; [apply reads_ret|]. apply reads_ret.
Qed.

Lemma parse_rbsp_yields s : syntax_ok s -> yields parse_rbsp (layout s) (denote s).
Proof.
  intros (H1 & H2 & H3 & H4 & H5 & H6 & H7 & H8 & H9 & H10 & H11).
  pose proof (sps_ext_reads s H4) as He. pose proof (parse_crop_reads (s_crop s)) as Hcrop.
  pose proof (parse_pic_order_cnt_reads _ H6) as Hpoc.
  unfold parse_rbsp, layout, denote, dim_width, dim_height, crop_of in *.
  destruct (default (0, 0, 0, 0) (s_crop s)) as [[[l r] t] b]. specialize (Hcrop H10).
  destruct H10 as (Hl & Hr & Ht & Hb).
  pose proof (compute_width_outcome _ _ _ H8 Hr Hl) as Hw.
  pose proof (compute_height_outcome (s_frame_mbs_only s) _ _ _ H9 Hb Ht) as Hh.
  pose proof (mbaff_reads s) as Hmb. unfold ue, u in *. unfold ue_ok in H3, H5, H7, H8, H9.
  ystep. eapply yields_seek; [apply length_val_bits|reflexivity|lia|].
  ystep. change (7 =? 7) with true. cbn [negb]. ystep.
  eapply yields_seek; [apply length_val_bits|reflexivity|lia|]. do 2 ystep.
  eapply yields_then; [exact He|]. ystep. eapply yields_then; [exact Hpoc|]. do 5 ystep.
  eapply yields_then; [exact Hmb|].
  eapply yields_seek; [reflexivity|reflexivity|simpl; lia|].
  eapply yields_then; [exact Hcrop|].
  destruct (_ <? 0) in Hw |- *; cbn [orb].
  { rewrite <-(app_nil_l (flagged vui_layout (s_vui s))). by eapply yields_stop. }
  eapply yields_pure; [exact Hw|]. destruct (_ <? 0) in Hh |- *.
  { rewrite <-(app_nil_l (flagged vui_layout (s_vui s))). by eapply yields_stop. }
  eapply yields_pure; [exact Hh|]. by apply parse_tail_yields.
Qed.
End vui.

(** ** Emulation prevention *)

(** Encapsulation of a payload (ISO/IEC 14496-10, 7.4.1): a byte 3 before any
    byte up to 3 that follows two zeros; [zeros] counts the zeros just
    emitted. *)
Fixpoint escape (zeros : nat) (payload : list byte) : list byte :=
  match payload with
  | [] => []
  | b :: payload =>
      if (2 <=? zeros)%nat && (b2z b <=? 3)
      then x03 :: b :: escape (if b2z b =? 0 then 1 else 0) payload
      else b :: escape (if b2z b =? 0 then S zeros else 0) payload
  end.

Definition is_escape (a b c : byte) : bool := (b2z a =? 0) && (b2z b =? 0) && (b2z c =? 3).

(** The loop of [parse] on the rest of the data. *)
Fixpoint strip (l : list byte) : list byte :=
  match l with
  | [] => []
  | a :: l1 =>
      if (length l <=? 3)%nat then []
      else match l1 with
           | b :: c :: l3 => if is_escape a b c then x00 :: x00 :: strip l3 else a :: strip l1
           | _ => a :: strip l1
           end
  end.

Lemma strip_short l : (length l <= 3)%nat -> strip l = [].
Proof. intros Hl. destruct l as [|a l1]; [done|]. cbn [strip]. by rewrite (proj2 (Nat.leb_le _ _)). Qed.

Lemma strip_long a b c l : (1 <= length l)%nat ->
  strip (a :: b :: c :: l) = if is_escape a b c then x00 :: x00 :: strip l else a :: strip (b :: c :: l).
Proof. intros Hl. cbn [strip]. by rewrite (proj2 (Nat.leb_gt _ 3)) by (simpl; lia). Qed.

Lemma index_app {S} done_ (a : byte) l i (s : S) : i = blen done_ ->
  index (done_ ++ a :: l) i s = (Ok a, s).
Proof.
  intros ->. unfold index, blen, unwrap. rewrite Nat2Z.id, list_lookup_middle by done. done.
Qed.

Lemma escape_at_app {S} done_ a b c l i (s : S) : i = blen done_ ->
  escape_at (done_ ++ a :: b :: c :: l) i s = (Ok (is_escape a b c), s).
Proof.
  intros ->. unfold escape_at, is_escape. mstep (index_app done_ a (b :: c :: l) (blen done_) s eq_refl).
  destruct (b2z a =? 0); [|done].
  replace (done_ ++ a :: b :: c :: l) with ((done_ ++ [a]) ++ b :: c :: l) by by rewrite <-(assoc_L (++)).
  erewrite bind_ok; [|apply index_app; rewrite blen_app; done].
  destruct (b2z b =? 0); [|done].
  replace ((done_ ++ [a]) ++ b :: c :: l) with ((done_ ++ [a; b]) ++ c :: l)
    by by rewrite <-!(assoc_L (++)).
  by erewrite bind_ok; [|apply index_app; rewrite blen_app; done].
Qed.

Lemma unescape_loop_strip n : forall l fuel done_ vec, length l = n -> (n < fuel)%nat ->
  3 <= blen (done_ ++ l) < 2 ^ 63 ->
  unescape_loop fuel (done_ ++ l) (blen done_) vec = (Ok tt, vec ++ strip l).
Proof.
  induction (lt_wf n) as [n _ IH]. intros l fuel done_ vec Hn Hf Hlen.
  destruct fuel as [|fuel]; [lia|]. cbn [unescape_loop].
  erewrite bind_ok; [|apply checked_u_ok; unfold fits; lia]. rewrite blen_app.
  destruct (Z.ltb_spec (blen done_) (blen done_ + blen l - 3)) as [Hlt|Hge]; cycle 1.
  { rewrite strip_short by (unfold blen in *; lia). by rewrite app_nil_r. }
  destruct l as [|a [|b [|c l]]]; try (unfold blen in Hlt; simpl in Hlt; lia).
  rewrite !blen_cons in Hlt. rewrite strip_long by (unfold blen in Hlt; lia).
  mstep (escape_at_app (S := list byte) done_ a b c l (blen done_) vec eq_refl). destruct (is_escape a b c).
  - do 2 (erewrite bind_ok; [|done]).
    replace (done_ ++ a :: b :: c :: l) with ((done_ ++ [a; b; c]) ++ l) in * by by rewrite <-(assoc_L (++)).
    replace (blen done_ + 3) with (blen (done_ ++ [a; b; c])) by (rewrite blen_app; done).
    rewrite (IH (length l)) by (simpl in *; lia || done). by rewrite <-!(assoc_L (++)).
  - mstep (index_app (S := list byte) done_ a (b :: c :: l) (blen done_) vec eq_refl).
    erewrite bind_ok; [|done].
    replace (done_ ++ a :: b :: c :: l) with ((done_ ++ [a]) ++ b :: c :: l) in * by by rewrite <-(assoc_L (++)).
    replace (blen done_ + 1) with (blen (done_ ++ [a])) by (rewrite blen_app; done).
    rewrite (IH (length (b :: c :: l))) by (simpl in *; lia || done). by rewrite <-!(assoc_L (++)).
Qed.

Lemma strip_nonzero a l : b2z a <> 0 -> (3 <= length l)%nat -> strip (a :: l) = a :: strip l.
Proof.
  intros Ha Hl. destruct l as [|b [|c l]]; [simpl in Hl; lia..|].
  rewrite strip_long by (simpl in Hl; lia). unfold is_escape.
  by rewrite (proj2 (Z.eqb_neq _ 0)) by done.
Qed.

Lemma strip_zero_nonzero b l : b2z b <> 0 -> (3 <= length l)%nat ->
  strip (x00 :: b :: l) = x00 :: b :: strip l.
Proof.
  intros Hb Hl. destruct l as [|c l]; [simpl in Hl; lia|].
  rewrite strip_long by (simpl in Hl; lia). unfold is_escape.
  rewrite (proj2 (Z.eqb_neq (b2z b) 0)) by done. rewrite andb_false_r. cbn [andb].
  by rewrite strip_nonzero.
Qed.

(** The loop stops three bytes before the end; an escape that straddles that
    limit leaves one zero more. *)
Definition leftover (ex : list byte) : Prop := ex = [] \/ ex = [x00].

Lemma strip_tail z tail : (z <= 2)%nat -> length tail = 3%nat ->
  exists ex, leftover ex /\ strip (replicate z x00 ++ tail) = replicate z x00 ++ ex.
Proof.
  intros Hz Ht. destruct tail as [|a [|b [|c [|]]]]; try done.
  assert (exists ex, leftover ex /\ strip (x00 :: a :: b :: [c]) = x00 :: ex) as (ex & Hex & H1).
  { rewrite strip_long by (simpl; lia). destruct (is_escape x00 a b); rewrite strip_short by (simpl; lia);
      [by exists [x00]; split; [right|]|by exists []; split; [left|]]. }
  destruct z as [|[|[|]]]; [|by exists ex| |lia]; cbn [replicate app].
  - exists []. split; [by left|]. by apply strip_short.
  - rewrite strip_long by (simpl; lia). destruct (is_escape x00 x00 a).
    + exists []. split; [by left|]. by rewrite strip_short by (simpl; lia).
    + exists ex. by rewrite H1.
Qed.

Lemma byte_zero b : b2z b = 0 -> b = x00.
Proof. intros H. by apply b2z_inj. Qed.

Lemma strip_escape p : forall z tail, (z <= 2)%nat -> length tail = 3%nat ->
  exists ex, leftover ex /\
    strip (replicate z x00 ++ escape z p ++ tail) = replicate z x00 ++ p ++ ex.
Proof.
  induction p as [|b p IH]; intros z tail Hz Ht; [by apply strip_tail|].
  assert (forall z', (3 <= length (escape z' p ++ tail))%nat) as Hlen by (intros; rewrite length_app; lia).
  cbn [escape]. destruct (IH 0%nat tail ltac:(lia) Ht) as (ex0 & Hex0 & H0). cbn [replicate app] in H0.
  destruct (Z.eqb_spec (b2z b) 0) as [Hb|Hb].
  - apply byte_zero in Hb as ->. destruct z as [|[|[|]]]; [| | |lia]; cbn [Nat.leb andb].
    + by destruct (IH 1%nat tail ltac:(lia) Ht) as (ex & Hex & H1); exists ex.
    + by destruct (IH 2%nat tail ltac:(lia) Ht) as (ex & Hex & H1); exists ex.
    + destruct (IH 1%nat tail ltac:(lia) Ht) as (ex & Hex & H1). exists ex. split; [done|].
      change (b2z x00 <=? 3) with true. cbn [replicate app] in *.
      rewrite strip_long by (specialize (Hlen 1%nat); simpl; lia). change (is_escape x00 x00 x03) with true.
      cbv iota. by rewrite H1.
  - exists ex0. split; [done|]. destruct z as [|[|[|]]]; [| | |lia]; cbn [Nat.leb andb replicate app].
    + by rewrite strip_nonzero, H0.
    + by rewrite strip_zero_nonzero, H0.
    + destruct (Z.leb_spec (b2z b) 3) as [H3|H3]; cbn [app].
      * rewrite strip_long by (simpl; lia). change (is_escape x00 x00 x03) with true.
        cbv iota. by rewrite strip_nonzero, H0.
      * rewrite strip_long by (specialize (Hlen 0%nat); lia). unfold is_escape.
        rewrite (proj2 (Z.eqb_neq (b2z b) 3)) by lia. rewrite andb_false_r.
        by rewrite strip_zero_nonzero, H0.
Qed.

Lemma escape_longer p : forall z, blen p <= blen (escape z p).
Proof.
  induction p as [|b p IH]; intros z; cbn [escape]; [done|].
  destruct (_ && _); rewrite !blen_cons;
    match goal with |- context [escape ?k p] => specialize (IH k) end; lia.
Qed.

(** ** Properties *)


(** The parameter set of the crate's test as syntax. *)
Definition sample_syntax : SpsSyntax :=
  mkSyntax 3 100 0 31 0 (mkExtSyntax 1 false 0 0 false None) 0 (Poc0 2) 4 false 29 53 true false true
    (Some (0, 0, 0, 6))
    (Some (mkVuiSyntax None None (Some (5, false, Some (1, 1, 1))) None (Some (1, 60)))).

Definition sample_payload : list byte :=
  [x67; x64; x00; x1f; xac; xd9; x41; xe0; x6d; xf9; xe6; xa0; x20; x20; x28; x00; x00; x00; x08;
   x00; x00; x01; xe0; x78].


(** A byte that cannot continue an escape sequence. *)
Definition no_escape (tail : list byte) : Prop :=
  match tail with b :: _ => b2z b <> 0 /\ b2z b <> 3 | [] => False end.

Lemma strip_tail_ignored n : forall d t1 t2, length d = n -> length t1 = 3%nat -> length t2 = 3%nat ->
  no_escape t1 -> no_escape t2 -> strip (d ++ t1) = strip (d ++ t2).
Proof.
  induction (lt_wf n) as [n _ IH].
  intros d t1 t2 Hn H1 H2 He1 He2. destruct t1 as [|a1 [|b1 [|c1 [|]]]]; try done.
  destruct t2 as [|a2 [|b2 [|c2 [|]]]]; try done. destruct He1 as [Hz1 Hn1], He2 as [Hz2 Hn2].
  destruct d as [|a [|b [|c d]]].
  - cbn [app]. by rewrite !strip_short by (simpl; lia).
  - cbn [app]. rewrite (strip_long a a1), (strip_long a a2) by (simpl; lia). unfold is_escape.
    rewrite (proj2 (Z.eqb_neq (b2z a1) 0)), (proj2 (Z.eqb_neq (b2z a2) 0)) by done.
    rewrite !andb_false_r. cbn [andb]. by rewrite !strip_short by (simpl; lia).
  - cbn [app]. rewrite (strip_long a b a1), (strip_long a b a2) by (simpl; lia). unfold is_escape.
    rewrite (proj2 (Z.eqb_neq (b2z a1) 3)), (proj2 (Z.eqb_neq (b2z a2) 3)) by done.
    rewrite !andb_false_r. f_equal. by apply (IH 1%nat ltac:(simpl in *; lia) [b]).
  - cbn [app]. rewrite (strip_long a b c (d ++ [a1; b1; c1])), (strip_long a b c (d ++ [a2; b2; c2]))
      by (rewrite length_app; simpl; lia).
    destruct (is_escape a b c).
    + do 2 f_equal. by apply (IH (length d) ltac:(simpl in *; lia)).
    + f_equal. by apply (IH (length (b :: c :: d)) ltac:(simpl in *; lia) (b :: c :: d)).
Qed.

(** The loop that removes the emulation prevention bytes runs while [i <
    data.len() - 3]: fewer than three bytes of input make the subtraction
    underflow, a panic on attacker-controlled data; and the last three bytes
    of a parameter set are never looked at: replacing them by others (that do
    not complete an escape sequence) does not change the outcome, so the
    syntax elements in them are lost. *)
Theorem sps_tail_ignored `{ByteOrder} (data t1 t2 short : list byte)
    (H1 : length t1 = 3%nat) (H2 : length t2 = 3%nat) (Hn1 : no_escape t1) (Hn2 : no_escape t2)
    (Hlen : blen data < 2 ^ 60) (Hs : blen short < 3) :
  parse short = Panic /\ parse (data ++ t1) = parse (data ++ t2).
Proof.
  split.
  - unfold parse. cbn [unescape_loop].
    by erewrite bind_panic; [|apply checked_u_panic; unfold fits; lia].
  - assert (forall t, length t = 3%nat -> unescape_loop (S (length (data ++ t))) (data ++ t) 0 []
      = (Ok tt, strip (data ++ t))) as Hu.
    { intros t Ht. pose proof (blen_nonneg data).
      apply (unescape_loop_strip _ (data ++ t) _ [] [] eq_refl); [lia|].
      cbn [app]. rewrite blen_app. unfold blen in *. lia. }
    unfold parse. rewrite !Hu by done. by rewrite (strip_tail_ignored _ data t1 t2 eq_refl).
Qed.

(** A complete parameter set (baseline profile, 16 by 16, no VUI) that ends in
    its last bytes is refused for want of input; with three bytes of padding it
    parses. *)
Lemma sps_tail_ignored_witness :
  let sps := [x67; x42; x00; x1e; xf4; xf2] in
  (parse [x67; x42] = Panic /\ parse ([x67; x42; x00] ++ [x1e; xf4; xf2]) = parse ([x67; x42; x00] ++ [xff; xff; xff]))
  /\ parse sps = Err UnexpectedEof
  /\ match parse (sps ++ [xff; xff; xff]) with Ok s => (width s, height s) = (16, 16) | _ => False end.
Proof.
  intros sps. split; [|split; vm_compute; reflexivity].
  apply (sps_tail_ignored [x67; x42; x00] [x1e; xf4; xf2] [xff; xff; xff] [x67; x42]);
    first [reflexivity | vm_compute; split; congruence | vm_compute; reflexivity].
Defined.
End H264Sps.
