(* ===== verification/H265.v ===== *)
(** * [scuffle-h265]: the HEVC decoder configuration record
    (crates/h265/src/config.rs)

    [demux], [size] and [mux] of the record, the bit layout they share and the
    round trip. *)

From stdpp Require Import base list numbers.
From Stdlib Require Import Strings.Byte.
From S2P Require Import Prelude Io BitRead BitWrite BitIo.

Module HevcConfig.
Import BitIo.

Inductive NaluType :=
| Vps
| Pps
| Sps
| Unknown (value : Z).

(** [impl From<u8> for NaluType] *)
Definition nalu_type_from (value : Z) : NaluType :=
  match value with
  | 32 => Vps
  | 33 => Sps
  | 34 => Pps
  | _ => Unknown value
  end.

(** [impl From<NaluType> for u8] *)
Definition u8_from (t : NaluType) : Z :=
  match t with
  | Vps => 32
  | Sps => 33
  | Pps => 34
  | Unknown value => value
  end.

Record NaluArray := mkArray {
  array_completeness : bool;
  nal_unit_type : NaluType;
  nalus : list (list byte);
}.

Record HEVCDecoderConfigurationRecord := mkConfig {
  configuration_version : Z;
  general_profile_space : Z;
  general_tier_flag : bool;
  general_profile_idc : Z;
  general_profile_compatibility_flags : Z;
  general_constraint_indicator_flags : Z;
  general_level_idc : Z;
  min_spatial_segmentation_idc : Z;
  parallelism_type : Z;
  chroma_format_idc : Z;
  bit_depth_luma_minus8 : Z;
  bit_depth_chroma_minus8 : Z;
  avg_frame_rate : Z;
  constant_frame_rate : Z;
  num_temporal_layers : Z;
  temporal_id_nested : bool;
  length_size_minus_one : Z;
  arrays : list NaluArray;
}.

Section record.
Context `{BO : ByteOrder}.

Abbreviation P := (M (BitReader.t Cursor) ErrorKind).

(** [for _ in 0..num_nalus] *)
Fixpoint read_nalus (n : nat) : P (list (list byte)) :=
  match n with
  | O => ret []
  | S n =>
      let* nal_unit_length := read_u16 in
      let* data := read_exact (Z.to_nat nal_unit_length) in
      let* rest := read_nalus n in
      ret (data :: rest)
  end.

(** [for _ in 0..num_of_arrays] *)
Fixpoint read_arrays (n : nat) : P (list NaluArray) :=
  match n with
  | O => ret []
  | S n =>
      let* array_completeness := BitReader.read_bit in
      BitReader.seek_bits 1 ;;;
      let* v := BitReader.read_bits 6 in
      let nal_unit_type := wrap 8 v in
      let* num_nalus := read_u16 in
      let* nalus := read_nalus (Z.to_nat num_nalus) in
      let* rest := read_arrays n in
      ret (mkArray array_completeness (nalu_type_from nal_unit_type) nalus :: rest)
  end.

Definition demux_bits : P HEVCDecoderConfigurationRecord :=
  let* configuration_version := read_u8 in
  let* v := BitReader.read_bits 2 in
  let general_profile_space := wrap 8 v in
  let* general_tier_flag := BitReader.read_bit in
  let* v := BitReader.read_bits 5 in
  let general_profile_idc := wrap 8 v in
  let* general_profile_compatibility_flags := read_uint LittleEndian 4 in
  let* general_constraint_indicator_flags := read_uint LittleEndian 6 in
  let* general_level_idc := read_u8 in
  BitReader.seek_bits 4 ;;;
  let* v := BitReader.read_bits 12 in
  let min_spatial_segmentation_idc := wrap 16 v in
  BitReader.seek_bits 6 ;;;
  let* v := BitReader.read_bits 2 in
  let parallelism_type := wrap 8 v in
  BitReader.seek_bits 6 ;;;
  let* v := BitReader.read_bits 2 in
  let chroma_format_idc := wrap 8 v in
  BitReader.seek_bits 5 ;;;
  let* v := BitReader.read_bits 3 in
  let bit_depth_luma_minus8 := wrap 8 v in
  BitReader.seek_bits 5 ;;;
  let* v := BitReader.read_bits 3 in
  let bit_depth_chroma_minus8 := wrap 8 v in
  let* avg_frame_rate := read_u16 in
  let* v := BitReader.read_bits 2 in
  let constant_frame_rate := wrap 8 v in
  let* v := BitReader.read_bits 3 in
  let num_temporal_layers := wrap 8 v in
  let* temporal_id_nested := BitReader.read_bit in
  let* v := BitReader.read_bits 2 in
  let length_size_minus_one := wrap 8 v in
  let* num_of_arrays := read_u8 in
  let* arrays := read_arrays (Z.to_nat num_of_arrays) in
  ret (mkConfig configuration_version general_profile_space general_tier_flag general_profile_idc
         general_profile_compatibility_flags general_constraint_indicator_flags general_level_idc
         min_spatial_segmentation_idc parallelism_type chroma_format_idc bit_depth_luma_minus8
         bit_depth_chroma_minus8 avg_frame_rate constant_frame_rate num_temporal_layers
         temporal_id_nested length_size_minus_one arrays).

Definition demux : M Cursor ErrorKind HEVCDecoderConfigurationRecord := with_bit_reader demux_bits.

Fixpoint nalus_size (ns : list (list byte)) : Z :=
  match ns with [] => 0 | n :: ns => 2 + blen n + nalus_size ns end.

Fixpoint arrays_size (xs : list NaluArray) : Z :=
  match xs with [] => 0 | a :: xs => 1 + 2 + nalus_size (nalus a) + arrays_size xs end.

Definition size (c : HEVCDecoderConfigurationRecord) : Z :=
  1 + 1 + 4 + 6 + 1 + 2 + 1 + 1 + 1 + 1 + 2 + 1 + 1 + arrays_size (arrays c).

Context {W : Type} `{IoWrite W}.

Fixpoint write_nalus (ns : list (list byte)) : M (BitWriter.t W) ErrorKind unit :=
  match ns with
  | [] => ret tt
  | n :: ns =>
      write_u16 (wrap 16 (blen n)) ;;;
      write_all n ;;;
      write_nalus ns
  end.

Fixpoint write_arrays (xs : list NaluArray) : M (BitWriter.t W) ErrorKind unit :=
  match xs with
  | [] => ret tt
  | a :: xs =>
      BitWriter.write_bit (array_completeness a) ;;;
      BitWriter.write_bits 0 1 ;;;
      BitWriter.write_bits (u8_from (nal_unit_type a)) 6 ;;;
      write_u16 (wrap 16 (blen (nalus a))) ;;;
      write_nalus (nalus a) ;;;
      write_arrays xs
  end.

Definition mux_bits (c : HEVCDecoderConfigurationRecord) : M (BitWriter.t W) ErrorKind unit :=
  write_u8 (configuration_version c) ;;;
  BitWriter.write_bits (general_profile_space c) 2 ;;;
  BitWriter.write_bit (general_tier_flag c) ;;;
  BitWriter.write_bits (general_profile_idc c) 5 ;;;
  write_uint LittleEndian 4 (general_profile_compatibility_flags c) ;;;
  write_uint LittleEndian 6 (general_constraint_indicator_flags c) ;;;
  write_u8 (general_level_idc c) ;;;
  BitWriter.write_bits 15 4 ;;;
  BitWriter.write_bits (min_spatial_segmentation_idc c) 12 ;;;
  BitWriter.write_bits 63 6 ;;;
  BitWriter.write_bits (parallelism_type c) 2 ;;;
  BitWriter.write_bits 63 6 ;;;
  BitWriter.write_bits (chroma_format_idc c) 2 ;;;
  BitWriter.write_bits 31 5 ;;;
  BitWriter.write_bits (bit_depth_luma_minus8 c) 3 ;;;
  BitWriter.write_bits 31 5 ;;;
  BitWriter.write_bits (bit_depth_chroma_minus8 c) 3 ;;;
  write_u16 (avg_frame_rate c) ;;;
  BitWriter.write_bits (constant_frame_rate c) 2 ;;;
  BitWriter.write_bits (num_temporal_layers c) 3 ;;;
  BitWriter.write_bit (temporal_id_nested c) ;;;
  BitWriter.write_bits (length_size_minus_one c) 2 ;;;
  write_u8 (wrap 8 (blen (arrays c))) ;;;
  write_arrays (arrays c).

Definition mux (c : HEVCDecoderConfigurationRecord) : M W ErrorKind unit :=
  with_bit_writer (mux_bits c ;;; BitWriter.finish) ;;; ret tt.
End record.

(** ** The bit layout *)

Definition nalu_layout (n : list byte) : list bool := bytes_bits (be_bytes 2 (blen n)) ++ bytes_bits n.

Definition array_layout (a : NaluArray) : list bool :=
  [array_completeness a] ++ val_bits 1 0 ++ val_bits 6 (u8_from (nal_unit_type a)) ++
  bytes_bits (be_bytes 2 (blen (nalus a))) ++ (nalus a ≫= nalu_layout).

Definition layout (c : HEVCDecoderConfigurationRecord) : list bool :=
  bytes_bits (be_bytes 1 (configuration_version c)) ++
  val_bits 2 (general_profile_space c) ++ [general_tier_flag c] ++ val_bits 5 (general_profile_idc c) ++
  bytes_bits (le_bytes 4 (general_profile_compatibility_flags c)) ++
  bytes_bits (le_bytes 6 (general_constraint_indicator_flags c)) ++
  bytes_bits (be_bytes 1 (general_level_idc c)) ++
  val_bits 4 15 ++ val_bits 12 (min_spatial_segmentation_idc c) ++
  val_bits 6 63 ++ val_bits 2 (parallelism_type c) ++
  val_bits 6 63 ++ val_bits 2 (chroma_format_idc c) ++
  val_bits 5 31 ++ val_bits 3 (bit_depth_luma_minus8 c) ++
  val_bits 5 31 ++ val_bits 3 (bit_depth_chroma_minus8 c) ++
  bytes_bits (be_bytes 2 (avg_frame_rate c)) ++
  val_bits 2 (constant_frame_rate c) ++ val_bits 3 (num_temporal_layers c) ++
  [temporal_id_nested c] ++ val_bits 2 (length_size_minus_one c) ++
  bytes_bits (be_bytes 1 (blen (arrays c))) ++ (arrays c ≫= array_layout).

(** Every field and length fits the bits it has, and a NAL unit type with a
    name is not spelled as an unknown one. *)
Definition nalu_type_ok (t : NaluType) : Prop :=
  match t with Unknown v => fits 6 v /\ v <> 32 /\ v <> 33 /\ v <> 34 | _ => True end.

Definition array_ok (a : NaluArray) : Prop :=
  nalu_type_ok (nal_unit_type a) /\ blen (nalus a) < 2 ^ 16 /\ Forall (fun n => blen n < 2 ^ 16) (nalus a).

Definition config_ok (c : HEVCDecoderConfigurationRecord) : Prop :=
  fits 8 (configuration_version c) /\ fits 2 (general_profile_space c) /\ fits 5 (general_profile_idc c) /\
  fits 32 (general_profile_compatibility_flags c) /\ fits 48 (general_constraint_indicator_flags c) /\
  fits 8 (general_level_idc c) /\ fits 12 (min_spatial_segmentation_idc c) /\ fits 2 (parallelism_type c) /\
  fits 2 (chroma_format_idc c) /\ fits 3 (bit_depth_luma_minus8 c) /\ fits 3 (bit_depth_chroma_minus8 c) /\
  fits 16 (avg_frame_rate c) /\ fits 2 (constant_frame_rate c) /\ fits 3 (num_temporal_layers c) /\
  fits 2 (length_size_minus_one c) /\ blen (arrays c) < 256 /\ Forall array_ok (arrays c).

Lemma nalu_type_roundtrip t : nalu_type_ok t -> nalu_type_from (u8_from t) = t /\ fits 6 (u8_from t).
Proof.
  destruct t as [| | |v]; simpl; try (split; [done|split; lia]). intros ([H1 H2] & H3 & H4 & H5).
  split; [|done]. unfold nalu_type_from.
  destruct v as [|v|v]; try done. do 6 (destruct v as [v|v|]; try done).
Qed.

Lemma length_nalus ns : Z.of_nat (length (ns ≫= nalu_layout)) = 8 * nalus_size ns.
Proof.
  induction ns as [|n ns IH]; [done|].
  change ((n :: ns) ≫= nalu_layout) with (nalu_layout n ++ (ns ≫= nalu_layout)).
  unfold nalu_layout at 1. rewrite !length_app, !length_bytes_bits, length_be_bytes.
  cbn [nalus_size]. unfold blen. lia.
Qed.

Lemma length_arrays xs : Z.of_nat (length (xs ≫= array_layout)) = 8 * arrays_size xs.
Proof.
  induction xs as [|a xs IH]; [done|].
  change ((a :: xs) ≫= array_layout) with (array_layout a ++ (xs ≫= array_layout)).
  unfold array_layout at 1. rewrite !length_app, !length_val_bits, length_bytes_bits, length_be_bytes.
  pose proof (length_nalus (nalus a)). cbn [arrays_size length]. lia.
Qed.

Lemma hevc_length_layout c : Z.of_nat (length (layout c)) = 8 * size c.
Proof.
  unfold layout, size. rewrite !length_app, !length_val_bits, !length_bytes_bits, !length_be_bytes, !length_le_bytes.
  pose proof (length_arrays (arrays c)). cbn [length]. lia.
Qed.

Section mux_lemmas.
Context {W : Type} `{IoWriteLaws W} `{BO : ByteOrder}.

Lemma write_nalus_writes ns : Forall (fun n => blen n < 2 ^ 16) ns ->
  writes (write_nalus ns) (ns ≫= nalu_layout).
Proof.
  induction ns as [|n ns IH]; intros Hok; [apply writes_ret|].
  apply Forall_cons_1 in Hok as [Hn Hok]. pose proof (blen_nonneg n).
  change ((n :: ns) ≫= nalu_layout) with (nalu_layout n ++ (ns ≫= nalu_layout)).
  unfold nalu_layout at 1. rewrite <-(assoc_L (++)). cbn [write_nalus]. wrapped.
  do 2 wstep. by apply IH.
Qed.

Lemma write_arrays_writes xs : Forall array_ok xs -> writes (write_arrays xs) (xs ≫= array_layout).
Proof.
  induction xs as [|a xs IH]; intros Hok; [apply writes_ret|].
  apply Forall_cons_1 in Hok as [(Ht & Hl & Hn) Hok]. pose proof (blen_nonneg (nalus a)).
  destruct (nalu_type_roundtrip _ Ht) as [_ Hf].
  change ((a :: xs) ≫= array_layout) with (array_layout a ++ (xs ≫= array_layout)).
  unfold array_layout at 1. rewrite <-!(assoc_L (++)). cbn [write_arrays]. wrapped.
  do 4 wstep. apply writes_seq; [by apply write_nalus_writes|]. by apply IH.
Qed.

Lemma hevc_mux_bits_writes c : config_ok c -> writes (mux_bits c) (layout c).
Proof.
  intros Hok. unfold config_ok in Hok. destruct_and! Hok. pose proof (blen_nonneg (arrays c)).
  unfold mux_bits, layout. wrapped. do 23 wstep. by apply write_arrays_writes.
Qed.
End mux_lemmas.

Section demux_lemmas.
Context `{BO : ByteOrder}.

Lemma read_nalus_reads ns : Forall (fun n => blen n < 2 ^ 16) ns ->
  reads (read_nalus (length ns)) (ns ≫= nalu_layout) ns.
Proof.
  induction ns as [|n ns IH]; intros Hok; [apply reads_ret|].
  apply Forall_cons_1 in Hok as [Hn Hok]. pose proof (blen_nonneg n).
  change ((n :: ns) ≫= nalu_layout) with (nalu_layout n ++ (ns ≫= nalu_layout)).
  unfold nalu_layout at 1. rewrite <-(assoc_L (++)). cbn [read_nalus length]. rstep.
  eapply reads_bind; [apply reads_read_exact; unfold blen; lia|].
  eapply reads_last; [by apply IH|]. apply reads_ret.
Qed.

Lemma read_arrays_reads xs : Forall array_ok xs ->
  reads (read_arrays (length xs)) (xs ≫= array_layout) xs.
Proof.
  induction xs as [|a xs IH]; intros Hok; [apply reads_ret|].
  apply Forall_cons_1 in Hok as [(Ht & Hl & Hn) Hok]. pose proof (blen_nonneg (nalus a)).
  destruct (nalu_type_roundtrip _ Ht) as [Hrt Hf].
  change ((a :: xs) ≫= array_layout) with (array_layout a ++ (xs ≫= array_layout)).
  unfold array_layout at 1. rewrite <-!(assoc_L (++)). cbn [read_arrays length].
  do 4 rstep. rewrite Hrt. unfold blen at 1. rewrite Nat2Z.id.
  eapply reads_bind; [by apply read_nalus_reads|].
  eapply reads_last; [by apply IH|]. destruct a. apply reads_ret.
Qed.

Lemma hevc_demux_bits_reads c : config_ok c -> reads demux_bits (layout c) c.
Proof.
  intros Hok. unfold config_ok in Hok. destruct_and! Hok. pose proof (blen_nonneg (arrays c)).
  unfold demux_bits, layout. do 23 rstep. unfold blen at 1. rewrite Nat2Z.id.
  eapply reads_last; [by apply read_arrays_reads|]. destruct c. apply reads_ret.
Qed.
End demux_lemmas.

(** ** Properties *)

(** The HEVC decoder configuration record round trips: for every record
    whose fields fit their bits, [mux] writes exactly [size()] bytes, and
    [demux] reads the same record back, little-endian profile flags, reserved
    bits and all parameter-set arrays included, and leaves the cursor right
    after it, whatever follows. *)
Theorem hevc_config_roundtrip {W} `{IoWriteLaws W, ByteOrder} (c : HEVCDecoderConfigurationRecord)
    (w : W) (pre post : list byte) (Hok : config_ok c) (Hlen : blen pre + size c + blen post < 2 ^ 58) :
  exists w' bs, mux c w = (Ok tt, w') /\ written w' = written w ++ bs /\ blen bs = size c /\
    demux (at_pos pre (bs ++ post)) = (Ok c, at_pos (pre ++ bs) post).
Proof.
  pose proof (hevc_length_layout c) as Hl.
  destruct (bits_bytes (Z.to_nat (size c)) (layout c)) as (bs & Hbs & Hn); [lia|].
  assert (blen bs = size c) as Hb by (unfold blen; lia).
  pose proof (hevc_mux_bits_writes (W := W) c Hok) as Hm. rewrite <-Hbs in Hm.
  destruct (with_bit_writer_finish (mux_bits c) bs w Hm) as (w' & Hw & Hwr).
  exists w', bs. split; [unfold mux; by mstep Hw|]. split; [done|]. split; [done|].
  pose proof (hevc_demux_bits_reads c Hok) as Hr. rewrite <-Hbs in Hr.
  apply (with_bit_reader_at _ _ bs _ pre post Hr I). rewrite !blen_app. lia.
Qed.

Lemma hevc_config_roundtrip_witness :
  let c := mkConfig 1 0 false 1 64 144 123 0 0 1 0 0 0 0 1 false 3
             [mkArray true Vps [[x40; x01]]; mkArray false (Unknown 39) []; mkArray true Sps [[x42]; []]] in
  exists w' bs, mux c (@nil byte) = (Ok tt, w') /\ written w' = written (@nil byte) ++ bs
    /\ blen bs = size c /\
    demux (at_pos [x00] (bs ++ [xff])) = (Ok c, at_pos ([x00] ++ bs) [xff]).
Proof.
  intros c. apply (hevc_config_roundtrip c (@nil byte) [x00] [xff]).
  - unfold config_ok. repeat split; repeat constructor; vm_compute; congruence.
  - vm_compute. reflexivity.
Defined.

End HevcConfig.
