(* ===== verification/Flv.v ===== *)
(** * [scuffle-flv] (crates/flv/src)

    The FLV demuxer: file, header, tags, audio, video (legacy and enhanced)
    and script data, over the AMF0 decoder and the AVC, HEVC and AV1
    configuration records. A [nutype_enum!] is a transparent wrapper, so each
    is the wrapped integer with its named constants. *)

From Stdlib Require Import Strings.String.
From stdpp Require Import base list numbers.
From Stdlib Require Import Strings.Byte.
From S2P Require Import Prelude Io BitRead BytesCursor Amf0 RtmpMessages BitIo Av1 H264 H265.

(** ** [nutype_enum!] types *)

Module SoundFormat.
Definition LinearPcmPlatformEndian : Z := 0.
Definition Adpcm : Z := 1.
Definition Mp3 : Z := 2.
Definition LinearPcmLittleEndian : Z := 3.
Definition Nellymoser16KhzMono : Z := 4.
Definition Nellymoser8KhzMono : Z := 5.
Definition Nellymoser : Z := 6.
Definition G711ALaw : Z := 7.
Definition G711MuLaw : Z := 8.
Definition Aac : Z := 10.
Definition Speex : Z := 11.
Definition Mp38Khz : Z := 14.
Definition DeviceSpecificSound : Z := 15.
End SoundFormat.

Module AacPacketType.
Definition SequenceHeader : Z := 0.
Definition Raw : Z := 1.
End AacPacketType.

Module AvcPacketType.
Definition SeqHdr : Z := 0.
Definition Nalu : Z := 1.
Definition EndOfSequence : Z := 2.
End AvcPacketType.

Module FrameType.
Definition Keyframe : Z := 1.
Definition Interframe : Z := 2.
Definition DisposableInterframe : Z := 3.
Definition GeneratedKeyframe : Z := 4.
Definition VideoInfoOrCommandFrame : Z := 5.
End FrameType.

Module VideoCodecId.
Definition SorensonH263 : Z := 2.
Definition ScreenVideo : Z := 3.
Definition On2VP6 : Z := 4.
Definition On2VP6WithAlphaChannel : Z := 5.
Definition ScreenVideoVersion2 : Z := 6.
Definition Avc : Z := 7.
End VideoCodecId.

Module EnhancedPacketType.
Definition SequenceStart : Z := 0.
Definition CodedFrames : Z := 1.
Definition SequenceEnd : Z := 2.
Definition CodedFramesX : Z := 3.
Definition Metadata : Z := 4.
Definition Mpeg2SequenceStart : Z := 5.
End EnhancedPacketType.

Module VideoFourCC.
Definition Av1 : list byte := str "av01".
Definition Vp9 : list byte := str "vp09".
Definition Hevc : list byte := str "hvc1".
End VideoFourCC.

Module FlvTagType.
Definition Audio : Z := 8.
Definition Video : Z := 9.
Definition ScriptData : Z := 18.
End FlvTagType.

Module Flv.
Import BitIo TotalParse.

(** ** Data *)

(** aac.rs *)
Inductive AacPacket :=
| AacSequenceHeader (data : list byte)
| AacRaw (data : list byte)
| AacUnknown (aac_packet_type : Z) (data : list byte).

(** audio.rs *)
Inductive AudioDataBody :=
| AudioAac (packet : AacPacket)
| AudioUnknown (sound_format : Z) (data : list byte).

Record AudioData := mkAudio {
  sound_rate : Z;
  sound_size : Z;
  sound_type : Z;
  audio_body : AudioDataBody;
}.

(** avc.rs *)
Inductive AvcPacket :=
| AvcNalu (composition_time : Z) (data : list byte)
| AvcSequenceHeader (record : AvcConfig.AVCDecoderConfigurationRecord)
| AvcEndOfSequence
| AvcUnknown (avc_packet_type composition_time : Z) (data : list byte).

(** av1.rs *)
Inductive Av1Packet :=
| Av1SequenceStart (record : Av1Config.AV1CodecConfigurationRecord)
| Av1Raw (data : list byte).

(** hevc.rs *)
Inductive HevcPacket :=
| HevcSequenceStart (record : HevcConfig.HEVCDecoderConfigurationRecord)
| HevcNalu (composition_time : option Z) (data : list byte).

(** video.rs *)
Inductive EnhancedPacket :=
| EMetadata (video_codec data : list byte)
| ESequenceEnd (video_codec : list byte)
| EAv1 (packet : Av1Packet)
| EHevc (packet : HevcPacket)
| EUnknown (packet_type : Z) (video_codec data : list byte).

Inductive VideoTagBody :=
| VideoAvc (packet : AvcPacket)
| VideoEnhanced (packet : EnhancedPacket)
| VideoCommand (command : Z)
| VideoUnknown (codec_id : Z) (data : list byte).

Record VideoTagHeader := mkVideo { frame_type : Z; video_body : VideoTagBody }.

Inductive VideoPacketType :=
| CodecId (codec_id : Z)
| Enhanced (packet_type : Z).

(** script.rs *)
Record ScriptData := mkScript { script_name : list byte; script_data : list Amf0Value.t }.

(** tag.rs *)
Inductive FlvTagData :=
| TagAudio (data : AudioData)
| TagVideo (data : VideoTagHeader)
| TagScriptData (data : ScriptData)
| TagUnknown (tag_type : Z) (data : list byte).

Record FlvTag := mkTag { timestamp_ms : Z; stream_id : Z; tag_data : FlvTagData }.

(** header.rs and file.rs *)
Record FlvHeader := mkHeader {
  version : Z;
  has_audio : bool;
  has_video : bool;
  extra : list byte;
}.

Record FlvFile := mkFile { file_header : FlvHeader; tags : list FlvTag }.

(** ** Operations *)

(** [AacPacket::new] *)
Definition AacPacket_new (aac_packet_type : Z) (data : list byte) : AacPacket :=
  if aac_packet_type =? AacPacketType.Raw then AacRaw data
  else if aac_packet_type =? AacPacketType.SequenceHeader then AacSequenceHeader data
  else AacUnknown aac_packet_type data.

(** [VideoPacketType::new] *)
Definition VideoPacketType_new (b : Z) (enhanced : bool) : VideoPacketType :=
  if enhanced then Enhanced b else CodecId b.

Section demux.
Context `{BO : ByteOrder}.

Abbreviation D := (M Cursor ErrorKind).

Definition AudioDataBody_demux (sound_format : Z) : D AudioDataBody :=
  if sound_format =? SoundFormat.Aac
  then
    let* aac_packet_type := read_u8 in
    let* data := BytesCursorExt.extract_remaining in
    ret (AudioAac (AacPacket_new aac_packet_type data))
  else
    let* data := BytesCursorExt.extract_remaining in
    ret (AudioUnknown sound_format data).

Definition AudioData_demux : D AudioData :=
  let* byte := read_u8 in
  let sound_format := Z.shiftr byte 4 in
  let sound_rate := Z.land (Z.shiftr byte 2) 3 in
  let sound_size := Z.land (Z.shiftr byte 1) 1 in
  let sound_type := Z.land byte 1 in
  let* body := AudioDataBody_demux sound_format in
  ret (mkAudio sound_rate sound_size sound_type body).

Definition AvcPacket_demux : D AvcPacket :=
  let* avc_packet_type := read_u8 in
  let* composition_time := read_u24 in
  if avc_packet_type =? AvcPacketType.SeqHdr
  then let* record := AvcConfig.demux in ret (AvcSequenceHeader record)
  else if avc_packet_type =? AvcPacketType.Nalu
  then let* data := BytesCursorExt.extract_remaining in ret (AvcNalu composition_time data)
  else if avc_packet_type =? AvcPacketType.EndOfSequence then ret AvcEndOfSequence
  else
    let* data := BytesCursorExt.extract_remaining in
    ret (AvcUnknown avc_packet_type composition_time data).

(** [read_i24]: the 24 bits, sign extended. *)
Definition read_i24 : D Z := let* v := read_u24 in ret (swrap 24 v).

(** The second [match] of the enhanced branch of [VideoTagBody::demux]. *)
Definition enhanced_demux (video_codec : list byte) (packet_type : Z) : D EnhancedPacket :=
  if decide (video_codec = VideoFourCC.Av1 /\ packet_type = EnhancedPacketType.SequenceStart)
  then let* record := Av1Config.demux in ret (EAv1 (Av1SequenceStart record))
  else if decide (video_codec = VideoFourCC.Av1 /\ packet_type = EnhancedPacketType.Mpeg2SequenceStart)
  then
    let* descriptor := Av1Config.descriptor_demux in
    ret (EAv1 (Av1SequenceStart (Av1Config.codec_configuration_record descriptor)))
  else if decide (video_codec = VideoFourCC.Av1 /\ packet_type = EnhancedPacketType.CodedFrames)
  then let* data := BytesCursorExt.extract_remaining in ret (EAv1 (Av1Raw data))
  else if decide (video_codec = VideoFourCC.Hevc /\ packet_type = EnhancedPacketType.SequenceStart)
  then let* record := HevcConfig.demux in ret (EHevc (HevcSequenceStart record))
  else if decide (video_codec = VideoFourCC.Hevc /\ packet_type = EnhancedPacketType.CodedFrames)
  then
    let* composition_time := read_i24 in
    let* data := BytesCursorExt.extract_remaining in
    ret (EHevc (HevcNalu (Some composition_time) data))
  else if decide (video_codec = VideoFourCC.Hevc /\ packet_type = EnhancedPacketType.CodedFramesX)
  then let* data := BytesCursorExt.extract_remaining in ret (EHevc (HevcNalu None data))
  else
    let* data := BytesCursorExt.extract_remaining in
    ret (EUnknown packet_type video_codec data).

Definition VideoTagBody_demux (packet_type : VideoPacketType) : D VideoTagBody :=
  match packet_type with
  | CodecId codec_id =>
      if codec_id =? VideoCodecId.Avc
      then let* packet := AvcPacket_demux in ret (VideoAvc packet)
      else let* data := BytesCursorExt.extract_remaining in ret (VideoUnknown codec_id data)
  | Enhanced packet_type =>
      let* video_codec := read_exact 4 in
      if packet_type =? EnhancedPacketType.SequenceEnd
      then ret (VideoEnhanced (ESequenceEnd video_codec))
      else if packet_type =? EnhancedPacketType.Metadata
      then
        let* data := BytesCursorExt.extract_remaining in
        ret (VideoEnhanced (EMetadata video_codec data))
      else
        let* packet := enhanced_demux video_codec packet_type in
        ret (VideoEnhanced packet)
  end.

Definition VideoTagHeader_demux : D VideoTagHeader :=
  let* byte := read_u8 in
  let enhanced := negb (Z.land byte 128 =? 0) in
  let frame_type := Z.land (Z.shiftr byte 4) 7 in
  let packet_type_byte := Z.land byte 15 in
  let* body :=
    if frame_type =? FrameType.VideoInfoOrCommandFrame
    then let* command := read_u8 in ret (VideoCommand command)
    else VideoTagBody_demux (VideoPacketType_new packet_type_byte enhanced) in
  ret (mkVideo frame_type body).

(** The AMF0 reader runs over the bytes extracted from the tag. *)
Definition script_values (buf : list byte) : res ErrorKind ScriptData :=
  match Amf0Decoder.decode_with_type Amf0Marker.String (Amf0Decoder.new buf) with
  | (Ok (Amf0Value.String name), c) =>
      match Amf0Decoder.decode_all c with
      | (Ok data, _) => Ok (mkScript name data)
      | (Err _, _) => Err InvalidData
      | (Panic, _) => Panic
      | (Fuel, _) => Fuel
      end
  | (Ok _, _) => Err InvalidData
  | (Err _, _) => Err InvalidData
  | (Panic, _) => Panic
  | (Fuel, _) => Fuel
  end.

Definition ScriptData_demux : D ScriptData :=
  let* buf := BytesCursorExt.extract_remaining in lift (script_values buf).

Definition FlvTagData_demux (tag_type : Z) : D FlvTagData :=
  if tag_type =? FlvTagType.Audio
  then let* data := AudioData_demux in ret (TagAudio data)
  else if tag_type =? FlvTagType.Video
  then let* data := VideoTagHeader_demux in ret (TagVideo data)
  else if tag_type =? FlvTagType.ScriptData
  then let* data := ScriptData_demux in ret (TagScriptData data)
  else let* data := BytesCursorExt.extract_remaining in ret (TagUnknown tag_type data).

Definition FlvTag_demux : D FlvTag :=
  let* tag_type := read_u8 in
  let* data_size := read_u24 in
  let* low := read_u24 in
  let* high := read_u8 in
  let timestamp_ms := Z.lor low (Z.shiftl high 24) in
  let* stream_id := read_u24 in
  let* data := BytesCursorExt.extract_bytes data_size in
  let* data := lift (fst (FlvTagData_demux tag_type (cursor_new data))) in
  ret (mkTag timestamp_ms stream_id data).

Definition FlvHeader_demux : D FlvHeader :=
  let* start := get in
  let* signature := read_u24 in
  if negb (signature =? be_val (x00 :: str "FLV")) then throw InvalidData
  else
    let* version := read_u8 in
    let* flags := read_u8 in
    let has_audio := negb (Z.land flags 4 =? 0) in
    let has_video := negb (Z.land flags 1 =? 0) in
    let* offset := read_u32 in
    let* end_ := get in
    let* size := checked_u 64 (Z.of_N (pos end_) - Z.of_N (pos start)) in
    if offset <? size then throw InvalidData
    else
      let* extra := BytesCursorExt.extract_bytes (offset - size) in
      ret (mkHeader version has_audio has_video extra).

(** [while reader.has_remaining()]: every turn consumes the four bytes of the
    previous tag size, so the bytes left, plus one, bound the turns. *)
Fixpoint tags_loop (fuel : nat) : D (list FlvTag) :=
  match fuel with
  | O => out_of_fuel
  | S fuel =>
      let* more := AvcConfig.has_remaining in
      if more
      then
        read_u32 ;;;
        let* more := AvcConfig.has_remaining in
        if more
        then
          let* tag := FlvTag_demux in
          let* rest := tags_loop fuel in
          ret (tag :: rest)
        else ret []
      else ret []
  end.

Definition FlvFile_demux : D FlvFile :=
  let* header := FlvHeader_demux in
  let* c := get in
  let* tags := tags_loop (S (length (cursor_rest c))) in
  ret (mkFile header tags).
End demux.

(** ** Layout of an FLV file *)

Definition aac_bytes (p : AacPacket) : list byte :=
  match p with
  | AacSequenceHeader d => be_bytes 1 0 ++ d
  | AacRaw d => be_bytes 1 1 ++ d
  | AacUnknown t d => be_bytes 1 t ++ d
  end.

Definition audio_format (b : AudioDataBody) : Z :=
  match b with AudioAac _ => 10 | AudioUnknown f _ => f end.

Definition audio_bytes (a : AudioData) : list byte :=
  be_bytes 1 (audio_format (audio_body a) * 16 + sound_rate a * 4 + sound_size a * 2 + sound_type a) ++
  match audio_body a with AudioAac p => aac_bytes p | AudioUnknown _ d => d end.

Definition audio_ok (a : AudioData) : Prop :=
  fits 2 (sound_rate a) /\ fits 1 (sound_size a) /\ fits 1 (sound_type a) /\
  match audio_body a with
  | AudioAac (AacUnknown t _) => fits 8 t /\ t <> 0 /\ t <> 1
  | AudioAac _ => True
  | AudioUnknown f _ => fits 4 f /\ f <> 10
  end.

Inductive avc_layout : AvcPacket -> list byte -> Prop :=
| AL_nalu ct d : fits 24 ct -> avc_layout (AvcNalu ct d) (be_bytes 1 1 ++ be_bytes 3 ct ++ d)
| AL_header ct c : fits 24 ct -> AvcConfig.config_ok c ->
    avc_layout (AvcSequenceHeader c) (be_bytes 1 0 ++ be_bytes 3 ct ++ AvcConfig.layout c)
| AL_end ct : fits 24 ct -> avc_layout AvcEndOfSequence (be_bytes 1 2 ++ be_bytes 3 ct)
| AL_unknown t ct d : fits 24 ct -> fits 8 t -> 2 < t ->
    avc_layout (AvcUnknown t ct d) (be_bytes 1 t ++ be_bytes 3 ct ++ d).

(** The pairs of codec and packet type that have a parser. *)
Definition known (codec : list byte) (pt : Z) : Prop :=
  (codec = VideoFourCC.Av1 /\ (pt = 0 \/ pt = 5 \/ pt = 1)) \/
  (codec = VideoFourCC.Hevc /\ (pt = 0 \/ pt = 1 \/ pt = 3)).

(** What follows the four-character code. *)
Inductive enhanced_layout : Z -> list byte -> EnhancedPacket -> list byte -> Prop :=
| EL_end codec : enhanced_layout 2 codec (ESequenceEnd codec) []
| EL_metadata codec d : enhanced_layout 4 codec (EMetadata codec d) d
| EL_av1_start c hd : Av1Config.config_ok c ->
    bytes_bits hd = Av1Config.layout (Av1Config.hdr_wcg_idc c) c ->
    enhanced_layout 0 VideoFourCC.Av1 (EAv1 (Av1SequenceStart c)) (hd ++ Av1Config.config_obu c)
| EL_av1_mpeg2 c hd : Av1Config.config_ok c ->
    bytes_bits hd = Av1Config.layout (Av1Config.hdr_wcg_idc c) c ->
    enhanced_layout 5 VideoFourCC.Av1 (EAv1 (Av1SequenceStart c))
      (x80 :: x04 :: hd ++ Av1Config.config_obu c)
| EL_av1_frames d : enhanced_layout 1 VideoFourCC.Av1 (EAv1 (Av1Raw d)) d
| EL_hevc_start c bs : HevcConfig.config_ok c -> bytes_bits bs = HevcConfig.layout c ->
    enhanced_layout 0 VideoFourCC.Hevc (EHevc (HevcSequenceStart c)) bs
| EL_hevc_frames ct d : - 2 ^ 23 <= ct < 2 ^ 23 ->
    enhanced_layout 1 VideoFourCC.Hevc (EHevc (HevcNalu (Some ct) d)) (be_bytes 3 (wrap 24 ct) ++ d)
| EL_hevc_frames_x d : enhanced_layout 3 VideoFourCC.Hevc (EHevc (HevcNalu None d)) d
| EL_unknown pt codec d : pt <> 2 -> pt <> 4 -> ~ known codec pt ->
    enhanced_layout pt codec (EUnknown pt codec d) d.

(** The first byte: the enhanced flag, the frame type, the codec or packet
    type. *)
Definition video_byte (enhanced : bool) (ft low : Z) : list byte :=
  be_bytes 1 (Z.b2z enhanced * 128 + ft * 16 + low).

Inductive video_layout : VideoTagHeader -> list byte -> Prop :=
| VL_command enhanced low command : fits 4 low -> fits 8 command ->
    video_layout (mkVideo 5 (VideoCommand command)) (video_byte enhanced 5 low ++ be_bytes 1 command)
| VL_avc ft p bs : fits 3 ft -> ft <> 5 -> avc_layout p bs ->
    video_layout (mkVideo ft (VideoAvc p)) (video_byte false ft 7 ++ bs)
| VL_unknown ft codec d : fits 3 ft -> ft <> 5 -> fits 4 codec -> codec <> 7 ->
    video_layout (mkVideo ft (VideoUnknown codec d)) (video_byte false ft codec ++ d)
| VL_enhanced ft pt codec p bs : fits 3 ft -> ft <> 5 -> fits 4 pt -> length codec = 4%nat ->
    enhanced_layout pt codec p bs ->
    video_layout (mkVideo ft (VideoEnhanced p)) (video_byte true ft pt ++ codec ++ bs).

Definition script_bytes (d : ScriptData) : list byte :=
  value_bytes (Amf0Value.String (script_name d)) ++ (script_data d ≫= value_bytes).

Definition script_ok (d : ScriptData) : Prop :=
  str_ok (2 ^ 16) (script_name d) /\ Forall encodable (script_data d).

(** A tag type, the data it carries and the bytes of that data. *)
Inductive data_layout : Z -> FlvTagData -> list byte -> Prop :=
| DL_audio a : audio_ok a -> data_layout 8 (TagAudio a) (audio_bytes a)
| DL_video v bs : video_layout v bs -> data_layout 9 (TagVideo v) bs
| DL_script d : script_ok d -> data_layout 18 (TagScriptData d) (script_bytes d)
| DL_unknown t d : fits 8 t -> t <> 8 -> t <> 9 -> t <> 18 -> data_layout t (TagUnknown t d) d.

(** A tag with the previous tag size in front of it, which the demuxer does
    not look at. *)
Inductive tag_layout : FlvTag -> list byte -> Prop :=
| TL prev tag t bs : fits 32 prev -> fits 32 (timestamp_ms tag) -> fits 24 (stream_id tag) ->
    blen bs < 2 ^ 24 -> data_layout t (tag_data tag) bs ->
    tag_layout tag
      (be_bytes 4 prev ++ be_bytes 1 t ++ be_bytes 3 (blen bs) ++
       be_bytes 3 (timestamp_ms tag `mod` 2 ^ 24) ++ be_bytes 1 (timestamp_ms tag / 2 ^ 24) ++
       be_bytes 3 (stream_id tag) ++ bs).

Definition header_bytes (h : FlvHeader) : list byte :=
  str "FLV" ++ be_bytes 1 (version h) ++
  be_bytes 1 (Z.b2z (has_audio h) * 4 + Z.b2z (has_video h)) ++
  be_bytes 4 (9 + blen (extra h)) ++ extra h.

(** The tags, and the size of the last one, which may be cut off. *)
Inductive file_layout : FlvFile -> list byte -> Prop :=
| FL h ts bss trailer : fits 8 (version h) -> blen (extra h) < 2 ^ 31 -> Forall2 tag_layout ts bss ->
    (trailer = [] \/ length trailer = 4%nat) ->
    file_layout (mkFile h ts) (header_bytes h ++ mjoin bss ++ trailer).

(** ** The demuxer follows the layout *)

(** [m] reads the whole rest of the buffer. *)
Definition consumes {A} (m : M Cursor ErrorKind A) (bs : list byte) (a : A) : Prop :=
  forall pre, blen pre + blen bs < 2 ^ 50 -> m (at_pos pre bs) = (Ok a, at_pos (pre ++ bs) []).

Lemma consumes_ret {A} (a : A) : consumes (ret a) [] a.
Proof. intros pre _. by rewrite app_nil_r. Qed.

Lemma consumes_bind {A B} (m : M Cursor ErrorKind A) (k : A -> M Cursor ErrorKind B) xs ys a b :
  takes_on (fun _ => True) m xs a -> consumes (k a) ys b -> consumes (bind m k) (xs ++ ys) b.
Proof.
  intros Hm Hk pre Hl. rewrite blen_app in Hl. erewrite bind_ok; [|by apply Hm].
  rewrite Hk by (rewrite blen_app; lia). by rewrite (assoc_L (++)).
Qed.

Lemma consumes_map {A B} (f : A -> B) (m : M Cursor ErrorKind A) bs a :
  consumes m bs a -> consumes (let* x := m in ret (f x)) bs (f a).
Proof. intros Hm pre Hl. by erewrite bind_ok; [|by apply Hm]. Qed.

Lemma consumes_map_eq {A B} (f : A -> B) (m : M Cursor ErrorKind A) bs a b :
  consumes m bs a -> f a = b -> consumes (let* x := m in ret (f x)) bs b.
Proof. intros Hm <-. by apply consumes_map. Qed.

Lemma consumes_rest bs : consumes BytesCursorExt.extract_remaining bs bs.
Proof. intros pre _. apply BytesCursorExt.extract_remaining_at. Qed.

Lemma consumes_takes {A} (P : list byte -> Prop) (m : M Cursor ErrorKind A) bs a :
  takes_on P m bs a -> P [] -> consumes m bs a.
Proof. intros Hm HP pre _. rewrite <-(app_nil_r bs) at 1. by apply Hm. Qed.

Ltac cstep := eapply consumes_bind; [apply takes_uint; fits_tac|]; cbv beta zeta.

(** A fact about all byte values, by evaluation. *)
Lemma all_bytes (P : Z -> bool) :
  forallb P (Z.of_nat <$> seq 0 256) = true -> forall b, 0 <= b < 256 -> P b = true.
Proof.
  intros HP b Hb. rewrite forallb_forall in HP. apply HP. apply list_elem_of_In, list_elem_of_fmap.
  exists (Z.to_nat b). split; [lia|]. apply elem_of_seq. lia.
Qed.

Lemma audio_fields f r s t : fits 4 f -> fits 2 r -> fits 1 s -> fits 1 t ->
  let b := f * 16 + r * 4 + s * 2 + t in
  Z.shiftr b 4 = f /\ Z.land (Z.shiftr b 2) 3 = r /\ Z.land (Z.shiftr b 1) 1 = s /\ Z.land b 1 = t.
Proof.
  intros Hf Hr Hs Ht b. unfold fits in *. unfold b.
  rewrite !Z.shiftr_div_pow2 by lia. change 3 with (Z.ones 2). change (Z.land ?x 1) with (Z.land x (Z.ones 1)).
  rewrite !Z.land_ones by lia. change (2 ^ 4) with 16. change (2 ^ 2) with 4. change (2 ^ 1) with 2.
  Z.to_euclidean_division_equations. lia.
Qed.

Lemma video_fields (e : bool) ft low : fits 3 ft -> fits 4 low ->
  let b := Z.b2z e * 128 + ft * 16 + low in
  negb (Z.land b 128 =? 0) = e /\ Z.land (Z.shiftr b 4) 7 = ft /\ Z.land b 15 = low.
Proof.
  intros Hf Hl b. unfold fits in *.
  assert (0 <= b < 256) as Hb by (unfold b; destruct e; simpl; lia).
  pose proof (all_bytes (fun b => Bool.eqb (negb (Z.land b 128 =? 0)) (128 <=? b)
    && (Z.land (Z.shiftr b 4) 7 =? (b / 16) `mod` 8) && (Z.land b 15 =? b `mod` 16)) eq_refl b Hb) as H.
  apply andb_prop in H as [H H3]. apply andb_prop in H as [H1 H2].
  apply eqb_prop in H1. apply Z.eqb_eq in H2, H3. rewrite H1, H2, H3. unfold b.
  split; [|destruct e; simpl; Z.to_euclidean_division_equations; lia].
  destruct e; simpl; [apply Z.leb_le|apply Z.leb_gt]; lia.
Qed.

Section demux_lemmas.
Context `{BO : ByteOrder}.

Lemma audio_consumes a : audio_ok a -> consumes AudioData_demux (audio_bytes a) a.
Proof.
  intros (H1 & H2 & H3 & H4). destruct a as [r sz t body]. simpl in *.
  assert (fits 4 (audio_format body)) as Hf by (destruct body as [[]|]; simpl in *; first [done|apply H4]).
  destruct (audio_fields _ r sz t Hf H1 H2 H3) as (E1 & E2 & E3 & E4).
  unfold AudioData_demux, audio_bytes. cbn [audio_body sound_rate sound_size sound_type]. cstep. rewrite E1, E2, E3, E4. apply consumes_map.
  unfold AudioDataBody_demux, SoundFormat.Aac. destruct body as [p|f d]; cbn [audio_format].
  - rewrite Z.eqb_refl. destruct p as [d|d|u d]; cbn [aac_bytes]; cstep;
      (eapply consumes_map_eq; [apply consumes_rest|]); try done.
    destruct H4 as (Hu & Hu0 & Hu1). unfold AacPacket_new, AacPacketType.Raw, AacPacketType.SequenceHeader.
    by rewrite (proj2 (Z.eqb_neq u 1)), (proj2 (Z.eqb_neq u 0)).
  - rewrite (proj2 (Z.eqb_neq f 10)) by apply H4. apply consumes_map, consumes_rest.
Qed.

Lemma avc_consumes p bs : avc_layout p bs -> consumes AvcPacket_demux bs p.
Proof.
  unfold AvcPacket_demux, AvcPacketType.SeqHdr, AvcPacketType.Nalu, AvcPacketType.EndOfSequence.
  destruct 1 as [ct d Hct|ct c Hct Hc|ct Hct|t ct d Hct Ht Ht2].
  - do 2 cstep. apply consumes_map, consumes_rest.
  - do 2 cstep. apply consumes_map. eapply consumes_takes; [by apply AvcConfig.demux_takes|by right].
  - rewrite <-(app_nil_r (be_bytes 3 ct)). do 2 cstep. apply consumes_ret.
  - do 2 cstep.
    rewrite (proj2 (Z.eqb_neq t 0)), (proj2 (Z.eqb_neq t 1)), (proj2 (Z.eqb_neq t 2)) by lia.
    apply consumes_map, consumes_rest.
Qed.

Lemma swrap_wrap24 ct : - 2 ^ 23 <= ct < 2 ^ 23 -> swrap 24 (wrap 24 ct) = ct.
Proof.
  intros Hct. unfold swrap, wrap. rewrite Z.mod_mod by done.
  destruct (Z.ltb_spec (ct `mod` 2 ^ 24) (2 ^ (24 - 1))) as [Hl|Hl];
    Z.to_euclidean_division_equations; lia.
Qed.

Lemma set_hdr_self c : Av1Config.set_hdr_wcg_idc (Av1Config.hdr_wcg_idc c) c = c.
Proof. by destruct c. Qed.

Lemma av1_consumes c hd : Av1Config.config_ok c ->
  bytes_bits hd = Av1Config.layout (Av1Config.hdr_wcg_idc c) c ->
  consumes Av1Config.demux (hd ++ Av1Config.config_obu c) c.
Proof.
  intros Hok Hhd pre Hl. rewrite (Av1Config.demux_layout (Av1Config.hdr_wcg_idc c)).
  - by rewrite set_hdr_self.
  - done.
  - apply Hok.
  - done.
  - rewrite blen_app. lia.
Qed.

Lemma descriptor_consumes c hd : Av1Config.config_ok c ->
  bytes_bits hd = Av1Config.layout (Av1Config.hdr_wcg_idc c) c ->
  consumes Av1Config.descriptor_demux (x80 :: x04 :: hd ++ Av1Config.config_obu c)
    (Av1Config.mkDescriptor 0x80 4 c).
Proof.
  intros Hok Hhd pre Hl. apply Av1Config.descriptor_demux_at.
  apply (av1_consumes c hd Hok Hhd). rewrite !blen_cons in Hl. rewrite blen_app.
  change (blen [x80; x04]) with 2. lia.
Qed.

Lemma hevc_consumes c bs : HevcConfig.config_ok c -> bytes_bits bs = HevcConfig.layout c ->
  consumes HevcConfig.demux bs c.
Proof.
  intros Hok Hbs pre Hl. pose proof (HevcConfig.hevc_demux_bits_reads c Hok) as Hr. rewrite <-Hbs in Hr.
  rewrite <-(app_nil_r bs) at 1.
  apply (with_bit_reader_at _ _ bs _ pre [] Hr I). rewrite !blen_app, blen_nil. lia.
Qed.

(** The four-character codes are different. *)
Lemma fourcc_distinct : VideoFourCC.Hevc <> VideoFourCC.Av1.
Proof. done. Qed.

Ltac undecide := repeat first [ rewrite decide_True by done | rewrite decide_False by (intros [? ?]; done) ].

Lemma enhanced_consumes pt codec p bs : pt <> 2 -> pt <> 4 -> enhanced_layout pt codec p bs ->
  consumes (enhanced_demux codec pt) bs p.
Proof.
  intros H2 H4 Hl. unfold enhanced_demux. destruct Hl; try done.
  - undecide. eapply consumes_map_eq; [by apply av1_consumes|done].
  - undecide. eapply consumes_map_eq; [by apply descriptor_consumes|done].
  - undecide. eapply consumes_map_eq; [apply consumes_rest|done].
  - undecide. eapply consumes_map_eq; [by apply hevc_consumes|done].
  - undecide. eapply consumes_bind.
    { eapply takes_last; [apply takes_uint; apply Z.mod_pos_bound; lia|].
      rewrite swrap_wrap24 by done. apply takes_ret. }
    eapply consumes_map_eq; [apply consumes_rest|done].
  - undecide. eapply consumes_map_eq; [apply consumes_rest|done].
  - unfold known, EnhancedPacketType.SequenceStart, EnhancedPacketType.Mpeg2SequenceStart,
      EnhancedPacketType.CodedFrames, EnhancedPacketType.CodedFramesX in *.
    rewrite !decide_False by (intros [-> ->]; tauto). apply consumes_map, consumes_rest.
Qed.

Lemma takes_read_exact P bs n : length bs = n -> takes_on P (read_exact (T := Cursor) n) bs bs.
Proof. intros Hl pre post _. by apply read_exact_at. Qed.

Lemma video_consumes v bs : video_layout v bs -> consumes VideoTagHeader_demux bs v.
Proof.
  unfold VideoTagHeader_demux, video_byte, FrameType.VideoInfoOrCommandFrame.
  destruct 1 as [e low command Hlow Hcmd|ft p bs Hft H5 Hp|ft codec d Hft H5 Hc H7|ft pt codec p bs Hft H5 Hpt Hc Hp].
  - destruct (video_fields e 5 low ltac:(fits_tac) Hlow) as (E1 & E2 & E3).
    eapply consumes_bind; [apply takes_uint; destruct e; simpl; fits_tac|]. cbv beta zeta.
    rewrite E1, E2, E3. apply consumes_map. cbn [Z.eqb]. rewrite <-(app_nil_r (be_bytes 1 command)).
    cstep. apply consumes_ret.
  - destruct (video_fields false ft 7 Hft ltac:(fits_tac)) as (E1 & E2 & E3).
    eapply consumes_bind; [apply takes_uint; simpl; fits_tac|]. cbv beta zeta.
    rewrite E1, E2, E3, (proj2 (Z.eqb_neq ft 5)) by done. apply consumes_map.
    by apply consumes_map, avc_consumes.
  - destruct (video_fields false ft codec Hft Hc) as (E1 & E2 & E3).
    eapply consumes_bind; [apply takes_uint; simpl; fits_tac|]. cbv beta zeta.
    rewrite E1, E2, E3, (proj2 (Z.eqb_neq ft 5)) by done. apply consumes_map.
    cbn [VideoPacketType_new VideoTagBody_demux]. unfold VideoCodecId.Avc.
    rewrite (proj2 (Z.eqb_neq codec 7)) by done. apply consumes_map, consumes_rest.
  - destruct (video_fields true ft pt Hft Hpt) as (E1 & E2 & E3).
    eapply consumes_bind; [apply takes_uint; simpl; fits_tac|]. cbv beta zeta.
    rewrite E1, E2, E3, (proj2 (Z.eqb_neq ft 5)) by done. apply consumes_map.
    cbn [VideoPacketType_new VideoTagBody_demux].
    eapply consumes_bind; [by apply takes_read_exact|].
    unfold EnhancedPacketType.SequenceEnd, EnhancedPacketType.Metadata.
    destruct (Z.eqb_spec pt 2) as [->|H2].
    { inversion Hp; subst; try done. apply consumes_ret. }
    destruct (Z.eqb_spec pt 4) as [->|H4].
    { inversion Hp; subst; try done. eapply consumes_map_eq; [apply consumes_rest|done]. }
    by apply consumes_map, enhanced_consumes.
Qed.

Lemma script_values_ok d : script_ok d -> blen (script_bytes d) < 2 ^ 50 ->
  script_values (script_bytes d) = Ok d.
Proof.
  intros [Hn Hd] Hl. unfold script_values, script_bytes in *. set (nm := Amf0Value.String (script_name d)) in *.
  assert (encodable nm) as He by by constructor.
  change (Amf0Decoder.new (value_bytes nm ++ (script_data d ≫= value_bytes)))
    with (at_pos [] (value_bytes nm ++ (script_data d ≫= value_bytes))).
  change Amf0Marker.String with (Amf0Value.marker nm).
  rewrite MessageLemmas.decode_with_type_at by (done || (unfold in_memory; rewrite blen_nil; lia)).
  unfold Amf0Decoder.decode_all. rewrite cursor_rest_at.
  rewrite Amf0Props.decode_all_at; [by destruct d|done| |lia].
  unfold in_memory. cbn [app]. rewrite <-blen_app. lia.
Qed.

Lemma data_demux_ok t d bs : data_layout t d bs -> blen bs < 2 ^ 24 ->
  fst (FlvTagData_demux t (cursor_new bs)) = Ok d.
Proof.
  intros Hd Hl. assert (consumes (FlvTagData_demux t) bs d) as Hc.
  { unfold FlvTagData_demux, FlvTagType.Audio, FlvTagType.Video, FlvTagType.ScriptData.
    destruct Hd as [a Ha|v bs Hv|d Hd|t d Ht H8 H9 H18].
    - by apply consumes_map, audio_consumes.
    - by apply consumes_map, video_consumes.
    - apply (consumes_map TagScriptData). intros pre _. unfold ScriptData_demux.
      mstep (BytesCursorExt.extract_remaining_at pre (script_bytes d)).
      unfold lift. by rewrite script_values_ok by (done || lia).
    - rewrite !(proj2 (Z.eqb_neq t _)) by done. apply consumes_map, consumes_rest. }
  change (cursor_new bs) with (at_pos [] bs). rewrite Hc by (rewrite blen_nil; lia). done.
Qed.

(** The extended timestamp: 24 low bits, then 8 high bits. *)
Lemma timestamp_parts z : fits 32 z -> Z.lor (z `mod` 2 ^ 24) (Z.shiftl (z / 2 ^ 24) 24) = z.
Proof.
  intros Hz. assert (Z.land (z `mod` 2 ^ 24) (Z.shiftl (z / 2 ^ 24) 24) = 0) as Hl.
  { apply Z.bits_inj'. intros i Hi. rewrite Z.land_spec, Z.bits_0, Z.shiftl_spec by lia.
    destruct (decide (i < 24)) as [|Hi6]; [by rewrite (Z.testbit_neg_r _ (i - 24)), andb_false_r by lia|].
    by rewrite Z.mod_pow2_bits_high by lia. }
  pose proof (Z.add_lor_land (z `mod` 2 ^ 24) (Z.shiftl (z / 2 ^ 24) 24)) as H.
  rewrite Z.shiftl_mul_pow2 in * by lia. pose proof (Z.div_mod z (2 ^ 24) ltac:(lia)). lia.
Qed.

Lemma tag_split tag bs : tag_layout tag bs ->
  exists prev body, bs = be_bytes 4 prev ++ body /\ fits 32 prev /\ (1 <= length body)%nat /\
    takes_on (fun _ => True) FlvTag_demux body tag.
Proof.
  destruct 1 as [prev tag t bs Hprev Hts Hsid Hl Hd]. exists prev. eexists. split; [done|]. split; [done|].
  split; [rewrite length_app, length_be_bytes; lia|].
  assert (0 <= t < 256) as Ht by (inversion Hd; subst; fits_tac).
  pose proof (blen_nonneg bs). unfold fits in *.
  assert (0 <= timestamp_ms tag / 2 ^ 24 < 256) by (Z.to_euclidean_division_equations; lia).
  pose proof (Z.mod_pos_bound (timestamp_ms tag) (2 ^ 24) ltac:(lia)).
  unfold FlvTag_demux. do 5 tstep. rewrite timestamp_parts by done.
  eapply takes_last; [by apply takes_extract|].
  intros pre post _. cbn [app]. rewrite app_nil_r. unfold bind at 1, lift.
  rewrite (data_demux_ok t (tag_data tag) bs Hd Hl). by destruct tag.
Qed.

Lemma more_at pre post : post <> [] ->
  AvcConfig.has_remaining (at_pos pre post) = (Ok true, at_pos pre post).
Proof.
  intros Hp. rewrite AvcConfig.has_remaining_at. do 2 f_equal. apply Z.ltb_lt.
  destruct post; [done|]. rewrite blen_cons. pose proof (blen_nonneg post). lia.
Qed.

Lemma tags_loop_at ts bss : Forall2 tag_layout ts bss -> forall trailer fuel pre,
  (trailer = [] \/ length trailer = 4%nat) -> (length (mjoin bss ++ trailer) < fuel)%nat ->
  tags_loop fuel (at_pos pre (mjoin bss ++ trailer)) = (Ok ts, at_pos (pre ++ mjoin bss ++ trailer) []).
Proof.
  induction 1 as [|tag bs ts bss Ht Hts IH]; intros trailer fuel pre Htr Hf;
    (destruct fuel as [|fuel]; [lia|]); cbn [tags_loop].
  - cbn [mjoin list_join app]. destruct Htr as [-> |H4].
    { mstep (AvcConfig.has_remaining_at pre []). by rewrite app_nil_r. }
    mstep (more_at pre trailer); [|by destruct trailer]. cbv iota.
    rewrite <-(app_nil_r trailer) at 1. mstep (read_uint_be_at pre trailer [] 4 H4).
    by mstep (AvcConfig.has_remaining_at (pre ++ trailer) []).
  - destruct (tag_split tag bs Ht) as (prev & body & -> & Hprev & Hb & Htk).
    change (mjoin ((be_bytes 4 prev ++ body) :: bss)) with ((be_bytes 4 prev ++ body) ++ mjoin bss) in *.
    rewrite <-!(assoc_L (++)) in *.
    rewrite !length_app, length_be_bytes in Hf.
    mstep more_at; cycle 1.
    { intros Hnil%(f_equal length). rewrite length_app, length_be_bytes in Hnil. simpl in Hnil. lia. }
    cbv iota. mstep read_uint_be_bytes; [|fits_tac].
    mstep more_at; cycle 1.
    { intros Hnil%(f_equal length). rewrite length_app in Hnil. simpl in Hnil. lia. }
    cbv iota. erewrite bind_ok; [|by apply Htk].
    erewrite bind_ok; [|apply IH; [done|rewrite length_app; simpl in *; lia]].
    unfold ret. by rewrite <-!(assoc_L (++)).
Qed.

Lemma pos_at pre post : Z.of_N (pos (at_pos pre post)) = blen pre.
Proof. unfold blen. simpl. lia. Qed.

Lemma header_takes P h : fits 8 (version h) -> blen (extra h) < 2 ^ 31 ->
  takes_on P FlvHeader_demux (header_bytes h) h.
Proof.
  intros Hv He pre post _. pose proof (blen_nonneg (extra h)). unfold FlvHeader_demux, header_bytes.
  erewrite bind_ok; [|done]. rewrite <-!(assoc_L (++)).
  erewrite bind_ok; [|by apply (read_uint_be_at pre (str "FLV"))].
  change (be_val (str "FLV") =? be_val (x00 :: str "FLV")) with true. cbn [negb].
  mstep read_uint_be_bytes; [|fits_tac].
  mstep read_uint_be_bytes; [|destruct (has_audio h), (has_video h); simpl; lia].
  mstep read_uint_be_bytes; [|lia]. erewrite bind_ok; [|done].
  rewrite !pos_at. rewrite !blen_app, !blen_be_bytes. change (blen (str "FLV")) with 3.
  replace (_ - blen pre) with 9 by lia.
  erewrite bind_ok; [|apply checked_u_ok; unfold fits; lia]. cbv beta.
  rewrite (proj2 (Z.ltb_ge _ _)) by lia. replace (9 + blen (extra h) - 9) with (blen (extra h)) by lia.
  erewrite bind_ok; [|by apply BytesCursorExt.extract_bytes_at]. unfold ret.
  rewrite <-!(assoc_L (++)). do 2 f_equal. destruct h as [v a vd ex]. simpl. f_equal; by destruct a, vd.
Qed.

Lemma file_demux_ok f bs pre : file_layout f bs ->
  FlvFile_demux (at_pos pre bs) = (Ok f, at_pos (pre ++ bs) []).
Proof.
  destruct 1 as [h ts bss trailer Hv He Hts Htr]. unfold FlvFile_demux.
  erewrite bind_ok; [|by apply (header_takes (fun _ => True))].
  erewrite bind_ok; [|done]. rewrite cursor_rest_at.
  erewrite bind_ok; [|by apply tags_loop_at; [|done|lia]]. unfold ret.
  by rewrite <-(assoc_L (++)).
Qed.
End demux_lemmas.

(** ** Arbitrary input *)

(** The cursor is inside a buffer Rust can allocate. *)
Definition buffered (c : Cursor) : Prop :=
  (pos c <= N.of_nat (length (inner c)))%N /\ 8 * blen (inner c) < 2 ^ 62.

(** On every buffer, [m] returns or fails with a parse error, and stays in the
    buffer. *)
Definition steady {A} (m : M Cursor ErrorKind A) : Prop := forall c, buffered c ->
  match m c with
  | (Ok _, c') => buffered c'
  | (Err e, _) => parse_error e
  | (Panic, _) => False
  | (Fuel, _) => False
  end.

Lemma steady_ret {A} (a : A) : steady (ret a).
Proof. intros c Hc. done. Qed.

Lemma steady_throw {A} : steady (throw (A := A) InvalidData).
Proof. intros c Hc. by right. Qed.

Lemma steady_bind {A B} (m : M Cursor ErrorKind A) (k : A -> M Cursor ErrorKind B) :
  steady m -> (forall a, steady (k a)) -> steady (bind m k).
Proof.
  intros Hm Hk c Hc. specialize (Hm c Hc). unfold bind. destruct (m c) as [[a|e| |] c1]; try done.
  by apply Hk.
Qed.

Lemma buffered_at c : buffered c -> exists pre post, c = at_pos pre post /\ 8 * blen (pre ++ post) < 2 ^ 62.
Proof. intros [Hp Hl]. destruct (cursor_at c Hp) as (pre & post & ->). by exists pre, post. Qed.

Lemma buffered_at_pos pre post : 8 * blen (pre ++ post) < 2 ^ 62 -> buffered (at_pos pre post).
Proof. intros Hl. split; [|done]. simpl. rewrite length_app. lia. Qed.

Lemma steady_total {A} (m : M Cursor ErrorKind A) (Q : A -> list byte -> Prop) :
  (forall pre post, TotalParse.total m pre post (eq UnexpectedEof) Q) -> steady m.
Proof.
  intros Hm c Hc. destruct (buffered_at c Hc) as (pre & post & -> & Hl). specialize (Hm pre post).
  unfold TotalParse.total in Hm. destruct (m _) as [[a|e| |] c']; try done.
  - destruct Hm as (bs & post' & -> & -> & _). apply buffered_at_pos. by rewrite <-(assoc_L (++)).
  - by left.
Qed.

Lemma steady_with_bits {A} (m : M (BitReader.t Cursor) ErrorKind A) : calm m -> steady (with_bit_reader m).
Proof.
  intros Hm c Hc. destruct (buffered_at c Hc) as (pre & post & -> & Hl).
  specialize (Hm _ (ready_new pre post Hl)). unfold with_bit_reader.
  destruct (m _) as [[a|e| |] r]; try done. destruct Hm as [[([_ _] & Hp & _) Hlen] He].
  split; [|done]. unfold blen in Hp. lia.
Qed.

Section totality.
Context `{BO : ByteOrder}.

Lemma steady_uint n : steady (read_uint (T := Cursor) BigEndian n).
Proof. eapply steady_total. intros. apply total_uint. Qed.

Lemma steady_rest : steady BytesCursorExt.extract_remaining.
Proof.
  intros c Hc. destruct (buffered_at c Hc) as (pre & post & -> & Hl).
  rewrite BytesCursorExt.extract_remaining_at. apply buffered_at_pos. by rewrite app_nil_r.
Qed.

Lemma steady_read_exact n : steady (read_exact (T := Cursor) n).
Proof.
  intros c Hc. destruct (buffered_at c Hc) as (pre & post & -> & Hl). simpl.
  destruct (decide (length post < n)%nat) as [Hlt|Hge].
  - rewrite read_exact_eof by done. by left.
  - rewrite <-(take_drop n post), read_exact_at by (rewrite length_take; lia).
    apply buffered_at_pos. by rewrite <-(assoc_L (++)), take_drop.
Qed.

Lemma steady_av1 : steady Av1Config.demux.
Proof.
  apply steady_bind; [apply steady_with_bits; unfold Av1Config.demux_bits; calm_tac|]. intros f.
  apply steady_bind; [apply steady_rest|]. intros obu. apply steady_ret.
Qed.

Lemma steady_hevc : steady HevcConfig.demux.
Proof.
  assert (forall n, calm (HevcConfig.read_nalus n)) as Hnalus.
  { induction n as [|n IH]; cbn [HevcConfig.read_nalus]; calm_tac. apply IH. }
  assert (forall n, calm (HevcConfig.read_arrays n)) as Harrays.
  { induction n as [|n IH]; cbn [HevcConfig.read_arrays]; calm_tac; [apply Hnalus|apply IH]. }
  apply steady_with_bits. unfold HevcConfig.demux_bits. calm_tac. apply Harrays.
Qed.

Lemma steady_avc : steady AvcConfig.demux.
Proof. eapply steady_total. intros. apply AvcConfig.demux_total. Qed.

Ltac steady_tac :=
  repeat first
    [ match goal with |- steady (bind _ _) => apply steady_bind; [|intro] end
    | apply steady_ret | apply steady_throw | apply steady_uint | apply steady_rest
    | apply steady_read_exact | apply steady_av1 | apply steady_hevc | apply steady_avc
    | progress cbv zeta
    | match goal with
      | |- steady (if ?b then _ else _) => destruct b
      | |- steady (match ?b with _ => _ end) => destruct b
      end ].

Lemma steady_audio : steady AudioData_demux.
Proof. unfold AudioData_demux, AudioDataBody_demux. steady_tac. Qed.

Lemma steady_video : steady VideoTagHeader_demux.
Proof.
  unfold VideoTagHeader_demux, VideoTagBody_demux, enhanced_demux, Av1Config.descriptor_demux,
    AvcPacket_demux, read_i24. steady_tac.
Qed.

(** The AMF0 reader stops on every buffer. *)
Lemma script_values_stops buf : blen buf < 2 ^ 60 ->
  match script_values buf with
  | Ok _ => True
  | Err e => e = InvalidData
  | Panic => True
  | Fuel => False
  end.
Proof.
  intros Hl. unfold script_values.
  assert (MessageLemmas.in_buf (Amf0Decoder.new buf)) as Hin by (split; simpl; lia).
  pose proof (MessageLemmas.total_decode_with_type Amf0Marker.String _ Hin) as H1.
  destruct (Amf0Decoder.decode_with_type _ _) as [[v|e| |] c]; try done. destruct v; try done.
  pose proof (MessageLemmas.total_decode_all c H1) as H2.
  by destruct (Amf0Decoder.decode_all c) as [[]].
Qed.

Lemma data_demux_outcome t data : blen data < 2 ^ 24 ->
  match fst (FlvTagData_demux t (cursor_new data)) with
  | Ok _ => True
  | Err e => parse_error e
  | Panic => t = FlvTagType.ScriptData /\ script_values data = Panic
  | Fuel => False
  end.
Proof.
  intros Hl. assert (buffered (cursor_new data)) as Hc by (split; simpl; lia).
  unfold FlvTagData_demux. destruct (_ =? FlvTagType.Audio).
  { assert (steady (let* d := AudioData_demux in ret (TagAudio d))) as Hs
      by (apply steady_bind; [apply steady_audio|intro; apply steady_ret]).
    specialize (Hs _ Hc). by destruct (bind _ _ _) as [[]]. }
  destruct (_ =? FlvTagType.Video).
  { assert (steady (let* d := VideoTagHeader_demux in ret (TagVideo d))) as Hs
      by (apply steady_bind; [apply steady_video|intro; apply steady_ret]).
    specialize (Hs _ Hc). by destruct (bind _ _ _) as [[]]. }
  destruct (Z.eqb_spec t FlvTagType.ScriptData) as [->|_].
  - unfold ScriptData_demux. unfold bind at 1. change (cursor_new data) with (at_pos [] data).
    mstep (BytesCursorExt.extract_remaining_at [] data). unfold lift.
    pose proof (script_values_stops data ltac:(lia)) as Hv.
    destruct (script_values data) as [d|e| |]; simpl; try done. by right.
  - assert (steady (let* d := BytesCursorExt.extract_remaining in ret (TagUnknown t d))) as Hs
      by (apply steady_bind; [apply steady_rest|intro; apply steady_ret]).
    specialize (Hs _ Hc). by destruct (bind _ _ _) as [[]].
Qed.

(** Some bytes of the input make the AMF0 reader panic. *)
Definition script_panic (post : list byte) : Prop :=
  exists p data q, post = p ++ data ++ q /\ script_values data = Panic.

(** [m] consumes a prefix, fails with a parse error, or panics on the script
    data of the input. *)
Definition scans {A} (m : M Cursor ErrorKind A) (pre post : list byte) (Q : A -> list byte -> Prop) : Prop :=
  match m (at_pos pre post) with
  | (Ok a, c) => exists bs post', post = bs ++ post' /\ c = at_pos (pre ++ bs) post' /\ Q a bs
  | (Err e, _) => parse_error e
  | (Panic, _) => script_panic post
  | (Fuel, _) => False
  end.

Lemma scans_total {A} (m : M Cursor ErrorKind A) pre post Q :
  TotalParse.total m pre post (eq UnexpectedEof) Q -> scans m pre post Q.
Proof. unfold TotalParse.total, scans. destruct (m _) as [[]]; try done. intros <-. by left. Qed.

Lemma scans_ret {A} (a : A) pre post (Q : A -> list byte -> Prop) : Q a [] -> scans (ret a) pre post Q.
Proof. intros HQ. exists [], post. by rewrite app_nil_r. Qed.

Lemma scans_bind {A B} (m : M Cursor ErrorKind A) (k : A -> M Cursor ErrorKind B) pre post
    (Q : A -> list byte -> Prop) (R : B -> list byte -> Prop) :
  scans m pre post Q ->
  (forall a bs post', post = bs ++ post' -> Q a bs ->
    scans (k a) (pre ++ bs) post' (fun b bs' => R b (bs ++ bs'))) ->
  scans (bind m k) pre post R.
Proof.
  unfold scans, bind. destruct (m (at_pos pre post)) as [[a|e| |] c]; try done.
  intros (bs & post' & -> & -> & HQ) Hk. specialize (Hk a bs post' eq_refl HQ).
  destruct (k a _) as [[b|e| |] c']; try done.
  - destruct Hk as (bs' & post'' & -> & -> & HR). exists (bs ++ bs'), post''.
    by rewrite !(assoc_L (++)).
  - destruct Hk as (p & data & q & -> & Hd). exists (bs ++ p), data, q. by rewrite <-(assoc_L (++)).
Qed.

Lemma scans_uint n pre post :
  scans (read_uint (T := Cursor) BigEndian n) pre post (fun z bs => length bs = n /\ 0 <= z < 256 ^ Z.of_nat n).
Proof. apply scans_total, total_uint. Qed.

Ltac sstep := eapply scans_bind; [apply scans_uint|]; intros ? ? ? -> [? ?].

Lemma body_scans {B} t n (f : FlvTagData -> B) pre post : 0 <= n < 2 ^ 24 ->
  scans (let* data := BytesCursorExt.extract_bytes n in
         let* d := lift (fst (FlvTagData_demux t (cursor_new data))) in ret (f d)) pre post (fun _ _ => True).
Proof.
  intros Hn. pose proof (total_extract n pre post ltac:(lia)) as He. unfold TotalParse.total in He.
  unfold scans, bind. destruct (BytesCursorExt.extract_bytes n _) as [[data|e| |] c]; try done;
    [|by subst e; left].
  destruct He as (bs & post' & -> & -> & -> & Hl).
  pose proof (data_demux_outcome t bs ltac:(lia)) as Hd. unfold lift.
  destruct (fst (FlvTagData_demux t (cursor_new bs))) as [d|e| |]; try done.
  - by exists bs, post'.
  - destruct Hd as [_ Hd]. by exists [], bs, post'.
Qed.

Lemma tag_scans pre post : scans FlvTag_demux pre post (fun _ _ => True).
Proof. unfold FlvTag_demux. do 5 sstep. eapply (body_scans _ _ (fun d => mkTag _ _ d)). lia. Qed.

Lemma tags_loop_scans fuel : forall pre post, (length post < fuel)%nat ->
  scans (tags_loop fuel) pre post (fun _ bs => bs = post).
Proof.
  induction fuel as [|fuel IH]; intros pre post Hf; [lia|]. unfold scans. cbn [tags_loop].
  mstep (AvcConfig.has_remaining_at pre post). destruct (Z.ltb_spec 0 (blen post)) as [H0|H0]; cycle 1.
  { assert (post = []) as -> by (unfold blen in H0; destruct post; [done|simpl in H0; lia]).
    by apply scans_ret. }
  eapply (scans_bind read_u32); [apply scans_uint|]. intros prev bs1 post1 -> [Hl1 _].
  rewrite length_app in Hf. unfold scans. mstep (AvcConfig.has_remaining_at (pre ++ bs1) post1).
  destruct (Z.ltb_spec 0 (blen post1)) as [H1|H1]; cycle 1.
  { assert (post1 = []) as -> by (unfold blen in H1; destruct post1; [done|simpl in H1; lia]).
    by apply scans_ret. }
  eapply (scans_bind FlvTag_demux); [apply tag_scans|]. intros tag bs2 post2 -> _.
  rewrite length_app in Hf. eapply scans_bind; [apply IH; lia|]. intros ts bs3 post3 Hp ->.
  apply scans_ret. by rewrite app_nil_r.
Qed.

Lemma header_scans pre post : blen (pre ++ post) < 2 ^ 60 -> scans FlvHeader_demux pre post (fun _ _ => True).
Proof.
  intros Hl. unfold scans, FlvHeader_demux. erewrite bind_ok; [|done].
  eapply (scans_bind read_u24); [apply scans_uint|]. intros sig bs1 post1 -> [H1 _].
  destruct (negb _); [by right|]. do 2 sstep.
  eapply scans_bind; [apply scans_uint|]. intros off bs4 post4 -> [H4 Ho].
  unfold scans. erewrite bind_ok; [|done]. rewrite !pos_at, !blen_app. rewrite !blen_app in Hl.
  pose proof (blen_nonneg post4). pose proof (blen_nonneg pre).
  assert (blen bs1 = 3 /\ blen bs4 = 4) as [Hb1 Hb4] by (unfold blen; lia).
  assert (blen bs = 1 /\ blen bs0 = 1) as [Hb2 Hb3] by (unfold blen; lia).
  replace (_ - blen pre) with 9 by lia.
  erewrite bind_ok; [|apply checked_u_ok; unfold fits; lia]. destruct (Z.ltb_spec off 9); [by right|].
  eapply (scans_bind (BytesCursorExt.extract_bytes _)); [apply scans_total, total_extract; lia|].
  intros ex bs5 post5 -> _. by apply scans_ret.
Qed.

Lemma file_scans pre post : blen (pre ++ post) < 2 ^ 60 ->
  scans FlvFile_demux pre post (fun _ bs => bs = post).
Proof.
  intros Hl. unfold FlvFile_demux. eapply scans_bind; [by apply header_scans|].
  intros h bs post' -> _. unfold scans. erewrite bind_ok; [|done]. rewrite cursor_rest_at.
  eapply (scans_bind (tags_loop _)); [apply tags_loop_scans; lia|]. intros ts bs2 post2 Hp ->.
  apply scans_ret. by rewrite app_nil_r.
Qed.
End totality.

(** ** Properties *)


(** A file with an audio tag, an AVC packet and an enhanced HEVC packet with
    a negative composition time. *)
Definition sample_file : FlvFile :=
  mkFile (mkHeader 1 true true [x00])
    [mkTag 0x01020304 0 (TagAudio (mkAudio 3 1 1 (AudioAac (AacRaw [x21; x10]))));
     mkTag 40 1 (TagVideo (mkVideo 1 (VideoAvc (AvcNalu 7 [x65]))));
     mkTag 80 1 (TagVideo (mkVideo 2 (VideoEnhanced (EHevc (HevcNalu (Some (-2)) [x02])))))].

Definition sample_bytes : list byte :=
  [x46; x4c; x56; x01; x05; x00; x00; x00; x0a; x00;
   x00; x00; x00; x00; x08; x00; x00; x04; x02; x03; x04; x01; x00; x00; x00; xaf; x01; x21; x10;
   x00; x00; x00; x0f; x09; x00; x00; x06; x00; x00; x28; x00; x00; x00; x01; x17; x01; x00; x00; x07; x65;
   x00; x00; x00; x11; x09; x00; x00; x09; x00; x00; x50; x00; x00; x00; x01; xa1; x68; x76; x63; x31; xff; xff; xfe; x02].


(** C39. [FlvFile::demux] on arbitrary bytes: it always stops; success means
    the whole buffer was consumed; its only errors are [UnexpectedEof] and
    [InvalidData]; and the only way it can panic is the AMF0 reader on a
    truncated string in the script data, never the audio, video or codec
    configuration parsers. *)
Theorem flv_demux_total `{ByteOrder} (pre post : list byte) (Hl : blen (pre ++ post) < 2 ^ 60) :
  match FlvFile_demux (at_pos pre post) with
  | (Ok _, c) => c = at_pos (pre ++ post) []
  | (Err e, _) => e = UnexpectedEof \/ e = InvalidData
  | (Panic, _) => exists p data q, post = p ++ data ++ q /\ script_values data = Panic
  | (Fuel, _) => False
  end.
Proof.
  pose proof (file_scans pre post Hl) as Hs. unfold scans in Hs.
  destruct (FlvFile_demux _) as [[f|e| |] c]; try done.
  destruct Hs as (bs & post' & Hp & -> & ->).
  assert (post' = []) as -> by (apply (f_equal length) in Hp; rewrite length_app in Hp;
    destruct post'; [done|simpl in Hp; lia]). done.
Qed.

Lemma flv_demux_total_witness :
  FlvFile_demux (at_pos [] (take 45 sample_bytes)) = (Err UnexpectedEof, at_pos (take 44 sample_bytes) [x17]) /\
  match FlvFile_demux (at_pos [] (take 45 sample_bytes)) with
  | (Ok _, c) => c = at_pos ([] ++ take 45 sample_bytes) []
  | (Err e, _) => e = UnexpectedEof \/ e = InvalidData
  | (Panic, _) => exists p data q, take 45 sample_bytes = p ++ data ++ q /\ script_values data = Panic
  | (Fuel, _) => False
  end.
Proof.
  split; [vm_compute; reflexivity|].
  apply (flv_demux_total [] (take 45 sample_bytes)). vm_compute. reflexivity.
Defined.
End Flv.
