(* ===== verification/Av1Obu.v ===== *)
(** * [scuffle-av1]: open bitstream units (crates/av1/src/obu)

    The OBU header (mod.rs), the variable-length integers (utils.rs) and the
    sequence header (seq.rs), with the syntax of the AV1 specification, section
    5.5, as a data type with its bit layout. *)

From stdpp Require Import base list numbers.
From Stdlib Require Import Strings.Byte.
From S2P Require Import Prelude Io BitRead BitWrite ExpGolomb BitIo.

Module Av1Obu.
Import BitIo.

Abbreviation P := (M (BitReader.t Cursor) ErrorKind).

(** ** utils.rs *)

(** [for i in 0..8], from turn [i] on with [n] turns left. *)
Fixpoint leb128_loop (n : nat) (i result : Z) : P Z :=
  match n with
  | O => ret result
  | S n =>
      let* byte := BitReader.read_bits 8 in
      let result := Z.lor result (wrap 64 (Z.shiftl (Z.land byte 0x7f) (i * 7))) in
      if Z.land byte 0x80 =? 0 then ret result else leb128_loop n (i + 1) result
  end.

Definition read_leb128 : P Z := leb128_loop 8 0 0.

(** [while !reader.read_bit()? { leading_zeros += 1; }]: the counter is the
    [u8] that [read_bits] takes, so the loop ends after 256 turns at most. *)
Fixpoint uvlc_zeros (fuel : nat) (leading_zeros : Z) : P Z :=
  match fuel with
  | O => out_of_fuel
  | S fuel =>
      let* bit := BitReader.read_bit in
      if bit then ret leading_zeros
      else let* leading_zeros := checked_u 8 (leading_zeros + 1) in uvlc_zeros fuel leading_zeros
  end.

Definition read_uvlc : P Z :=
  let* leading_zeros := uvlc_zeros 256 0 in
  if 32 <=? leading_zeros then ret (Z.shiftl 1 32 - 1)
  else
    let* value := BitReader.read_bits leading_zeros in
    let* sum := checked_u 64 (value + Z.shiftl 1 leading_zeros) in
    checked_u 64 (sum - 1).

(** ** mod.rs *)

Inductive ObuType :=
| SequenceHeader
| TemporalDelimiter
| FrameHeader
| TileGroup
| Metadata
| Frame
| RedundantFrameHeader
| TileList
| Padding
| Reserved (value : Z).

Definition ObuType_from_u8 (value : Z) : ObuType :=
  match value with
  | 1 => SequenceHeader
  | 2 => TemporalDelimiter
  | 3 => FrameHeader
  | 4 => TileGroup
  | 5 => Metadata
  | 6 => Frame
  | 7 => RedundantFrameHeader
  | 8 => TileList
  | 15 => Padding
  | _ => Reserved value
  end.

Definition ObuType_to_u8 (value : ObuType) : Z :=
  match value with
  | SequenceHeader => 1
  | TemporalDelimiter => 2
  | FrameHeader => 3
  | TileGroup => 4
  | Metadata => 5
  | Frame => 6
  | RedundantFrameHeader => 7
  | TileList => 8
  | Padding => 15
  | Reserved value => value
  end.

Record ObuExtensionHeader := mkObuExt { temporal_id : Z; spatial_id : Z }.

Record ObuHeader := mkObuHeader {
  obu_type : ObuType;
  size : option Z;
  extension_header : option ObuExtensionHeader;
}.

Definition ObuHeader_bits : P ObuHeader :=
  let* forbidden_bit := BitReader.read_bit in
  if forbidden_bit then throw InvalidData
  else
    let* obu_type := BitReader.read_bits 4 in
    let* extension_flag := BitReader.read_bit in
    let* has_size_field := BitReader.read_bit in
    BitReader.read_bit ;;;
    let* extension_header :=
      if extension_flag
      then
        let* temporal_id := BitReader.read_bits 3 in
        let* spatial_id := BitReader.read_bits 2 in
        BitReader.read_bits 3 ;;;
        ret (Some (mkObuExt (wrap 8 temporal_id) (wrap 8 spatial_id)))
      else ret None in
    let* size := if has_size_field then let* n := read_leb128 in ret (Some n) else ret None in
    let* r := get in
    if negb (BitReader.is_aligned r) then throw InvalidData
    else ret (mkObuHeader (ObuType_from_u8 (wrap 8 obu_type)) size extension_header).

(** [ObuHeader::parse] *)
Definition ObuHeader_parse : M Cursor ErrorKind ObuHeader := with_bit_reader ObuHeader_bits.

(** ** seq.rs *)

Record FrameIds := mkFrameIds { delta_frame_id_length : Z; additional_frame_id_length : Z }.

Record OperatingParametersInfo := mkOperatingParameters {
  decoder_buffer_delay : Z;
  encoder_buffer_delay : Z;
  low_delay_mode_flag : bool;
}.

Record OperatingPoint := mkOperatingPoint {
  idc : Z;
  seq_level_idx : Z;
  seq_tier : bool;
  operating_parameters_info : option OperatingParametersInfo;
  initial_display_delay : option Z;
}.

Record TimingInfo := mkTimingInfo {
  num_units_in_display_tick : Z;
  time_scale : Z;
  num_ticks_per_picture : option Z;
}.

Record DecoderModelInfo := mkDecoderModel {
  buffer_delay_length : Z;
  num_units_in_decoding_tick : Z;
  buffer_removal_time_length : Z;
  frame_presentation_time_length : Z;
}.

Record ColorConfig := mkColorConfig {
  bit_depth : Z;
  mono_chrome : bool;
  num_planes : Z;
  color_primaries : Z;
  transfer_characteristics : Z;
  matrix_coefficients : Z;
  full_color_range : bool;
  subsampling_x : bool;
  subsampling_y : bool;
  chroma_sample_position : Z;
  separate_uv_delta_q : bool;
}.

Record ColorRangeAndSubsampling := mkRange {
  range_color_range : bool;
  range_subsampling_x : bool;
  range_subsampling_y : bool;
}.

Record SequenceHeaderObu := mkSequenceHeader {
  header : ObuHeader;
  seq_profile : Z;
  still_picture : bool;
  reduced_still_picture_header : bool;
  timing_info : option TimingInfo;
  decoder_model_info : option DecoderModelInfo;
  operating_points : list OperatingPoint;
  max_frame_width : Z;
  max_frame_height : Z;
  frame_ids : option FrameIds;
  use_128x128_superblock : bool;
  enable_filter_intra : bool;
  enable_intra_edge_filter : bool;
  enable_interintra_compound : bool;
  enable_masked_compound : bool;
  enable_warped_motion : bool;
  enable_dual_filter : bool;
  enable_order_hint : bool;
  enable_jnt_comp : bool;
  enable_ref_frame_mvs : bool;
  seq_force_screen_content_tools : Z;
  seq_force_integer_mv : Z;
  order_hint_bits : Z;
  enable_superres : bool;
  enable_cdef : bool;
  enable_restoration : bool;
  color_config : ColorConfig;
  film_grain_params_present : bool;
}.

Section parse.
Context `{BO : ByteOrder}.

Definition TimingInfo_parse : P TimingInfo :=
  let* num_units_in_display_tick := read_u32 in
  let* time_scale := read_u32 in
  let* equal_picture_interval := BitReader.read_bit in
  let* num_ticks_per_picture :=
    if equal_picture_interval
    then let* n := read_uvlc in let* n := checked_u 64 (n + 1) in ret (Some n)
    else ret None in
  ret (mkTimingInfo num_units_in_display_tick time_scale num_ticks_per_picture).

(** [read_bits(n)? as u8 + k] *)
Definition read_u8_plus (n k : Z) : P Z :=
  let* v := BitReader.read_bits n in checked_u 8 (wrap 8 v + k).

Definition DecoderModelInfo_parse : P DecoderModelInfo :=
  let* buffer_delay_length := read_u8_plus 5 1 in
  let* num_units_in_decoding_tick := read_u32 in
  let* buffer_removal_time_length := read_u8_plus 5 1 in
  let* frame_presentation_time_length := read_u8_plus 5 1 in
  ret (mkDecoderModel buffer_delay_length num_units_in_decoding_tick buffer_removal_time_length
         frame_presentation_time_length).

Definition OperatingParametersInfo_parse (delay_bit_length : Z) : P OperatingParametersInfo :=
  let* decoder_buffer_delay := BitReader.read_bits delay_bit_length in
  let* encoder_buffer_delay := BitReader.read_bits delay_bit_length in
  let* low_delay_mode_flag := BitReader.read_bit in
  ret (mkOperatingParameters decoder_buffer_delay encoder_buffer_delay low_delay_mode_flag).

Definition CP_BT_709 : Z := 1.
Definition TC_SRGB : Z := 13.
Definition MC_IDENTITY : Z := 0.

Definition parse_color_range_and_subsampling
    (seq_profile color_primaries transfer_characteristics matrix_coefficients bit_depth : Z) :
    P ColorRangeAndSubsampling :=
  if (color_primaries =? CP_BT_709) && (transfer_characteristics =? TC_SRGB)
     && (matrix_coefficients =? MC_IDENTITY)
  then ret (mkRange true false false)
  else
    let* color_range := BitReader.read_bit in
    if seq_profile =? 0 then ret (mkRange color_range true true)
    else if seq_profile =? 1 then ret (mkRange color_range false false)
    else if bit_depth =? 12
    then
      let* subsampling_x := BitReader.read_bit in
      let* subsampling_y := if subsampling_x then BitReader.read_bit else ret false in
      ret (mkRange color_range subsampling_x subsampling_y)
    else ret (mkRange color_range true false).

(** The guard of the first arm reads a bit only when its pattern matches. *)
Definition parse_bit_depth (seq_profile : Z) : P Z :=
  let* high_bitdepth := BitReader.read_bit in
  let* twelve := if (seq_profile =? 2) && high_bitdepth then BitReader.read_bit else ret false in
  ret (if twelve then 12 else if high_bitdepth then 10 else 8).

Definition ColorConfig_parse (seq_profile : Z) : P ColorConfig :=
  let* bit_depth := parse_bit_depth seq_profile in
  let* mono_chrome := if seq_profile =? 1 then ret false else BitReader.read_bit in
  let* color_description_present_flag := BitReader.read_bit in
  let* (color_primaries, transfer_characteristics, matrix_coefficients) :=
    if color_description_present_flag
    then
      let* color_primaries := BitReader.read_bits 8 in
      let* transfer_characteristics := BitReader.read_bits 8 in
      let* matrix_coefficients := BitReader.read_bits 8 in
      ret (wrap 8 color_primaries, wrap 8 transfer_characteristics, wrap 8 matrix_coefficients)
    else ret (2, 2, 2) in
  let num_planes := if mono_chrome then 1 else 3 in
  if mono_chrome
  then
    let* full_color_range := BitReader.read_bit in
    ret (mkColorConfig bit_depth mono_chrome num_planes color_primaries transfer_characteristics
           matrix_coefficients full_color_range true true 0 false)
  else
    let* range := parse_color_range_and_subsampling seq_profile color_primaries
                    transfer_characteristics matrix_coefficients bit_depth in
    let* chroma_sample_position :=
      if range_subsampling_x range && range_subsampling_y range
      then let* v := BitReader.read_bits 2 in ret (wrap 8 v)
      else ret 0 in
    let* separate_uv_delta_q := BitReader.read_bit in
    ret (mkColorConfig bit_depth mono_chrome num_planes color_primaries transfer_characteristics
           matrix_coefficients (range_color_range range) (range_subsampling_x range)
           (range_subsampling_y range) chroma_sample_position separate_uv_delta_q).

(** The part of an operating point that depends on the decoder model. *)
Definition operating_parameters (model : option DecoderModelInfo) : P (option OperatingParametersInfo) :=
  let* decoder_model_present_for_this_op :=
    match model with
    | Some model => let* b := BitReader.read_bit in ret (if b then Some (buffer_delay_length model) else None)
    | None => ret None
    end in
  match decoder_model_present_for_this_op with
  | Some delay_bit_length => let* o := OperatingParametersInfo_parse delay_bit_length in ret (Some o)
  | None => ret None
  end.

(** One turn of the loop over the operating points. *)
Definition operating_point (model : option DecoderModelInfo) (initial_display_delay_present_flag : bool) :
    P OperatingPoint :=
  let* v := BitReader.read_bits 12 in
  let idc := wrap 16 v in
  let* v := BitReader.read_bits 5 in
  let seq_level_idx := wrap 8 v in
  let* seq_tier := if 7 <? seq_level_idx then BitReader.read_bit else ret false in
  let* operating_parameters_info := operating_parameters model in
  let* initial_display_delay :=
    if initial_display_delay_present_flag
    then
      let* b := BitReader.read_bit in
      if b then let* v := read_u8_plus 4 1 in ret (Some v) else ret None
    else ret None in
  ret (mkOperatingPoint idc seq_level_idx seq_tier operating_parameters_info initial_display_delay).

Fixpoint operating_points_loop (n : nat) (model : option DecoderModelInfo) (present : bool) :
    P (list OperatingPoint) :=
  match n with
  | O => ret []
  | S n =>
      let* op := operating_point model present in
      let* ops := operating_points_loop n model present in
      ret (op :: ops)
  end.

Definition parse_timing : P (option TimingInfo * option DecoderModelInfo) :=
  let* timing_info_present_flag := BitReader.read_bit in
  if timing_info_present_flag
  then
    let* timing_info := TimingInfo_parse in
    let* decoder_model_info_present_flag := BitReader.read_bit in
    if decoder_model_info_present_flag
    then let* model := DecoderModelInfo_parse in ret (Some timing_info, Some model)
    else ret (Some timing_info, None)
  else ret (None, None).

(** Timing, decoder model and operating points. *)
Definition parse_operating_info (reduced_still_picture_header : bool) :
    P (option TimingInfo * option DecoderModelInfo * list OperatingPoint) :=
  if reduced_still_picture_header
  then
    let* v := BitReader.read_bits 5 in
    ret (None, None, [mkOperatingPoint 0 (wrap 8 v) false None None])
  else
    let* (timing_info, decoder_model_info) := parse_timing in
    let* initial_display_delay_present_flag := BitReader.read_bit in
    let* v := BitReader.read_bits 5 in
    let* count := checked_u 8 (wrap 8 v + 1) in
    let* operating_points :=
      operating_points_loop (Z.to_nat count) decoder_model_info initial_display_delay_present_flag in
    ret (timing_info, decoder_model_info, operating_points).

Definition parse_frame_ids (reduced_still_picture_header : bool) : P (option FrameIds) :=
  let* frame_id_numbers_present_flag :=
    if reduced_still_picture_header then ret false else BitReader.read_bit in
  if frame_id_numbers_present_flag
  then
    let* delta_frame_id_length := read_u8_plus 4 2 in
    let* additional_frame_id_length := read_u8_plus 3 1 in
    ret (Some (mkFrameIds delta_frame_id_length additional_frame_id_length))
  else ret None.

(** The tools that a reduced still picture header leaves out, in the order of
    the fields: four flags, order hint, jnt_comp, ref_frame_mvs, screen content
    tools, integer mv, order hint bits. *)
Definition parse_tools (reduced_still_picture_header : bool) :
    P (bool * bool * bool * bool * bool * bool * bool * Z * Z * Z) :=
  if negb reduced_still_picture_header
  then
    let* enable_interintra_compound := BitReader.read_bit in
    let* enable_masked_compound := BitReader.read_bit in
    let* enable_warped_motion := BitReader.read_bit in
    let* enable_dual_filter := BitReader.read_bit in
    let* enable_order_hint := BitReader.read_bit in
    let* (enable_jnt_comp, enable_ref_frame_mvs) :=
      if enable_order_hint
      then let* j := BitReader.read_bit in let* r := BitReader.read_bit in ret (j, r)
      else ret (false, false) in
    let* seq_choose_screen_content_tools := BitReader.read_bit in
    let* seq_force_screen_content_tools :=
      if seq_choose_screen_content_tools then ret 2
      else let* v := BitReader.read_bits 1 in ret (wrap 8 v) in
    let* select_mv :=
      if seq_force_screen_content_tools =? 0 then ret true else BitReader.read_bit in
    let* seq_force_integer_mv :=
      if select_mv then ret 2 else let* v := BitReader.read_bits 1 in ret (wrap 8 v) in
    let* order_hint_bits := if enable_order_hint then read_u8_plus 3 1 else ret 0 in
    ret (enable_interintra_compound, enable_masked_compound, enable_warped_motion, enable_dual_filter,
         enable_order_hint, enable_jnt_comp, enable_ref_frame_mvs, seq_force_screen_content_tools,
         seq_force_integer_mv, order_hint_bits)
  else ret (false, false, false, false, false, false, false, 2, 2, 0).

Definition sequence_header_bits (header : ObuHeader) : P SequenceHeaderObu :=
  let* v := BitReader.read_bits 3 in
  let seq_profile := wrap 8 v in
  let* still_picture := BitReader.read_bit in
  let* reduced_still_picture_header := BitReader.read_bit in
  if negb still_picture && reduced_still_picture_header then throw InvalidData
  else
  let* (timing_info, decoder_model_info, operating_points) :=
    parse_operating_info reduced_still_picture_header in
  let* frame_width_bits := read_u8_plus 4 1 in
  let* frame_height_bits := read_u8_plus 4 1 in
  let* w := BitReader.read_bits frame_width_bits in
  let* max_frame_width := checked_u 64 (w + 1) in
  let* h := BitReader.read_bits frame_height_bits in
  let* max_frame_height := checked_u 64 (h + 1) in
  let* frame_ids := parse_frame_ids reduced_still_picture_header in
  let* use_128x128_superblock := BitReader.read_bit in
  let* enable_filter_intra := BitReader.read_bit in
  let* enable_intra_edge_filter := BitReader.read_bit in
  let* (enable_interintra_compound, enable_masked_compound, enable_warped_motion, enable_dual_filter,
        enable_order_hint, enable_jnt_comp, enable_ref_frame_mvs, seq_force_screen_content_tools,
        seq_force_integer_mv, order_hint_bits) := parse_tools reduced_still_picture_header in
  let* enable_superres := BitReader.read_bit in
  let* enable_cdef := BitReader.read_bit in
  let* enable_restoration := BitReader.read_bit in
  let* color_config := ColorConfig_parse seq_profile in
  let* film_grain_params_present := BitReader.read_bit in
  ret (mkSequenceHeader header seq_profile still_picture reduced_still_picture_header timing_info
         decoder_model_info operating_points max_frame_width max_frame_height frame_ids
         use_128x128_superblock enable_filter_intra enable_intra_edge_filter
         enable_interintra_compound enable_masked_compound enable_warped_motion enable_dual_filter
         enable_order_hint enable_jnt_comp enable_ref_frame_mvs seq_force_screen_content_tools
         seq_force_integer_mv order_hint_bits enable_superres enable_cdef enable_restoration
         color_config film_grain_params_present).

(** [SequenceHeaderObu::parse] *)
Definition SequenceHeaderObu_parse (header : ObuHeader) : M Cursor ErrorKind SequenceHeaderObu :=
  with_bit_reader (sequence_header_bits header).
End parse.

(** The crate's own tests. *)
Example obu_header_sample :
  ObuHeader_parse (cursor_new [x0a; x0f; x00]) =
    (Ok (mkObuHeader SequenceHeader (Some 15) None), mkCursor [x0a; x0f; x00] 2).
Proof. vm_compute. reflexivity. Qed.

Example obu_header_extension_sample :
  fst (ObuHeader_parse (cursor_new [x04; xd0])) = Ok (mkObuHeader (Reserved 0) None (Some (mkObuExt 6 2))).
Proof. vm_compute. reflexivity. Qed.

Definition seq_sample : list byte :=
  [x00; x00; x00; x6a; xef; xbf; xe1; xbc; x02; x19; x90; x10; x10; x10; x40].

Example seq_obu_sample :
  let h := mkObuHeader SequenceHeader None None in
  fst (SequenceHeaderObu_parse h (cursor_new seq_sample)) =
    Ok (mkSequenceHeader h 0 false false None None [mkOperatingPoint 0 13 false None None] 3840 2160 None
          false false false false false false false true false false 0 2 7 false true true
          (mkColorConfig 8 false 3 1 1 1 false true true 0 false) false).
Proof. vm_compute. reflexivity. Qed.

(** ** Variable-length integers *)

(** The value of a little-endian base-128 number of at most [n] digits and the
    bytes after it; [None] when the bytes end first. *)
Fixpoint leb_spec (n : nat) (bs : list byte) : option (Z * list byte) :=
  match n, bs with
  | O, _ => Some (0, bs)
  | S _, [] => None
  | S n, b :: bs =>
      if b2z b <? 128 then Some (b2z b, bs)
      else match leb_spec n bs with
           | Some (v, rest) => Some (b2z b - 128 + 128 * v, rest)
           | None => None
           end
  end.

(** The value of a [uvlc] code: a prefix of 32 zeros or more stands for the
    largest value, and the zeros are counted in a [u8]. *)
Definition uvlc_spec (bs : list bool) : res ErrorKind Z :=
  let k := ExpGolomb.leading bs in
  if (256 <=? k)%nat then Panic
  else match drop k bs with
       | [] => Err UnexpectedEof
       | _ :: digits =>
           if (32 <=? k)%nat then Ok (2 ^ 32 - 1)
           else if (length digits <? k)%nat then Err UnexpectedEof
           else Ok (2 ^ Z.of_nat k - 1 + bits_val (take k digits))
       end.

Lemma leb_digit b :
  Z.land (b2z b) 0x7f = (if b2z b <? 128 then b2z b else b2z b - 128) /\
  (Z.land (b2z b) 0x80 =? 0) = (b2z b <? 128).
Proof. by destruct b. Qed.

Lemma lor_digit acc d n : 0 <= n -> 0 <= acc < 2 ^ n -> 0 <= d ->
  Z.lor acc (Z.shiftl d n) = acc + d * 2 ^ n.
Proof.
  intros Hn Ha Hd. rewrite <-Z.shiftl_mul_pow2 by done. rewrite <-Z.lxor_lor, Z.add_nocarry_lxor; try done.
  all: apply Z.bits_inj'; intros k Hk; rewrite Z.land_spec, Z.bits_0.
  all: destruct (Z.lt_ge_cases k n) as [Hlt|Hge];
    [by rewrite Z.shiftl_spec_low, andb_false_r by lia|].
  all: replace (Z.testbit acc k) with false; [done|]; symmetry.
  all: destruct (Z.eq_dec acc 0) as [->|Hz]; [apply Z.bits_0|].
  all: apply Z.bits_above_log2; [lia|]; apply Z.lt_le_trans with n; [|done].
  all: apply Z.log2_lt_pow2; lia.
Qed.

Lemma leb_step acc b i : 0 <= i < 8 -> 0 <= acc < 2 ^ (7 * i) ->
  let d := if b2z b <? 128 then b2z b else b2z b - 128 in
  Z.lor acc (wrap 64 (Z.shiftl (Z.land (b2z b) 0x7f) (i * 7))) = acc + d * 2 ^ (7 * i)
  /\ 0 <= acc + d * 2 ^ (7 * i) < 2 ^ (7 * (i + 1)).
Proof.
  intros Hi Ha d. destruct (leb_digit b) as [-> _]. fold d.
  assert (0 <= d < 128) as Hd.
  { unfold d. pose proof (b2z_range b). destruct (Z.ltb_spec (b2z b) 128); lia. }
  replace (7 * (i + 1)) with (7 * i + 7) by lia. rewrite Z.pow_add_r by lia. change (2 ^ 7) with 128.
  assert (0 < 2 ^ (7 * i)) by (apply Z.pow_pos_nonneg; lia).
  split; [|nia]. rewrite (Z.mul_comm i 7). unfold wrap. rewrite Z.mod_small; [by apply lor_digit; lia|].
  rewrite Z.shiftl_mul_pow2 by lia.
  assert (2 ^ (7 * i) <= 2 ^ 49) by (apply Z.pow_le_mono_r; lia). nia.
Qed.

Lemma leb_spec_bound n : forall bs v rest, leb_spec n bs = Some (v, rest) ->
  0 <= v < 2 ^ (7 * Z.of_nat n).
Proof.
  induction n as [|n IH]; intros [|b bs] v rest H; simpl in H; simplify_eq; [lia..|].
  rewrite Nat2Z.inj_succ. replace (7 * Z.succ (Z.of_nat n)) with (7 * Z.of_nat n + 7) by lia.
  rewrite Z.pow_add_r by lia. change (2 ^ 7) with 128.
  assert (0 < 2 ^ (7 * Z.of_nat n)) by (apply Z.pow_pos_nonneg; lia).
  pose proof (b2z_range b).
  destruct (Z.ltb_spec (b2z b) 128) as [Hb|Hb]; [simplify_eq; nia|].
  destruct (leb_spec n bs) as [[v' rest']|] eqn:E; simplify_eq.
  specialize (IH _ _ _ E). nia.
Qed.

Lemma leb_spec_split n : forall bs v rest, leb_spec n bs = Some (v, rest) ->
  exists used, bs = used ++ rest /\ leb_spec n used = Some (v, []).
Proof.
  induction n as [|n IH]; intros bs v rest H; [simpl in H; simplify_eq; by exists []|].
  destruct bs as [|b bs]; [done|]. simpl in H.
  destruct (b2z b <? 128) eqn:Hb; [simplify_eq; exists [b]; simpl; by rewrite Hb|].
  destruct (leb_spec n bs) as [[v' rest']|] eqn:E; simplify_eq.
  destruct (IH _ _ _ E) as (used & -> & Hu). exists (b :: used). simpl. by rewrite Hb, Hu.
Qed.

Lemma leb128_loop_reads n : forall i acc bs v, leb_spec n bs = Some (v, []) ->
  0 <= i -> i + Z.of_nat n <= 8 -> 0 <= acc < 2 ^ (7 * i) ->
  reads (leb128_loop n i acc) (bytes_bits bs) (acc + v * 2 ^ (7 * i)).
Proof.
  induction n as [|n IH]; intros i acc bs v Hs Hi Hn Hacc.
  { simpl in Hs. simplify_eq. rewrite Z.mul_0_l, Z.add_0_r. apply reads_ret. }
  destruct bs as [|b bs]; [done|]. simpl in Hs. rewrite bytes_bits_cons. cbn [leb128_loop].
  eapply reads_bind; [apply (reads_bits _ 8 8); [done|lia|apply b2z_fits]|]. cbv zeta.
  destruct (leb_step acc b i ltac:(lia) Hacc) as [-> Hb]. destruct (leb_digit b) as [_ ->].
  destruct (b2z b <? 128) eqn:Hlt; [simplify_eq; apply reads_ret|].
  destruct (leb_spec n bs) as [[v' rest']|] eqn:E; simplify_eq.
  eapply eq_rect; [eapply (IH (i + 1)); [done|lia|lia|exact Hb]|].
  replace (7 * (i + 1)) with (7 * i + 7) by lia. rewrite Z.pow_add_r by lia. change (2 ^ 7) with 128. lia.
Qed.

Lemma leb128_reads bs v : leb_spec 8 bs = Some (v, []) -> reads read_leb128 (bytes_bits bs) v.
Proof.
  intros Hs. pose proof (leb128_loop_reads 8 0 0 bs v Hs) as H. rewrite Z.mul_1_r in H. apply H; lia.
Qed.

Lemma leb128_loop_eof n : forall i acc bs tail r, leb_spec n bs = None -> (length tail < 8)%nat ->
  BitReader.wf r -> BitReader.bits r = bytes_bits bs ++ tail ->
  fst (leb128_loop n i acc r) = Err UnexpectedEof.
Proof.
  induction n as [|n IH]; intros i acc bs tail r Hs Ht Hr Hb; [done|]. cbn [leb128_loop].
  destruct bs as [|b bs].
  - destruct (BitReader.read_bits_loop_eof 8 0 r Hr) as (r' & H & _); [by rewrite Hb|].
    by erewrite bind_err; [|exact H].
  - rewrite bytes_bits_cons, <-(assoc_L (++)) in Hb.
    destruct (BitReader.read_bits_app r 8 (byte_bits b) (bytes_bits bs ++ tail) Hr Hb) as (r1 & H1 & Hb1 & Hr1);
      [done|done|].
    erewrite bind_ok; [|exact H1]. cbv zeta.
    assert (bits_val (byte_bits b) = b2z b) as -> by (apply (bits_val_val_bits_small 8), b2z_fits).
    destruct (leb_digit b) as [_ ->]. simpl in Hs.
    destruct (b2z b <? 128); [done|]. destruct (leb_spec n bs) as [[v' rest']|] eqn:E; [done|].
    by eapply IH.
Qed.

(** Counting the zeros of a [uvlc] code. *)
Lemma uvlc_zeros_outcome k : forall lz r ys, BitReader.wf r ->
  BitReader.bits r = replicate k false ++ ys -> ys = [] \/ (exists zs, ys = true :: zs) ->
  0 <= lz < 256 ->
  let o := uvlc_zeros (256 - Z.to_nat lz) lz r in
  if decide (256 <= lz + Z.of_nat k) then fst o = Panic
  else match ys with
       | [] => fst o = Err UnexpectedEof
       | _ :: zs => exists r', o = (Ok (lz + Z.of_nat k), r') /\ BitReader.bits r' = zs /\ BitReader.wf r'
       end.
Proof.
  induction k as [|k IH]; intros lz r ys Hr Hb Hys Hlz; cbv zeta;
    (destruct (256 - Z.to_nat lz)%nat as [|fuel] eqn:Hf; [lia|]); cbn [uvlc_zeros].
  - rewrite decide_False by lia. destruct Hys as [->|[zs ->]]; simpl in Hb.
    + destruct (BitReader.read_bit_nil r Hr Hb) as (r1 & H1 & _). by erewrite bind_err; [|exact H1].
    + destruct (BitReader.read_bit_cons r true zs Hr Hb) as (r1 & H1 & Hb1 & Hr1).
      exists r1. erewrite bind_ok; [|exact H1]. by rewrite Z.add_0_r.
  - destruct (BitReader.read_bit_cons r false _ Hr Hb) as (r1 & H1 & Hb1 & Hr1).
    erewrite bind_ok; [|exact H1]. cbv iota.
    destruct (decide (lz = 255)) as [->|Hne].
    { rewrite decide_True by lia. by erewrite bind_panic; [|apply checked_u_panic; unfold fits; lia]. }
    erewrite bind_ok; [|apply checked_u_ok; unfold fits; lia].
    specialize (IH (lz + 1) r1 ys Hr1 Hb1 Hys ltac:(lia)). cbv zeta in IH.
    replace (256 - Z.to_nat (lz + 1))%nat with fuel in IH by lia.
    replace (lz + 1 + Z.of_nat k) with (lz + Z.of_nat (S k)) in IH by lia. exact IH.
Qed.

Lemma read_uvlc_outcome r : BitReader.wf r -> fst (read_uvlc r) = uvlc_spec (BitReader.bits r).
Proof.
  intros Hr. destruct (ExpGolomb.leading_split (BitReader.bits r)) as [Hb Hd]. unfold uvlc_spec.
  set (k := ExpGolomb.leading (BitReader.bits r)) in *.
  pose proof (uvlc_zeros_outcome k 0 r _ Hr Hb Hd ltac:(lia)) as Ho. cbv zeta in Ho.
  change (256 - Z.to_nat 0)%nat with 256%nat in Ho. unfold read_uvlc.
  case_decide as Hk.
  { rewrite (proj2 (Nat.leb_le _ _)) by lia. unfold bind.
    by destruct (uvlc_zeros 256 0 r) as [[]]; simpl in Ho; simplify_eq. }
  rewrite (proj2 (Nat.leb_gt _ _)) by lia. destruct Hd as [Hd|[zs Hd]]; rewrite Hd in Ho |- *.
  { unfold bind. by destruct (uvlc_zeros 256 0 r) as [[]]; simpl in Ho; simplify_eq. }
  destruct Ho as (r1 & H1 & Hb1 & Hr1). erewrite bind_ok; [|exact H1]. rewrite Z.add_0_l.
  destruct (Nat.leb_spec 32 k) as [H32|H32].
  { by rewrite (proj2 (Z.leb_le _ _)) by lia. }
  rewrite (proj2 (Z.leb_gt _ _)) by lia. unfold BitReader.read_bits.
  rewrite Z.min_l, Nat2Z.id by lia. destruct (Nat.ltb_spec (length zs) k) as [Hl|Hl].
  { destruct (BitReader.read_bits_loop_eof k 0 r1 Hr1) as (r2 & H2 & _); [by rewrite Hb1|].
    by erewrite bind_err; [|exact H2]. }
  destruct (BitReader.read_bits_app r1 (Z.of_nat k) (take k zs) (drop k zs) Hr1) as (r2 & H2 & _);
    [by rewrite take_drop|rewrite length_take; lia|lia|].
  unfold BitReader.read_bits in H2. rewrite Z.min_l, Nat2Z.id in H2 by lia.
  erewrite bind_ok; [|exact H2]. rewrite Z.shiftl_1_l.
  pose proof (bits_val_range (take k zs)) as Hv. unfold blen in Hv. rewrite length_take, Nat.min_l in Hv by lia.
  assert (2 ^ Z.of_nat k <= 2 ^ 31) by (apply Z.pow_le_mono_r; lia).
  do 1 (erewrite bind_ok; [|apply checked_u_ok; unfold fits; lia]).
  rewrite checked_u_ok by (unfold fits; lia). simpl. f_equal. lia.
Qed.

Lemma keeps_uvlc_zeros fuel : forall lz, keeps (uvlc_zeros fuel lz).
Proof.
  induction fuel as [|fuel IH]; intros lz; [by apply keeps_pure|].
  apply keeps_buffer_bind; [apply keeps_read_bit|]. intros [|]; [apply keeps_buffer_ret|].
  apply keeps_buffer_bind; [apply keeps_checked_u|]. intros z. apply IH.
Qed.

Lemma keeps_read_uvlc : keeps read_uvlc.
Proof.
  apply keeps_buffer_bind; [apply keeps_uvlc_zeros|]. intros z.
  destruct (32 <=? z); [apply keeps_buffer_ret|].
  apply keeps_buffer_bind; [apply keeps_read_bits_loop|]. intros v.
  apply keeps_buffer_bind; [apply keeps_checked_u|]. intros. apply keeps_checked_u.
Qed.

(** Below its largest value a [uvlc] code is an Exp-Golomb code. *)
Lemma uvlc_reads P n : 0 <= n < 2 ^ 32 - 1 -> reads_on P read_uvlc (ExpGolomb.code n) n.
Proof.
  intros Hn. apply reads_keeps; [apply keeps_read_uvlc|]. intros r ys Hr Hb.
  destruct (ExpGolomb.prefix_bounds n ltac:(lia)) as [_ Hp].
  rewrite ExpGolomb.code_cons in Hb by lia. set (k := ExpGolomb.prefix n) in *.
  assert (k < 32)%nat as Hk.
  { destruct (Nat.lt_ge_cases k 32) as [|Hge]; [done|].
    assert (2 ^ 32 <= 2 ^ Z.of_nat k) by (apply Z.pow_le_mono_r; lia). lia. }
  rewrite <-(assoc_L (++)) in Hb. cbn [app] in Hb.
  pose proof (uvlc_zeros_outcome k 0 r _ Hr Hb ltac:(eauto) ltac:(lia)) as Ho. cbv zeta in Ho.
  rewrite decide_False in Ho by lia. destruct Ho as (r1 & H1 & Hb1 & Hr1). unfold read_uvlc.
  erewrite bind_ok; [|exact H1]. rewrite Z.add_0_l, (proj2 (Z.leb_gt _ _)) by lia.
  destruct (BitReader.read_bits_app r1 (Z.of_nat k) (val_bits k (n + 1)) ys Hr1 Hb1)
    as (r2 & H2 & Hb2 & Hr2); [by rewrite length_val_bits|lia|].
  erewrite bind_ok; [|exact H2]. rewrite Z.shiftl_1_l, bits_val_val_bits by lia.
  rewrite Nat2Z.inj_succ, Z.pow_succ_r in Hp by lia.
  assert ((n + 1) `mod` 2 ^ Z.of_nat k = n + 1 - 2 ^ Z.of_nat k) as ->.
  { symmetry. apply (Z.mod_unique _ _ 1); lia. }
  erewrite bind_ok; [|apply checked_u_ok; unfold fits; lia].
  exists r2. rewrite checked_u_ok by (unfold fits; lia). split; [|done]. do 2 f_equal. lia.
Qed.

(** The variable-length integers of AV1 on every bit string. [read_leb128]
    takes at most eight bytes, returns the base-128 number they spell, which is
    below 2^56, and fails exactly when the bytes end first; [read_uvlc] returns
    at most 2^32 - 1, fails at the end of the data, and panics when 256 zeros
    come first, because it counts them in a [u8]. *)
Theorem av1_varint_bounds (r : BitReader.t Cursor) (bs : list byte) (tail : list bool)
    (Hr : ready r) (Hb : BitReader.bits r = bytes_bits bs ++ tail) (Ht : (length tail < 8)%nat) :
  match leb_spec 8 bs with
  | Some (v, rest) => 0 <= v < 2 ^ 56 /\
      exists r', read_leb128 r = (Ok v, r') /\ BitReader.bits r' = bytes_bits rest ++ tail
  | None => fst (read_leb128 r) = Err UnexpectedEof
  end /\
  fst (read_uvlc r) = uvlc_spec (BitReader.bits r) /\
  match uvlc_spec (BitReader.bits r) with
  | Ok v => 0 <= v < 2 ^ 32
  | Err e => e = UnexpectedEof
  | Panic => (256 <= ExpGolomb.leading (BitReader.bits r))%nat
  | Fuel => False
  end.
Proof.
  pose proof (proj1 (proj1 Hr)) as Hwf. split; [|split; [by apply read_uvlc_outcome|]].
  - destruct (leb_spec 8 bs) as [[v rest]|] eqn:Hs; [|by eapply leb128_loop_eof].
    split; [by apply (leb_spec_bound 8 bs v rest)|].
    destruct (leb_spec_split 8 bs v rest Hs) as (used & -> & Hu).
    rewrite bytes_bits_app, <-(assoc_L (++)) in Hb.
    destruct (leb128_reads used v Hu r _ I Hr Hb) as (r' & H1 & Hb1 & _). eauto.
  - unfold uvlc_spec. set (k := ExpGolomb.leading _). destruct (Nat.leb_spec 256 k); [done|].
    destruct (drop k _) as [|? digits]; [done|]. destruct (Nat.leb_spec 32 k); [lia|].
    destruct (Nat.ltb_spec (length digits) k); [done|].
    pose proof (bits_val_range (take k digits)) as Hv. unfold blen in Hv.
    rewrite length_take, Nat.min_l in Hv by lia.
    assert (0 < 2 ^ Z.of_nat k <= 2 ^ 31) by (split; [apply Z.pow_pos_nonneg; lia|apply Z.pow_le_mono_r; lia]).
    lia.
Qed.

(** The largest eight-byte number, and 256 zero bits. *)
Lemma av1_varint_bounds_witness :
  (exists r', read_leb128 (BitReader.new_from_slice (repeat xff 9)) = (Ok (2 ^ 56 - 1), r')
    /\ BitReader.bits r' = bytes_bits [xff])
  /\ fst (read_uvlc (BitReader.new_from_slice (repeat x00 32))) = Panic
  /\ fst (read_uvlc (BitReader.new_from_slice (repeat x00 31 ++ [x01]))) = Ok (2 ^ 32 - 1).
Proof.
  assert (forall bs, blen bs < 100 -> ready (BitReader.new_from_slice bs)) as Hr
    by (intros bs Hl; apply (ready_new []); cbn [app]; lia).
  assert (forall bs, BitReader.bits (BitReader.new_from_slice bs) = bytes_bits bs ++ []) as Hb
    by (intros bs; rewrite app_nil_r; apply BitReader.bits_new_from_slice).
  pose proof (av1_varint_bounds (BitReader.new_from_slice (repeat xff 9)) (repeat xff 9) []
    (Hr (repeat xff 9) eq_refl) (Hb _) ltac:(simpl; lia)) as [H1 _].
  pose proof (av1_varint_bounds (BitReader.new_from_slice (repeat x00 32)) (repeat x00 32) []
    (Hr (repeat x00 32) eq_refl) (Hb _) ltac:(simpl; lia)) as (_ & H2 & _).
  pose proof (av1_varint_bounds (BitReader.new_from_slice (repeat x00 31 ++ [x01])) (repeat x00 31 ++ [x01]) []
    (Hr (repeat x00 31 ++ [x01]) eq_refl) (Hb _) ltac:(simpl; lia)) as (_ & H3 & _).
  split; [|split].
  - destruct H1 as (_ & r' & H1 & H4). exists r'. split; [exact H1|exact H4].
  - rewrite H2. vm_compute. reflexivity.
  - rewrite H3. vm_compute. reflexivity.
Defined.

(** ** The syntax of a sequence header (AV1 specification, 5.3 and 5.5) *)

Record HeaderSyntax := mkHeaderSyntax {
  h_type : Z;
  h_reserved : bool;
  h_extension : option (Z * Z * Z);
  h_size : option (list byte);
}.

Record TimingSyntax := mkTimingSyntax {
  t_units : Z;
  t_scale : Z;
  t_ticks_minus1 : option Z;
}.

Record ModelSyntax := mkModelSyntax {
  m_delay_minus1 : Z;
  m_tick : Z;
  m_removal_minus1 : Z;
  m_presentation_minus1 : Z;
}.

Record OpSyntax := mkOpSyntax {
  o_idc : Z;
  o_level : Z;
  o_tier : bool;
  o_params : option (Z * Z * bool);
  o_delay_minus1 : option Z;
}.

(** [None] for the screen content tools and the motion vectors leaves the
    choice to each frame. *)
Record ToolSyntax := mkToolSyntax {
  l_interintra : bool;
  l_masked : bool;
  l_warped : bool;
  l_dual : bool;
  l_order : option (bool * bool * Z);
  l_screen : option bool;
  l_mv : option bool;
}.

Inductive ModeSyntax :=
| ReducedStill (level : Z)
| Full (still : bool) (timing : option (TimingSyntax * option ModelSyntax)) (delays : bool)
    (ops : list OpSyntax) (ids : option (Z * Z)) (tools : ToolSyntax).

Record ColorSyntax := mkColorSyntax {
  c_high : bool;
  c_twelve : bool;
  c_mono : bool;
  c_description : option (Z * Z * Z);
  c_range : bool;
  c_sub_x : bool;
  c_sub_y : bool;
  c_position : Z;
  c_separate : bool;
}.

Record SeqSyntax := mkSeqSyntax {
  q_profile : Z;
  q_mode : ModeSyntax;
  q_width_bits_minus1 : Z;
  q_height_bits_minus1 : Z;
  q_width_minus1 : Z;
  q_height_minus1 : Z;
  q_128x128 : bool;
  q_filter_intra : bool;
  q_intra_edge : bool;
  q_superres : bool;
  q_cdef : bool;
  q_restoration : bool;
  q_color : ColorSyntax;
  q_film_grain : bool;
}.

(** *** Bit layout *)

Definition is_some {A} (o : option A) : bool := match o with Some _ => true | None => false end.

(** [f(n)] with [n] a number of the syntax. *)
Definition f (n v : Z) : list bool := val_bits (Z.to_nat n) v.

Definition header_layout (h : HeaderSyntax) : list bool :=
  [false] ++ f 4 (h_type h) ++ [is_some (h_extension h)] ++ [is_some (h_size h)] ++ [h_reserved h] ++
  match h_extension h with Some (t, s, r) => f 3 t ++ f 2 s ++ f 3 r | None => [] end ++
  match h_size h with Some leb => bytes_bits leb | None => [] end.

Definition timing_layout (t : TimingSyntax) : list bool :=
  u 4 (t_units t) ++ u 4 (t_scale t) ++ flagged ue (t_ticks_minus1 t).

Definition model_layout (m : ModelSyntax) : list bool :=
  f 5 (m_delay_minus1 m) ++ u 4 (m_tick m) ++ f 5 (m_removal_minus1 m) ++ f 5 (m_presentation_minus1 m).

Definition op_layout (model : option ModelSyntax) (delays : bool) (o : OpSyntax) : list bool :=
  f 12 (o_idc o) ++ f 5 (o_level o) ++ (if 7 <? o_level o then [o_tier o] else []) ++
  match model with
  | Some m =>
      flagged (fun '(d, e, low) => f (m_delay_minus1 m + 1) d ++ f (m_delay_minus1 m + 1) e ++ [low]) (o_params o)
  | None => []
  end ++
  (if delays then flagged (f 4) (o_delay_minus1 o) else []).

Definition tools_layout (l : ToolSyntax) : list bool :=
  [l_interintra l] ++ [l_masked l] ++ [l_warped l] ++ [l_dual l] ++ [is_some (l_order l)] ++
  match l_order l with Some (jnt, mvs, _) => [jnt] ++ [mvs] | None => [] end ++
  match l_screen l with Some force => [false] ++ [force] | None => [true] end ++
  match l_screen l with
  | Some false => []
  | _ => match l_mv l with Some force => [false] ++ [force] | None => [true] end
  end ++
  match l_order l with Some (_, _, bits_minus1) => f 3 bits_minus1 | None => [] end.

Definition model_of (timing : option (TimingSyntax * option ModelSyntax)) : option ModelSyntax :=
  match timing with Some (_, m) => m | None => None end.

Definition mode_layout (m : ModeSyntax) : list bool :=
  match m with
  | ReducedStill level => f 5 level
  | Full _ timing delays ops _ _ =>
      flagged (fun '(t, m) => timing_layout t ++ flagged model_layout m) timing ++ [delays] ++
      f 5 (blen ops - 1) ++ (ops ≫= op_layout (model_of timing) delays)
  end.

Definition is_still (m : ModeSyntax) : bool :=
  match m with ReducedStill _ => true | Full still _ _ _ _ _ => still end.
Definition is_reduced (m : ModeSyntax) : bool := match m with ReducedStill _ => true | _ => false end.

Definition depth_of (profile : Z) (c : ColorSyntax) : Z :=
  if c_high c then if (profile =? 2) && c_twelve c then 12 else 10 else 8.
Definition mono_of (profile : Z) (c : ColorSyntax) : bool := negb (profile =? 1) && c_mono c.
Definition description_of (c : ColorSyntax) : Z * Z * Z := default (2, 2, 2) (c_description c).

(** BT.709 primaries, sRGB transfer and identity matrix. *)
Definition is_srgb (c : ColorSyntax) : bool := bool_decide (description_of c = (1, 13, 0)).

Definition subsampling_of (profile : Z) (c : ColorSyntax) : bool * bool :=
  if is_srgb c then (false, false)
  else if profile =? 0 then (true, true)
  else if profile =? 1 then (false, false)
  else if depth_of profile c =? 12 then (c_sub_x c, c_sub_x c && c_sub_y c)
  else (true, false).

Definition range_layout (profile : Z) (c : ColorSyntax) : list bool :=
  if is_srgb c then []
  else [c_range c] ++
    if profile =? 0 then [] else if profile =? 1 then []
    else if depth_of profile c =? 12 then [c_sub_x c] ++ (if c_sub_x c then [c_sub_y c] else [])
    else [].

Definition color_layout (profile : Z) (c : ColorSyntax) : list bool :=
  [c_high c] ++ (if (profile =? 2) && c_high c then [c_twelve c] else []) ++
  (if profile =? 1 then [] else [c_mono c]) ++
  flagged (fun '(cp, tc, mc) => f 8 cp ++ f 8 tc ++ f 8 mc) (c_description c) ++
  if mono_of profile c then [c_range c]
  else
    range_layout profile c ++
    (if (subsampling_of profile c).1 && (subsampling_of profile c).2 then f 2 (c_position c) else []) ++
    [c_separate c].

Definition seq_layout (s : SeqSyntax) : list bool :=
  f 3 (q_profile s) ++ [is_still (q_mode s)] ++ [is_reduced (q_mode s)] ++ mode_layout (q_mode s) ++
  f 4 (q_width_bits_minus1 s) ++ f 4 (q_height_bits_minus1 s) ++
  f (q_width_bits_minus1 s + 1) (q_width_minus1 s) ++ f (q_height_bits_minus1 s + 1) (q_height_minus1 s) ++
  match q_mode s with
  | Full _ _ _ _ ids _ => flagged (fun '(d, a) => f 4 d ++ f 3 a) ids
  | ReducedStill _ => []
  end ++
  [q_128x128 s] ++ [q_filter_intra s] ++ [q_intra_edge s] ++
  match q_mode s with Full _ _ _ _ _ tools => tools_layout tools | ReducedStill _ => [] end ++
  [q_superres s] ++ [q_cdef s] ++ [q_restoration s] ++
  color_layout (q_profile s) (q_color s) ++ [q_film_grain s].

(** *** Ranges *)

Definition header_ok (h : HeaderSyntax) : Prop :=
  fits 4 (h_type h) /\
  match h_extension h with Some (t, s, r) => fits 3 t /\ fits 2 s /\ fits 3 r | None => True end /\
  match h_size h with
  | Some leb => match leb_spec 8 leb with Some (_, []) => True | _ => False end
  | None => True
  end.

Definition timing_ok (t : TimingSyntax) : Prop :=
  fits 32 (t_units t) /\ fits 32 (t_scale t) /\
  match t_ticks_minus1 t with Some n => 0 <= n < 2 ^ 32 - 1 | None => True end.

Definition model_ok (m : ModelSyntax) : Prop :=
  fits 5 (m_delay_minus1 m) /\ fits 32 (m_tick m) /\ fits 5 (m_removal_minus1 m) /\
  fits 5 (m_presentation_minus1 m).

Definition op_ok (model : option ModelSyntax) (o : OpSyntax) : Prop :=
  fits 12 (o_idc o) /\ fits 5 (o_level o) /\
  match model, o_params o with
  | Some m, Some (d, e, _) => fits (m_delay_minus1 m + 1) d /\ fits (m_delay_minus1 m + 1) e
  | _, _ => True
  end /\
  match o_delay_minus1 o with Some d => fits 4 d | None => True end.

Definition mode_ok (m : ModeSyntax) : Prop :=
  match m with
  | ReducedStill level => fits 5 level
  | Full _ timing _ ops ids tools =>
      match timing with
      | Some (t, m) => timing_ok t /\ match m with Some m => model_ok m | None => True end
      | None => True
      end /\
      1 <= blen ops <= 32 /\ Forall (op_ok (model_of timing)) ops /\
      match ids with Some (d, a) => fits 4 d /\ fits 3 a | None => True end /\
      match l_order tools with Some (_, _, b) => fits 3 b | None => True end
  end.

Definition color_ok (c : ColorSyntax) : Prop :=
  match c_description c with Some (cp, tc, mc) => fits 8 cp /\ fits 8 tc /\ fits 8 mc | None => True end /\
  fits 2 (c_position c).

Definition seq_ok (s : SeqSyntax) : Prop :=
  fits 3 (q_profile s) /\ mode_ok (q_mode s) /\
  fits 4 (q_width_bits_minus1 s) /\ fits 4 (q_height_bits_minus1 s) /\
  fits (q_width_bits_minus1 s + 1) (q_width_minus1 s) /\
  fits (q_height_bits_minus1 s + 1) (q_height_minus1 s) /\
  color_ok (q_color s).

(** *** What the syntax denotes *)

Definition header_of (h : HeaderSyntax) : ObuHeader :=
  mkObuHeader (ObuType_from_u8 (h_type h))
    (match h_size h with Some leb => Some (match leb_spec 8 leb with Some (v, _) => v | None => 0 end) | None => None end)
    (match h_extension h with Some (t, s, _) => Some (mkObuExt t s) | None => None end).

Definition timing_of (t : TimingSyntax) : TimingInfo :=
  mkTimingInfo (t_units t) (t_scale t) ((fun n => n + 1) <$> t_ticks_minus1 t).

Definition decoder_model_of (m : ModelSyntax) : DecoderModelInfo :=
  mkDecoderModel (m_delay_minus1 m + 1) (m_tick m) (m_removal_minus1 m + 1) (m_presentation_minus1 m + 1).

Definition op_of (model : option ModelSyntax) (delays : bool) (o : OpSyntax) : OperatingPoint :=
  mkOperatingPoint (o_idc o) (o_level o) ((7 <? o_level o) && o_tier o)
    (match model with
     | Some _ => (fun '(d, e, low) => mkOperatingParameters d e low) <$> o_params o
     | None => None
     end)
    (if delays then (fun n => n + 1) <$> o_delay_minus1 o else None).

Definition mode_of (m : ModeSyntax) : option TimingInfo * option DecoderModelInfo * list OperatingPoint :=
  match m with
  | ReducedStill level => (None, None, [mkOperatingPoint 0 level false None None])
  | Full _ timing delays ops _ _ =>
      ((fun '(t, _) => timing_of t) <$> timing, decoder_model_of <$> model_of timing,
       op_of (model_of timing) delays <$> ops)
  end.

Definition ids_of (m : ModeSyntax) : option FrameIds :=
  match m with
  | Full _ _ _ _ (Some (d, a)) _ => Some (mkFrameIds (d + 2) (a + 1))
  | _ => None
  end.

(** [SELECT_SCREEN_CONTENT_TOOLS] and [SELECT_INTEGER_MV] are 2. *)
Definition force_of (o : option bool) : Z := match o with Some b => Z.b2z b | None => 2 end.

Definition tools_of (m : ModeSyntax) : bool * bool * bool * bool * bool * bool * bool * Z * Z * Z :=
  match m with
  | ReducedStill _ => (false, false, false, false, false, false, false, 2, 2, 0)
  | Full _ _ _ _ _ l =>
      (l_interintra l, l_masked l, l_warped l, l_dual l, is_some (l_order l),
       match l_order l with Some (jnt, _, _) => jnt | None => false end,
       match l_order l with Some (_, mvs, _) => mvs | None => false end,
       force_of (l_screen l),
       match l_screen l with Some false => 2 | _ => force_of (l_mv l) end,
       match l_order l with Some (_, _, b) => b + 1 | None => 0 end)
  end.

Definition color_of (profile : Z) (c : ColorSyntax) : ColorConfig :=
  let '(cp, tc, mc) := description_of c in
  if mono_of profile c
  then mkColorConfig (depth_of profile c) true 1 cp tc mc (c_range c) true true 0 false
  else
    let '(sx, sy) := subsampling_of profile c in
    mkColorConfig (depth_of profile c) false 3 cp tc mc (is_srgb c || c_range c) sx sy
      (if sx && sy then c_position c else 0) (c_separate c).

Definition sequence_of (h : ObuHeader) (s : SeqSyntax) : SequenceHeaderObu :=
  let '(timing, model, ops) := mode_of (q_mode s) in
  let '(interintra, masked, warped, dual, order, jnt, mvs, screen, mv, order_bits) := tools_of (q_mode s) in
  mkSequenceHeader h (q_profile s) (is_still (q_mode s)) (is_reduced (q_mode s)) timing model ops
    (q_width_minus1 s + 1) (q_height_minus1 s + 1) (ids_of (q_mode s))
    (q_128x128 s) (q_filter_intra s) (q_intra_edge s) interintra masked warped dual order jnt mvs
    screen mv order_bits (q_superres s) (q_cdef s) (q_restoration s)
    (color_of (q_profile s) (q_color s)) (q_film_grain s).

(** ** The parsers follow the layouts *)

Lemma reads_f P n v : 0 <= n <= 64 -> fits n v -> reads_on P (BitReader.read_bits n) (f n v) v.
Proof. intros Hn Hv. apply reads_bits; [lia|lia|done]. Qed.

Lemma reads_u8_plus P n k v : 0 <= n <= 6 -> 0 <= k <= 2 -> fits n v ->
  reads_on P (read_u8_plus n k) (f n v) (v + k).
Proof.
  intros Hn Hk Hv. unfold read_u8_plus. assert (0 <= v < 64) as Hv6.
  { unfold fits in Hv. assert (2 ^ n <= 2 ^ 6) by (apply Z.pow_le_mono_r; lia). lia. }
  eapply reads_last; [apply reads_f; [lia|done]|]. cbv beta. rewrite wrap_fits by (unfold fits; lia).
  apply reads_checked_u. unfold fits. lia.
Qed.

(** A flag read as a number. *)
Lemma reads_flag P (b : bool) : reads_on P (BitReader.read_bits 1) [b] (Z.b2z b).
Proof. destruct b; [apply (reads_bits P 1 1 1)|apply (reads_bits P 1 1 0)]; (done || lia). Qed.

Lemma reads_force P (b : bool) :
  reads_on P (let* v := BitReader.read_bits 1 in ret (wrap 8 v)) [b] (Z.b2z b).
Proof.
  eapply reads_last; [apply reads_flag|]. cbv beta. rewrite wrap_fits by (by destruct b). apply reads_ret.
Qed.

Ltac fcmd :=
  first [ apply reads_f; [lia | fits_tac] | apply reads_u8_plus; [lia | lia | fits_tac]
        | apply reads_flag | rcmd ].
Ltac fstep := eapply reads_bind; [fcmd|]; cbv beta zeta iota; wrapped.
Ltac flast := eapply reads_last; [fcmd|]; cbv beta zeta iota; wrapped.
Ltac frest L := eapply reads_bind; [apply L|]; cbv beta zeta iota.

Lemma header_bits_reads h : header_ok h ->
  reads_on whole_bytes ObuHeader_bits (header_layout h) (header_of h).
Proof.
  intros (Ht & He & Hs). unfold ObuHeader_bits, header_layout, header_of.
  do 5 fstep. eapply (reads_bind _ _ _ _ _ (match h_extension h with Some (t, s, _) => Some (mkObuExt t s) | None => None end)).
  { destruct (h_extension h) as [[[t s] r]|]; [|apply reads_ret]. cbn [is_some].
    destruct He as (H1 & H2 & H3). do 2 fstep. flast. apply reads_ret. }
  cbv beta. eapply reads_last; [|apply reads_aligned; apply reads_ret].
  destruct (h_size h) as [leb|]; [|apply reads_ret]. cbn [is_some].
  destruct (leb_spec 8 leb) as [[v [|]]|] eqn:Hl; try done.
  eapply reads_last; [by apply leb128_reads|]. apply reads_ret.
Qed.

Section layouts.
Context `{BO : ByteOrder}.

Lemma timing_reads t : timing_ok t -> reads TimingInfo_parse (timing_layout t) (timing_of t).
Proof.
  intros (H1 & H2 & H3). unfold TimingInfo_parse, timing_layout, timing_of, u.
  do 2 fstep. destruct (t_ticks_minus1 t) as [n|]; cbn [flagged].
  - fstep. eapply reads_last; [|apply reads_ret].
    eapply reads_last; [by apply uvlc_reads|]. cbv beta. rpure. apply reads_ret.
  - flast. rpure. apply reads_ret.
Qed.

Lemma model_reads m : model_ok m -> reads DecoderModelInfo_parse (model_layout m) (decoder_model_of m).
Proof.
  intros (H1 & H2 & H3 & H4). unfold DecoderModelInfo_parse, model_layout, u.
  do 3 fstep. flast. apply reads_ret.
Qed.

Lemma parameters_reads n d e low : 0 <= n <= 64 -> fits n d -> fits n e ->
  reads (OperatingParametersInfo_parse n) (f n d ++ f n e ++ [low]) (mkOperatingParameters d e low).
Proof. intros Hn Hd He. unfold OperatingParametersInfo_parse. do 2 fstep. flast. apply reads_ret. Qed.

Lemma parameters_of_reads model o : match model with Some m => model_ok m | None => True end -> op_ok model o ->
  reads (operating_parameters (decoder_model_of <$> model))
    (match model with
     | Some m =>
         flagged (fun '(d, e, low) => f (m_delay_minus1 m + 1) d ++ f (m_delay_minus1 m + 1) e ++ [low]) (o_params o)
     | None => []
     end)
    (operating_parameters_info (op_of model true o)).
Proof.
  intros Hm (_ & _ & H3 & _). unfold operating_parameters. destruct model as [m|]; [|rpure; apply reads_ret].
  destruct Hm as (Hd & _). simpl. destruct (o_params o) as [[[d e] low]|]; cbn [flagged].
  - eapply reads_bind; [eapply reads_last; [apply reads_bit|apply reads_ret]|]. cbv beta iota.
    eapply reads_last; [apply parameters_reads; [unfold fits in Hd; lia|apply H3..]|]. apply reads_ret.
  - eapply reads_last; [eapply reads_last; [apply reads_bit|apply reads_ret]|]. apply reads_ret.
Qed.

Lemma op_reads model delays o : match model with Some m => model_ok m | None => True end -> op_ok model o ->
  reads (operating_point (decoder_model_of <$> model) delays) (op_layout model delays o) (op_of model delays o).
Proof.
  intros Hm Ho. pose proof (parameters_of_reads model o Hm Ho) as Hp. destruct Ho as (H1 & H2 & _ & H4).
  unfold operating_point, op_layout. do 2 fstep.
  eapply (reads_bind _ _ _ _ _ ((7 <? o_level o) && o_tier o)).
  { destruct (7 <? o_level o); [apply reads_bit|apply reads_ret]. }
  cbv beta. eapply reads_bind; [exact Hp|]. cbv beta.
  eapply (reads_last _ _ _ _ (initial_display_delay (op_of model delays o))); [|apply reads_ret].
  destruct delays; [|apply reads_ret]. cbn. destruct (o_delay_minus1 o) as [d|]; cbn [flagged].
  - fstep. flast. apply reads_ret.
  - flast. apply reads_ret.
Qed.

Lemma ops_reads model delays ops : match model with Some m => model_ok m | None => True end ->
  Forall (op_ok model) ops ->
  reads (operating_points_loop (length ops) (decoder_model_of <$> model) delays)
    (ops ≫= op_layout model delays) (op_of model delays <$> ops).
Proof.
  intros Hm. induction 1 as [|o ops Ho _ IH]; [apply reads_ret|]. cbn [length operating_points_loop].
  change ((o :: ops) ≫= ?g) with (g o ++ (ops ≫= g)).
  eapply reads_bind; [by apply op_reads|]. eapply reads_last; [exact IH|]. apply reads_ret.
Qed.

Lemma parse_timing_reads timing :
  match timing with
  | Some (t, m) => timing_ok t /\ match m with Some m => model_ok m | None => True end
  | None => True
  end ->
  reads parse_timing (flagged (fun '(t, m) => timing_layout t ++ flagged model_layout m) timing)
    ((fun '(t, _) => timing_of t) <$> timing, decoder_model_of <$> model_of timing).
Proof.
  unfold parse_timing. destruct timing as [[t [m|]]|]; cbn [flagged].
  - intros [Ht Hm]. fstep. eapply reads_bind; [by apply timing_reads|]. fstep.
    eapply reads_last; [by apply model_reads|]. apply reads_ret.
  - intros [Ht _]. fstep. eapply reads_bind; [by apply timing_reads|]. flast. apply reads_ret.
  - intros _. flast. apply reads_ret.
Qed.

Lemma mode_reads m : mode_ok m -> reads (parse_operating_info (is_reduced m)) (mode_layout m) (mode_of m).
Proof.
  intros Hok. unfold parse_operating_info. destruct m as [level|still timing delays ops ids tools];
    cbn [is_reduced mode_layout mode_of mode_ok] in *.
  { flast. apply reads_ret. }
  destruct Hok as (Ht & Hn & Hops & _). eapply reads_bind; [by apply parse_timing_reads|].
  cbv beta iota. fstep. assert (fits 5 (blen ops - 1)) by (unfold fits; lia). fstep. rpure.
  replace (Z.to_nat (blen ops - 1 + 1)) with (length ops) by (unfold blen; lia).
  eapply reads_last; [apply ops_reads; [|done]|apply reads_ret].
  destruct timing as [[t m]|]; [apply Ht|done].
Qed.

Lemma ids_reads m : mode_ok m ->
  reads (parse_frame_ids (is_reduced m))
    (match m with
     | Full _ _ _ _ ids _ => flagged (fun '(d, a) => f 4 d ++ f 3 a) ids
     | ReducedStill _ => []
     end) (ids_of m).
Proof.
  unfold parse_frame_ids. destruct m as [level|still timing delays ops [[d a]|] tools]; cbn.
  - intros _. rpure. apply reads_ret.
  - intros (_ & _ & _ & [H1 H2] & _). rewrite app_comm_cons. change (true :: ?x) with ([true] ++ x).
    rewrite <-(assoc_L (++)). fstep. fstep. flast. apply reads_ret.
  - intros _. flast. apply reads_ret.
Qed.

Lemma tools_reads m : mode_ok m ->
  reads (parse_tools (is_reduced m))
    (match m with Full _ _ _ _ _ tools => tools_layout tools | ReducedStill _ => [] end) (tools_of m).
Proof.
  unfold parse_tools. destruct m as [level|still timing delays ops ids l]; cbn [is_reduced negb tools_of].
  { intros _. apply reads_ret. }
  intros (_ & _ & _ & _ & Ho). unfold tools_layout. do 5 fstep.
  eapply (reads_bind _ _ _ _ _ (match l_order l with Some (jnt, _, _) => jnt | None => false end,
                                match l_order l with Some (_, mvs, _) => mvs | None => false end)).
  { destruct (l_order l) as [[[j v] b]|]; [|apply reads_ret]. cbn [is_some]. fstep. flast. apply reads_ret. }
  cbv beta iota.
  assert (reads (if is_some (l_order l) then read_u8_plus 3 1 else ret 0)
    (match l_order l with Some (_, _, bits_minus1) => f 3 bits_minus1 | None => [] end)
    (match l_order l with Some (_, _, b) => b + 1 | None => 0 end)) as Hlast.
  { destruct (l_order l) as [[[j v] b]|]; [|apply reads_ret]. cbn [is_some]. fcmd. }
  destruct (l_screen l) as [[|]|], (l_mv l) as [b|]; cbn [force_of]; rewrite <-?(assoc_L (++)); fstep;
    repeat first [ eapply reads_bind; [apply reads_force|]; cbn [Z.b2z Z.eqb]; cbv beta iota
                 | fstep | rpure; cbn [Z.eqb]; cbv iota | rewrite app_nil_l];
    (eapply reads_last; [exact Hlast|apply reads_ret]).
Qed.

Lemma depth_reads profile c :
  reads (parse_bit_depth profile) ([c_high c] ++ (if (profile =? 2) && c_high c then [c_twelve c] else []))
    (depth_of profile c).
Proof.
  unfold parse_bit_depth, depth_of. fstep.
  eapply (reads_last _ _ _ _ ((profile =? 2) && c_high c && c_twelve c)).
  - destruct ((profile =? 2) && c_high c); [apply reads_bit|apply reads_ret].
  - cbv beta. destruct (profile =? 2), (c_high c), (c_twelve c); apply reads_ret.
Qed.

Lemma range_reads profile c cp tc mc : description_of c = (cp, tc, mc) ->
  reads (parse_color_range_and_subsampling profile cp tc mc (depth_of profile c)) (range_layout profile c)
    (mkRange (is_srgb c || c_range c) (subsampling_of profile c).1 (subsampling_of profile c).2).
Proof.
  intros Hd. unfold parse_color_range_and_subsampling, range_layout, subsampling_of.
  assert ((cp =? CP_BT_709) && (tc =? TC_SRGB) && (mc =? MC_IDENTITY) = is_srgb c) as ->.
  { unfold is_srgb, CP_BT_709, TC_SRGB, MC_IDENTITY. rewrite Hd. apply eq_true_iff_eq.
    rewrite bool_decide_eq_true, !andb_true_iff, !Z.eqb_eq.
    split; [intros [[-> ->] ->]; done|intros [= -> -> ->]; done]. }
  destruct (is_srgb c); [apply reads_ret|]. cbn [orb]. fstep.
  destruct (profile =? 0); [apply reads_ret|]. destruct (profile =? 1); [apply reads_ret|].
  destruct (_ =? 12); [|apply reads_ret]. fstep. destruct (c_sub_x c); cbn [andb].
  - flast. apply reads_ret.
  - rpure. apply reads_ret.
Qed.

Lemma color_reads profile c : color_ok c ->
  reads (ColorConfig_parse profile) (color_layout profile c) (color_of profile c).
Proof.
  intros [Hd Hp]. unfold ColorConfig_parse, color_layout, color_of. rewrite (assoc_L (++)).
  eapply reads_bind; [apply depth_reads|]. cbv beta.
  eapply (reads_bind _ _ _ _ _ (mono_of profile c)).
  { unfold mono_of. destruct (profile =? 1); [apply reads_ret|apply reads_bit]. }
  cbv beta. pose proof (range_reads profile c) as Hr.
  assert (forall P (k : _ -> M _ ErrorKind ColorConfig) xs r, reads_on P (k (description_of c)) xs r ->
    reads_on P (let* flag := BitReader.read_bit in
      let* d := if flag
        then
          let* cp := BitReader.read_bits 8 in
          let* tc := BitReader.read_bits 8 in
          let* mc := BitReader.read_bits 8 in ret (wrap 8 cp, wrap 8 tc, wrap 8 mc)
        else ret (2, 2, 2) in k d)
      (flagged (fun '(cp, tc, mc) => f 8 cp ++ f 8 tc ++ f 8 mc) (c_description c) ++ xs) r) as Hdesc.
  { intros P k xs r Hk. unfold description_of in Hk.
    destruct (c_description c) as [[[cp tc] mc]|]; cbn [flagged]; rewrite <-?(assoc_L (++)); fstep.
    - destruct Hd as (H1 & H2 & H3). rewrite 2!(assoc_L (++)). eapply reads_bind; [|exact Hk].
      rewrite <-(assoc_L (++)). do 2 fstep. flast. apply reads_ret.
    - rpure. exact Hk. }
  apply (Hdesc _ (fun d => let '(cp, tc, mc) := d in _)). clear Hdesc.
  destruct (description_of c) as [[cp tc] mc]. specialize (Hr cp tc mc eq_refl).
  destruct (mono_of profile c); [flast; apply reads_ret|].
  eapply reads_bind; [exact Hr|]. cbv beta. cbn [range_subsampling_x range_subsampling_y range_color_range].
  destruct (subsampling_of profile c) as [sx sy]. cbn [fst snd].
  eapply (reads_bind _ _ _ _ _ (if sx && sy then c_position c else 0)).
  { destruct (sx && sy); [flast|]; apply reads_ret. }
  flast. apply reads_ret.
Qed.

Lemma sequence_header_reads h s : seq_ok s ->
  reads (sequence_header_bits h) (seq_layout s) (sequence_of h s).
Proof.
  intros (H1 & Hm & H3 & H4 & H5 & H6 & Hc). unfold sequence_header_bits, seq_layout, sequence_of.
  pose proof (mode_reads _ Hm) as Hmode. pose proof (ids_reads _ Hm) as Hids.
  pose proof (tools_reads _ Hm) as Htools. pose proof (color_reads (q_profile s) _ Hc) as Hcolor.
  do 3 fstep. replace (negb (is_still (q_mode s)) && is_reduced (q_mode s)) with false
    by (destruct (q_mode s) as [|[]]; reflexivity).
  eapply reads_bind; [exact Hmode|]. destruct (mode_of (q_mode s)) as [[timing model] ops]. cbv beta iota.
  assert (forall n v, fits 4 n -> fits (n + 1) v -> fits 64 (v + 1)) as Hfit.
  { intros n v Hn [Hv1 Hv2]. unfold fits in *. assert (2 ^ (n + 1) <= 2 ^ 16) by (apply Z.pow_le_mono_r; lia). lia. }
  pose proof (Hfit _ _ H3 H5). pose proof (Hfit _ _ H4 H6).
  assert (0 <= q_width_bits_minus1 s + 1 <= 64) by (unfold fits in *; lia).
  assert (0 <= q_height_bits_minus1 s + 1 <= 64) by (unfold fits in *; lia).
  do 2 fstep. eapply reads_bind; [by apply reads_f|]. rpure. eapply reads_bind; [by apply reads_f|]. rpure.
  eapply reads_bind; [exact Hids|]. cbv beta. do 3 fstep.
  eapply reads_bind; [exact Htools|].
  destruct (tools_of (q_mode s)) as [[[[[[[[[i ma] wa] du] or] jn] mv] sc] im] ob]. cbv beta iota.
  do 3 fstep. eapply reads_bind; [exact Hcolor|]. cbv beta. flast. apply reads_ret.
Qed.

(** C15. [ObuHeader::parse] followed by [SequenceHeaderObu::parse] on every
    sequence header OBU laid out as the AV1 specification says (5.3, 5.5):
    extension and size field or not, reduced still picture header or not,
    timing and decoder model, any number of operating points, all profiles,
    bit depths and chroma formats. The header is read exactly, with its type
    recovered, and the result holds every value the syntax denotes. A reduced
    header of a picture that is not still is refused as [InvalidData]. *)
Theorem av1_sequence_header_layout (h : HeaderSyntax) (s : SeqSyntax) (hb data bad : list byte) (p : Z)
    (rest rest' : list bool) (Hh : header_ok h) (Hs : seq_ok s) (Hhb : bytes_bits hb = header_layout h)
    (Hd : bytes_bits data = seq_layout s ++ rest) (Hlen : blen (hb ++ data) < 2 ^ 58)
    (Hp : fits 3 p) (Hbad : bytes_bits bad = f 3 p ++ [false] ++ [true] ++ rest') (Hbadlen : blen bad < 2 ^ 58) :
  ObuHeader_parse (cursor_new (hb ++ data)) = (Ok (header_of h), at_pos hb data) /\
  ObuType_to_u8 (obu_type (header_of h)) = h_type h /\
  fst ((let* header := ObuHeader_parse in SequenceHeaderObu_parse header) (cursor_new (hb ++ data)))
    = Ok (sequence_of (header_of h) s) /\
  fst (SequenceHeaderObu_parse (header_of h) (cursor_new bad)) = Err InvalidData.
Proof.
  assert (forall bs, 8 * blen bs < 2 ^ 62 -> ready (BitReader.new (at_pos [] bs))) as Hnew
    by (intros; by apply ready_new).
  assert (ObuHeader_parse (cursor_new (hb ++ data)) = (Ok (header_of h), at_pos hb data)) as Hhp.
  { apply (with_bit_reader_at whole_bytes _ hb _ [] data).
    - rewrite Hhb. by apply header_bits_reads.
    - apply whole_bytes_bits.
    - cbn [app]. lia. }
  split; [done|]. split; [|split].
  - destruct Hh as ([Ht1 Ht2] & _). cbn [header_of obu_type].
    assert (h_type h ∈ seqZ 0 16) as Hin by (apply elem_of_seqZ; lia).
    revert Hin. generalize (h_type h). intros t Hin. vm_compute in Hin.
    repeat (apply elem_of_cons in Hin as [->|Hin]; [reflexivity|]). by apply elem_of_nil in Hin.
  - erewrite bind_ok; [|exact Hhp].
    destruct (sequence_header_reads (header_of h) s Hs (BitReader.new (at_pos hb data)) rest I)
      as (r' & H1 & _); [apply ready_new; lia|by rewrite bits_new_at|].
    unfold SequenceHeaderObu_parse, with_bit_reader. by rewrite H1.
  - unfold SequenceHeaderObu_parse, with_bit_reader.
    assert (yields (sequence_header_bits (header_of h)) (f 3 p ++ [false] ++ [true]) (Err InvalidData)) as Hy.
    { unfold sequence_header_bits. eapply yields_then; [fcmd|]. eapply yields_then; [apply reads_bit|].
      rewrite <-(app_nil_r [true]). eapply yields_then; [apply reads_bit|]. by intros r ys _ _. }
    specialize (Hy (BitReader.new (at_pos [] bad)) rest' ltac:(apply Hnew; lia)).
    rewrite bits_new_at, Hbad, <-!(assoc_L (++)) in Hy. specialize (Hy eq_refl).
    unfold cursor_new in *. unfold at_pos in Hy. cbn [app length] in Hy.
    by destruct (sequence_header_bits _ _) as [o r'].
Qed.
End layouts.

(** The sequence header of the crate's test as syntax, behind its OBU header. *)
Definition seq_sample_syntax : SeqSyntax :=
  mkSeqSyntax 0
    (Full false None false [mkOpSyntax 0 13 false None None] None
       (mkToolSyntax false false false false (Some (false, false, 6)) (Some false) None))
    11 11 3839 2159 false false false false true true
    (mkColorSyntax false false false (Some (1, 1, 1)) false false false 0 false) false.

Lemma av1_sequence_header_layout_witness :
  let h := mkHeaderSyntax 1 false None (Some [x0f]) in
  fst ((let* header := ObuHeader_parse in SequenceHeaderObu_parse header)
         (cursor_new ([x0a; x0f] ++ seq_sample))) = Ok (sequence_of (header_of h) seq_sample_syntax) /\
  fst (SequenceHeaderObu_parse (header_of h) (cursor_new [x08])) = Err InvalidData.
Proof.
  intros h.
  pose proof (av1_sequence_header_layout h seq_sample_syntax [x0a; x0f] seq_sample [x08] 0
    (drop (length (seq_layout seq_sample_syntax)) (bytes_bits seq_sample)) [false; false; false]) as Ht.
  assert (header_ok h) as Hh by (repeat split; vm_compute; congruence).
  assert (seq_ok seq_sample_syntax) as Hs.
  { repeat split; try (vm_compute; congruence).
    constructor; [|constructor]. repeat split; vm_compute; congruence. }
  destruct (Ht Hh Hs eq_refl ltac:(vm_compute; reflexivity) eq_refl ltac:(done) eq_refl eq_refl) as (_ & _ & H1 & H2).
  split; [exact H1|exact H2].
Defined.
End Av1Obu.
