(* ===== verification/H265Sps.v ===== *)
(** * [scuffle-h265]: the sequence parameter set (crates/h265/src/sps.rs)

    [Sps::parse], the syntax of ISO/IEC 23008-2 section 7.3.2.2 as a data type
    with its bit layout, and the theorem that relates the two on the parameter
    sets the parser supports, with examples of standard parameter sets it does
    not. The loop that removes the emulation prevention bytes is the text of
    the one in crates/h264, so its model is shared. *)

From stdpp Require Import base list numbers.
From Stdlib Require Import Strings.Byte Floats.SpecFloat.
From S2P Require Import Prelude Io BitRead BitWrite ExpGolomb BitIo H264Sps.

Module H265Sps.
Import BitIo.

Record ColorConfig := mkColor {
  full_range : bool;
  color_primaries : Z;
  transfer_characteristics : Z;
  matrix_coefficients : Z;
}.

Record Sps := mkSps {
  width : Z;
  height : Z;
  frame_rate : spec_float;
  color_config : option ColorConfig;
}.

Abbreviation P := (M (BitReader.t Cursor) ErrorKind).

(** [BitReader::seek_bits(n)?;] and [read_exp_golomb()?;] as statements. *)
Definition skip (n : Z) : P unit := BitReader.seek_bits n ;;; ret tt.
Definition skip_ue : P unit := ExpGolomb.read_exp_golomb ;;; ret tt.

Section parse.
Context `{BO : ByteOrder}.

(** The loop that fills [sub_layer_level_present_flags]. *)
Fixpoint level_flags (n : nat) : P (list bool) :=
  match n with
  | O => ret []
  | S n =>
      skip 1 ;;;
      let* v := BitReader.read_bit in
      let* vs := level_flags n in
      ret (v :: vs)
  end.

(** [for v in sub_layer_level_present_flags.drain(..)] *)
Fixpoint sub_layers (flags : list bool) : P unit :=
  match flags with
  | [] => ret tt
  | v :: flags =>
      skip (2 + 1 + 5 + 32 + 1 + 1 + 1 + 1 + 43 + 1) ;;;
      (if v then skip 8 else ret tt) ;;;
      sub_layers flags
  end.

Definition parse_profile_tier_level (sps_max_sub_layers_minus1 : Z) : P unit :=
  skip (2 + 1 + 5 + 32 + 1 + 1 + 1 + 1 + 43 + 1 + 8) ;;;
  let* flags := level_flags (Z.to_nat sps_max_sub_layers_minus1) in
  (if (0 <? sps_max_sub_layers_minus1) && (sps_max_sub_layers_minus1 <? 8)
   then skip (2 * (8 - sps_max_sub_layers_minus1))
   else ret tt) ;;;
  sub_layers flags.

(** left, right, top, bottom *)
Definition parse_window : P (Z * Z * Z * Z) :=
  let* conformance_window_flag := BitReader.read_bit in
  if conformance_window_flag
  then
    let* win_left := ExpGolomb.read_exp_golomb in
    let* win_right := ExpGolomb.read_exp_golomb in
    let* win_top := ExpGolomb.read_exp_golomb in
    let* win_bottom := ExpGolomb.read_exp_golomb in
    ret (win_left, win_right, win_top, win_bottom)
  else ret (0, 0, 0, 0).

Definition sub_c (chroma_format_idc : Z) : P (Z * Z) :=
  match chroma_format_idc with
  | 0 => ret (1, 1)
  | 1 => ret (2, 2)
  | 2 => ret (2, 1)
  | 3 => ret (1, 1)
  | _ => throw InvalidData
  end.

(** [a - sub * (b + c)] on [u64]s. *)
Definition cropped (a sub b c : Z) : P Z :=
  let* s := checked_u 64 (b + c) in
  let* m := checked_u 64 (sub * s) in
  checked_u 64 (a - m).

(** [for _ in 0..=sps_max_sub_layers_minus1] *)
Fixpoint ordering_info (n : nat) : P unit :=
  match n with
  | O => ret tt
  | S n => skip_ue ;;; skip_ue ;;; skip_ue ;;; ordering_info n
  end.

(** [for _ in 0..coef_num]; [next_coef] is an [i64]. *)
Fixpoint scaling_coefs (n : nat) (next_coef : Z) : P unit :=
  match n with
  | O => ret tt
  | S n =>
      let* scaling_list_delta_coef := ExpGolomb.read_signed_exp_golomb in
      let* sum := checked_i 64 (next_coef + scaling_list_delta_coef) in
      let* sum := checked_i 64 (sum + 256) in
      scaling_coefs n (Z.rem sum 256)
  end.

Definition scaling_matrix (size_id : Z) : P unit :=
  let* scaling_list_pred_mode_flag := BitReader.read_bit in
  if negb scaling_list_pred_mode_flag then skip_ue
  else
    let coef_num := Z.min 64 (Z.shiftl 1 (4 + Z.shiftl size_id 1)) in
    let* next_coef :=
      if 1 <? size_id
      then let* dc := ExpGolomb.read_signed_exp_golomb in checked_i 64 (8 + dc)
      else ret 8 in
    scaling_coefs (Z.to_nat coef_num) next_coef.

(** [while matrix_id < 6]: [n] bounds the turns that are left. *)
Fixpoint scaling_matrices (n : nat) (size_id matrix_id : Z) : P unit :=
  if matrix_id <? 6
  then
    match n with
    | O => out_of_fuel
    | S n =>
        scaling_matrix size_id ;;;
        scaling_matrices n size_id (matrix_id + if size_id =? 3 then 3 else 1)
    end
  else ret tt.

(** [for size_id in 0..4] *)
Fixpoint scaling_sizes (n : nat) (size_id : Z) : P unit :=
  match n with
  | O => ret tt
  | S n => scaling_matrices 6 size_id 0 ;;; scaling_sizes n (size_id + 1)
  end.

Definition parse_scaling_list : P unit :=
  let* scaling_list_enabled_flag := BitReader.read_bit in
  if scaling_list_enabled_flag
  then
    let* sps_scaling_list_data_present_flag := BitReader.read_bit in
    if sps_scaling_list_data_present_flag then scaling_sizes 4 0 else ret tt
  else ret tt.

Definition parse_pcm : P unit :=
  let* pcm_enabled_flag := BitReader.read_bit in
  if pcm_enabled_flag
  then skip 4 ;;; skip 4 ;;; skip_ue ;;; skip_ue ;;; skip 1
  else ret tt.

(** [for _ in 0..n { read_exp_golomb()?; seek_bits(1)?; }]: every turn reads a
    bit, so the bits left, plus one, bound the turns. *)
Fixpoint poc_entries (fuel : nat) (n : Z) : P unit :=
  if n <=? 0 then ret tt
  else
    match fuel with
    | O => out_of_fuel
    | S fuel => skip_ue ;;; skip 1 ;;; poc_entries fuel (n - 1)
    end.

(** The loop of an inter-predicted reference picture set; returns the number
    of pictures it keeps, a [u64]. *)
Fixpoint inter_rps (fuel : nat) (n kept : Z) : P Z :=
  if n <=? 0 then ret kept
  else
    match fuel with
    | O => out_of_fuel
    | S fuel =>
        let* used_by_curr_pic_flag := BitReader.read_bit in
        let* use_delta_flag := if negb used_by_curr_pic_flag then BitReader.read_bit else ret false in
        let* kept := if used_by_curr_pic_flag || use_delta_flag then checked_u 64 (kept + 1) else ret kept in
        inter_rps fuel (n - 1) kept
    end.

(** A loop that reads at least a bit in every turn. *)
Definition bounded {A} (loop : nat -> P A) : P A :=
  let* r := get in loop (S (length (BitReader.bits r))).

(** One reference picture set: [prev] is the entry of [num_delta_pocs] before
    it; the result is its own. *)
Definition ref_pic_set (st_rps_idx prev : Z) : P Z :=
  let* inter := if negb (st_rps_idx =? 0) then BitReader.read_bit else ret false in
  if inter
  then
    skip 1 ;;;
    skip_ue ;;;
    bounded (fun fuel => inter_rps fuel prev 0)
  else
    let* num_negative_pics := ExpGolomb.read_exp_golomb in
    let* num_positive_pics := ExpGolomb.read_exp_golomb in
    let* sum := checked_u 64 (num_negative_pics + num_positive_pics) in
    bounded (fun fuel => poc_entries fuel num_negative_pics) ;;;
    bounded (fun fuel => poc_entries fuel num_positive_pics) ;;;
    ret sum.

(** [for st_rps_idx in 0..num_short_term_ref_pic_sets]: of the vector
    [num_delta_pocs] only the entry before the current one is ever read. *)
Fixpoint ref_pic_sets (fuel : nat) (n st_rps_idx prev : Z) : P unit :=
  if n <=? st_rps_idx then ret tt
  else
    match fuel with
    | O => out_of_fuel
    | S fuel =>
        let* next := ref_pic_set st_rps_idx prev in
        ref_pic_sets fuel n (st_rps_idx + 1) next
    end.

(** [vec![0; n as usize]] of [u64]s panics above [isize::MAX] bytes. *)
Definition parse_ref_pic_sets : P unit :=
  let* num_short_term_ref_pic_sets := ExpGolomb.read_exp_golomb in
  if 2 ^ 63 - 1 <? 8 * num_short_term_ref_pic_sets then panic
  else bounded (fun fuel => ref_pic_sets fuel num_short_term_ref_pic_sets 0 0).

Definition parse_long_term : P unit :=
  let* long_term_ref_pics_present_flag := BitReader.read_bit in
  if long_term_ref_pics_present_flag
  then
    let* num_long_term_ref_pics_sps := ExpGolomb.read_exp_golomb in
    bounded (fun fuel => poc_entries fuel num_long_term_ref_pics_sps)
  else ret tt.

Definition parse_aspect : P unit :=
  let* aspect_ratio_info_present_flag := BitReader.read_bit in
  if aspect_ratio_info_present_flag
  then
    let* aspect_ratio_idc := BitReader.read_bits 8 in
    if aspect_ratio_idc =? 255 then skip 16 ;;; skip 16 else ret tt
  else ret tt.

Definition parse_overscan : P unit :=
  let* overscan_info_present_flag := BitReader.read_bit in
  if overscan_info_present_flag then skip 1 else ret tt.

Definition parse_color : P (option ColorConfig) :=
  let* video_signal_type_present_flag := BitReader.read_bit in
  if video_signal_type_present_flag
  then
    skip 3 ;;;
    let* full_range := BitReader.read_bit in
    let* colour_description_present_flag := BitReader.read_bit in
    if colour_description_present_flag
    then
      let* color_primaries := read_u8 in
      let* transfer_characteristics := read_u8 in
      let* matrix_coefficients := read_u8 in
      ret (Some (mkColor full_range color_primaries transfer_characteristics matrix_coefficients))
    else ret (Some (mkColor full_range 2 2 2))
  else ret None.

Definition parse_chroma_loc : P unit :=
  let* chroma_loc_info_present_flag := BitReader.read_bit in
  if chroma_loc_info_present_flag then skip_ue ;;; skip_ue else ret tt.

Definition parse_display_window : P unit :=
  let* default_display_window_flag := BitReader.read_bit in
  if default_display_window_flag then skip_ue ;;; skip_ue ;;; skip_ue ;;; skip_ue else ret tt.

Definition parse_timing : P spec_float :=
  let* vui_timing_info_present_flag := BitReader.read_bit in
  if vui_timing_info_present_flag
  then
    let* num_units_in_tick := BitReader.read_bits 32 in
    let* time_scale := BitReader.read_bits 32 in
    if num_units_in_tick =? 0 then throw InvalidData
    else ret (H264Sps.f64_div (H264Sps.f64_of time_scale) (H264Sps.f64_of num_units_in_tick))
  else ret (H264Sps.f64_of 0).

Definition parse_vui : P (option ColorConfig * spec_float) :=
  parse_aspect ;;;
  parse_overscan ;;;
  let* color_config := parse_color in
  parse_chroma_loc ;;;
  skip 1 ;;;
  skip 1 ;;;
  skip 1 ;;;
  parse_display_window ;;;
  let* frame_rate := parse_timing in
  ret (color_config, frame_rate).

(** From the coding block sizes to the flags before the VUI. *)
Definition parse_tools : P unit :=
  skip_ue ;;; skip_ue ;;; skip_ue ;;; skip_ue ;;; skip_ue ;;; skip_ue ;;;
  parse_scaling_list ;;;
  skip 1 ;;;
  skip 1 ;;;
  parse_pcm ;;;
  parse_ref_pic_sets ;;;
  parse_long_term ;;;
  skip 1 ;;;
  skip 1.

Definition parse_rbsp : P Sps :=
  let* forbidden_zero_bit := BitReader.read_bit in
  if forbidden_zero_bit then throw InvalidData
  else
  let* nalu_type := BitReader.read_bits 6 in
  if negb (nalu_type =? 33) then throw InvalidData
  else
  skip (6 + 3 + 4) ;;;
  let* sps_max_sub_layers_minus1 := BitReader.read_bits 3 in
  skip 1 ;;;
  parse_profile_tier_level sps_max_sub_layers_minus1 ;;;
  skip_ue ;;;
  let* chroma_format_idc := ExpGolomb.read_exp_golomb in
  (if chroma_format_idc =? 3 then BitReader.read_bit ;;; ret tt else ret tt) ;;;
  let* pic_width_in_luma_samples := ExpGolomb.read_exp_golomb in
  let* pic_height_in_luma_samples := ExpGolomb.read_exp_golomb in
  let* (win_left, win_right, win_top, win_bottom) := parse_window in
  let* (sub_width_c, sub_height_c) := sub_c chroma_format_idc in
  let* width := cropped pic_width_in_luma_samples sub_width_c win_left win_right in
  let* height := cropped pic_height_in_luma_samples sub_height_c win_top win_bottom in
  skip_ue ;;;
  skip_ue ;;;
  skip_ue ;;;
  let* sps_sub_layer_ordering_info_present_flag := BitReader.read_bit in
  (if sps_sub_layer_ordering_info_present_flag
   then ordering_info (S (Z.to_nat sps_max_sub_layers_minus1))
   else ret tt) ;;;
  parse_tools ;;;
  let* vui_parameters_present_flag := BitReader.read_bit in
  let* (color_config, frame_rate) :=
    if vui_parameters_present_flag then parse_vui else ret (None, H264Sps.f64_of 0) in
  ret (mkSps width height frame_rate color_config).

Definition parse (data : list byte) : res ErrorKind Sps :=
  match H264Sps.unescape_loop (S (length data)) data 0 [] with
  | (Ok _, vec) => fst (parse_rbsp (BitReader.new_from_slice vec))
  | (Err e, _) => Err e
  | (Panic, _) => Panic
  | (Fuel, _) => Fuel
  end.
End parse.

(** The parameter set of the crate's own test. *)
Definition sample : list byte :=
  [x42; x01; x01; x01; x40; x00; x00; x03; x00; x90; x00; x00; x03; x00; x00; x03;
   x00; x99; xa0; x01; x40; x20; x05; xa1; x65; x95; x52; x90; x84; x64; x5f; xf8;
   xc0; x5a; x80; x80; x80; x82; x00; x00; x03; x00; x02; x00; x00; x03; x01; x20;
   xc0; x0b; xbc; xa2; x00; x02; x62; x58; x00; x01; x31; x2d; x08].

Example hevc_sps_sample :
  parse sample = Ok (mkSps 2560 1440 (H264Sps.f64_of 144) (Some (mkColor false 1 1 1))).
Proof. vm_compute. reflexivity. Qed.

(** ** The syntax of a sequence parameter set (ISO/IEC 23008-2, 7.3.2.2) *)

(** The 88 bits of a sub-layer's profile and the 8 of its level. *)
Record SubLayerSyntax := mkSubLayer {
  sl_profile : option (list bool);
  sl_level : option (list bool);
}.

(** A scaling matrix: a reference to another, or its coefficients. *)
Inductive MatrixSyntax :=
| Predicted (delta : Z)
| Coefs (dc : Z) (deltas : list Z).

(** A short-term reference picture set: two lists of pictures, or, after the
    first, the pictures kept of the set before ([None] when the picture is
    used, [Some use_delta] when it is not). *)
Inductive RpsSyntax :=
| Explicit (negative positive : list (Z * bool))
| Inter (sign : bool) (abs_delta_minus1 : Z) (flags : list (option bool)).

Record VuiSyntax := mkVui {
  v_aspect : option (Z * (Z * Z));
  v_overscan : option bool;
  v_signal : option (Z * bool * option (Z * Z * Z));
  v_chroma_loc : option (Z * Z);
  v_neutral_chroma : bool;
  v_field_seq : bool;
  v_frame_field : bool;
  v_window : option (Z * Z * Z * Z);
  v_timing : option (Z * Z);
}.

Record SpsSyntax := mkSyntax {
  y_header : Z;
  y_nesting : bool;
  y_general : list bool;
  y_sub_layers : list SubLayerSyntax;
  y_reserved : list bool;
  y_id : Z;
  y_chroma_format : Z;
  y_separate_plane : bool;
  y_width : Z;
  y_height : Z;
  y_window : option (Z * Z * Z * Z);
  y_depth_luma : Z;
  y_depth_chroma : Z;
  y_log2_poc_minus4 : Z;
  y_ordering_all : bool;
  y_ordering : list (Z * Z * Z);
  y_blocks : Z * Z * Z * Z * Z * Z;
  y_scaling : option (option (list (list MatrixSyntax)));
  y_amp : bool;
  y_sao : bool;
  y_pcm : option (Z * Z * Z * Z * bool);
  y_rps : list RpsSyntax;
  y_long_term : option (list (Z * bool));
  y_temporal_mvp : bool;
  y_smoothing : bool;
  y_vui : option VuiSyntax;
}.

(** *** Bit layout *)

Definition is_some {A} (o : option A) : bool := match o with Some _ => true | None => false end.
Definition bits_of (o : option (list bool)) : list bool := match o with Some xs => xs | None => [] end.

Definition ptl_layout (s : SpsSyntax) : list bool :=
  y_general s ++
  (y_sub_layers s ≫= fun l => [is_some (sl_profile l)] ++ [is_some (sl_level l)]) ++
  y_reserved s ++
  (y_sub_layers s ≫= fun l => bits_of (sl_profile l) ++ bits_of (sl_level l)).

Definition window_layout (w : Z * Z * Z * Z) : list bool :=
  let '(l, r, t, b) := w in ue l ++ ue r ++ ue t ++ ue b.

Definition matrix_layout (size_id : Z) (m : MatrixSyntax) : list bool :=
  match m with
  | Predicted delta => [false] ++ ue delta
  | Coefs dc deltas => [true] ++ (if 1 <? size_id then se dc else []) ++ (deltas ≫= se)
  end.

Fixpoint sizes_layout (size_id : Z) (sizes : list (list MatrixSyntax)) : list bool :=
  match sizes with
  | [] => []
  | ms :: sizes => (ms ≫= matrix_layout size_id) ++ sizes_layout (size_id + 1) sizes
  end.

Definition entry_layout (e : Z * bool) : list bool := ue e.1 ++ [e.2].

Definition rps_layout (first : bool) (r : RpsSyntax) : list bool :=
  (if first then [] else [match r with Inter _ _ _ => true | Explicit _ _ => false end]) ++
  match r with
  | Explicit negative positive =>
      ue (blen negative) ++ ue (blen positive) ++ (negative ≫= entry_layout) ++ (positive ≫= entry_layout)
  | Inter sign abs_delta_minus1 flags =>
      [sign] ++ ue abs_delta_minus1 ++
      (flags ≫= fun o => match o with None => [true] | Some use_delta => [false] ++ [use_delta] end)
  end.

Definition all_rps_layout (rs : list RpsSyntax) : list bool :=
  ue (blen rs) ++
  match rs with [] => [] | r :: rs => rps_layout true r ++ (rs ≫= rps_layout false) end.

Definition pcm_layout (p : Z * Z * Z * Z * bool) : list bool :=
  let '(dl, dc, min, diff, filter) := p in
  val_bits 4 dl ++ val_bits 4 dc ++ ue min ++ ue diff ++ [filter].

Definition aspect_layout (v : Z * (Z * Z)) : list bool :=
  let '(idc, (w, h)) := v in val_bits 8 idc ++ if idc =? 255 then val_bits 16 w ++ val_bits 16 h else [].

Definition timing_layout (t : Z * Z) : list bool := val_bits 32 t.1 ++ val_bits 32 t.2.

Definition vui_layout (v : VuiSyntax) : list bool :=
  flagged aspect_layout (v_aspect v) ++
  flagged (fun b => [b]) (v_overscan v) ++
  flagged H264Sps.signal_layout (v_signal v) ++
  flagged (fun '(t, b) => ue t ++ ue b) (v_chroma_loc v) ++
  [v_neutral_chroma v] ++ [v_field_seq v] ++ [v_frame_field v] ++
  flagged window_layout (v_window v) ++
  flagged timing_layout (v_timing v).

Definition triple_layout (t : Z * Z * Z) : list bool := let '(a, b, c) := t in ue a ++ ue b ++ ue c.

Definition tools_layout (s : SpsSyntax) : list bool :=
  (let '(a, b, c, d, e, g) := y_blocks s in ue a ++ ue b ++ ue c ++ ue d ++ ue e ++ ue g) ++
  flagged (flagged (sizes_layout 0)) (y_scaling s) ++ [y_amp s] ++ [y_sao s] ++
  flagged pcm_layout (y_pcm s) ++ all_rps_layout (y_rps s) ++
  flagged (fun pics => ue (blen pics) ++
    (pics ≫= fun '(lsb, used) => val_bits (Z.to_nat (y_log2_poc_minus4 s + 4)) lsb ++ [used])) (y_long_term s) ++
  [y_temporal_mvp s] ++ [y_smoothing s].

Definition layout (s : SpsSyntax) : list bool :=
  [false] ++ val_bits 6 33 ++ val_bits 13 (y_header s) ++ val_bits 3 (blen (y_sub_layers s)) ++ [y_nesting s] ++
  ptl_layout s ++ ue (y_id s) ++ ue (y_chroma_format s) ++
  (if y_chroma_format s =? 3 then [y_separate_plane s] else []) ++
  ue (y_width s) ++ ue (y_height s) ++ flagged window_layout (y_window s) ++
  ue (y_depth_luma s) ++ ue (y_depth_chroma s) ++ ue (y_log2_poc_minus4 s) ++
  [y_ordering_all s] ++ (y_ordering s ≫= triple_layout) ++
  tools_layout s ++ flagged vui_layout (y_vui s).

(** *** Ranges *)

Definition window_ok (w : Z * Z * Z * Z) : Prop :=
  let '(l, r, t, b) := w in ue_ok l /\ ue_ok r /\ ue_ok t /\ ue_ok b.
Definition window_of (s : SpsSyntax) : Z * Z * Z * Z := default (0, 0, 0, 0) (y_window s).
Definition triple_ok (t : Z * Z * Z) : Prop := let '(a, b, c) := t in ue_ok a /\ ue_ok b /\ ue_ok c.
Definition entry_ok (e : Z * bool) : Prop := ue_ok e.1.

Definition matrix_ok (size_id : Z) (m : MatrixSyntax) : Prop :=
  match m with
  | Predicted delta => ue_ok delta
  | Coefs dc deltas =>
      se_ok dc /\ Forall se_ok deltas /\ blen deltas = Z.min 64 (2 ^ (4 + 2 * size_id))
  end.

(** Six matrices for each of the first three sizes, two for the last. *)
Fixpoint sizes_ok (size_id : Z) (n : nat) (sizes : list (list MatrixSyntax)) : Prop :=
  match n, sizes with
  | O, [] => True
  | S n, ms :: sizes =>
      length ms = (if size_id =? 3 then 2%nat else 6%nat) /\ Forall (matrix_ok size_id) ms /\
      sizes_ok (size_id + 1) n sizes
  | _, _ => False
  end.

Definition opt {A} (Q : A -> Prop) (o : option A) : Prop := match o with Some a => Q a | None => True end.

Definition vui_ok (v : VuiSyntax) : Prop :=
  opt (fun '(idc, _) => fits 8 idc) (v_aspect v) /\
  match v_signal v with
  | Some (_, _, Some (cp, tc, mc)) => fits 8 cp /\ fits 8 tc /\ fits 8 mc
  | _ => True
  end /\
  opt (fun '(t, b) => ue_ok t /\ ue_ok b) (v_chroma_loc v) /\
  opt window_ok (v_window v) /\
  opt (fun t => fits 32 t.1 /\ fits 32 t.2) (v_timing v).

Definition sub_layer_ok (l : SubLayerSyntax) : Prop :=
  opt (fun xs => length xs = 88%nat) (sl_profile l) /\ opt (fun xs => length xs = 8%nat) (sl_level l).

Definition syntax_ok (s : SpsSyntax) : Prop :=
  length (y_general s) = 96%nat /\ blen (y_sub_layers s) <= 7 /\ Forall sub_layer_ok (y_sub_layers s) /\
  blen (y_reserved s) = (if 0 <? blen (y_sub_layers s) then 2 * (8 - blen (y_sub_layers s)) else 0) /\
  ue_ok (y_id s) /\ ue_ok (y_chroma_format s) /\ ue_ok (y_width s) /\ ue_ok (y_height s) /\
  window_ok (window_of s) /\ ue_ok (y_depth_luma s) /\ ue_ok (y_depth_chroma s) /\
  ue_ok (y_log2_poc_minus4 s) /\ Forall triple_ok (y_ordering s) /\
  (let '(a, b, c, d, e, g) := y_blocks s in
     ue_ok a /\ ue_ok b /\ ue_ok c /\ ue_ok d /\ ue_ok e /\ ue_ok g) /\
  opt (opt (sizes_ok 0 4)) (y_scaling s) /\
  opt (fun '(_, _, min, diff, _) => ue_ok min /\ ue_ok diff) (y_pcm s) /\
  blen (y_rps s) < 2 ^ 32 /\ opt vui_ok (y_vui s).

(** What the parser supports of the standard: sub-layers that carry a profile,
    ordering information for every sub-layer, explicit reference picture sets
    and no long-term reference pictures in the parameter set. *)
Definition rps_supported (r : RpsSyntax) : Prop :=
  match r with
  | Explicit negative positive =>
      blen negative < 2 ^ 32 /\ blen positive < 2 ^ 32 /\ Forall entry_ok negative /\ Forall entry_ok positive
  | Inter _ _ _ => False
  end.

Definition supported (s : SpsSyntax) : Prop :=
  Forall (fun l => is_some (sl_profile l) = true) (y_sub_layers s) /\
  y_ordering_all s = true /\ length (y_ordering s) = S (length (y_sub_layers s)) /\
  Forall rps_supported (y_rps s) /\
  opt (fun pics => pics = []) (y_long_term s).

(** *** What the syntax denotes *)

Definition sub_width (chroma_format : Z) : Z := match chroma_format with 1 | 2 => 2 | _ => 1 end.
Definition sub_height (chroma_format : Z) : Z := match chroma_format with 1 => 2 | _ => 1 end.

Definition dim_width (s : SpsSyntax) : Z :=
  let '(l, r, _, _) := window_of s in y_width s - sub_width (y_chroma_format s) * (l + r).
Definition dim_height (s : SpsSyntax) : Z :=
  let '(_, _, t, b) := window_of s in y_height s - sub_height (y_chroma_format s) * (t + b).

Definition color_of (v : VuiSyntax) : option ColorConfig :=
  match v_signal v with
  | Some (_, full, Some (cp, tc, mc)) => Some (mkColor full cp tc mc)
  | Some (_, full, None) => Some (mkColor full 2 2 2)
  | None => None
  end.

(** The VUI: its colour description and frame rate. *)
Definition vui_of (v : VuiSyntax) : res ErrorKind (option ColorConfig * spec_float) :=
  match v_timing v with
  | Some (units, scale) =>
      if units =? 0 then Err InvalidData
      else Ok (color_of v, H264Sps.f64_div (H264Sps.f64_of scale) (H264Sps.f64_of units))
  | None => Ok (color_of v, H264Sps.f64_of 0)
  end.

Definition denote (s : SpsSyntax) : res ErrorKind Sps :=
  if 3 <? y_chroma_format s then Err InvalidData
  else if (dim_width s <? 0) || (dim_height s <? 0) then Panic
  else
    match y_vui s with
    | None => Ok (mkSps (dim_width s) (dim_height s) (H264Sps.f64_of 0) None)
    | Some v =>
        match vui_of v with
        | Ok (color, rate) => Ok (mkSps (dim_width s) (dim_height s) rate color)
        | Err e => Err e
        | Panic => Panic
        | Fuel => Fuel
        end
    end.

(** ** The parser follows the layout *)

Lemma reads_skip P n count xs : length xs = n -> Z.of_nat n = count -> (0 < n)%nat ->
  reads_on P (skip count) xs tt.
Proof.
  intros Hx Hc Hn. rewrite <-(app_nil_r xs). eapply reads_seek; [exact Hx|exact Hc|exact Hn|apply reads_ret].
Qed.

Lemma reads_skip_ue P n : ue_ok n -> reads_on P skip_ue (ue n) tt.
Proof. intros Hn. ranges. eapply reads_last; [rcmd|apply reads_ret]. Qed.

Ltac scmd :=
  first [ eapply reads_skip; [rewrite ?length_val_bits; reflexivity | reflexivity | simpl; lia]
        | apply reads_skip_ue; assumption
        | unfold ue; ranges; rcmd ].
Ltac sstep := eapply reads_bind; [scmd|]; cbv beta zeta iota.
Ltac slast := eapply reads_last; [scmd|]; cbv beta zeta iota; apply reads_ret.

Lemma reads_bounded {A} (loop : nat -> P A) xs a :
  (forall fuel, (length xs < fuel)%nat -> reads (loop fuel) xs a) -> reads (bounded loop) xs a.
Proof. intros Hl. apply reads_get. intros r Hr. apply Hl. lia. Qed.

Lemma level_flags_reads ls :
  reads (level_flags (length ls)) (ls ≫= fun l => [is_some (sl_profile l)] ++ [is_some (sl_level l)])
    ((fun l => is_some (sl_level l)) <$> ls).
Proof.
  induction ls as [|l ls IH]; [apply reads_ret|]. cbn [length level_flags].
  change ((l :: ls) ≫= ?g) with (g l ++ (ls ≫= g)). cbv beta. rewrite <-(assoc_L (++)). do 2 sstep.
  eapply reads_last; [exact IH|]. apply reads_ret.
Qed.

Lemma sub_layers_reads ls : Forall sub_layer_ok ls -> Forall (fun l => is_some (sl_profile l) = true) ls ->
  reads (sub_layers ((fun l => is_some (sl_level l)) <$> ls))
    (ls ≫= fun l => bits_of (sl_profile l) ++ bits_of (sl_level l)) tt.
Proof.
  induction ls as [|[[p|] o] ls IH]; intros Hok Hs; [apply reads_ret| |].
  2: { apply Forall_cons_1 in Hs as [Hs _]. done. }
  apply Forall_cons_1 in Hok as [[Hp Ho] Hok]. apply Forall_cons_1 in Hs as [_ Hs]. simpl in Hp, Ho.
  cbn [fmap list_fmap sub_layers sl_level]. change ((?l :: ls) ≫= ?g) with (g l ++ (ls ≫= g)).
  cbv beta. cbn [bits_of sl_profile sl_level]. rewrite <-(assoc_L (++)).
  eapply reads_bind; [eapply reads_skip; [exact Hp|reflexivity|lia]|]. cbv beta.
  eapply (reads_bind _ _ _ _ _ tt); [|by apply IH].
  destruct o as [xs|]; [|apply reads_ret]. eapply reads_skip; [exact Ho|reflexivity|lia].
Qed.

Lemma ptl_reads s : syntax_ok s -> supported s ->
  reads (parse_profile_tier_level (blen (y_sub_layers s))) (ptl_layout s) tt.
Proof.
  intros (Hg & H7 & Hl & Hr & _) (Hs & _). unfold parse_profile_tier_level, ptl_layout.
  eapply reads_bind; [eapply reads_skip; [exact Hg|reflexivity|lia]|]. cbv beta.
  unfold blen at 1. rewrite Nat2Z.id.
  eapply reads_bind; [apply level_flags_reads|]. cbv beta. rewrite (proj2 (Z.ltb_lt (blen _) 8)) by lia.
  rewrite andb_true_r. eapply (reads_bind _ _ _ _ _ tt); [|by apply sub_layers_reads].
  unfold blen in Hr at 1. destruct (0 <? blen (y_sub_layers s)).
  - eapply (reads_skip _ (length (y_reserved s))); [done|done|lia].
  - destruct (y_reserved s); [apply reads_ret|simpl in Hr; lia].
Qed.

Lemma window_reads o : window_ok (default (0, 0, 0, 0) o) ->
  reads parse_window (flagged window_layout o) (default (0, 0, 0, 0) o).
Proof.
  unfold parse_window. destruct o as [[[[l r] t] b]|]; cbn [flagged default window_layout window_ok].
  - intros (H1 & H2 & H3 & H4). do 4 sstep. slast.
  - intros _. slast.
Qed.

Lemma ordering_reads os : Forall triple_ok os -> reads (ordering_info (length os)) (os ≫= triple_layout) tt.
Proof.
  induction 1 as [|[[a b] c] os (H1 & H2 & H3) _ IH]; [apply reads_ret|]. cbn [length ordering_info].
  change ((?l :: os) ≫= ?g) with (g l ++ (os ≫= g)). cbn [triple_layout]. rewrite <-!(assoc_L (++)).
  do 3 sstep. exact IH.
Qed.

Lemma coefs_reads ds : forall next, - 2 ^ 40 <= next < 2 ^ 40 -> Forall se_ok ds ->
  reads (scaling_coefs (length ds) next) (ds ≫= se) tt.
Proof.
  induction ds as [|d ds IH]; intros next Hn Hds; [apply reads_ret|]. cbn [length scaling_coefs].
  apply Forall_cons_1 in Hds as [Hd Hds]. ranges.
  change ((d :: ds) ≫= se) with (se d ++ (ds ≫= se)). unfold se at 1. rstep. do 2 rpure.
  apply IH; [|done]. pose proof (Z.rem_bound_abs (next + d + 256) 256 ltac:(lia)). lia.
Qed.

Lemma matrix_reads size_id m : 0 <= size_id < 4 -> matrix_ok size_id m ->
  reads (scaling_matrix size_id) (matrix_layout size_id m) tt.
Proof.
  intros Hs Hm. unfold scaling_matrix. destruct m as [delta|dc deltas]; cbn [matrix_layout].
  { sstep. by apply reads_skip_ue. }
  destruct Hm as (Hdc & Hds & Hl). sstep. cbn [negb].
  eapply (reads_bind _ _ _ _ _ (if 1 <? size_id then 8 + dc else 8)).
  { destruct (1 <? size_id); [|apply reads_ret]. unfold se. ranges.
    eapply reads_last; [rcmd|]. apply reads_checked_i. lia. }
  cbv beta. replace (Z.to_nat (Z.min 64 (Z.shiftl 1 (4 + Z.shiftl size_id 1)))) with (length deltas).
  { ranges. apply coefs_reads; [destruct (1 <? size_id); lia|done]. }
  rewrite Z.shiftl_1_l, Z.shiftl_mul_pow2 by lia. rewrite (Z.mul_comm size_id). change (2 ^ 1) with 2.
  rewrite <-Hl. unfold blen. lia.
Qed.

Lemma matrices_reads size_id ms : forall n matrix_id, 0 <= size_id < 4 -> Forall (matrix_ok size_id) ms ->
  (length ms <= n)%nat -> matrix_id + blen ms * (if size_id =? 3 then 3 else 1) = 6 ->
  reads (scaling_matrices n size_id matrix_id) (ms ≫= matrix_layout size_id) tt.
Proof.
  induction ms as [|m ms IH]; intros n matrix_id Hs Hms Hn Hid.
  { destruct n; cbn [scaling_matrices]; rewrite (proj2 (Z.ltb_ge _ 6)) by (unfold blen in Hid; simpl in Hid; lia);
      apply reads_ret. }
  apply Forall_cons_1 in Hms as [Hm Hms]. destruct n as [|n]; [simpl in Hn; lia|].
  rewrite blen_cons in Hid. pose proof (blen_nonneg ms). cbn [scaling_matrices].
  rewrite (proj2 (Z.ltb_lt _ 6)) by (destruct (size_id =? 3); lia).
  change ((m :: ms) ≫= ?g) with (g m ++ (ms ≫= g)).
  eapply reads_bind; [by apply matrix_reads|]. cbv beta.
  apply IH; [done|done|simpl in Hn; lia|destruct (size_id =? 3); lia].
Qed.

Lemma sizes_reads n : forall size_id sizes, 0 <= size_id -> size_id + Z.of_nat n = 4 ->
  sizes_ok size_id n sizes -> reads (scaling_sizes n size_id) (sizes_layout size_id sizes) tt.
Proof.
  induction n as [|n IH]; intros size_id [|ms sizes] Hs Hn Hok; try done; [apply reads_ret|].
  destruct Hok as (Hl & Hms & Hok). cbn [scaling_sizes sizes_layout].
  eapply reads_bind; [|apply IH; [lia|lia|done]]. apply matrices_reads; [lia|done| |].
  - destruct (size_id =? 3); lia.
  - unfold blen. destruct (size_id =? 3); lia.
Qed.

Lemma scaling_reads o : opt (opt (sizes_ok 0 4)) o ->
  reads parse_scaling_list (flagged (flagged (sizes_layout 0)) o) tt.
Proof.
  unfold parse_scaling_list. destruct o as [[sizes|]|]; cbn [opt flagged]; intros Hok.
  - do 2 sstep. by apply sizes_reads.
  - sstep. slast.
  - slast.
Qed.

Lemma pcm_reads o : opt (fun '(_, _, min, diff, _) => ue_ok min /\ ue_ok diff) o ->
  reads parse_pcm (flagged pcm_layout o) tt.
Proof.
  unfold parse_pcm. destruct o as [[[[[dl dc] min] diff] filter]|]; cbn [opt flagged pcm_layout].
  - intros [H1 H2]. do 5 sstep. scmd.
  - intros _. slast.
Qed.

Lemma entries_reads es : forall fuel, Forall entry_ok es -> (length es <= fuel)%nat ->
  reads (poc_entries fuel (blen es)) (es ≫= entry_layout) tt.
Proof.
  induction es as [|[z b] es IH]; intros fuel Hok Hf; [destruct fuel; apply reads_ret|].
  apply Forall_cons_1 in Hok as [Hz Hok]. destruct fuel as [|fuel]; [simpl in Hf; lia|].
  cbn [poc_entries]. pose proof (blen_nonneg es). rewrite blen_cons, (proj2 (Z.leb_gt _ 0)) by lia.
  change ((?e :: es) ≫= ?g) with (g e ++ (es ≫= g)). unfold entry_layout at 1. cbn [fst snd].
  unfold entry_ok in Hz. simpl in Hz. rewrite <-(assoc_L (++)). do 2 sstep.
  replace (1 + blen es - 1) with (blen es) by lia. apply IH; [done|simpl in Hf; lia].
Qed.

Lemma length_entries es : (length es <= length (es ≫= entry_layout))%nat.
Proof.
  induction es as [|e es IH]; [done|]. change ((e :: es) ≫= ?g) with (g e ++ (es ≫= g)).
  unfold entry_layout at 1. rewrite !length_app. simpl. lia.
Qed.

Lemma bounded_entries es : Forall entry_ok es ->
  reads (bounded (fun fuel => poc_entries fuel (blen es))) (es ≫= entry_layout) tt.
Proof.
  intros Hok. apply reads_bounded. intros fuel Hf. apply entries_reads; [done|].
  pose proof (length_entries es). lia.
Qed.

Lemma rps_reads idx prev r : 0 <= idx -> rps_supported r -> exists next,
  reads (ref_pic_set idx prev) (rps_layout (idx =? 0) r) next.
Proof.
  intros Hidx Hr. destruct r as [neg pos|]; [|done]. destruct Hr as (H1 & H2 & H3 & H4).
  exists (blen neg + blen pos). unfold ref_pic_set, rps_layout.
  pose proof (blen_nonneg neg). pose proof (blen_nonneg pos).
  eapply (reads_bind _ _ _ _ _ false).
  { destruct (idx =? 0); [apply reads_ret|apply reads_bit]. }
  cbv iota. assert (ue_ok (blen neg)) by (ranges; lia). assert (ue_ok (blen pos)) by (ranges; lia).
  do 2 sstep. rpure. eapply reads_bind; [by apply bounded_entries|].
  eapply reads_last; [by apply bounded_entries|]. apply reads_ret.
Qed.

Lemma ref_pic_sets_reads rs : forall fuel idx prev n, 0 <= idx -> Forall rps_supported rs ->
  n = idx + blen rs -> (length rs <= fuel)%nat ->
  reads (ref_pic_sets fuel n idx prev)
    (match rs with [] => [] | r :: rs => rps_layout (idx =? 0) r ++ (rs ≫= rps_layout false) end) tt.
Proof.
  induction rs as [|r rs IH]; intros fuel idx prev n Hidx Hok -> Hf.
  { destruct fuel; cbn [ref_pic_sets]; rewrite (proj2 (Z.leb_le _ _)) by (unfold blen; simpl; lia); apply reads_ret. }
  apply Forall_cons_1 in Hok as [Hr Hok]. destruct fuel as [|fuel]; [simpl in Hf; lia|].
  pose proof (blen_nonneg rs). cbn [ref_pic_sets]. rewrite blen_cons, (proj2 (Z.leb_gt _ _)) by lia.
  destruct (rps_reads idx prev r Hidx Hr) as [next Hn]. eapply reads_bind; [exact Hn|]. cbv beta.
  specialize (IH fuel (idx + 1) next (idx + (1 + blen rs)) ltac:(lia) Hok ltac:(lia) ltac:(simpl in Hf; lia)).
  destruct rs as [|r' rs]; [exact IH|]. by rewrite (proj2 (Z.eqb_neq (idx + 1) 0)) in IH by lia.
Qed.

Lemma length_rps_layout first r : rps_supported r -> (1 <= length (rps_layout first r))%nat.
Proof.
  destruct r as [neg pos|]; [|done]. intros _. unfold rps_layout. rewrite !length_app.
  unfold ue, ExpGolomb.code. rewrite !length_app, length_val_bits. lia.
Qed.

Lemma length_all_rps first rs : Forall rps_supported rs ->
  (length rs <= length (match rs with [] => [] | r :: rs => rps_layout first r ++ (rs ≫= rps_layout false) end))%nat.
Proof.
  intros Hok. destruct Hok as [|r rs Hr Hok]; [done|]. rewrite length_app.
  pose proof (length_rps_layout first r Hr). simpl.
  assert (length rs <= length (rs ≫= rps_layout false))%nat; [|lia].
  clear Hr. induction Hok as [|r' rs Hr' _ IH]; [done|].
  change ((r' :: rs) ≫= ?g) with (g r' ++ (rs ≫= g)). rewrite length_app.
  pose proof (length_rps_layout false r' Hr'). simpl. lia.
Qed.

Lemma all_rps_reads rs : Forall rps_supported rs -> blen rs < 2 ^ 32 ->
  reads parse_ref_pic_sets (all_rps_layout rs) tt.
Proof.
  intros Hok Hl. pose proof (blen_nonneg rs). unfold parse_ref_pic_sets, all_rps_layout.
  assert (ue_ok (blen rs)) by (ranges; lia). sstep. rewrite (proj2 (Z.ltb_ge _ _)) by lia.
  apply reads_bounded. intros fuel Hf. apply ref_pic_sets_reads; [lia|done|lia|].
  pose proof (length_all_rps true rs Hok). lia.
Qed.

Lemma coding_tools_reads s : syntax_ok s -> supported s -> reads parse_tools (tools_layout s) tt.
Proof.
  intros (_ & _ & _ & _ & _ & _ & _ & _ & _ & _ & _ & _ & _ & Hb & Hsc & Hpcm & Hn & _) (_ & _ & _ & Hrps & Hlt).
  unfold parse_tools, tools_layout. destruct (y_blocks s) as [[[[[a b] c] d] e] g].
  destruct Hb as (H1 & H2 & H3 & H4 & H5 & H6). rewrite <-!(assoc_L (++)). do 6 sstep.
  eapply reads_bind; [by apply scaling_reads|]. do 2 sstep. eapply reads_bind; [by apply pcm_reads|].
  eapply reads_bind; [by apply all_rps_reads|]. cbv beta.
  eapply (reads_bind _ _ _ _ _ tt).
  { unfold parse_long_term. destruct (y_long_term s) as [pics|]; cbn [flagged]; [|slast].
    simpl in Hlt. subst pics. sstep. assert (ue_ok (blen (@nil (Z * bool)))) by done.
    sstep. apply (bounded_entries []). by constructor. }
  sstep. scmd.
Qed.

Section vui.
Context `{BO : ByteOrder}.

Lemma hevc_aspect_reads o : opt (fun '(idc, _) => fits 8 idc) o ->
  reads parse_aspect (flagged aspect_layout o) tt.
Proof.
  unfold parse_aspect. destruct o as [[idc [w h]]|]; cbn [opt flagged aspect_layout].
  - intros H1. do 2 sstep. destruct (idc =? 255); [|apply reads_ret]. sstep. scmd.
  - intros _. slast.
Qed.

Lemma hevc_overscan_reads o : reads parse_overscan (flagged (fun b => [b]) o) tt.
Proof. unfold parse_overscan. destruct o as [b|]; cbn [flagged]; [sstep; scmd|slast]. Qed.

Lemma hevc_color_reads v : vui_ok v ->
  reads parse_color (flagged H264Sps.signal_layout (v_signal v)) (color_of v).
Proof.
  intros (_ & Hs & _). unfold parse_color, color_of.
  destruct (v_signal v) as [[[format full] desc]|]; cbn [flagged H264Sps.signal_layout]; [|slast].
  do 3 sstep. destruct desc as [[[cp tc] mc]|]; cbn [flagged]; unfold u; [|slast].
  destruct Hs as (H1 & H2 & H3). do 3 rstep. rlast.
Qed.

Lemma hevc_chroma_loc_reads o : opt (fun '(t, b) => ue_ok t /\ ue_ok b) o ->
  reads parse_chroma_loc (flagged (fun '(t, b) => ue t ++ ue b) o) tt.
Proof.
  unfold parse_chroma_loc. destruct o as [[t b]|]; cbn [opt flagged]; [|intros _; slast].
  intros [H1 H2]. do 2 sstep. scmd.
Qed.

Lemma display_window_reads o : opt window_ok o ->
  reads parse_display_window (flagged window_layout o) tt.
Proof.
  unfold parse_display_window. destruct o as [[[[l r] t] b]|]; cbn [opt flagged window_layout window_ok];
    [|intros _; slast].
  intros (H1 & H2 & H3 & H4). do 4 sstep. scmd.
Qed.

Lemma vui_yields v : vui_ok v ->
  match vui_of v with
  | Ok cr => reads parse_vui (vui_layout v) cr
  | Err e => yields parse_vui (vui_layout v) (Err e)
  | _ => False
  end.
Proof.
  intros Hok. pose proof (hevc_color_reads v Hok) as Hc. destruct Hok as (H1 & _ & H3 & H4 & H5).
  pose proof (hevc_aspect_reads _ H1) as Ha. pose proof (hevc_chroma_loc_reads _ H3) as Hl.
  pose proof (hevc_overscan_reads (v_overscan v)) as Ho. pose proof (display_window_reads _ H4) as Hw.
  unfold vui_of, parse_vui, vui_layout.
  destruct (v_timing v) as [[units scale]|]; [|by do 4 (eapply reads_bind; [eassumption|]); do 3 sstep;
    eapply reads_bind; [eassumption|]; eapply reads_last; [slast|apply reads_ret]].
  destruct H5 as [H5 H6]. cbn [fst snd] in *. destruct (Z.eqb_spec units 0) as [->|Hu].
  - do 4 (eapply yields_then; [eassumption|]). do 3 (eapply yields_then; [scmd|]).
    eapply yields_then; [eassumption|]. rewrite <-(app_nil_r (flagged _ _)).
    eapply (yields_stop _ _ _ (Err InvalidData)); [|done]. unfold parse_timing, timing_layout. cbn [flagged fst snd].
    eapply yields_then; [scmd|]. eapply yields_then; [scmd|]. rewrite <-(app_nil_r (val_bits 32 scale)).
    eapply yields_then; [scmd|]. by intros r ys _ _.
  - do 4 (eapply reads_bind; [eassumption|]). do 3 sstep. eapply reads_bind; [eassumption|].
    eapply reads_last; [|apply reads_ret]. unfold parse_timing, timing_layout. cbn [flagged fst snd].
    do 2 sstep. eapply reads_last; [scmd|]. cbv beta. rewrite (proj2 (Z.eqb_neq units 0)) by done. apply reads_ret.
Qed.

Lemma hevc_tail_yields (w h : Z) o : opt vui_ok o ->
  yields (let* vui_parameters_present_flag := BitReader.read_bit in
          let* (color_config, frame_rate) :=
            if vui_parameters_present_flag then parse_vui else ret (None, H264Sps.f64_of 0) in
          ret (mkSps w h frame_rate color_config))
    (flagged vui_layout o)
    (match o with
     | None => Ok (mkSps w h (H264Sps.f64_of 0) None)
     | Some v => match vui_of v with
                 | Ok (color, rate) => Ok (mkSps w h rate color)
                 | Err e => Err e | Panic => Panic | Fuel => Fuel
                 end
     end).
Proof.
  intros Hok. destruct o as [v|]; cbn [flagged].
  - eapply yields_then; [scmd|]. cbv iota. pose proof (vui_yields v Hok) as Hv.
    destruct (vui_of v) as [[color rate]|e| |]; try done.
    + apply yields_reads. eapply reads_last; [exact Hv|]. apply reads_ret.
    + rewrite <-(app_nil_r (vui_layout v)). by eapply yields_stop.
  - apply yields_reads. eapply reads_last; [scmd|]. cbv iota. rpure. apply reads_ret.
Qed.

Lemma hevc_cropped a sub b c : ue_ok a -> ue_ok b -> ue_ok c -> 1 <= sub <= 2 ->
  if a - sub * (b + c) <? 0 then yields (cropped a sub b c) [] Panic
  else reads (cropped a sub b c) [] (a - sub * (b + c)).
Proof.
  intros Ha Hb Hc Hs. ranges. unfold cropped. assert (0 <= sub * (b + c) < 2 ^ 40) by nia.
  destruct (Z.ltb_spec (a - sub * (b + c)) 0).
  - do 2 (eapply yields_pure; [apply reads_checked_u; fits_tac|]).
    intros r ys _ _. by rewrite checked_u_panic by fits_tac.
  - do 2 rpure. apply reads_checked_u. fits_tac.
Qed.

Lemma sub_c_reads cf : 0 <= cf <= 3 -> reads (sub_c cf) [] (sub_width cf, sub_height cf).
Proof.
  intros H. assert (cf = 0 \/ cf = 1 \/ cf = 2 \/ cf = 3) as [->|[->|[->| ->]]] by lia; apply reads_ret.
Qed.

Lemma sub_c_error cf : 3 < cf -> yields (sub_c cf) [] (Err InvalidData).
Proof. intros H r ys _ _. destruct cf as [|[[[]|[]|]|[[]|[]|]|]|]; done || lia. Qed.

Ltac ysc := eapply yields_then; [scmd|]; cbv beta zeta.

Lemma hevc_rbsp_yields s : syntax_ok s -> supported s -> yields parse_rbsp (layout s) (denote s).
Proof.
  intros Hok Hsup. pose proof (ptl_reads s Hok Hsup) as Hptl. pose proof (coding_tools_reads s Hok Hsup) as Htools.
  pose proof (window_reads (y_window s)) as Hwin.
  destruct Hok as (_ & H7 & _ & _ & Hid & Hcf & Hw & Hh & Hwok & Hdl & Hdc & Hpoc & Hord & _ & _ & _ & _ & Hvui).
  destruct Hsup as (_ & Hall & Hlen & _). pose proof (blen_nonneg (y_sub_layers s)).
  assert (fits 3 (blen (y_sub_layers s))) as H3 by (unfold fits; lia).
  unfold parse_rbsp, layout, denote, dim_width, dim_height, window_of in *. specialize (Hwin Hwok).
  do 2 ysc. change (33 =? 33) with true. cbn [negb]. do 3 ysc. eapply yields_then; [exact Hptl|].
  do 2 ysc. eapply (yields_then _ _ _ _ tt).
  { destruct (_ =? 3); [slast|apply reads_ret]. }
  do 2 ysc. eapply yields_then; [exact Hwin|]. destruct (default _ (y_window s)) as [[[l r] t] b].
  destruct Hwok as (Hl & Hr & Ht & Hb). cbv beta iota.
  match goal with |- yields _ ?xs _ => set (rest := xs) end.
  destruct (Z.ltb_spec 3 (y_chroma_format s)) as [Hbad|Hgood].
  { rewrite <-(app_nil_l rest). by eapply yields_stop; [apply sub_c_error|]. }
  assert (0 <= y_chroma_format s <= 3) as Hcf3 by (ranges; lia).
  eapply yields_pure; [by apply sub_c_reads|]. cbv beta iota.
  assert (1 <= sub_width (y_chroma_format s) <= 2 /\ 1 <= sub_height (y_chroma_format s) <= 2) as [Hsw Hsh].
  { revert Hcf3. generalize (y_chroma_format s). intros cf Hcf3.
    assert (cf = 0 \/ cf = 1 \/ cf = 2 \/ cf = 3) as [->|[->|[->| ->]]] by lia; simpl; lia. }
  pose proof (hevc_cropped _ _ l r Hw Hl Hr Hsw) as Hcw. pose proof (hevc_cropped _ _ t b Hh Ht Hb Hsh) as Hch.
  destruct (_ <? 0) in Hcw |- *; cbn [orb].
  { rewrite <-(app_nil_l rest). by eapply yields_stop. }
  eapply yields_pure; [exact Hcw|]. destruct (_ <? 0) in Hch |- *.
  { rewrite <-(app_nil_l rest). by eapply yields_stop. }
  eapply yields_pure; [exact Hch|]. cbv beta. unfold rest. do 4 ysc. rewrite Hall. cbv iota.
  replace (S (Z.to_nat (blen (y_sub_layers s)))) with (length (y_ordering s)) by (unfold blen; lia).
  eapply yields_then; [by apply ordering_reads|]. eapply yields_then; [exact Htools|].
  by apply hevc_tail_yields.
Qed.
End vui.

(** ** Properties *)


(** Bits packed into [n] bytes, padded with zeros. *)
Fixpoint pack (n : nat) (xs : list bool) : list byte :=
  match n with
  | O => []
  | S n => z2b (bits_val (take 8 (xs ++ replicate 8 false))) :: pack n (drop 8 xs)
  end.

(** A NAL unit with the parameter set [s] and three more bytes. *)
Definition nal (s : SpsSyntax) : list byte :=
  H264Sps.escape 0 (pack (S (length (layout s)) / 8 + 1) (layout s)) ++ [x80; x80; x80].

(** 1920 by 1088 cropped to 1080 lines, 4:2:0, two sub-layers, a reference
    picture set of two pictures, 25 frames per second. *)
Definition example_syntax : SpsSyntax :=
  mkSyntax 8 true (replicate 96 true) [mkSubLayer (Some (replicate 88 true)) None] (replicate 14 false)
    0 1 false 1920 1088 (Some (0, 0, 0, 4)) 0 0 4 true [(4, 2, 0); (4, 2, 0)] (0, 3, 0, 3, 1, 1)
    (Some None) true true None [Explicit [(0, true); (1, true)] []; Explicit [(3, true)] [(0, false)]] None true true
    (Some (mkVui None None (Some (5, false, Some (1, 1, 1))) None false false false None (Some (1, 25)))).

(** Ranges of a concrete syntax. *)
Ltac concrete :=
  repeat match goal with
    | |- _ /\ _ => split
    | |- True => exact I
    | |- (_ <= _)%Z => vm_compute; congruence
    | |- (_ < _)%Z => vm_compute; reflexivity
    | |- _ = _ => vm_compute; reflexivity
    | |- Forall _ [] => apply Forall_nil_2
    | |- Forall _ (_ :: _) => apply Forall_cons_2
    | |- Forall _ _ => progress cbn
    | |- _ => progress hnf
    end.


(** Variants of the example outside [supported], each a parameter set the
    standard allows: one entry of ordering information for all sub-layers; a
    sub-layer without a profile; a reference picture set predicted from the
    one before (NumDeltaPocs + 1 flags); a long-term reference picture. *)
Definition variant (sub : SubLayerSyntax) (all : bool) (ord : list (Z * Z * Z)) (rps : list RpsSyntax)
    (long : option (list (Z * bool))) : SpsSyntax :=
  let s := example_syntax in
  mkSyntax (y_header s) (y_nesting s) (y_general s) [sub] (y_reserved s) (y_id s)
    (y_chroma_format s) (y_separate_plane s) (y_width s) (y_height s) (y_window s) (y_depth_luma s)
    (y_depth_chroma s) (y_log2_poc_minus4 s) all ord (y_blocks s) (y_scaling s) (y_amp s) (y_sao s) (y_pcm s)
    rps long (y_temporal_mvp s) (y_smoothing s) (y_vui s).

Definition with_profile : SubLayerSyntax := mkSubLayer (Some (replicate 88 true)) None.
Definition two_orders : list (Z * Z * Z) := [(4, 2, 0); (4, 2, 0)].

Definition unsupported : list SpsSyntax :=
  [variant with_profile false [(4, 2, 0)] (y_rps example_syntax) None;
   variant (mkSubLayer None (Some (replicate 8 true))) true two_orders (y_rps example_syntax) None;
   variant with_profile true two_orders
     [Explicit [(0, true); (1, true)] []; Inter true 0 [None; None; Some true]] None;
   variant with_profile true two_orders (y_rps example_syntax) (Some [(200, true)])].

(** On none of them does the parser return what the syntax denotes, although
    on the same values with the supported choices it does. *)
Example hevc_sps_divergence :
  parse (nal (variant with_profile true two_orders (y_rps example_syntax) None)) = denote example_syntax /\
  Forall (fun s => denote s = denote example_syntax /\ parse (nal s) <> denote s) unsupported.
Proof.
  split; [vm_compute; reflexivity|].
  repeat (apply Forall_cons_2; [split; [vm_compute; reflexivity|vm_compute; discriminate]|]).
  apply Forall_nil_2.
Qed.
End H265Sps.
