(* ===== verification/Mp4Box.v ===== *)
(** * [scuffle-mp4]: boxes (crates/mp4/src/boxes/header.rs, traits.rs)

    The box header, the full box header and the [BoxType] trait, with the
    framing its provided methods do; and the two logics in which every box of
    the crate is verified: [puts] for the bytes a [mux] writes, [takes_on] (of
    the configuration records) and [spec] for what a [demux] does on the bytes
    it is given. *)

From Stdlib Require Import Strings.String.
From stdpp Require Import base list numbers.
From Stdlib Require Import Strings.Byte.
From S2P Require Import Prelude Io BytesCursor BitIo H264 Flv.

(** ** Signed integers and strings of the standard library *)

Definition u8_max : Z := 2 ^ 8 - 1.
Definition u16_max : Z := 2 ^ 16 - 1.
Definition u32_max : Z := 2 ^ 32 - 1.
Definition i32_max : Z := 2 ^ 31 - 1.

(** [ReadBytesExt::read_iN], [WriteBytesExt::write_iN]: the two's complement
    pattern. *)
Definition read_int `{ByteOrder} (n : nat) : M Cursor ErrorKind Z :=
  let* z := read_uint BigEndian n in ret (swrap (8 * Z.of_nat n) z).
Definition write_int `{ByteOrder} {W} `{IoWrite W} (n : nat) (z : Z) : M W ErrorKind unit :=
  write_uint BigEndian n (wrap (8 * Z.of_nat n) z).

Abbreviation read_i16 := (read_int 2).
Abbreviation read_i32 := (read_int 4).
Abbreviation read_i64 := (read_int 8).
Abbreviation write_i16 := (write_int 2).
Abbreviation write_i32 := (write_int 4).
Abbreviation write_i64 := (write_int 8).

(** [String::push(c as char)] for a byte [c]: a [String] is its UTF-8 bytes,
    and [u8 as char] is the code point of that number. *)
Definition char_utf8 (c : Z) : list byte :=
  if c <? 128 then [z2b c] else [z2b (192 + c / 64); z2b (128 + c `mod` 64)].
Definition push_char (s : list byte) (c : Z) : list byte := s ++ char_utf8 c.

(** ** Loops *)

Section loops.
Context `{BO : ByteOrder}.

(** [for _ in 0..n { v.push(..) }] *)
Fixpoint read_times {A} (n : nat) (m : M Cursor ErrorKind A) : M Cursor ErrorKind (list A) :=
  match n with
  | O => ret []
  | S n => let* a := m in let* rest := read_times n m in ret (a :: rest)
  end.

(** [for x in &xs { .. }] *)
Definition for_each {W A} (xs : list A) (f : A -> M W ErrorKind unit) : M W ErrorKind unit :=
  (fix go (xs : list A) : M W ErrorKind unit :=
     match xs with
     | [] => ret tt
     | x :: xs => f x ;;; go xs
     end) xs.

(** [if let Some(x) = &o { .. }] *)
Definition if_some {W A} (o : option A) (f : A -> M W ErrorKind unit) : M W ErrorKind unit :=
  match o with Some a => f a | None => ret tt end.

(** [Option::is_some] *)
Definition is_some {A} (o : option A) : bool := match o with Some _ => true | None => false end.

(** [if b { Some(..) } else { None }] *)
Definition read_if {A} (b : bool) (m : M Cursor ErrorKind A) : M Cursor ErrorKind (option A) :=
  if b then let* a := m in ret (Some a) else ret None.

(** [while reader.has_remaining() { step }]; every step that succeeds reads at
    least one byte, so the bytes left, plus one, bound the turns. *)
Fixpoint while_remaining {S} (fuel : nat) (step : S -> M Cursor ErrorKind S) (s : S) : M Cursor ErrorKind S :=
  match fuel with
  | O => out_of_fuel
  | Datatypes.S fuel =>
      let* more := AvcConfig.has_remaining in
      if more then let* s := step s in while_remaining fuel step s else ret s
  end.

Definition loop_remaining {S} (step : S -> M Cursor ErrorKind S) (s : S) : M Cursor ErrorKind S :=
  let* c := get in while_remaining (Datatypes.S (length (cursor_rest c))) step s.

(** A parser over its own cursor, [io::Cursor::new(data)]. *)
Definition over {A} (data : list byte) (m : M Cursor ErrorKind A) : res ErrorKind A :=
  fst (m (cursor_new data)).

(** [loop { let c = read_u8()?; if c == 0 { break } s.push(c as char) }]: at
    most one turn for each byte left, and one that fails. *)
Fixpoint read_c_string (fuel : nat) (s : list byte) : M Cursor ErrorKind (list byte) :=
  match fuel with
  | O => out_of_fuel
  | S fuel => let* c := read_u8 in if c =? 0 then ret s else read_c_string fuel (push_char s c)
  end.
Definition read_string : M Cursor ErrorKind (list byte) :=
  let* c := get in read_c_string (S (length (cursor_rest c))) [].
End loops.

Definition sum_of {A} (f : A -> Z) (xs : list A) : Z := foldr (fun x n => f x + n) 0 xs.
Definition opt_size {A} (f : A -> Z) (o : option A) : Z := match o with Some a => f a | None => 0 end.

(** ** header.rs *)

Module BoxHeader.
Record t := mk { box_type : list byte }.

Definition new (box_type : list byte) : t := mk box_type.

Section demux.
Context `{BO : ByteOrder}.

(** [size - offset] is an unsigned subtraction: it overflows for the sizes 2 to
    7, and for a 64-bit size below 16. *)
Definition demux : M Cursor ErrorKind (t * list byte) :=
  let* size := read_u32 in
  let* box_type := read_exact 4 in
  let offset := if size =? 1 then 16 else 8 in
  let* size := if size =? 1 then read_u64 else ret size in
  let* data :=
    if size =? 0 then BytesCursorExt.extract_remaining
    else let* n := checked_u 64 (size - offset) in BytesCursorExt.extract_bytes n in
  ret (mk box_type, data).
End demux.
End BoxHeader.

Module FullBoxHeader.
Record t := mk { header : BoxHeader.t; version : Z; flags : Z }.

Definition new (box_type : list byte) (version flags : Z) : t :=
  mk (BoxHeader.new box_type) version flags.

Definition size (h : t) : Z := 1 + 3.

Section ops.
Context `{BO : ByteOrder}.

Definition demux (header : BoxHeader.t) : M Cursor ErrorKind t :=
  let* version := read_u8 in
  let* flags := read_u24 in
  ret (mk header version flags).

Definition mux {W} `{IoWrite W} (h : t) : M W ErrorKind unit :=
  write_u8 (version h) ;;;
  write_u24 (flags h) ;;;
  ret tt.
End ops.

(** The header of a box called [name], within the widths of its fields. *)
Definition wf (name : list byte) (h : t) : Prop :=
  header h = BoxHeader.new name /\ fits 8 (version h) /\ fits 24 (flags h).
End FullBoxHeader.

(** ** traits.rs *)

(** The methods of the trait that write; sizes are exact, since every summand
    is the length of data in memory. *)
Class BoxType (A : Type) := mkBoxType {
  NAME : list byte;
  primitive_size : A -> Z;
  primitive_mux : forall W, IoWrite W -> A -> M W ErrorKind unit;
  validate : A -> res ErrorKind unit;
}.

(** The method that reads, a class of its own: the containers read dynamic
    boxes, which contain them. *)
Class BoxDemux (A : Type) := mkBoxDemux { demux : BoxHeader.t -> list byte -> res ErrorKind A }.

Section provided.
Context `{BO : ByteOrder}.

(** The provided [size] and [mux], from what the required methods return. *)
Definition box_size (primitive_size : Z) : Z :=
  let primitive_size := primitive_size + 8 in
  if u32_max <? primitive_size then primitive_size + 8 else primitive_size.

Definition box_mux {W} `{IoWrite W} (name : list byte) (validate : res ErrorKind unit) (size : Z)
    (primitive_mux : M W ErrorKind unit) : M W ErrorKind unit :=
  lift validate ;;;
  (if u32_max <? size then write_u32 1 else write_u32 size) ;;;
  write_all name ;;;
  (if u32_max <? size then write_u64 size else ret tt) ;;;
  primitive_mux.

Context {A : Type} `{BoxType A}.

Definition size (a : A) : Z := box_size (primitive_size a).

Definition mux {W} `{IoWrite W} (a : A) : M W ErrorKind unit :=
  box_mux NAME (validate a) (size a) (primitive_mux W _ a).
End provided.

(** ** What a [mux] writes *)

Definition puts {W} `{IoWriteLaws W} (m : M W ErrorKind unit) (bs : list byte) : Prop :=
  forall w, exists w', m w = (Ok tt, w') /\ written w' = written w ++ bs.

Section puts.
Context {W : Type} `{IoWriteLaws W} `{BO : ByteOrder}.

Lemma puts_ret : puts (ret tt) [].
Proof. intros w. exists w. by rewrite app_nil_r. Qed.

Lemma puts_eq m bs bs' : bs = bs' -> puts m bs -> puts m bs'.
Proof. by intros ->. Qed.

Lemma puts_all bs : puts (write_all bs) bs.
Proof. intros w. apply write_all_ok. Qed.

Lemma puts_uint n z : 0 <= z < 256 ^ Z.of_nat n -> puts (write_uint BigEndian n z) (be_bytes n z).
Proof.
  intros Hz w. unfold write_uint. rewrite bo_write_be by done. simpl. unfold bind, ret. apply write_all_ok.
Qed.

Lemma puts_bind (m : M W ErrorKind unit) (k : unit -> M W ErrorKind unit) xs ys :
  puts m xs -> puts (k tt) ys -> puts (bind m k) (xs ++ ys).
Proof.
  intros Hm Hk w. destruct (Hm w) as (w1 & E1 & H1). destruct (Hk w1) as (w2 & E2 & H2).
  exists w2. split; [by rewrite (bind_ok _ _ _ _ _ E1)|]. by rewrite H2, H1, (assoc_L (++)).
Qed.

Lemma puts_assoc {A B} (m : M W ErrorKind A) (k : A -> M W ErrorKind B) (k' : B -> M W ErrorKind unit) bs :
  puts (bind m (fun a => bind (k a) k')) bs -> puts (bind (bind m k) k') bs.
Proof.
  intros Hm w. destruct (Hm w) as (w' & E & Hw). exists w'. split; [|done]. rewrite <-E.
  unfold bind. by destruct (m w) as [[]].
Qed.

Lemma puts_skip {A} (a : A) (k : A -> M W ErrorKind unit) bs : puts (k a) bs -> puts (bind (ret a) k) bs.
Proof. done. Qed.

Lemma puts_checked w z (k : Z -> M W ErrorKind unit) bs : fits w z -> puts (k z) bs -> puts (bind (checked_u w z) k) bs.
Proof. intros Hz Hk v. destruct (Hk v) as (v' & E & Hv). exists v'. by rewrite (bind_ok _ _ _ _ _ (checked_u_ok w z v Hz)). Qed.

Lemma puts_each {A} (xs : list A) (f : A -> M W ErrorKind unit) (enc : A -> list byte) :
  (forall x, x ∈ xs -> puts (f x) (enc x)) -> puts (for_each xs f) (xs ≫= enc).
Proof.
  induction xs as [|x xs IH]; intros Hf; [apply puts_ret|].
  change (puts (f x ;;; for_each xs f) (enc x ++ (xs ≫= enc))). apply puts_bind.
  - apply Hf. by left.
  - apply IH. intros y Hy. apply Hf. by right.
Qed.
End puts.

(** The bytes an action writes to a [Vec]. *)
Definition output (m : M (list byte) ErrorKind unit) : list byte := snd (m []).

Lemma puts_output (m : M (list byte) ErrorKind unit) bs : puts m bs -> output m = bs.
Proof. intros Hm. destruct (Hm []) as (w & E & Hw). unfold output. rewrite E. simpl in *. by subst. Qed.

(** ** Framing *)

(** What [primitive_mux] and [demux] of a box owe each other. *)
Definition codec `{BoxType A, BoxDemux A} (a : A) : Prop :=
  exists bs, (forall W (HW : IoWrite W) (HL : IoWriteLaws W), puts (primitive_mux W _ a) bs) /\
    blen bs = primitive_size a /\ demux (BoxHeader.new NAME) bs = Ok a.

(** A frame around [data], as [size] and [mux] lay it out. *)
Definition frame (name data : list byte) : list byte :=
  let n := blen data + 8 in
  if u32_max <? n
  then be_bytes 4 1 ++ name ++ be_bytes 8 (n + 8) ++ data
  else be_bytes 4 n ++ name ++ data.

Lemma takes_read_if_true `{BO : ByteOrder} {A} P (m : M Cursor ErrorKind A) bs a :
  TotalParse.takes_on P m bs a -> TotalParse.takes_on P (read_if true m) bs (Some a).
Proof. intros Hm. eapply TotalParse.takes_last; [done|apply TotalParse.takes_ret]. Qed.

Section takes.
Context `{BO : ByteOrder}.
Import TotalParse.

Lemma takes_assoc {A B C} P (m : M Cursor ErrorKind A) (k : A -> M Cursor ErrorKind B)
    (k' : B -> M Cursor ErrorKind C) bs c :
  takes_on P (bind m (fun a => bind (k a) k')) bs c -> takes_on P (bind (bind m k) k') bs c.
Proof.
  intros Hm pre post HP. rewrite <-(Hm pre post HP). unfold bind. by destruct (m _) as [[]].
Qed.

Lemma takes_skip {A B} P (a : A) (k : A -> M Cursor ErrorKind B) bs b :
  takes_on P (k a) bs b -> takes_on P (bind (ret a) k) bs b.
Proof. done. Qed.

Lemma takes_get {B} P (k : Cursor -> M Cursor ErrorKind B) bs b :
  (forall c, (length bs <= length (cursor_rest c))%nat -> takes_on P (k c) bs b) -> takes_on P (bind get k) bs b.
Proof.
  intros Hk pre post HP. erewrite bind_ok; [|done]. apply Hk; [|done].
  rewrite cursor_rest_at, length_app. lia.
Qed.

Lemma takes_exact P n bs : length bs = n -> takes_on P (read_exact (T := Cursor) n) bs bs.
Proof. intros Hl pre post _. by apply read_exact_at. Qed.

Lemma takes_ret_eq {A} P (a b : A) : a = b -> takes_on (E := ErrorKind) P (ret a) [] b.
Proof. intros ->. apply takes_ret. Qed.

Lemma swrap_wrap w z : 0 < w -> - 2 ^ (w - 1) <= z < 2 ^ (w - 1) -> swrap w (wrap w z) = z.
Proof.
  intros Hw Hz. unfold swrap, wrap. pose proof (Z.pow_pos_nonneg 2 (w - 1) ltac:(lia) ltac:(lia)).
  assert (2 ^ w = 2 * 2 ^ (w - 1)) as Hp by (rewrite <-Z.pow_succ_r by lia; f_equal; lia).
  rewrite Z.mod_mod, Hp by lia. destruct (Z.lt_ge_cases z 0).
  - rewrite <-(Z.mod_unique z (2 * 2 ^ (w - 1)) (-1) (z + 2 * 2 ^ (w - 1))) by lia.
    rewrite (proj2 (Z.ltb_ge _ _)) by lia. lia.
  - rewrite Z.mod_small by lia. rewrite (proj2 (Z.ltb_lt _ _)) by lia. done.
Qed.

Lemma takes_int P n z : (0 < n)%nat ->
  - 2 ^ (8 * Z.of_nat n - 1) <= z < 2 ^ (8 * Z.of_nat n - 1) ->
  takes_on P (read_int n) (be_bytes n (wrap (8 * Z.of_nat n) z)) z.
Proof.
  intros Hn Hz. unfold read_int. eapply takes_last.
  - apply takes_uint. change 256 with (2 ^ 8). rewrite <-Z.pow_mul_r by lia.
    apply Z.mod_pos_bound, Z.pow_pos_nonneg; lia.
  - apply takes_ret_eq, swrap_wrap; [lia|done].
Qed.

Lemma takes_times {A} P (xs : list A) (enc : A -> list byte) (m : M Cursor ErrorKind A) n :
  n = length xs -> (forall x, x ∈ xs -> takes_on (fun _ => True) m (enc x) x) ->
  takes_on P (read_times n m) (xs ≫= enc) xs.
Proof.
  intros -> Hm. induction xs as [|x xs IH]; [apply takes_ret|]. simpl.
  eapply takes_bind; [apply Hm; by left|].
  eapply takes_last; [apply IH; intros y Hy; apply Hm; by right|apply takes_ret].
Qed.

(** The loop over the rest of the buffer takes the items one after another. *)
Lemma while_at {S B} (step : S -> M Cursor ErrorKind S) (f : S -> B -> S) (bytes : B -> list byte) (bs : list B) :
  (forall b, b ∈ bs -> bytes b <> [] /\ forall s, takes_on (fun _ => True) (step s) (bytes b) (f s b)) ->
  forall fuel s pre, (length bs < fuel)%nat ->
  while_remaining fuel step s (at_pos pre (bs ≫= bytes)) =
    (Ok (fold_left f bs s), at_pos (pre ++ (bs ≫= bytes)) []).
Proof.
  induction bs as [|b bs IH]; intros Hb [|fuel] s pre Hf; simpl in Hf; try lia;
    cbn [while_remaining]; (erewrite bind_ok; [|apply AvcConfig.has_remaining_at]).
  - simpl. by rewrite app_nil_r.
  - destruct (Hb b) as [Hne Ht]; [by left|]. simpl.
    rewrite (proj2 (Z.ltb_lt _ _)) by
      (unfold blen; rewrite length_app; destruct (bytes b); [done|simpl; lia]).
    erewrite bind_ok; [|by apply Ht]. rewrite IH; [|intros; apply Hb; by right|lia].
    by rewrite (assoc_L (++)).
Qed.

Lemma length_bind_ge {B} (bytes : B -> list byte) (bs : list B) :
  (forall b, b ∈ bs -> bytes b <> []) -> (length bs <= length (bs ≫= bytes))%nat.
Proof.
  induction bs as [|b bs IH]; intros Hb; [done|].
  change ((b :: bs) ≫= bytes) with (bytes b ++ (bs ≫= bytes)). rewrite length_app; simpl length.
  assert (length (bytes b) <> 0%nat) by (intros ?%nil_length_inv; eapply Hb; [by left|done]).
  assert (length bs <= length (bs ≫= bytes))%nat by (apply IH; intros; apply Hb; by right). lia.
Qed.

Lemma fold_snoc {B} (xs acc : list B) : fold_left (fun acc x => acc ++ [x]) xs acc = acc ++ xs.
Proof.
  revert acc. induction xs as [|x xs IH]; intros acc; simpl; [by rewrite app_nil_r|].
  by rewrite IH, <-(assoc_L (++)).
Qed.

Lemma takes_loop {S B} (step : S -> M Cursor ErrorKind S) (f : S -> B -> S) (bytes : B -> list byte) (bs : list B) s :
  (forall b, b ∈ bs -> bytes b <> [] /\ forall s, takes_on (fun _ => True) (step s) (bytes b) (f s b)) ->
  takes_on (fun post => post = []) (loop_remaining step s) (bs ≫= bytes) (fold_left f bs s).
Proof.
  intros Hb pre post ->. rewrite app_nil_r. unfold loop_remaining. erewrite bind_ok; [|done].
  rewrite cursor_rest_at. apply while_at; [done|].
  assert (length bs <= length (bs ≫= bytes))%nat by (apply length_bind_ge; intros; by apply Hb). lia.
Qed.

Lemma over_takes {A} P (m : M Cursor ErrorKind A) bs a : takes_on P m bs a -> P [] -> over bs m = Ok a.
Proof.
  intros Hm HP. unfold over. change (cursor_new bs) with (at_pos [] bs).
  rewrite <-(app_nil_r bs), (Hm [] []) by done. done.
Qed.

Lemma over_consumes {A} (m : M Cursor ErrorKind A) bs a : Flv.consumes m bs a -> blen bs < 2 ^ 50 -> over bs m = Ok a.
Proof.
  intros Hm Hl. unfold over. change (cursor_new bs) with (at_pos [] bs). by rewrite (Hm [] Hl).
Qed.

Lemma push_ascii s c : 0 <= c < 128 -> push_char s c = s ++ [z2b c].
Proof. intros Hc. unfold push_char, char_utf8. by rewrite (proj2 (Z.ltb_lt _ _)) by lia. Qed.

(** A string whose bytes are ASCII and not NUL, followed by NUL. *)
Definition c_string (s : list byte) : Prop := Forall (fun b => 0 < b2z b < 128) s.

Lemma read_c_string_at s acc post fuel pre : c_string s -> (length s < fuel)%nat ->
  read_c_string fuel acc (at_pos pre (s ++ be_bytes 1 0 ++ post)) =
    (Ok (acc ++ s), at_pos (pre ++ s ++ be_bytes 1 0) post).
Proof.
  intros Hs. revert acc fuel pre. induction Hs as [|b s Hb Hs IH]; intros acc [|fuel] pre Hf;
    simpl in Hf; try lia; cbn [read_c_string].
  - change ([] ++ ?l) with l. erewrite bind_ok; [|by apply read_uint_be_bytes]. by rewrite app_nil_r.
  - rewrite <-app_comm_cons, (app_comm_cons s). change (b :: s) with ([b] ++ s).
    rewrite <-!(assoc_L (++) [b]). erewrite bind_ok; [|by apply read_uint_be_at].
    change (be_val [b]) with (0 * 256 + b2z b). rewrite (proj2 (Z.eqb_neq _ _)) by lia.
    rewrite push_ascii, IH by (try lia). change (0 * 256 + b2z b) with (b2z b). rewrite z2b_b2z.
    by rewrite <-!(assoc_L (++)).
Qed.

Lemma takes_string P s : c_string s -> takes_on P read_string (s ++ be_bytes 1 0) s.
Proof.
  intros Hs pre post _. unfold read_string. erewrite bind_ok; [|done].
  rewrite cursor_rest_at, <-(assoc_L (++)). by apply read_c_string_at; [|rewrite !length_app; lia].
Qed.

Lemma takes_string_bind {B} P s (k : list byte -> M Cursor ErrorKind B) ys b : c_string s ->
  takes_on P (k s) ys b -> takes_on P (bind read_string k) (s ++ be_bytes 1 0 ++ ys) b.
Proof.
  intros Hs Hk. rewrite (assoc_L (++)). eapply takes_bind; [by apply takes_string|done].
Qed.

Lemma takes_rest bs : takes_on (fun post => post = []) BytesCursorExt.extract_remaining bs bs.
Proof. intros pre post ->. rewrite app_nil_r. apply BytesCursorExt.extract_remaining_at. Qed.
End takes.

Section framing.
Context `{BO : ByteOrder}.
Import TotalParse.

Lemma blen_frame name data : length name = 4%nat ->
  blen (frame name data) =
    (let n := blen data + 8 in if u32_max <? n then n + 8 else n).
Proof.
  intros Hn. unfold frame. cbv zeta. assert (blen name = 4) by (unfold blen; lia).
  destruct (u32_max <? blen data + 8); autorewrite with scuffle; lia.
Qed.

Lemma header_takes_frame P name data : length name = 4%nat -> blen data < 2 ^ 60 ->
  takes_on P BoxHeader.demux (frame name data) (BoxHeader.new name, data).
Proof.
  intros Hn Hd. unfold frame, BoxHeader.demux, u32_max. cbv zeta. pose proof (blen_nonneg data).
  destruct (Z.ltb_spec (2 ^ 32 - 1) (blen data + 8)).
  - eapply takes_bind; [apply takes_uint; lia|]. cbv beta. rewrite Z.eqb_refl.
    eapply takes_bind; [by apply takes_exact|].
    eapply takes_bind; [apply takes_uint; lia|]. rewrite (proj2 (Z.eqb_neq _ 0)) by lia.
    eapply takes_last; [|apply takes_ret]. intros pre post _.
    erewrite bind_ok; [|apply checked_u_ok; unfold fits; lia].
    apply BytesCursorExt.extract_bytes_at. lia.
  - eapply takes_bind; [apply takes_uint; lia|]. cbv beta. rewrite (proj2 (Z.eqb_neq _ 1)) by lia.
    eapply takes_bind; [by apply takes_exact|]. apply takes_skip.
    rewrite (proj2 (Z.eqb_neq _ 0)) by lia.
    eapply takes_last; [|apply takes_ret]. intros pre post _.
    erewrite bind_ok; [|apply checked_u_ok; unfold fits; lia].
    apply BytesCursorExt.extract_bytes_at. lia.
Qed.

(** What [size] and [mux] make of [primitive_size] and [primitive_mux]. *)
Lemma mux_frames name (m : forall W, IoWrite W -> M W ErrorKind unit) n bs :
  length name = 4%nat -> blen bs = n -> blen bs < 2 ^ 60 ->
  (forall W (HW : IoWrite W) (HL : IoWriteLaws W), puts (m W _) bs) ->
  blen (frame name bs) = box_size n /\
  forall W (HW : IoWrite W) (HL : IoWriteLaws W), puts (box_mux name (Ok tt) (box_size n) (m W _)) (frame name bs).
Proof.
  intros Hn Hb Hl Hp. assert (blen (frame name bs) = box_size n) as Hsz.
  { rewrite blen_frame, Hb by done. done. }
  split; [done|]. intros W HW HL. unfold box_mux. apply puts_skip.
  pose proof (blen_nonneg bs). unfold box_size, u32_max in *. rewrite <-Hb in *. cbv zeta in *.
  unfold frame, u32_max. cbv zeta. destruct (Z.ltb_spec (2 ^ 32 - 1) (blen bs + 8)).
  - rewrite (proj2 (Z.ltb_lt _ _)) by lia.
    repeat (eapply puts_bind; [first [apply puts_uint; lia | apply puts_all]|]). apply Hp.
  - rewrite (proj2 (Z.ltb_ge _ _)) by lia.
    do 2 (eapply puts_bind; [first [apply puts_uint; lia | apply puts_all]|]). apply puts_skip, Hp.
Qed.
End framing.

(** ** What a [demux] does on arbitrary bytes *)

(** On every buffer, [m] returns a value of [Q], fails with a parse error, or,
    where [pan] allows it, panics; it never runs out of fuel. *)
Definition spec {A} (pan : Prop) (m : M Cursor ErrorKind A) (Q : A -> Prop) : Prop :=
  forall c, Flv.buffered c ->
  match m c with
  | (Ok a, c') => Flv.buffered c' /\ Q a
  | (Err e, _) => BitIo.parse_error e
  | (Panic, _) => pan
  | (Fuel, _) => False
  end.

(** The same for a parser over its own buffer. *)
Definition outcome {A} (pan : Prop) (r : res ErrorKind A) (Q : A -> Prop) : Prop :=
  match r with
  | Ok a => Q a
  | Err e => BitIo.parse_error e
  | Panic => pan
  | Fuel => False
  end.

(** A step that succeeds reads at least [k] bytes. *)
Definition advances {A} (k : nat) (m : M Cursor ErrorKind A) : Prop :=
  forall c, Flv.buffered c -> match m c with
  | (Ok _, c') => Flv.buffered c' /\ (length (cursor_rest c') + k <= length (cursor_rest c))%nat
  | _ => True
  end.

Section spec.
Context `{BO : ByteOrder} {pan : Prop}.

Lemma spec_ret {A} (a : A) (Q : A -> Prop) : Q a -> spec pan (ret a) Q.
Proof. intros HQ c Hc. done. Qed.

Lemma spec_throw {A} (Q : A -> Prop) : spec pan (throw InvalidData) Q.
Proof. intros c Hc. by right. Qed.

Lemma spec_panic {A} (Q : A -> Prop) : pan -> spec pan panic Q.
Proof. by intros Hp c Hc. Qed.

Lemma spec_bind {A B} (m : M Cursor ErrorKind A) (k : A -> M Cursor ErrorKind B) (Q : A -> Prop) (R : B -> Prop) :
  spec pan m Q -> (forall a, Q a -> spec pan (k a) R) -> spec pan (bind m k) R.
Proof.
  intros Hm Hk c Hc. specialize (Hm c Hc). unfold bind. destruct (m c) as [[a|e| |] c1]; try done.
  destruct Hm as [Hc1 HQ]. by apply (Hk a).
Qed.

Lemma spec_mono {A} (m : M Cursor ErrorKind A) (Q R : A -> Prop) :
  spec pan m Q -> (forall a, Q a -> R a) -> spec pan m R.
Proof.
  intros Hm HQR c Hc. specialize (Hm c Hc). destruct (m c) as [[]]; try done. naive_solver.
Qed.

Lemma spec_steady {A} (m : M Cursor ErrorKind A) : Flv.steady m -> spec pan m (fun _ => True).
Proof. intros Hm c Hc. specialize (Hm c Hc). by destruct (m c) as [[]]. Qed.

Lemma spec_total {A} (m : M Cursor ErrorKind A) (Q : A -> list byte -> Prop) :
  (forall pre post, TotalParse.total m pre post (eq UnexpectedEof) Q) ->
  spec pan m (fun a => exists bs, Q a bs).
Proof.
  intros Hm c Hc. pose proof (Flv.steady_total m Q Hm c Hc) as Hs.
  destruct (Flv.buffered_at c Hc) as (pre & post & -> & Hl). specialize (Hm pre post).
  unfold TotalParse.total in Hm. destruct (m _) as [[]]; try done. naive_solver.
Qed.

Lemma spec_uint n : spec pan (read_uint (T := Cursor) BigEndian n) (fun z => 0 <= z < 256 ^ Z.of_nat n).
Proof.
  eapply spec_mono; [apply spec_total, TotalParse.total_uint|]. naive_solver.
Qed.

Lemma swrap_range w z : 0 < w -> - 2 ^ (w - 1) <= swrap w z < 2 ^ (w - 1).
Proof.
  intros Hw. unfold swrap. pose proof (Z.pow_pos_nonneg 2 (w - 1) ltac:(lia) ltac:(lia)).
  assert (2 ^ w = 2 * 2 ^ (w - 1)) as Hp by (rewrite <-Z.pow_succ_r by lia; f_equal; lia).
  pose proof (Z.mod_pos_bound z (2 ^ w) ltac:(lia)).
  destruct (Z.ltb_spec (z `mod` 2 ^ w) (2 ^ (w - 1))); lia.
Qed.

Lemma spec_int n : (0 < n)%nat ->
  spec pan (read_int n) (fun z => - 2 ^ (8 * Z.of_nat n - 1) <= z < 2 ^ (8 * Z.of_nat n - 1)).
Proof.
  intros Hn. eapply spec_bind; [apply spec_uint|]. intros z _. apply spec_ret, swrap_range. lia.
Qed.

Lemma spec_read_exact n : spec pan (read_exact (T := Cursor) n) (fun bs => length bs = n).
Proof.
  intros c Hc. pose proof (Flv.steady_read_exact n c Hc) as Hs.
  destruct (Flv.buffered_at c Hc) as (pre & post & -> & Hl). simpl in *.
  unfold cursor_read_exact in *. rewrite cursor_rest_at in *. case_decide; [|done].
  split; [done|]. rewrite length_take. lia.
Qed.

Lemma spec_rest : spec pan BytesCursorExt.extract_remaining (fun _ => True).
Proof. apply spec_steady, Flv.steady_rest. Qed.

Lemma spec_extract n : 0 <= n -> spec pan (BytesCursorExt.extract_bytes n) (fun bs => blen bs = n).
Proof.
  intros Hn. eapply spec_mono; [by apply spec_total; intros; apply TotalParse.total_extract|]. naive_solver.
Qed.

Lemma spec_times {A} n (m : M Cursor ErrorKind A) (Q : A -> Prop) :
  spec pan m Q -> spec pan (read_times n m) (fun xs => length xs = n /\ Forall Q xs).
Proof.
  intros Hm. induction n as [|n IH]; simpl; [by apply spec_ret|].
  eapply spec_bind; [done|]. intros a Ha. eapply spec_bind; [done|]. intros xs [Hl Hx].
  apply spec_ret. split; [simpl; lia|by constructor].
Qed.

(** An optional field that is present exactly when [b] holds. *)
Definition present {A} (b : bool) (Q : A -> Prop) (o : option A) : Prop :=
  match o with Some a => b = true /\ Q a | None => b = false end.

Lemma spec_read_if {A} b (m : M Cursor ErrorKind A) (Q : A -> Prop) :
  spec pan m Q -> spec pan (read_if b m) (present b Q).
Proof.
  intros Hm. unfold read_if. destruct b; [|by apply spec_ret].
  eapply spec_bind; [done|]. intros a Ha. by apply spec_ret.
Qed.

Lemma spec_while {S} (step : S -> M Cursor ErrorKind S) (I : S -> Prop) :
  (forall s, I s -> spec pan (step s) I) -> (forall s, advances 1 (step s)) ->
  forall fuel s c, I s -> Flv.buffered c -> (length (cursor_rest c) < fuel)%nat ->
  match while_remaining fuel step s c with
  | (Ok s', c') => Flv.buffered c' /\ I s'
  | (Err e, _) => BitIo.parse_error e
  | (Panic, _) => pan
  | (Fuel, _) => False
  end.
Proof.
  intros Hs Ha. induction fuel as [|fuel IH]; intros s c HI Hc Hf; [lia|]. cbn [while_remaining].
  assert (AvcConfig.has_remaining c = (Ok (0 <? blen (cursor_rest c)), c)) as E.
  { destruct (Flv.buffered_at c Hc) as (pre & post & -> & _).
    by rewrite AvcConfig.has_remaining_at, cursor_rest_at. }
  rewrite (bind_ok _ _ _ _ _ E).
  destruct (0 <? blen (cursor_rest c)); [|done]. specialize (Hs s HI c Hc). specialize (Ha s c Hc).
  unfold bind. destruct (step s c) as [[s'|e| |] c']; try done.
  destruct Hs as [Hc' HI'], Ha as [_ Ha]. apply IH; [done|done|lia].
Qed.

Lemma spec_loop {S} (step : S -> M Cursor ErrorKind S) (I : S -> Prop) s : I s ->
  (forall s, I s -> spec pan (step s) I) -> (forall s, advances 1 (step s)) -> spec pan (loop_remaining step s) I.
Proof.
  intros HI Hs Ha c Hc. unfold loop_remaining. erewrite bind_ok; [|done]. apply spec_while; auto.
Qed.

Lemma spec_over {A} data (m : M Cursor ErrorKind A) (Q : A -> Prop) :
  8 * blen data < 2 ^ 62 -> spec pan m Q -> outcome pan (over data m) Q.
Proof.
  intros Hl Hm. specialize (Hm (cursor_new data)). unfold over, outcome.
  assert (Flv.buffered (cursor_new data)) as Hc by (split; simpl; [lia|done]).
  specialize (Hm Hc). destruct (m _) as [[]]; try done. by destruct Hm.
Qed.

Lemma spec_read_c_string : spec pan read_string (fun _ => True).
Proof.
  assert (forall fuel s c, Flv.buffered c -> (length (cursor_rest c) < fuel)%nat ->
    match read_c_string fuel s c with
    | (Ok _, c') => Flv.buffered c' /\ True
    | (Err e, _) => BitIo.parse_error e
    | (Panic, _) => pan
    | (Fuel, _) => False
    end) as H.
  { induction fuel as [|fuel IH]; intros s c Hc Hf; [lia|]. cbn [read_c_string].
    destruct (Flv.buffered_at c Hc) as (pre & post & -> & Hl). rewrite cursor_rest_at in Hf.
    destruct (read_uint_cases BigEndian pre post 1) as [(bs & post' & -> & Hbs & E)|[Hs E]].
    - rewrite (bind_ok _ _ _ _ _ E). assert (Flv.buffered (at_pos (pre ++ bs) post')) as Hb
        by (apply Flv.buffered_at_pos; by rewrite <-(assoc_L (++))).
      destruct (_ =? 0); [done|]. apply IH; [done|].
      rewrite cursor_rest_at. rewrite length_app in Hf. lia.
    - rewrite (bind_err _ _ _ _ _ E). by left. }
  intros c Hc. unfold read_string. erewrite bind_ok; [|done]. apply H; [done|lia].
Qed.

Lemma advances_uint n : advances n (read_uint (T := Cursor) BigEndian n).
Proof.
  intros c Hc. destruct (Flv.buffered_at c Hc) as (pre & post & -> & Hl).
  destruct (read_uint_cases BigEndian pre post n) as [(bs & post' & -> & Hbs & ->)|[_ ->]]; [|done].
  rewrite !cursor_rest_at, length_app. split; [|lia].
  apply Flv.buffered_at_pos. by rewrite <-(assoc_L (++)).
Qed.

Lemma advances_mono {A} i j (m : M Cursor ErrorKind A) : (i <= j)%nat -> advances j m -> advances i m.
Proof.
  intros Hij Hm c Hc. specialize (Hm c Hc). destruct (m c) as [[a|e| |] c']; try done.
  destruct Hm. split; [done|lia].
Qed.

Lemma advancing_bind {A B} i j (m : M Cursor ErrorKind A) (k : A -> M Cursor ErrorKind B) :
  advances i m -> (forall a, advances j (k a)) -> advances (i + j) (bind m k).
Proof.
  intros Hm Hk c Hc. specialize (Hm c Hc). unfold bind. destruct (m c) as [[a|e| |] c1]; try done.
  destruct Hm as [Hc1 H1]. specialize (Hk a c1 Hc1). destruct (k a c1) as [[b|e| |] c2]; try done.
  destruct Hk as [Hc2 H2]. split; [done|lia].
Qed.

Lemma advances_total {A} k (m : M Cursor ErrorKind A) (Ee : ErrorKind -> Prop) (Q : A -> list byte -> Prop) :
  (forall pre post, TotalParse.total m pre post Ee Q) -> (forall a bs, Q a bs -> (k <= length bs)%nat) -> advances k m.
Proof.
  intros Hm HQ c Hc. destruct (Flv.buffered_at c Hc) as (pre & post & -> & Hl). specialize (Hm pre post).
  unfold TotalParse.total in Hm. destruct (m _) as [[a|e| |] c']; try done.
  destruct Hm as (bs & post' & -> & -> & Hq). specialize (HQ a bs Hq).
  rewrite !cursor_rest_at, length_app. split; [|lia].
  apply Flv.buffered_at_pos. by rewrite <-(assoc_L (++)).
Qed.

Lemma advancing_ret {A} (a : A) : advances 0 (ret a).
Proof. intros c Hc. split; [done|lia]. Qed.

Lemma advances_lift {A} (r : res ErrorKind A) : advances 0 (lift r).
Proof. intros c Hc. unfold lift. destruct r; try done. split; [done|lia]. Qed.

Lemma advances_extract n : 0 <= n -> advances 0 (BytesCursorExt.extract_bytes n).
Proof.
  intros Hn c Hc. destruct (Flv.buffered_at c Hc) as (pre & post & -> & Hl).
  pose proof (TotalParse.total_extract n pre post Hn) as Ht. unfold TotalParse.total in Ht.
  destruct (BytesCursorExt.extract_bytes n _) as [[a|e| |] c']; try done.
  destruct Ht as (bs & post' & -> & -> & _). rewrite !cursor_rest_at, length_app. split; [|lia].
  apply Flv.buffered_at_pos. by rewrite <-(assoc_L (++)).
Qed.

Lemma advances_rest : advances 0 BytesCursorExt.extract_remaining.
Proof.
  intros c Hc. destruct (Flv.buffered_at c Hc) as (pre & post & -> & Hl).
  rewrite BytesCursorExt.extract_remaining_at, !cursor_rest_at. split; [|simpl; lia].
  apply Flv.buffered_at_pos. by rewrite app_nil_r.
Qed.
End spec.

(** ** Parsers with a bound on the bytes left

    The parsers of nested items have a depth bounded by the bytes they are
    given: [spec_in n] is [spec] on buffers with at most [n] bytes left. *)

Definition spec_in {A} (n : nat) (pan : Prop) (m : M Cursor ErrorKind A) (Q : A -> Prop) : Prop :=
  forall c, Flv.buffered c -> (length (cursor_rest c) <= n)%nat ->
  match m c with
  | (Ok a, c') => Flv.buffered c' /\ (length (cursor_rest c') <= length (cursor_rest c))%nat /\ Q a
  | (Err e, _) => BitIo.parse_error e
  | (Panic, _) => pan
  | (Fuel, _) => False
  end.

Section spec_in.
Context {pan : Prop}.

Lemma spec_in_of {A} n (m : M Cursor ErrorKind A) Q : spec pan m Q -> advances 0 m -> spec_in n pan m Q.
Proof.
  intros Hm Ha c Hc _. specialize (Hm c Hc). specialize (Ha c Hc).
  destruct (m c) as [[a|e| |] c']; try done. destruct Hm, Ha. split; [done|split; [lia|done]].
Qed.

Lemma spec_in_ret {A} n (a : A) (Q : A -> Prop) : Q a -> spec_in n pan (ret a) Q.
Proof. intros HQ c Hc _. by split_and!. Qed.

Lemma spec_in_lift {A} n (r : res ErrorKind A) (Q : A -> Prop) : outcome pan r Q -> spec_in n pan (lift r) Q.
Proof. intros Hr c Hc _. unfold lift. by destruct r. Qed.

Lemma spec_in_bind {A B} n (m : M Cursor ErrorKind A) (k : A -> M Cursor ErrorKind B) Q R :
  spec_in n pan m Q -> (forall a, Q a -> spec_in n pan (k a) R) -> spec_in n pan (bind m k) R.
Proof.
  intros Hm Hk c Hc Hn. specialize (Hm c Hc Hn). unfold bind. destruct (m c) as [[a|e| |] c1]; try done.
  destruct Hm as (Hc1 & H1 & HQ). specialize (Hk a HQ c1 Hc1 ltac:(lia)).
  destruct (k a c1) as [[b|e| |] c2]; try done. destruct Hk as (Hc2 & H2 & HR). split; [done|split; [lia|done]].
Qed.

Lemma spec_in_mono {A} n m (p : M Cursor ErrorKind A) Q : (m <= n)%nat -> spec_in n pan p Q -> spec_in m pan p Q.
Proof. intros Hmn Hp c Hc Hm. apply Hp; [done|lia]. Qed.

Lemma spec_in_weaken {A} n (p : M Cursor ErrorKind A) (Q R : A -> Prop) :
  (forall a, Q a -> R a) -> spec_in n pan p Q -> spec_in n pan p R.
Proof.
  intros HQR Hp c Hc Hn. specialize (Hp c Hc Hn). destruct (p c) as [[]]; try done.
  destruct Hp as (? & ? & ?). auto.
Qed.

Lemma spec_in_while {S} n (step : S -> M Cursor ErrorKind S) (I : S -> Prop) :
  (forall s, I s -> spec_in n pan (step s) I) -> (forall s, advances 1 (step s)) ->
  forall fuel s c, I s -> Flv.buffered c -> (length (cursor_rest c) < fuel)%nat -> (length (cursor_rest c) <= n)%nat ->
  match while_remaining fuel step s c with
  | (Ok s', c') => Flv.buffered c' /\ (length (cursor_rest c') <= length (cursor_rest c))%nat /\ I s'
  | (Err e, _) => BitIo.parse_error e
  | (Panic, _) => pan
  | (Fuel, _) => False
  end.
Proof.
  intros Hs Ha. induction fuel as [|fuel IH]; intros s c HI Hc Hf Hn; [lia|]. cbn [while_remaining].
  assert (AvcConfig.has_remaining c = (Ok (0 <? blen (cursor_rest c)), c)) as E.
  { destruct (Flv.buffered_at c Hc) as (pre & post & -> & _).
    by rewrite AvcConfig.has_remaining_at, cursor_rest_at. }
  rewrite (bind_ok _ _ _ _ _ E).
  destruct (0 <? blen (cursor_rest c)); [|by split_and!]. specialize (Hs s HI c Hc Hn). specialize (Ha s c Hc).
  unfold bind. destruct (step s c) as [[s'|e| |] c']; try done.
  destruct Hs as (Hc' & _ & HI'), Ha as [_ Ha]. specialize (IH s' c' HI' Hc' ltac:(lia) ltac:(lia)).
  destruct (while_remaining fuel step s' c') as [[s2|e| |] c2]; try done.
  destruct IH as (? & ? & ?). split; [done|split; [lia|done]].
Qed.

Lemma spec_in_loop {S} n (step : S -> M Cursor ErrorKind S) (I : S -> Prop) s : I s ->
  (forall s, I s -> spec_in n pan (step s) I) -> (forall s, advances 1 (step s)) ->
  spec_in n pan (loop_remaining step s) I.
Proof.
  intros HI Hs Ha c Hc Hn. unfold loop_remaining. erewrite bind_ok; [|done].
  by apply (spec_in_while n step I Hs Ha); try lia.
Qed.

Lemma spec_in_over {A} data (m : M Cursor ErrorKind A) (Q : A -> Prop) :
  8 * blen data < 2 ^ 62 -> spec_in (length data) pan m Q -> outcome pan (over data m) Q.
Proof.
  intros Hl Hm. specialize (Hm (cursor_new data)). unfold over, outcome.
  assert (Flv.buffered (cursor_new data)) as Hc by (split; simpl; [lia|done]).
  specialize (Hm Hc). change (cursor_new data) with (at_pos [] data) in *.
  rewrite cursor_rest_at in Hm. specialize (Hm ltac:(lia)).
  destruct (m _) as [[]]; try done. by destruct Hm as (_ & _ & HQ).
Qed.
End spec_in.

(** ** Items one after another *)

Lemma takes_children {D S} (ddemux : M Cursor ErrorKind D) (update : S -> D -> S) (bytes : D -> list byte) ds s :
  (forall d, d ∈ ds -> bytes d <> [] /\ TotalParse.takes_on (fun _ => True) ddemux (bytes d) d) ->
  TotalParse.takes_on (fun post => post = [])
    (loop_remaining (fun s => let* d := ddemux in ret (update s d)) s) (ds ≫= bytes) (fold_left update ds s).
Proof.
  intros Hd. apply takes_loop. intros d Hx. destruct (Hd d Hx) as [Hne Ht]. split; [done|]. intros s'.
  eapply TotalParse.takes_last; [done|apply TotalParse.takes_ret].
Qed.

(** ** Optional fields and tables *)

Definition opt_bytes {A} (enc : A -> list byte) (o : option A) : list byte :=
  match o with Some a => enc a | None => [] end.

Lemma opt_bytes_list {A} (enc : A -> list byte) o : opt_bytes enc o = option_list o ≫= enc.
Proof. destruct o; simpl; [by rewrite app_nil_r|done]. Qed.

Lemma puts_opt {W} `{IoWriteLaws W} {A} (o : option A) (f : A -> M W ErrorKind unit) (enc : A -> list byte) :
  (forall a, o = Some a -> puts (f a) (enc a)) -> puts (if_some o f) (opt_bytes enc o).
Proof. destruct o as [a|]; intros Hf; [by apply Hf|apply puts_ret]. Qed.

Lemma takes_opt {A} P b (o : option A) (enc : A -> list byte) (m : M Cursor ErrorKind A) :
  b = is_some o ->
  (forall a, o = Some a -> TotalParse.takes_on P m (enc a) a) ->
  TotalParse.takes_on P (read_if b m) (opt_bytes enc o) o.
Proof.
  intros -> Hm. destruct o as [a|]; simpl.
  - eapply TotalParse.takes_last; [by apply Hm|apply TotalParse.takes_ret].
  - apply TotalParse.takes_ret.
Qed.

Lemma blen_each {A} k (enc : A -> list byte) (xs : list A) :
  (forall x, x ∈ xs -> blen (enc x) = k) -> blen (xs ≫= enc) = blen xs * k.
Proof.
  induction xs as [|x xs IH]; intros Hk; [done|].
  change ((x :: xs) ≫= enc) with (enc x ++ (xs ≫= enc)). rewrite blen_app, blen_cons, IH, Hk; [lia|by left|].
  intros; apply Hk; by right.
Qed.

Lemma sum_of_ext {A} (f g : A -> Z) (xs : list A) : (forall x, x ∈ xs -> f x = g x) -> sum_of f xs = sum_of g xs.
Proof.
  induction xs as [|x xs IH]; intros Hk; [done|]. simpl. rewrite IH, Hk; [done|by left|].
  intros; apply Hk; by right.
Qed.

Lemma blen_sum {A} (k : A -> Z) (enc : A -> list byte) (xs : list A) :
  (forall x, x ∈ xs -> blen (enc x) = k x) -> blen (xs ≫= enc) = sum_of k xs.
Proof.
  induction xs as [|x xs IH]; intros Hk; [done|].
  change ((x :: xs) ≫= enc) with (enc x ++ (xs ≫= enc)). simpl. rewrite blen_app, IH, Hk; [done|by left|].
  intros; apply Hk; by right.
Qed.

Lemma blen_opt {A} (k : A -> Z) (enc : A -> list byte) (o : option A) :
  (forall a, blen (enc a) = k a) -> blen (opt_bytes enc o) = opt_size k o.
Proof. destruct o as [a|]; intros Hk; [by apply Hk|done]. Qed.

(** ** Nested items

    What holds of every item of a list, and a measure of lists of items; both
    by recursion on the list alone, so that they can be used in the definition
    of predicates and measures of the items themselves. *)

Definition all {A} (P : A -> Prop) : list A -> Prop :=
  fix go xs := match xs with [] => True | x :: xs => P x /\ go xs end.
Definition rank_of {A} (f : A -> nat) : list A -> nat :=
  fix go xs := match xs with [] => 0%nat | x :: xs => (f x + go xs)%nat end.
Definition opt_rank {A} (f : A -> nat) (o : option A) : nat := match o with Some a => f a | None => 0%nat end.
Definition opt_all {A} (P : A -> Prop) (o : option A) : Prop := match o with Some a => P a | None => True end.

Lemma all_elem {A} (P : A -> Prop) xs : all P xs <-> forall x, x ∈ xs -> P x.
Proof.
  induction xs as [|y xs IH]; simpl; [by split; [intros _ x Hx; inversion Hx|]|]. rewrite IH. split.
  - intros [Hy Hx] x. rewrite elem_of_cons. naive_solver.
  - intros Hx. split; [apply Hx; by left|intros x ?; apply Hx; by right].
Qed.

Lemma rank_elem {A} (f : A -> nat) xs x : x ∈ xs -> (f x <= rank_of f xs)%nat.
Proof. induction 1; simpl; lia. Qed.

(** ** Automation *)

Lemma wrap_range w z : 0 <= w -> fits w (wrap w z).
Proof. intros Hw. apply Z.mod_pos_bound, Z.pow_pos_nonneg; lia. Qed.

Lemma wrap_fits_id w z : fits w z -> wrap w z = z.
Proof. intros Hz. by apply Z.mod_small. Qed.

Lemma swrap_id w z : 0 < w -> - 2 ^ (w - 1) <= z < 2 ^ (w - 1) -> swrap w z = z.
Proof. intros Hw Hz. rewrite <-(swrap_wrap w z) at 2 by done. unfold swrap, wrap. by rewrite Z.mod_mod by lia. Qed.

(** The count of a table, truncated to its width and read back. *)
Lemma count_wrap {A} w (xs : list A) : fits w (blen xs) -> Z.to_nat (wrap w (blen xs)) = length xs.
Proof. intros Hx. rewrite wrap_fits_id by done. unfold blen. lia. Qed.

Create HintDb mp4.
Create HintDb mp4box.
Create HintDb mp4entry.

#[export] Hint Unfold FullBoxHeader.wf : mp4box.

Ltac num_tac :=
  cbn [FullBoxHeader.version FullBoxHeader.flags FullBoxHeader.header] in *;
  unfold blen, fits, u8_max, u16_max, u32_max, i32_max, wrap in *; cbn [Z.of_nat Pos.of_succ_nat Pos.succ Z.mul Pos.mul Z.sub Z.add] in *;
  first [ done | lia | (apply Z.mod_pos_bound; lia) | (apply swrap_range; lia) | (apply swrap_id; lia) | Z.to_euclidean_division_equations; lia ].

Lemma Forall_elem {A} (P : A -> Prop) xs x : Forall P xs -> x ∈ xs -> P x.
Proof. intros H Hx. apply list_elem_of_In in Hx. revert x Hx. by apply List.Forall_forall. Qed.

(** The facts about an element of a table. *)
Ltac elem_tac :=
  try match goal with
  | H : Forall ?P ?xs, Hx : ?x ∈ ?xs |- _ =>
      let E := fresh "E" in pose proof (Forall_elem P xs x H Hx) as E; cbv beta in E;
      try match goal with Hv : (_ =? 1) = _ |- _ => rewrite Hv in E end;
      destruct_and? E
  end.

Lemma present_Some {A} b (Q : A -> Prop) o a : present b Q o -> o = Some a -> Q a.
Proof. intros Ho ->. by destruct Ho. Qed.

Lemma present_is_some {A} b (Q : A -> Prop) o : present b Q o -> b = is_some o.
Proof. by destruct o; [intros []|]. Qed.

(** The fact about an optional field that is present. *)
Ltac opt_tac :=
  try match goal with
  | H : present _ ?Q ?o, Ho : ?o = Some ?a |- _ =>
      let E := fresh "E" in pose proof (present_Some _ Q o a H Ho) as E; cbv beta in E; destruct_and? E
  end.

Ltac pstep :=
  match goal with
  | |- puts (bind (FullBoxHeader.mux _) _) _ => unfold FullBoxHeader.mux
  | |- puts (bind (bind _ _) _) _ => apply puts_assoc
  | |- puts (bind (ret _) _) _ => apply puts_skip
  | |- puts (bind (checked_u _ _) _) _ => apply puts_checked; [num_tac|]
  | |- puts (bind _ _) _ => eapply puts_bind
  | |- puts (ret tt) _ => apply puts_ret
  | |- puts (write_all _) _ => apply puts_all
  | |- puts (write_uint BigEndian _ _) _ => apply puts_uint; num_tac
  | |- puts (write_int _ _) _ => unfold write_int
  | |- puts (for_each _ _) _ => eapply puts_each; let x := fresh "x" in let Hx := fresh "Hx" in intros x Hx; elem_tac
  | |- puts (if_some _ _) _ => eapply puts_opt; intros; opt_tac
  | |- puts (FullBoxHeader.mux _) _ => unfold FullBoxHeader.mux
  end; cbn [FullBoxHeader.version FullBoxHeader.flags]; cbv beta zeta.

Ltac tprim :=
  match goal with
  | |- TotalParse.takes_on _ (read_uint BigEndian _) _ _ => apply TotalParse.takes_uint; num_tac
  | |- TotalParse.takes_on _ (read_int _) _ _ => apply takes_int; [lia|num_tac]
  | |- TotalParse.takes_on _ (read_exact _) _ _ => apply takes_exact; first [reflexivity | assumption]
  | |- TotalParse.takes_on _ read_string _ _ => apply takes_string; eauto
  | |- TotalParse.takes_on _ BytesCursorExt.extract_remaining _ _ => apply takes_rest
  | |- TotalParse.takes_on _ (read_times _ _) _ _ =>
      eapply takes_times; [first [lia | unfold blen; lia | apply count_wrap; num_tac]|]; let x := fresh "x" in let Hx := fresh "Hx" in intros x Hx; elem_tac
  | |- TotalParse.takes_on _ (read_if _ _) _ _ => eapply takes_opt; [try by eapply present_is_some|intros; opt_tac]
  end.

Ltac tstep :=
  match goal with
  | |- TotalParse.takes_on _ (bind (FullBoxHeader.demux _) _) _ _ => unfold FullBoxHeader.demux
  | |- TotalParse.takes_on _ (bind (if ?b then _ else _) _) _ _ =>
      match goal with H : b = _ |- _ => rewrite H end
  | |- TotalParse.takes_on _ (bind (bind _ _) _) _ _ => apply takes_assoc
  | |- TotalParse.takes_on _ (bind (ret _) _) _ _ => apply takes_skip
  | |- TotalParse.takes_on _ (bind read_string _) _ _ => apply takes_string_bind; [by eauto|]
  | |- TotalParse.takes_on _ (bind BytesCursorExt.extract_remaining _) (_ ++ []) _ =>
      rewrite app_nil_r; eapply TotalParse.takes_last; [apply takes_rest|]
  | |- TotalParse.takes_on _ (bind _ _) (_ ++ _) _ => eapply TotalParse.takes_bind; [tprim|]
  | |- TotalParse.takes_on _ (bind _ _) _ _ => eapply TotalParse.takes_last; [tprim|]
  | |- TotalParse.takes_on _ (ret _) _ _ => apply takes_ret_eq
  | |- _ => tprim
  end; cbn [FullBoxHeader.version FullBoxHeader.flags]; cbv beta zeta.

(** The length of what was written. *)
Ltac size_tac :=
  autorewrite with scuffle;
  repeat (erewrite blen_each by (intros; autorewrite with scuffle; reflexivity));
  repeat (erewrite blen_opt by (intros; autorewrite with scuffle; reflexivity));
  unfold FullBoxHeader.size, opt_size, blen in *; simpl Z.of_nat;
  repeat match goal with |- context [match ?o with Some _ => _ | None => _ end] => destruct o; simpl end; first [lia | done].

(** The conditions that [validate] has checked. *)
Ltac val_tac H :=
  repeat match type of H with (if ?b then _ else _) = _ => destruct b eqn:?; [done|] end; clear H.

(** A flag of the header says whether an optional field is present. *)
Ltac flag_tac :=
  match goal with
  | |- ?b = is_some ?o =>
      let E := fresh "E" in
      destruct o; simpl in *; destruct b eqn:E; rewrite ?E in *; simpl in *; first [reflexivity | congruence]
  end.

(** The fields of a record are equal. *)
Ltac fields_tac :=
  try match goal with |- _ = ?x => is_var x; destruct x; simpl in * end;
  repeat match goal with
  | |- _ = _ => first [reflexivity | assumption]
  | |- _ = _ => progress f_equal
  end; num_tac.

(** A box with fields written one after another: the bytes, their number, and
    the fields read back. *)
Ltac codec_tac :=
  eexists; split; [intros W HW HL; repeat pstep | split; [size_tac|]];
  apply (over_takes (fun post => post = [])); [|done]; repeat tstep; first [flag_tac | fields_tac].

Lemma spec_assoc {A B C} pan (m : M Cursor ErrorKind A) (k : A -> M Cursor ErrorKind B)
    (k' : B -> M Cursor ErrorKind C) Q :
  spec pan (bind m (fun a => bind (k a) k')) Q -> spec pan (bind (bind m k) k') Q.
Proof.
  intros Hm c Hc. specialize (Hm c Hc). unfold bind in *. by destruct (m c) as [[]].
Qed.

Lemma spec_skip {A B} pan (a : A) (k : A -> M Cursor ErrorKind B) Q :
  spec pan (k a) Q -> spec pan (bind (ret a) k) Q.
Proof. done. Qed.

Ltac sprim :=
  match goal with
  | |- spec _ (read_uint BigEndian _) _ => apply spec_uint
  | |- spec _ (read_int _) _ => apply spec_int; lia
  | |- spec _ (read_exact _) _ => apply spec_read_exact
  | |- spec _ read_string _ => apply spec_read_c_string
  | |- spec _ BytesCursorExt.extract_remaining _ => apply spec_rest
  | |- spec _ (read_times _ _) _ => eapply spec_times; sprim
  | |- spec _ (read_if _ _) _ => eapply spec_read_if; sprim
  | |- _ => solve [eauto with mp4]
  end.

Ltac sstep :=
  match goal with
  | |- spec _ (bind (FullBoxHeader.demux _) _) _ => unfold FullBoxHeader.demux
  | |- spec _ (bind (bind _ _) _) _ => apply spec_assoc
  | |- spec _ (bind (if ?b then _ else _) _) _ => destruct b eqn:?
  | |- spec _ (bind (ret _) _) _ => apply spec_skip
  | |- spec _ (bind _ _) _ =>
      eapply spec_bind; [sprim | let E := fresh "E" in intros ? E; cbv beta in E]
  | |- spec _ (ret _) _ => apply spec_ret
  | |- spec _ (throw InvalidData) _ => apply spec_throw
  | |- spec _ (if ?b then _ else _) _ => destruct b eqn:?
  end; cbn [FullBoxHeader.version FullBoxHeader.flags]; cbv beta zeta.

(** What a [demux] that parses its own buffer returns. *)
Ltac outcome_tac :=
  intros; apply spec_over; [done|]; repeat sstep; simpl in *; destruct_and?;
  repeat split; simpl; try done; try num_tac.

(** ** What every box provides *)

(** [wf] holds of what [demux] returns, and [demux] can panic only if
    [box_panics]; a box that is [fair] in addition is read back from what it
    writes, if [validate] accepts it. The bound keeps
    the bit positions of the configuration records within 64 bits. *)
Class BoxLaws (A : Type) `{BoxType A, BoxDemux A} := mkBoxLaws {
  box_wf : A -> Prop;
  box_fair : A -> Prop;
  box_panics : Prop;
  box_name : length NAME = 4%nat;
  box_codec : forall a, box_wf a -> box_fair a -> validate a = Ok tt -> primitive_size a < 2 ^ 50 -> codec a;
  box_outcome : forall data, 8 * blen data < 2 ^ 62 ->
    outcome box_panics (demux (BoxHeader.new NAME) data) box_wf;
}.

(** Take a box apart: its fields, what [wf] says of them and what [validate]
    has checked. *)
Ltac box_open :=
  let b := fresh "b" in let Hwf := fresh "Hwf" in let Hfair := fresh "Hfair" in
  let Hval := fresh "Hval" in let Hsize := fresh "Hsize" in
  intros b Hwf Hfair Hval Hsize; destruct b; autounfold with mp4box mp4entry in Hwf, Hval; try autounfold with mp4box mp4entry in Hfair; unfold codec; simpl in *;
  repeat match goal with h : FullBoxHeader.t |- _ => destruct h; simpl in * end;
  autounfold with mp4box mp4entry; simpl; clear Hsize; destruct_and! Hwf; subst; val_tac Hval.

(** What the reader of a table entry returns. *)
Ltac entry_tac := repeat sstep; simpl; repeat split; simpl; num_tac.

Ltac box_total := simpl; autounfold with mp4box; outcome_tac.

#[global] Arguments read_times : simpl never.
#[global] Arguments for_each : simpl never.
#[global] Arguments FullBoxHeader.mux : simpl never.
#[global] Arguments FullBoxHeader.demux : simpl never.
#[global] Arguments read_exact : simpl never.
#[global] Arguments write_all : simpl never.
#[global] Arguments read_string : simpl never.
#[global] Arguments loop_remaining : simpl never.
