(* ===== verification/Mp4Movie.v ===== *)
(** * [scuffle-mp4]: boxes of the movie header (crates/mp4/src/boxes/types)

    One module per box, with the box's [new], [demux], [primitive_size],
    [primitive_mux] and [validate], the values [demux] can return ([wf]), and
    the two facts every box provides: its writer and its reader are inverse on
    what [validate] accepts, and its reader is total. *)

From Stdlib Require Import Strings.String.
From stdpp Require Import base list numbers.
From Stdlib Require Import Strings.Byte.
From S2P Require Import Prelude Io BytesCursor BitIo H264 Flv Mp4Box.

(** ** The [fixed] crate

    A [FixedI32<U16>] or [FixedI16<U8>] is its bit pattern ([from_bits],
    [to_bits]); [from_num] panics ([None]) when the number does not fit. *)
Class FixedPoint := {
  from_num : forall (width frac z : Z), option Z;
  from_num_ok : forall width frac z, - 2 ^ (width - 1) <= z * 2 ^ frac < 2 ^ (width - 1) ->
    from_num width frac z = Some (z * 2 ^ frac);
}.

#[global] Instance fixed_crate : FixedPoint.
Proof.
  refine {| from_num width frac z :=
    if (- 2 ^ (width - 1) <=? z * 2 ^ frac) && (z * 2 ^ frac <? 2 ^ (width - 1))
    then Some (z * 2 ^ frac) else None |}.
  intros width frac z [H1 H2]. apply Z.leb_le in H1. apply Z.ltb_lt in H2. by rewrite H1, H2.
Defined.

(** ** mvhd.rs *)

Module Mvhd.
Record t := mk {
  header : FullBoxHeader.t;
  creation_time : Z;
  modification_time : Z;
  timescale : Z;
  duration : Z;
  rate : Z;
  volume : Z;
  reserved : Z;
  reserved2 : list Z;
  matrix : list Z;
  pre_defined : list Z;
  next_track_id : Z;
}.

Definition NAME : list byte := str "mvhd".

Definition MATRIX : list Z := [65536; 0; 0; 0; 65536; 0; 0; 0; 1073741824].

Definition new `{FixedPoint} (creation_time modification_time timescale duration next_track_id : Z) : option t :=
  rate ← from_num 32 16 1;
  volume ← from_num 16 8 1;
  Some (mk (FullBoxHeader.new NAME 0 0) creation_time modification_time timescale duration rate volume
    0 (replicate 2 0) MATRIX (replicate 6 0) next_track_id).

Section box.
Context `{BO : ByteOrder}.

Definition demux (header : BoxHeader.t) (data : list byte) : res ErrorKind t := over data (
  let* header := FullBoxHeader.demux header in
  let* (creation_time, modification_time, timescale, duration) :=
    if FullBoxHeader.version header =? 1
    then
      let* creation_time := read_u64 in
      let* modification_time := read_u64 in
      let* timescale := read_u32 in
      let* duration := read_u64 in
      ret (creation_time, modification_time, timescale, duration)
    else
      let* creation_time := read_u32 in
      let* modification_time := read_u32 in
      let* timescale := read_u32 in
      let* duration := read_u32 in
      ret (creation_time, modification_time, timescale, duration) in
  let* rate := read_i32 in
  let* volume := read_i16 in
  let* reserved := read_u16 in
  let* reserved2 := read_times 2 read_u32 in
  let* matrix := read_times 9 read_u32 in
  let* pre_defined := read_times 6 read_u32 in
  let* next_track_id := read_u32 in
  ret (mk header creation_time modification_time timescale duration rate volume
    reserved reserved2 matrix pre_defined next_track_id)).

Definition primitive_size (b : t) : Z :=
  let size := FullBoxHeader.size (header b) in
  let size :=
    if FullBoxHeader.version (header b) =? 1
    then size + (8 + 8 + 4 + 8)
    else size + (4 + 4 + 4 + 4) in
  let size := size + (4 + 2 + 2) in
  let size := size + 4 * 2 in
  let size := size + 4 * 9 in
  let size := size + 4 * 6 in
  size + 4.

Definition primitive_mux W `{IoWrite W} (b : t) : M W ErrorKind unit :=
  FullBoxHeader.mux (header b) ;;;
  (if FullBoxHeader.version (header b) =? 1
   then
     write_u64 (creation_time b) ;;;
     write_u64 (modification_time b) ;;;
     write_u32 (timescale b) ;;;
     write_u64 (duration b)
   else
     write_u32 (wrap 32 (creation_time b)) ;;;
     write_u32 (wrap 32 (modification_time b)) ;;;
     write_u32 (timescale b) ;;;
     write_u32 (wrap 32 (duration b))) ;;;
  write_i32 (rate b) ;;;
  write_i16 (volume b) ;;;
  write_u16 (reserved b) ;;;
  for_each (reserved2 b) write_u32 ;;;
  for_each (matrix b) write_u32 ;;;
  for_each (pre_defined b) write_u32 ;;;
  write_u32 (next_track_id b) ;;;
  ret tt.

Definition validate (b : t) : res ErrorKind unit :=
  if negb (FullBoxHeader.flags (header b) =? 0) then Err InvalidData
  else if 1 <? FullBoxHeader.version (header b) then Err InvalidData
  else if (FullBoxHeader.version (header b) =? 0) && (u32_max <? creation_time b) then Err InvalidData
  else if (FullBoxHeader.version (header b) =? 0) && (u32_max <? modification_time b) then Err InvalidData
  else if (FullBoxHeader.version (header b) =? 0) && (u32_max <? duration b) then Err InvalidData
  else if negb (reserved b =? 0) then Err InvalidData
  else if negb (bool_decide (reserved2 b = replicate 2 0)) then Err InvalidData
  else if negb (bool_decide (pre_defined b = replicate 6 0)) then Err InvalidData
  else Ok tt.

#[global] Instance box : BoxType t := mkBoxType t NAME primitive_size primitive_mux validate.
#[global] Instance box_demux : BoxDemux t := mkBoxDemux t demux.
End box.

Definition wf (b : t) : Prop :=
  FullBoxHeader.wf NAME (header b) /\ fits 64 (creation_time b) /\ fits 64 (modification_time b) /\
  fits 32 (timescale b) /\ fits 64 (duration b) /\ - 2 ^ 31 <= rate b < 2 ^ 31 /\
  - 2 ^ 15 <= volume b < 2 ^ 15 /\ fits 16 (reserved b) /\
  (length (reserved2 b) = 2%nat /\ Forall (fits 32) (reserved2 b)) /\
  (length (matrix b) = 9%nat /\ Forall (fits 32) (matrix b)) /\
  (length (pre_defined b) = 6%nat /\ Forall (fits 32) (pre_defined b)) /\ fits 32 (next_track_id b).

#[export] Hint Unfold wf validate demux primitive_size primitive_mux : mp4box.

Section laws.
Context `{BO : ByteOrder}.

Lemma mvhd_codec b : wf b -> True -> validate b = Ok tt -> primitive_size b < 2 ^ 50 -> codec b.
Proof. revert b. box_open. destruct (_ =? 1) eqn:Hv; codec_tac. Qed.

Lemma mvhd_outcome data : 8 * blen data < 2 ^ 62 -> outcome False (demux (BoxHeader.new NAME) data) wf.
Proof. box_total. Qed.

#[global] Instance laws : BoxLaws t := mkBoxLaws t _ _ wf (fun _ => True) False eq_refl mvhd_codec mvhd_outcome.
End laws.
End Mvhd.

(** ** tkhd.rs *)

Module Tkhd.
Record t := mk {
  header : FullBoxHeader.t;
  creation_time : Z;
  modification_time : Z;
  track_id : Z;
  reserved : Z;
  duration : Z;
  reserved2 : list Z;
  layer : Z;
  alternate_group : Z;
  volume : Z;
  reserved3 : Z;
  matrix : list Z;
  width : Z;
  height : Z;
}.

Definition NAME : list byte := str "tkhd".

Definition MATRIX : list Z := [65536; 0; 0; 0; 65536; 0; 0; 0; 1073741824].
Definition TRACK_ENABLED_FLAG : Z := 1.
Definition TRACK_IN_MOVIE_FLAG : Z := 2.
Definition TRACK_IN_PREVIEW_FLAG : Z := 4.
Definition TRACK_SIZE_IS_ASPECT_RATIO_FLAG : Z := 8.

Definition new `{FixedPoint} (creation_time modification_time track_id duration : Z)
    (width_height : option (Z * Z)) : option t :=
  let version :=
    if (u32_max <? creation_time) || (u32_max <? modification_time) || (u32_max <? duration)
    then 1 else 0 in
  let '(width, height) := default (0, 0) width_height in
  volume ← (if is_some width_height then from_num 16 8 0 else from_num 16 8 1);
  width ← from_num 32 16 width;
  height ← from_num 32 16 height;
  Some (mk (FullBoxHeader.new NAME version (Z.lor TRACK_ENABLED_FLAG TRACK_IN_MOVIE_FLAG))
    creation_time modification_time track_id 0 duration (replicate 2 0) 0 0 volume 0 MATRIX width height).

Section box.
Context `{BO : ByteOrder}.

Definition demux (header : BoxHeader.t) (data : list byte) : res ErrorKind t := over data (
  let* header := FullBoxHeader.demux header in
  let* (creation_time, modification_time, track_id, reserved, duration) :=
    if FullBoxHeader.version header =? 1
    then
      let* creation_time := read_u64 in
      let* modification_time := read_u64 in
      let* track_id := read_u32 in
      let* reserved := read_u32 in
      let* duration := read_u64 in
      ret (creation_time, modification_time, track_id, reserved, duration)
    else
      let* creation_time := read_u32 in
      let* modification_time := read_u32 in
      let* track_id := read_u32 in
      let* reserved := read_u32 in
      let* duration := read_u32 in
      ret (creation_time, modification_time, track_id, reserved, duration) in
  let* reserved2 := read_times 2 read_u32 in
  let* layer := read_u16 in
  let* alternate_group := read_u16 in
  let* volume := read_i16 in
  let* reserved3 := read_u16 in
  let* matrix := read_times 9 read_u32 in
  let* width := read_i32 in
  let* height := read_i32 in
  ret (mk header creation_time modification_time track_id reserved duration reserved2 layer
    alternate_group volume reserved3 matrix width height)).

Definition primitive_size (b : t) : Z :=
  let size := FullBoxHeader.size (header b) in
  let size := size +
    if FullBoxHeader.version (header b) =? 1
    then 8 + 8 + 4 + 4 + 8
    else 4 + 4 + 4 + 4 + 4 in
  let size := size + 4 * 2 in
  let size := size + 2 in
  let size := size + 2 in
  let size := size + 2 in
  let size := size + 2 in
  let size := size + 4 * 9 in
  let size := size + 4 in
  size + 4.

Definition primitive_mux W `{IoWrite W} (b : t) : M W ErrorKind unit :=
  FullBoxHeader.mux (header b) ;;;
  (if FullBoxHeader.version (header b) =? 1
   then
     write_u64 (creation_time b) ;;;
     write_u64 (modification_time b) ;;;
     write_u32 (track_id b) ;;;
     write_u32 (reserved b) ;;;
     write_u64 (duration b)
   else
     write_u32 (wrap 32 (creation_time b)) ;;;
     write_u32 (wrap 32 (modification_time b)) ;;;
     write_u32 (track_id b) ;;;
     write_u32 (reserved b) ;;;
     write_u32 (wrap 32 (duration b))) ;;;
  for_each (reserved2 b) write_u32 ;;;
  write_u16 (layer b) ;;;
  write_u16 (alternate_group b) ;;;
  write_i16 (volume b) ;;;
  write_u16 (reserved3 b) ;;;
  for_each (matrix b) write_u32 ;;;
  write_i32 (width b) ;;;
  write_i32 (height b) ;;;
  ret tt.

Definition validate (b : t) : res ErrorKind unit :=
  if 1 <? FullBoxHeader.version (header b) then Err InvalidData
  else if track_id b =? 0 then Err InvalidData
  else if negb (reserved b =? 0) then Err InvalidData
  else if negb (bool_decide (reserved2 b = replicate 2 0)) then Err InvalidData
  else if negb (reserved3 b =? 0) then Err InvalidData
  else if (FullBoxHeader.version (header b) =? 0) && (u32_max <? creation_time b) then Err InvalidData
  else if (FullBoxHeader.version (header b) =? 0) && (u32_max <? modification_time b) then Err InvalidData
  else if (FullBoxHeader.version (header b) =? 0) && (u32_max <? duration b) then Err InvalidData
  else Ok tt.

#[global] Instance box : BoxType t := mkBoxType t NAME primitive_size primitive_mux validate.
#[global] Instance box_demux : BoxDemux t := mkBoxDemux t demux.
End box.

Definition wf (b : t) : Prop :=
  FullBoxHeader.wf NAME (header b) /\ fits 64 (creation_time b) /\ fits 64 (modification_time b) /\
  fits 32 (track_id b) /\ fits 32 (reserved b) /\ fits 64 (duration b) /\
  (length (reserved2 b) = 2%nat /\ Forall (fits 32) (reserved2 b)) /\
  fits 16 (layer b) /\ fits 16 (alternate_group b) /\ - 2 ^ 15 <= volume b < 2 ^ 15 /\
  fits 16 (reserved3 b) /\ (length (matrix b) = 9%nat /\ Forall (fits 32) (matrix b)) /\
  - 2 ^ 31 <= width b < 2 ^ 31 /\ - 2 ^ 31 <= height b < 2 ^ 31.

#[export] Hint Unfold wf validate demux primitive_size primitive_mux : mp4box.

Section laws.
Context `{BO : ByteOrder}.

Lemma tkhd_codec b : wf b -> True -> validate b = Ok tt -> primitive_size b < 2 ^ 50 -> codec b.
Proof. revert b. box_open. destruct (_ =? 1) eqn:Hv; codec_tac. Qed.

Lemma tkhd_outcome data : 8 * blen data < 2 ^ 62 -> outcome False (demux (BoxHeader.new NAME) data) wf.
Proof. box_total. Qed.

#[global] Instance laws : BoxLaws t := mkBoxLaws t _ _ wf (fun _ => True) False eq_refl tkhd_codec tkhd_outcome.
End laws.
End Tkhd.

(** ** mdhd.rs *)

Module Mdhd.
Record t := mk {
  header : FullBoxHeader.t;
  creation_time : Z;
  modification_time : Z;
  timescale : Z;
  duration : Z;
  language : Z;
  pre_defined : Z;
}.

Definition NAME : list byte := str "mdhd".

Definition new (creation_time modification_time timescale duration : Z) : t :=
  let version :=
    if (u32_max <? creation_time) || (u32_max <? modification_time) || (u32_max <? duration)
    then 1 else 0 in
  mk (FullBoxHeader.new NAME version 0) creation_time modification_time timescale duration 21956 0.

Section box.
Context `{BO : ByteOrder}.

Definition demux (header : BoxHeader.t) (data : list byte) : res ErrorKind t := over data (
  let* header := FullBoxHeader.demux header in
  let* (creation_time, modification_time, timescale, duration) :=
    if FullBoxHeader.version header =? 1
    then
      let* creation_time := read_u64 in
      let* modification_time := read_u64 in
      let* timescale := read_u32 in
      let* duration := read_u64 in
      ret (creation_time, modification_time, timescale, duration)
    else
      let* creation_time := read_u32 in
      let* modification_time := read_u32 in
      let* timescale := read_u32 in
      let* duration := read_u32 in
      ret (creation_time, modification_time, timescale, duration) in
  let* language := read_u16 in
  let* pre_defined := read_u16 in
  ret (mk header creation_time modification_time timescale duration language pre_defined)).

Definition primitive_size (b : t) : Z :=
  FullBoxHeader.size (header b) +
  (if FullBoxHeader.version (header b) =? 1 then 8 + 8 + 4 + 8 else 4 + 4 + 4 + 4) + 2 + 2.

Definition primitive_mux W `{IoWrite W} (b : t) : M W ErrorKind unit :=
  FullBoxHeader.mux (header b) ;;;
  (if FullBoxHeader.version (header b) =? 1
   then
     write_u64 (creation_time b) ;;;
     write_u64 (modification_time b) ;;;
     write_u32 (timescale b) ;;;
     write_u64 (duration b)
   else
     write_u32 (wrap 32 (creation_time b)) ;;;
     write_u32 (wrap 32 (modification_time b)) ;;;
     write_u32 (timescale b) ;;;
     write_u32 (wrap 32 (duration b))) ;;;
  write_u16 (language b) ;;;
  write_u16 (pre_defined b) ;;;
  ret tt.

Definition validate (b : t) : res ErrorKind unit :=
  if negb (FullBoxHeader.flags (header b) =? 0) then Err InvalidData
  else if 1 <? FullBoxHeader.version (header b) then Err InvalidData
  else if (FullBoxHeader.version (header b) =? 0) && (u32_max <? creation_time b) then Err InvalidData
  else if (FullBoxHeader.version (header b) =? 0) && (u32_max <? modification_time b) then Err InvalidData
  else if (FullBoxHeader.version (header b) =? 0) && (u32_max <? duration b) then Err InvalidData
  else if negb (pre_defined b =? 0) then Err InvalidData
  else Ok tt.

#[global] Instance box : BoxType t := mkBoxType t NAME primitive_size primitive_mux validate.
#[global] Instance box_demux : BoxDemux t := mkBoxDemux t demux.
End box.

Definition wf (b : t) : Prop :=
  FullBoxHeader.wf NAME (header b) /\ fits 64 (creation_time b) /\ fits 64 (modification_time b) /\
  fits 32 (timescale b) /\ fits 64 (duration b) /\ fits 16 (language b) /\ fits 16 (pre_defined b).

#[export] Hint Unfold wf validate demux primitive_size primitive_mux : mp4box.

Section laws.
Context `{BO : ByteOrder}.

Lemma mdhd_codec b : wf b -> True -> validate b = Ok tt -> primitive_size b < 2 ^ 50 -> codec b.
Proof. revert b. box_open. destruct (_ =? 1) eqn:Hv; codec_tac. Qed.

Lemma mdhd_outcome data : 8 * blen data < 2 ^ 62 -> outcome False (demux (BoxHeader.new NAME) data) wf.
Proof. box_total. Qed.

#[global] Instance laws : BoxLaws t := mkBoxLaws t _ _ wf (fun _ => True) False eq_refl mdhd_codec mdhd_outcome.
End laws.
End Mdhd.

(** The handler of a track, hdlr.rs. *)
Module HandlerType.
Inductive t := Vide | Soun | Hint | Meta | Unknown (bytes : list byte).

Definition to_bytes (h : t) : list byte :=
  match h with
  | Vide => str "vide"
  | Soun => str "soun"
  | Hint => str "hint"
  | Meta => str "meta"
  | Unknown bytes => bytes
  end.

Definition from (v : list byte) : t :=
  if decide (v = str "vide") then Vide
  else if decide (v = str "soun") then Soun
  else if decide (v = str "hint") then Hint
  else if decide (v = str "meta") then Meta
  else Unknown v.

(** What [from] returns on four bytes. *)
Definition wf (h : t) : Prop := length (to_bytes h) = 4%nat /\ from (to_bytes h) = h.

Lemma handler_from v : length v = 4%nat ->
  length (to_bytes (from v)) = 4%nat /\ from (to_bytes (from v)) = from v.
Proof.
  intros Hv. assert (to_bytes (from v) = v) as E by (unfold from; repeat case_decide; by subst).
  by rewrite E.
Qed.
End HandlerType.

(** ** hdlr.rs *)

Module Hdlr.
Record t := mk {
  header : FullBoxHeader.t;
  pre_defined : Z;
  handler_type : HandlerType.t;
  reserved : list Z;
  name : list byte;
}.

Definition NAME : list byte := str "hdlr".

Definition new (handler_type : HandlerType.t) (name : list byte) : t :=
  mk (FullBoxHeader.new NAME 0 0) 0 handler_type (replicate 3 0) name.

Section box.
Context `{BO : ByteOrder}.

Definition demux (header : BoxHeader.t) (data : list byte) : res ErrorKind t := over data (
  let* header := FullBoxHeader.demux header in
  let* pre_defined := read_u32 in
  let* handler_type := read_exact 4 in
  let* reserved := read_times 3 read_u32 in
  let* name := read_string in
  ret (mk header pre_defined (HandlerType.from handler_type) reserved name)).

Definition primitive_size (b : t) : Z :=
  FullBoxHeader.size (header b) + 4 + 4 + 3 * 4 + blen (name b) + 1.

Definition primitive_mux W `{IoWrite W} (b : t) : M W ErrorKind unit :=
  FullBoxHeader.mux (header b) ;;;
  write_u32 (pre_defined b) ;;;
  write_all (HandlerType.to_bytes (handler_type b)) ;;;
  for_each (reserved b) write_u32 ;;;
  write_all (name b) ;;;
  write_u8 0 ;;;
  ret tt.

Definition validate (b : t) : res ErrorKind unit :=
  if negb (FullBoxHeader.version (header b) =? 0) then Err InvalidData
  else if negb (FullBoxHeader.flags (header b) =? 0) then Err InvalidData
  else if negb (bool_decide (reserved b = replicate 3 0)) then Err InvalidData
  else if negb (pre_defined b =? 0) then Err InvalidData
  else Ok tt.

#[global] Instance box : BoxType t := mkBoxType t NAME primitive_size primitive_mux validate.
#[global] Instance box_demux : BoxDemux t := mkBoxDemux t demux.
End box.

Definition wf (b : t) : Prop :=
  FullBoxHeader.wf NAME (header b) /\ fits 32 (pre_defined b) /\ HandlerType.wf (handler_type b) /\
  (length (reserved b) = 3%nat /\ Forall (fits 32) (reserved b)).

(** A name that is read back: the reader takes every byte for a character of
    its own, so only ASCII survives. *)
Definition fair (b : t) : Prop := c_string (name b).

#[export] Hint Unfold wf validate demux primitive_size primitive_mux fair : mp4box.

Section laws.
Context `{BO : ByteOrder}.

Lemma hdlr_codec b : wf b -> fair b -> validate b = Ok tt -> primitive_size b < 2 ^ 50 -> codec b.
Proof. revert b. box_open. unfold HandlerType.wf in *; destruct_and!; codec_tac. Qed.

Lemma hdlr_outcome data : 8 * blen data < 2 ^ 62 -> outcome False (demux (BoxHeader.new NAME) data) wf.
Proof. box_total; by apply HandlerType.handler_from. Qed.

#[global] Instance laws : BoxLaws t := mkBoxLaws t _ _ wf fair False eq_refl hdlr_codec hdlr_outcome.
End laws.
End Hdlr.

(** ** vmhd.rs *)

Module Vmhd.
Record t := mk {
  header : FullBoxHeader.t;
  graphics_mode : Z;
  opcolor : list Z;
}.

Definition NAME : list byte := str "vmhd".

Definition OP_COLOR_SIZE : nat := 3.

Definition new : t := mk (FullBoxHeader.new NAME 0 1) 0 (replicate OP_COLOR_SIZE 0).

Section box.
Context `{BO : ByteOrder}.

Definition demux (header : BoxHeader.t) (data : list byte) : res ErrorKind t := over data (
  let* header := FullBoxHeader.demux header in
  let* graphics_mode := read_u16 in
  let* opcolor := read_times OP_COLOR_SIZE read_u16 in
  ret (mk header graphics_mode opcolor)).

Definition primitive_size (b : t) : Z :=
  let size := FullBoxHeader.size (header b) in
  let size := size + 2 in
  size + 2 * Z.of_nat OP_COLOR_SIZE.

Definition primitive_mux W `{IoWrite W} (b : t) : M W ErrorKind unit :=
  FullBoxHeader.mux (header b) ;;;
  write_u16 (graphics_mode b) ;;;
  for_each (opcolor b) write_u16 ;;;
  ret tt.

Definition validate (b : t) : res ErrorKind unit := Ok tt.

#[global] Instance box : BoxType t := mkBoxType t NAME primitive_size primitive_mux validate.
#[global] Instance box_demux : BoxDemux t := mkBoxDemux t demux.
End box.

Definition wf (b : t) : Prop :=
  FullBoxHeader.wf NAME (header b) /\ fits 16 (graphics_mode b) /\
  (length (opcolor b) = 3%nat /\ Forall (fits 16) (opcolor b)).

#[export] Hint Unfold OP_COLOR_SIZE wf validate demux primitive_size primitive_mux : mp4box.

Section laws.
Context `{BO : ByteOrder}.

Lemma vmhd_codec b : wf b -> True -> validate b = Ok tt -> primitive_size b < 2 ^ 50 -> codec b.
Proof. revert b. box_open. codec_tac. Qed.

Lemma vmhd_outcome data : 8 * blen data < 2 ^ 62 -> outcome False (demux (BoxHeader.new NAME) data) wf.
Proof. box_total. Qed.

#[global] Instance laws : BoxLaws t := mkBoxLaws t _ _ wf (fun _ => True) False eq_refl vmhd_codec vmhd_outcome.
End laws.
End Vmhd.

(** ** smhd.rs *)

Module Smhd.
Record t := mk {
  header : FullBoxHeader.t;
  balance : Z;
  reserved : Z;
}.

Definition NAME : list byte := str "smhd".

Definition new `{FixedPoint} : option t :=
  balance ← from_num 16 8 0;
  Some (mk (FullBoxHeader.new NAME 0 0) balance 0).

Section box.
Context `{BO : ByteOrder}.

Definition demux (header : BoxHeader.t) (data : list byte) : res ErrorKind t := over data (
  let* header := FullBoxHeader.demux header in
  let* balance := read_i16 in
  let* reserved := read_u16 in
  ret (mk header balance reserved)).

Definition primitive_size (b : t) : Z :=
  let size := FullBoxHeader.size (header b) in
  let size := size + 2 in
  size + 2.

Definition primitive_mux W `{IoWrite W} (b : t) : M W ErrorKind unit :=
  FullBoxHeader.mux (header b) ;;;
  write_i16 (balance b) ;;;
  write_u16 (reserved b) ;;;
  ret tt.

Definition validate (b : t) : res ErrorKind unit :=
  if negb (FullBoxHeader.version (header b) =? 0) then Err InvalidData
  else if negb (FullBoxHeader.flags (header b) =? 0) then Err InvalidData
  else if negb (reserved b =? 0) then Err InvalidData
  else Ok tt.

#[global] Instance box : BoxType t := mkBoxType t NAME primitive_size primitive_mux validate.
#[global] Instance box_demux : BoxDemux t := mkBoxDemux t demux.
End box.

Definition wf (b : t) : Prop :=
  FullBoxHeader.wf NAME (header b) /\ - 2 ^ 15 <= balance b < 2 ^ 15 /\ fits 16 (reserved b).

#[export] Hint Unfold wf validate demux primitive_size primitive_mux : mp4box.

Section laws.
Context `{BO : ByteOrder}.

Lemma smhd_codec b : wf b -> True -> validate b = Ok tt -> primitive_size b < 2 ^ 50 -> codec b.
Proof. revert b. box_open. codec_tac. Qed.

Lemma smhd_outcome data : 8 * blen data < 2 ^ 62 -> outcome False (demux (BoxHeader.new NAME) data) wf.
Proof. box_total. Qed.

#[global] Instance laws : BoxLaws t := mkBoxLaws t _ _ wf (fun _ => True) False eq_refl smhd_codec smhd_outcome.
End laws.
End Smhd.

(** ** hmhd.rs *)

Module Hmhd.
Record t := mk {
  header : FullBoxHeader.t;
  max_pdu_size : Z;
  avg_pdu_size : Z;
  max_bitrate : Z;
  avg_bitrate : Z;
  reserved : Z;
}.

Definition NAME : list byte := str "hmhd".

Section box.
Context `{BO : ByteOrder}.

Definition demux (header : BoxHeader.t) (data : list byte) : res ErrorKind t := over data (
  let* header := FullBoxHeader.demux header in
  let* max_pdu_size := read_u16 in
  let* avg_pdu_size := read_u16 in
  let* max_bitrate := read_u32 in
  let* avg_bitrate := read_u32 in
  let* reserved := read_u32 in
  ret (mk header max_pdu_size avg_pdu_size max_bitrate avg_bitrate reserved)).

Definition primitive_size (b : t) : Z := FullBoxHeader.size (header b) + 2 + 2 + 4 + 4 + 4.

Definition primitive_mux W `{IoWrite W} (b : t) : M W ErrorKind unit :=
  FullBoxHeader.mux (header b) ;;;
  write_u16 (max_pdu_size b) ;;;
  write_u16 (avg_pdu_size b) ;;;
  write_u32 (max_bitrate b) ;;;
  write_u32 (avg_bitrate b) ;;;
  write_u32 (reserved b) ;;;
  ret tt.

Definition validate (b : t) : res ErrorKind unit :=
  if negb (FullBoxHeader.version (header b) =? 0) then Err InvalidData
  else if negb (FullBoxHeader.flags (header b) =? 0) then Err InvalidData
  else if negb (reserved b =? 0) then Err InvalidData
  else Ok tt.

#[global] Instance box : BoxType t := mkBoxType t NAME primitive_size primitive_mux validate.
#[global] Instance box_demux : BoxDemux t := mkBoxDemux t demux.
End box.

Definition wf (b : t) : Prop :=
  FullBoxHeader.wf NAME (header b) /\ fits 16 (max_pdu_size b) /\ fits 16 (avg_pdu_size b) /\
  fits 32 (max_bitrate b) /\ fits 32 (avg_bitrate b) /\ fits 32 (reserved b).

#[export] Hint Unfold wf validate demux primitive_size primitive_mux : mp4box.

Section laws.
Context `{BO : ByteOrder}.

Lemma hmhd_codec b : wf b -> True -> validate b = Ok tt -> primitive_size b < 2 ^ 50 -> codec b.
Proof. revert b. box_open. codec_tac. Qed.

Lemma hmhd_outcome data : 8 * blen data < 2 ^ 62 -> outcome False (demux (BoxHeader.new NAME) data) wf.
Proof. box_total. Qed.

#[global] Instance laws : BoxLaws t := mkBoxLaws t _ _ wf (fun _ => True) False eq_refl hmhd_codec hmhd_outcome.
End laws.
End Hmhd.

(** ** nmhd.rs *)

Module Nmhd.
Record t := mk { header : FullBoxHeader.t }.

Definition NAME : list byte := str "nmhd".

Section box.
Context `{BO : ByteOrder}.

Definition demux (header : BoxHeader.t) (data : list byte) : res ErrorKind t := over data (
  let* header := FullBoxHeader.demux header in
  ret (mk header)).

Definition primitive_size (b : t) : Z := FullBoxHeader.size (header b).

Definition primitive_mux W `{IoWrite W} (b : t) : M W ErrorKind unit :=
  FullBoxHeader.mux (header b) ;;;
  ret tt.

Definition validate (b : t) : res ErrorKind unit :=
  if negb (FullBoxHeader.version (header b) =? 0) then Err InvalidData
  else Ok tt.

#[global] Instance box : BoxType t := mkBoxType t NAME primitive_size primitive_mux validate.
#[global] Instance box_demux : BoxDemux t := mkBoxDemux t demux.
End box.

Definition wf (b : t) : Prop := FullBoxHeader.wf NAME (header b).

#[export] Hint Unfold wf validate demux primitive_size primitive_mux : mp4box.

Section laws.
Context `{BO : ByteOrder}.

Lemma nmhd_codec b : wf b -> True -> validate b = Ok tt -> primitive_size b < 2 ^ 50 -> codec b.
Proof. revert b. box_open. codec_tac. Qed.

Lemma nmhd_outcome data : 8 * blen data < 2 ^ 62 -> outcome False (demux (BoxHeader.new NAME) data) wf.
Proof. box_total. Qed.

#[global] Instance laws : BoxLaws t := mkBoxLaws t _ _ wf (fun _ => True) False eq_refl nmhd_codec nmhd_outcome.
End laws.
End Nmhd.

(** ** mehd.rs *)

Module Mehd.
Record t := mk {
  header : FullBoxHeader.t;
  fragment_duration : Z;
}.

Definition NAME : list byte := str "mehd".

Section box.
Context `{BO : ByteOrder}.

Definition demux (header : BoxHeader.t) (data : list byte) : res ErrorKind t := over data (
  let* header := FullBoxHeader.demux header in
  let* fragment_duration := if FullBoxHeader.version header =? 1 then read_u64 else read_u32 in
  ret (mk header fragment_duration)).

Definition primitive_size (b : t) : Z :=
  FullBoxHeader.size (header b) + if FullBoxHeader.version (header b) =? 1 then 8 else 4.

Definition primitive_mux W `{IoWrite W} (b : t) : M W ErrorKind unit :=
  FullBoxHeader.mux (header b) ;;;
  (if FullBoxHeader.version (header b) =? 1
   then write_u64 (fragment_duration b)
   else write_u32 (wrap 32 (fragment_duration b))) ;;;
  ret tt.

Definition validate (b : t) : res ErrorKind unit :=
  if 1 <? FullBoxHeader.version (header b) then Err InvalidData
  else if (FullBoxHeader.version (header b) =? 0) && (u32_max <? fragment_duration b) then Err InvalidData
  else Ok tt.

#[global] Instance box : BoxType t := mkBoxType t NAME primitive_size primitive_mux validate.
#[global] Instance box_demux : BoxDemux t := mkBoxDemux t demux.
End box.

Definition wf (b : t) : Prop :=
  FullBoxHeader.wf NAME (header b) /\ fits 64 (fragment_duration b).

#[export] Hint Unfold wf validate demux primitive_size primitive_mux : mp4box.

Section laws.
Context `{BO : ByteOrder}.

Lemma mehd_codec b : wf b -> True -> validate b = Ok tt -> primitive_size b < 2 ^ 50 -> codec b.
Proof. revert b. box_open. destruct (_ =? 1) eqn:Hv; codec_tac. Qed.

Lemma mehd_outcome data : 8 * blen data < 2 ^ 62 -> outcome False (demux (BoxHeader.new NAME) data) wf.
Proof. box_total. Qed.

#[global] Instance laws : BoxLaws t := mkBoxLaws t _ _ wf (fun _ => True) False eq_refl mehd_codec mehd_outcome.
End laws.
End Mehd.

(** ** trex.rs *)

Module Trex.
Record t := mk {
  header : FullBoxHeader.t;
  track_id : Z;
  default_sample_description_index : Z;
  default_sample_duration : Z;
  default_sample_size : Z;
  default_sample_flags : Z;
}.

Definition NAME : list byte := str "trex".

Definition new (track_id : Z) : t := mk (FullBoxHeader.new NAME 0 0) track_id 1 0 0 0.

Section box.
Context `{BO : ByteOrder}.

Definition demux (header : BoxHeader.t) (data : list byte) : res ErrorKind t := over data (
  let* header := FullBoxHeader.demux header in
  let* track_id := read_u32 in
  let* default_sample_description_index := read_u32 in
  let* default_sample_duration := read_u32 in
  let* default_sample_size := read_u32 in
  let* default_sample_flags := read_u32 in
  ret (mk header track_id default_sample_description_index default_sample_duration
    default_sample_size default_sample_flags)).

Definition primitive_size (b : t) : Z :=
  let size := FullBoxHeader.size (header b) in
  let size := size + 4 in
  let size := size + 4 in
  let size := size + 4 in
  let size := size + 4 in
  size + 4.

Definition primitive_mux W `{IoWrite W} (b : t) : M W ErrorKind unit :=
  FullBoxHeader.mux (header b) ;;;
  write_u32 (track_id b) ;;;
  write_u32 (default_sample_description_index b) ;;;
  write_u32 (default_sample_duration b) ;;;
  write_u32 (default_sample_size b) ;;;
  write_u32 (default_sample_flags b) ;;;
  ret tt.

Definition validate (b : t) : res ErrorKind unit :=
  if negb (FullBoxHeader.version (header b) =? 0) then Err InvalidData
  else if negb (FullBoxHeader.flags (header b) =? 0) then Err InvalidData
  else Ok tt.

#[global] Instance box : BoxType t := mkBoxType t NAME primitive_size primitive_mux validate.
#[global] Instance box_demux : BoxDemux t := mkBoxDemux t demux.
End box.

Definition wf (b : t) : Prop :=
  FullBoxHeader.wf NAME (header b) /\ fits 32 (track_id b) /\
  fits 32 (default_sample_description_index b) /\ fits 32 (default_sample_duration b) /\
  fits 32 (default_sample_size b) /\ fits 32 (default_sample_flags b).

#[export] Hint Unfold wf validate demux primitive_size primitive_mux : mp4box.

Section laws.
Context `{BO : ByteOrder}.

Lemma trex_codec b : wf b -> True -> validate b = Ok tt -> primitive_size b < 2 ^ 50 -> codec b.
Proof. revert b. box_open. codec_tac. Qed.

Lemma trex_outcome data : 8 * blen data < 2 ^ 62 -> outcome False (demux (BoxHeader.new NAME) data) wf.
Proof. box_total. Qed.

#[global] Instance laws : BoxLaws t := mkBoxLaws t _ _ wf (fun _ => True) False eq_refl trex_codec trex_outcome.
End laws.
End Trex.

(** ** elst.rs *)

Module Elst.
Record ElstEntry := mkEntry {
  segment_duration : Z;
  media_time : Z;
  media_rate_integer : Z;
  media_rate_fraction : Z;
}.

Record t := mk {
  header : FullBoxHeader.t;
  entries : list ElstEntry;
}.

Definition NAME : list byte := str "elst".

Definition new (entries : list ElstEntry) : t := mk (FullBoxHeader.new NAME 0 0) entries.

Section box.
Context `{BO : ByteOrder}.

Definition read_entry (version : Z) : M Cursor ErrorKind ElstEntry :=
  let* (segment_duration, media_time, media_rate_integer, media_rate_fraction) :=
    if version =? 1
    then
      let* segment_duration := read_u64 in
      let* media_time := read_i64 in
      let* media_rate_integer := read_i16 in
      let* media_rate_fraction := read_i16 in
      ret (segment_duration, media_time, media_rate_integer, media_rate_fraction)
    else
      let* segment_duration := read_u32 in
      let* media_time := read_i32 in
      let* media_rate_integer := read_i16 in
      let* media_rate_fraction := read_i16 in
      ret (segment_duration, media_time, media_rate_integer, media_rate_fraction) in
  ret (mkEntry segment_duration media_time media_rate_integer media_rate_fraction).

Definition demux (header : BoxHeader.t) (data : list byte) : res ErrorKind t := over data (
  let* header := FullBoxHeader.demux header in
  let* entry_count := read_u32 in
  let* entries := read_times (Z.to_nat entry_count) (read_entry (FullBoxHeader.version header)) in
  ret (mk header entries)).

Definition primitive_size (b : t) : Z :=
  FullBoxHeader.size (header b) + 4 +
  blen (entries b) * (if FullBoxHeader.version (header b) =? 1 then 8 + 8 + 2 + 2 else 4 + 4 + 2 + 2).

Definition primitive_mux W `{IoWrite W} (b : t) : M W ErrorKind unit :=
  FullBoxHeader.mux (header b) ;;;
  write_u32 (wrap 32 (blen (entries b))) ;;;
  for_each (entries b) (fun entry =>
    (if FullBoxHeader.version (header b) =? 1
     then
       write_u64 (segment_duration entry) ;;;
       write_i64 (media_time entry)
     else
       write_u32 (wrap 32 (segment_duration entry)) ;;;
       write_i32 (swrap 32 (media_time entry))) ;;;
    write_i16 (media_rate_integer entry) ;;;
    write_i16 (media_rate_fraction entry)) ;;;
  ret tt.

Definition validate (b : t) : res ErrorKind unit :=
  if negb (FullBoxHeader.flags (header b) =? 0) then Err InvalidData
  else if 1 <? FullBoxHeader.version (header b) then Err InvalidData
  else if (FullBoxHeader.version (header b) =? 1) &&
    existsb (fun entry => (u32_max <? segment_duration entry) || (i32_max <? media_time entry)) (entries b)
   then Err InvalidData
  else Ok tt.

#[global] Instance box : BoxType t := mkBoxType t NAME primitive_size primitive_mux validate.
#[global] Instance box_demux : BoxDemux t := mkBoxDemux t demux.
End box.

(** Without version 1 the two times of an entry are 32 bits wide; [validate]
    does not look at them then. *)
Definition entry_wf (version : Z) (e : ElstEntry) : Prop :=
  (if version =? 1
   then fits 64 (segment_duration e) /\ - 2 ^ 63 <= media_time e < 2 ^ 63
   else fits 32 (segment_duration e) /\ - 2 ^ 31 <= media_time e < 2 ^ 31) /\
  - 2 ^ 15 <= media_rate_integer e < 2 ^ 15 /\ - 2 ^ 15 <= media_rate_fraction e < 2 ^ 15.

Definition wf (b : t) : Prop :=
  FullBoxHeader.wf NAME (header b) /\ fits 32 (blen (entries b)) /\
  Forall (entry_wf (FullBoxHeader.version (header b))) (entries b).

#[export] Hint Unfold wf validate demux primitive_size primitive_mux : mp4box.
#[export] Hint Unfold entry_wf read_entry : mp4entry.

Section laws.
Context `{BO : ByteOrder}.

Lemma elst_entry_spec version : spec False (read_entry version) (entry_wf version).
Proof.
  unfold read_entry. destruct (version =? 1) eqn:E; repeat sstep; unfold entry_wf; rewrite E; simpl;
    destruct_and?; repeat split; num_tac.
Qed.
#[local] Hint Resolve elst_entry_spec : mp4.

Lemma elst_codec b : wf b -> True -> validate b = Ok tt -> primitive_size b < 2 ^ 50 -> codec b.
Proof. revert b. box_open. destruct (_ =? 1) eqn:Hv; codec_tac. Qed.

Lemma elst_outcome data : 8 * blen data < 2 ^ 62 -> outcome False (demux (BoxHeader.new NAME) data) wf.
Proof. box_total. Qed.

#[global] Instance laws : BoxLaws t := mkBoxLaws t _ _ wf (fun _ => True) False eq_refl elst_codec elst_outcome.
End laws.
End Elst.

(** ** url.rs *)

Module Url.
Record t := mk {
  header : FullBoxHeader.t;
  location : option (list byte);
}.

Definition NAME : list byte := str "url ".

Definition new : t := mk (FullBoxHeader.new NAME 0 1) None.

Section box.
Context `{BO : ByteOrder}.

Definition demux (header : BoxHeader.t) (data : list byte) : res ErrorKind t := over data (
  let* header := FullBoxHeader.demux header in
  let* location := read_if (FullBoxHeader.flags header =? 0) read_string in
  ret (mk header location)).

Definition primitive_size (b : t) : Z :=
  FullBoxHeader.size (header b) + opt_size (fun location => blen location + 1) (location b).

Definition primitive_mux W `{IoWrite W} (b : t) : M W ErrorKind unit :=
  FullBoxHeader.mux (header b) ;;;
  if_some (location b) (fun location =>
    write_all location ;;;
    write_u8 0) ;;;
  ret tt.

Definition validate (b : t) : res ErrorKind unit :=
  if negb (FullBoxHeader.version (header b) =? 0) then Err InvalidData
  else if negb (FullBoxHeader.flags (header b) =? 0) && is_some (location b) then Err InvalidData
  else if (FullBoxHeader.flags (header b) =? 0) && negb (is_some (location b)) then Err InvalidData
  else Ok tt.

#[global] Instance box : BoxType t := mkBoxType t NAME primitive_size primitive_mux validate.
#[global] Instance box_demux : BoxDemux t := mkBoxDemux t demux.
End box.

Definition wf (b : t) : Prop := FullBoxHeader.wf NAME (header b).

(** A location that is read back, as the name of [Hdlr]. *)
Definition fair (b : t) : Prop := forall s, location b = Some s -> c_string s.

#[export] Hint Unfold wf validate demux primitive_size primitive_mux fair : mp4box.

Section laws.
Context `{BO : ByteOrder}.

Lemma url_codec b : wf b -> fair b -> validate b = Ok tt -> primitive_size b < 2 ^ 50 -> codec b.
Proof. revert b. box_open. codec_tac. Qed.

Lemma url_outcome data : 8 * blen data < 2 ^ 62 -> outcome False (demux (BoxHeader.new NAME) data) wf.
Proof. box_total. Qed.

#[global] Instance laws : BoxLaws t := mkBoxLaws t _ _ wf fair False eq_refl url_codec url_outcome.
End laws.
End Url.

(** ** btrt.rs *)

Module Btrt.
Record t := mk {
  header : BoxHeader.t;
  buffer_size_db : Z;
  max_bitrate : Z;
  avg_bitrate : Z;
}.

Definition NAME : list byte := str "btrt".

Section box.
Context `{BO : ByteOrder}.

Definition demux (header : BoxHeader.t) (data : list byte) : res ErrorKind t := over data (
  let* buffer_size_db := read_u32 in
  let* max_bitrate := read_u32 in
  let* avg_bitrate := read_u32 in
  ret (mk header buffer_size_db max_bitrate avg_bitrate)).

Definition primitive_size (b : t) : Z := 4 + 4 + 4.

Definition primitive_mux W `{IoWrite W} (b : t) : M W ErrorKind unit :=
  write_u32 (buffer_size_db b) ;;;
  write_u32 (max_bitrate b) ;;;
  write_u32 (avg_bitrate b) ;;;
  ret tt.

Definition validate (b : t) : res ErrorKind unit := Ok tt.

#[global] Instance box : BoxType t := mkBoxType t NAME primitive_size primitive_mux validate.
#[global] Instance box_demux : BoxDemux t := mkBoxDemux t demux.
End box.

Definition wf (b : t) : Prop :=
  header b = BoxHeader.new NAME /\ fits 32 (buffer_size_db b) /\ fits 32 (max_bitrate b) /\ fits 32
  (avg_bitrate b).

#[export] Hint Unfold wf validate demux primitive_size primitive_mux : mp4box.

Section laws.
Context `{BO : ByteOrder}.

Lemma btrt_codec b : wf b -> True -> validate b = Ok tt -> primitive_size b < 2 ^ 50 -> codec b.
Proof. revert b. box_open. codec_tac. Qed.

Lemma btrt_outcome data : 8 * blen data < 2 ^ 62 -> outcome False (demux (BoxHeader.new NAME) data) wf.
Proof. box_total. Qed.

#[global] Instance laws : BoxLaws t := mkBoxLaws t _ _ wf (fun _ => True) False eq_refl btrt_codec btrt_outcome.
End laws.
End Btrt.

(** ** clap.rs *)

Module Clap.
Record t := mk {
  header : BoxHeader.t;
  clean_aperture_width_n : Z;
  clean_aperture_width_d : Z;
  clean_aperture_height_n : Z;
  clean_aperture_height_d : Z;
  horiz_off_n : Z;
  horiz_off_d : Z;
  vert_off_n : Z;
  vert_off_d : Z;
}.

Definition NAME : list byte := str "clap".

Section box.
Context `{BO : ByteOrder}.

Definition demux (header : BoxHeader.t) (data : list byte) : res ErrorKind t := over data (
  let* clean_aperture_width_n := read_u32 in
  let* clean_aperture_width_d := read_u32 in
  let* clean_aperture_height_n := read_u32 in
  let* clean_aperture_height_d := read_u32 in
  let* horiz_off_n := read_u32 in
  let* horiz_off_d := read_u32 in
  let* vert_off_n := read_u32 in
  let* vert_off_d := read_u32 in
  ret (mk header clean_aperture_width_n clean_aperture_width_d clean_aperture_height_n clean_aperture_height_d horiz_off_n horiz_off_d vert_off_n vert_off_d)).

Definition primitive_size (b : t) : Z := 4 + 4 + 4 + 4 + 4 + 4 + 4 + 4.

Definition primitive_mux W `{IoWrite W} (b : t) : M W ErrorKind unit :=
  write_u32 (clean_aperture_width_n b) ;;;
  write_u32 (clean_aperture_width_d b) ;;;
  write_u32 (clean_aperture_height_n b) ;;;
  write_u32 (clean_aperture_height_d b) ;;;
  write_u32 (horiz_off_n b) ;;;
  write_u32 (horiz_off_d b) ;;;
  write_u32 (vert_off_n b) ;;;
  write_u32 (vert_off_d b) ;;;
  ret tt.

Definition validate (b : t) : res ErrorKind unit := Ok tt.

#[global] Instance box : BoxType t := mkBoxType t NAME primitive_size primitive_mux validate.
#[global] Instance box_demux : BoxDemux t := mkBoxDemux t demux.
End box.

Definition wf (b : t) : Prop :=
  header b = BoxHeader.new NAME /\ fits 32 (clean_aperture_width_n b) /\ fits 32
  (clean_aperture_width_d b) /\ fits 32 (clean_aperture_height_n b) /\ fits 32
  (clean_aperture_height_d b) /\ fits 32 (horiz_off_n b) /\ fits 32 (horiz_off_d b) /\ fits 32
  (vert_off_n b) /\ fits 32 (vert_off_d b).

#[export] Hint Unfold wf validate demux primitive_size primitive_mux : mp4box.

Section laws.
Context `{BO : ByteOrder}.

Lemma clap_codec b : wf b -> True -> validate b = Ok tt -> primitive_size b < 2 ^ 50 -> codec b.
Proof. revert b. box_open. codec_tac. Qed.

Lemma clap_outcome data : 8 * blen data < 2 ^ 62 -> outcome False (demux (BoxHeader.new NAME) data) wf.
Proof. box_total. Qed.

#[global] Instance laws : BoxLaws t := mkBoxLaws t _ _ wf (fun _ => True) False eq_refl clap_codec clap_outcome.
End laws.
End Clap.

(** ** pasp.rs *)

Module Pasp.
Record t := mk {
  header : BoxHeader.t;
  h_spacing : Z;
  v_spacing : Z;
}.

Definition NAME : list byte := str "pasp".

Definition new : t := mk (BoxHeader.new NAME) 1 1.

Section box.
Context `{BO : ByteOrder}.

Definition demux (header : BoxHeader.t) (data : list byte) : res ErrorKind t := over data (
  let* h_spacing := read_u32 in
  let* v_spacing := read_u32 in
  ret (mk header h_spacing v_spacing)).

Definition primitive_size (b : t) : Z := 4 + 4.

Definition primitive_mux W `{IoWrite W} (b : t) : M W ErrorKind unit :=
  write_u32 (h_spacing b) ;;;
  write_u32 (v_spacing b) ;;;
  ret tt.

Definition validate (b : t) : res ErrorKind unit := Ok tt.

#[global] Instance box : BoxType t := mkBoxType t NAME primitive_size primitive_mux validate.
#[global] Instance box_demux : BoxDemux t := mkBoxDemux t demux.
End box.

Definition wf (b : t) : Prop :=
  header b = BoxHeader.new NAME /\ fits 32 (h_spacing b) /\ fits 32 (v_spacing b).

#[export] Hint Unfold wf validate demux primitive_size primitive_mux : mp4box.

Section laws.
Context `{BO : ByteOrder}.

Lemma pasp_codec b : wf b -> True -> validate b = Ok tt -> primitive_size b < 2 ^ 50 -> codec b.
Proof. revert b. box_open. codec_tac. Qed.

Lemma pasp_outcome data : 8 * blen data < 2 ^ 62 -> outcome False (demux (BoxHeader.new NAME) data) wf.
Proof. box_total. Qed.

#[global] Instance laws : BoxLaws t := mkBoxLaws t _ _ wf (fun _ => True) False eq_refl pasp_codec pasp_outcome.
End laws.
End Pasp.

(** ** colr.rs *)

Module Colr.
Inductive ColorType :=
| Nclx (color_primaries transfer_characteristics matrix_coefficients : Z) (full_range_flag : bool)
| Unknown (color_type data : list byte).

Record t := mk {
  header : BoxHeader.t;
  color_type : ColorType;
}.

Definition NAME : list byte := str "colr".

Definition new (color_type : ColorType) : t := mk (BoxHeader.new NAME) color_type.

Section box.
Context `{BO : ByteOrder}.

(** The data of an unknown type is [reader.into_inner().slice(pos..)], all that
    is left. *)
Definition read_color (color_type : list byte) : M Cursor ErrorKind ColorType :=
  if decide (color_type = str "nclx")
  then
    let* color_primaries := read_u16 in
    let* transfer_characteristics := read_u16 in
    let* matrix_coefficients := read_u16 in
    let* v := read_u8 in
    let full_range_flag := Z.shiftr v 7 =? 1 in
    ret (Nclx color_primaries transfer_characteristics matrix_coefficients full_range_flag)
  else
    let* data := BytesCursorExt.extract_remaining in
    ret (Unknown color_type data).

Definition demux (header : BoxHeader.t) (data : list byte) : res ErrorKind t := over data (
  let* color_type := read_exact 4 in
  let* color_type := read_color color_type in
  ret (mk header color_type)).

Definition primitive_size (b : t) : Z :=
  let size :=
    match color_type b with
    | Nclx _ _ _ _ => 2 + 2 + 2 + 1
    | Unknown _ data => blen data
    end in
  size + 4.

Definition primitive_mux W `{IoWrite W} (b : t) : M W ErrorKind unit :=
  match color_type b with
  | Nclx color_primaries transfer_characteristics matrix_coefficients full_range_flag =>
      write_all (str "nclx") ;;;
      write_u16 color_primaries ;;;
      write_u16 transfer_characteristics ;;;
      write_u16 matrix_coefficients ;;;
      write_u8 (if full_range_flag then 128 else 0)
  | Unknown color_type data =>
      write_all color_type ;;;
      write_all data
  end ;;;
  ret tt.

Definition validate (b : t) : res ErrorKind unit := Ok tt.

#[global] Instance box : BoxType t := mkBoxType t NAME primitive_size primitive_mux validate.
#[global] Instance box_demux : BoxDemux t := mkBoxDemux t demux.
End box.

Definition color_wf (c : ColorType) : Prop :=
  match c with
  | Nclx p tc m _ => fits 16 p /\ fits 16 tc /\ fits 16 m
  | Unknown ty _ => length ty = 4%nat /\ ty <> str "nclx"
  end.

Definition wf (b : t) : Prop := header b = BoxHeader.new NAME /\ color_wf (color_type b).

#[export] Hint Unfold wf validate demux primitive_size primitive_mux : mp4box.
#[export] Hint Unfold read_color : mp4entry.

Section laws.
Context `{BO : ByteOrder}.

Lemma color_spec ty : length ty = 4%nat -> spec False (read_color ty) color_wf.
Proof. intros Hty. unfold read_color. case_decide; repeat sstep; simpl; repeat split; num_tac. Qed.
#[local] Hint Resolve color_spec : mp4.

Lemma colr_codec b : wf b -> True -> validate b = Ok tt -> primitive_size b < 2 ^ 50 -> codec b.
Proof. revert b. box_open. destruct color_type0 as [p tc m f|ty d]; simpl in *; destruct_and?.
  - assert (exists v, (if f then 128 else 0) = v /\ fits 8 v /\ (Z.shiftr v 7 =? 1) = f) as (v & -> & Hv & Ef)
      by (eexists; split; [done|]; by destruct f).
    eexists; split; [intros W HW HL; repeat pstep | split; [size_tac|]].
    apply (over_takes (fun post => post = [])); [|done]. tstep.
    rewrite decide_True by done. repeat tstep. by rewrite Ef.
  - eexists; split; [intros W HW HL; repeat pstep | split; [unfold blen in *; rewrite !length_app; simpl; lia|]].
    apply (over_takes (fun post => post = [])); [|done]. tstep.
    rewrite decide_False by done. repeat tstep. done.
 Qed.

Lemma colr_outcome data : 8 * blen data < 2 ^ 62 -> outcome False (demux (BoxHeader.new NAME) data) wf.
Proof. box_total. Qed.

#[global] Instance laws : BoxLaws t := mkBoxLaws t _ _ wf (fun _ => True) False eq_refl colr_codec colr_outcome.
End laws.
End Colr.

(** ** mdat.rs *)

Module Mdat.
Record t := mk {
  header : BoxHeader.t;
  data : list (list byte);
}.

Definition NAME : list byte := str "mdat".

Definition new (data : list (list byte)) : t := mk (BoxHeader.new NAME) data.

Definition demux (header : BoxHeader.t) (data : list byte) : res ErrorKind t := Ok (mk header [data]).

Definition primitive_size (b : t) : Z := sum_of blen (data b).

Definition primitive_mux W `{IoWrite W} (b : t) : M W ErrorKind unit :=
  for_each (data b) write_all ;;;
  ret tt.

Definition validate (b : t) : res ErrorKind unit := Ok tt.

#[global] Instance box : BoxType t := mkBoxType t NAME primitive_size primitive_mux validate.
#[global] Instance box_demux : BoxDemux t := mkBoxDemux t demux.

Definition wf (b : t) : Prop := header b = BoxHeader.new NAME /\ exists d, data b = [d].

Lemma mdat_codec b : wf b -> True -> validate b = Ok tt -> primitive_size b < 2 ^ 50 -> codec b.
Proof.
  destruct b as [h d]. intros [Hh [d' Hd]] _ _ _. simpl in *. subst. exists (d' ++ []).
  split; [|split]; [|simpl; rewrite app_nil_r; unfold primitive_size, sum_of; simpl; lia|by rewrite app_nil_r].
  intros W HW HL. change (puts ((write_all d' ;;; ret tt) ;;; ret tt) (d' ++ [])).
  do 2 pstep; [apply puts_all|]. apply puts_skip, puts_ret.
Qed.

Lemma mdat_outcome data : 8 * blen data < 2 ^ 62 -> outcome False (demux (BoxHeader.new NAME) data) wf.
Proof. intros _. split; [done|]. by eexists. Qed.

#[global] Instance laws : BoxLaws t := mkBoxLaws t _ _ wf (fun _ => True) False eq_refl mdat_codec mdat_outcome.
End Mdat.

(** ** ftyp.rs *)

Module FourCC.
Inductive t := Iso5 | Iso6 | Mp41 | Avc1 | Av01 | Hev1 | Unknown (bytes : list byte).

Definition to_bytes (c : t) : list byte :=
  match c with
  | Iso5 => str "iso5"
  | Iso6 => str "iso6"
  | Mp41 => str "mp41"
  | Avc1 => str "avc1"
  | Av01 => str "av01"
  | Hev1 => str "hev1"
  | Unknown bytes => bytes
  end.

Definition from (bytes : list byte) : t :=
  if decide (bytes = str "iso5") then Iso5
  else if decide (bytes = str "iso6") then Iso6
  else if decide (bytes = str "mp41") then Mp41
  else if decide (bytes = str "avc1") then Avc1
  else if decide (bytes = str "av01") then Av01
  else if decide (bytes = str "hev1") then Hev1
  else Unknown bytes.

(** What [from] returns on four bytes. *)
Definition wf (c : t) : Prop := length (to_bytes c) = 4%nat /\ from (to_bytes c) = c.

Lemma fourcc_from v : length v = 4%nat -> wf (from v).
Proof.
  intros Hv. assert (to_bytes (from v) = v) as E by (unfold from; repeat case_decide; by subst).
  unfold wf. by rewrite E.
Qed.
End FourCC.

Module Ftyp.
Record t := mk {
  header : BoxHeader.t;
  major_brand : FourCC.t;
  minor_version : Z;
  compatible_brands : list FourCC.t;
}.

Definition NAME : list byte := str "ftyp".

Definition new (major_brand : FourCC.t) (minor_version : Z) (compatible_brands : list FourCC.t) : t :=
  mk (BoxHeader.new NAME) major_brand minor_version compatible_brands.

(** [while data.len() >= 4]: four bytes at a time. *)
Fixpoint brands (data : list byte) : list FourCC.t :=
  match data with
  | a :: b :: c :: d :: data => FourCC.from [a; b; c; d] :: brands data
  | _ => []
  end.

Section box.
Context `{BO : ByteOrder}.

(** The three [slice]s panic on data of fewer than eight bytes. *)
Definition demux (header : BoxHeader.t) (data : list byte) : res ErrorKind t :=
  match slice 0 4 data, slice 4 8 data, slice 8 (blen data) data with
  | Some major_brand, Some minor_version, Some compatible_brands =>
      match over minor_version read_u32 with
      | Ok minor_version =>
          Ok (mk header (FourCC.from major_brand) minor_version (brands compatible_brands))
      | Err e => Err e
      | Panic => Panic
      | Fuel => Fuel
      end
  | _, _, _ => Panic
  end.

Definition primitive_size (b : t) : Z := 4 + 4 + blen (compatible_brands b) * 4.

Definition primitive_mux W `{IoWrite W} (b : t) : M W ErrorKind unit :=
  write_all (FourCC.to_bytes (major_brand b)) ;;;
  write_u32 (minor_version b) ;;;
  for_each (compatible_brands b) (fun compatible_brand => write_all (FourCC.to_bytes compatible_brand)) ;;;
  ret tt.

Definition validate (b : t) : res ErrorKind unit := Ok tt.

#[global] Instance box : BoxType t := mkBoxType t NAME primitive_size primitive_mux validate.
#[global] Instance box_demux : BoxDemux t := mkBoxDemux t demux.
End box.

Definition wf (b : t) : Prop :=
  header b = BoxHeader.new NAME /\ FourCC.wf (major_brand b) /\ fits 32 (minor_version b) /\
  Forall FourCC.wf (compatible_brands b).

Lemma brands_bytes cs : Forall FourCC.wf cs -> brands (cs ≫= FourCC.to_bytes) = cs.
Proof.
  induction 1 as [|c cs [Hl Hc] _ IH]; [done|].
  change ((c :: cs) ≫= FourCC.to_bytes) with (FourCC.to_bytes c ++ (cs ≫= FourCC.to_bytes)).
  destruct (FourCC.to_bytes c) as [|b1 [|b2 [|b3 [|b4 [|]]]]] eqn:E; try done. simpl. by rewrite Hc, IH.
Qed.

Lemma brands_wf data : Forall FourCC.wf (brands data).
Proof.
  enough (forall n (data : list byte), (length data <= n)%nat -> Forall FourCC.wf (brands data)) as H
    by by apply (H (length data)).
  clear data. induction n as [|n IH]; intros data Hn.
  - destruct data; [constructor|simpl in Hn; lia].
  - destruct data as [|b1 [|b2 [|b3 [|b4 data]]]]; try constructor.
    + by apply FourCC.fourcc_from.
    + apply IH. simpl in Hn. lia.
Qed.

Section laws.
Context `{BO : ByteOrder}.

Lemma ftyp_codec b : wf b -> True -> validate b = Ok tt -> primitive_size b < 2 ^ 50 -> codec b.
Proof.
  destruct b as [h mb mv cb]. intros (Hh & [Hl Hm] & Hv & Hc) _ _ _. simpl in *. subst.
  exists (FourCC.to_bytes mb ++ be_bytes 4 mv ++ (cb ≫= FourCC.to_bytes)).
  assert (blen (cb ≫= FourCC.to_bytes) = blen cb * 4) as Hb.
  { apply blen_each. intros c Hx. elem_tac. unfold FourCC.wf in *. destruct_and!. unfold blen. lia. }
  split; [|split].
  - intros W HW HL. cbv [Mp4Box.primitive_mux box primitive_mux major_brand minor_version compatible_brands]. rewrite <-(app_nil_r (cb ≫= _)).
    pstep; [apply puts_all|]. pstep; [apply puts_uint; num_tac|]. pstep; [|apply puts_ret].
    apply puts_each. intros c _. apply puts_all.
  - cbv [Mp4Box.primitive_size box primitive_size compatible_brands]. autorewrite with scuffle. rewrite Hb. unfold blen. simpl. lia.
  - cbv [Mp4Box.demux box_demux demux].
    assert (blen (FourCC.to_bytes mb) = 4) as H4 by (unfold blen; lia).
    set (cs := cb ≫= FourCC.to_bytes) in *.
    assert (slice 0 4 (FourCC.to_bytes mb ++ be_bytes 4 mv ++ cs) = Some (FourCC.to_bytes mb)) as ->
      by (apply (slice_app []); unfold blen in *; simpl; lia).
    rewrite (slice_app (FourCC.to_bytes mb) (be_bytes 4 mv)) by (rewrite ?blen_be_bytes; lia).
    assert (slice 8 (blen (FourCC.to_bytes mb ++ be_bytes 4 mv ++ cs))
      (FourCC.to_bytes mb ++ be_bytes 4 mv ++ cs) = Some cs) as ->.
    { rewrite (assoc_L (++)). rewrite <-(app_nil_r cs) at 2.
      apply slice_app; rewrite ?blen_app, ?blen_be_bytes; lia. }
    rewrite (over_takes (fun _ => True) _ _ mv) by (try apply TotalParse.takes_uint; num_tac).
    unfold cs. by rewrite Hm, brands_bytes.
Qed.

Lemma ftyp_outcome data : 8 * blen data < 2 ^ 62 -> outcome True (demux (BoxHeader.new NAME) data) wf.
Proof.
  intros Hl. unfold demux. destruct (Z.lt_ge_cases (blen data) 8) as [Hs|Hs].
  - rewrite (slice_None data 4 8) by lia. by destruct (slice 0 4 data).
  - rewrite !slice_Some by lia.
    assert (length (take 4 (drop 4 data)) = 4%nat) as H4
      by (unfold blen in *; rewrite length_take, length_drop; lia).
    assert (outcome True (over (take 4 (drop 4 data)) read_u32) (fun z => 0 <= z < 256 ^ Z.of_nat 4)) as Ho
      by (apply spec_over; [unfold blen; lia|apply spec_uint]).
    change (Z.to_nat (8 - 4)) with 4%nat. change (Z.to_nat 4) with 4%nat.
    destruct (over _ read_u32) as [z|e| |]; try done. simpl in Ho.
    repeat split; cbn [major_brand minor_version compatible_brands]; try num_tac.
    + apply FourCC.fourcc_from. unfold blen in *. rewrite length_take, length_drop. lia.
    + apply FourCC.fourcc_from. unfold blen in *. rewrite length_take, length_drop. lia.
    + apply brands_wf.
Qed.

#[global] Instance laws : BoxLaws t := mkBoxLaws t _ _ wf (fun _ => True) True eq_refl ftyp_codec ftyp_outcome.
End laws.
End Ftyp.
