(* ===== verification/Mp4Tables.v ===== *)
(** * [scuffle-mp4]: the sample tables (crates/mp4/src/boxes/types)

    The tables of a track: chunk offsets, times, sizes, sync samples,
    dependencies and groups. Each box has the operations of the trait, the
    values its [demux] returns ([wf]), and where the source needs more than
    [validate] for a table to be read back, that condition ([fair]). *)

From Stdlib Require Import Strings.String.
From stdpp Require Import base list numbers.
From Stdlib Require Import Strings.Byte.
From S2P Require Import Prelude Io BytesCursor BitIo H264 Flv Mp4Box.

(** ** stco.rs *)

Module Stco.
Record t := mk {
  header : FullBoxHeader.t;
  entries : list Z;
}.

Definition NAME : list byte := str "stco".

Definition new (entries : list Z) : t := mk (FullBoxHeader.new NAME 0 0) entries.

Section box.
Context `{BO : ByteOrder}.

Definition demux (header : BoxHeader.t) (data : list byte) : res ErrorKind t := over data (
  let* header := FullBoxHeader.demux header in
  let* entry_count := read_u32 in
  let* entries := read_times (Z.to_nat entry_count) read_u32 in
  ret (mk header entries)).

Definition primitive_size (b : t) : Z :=
  let size := FullBoxHeader.size (header b) in
  let size := size + 4 in
  size + blen (entries b) * 4.

Definition primitive_mux W `{IoWrite W} (b : t) : M W ErrorKind unit :=
  FullBoxHeader.mux (header b) ;;;
  write_u32 (wrap 32 (blen (entries b))) ;;;
  for_each (entries b) write_u32 ;;;
  ret tt.

Definition validate (b : t) : res ErrorKind unit :=
  if negb (FullBoxHeader.version (header b) =? 0) then Err InvalidData
  else if negb (FullBoxHeader.flags (header b) =? 0) then Err InvalidData
  else Ok tt.

#[global] Instance box : BoxType t := mkBoxType t NAME primitive_size primitive_mux validate.
#[global] Instance box_demux : BoxDemux t := mkBoxDemux t demux.
End box.

Definition wf (b : t) : Prop :=
  FullBoxHeader.wf NAME (header b) /\ fits 32 (blen (entries b)) /\ Forall (fits 32) (entries b).

#[export] Hint Unfold wf validate demux primitive_size primitive_mux : mp4box.

Section laws.
Context `{BO : ByteOrder}.

Lemma stco_codec b : wf b -> True -> validate b = Ok tt -> primitive_size b < 2 ^ 50 -> codec b.
Proof. revert b. box_open. codec_tac. Qed.

Lemma stco_outcome data : 8 * blen data < 2 ^ 62 -> outcome False (demux (BoxHeader.new NAME) data) wf.
Proof. box_total. Qed.

#[global] Instance laws : BoxLaws t := mkBoxLaws t _ _ wf (fun _ => True) False eq_refl stco_codec stco_outcome.
End laws.
End Stco.

(** ** co64.rs *)

Module Co64.
Record t := mk {
  header : FullBoxHeader.t;
  chunk_offset : list Z;
}.

Definition NAME : list byte := str "co64".

Section box.
Context `{BO : ByteOrder}.

Definition demux (header : BoxHeader.t) (data : list byte) : res ErrorKind t := over data (
  let* header := FullBoxHeader.demux header in
  let* entry_count := read_u32 in
  let* chunk_offset := read_times (Z.to_nat entry_count) read_u32 in
  ret (mk header chunk_offset)).

Definition primitive_size (b : t) : Z :=
  let size := FullBoxHeader.size (header b) in
  let size := size + 4 in
  size + blen (chunk_offset b) * 4.

Definition primitive_mux W `{IoWrite W} (b : t) : M W ErrorKind unit :=
  FullBoxHeader.mux (header b) ;;;
  write_u32 (wrap 32 (blen (chunk_offset b))) ;;;
  for_each (chunk_offset b) write_u32 ;;;
  ret tt.

Definition validate (b : t) : res ErrorKind unit :=
  if negb (FullBoxHeader.flags (header b) =? 0) then Err InvalidData
  else if negb (FullBoxHeader.version (header b) =? 0) then Err InvalidData
  else Ok tt.

#[global] Instance box : BoxType t := mkBoxType t NAME primitive_size primitive_mux validate.
#[global] Instance box_demux : BoxDemux t := mkBoxDemux t demux.
End box.

Definition wf (b : t) : Prop :=
  FullBoxHeader.wf NAME (header b) /\ fits 32 (blen (chunk_offset b)) /\ Forall (fits 32) (chunk_offset b).

#[export] Hint Unfold wf validate demux primitive_size primitive_mux : mp4box.

Section laws.
Context `{BO : ByteOrder}.

Lemma co64_codec b : wf b -> True -> validate b = Ok tt -> primitive_size b < 2 ^ 50 -> codec b.
Proof. revert b. box_open. codec_tac. Qed.

Lemma co64_outcome data : 8 * blen data < 2 ^ 62 -> outcome False (demux (BoxHeader.new NAME) data) wf.
Proof. box_total. Qed.

#[global] Instance laws : BoxLaws t := mkBoxLaws t _ _ wf (fun _ => True) False eq_refl co64_codec co64_outcome.
End laws.
End Co64.

(** ** stss.rs *)

Module Stss.
Record t := mk {
  header : FullBoxHeader.t;
  entries : list Z;
}.

Definition NAME : list byte := str "stss".

Section box.
Context `{BO : ByteOrder}.

Definition demux (header : BoxHeader.t) (data : list byte) : res ErrorKind t := over data (
  let* header := FullBoxHeader.demux header in
  let* entry_count := read_u32 in
  let* entries := read_times (Z.to_nat entry_count) read_u32 in
  ret (mk header entries)).

Definition primitive_size (b : t) : Z :=
  let size := FullBoxHeader.size (header b) in
  let size := size + 4 in
  size + blen (entries b) * 4.

Definition primitive_mux W `{IoWrite W} (b : t) : M W ErrorKind unit :=
  FullBoxHeader.mux (header b) ;;;
  write_u32 (wrap 32 (blen (entries b))) ;;;
  for_each (entries b) write_u32 ;;;
  ret tt.

Definition validate (b : t) : res ErrorKind unit :=
  if negb (FullBoxHeader.version (header b) =? 0) then Err InvalidData
  else if negb (FullBoxHeader.flags (header b) =? 0) then Err InvalidData
  else Ok tt.

#[global] Instance box : BoxType t := mkBoxType t NAME primitive_size primitive_mux validate.
#[global] Instance box_demux : BoxDemux t := mkBoxDemux t demux.
End box.

Definition wf (b : t) : Prop :=
  FullBoxHeader.wf NAME (header b) /\ fits 32 (blen (entries b)) /\ Forall (fits 32) (entries b).

#[export] Hint Unfold wf validate demux primitive_size primitive_mux : mp4box.

Section laws.
Context `{BO : ByteOrder}.

Lemma stss_codec b : wf b -> True -> validate b = Ok tt -> primitive_size b < 2 ^ 50 -> codec b.
Proof. revert b. box_open. codec_tac. Qed.

Lemma stss_outcome data : 8 * blen data < 2 ^ 62 -> outcome False (demux (BoxHeader.new NAME) data) wf.
Proof. box_total. Qed.

#[global] Instance laws : BoxLaws t := mkBoxLaws t _ _ wf (fun _ => True) False eq_refl stss_codec stss_outcome.
End laws.
End Stss.

(** ** stts.rs *)

Module Stts.
Record SttsEntry := mkEntry {
  sample_count : Z;
  sample_delta : Z;
}.

Record t := mk {
  header : FullBoxHeader.t;
  entries : list SttsEntry;
}.

Definition NAME : list byte := str "stts".

Definition new (entries : list SttsEntry) : t := mk (FullBoxHeader.new NAME 0 0) entries.

Section box.
Context `{BO : ByteOrder}.

Definition read_entry : M Cursor ErrorKind SttsEntry :=
  let* sample_count := read_u32 in
  let* sample_delta := read_u32 in
  ret (mkEntry sample_count sample_delta).

Definition demux (header : BoxHeader.t) (data : list byte) : res ErrorKind t := over data (
  let* header := FullBoxHeader.demux header in
  let* entry_count := read_u32 in
  let* entries := read_times (Z.to_nat entry_count) read_entry in
  ret (mk header entries)).

Definition primitive_size (b : t) : Z :=
  let size := FullBoxHeader.size (header b) in
  let size := size + 4 in
  size + blen (entries b) * 8.

Definition primitive_mux W `{IoWrite W} (b : t) : M W ErrorKind unit :=
  FullBoxHeader.mux (header b) ;;;
  write_u32 (wrap 32 (blen (entries b))) ;;;
  for_each (entries b) (fun entry =>
    write_u32 (sample_count entry) ;;;
    write_u32 (sample_delta entry)) ;;;
  ret tt.

Definition validate (b : t) : res ErrorKind unit :=
  if negb (FullBoxHeader.version (header b) =? 0) then Err InvalidData
  else if negb (FullBoxHeader.flags (header b) =? 0) then Err InvalidData
  else Ok tt.

#[global] Instance box : BoxType t := mkBoxType t NAME primitive_size primitive_mux validate.
#[global] Instance box_demux : BoxDemux t := mkBoxDemux t demux.
End box.

Definition entry_wf (e : SttsEntry) : Prop := fits 32 (sample_count e) /\ fits 32 (sample_delta e).

Definition wf (b : t) : Prop :=
  FullBoxHeader.wf NAME (header b) /\ fits 32 (blen (entries b)) /\ Forall entry_wf (entries b).

#[export] Hint Unfold wf validate demux primitive_size primitive_mux : mp4box.
#[export] Hint Unfold entry_wf read_entry : mp4entry.

Section laws.
Context `{BO : ByteOrder}.

Lemma stts_entry_spec : spec False read_entry entry_wf.
Proof. unfold read_entry. entry_tac. Qed.
#[local] Hint Resolve stts_entry_spec : mp4.

Lemma stts_codec b : wf b -> True -> validate b = Ok tt -> primitive_size b < 2 ^ 50 -> codec b.
Proof. revert b. box_open. codec_tac. Qed.

Lemma stts_outcome data : 8 * blen data < 2 ^ 62 -> outcome False (demux (BoxHeader.new NAME) data) wf.
Proof. box_total. Qed.

#[global] Instance laws : BoxLaws t := mkBoxLaws t _ _ wf (fun _ => True) False eq_refl stts_codec stts_outcome.
End laws.
End Stts.

(** ** stsc.rs *)

Module Stsc.
Record StscEntry := mkEntry {
  first_chunk : Z;
  samples_per_chunk : Z;
  sample_description_index : Z;
}.

Record t := mk {
  header : FullBoxHeader.t;
  entries : list StscEntry;
}.

Definition NAME : list byte := str "stsc".

Definition new (entries : list StscEntry) : t := mk (FullBoxHeader.new NAME 0 0) entries.

Section box.
Context `{BO : ByteOrder}.

Definition read_entry : M Cursor ErrorKind StscEntry :=
  let* first_chunk := read_u32 in
  let* samples_per_chunk := read_u32 in
  let* sample_description_index := read_u32 in
  ret (mkEntry first_chunk samples_per_chunk sample_description_index).

Definition demux (header : BoxHeader.t) (data : list byte) : res ErrorKind t := over data (
  let* header := FullBoxHeader.demux header in
  let* entry_count := read_u32 in
  let* entries := read_times (Z.to_nat entry_count) read_entry in
  ret (mk header entries)).

Definition primitive_size (b : t) : Z :=
  let size := FullBoxHeader.size (header b) in
  let size := size + 4 in
  size + blen (entries b) * 12.

Definition primitive_mux W `{IoWrite W} (b : t) : M W ErrorKind unit :=
  FullBoxHeader.mux (header b) ;;;
  write_u32 (wrap 32 (blen (entries b))) ;;;
  for_each (entries b) (fun entry =>
    write_u32 (first_chunk entry) ;;;
    write_u32 (samples_per_chunk entry) ;;;
    write_u32 (sample_description_index entry)) ;;;
  ret tt.

Definition validate (b : t) : res ErrorKind unit :=
  if negb (FullBoxHeader.version (header b) =? 0) then Err InvalidData
  else if negb (FullBoxHeader.flags (header b) =? 0) then Err InvalidData
  else Ok tt.

#[global] Instance box : BoxType t := mkBoxType t NAME primitive_size primitive_mux validate.
#[global] Instance box_demux : BoxDemux t := mkBoxDemux t demux.
End box.

Definition entry_wf (e : StscEntry) : Prop := fits 32 (first_chunk e) /\ fits 32 (samples_per_chunk e) /\ fits 32 (sample_description_index e).

Definition wf (b : t) : Prop :=
  FullBoxHeader.wf NAME (header b) /\ fits 32 (blen (entries b)) /\ Forall entry_wf (entries b).

#[export] Hint Unfold wf validate demux primitive_size primitive_mux : mp4box.
#[export] Hint Unfold entry_wf read_entry : mp4entry.

Section laws.
Context `{BO : ByteOrder}.

Lemma stsc_entry_spec : spec False read_entry entry_wf.
Proof. unfold read_entry. entry_tac. Qed.
#[local] Hint Resolve stsc_entry_spec : mp4.

Lemma stsc_codec b : wf b -> True -> validate b = Ok tt -> primitive_size b < 2 ^ 50 -> codec b.
Proof. revert b. box_open. codec_tac. Qed.

Lemma stsc_outcome data : 8 * blen data < 2 ^ 62 -> outcome False (demux (BoxHeader.new NAME) data) wf.
Proof. box_total. Qed.

#[global] Instance laws : BoxLaws t := mkBoxLaws t _ _ wf (fun _ => True) False eq_refl stsc_codec stsc_outcome.
End laws.
End Stsc.

(** ** stsh.rs *)

Module Stsh.
Record StshEntry := mkEntry {
  shadowed_sample_count : Z;
  sync_sample_number : Z;
}.

Record t := mk {
  header : FullBoxHeader.t;
  entries : list StshEntry;
}.

Definition NAME : list byte := str "stsh".

Section box.
Context `{BO : ByteOrder}.

Definition read_entry : M Cursor ErrorKind StshEntry :=
  let* shadowed_sample_count := read_u32 in
  let* sync_sample_number := read_u32 in
  ret (mkEntry shadowed_sample_count sync_sample_number).

Definition demux (header : BoxHeader.t) (data : list byte) : res ErrorKind t := over data (
  let* header := FullBoxHeader.demux header in
  let* entry_count := read_u32 in
  let* entries := read_times (Z.to_nat entry_count) read_entry in
  ret (mk header entries)).

Definition primitive_size (b : t) : Z :=
  let size := FullBoxHeader.size (header b) in
  let size := size + 4 in
  size + blen (entries b) * 8.

Definition primitive_mux W `{IoWrite W} (b : t) : M W ErrorKind unit :=
  FullBoxHeader.mux (header b) ;;;
  write_u32 (wrap 32 (blen (entries b))) ;;;
  for_each (entries b) (fun entry =>
    write_u32 (shadowed_sample_count entry) ;;;
    write_u32 (sync_sample_number entry)) ;;;
  ret tt.

Definition validate (b : t) : res ErrorKind unit :=
  if negb (FullBoxHeader.version (header b) =? 0) then Err InvalidData
  else if negb (FullBoxHeader.flags (header b) =? 0) then Err InvalidData
  else Ok tt.

#[global] Instance box : BoxType t := mkBoxType t NAME primitive_size primitive_mux validate.
#[global] Instance box_demux : BoxDemux t := mkBoxDemux t demux.
End box.

Definition entry_wf (e : StshEntry) : Prop := fits 32 (shadowed_sample_count e) /\ fits 32 (sync_sample_number e).

Definition wf (b : t) : Prop :=
  FullBoxHeader.wf NAME (header b) /\ fits 32 (blen (entries b)) /\ Forall entry_wf (entries b).

#[export] Hint Unfold wf validate demux primitive_size primitive_mux : mp4box.
#[export] Hint Unfold entry_wf read_entry : mp4entry.

Section laws.
Context `{BO : ByteOrder}.

Lemma stsh_entry_spec : spec False read_entry entry_wf.
Proof. unfold read_entry. entry_tac. Qed.
#[local] Hint Resolve stsh_entry_spec : mp4.

Lemma stsh_codec b : wf b -> True -> validate b = Ok tt -> primitive_size b < 2 ^ 50 -> codec b.
Proof. revert b. box_open. codec_tac. Qed.

Lemma stsh_outcome data : 8 * blen data < 2 ^ 62 -> outcome False (demux (BoxHeader.new NAME) data) wf.
Proof. box_total. Qed.

#[global] Instance laws : BoxLaws t := mkBoxLaws t _ _ wf (fun _ => True) False eq_refl stsh_codec stsh_outcome.
End laws.
End Stsh.

(** ** ctts.rs *)

Module Ctts.
Record CttsEntry := mkEntry {
  sample_count : Z;
  sample_offset : Z;
}.

Record t := mk {
  header : FullBoxHeader.t;
  entries : list CttsEntry;
}.

Definition NAME : list byte := str "ctts".

Section box.
Context `{BO : ByteOrder}.

Definition read_entry (version : Z) : M Cursor ErrorKind CttsEntry :=
  let* sample_count := read_u32 in
  let* sample_offset := if version =? 1 then read_i32 else read_u32 in
  ret (mkEntry sample_count sample_offset).

Definition demux (header : BoxHeader.t) (data : list byte) : res ErrorKind t := over data (
  let* header := FullBoxHeader.demux header in
  let* entry_count := read_u32 in
  let* entries := read_times (Z.to_nat entry_count) (read_entry (FullBoxHeader.version header)) in
  ret (mk header entries)).

Definition primitive_size (b : t) : Z :=
  FullBoxHeader.size (header b) + 4 + blen (entries b) * 8.

Definition primitive_mux W `{IoWrite W} (b : t) : M W ErrorKind unit :=
  FullBoxHeader.mux (header b) ;;;
  write_u32 (wrap 32 (blen (entries b))) ;;;
  for_each (entries b) (fun entry =>
    write_u32 (sample_count entry) ;;;
    if FullBoxHeader.version (header b) =? 1
    then write_i32 (swrap 32 (sample_offset entry))
    else write_u32 (wrap 32 (sample_offset entry))) ;;;
  ret tt.

Definition validate (b : t) : res ErrorKind unit :=
  if negb (FullBoxHeader.flags (header b) =? 0) then Err InvalidData
  else if 1 <? FullBoxHeader.version (header b) then Err InvalidData
  else Ok tt.

#[global] Instance box : BoxType t := mkBoxType t NAME primitive_size primitive_mux validate.
#[global] Instance box_demux : BoxDemux t := mkBoxDemux t demux.
End box.

Definition entry_wf (version : Z) (e : CttsEntry) : Prop :=
  (if version =? 1 then - 2 ^ 31 <= sample_offset e < 2 ^ 31 else fits 32 (sample_offset e)) /\
  fits 32 (sample_count e).

Definition wf (b : t) : Prop :=
  FullBoxHeader.wf NAME (header b) /\ fits 32 (blen (entries b)) /\
  Forall (entry_wf (FullBoxHeader.version (header b))) (entries b).

#[export] Hint Unfold wf validate demux primitive_size primitive_mux : mp4box.
#[export] Hint Unfold entry_wf read_entry : mp4entry.

Section laws.
Context `{BO : ByteOrder}.

Lemma ctts_entry_spec version : spec False (read_entry version) (entry_wf version).
Proof.
  unfold read_entry. destruct (version =? 1) eqn:E; repeat sstep; unfold entry_wf; rewrite E; simpl;
    repeat split; num_tac.
Qed.
#[local] Hint Resolve ctts_entry_spec : mp4.

Lemma ctts_codec b : wf b -> True -> validate b = Ok tt -> primitive_size b < 2 ^ 50 -> codec b.
Proof. revert b. box_open. destruct (_ =? 1) eqn:Hv; codec_tac. Qed.

Lemma ctts_outcome data : 8 * blen data < 2 ^ 62 -> outcome False (demux (BoxHeader.new NAME) data) wf.
Proof. box_total. Qed.

#[global] Instance laws : BoxLaws t := mkBoxLaws t _ _ wf (fun _ => True) False eq_refl ctts_codec ctts_outcome.
End laws.
End Ctts.

(** ** stsz.rs *)

Module Stsz.
Record t := mk {
  header : FullBoxHeader.t;
  sample_size : Z;
  samples : list Z;
}.

Definition NAME : list byte := str "stsz".

Definition new (sample_size : Z) (samples : list Z) : t := mk (FullBoxHeader.new NAME 0 0) sample_size samples.

Section box.
Context `{BO : ByteOrder}.

Definition demux (header : BoxHeader.t) (data : list byte) : res ErrorKind t := over data (
  let* header := FullBoxHeader.demux header in
  let* sample_size := read_u32 in
  let* sample_count := read_u32 in
  let* samples := if sample_size =? 0 then read_times (Z.to_nat sample_count) read_u32 else ret [] in
  ret (mk header sample_size samples)).

Definition primitive_size (b : t) : Z :=
  let size := FullBoxHeader.size (header b) in
  let size := size + 8 in
  if sample_size b =? 0 then size + blen (samples b) * 4 else size.

Definition primitive_mux W `{IoWrite W} (b : t) : M W ErrorKind unit :=
  FullBoxHeader.mux (header b) ;;;
  write_u32 (sample_size b) ;;;
  write_u32 (wrap 32 (blen (samples b))) ;;;
  (if sample_size b =? 0 then for_each (samples b) write_u32 else ret tt) ;;;
  ret tt.

Definition validate (b : t) : res ErrorKind unit :=
  if negb (sample_size b =? 0) && negb (bool_decide (samples b = [])) then Err InvalidData
  else if negb (FullBoxHeader.version (header b) =? 0) then Err InvalidData
  else if negb (FullBoxHeader.flags (header b) =? 0) then Err InvalidData
  else Ok tt.

#[global] Instance box : BoxType t := mkBoxType t NAME primitive_size primitive_mux validate.
#[global] Instance box_demux : BoxDemux t := mkBoxDemux t demux.
End box.

Definition wf (b : t) : Prop :=
  FullBoxHeader.wf NAME (header b) /\ fits 32 (sample_size b) /\ fits 32 (blen (samples b)) /\
  Forall (fits 32) (samples b) /\ (sample_size b <> 0 -> samples b = []).

#[export] Hint Unfold wf validate demux primitive_size primitive_mux : mp4box.

Section laws.
Context `{BO : ByteOrder}.

Lemma stsz_codec b : wf b -> True -> validate b = Ok tt -> primitive_size b < 2 ^ 50 -> codec b.
Proof. revert b. box_open. destruct (_ =? 0) eqn:Hz.
  - codec_tac.
  - assert (samples0 = []) as -> by (match goal with H : _ -> samples0 = [] |- _ => apply H; lia end). codec_tac.
 Qed.

Lemma stsz_outcome data : 8 * blen data < 2 ^ 62 -> outcome False (demux (BoxHeader.new NAME) data) wf.
Proof. box_total. Qed.

#[global] Instance laws : BoxLaws t := mkBoxLaws t _ _ wf (fun _ => True) False eq_refl stsz_codec stsz_outcome.
End laws.
End Stsz.

(** ** sbgp.rs *)

Module Sbgp.
Record SbgpEntry := mkEntry {
  sample_count : Z;
  group_description_index : Z;
}.

Record t := mk {
  header : FullBoxHeader.t;
  grouping_type : option Z;
  entries : list SbgpEntry;
}.

Definition NAME : list byte := str "sbgp".

Section box.
Context `{BO : ByteOrder}.

Definition read_entry : M Cursor ErrorKind SbgpEntry :=
  let* sample_count := read_u32 in
  let* group_description_index := read_u32 in
  ret (mkEntry sample_count group_description_index).

Definition demux (header : BoxHeader.t) (data : list byte) : res ErrorKind t := over data (
  let* header := FullBoxHeader.demux header in
  let* grouping_type := read_if (FullBoxHeader.version header =? 1) read_u32 in
  let* entry_count := read_u32 in
  let* entries := read_times (Z.to_nat entry_count) read_entry in
  ret (mk header grouping_type entries)).

(** Four bytes for the grouping type, whether it is there or not. *)
Definition primitive_size (b : t) : Z :=
  FullBoxHeader.size (header b) + 4 + 4 + blen (entries b) * 8.

Definition primitive_mux W `{IoWrite W} (b : t) : M W ErrorKind unit :=
  FullBoxHeader.mux (header b) ;;;
  if_some (grouping_type b) write_u32 ;;;
  write_u32 (wrap 32 (blen (entries b))) ;;;
  for_each (entries b) (fun entry =>
    write_u32 (sample_count entry) ;;;
    write_u32 (group_description_index entry)) ;;;
  ret tt.

Definition validate (b : t) : res ErrorKind unit :=
  if 1 <? FullBoxHeader.version (header b) then Err InvalidData
  else if negb (FullBoxHeader.flags (header b) =? 0) then Err InvalidData
  else if (FullBoxHeader.version (header b) =? 1) && negb (is_some (grouping_type b)) then Err InvalidData
  else if (FullBoxHeader.version (header b) =? 0) && is_some (grouping_type b) then Err InvalidData
  else Ok tt.

#[global] Instance box : BoxType t := mkBoxType t NAME primitive_size primitive_mux validate.
#[global] Instance box_demux : BoxDemux t := mkBoxDemux t demux.
End box.

Definition entry_wf (e : SbgpEntry) : Prop := fits 32 (sample_count e) /\ fits 32 (group_description_index e).

Definition wf (b : t) : Prop :=
  FullBoxHeader.wf NAME (header b) /\ present (FullBoxHeader.version (header b) =? 1) (fits 32) (grouping_type b) /\
  fits 32 (blen (entries b)) /\ Forall entry_wf (entries b).

(** The size is right only for a box with a grouping type. *)
Definition fair (b : t) : Prop := is_some (grouping_type b) = true.

#[export] Hint Unfold wf validate demux primitive_size primitive_mux fair : mp4box.
#[export] Hint Unfold entry_wf read_entry : mp4entry.

Section laws.
Context `{BO : ByteOrder}.

Lemma sbgp_entry_spec : spec False read_entry entry_wf.
Proof. unfold read_entry. entry_tac. Qed.
#[local] Hint Resolve sbgp_entry_spec : mp4.

Lemma sbgp_codec b : wf b -> fair b -> validate b = Ok tt -> primitive_size b < 2 ^ 50 -> codec b.
Proof. revert b. box_open. codec_tac. Qed.

Lemma sbgp_outcome data : 8 * blen data < 2 ^ 62 -> outcome False (demux (BoxHeader.new NAME) data) wf.
Proof. box_total. Qed.

#[global] Instance laws : BoxLaws t := mkBoxLaws t _ _ wf fair False eq_refl sbgp_codec sbgp_outcome.
End laws.
End Sbgp.

(** ** stdp.rs *)

Module Stdp.
Record t := mk {
  header : FullBoxHeader.t;
  samples : list Z;
}.

Definition NAME : list byte := str "stdp".

Section box.
Context `{BO : ByteOrder}.

(** [while reader.remaining() > 1]: two bytes a turn. *)
Fixpoint read_samples (fuel : nat) (samples : list Z) : M Cursor ErrorKind (list Z) :=
  match fuel with
  | O => out_of_fuel
  | S fuel =>
      let* c := get in
      if 1 <? BytesCursorExt.remaining c
      then let* sample := read_u16 in read_samples fuel (samples ++ [sample])
      else ret samples
  end.

Definition demux (header : BoxHeader.t) (data : list byte) : res ErrorKind t := over data (
  let* header := FullBoxHeader.demux header in
  let* c := get in
  let* samples := read_samples (S (length (cursor_rest c))) [] in
  ret (mk header samples)).

Definition primitive_size (b : t) : Z :=
  let size := FullBoxHeader.size (header b) in
  size + blen (samples b) * 2.

Definition primitive_mux W `{IoWrite W} (b : t) : M W ErrorKind unit :=
  FullBoxHeader.mux (header b) ;;;
  for_each (samples b) write_u16 ;;;
  ret tt.

Definition validate (b : t) : res ErrorKind unit :=
  if negb (FullBoxHeader.version (header b) =? 0) then Err InvalidData
  else if negb (FullBoxHeader.flags (header b) =? 0) then Err InvalidData
  else Ok tt.

#[global] Instance box : BoxType t := mkBoxType t NAME primitive_size primitive_mux validate.
#[global] Instance box_demux : BoxDemux t := mkBoxDemux t demux.
End box.

Definition wf (b : t) : Prop := FullBoxHeader.wf NAME (header b) /\ Forall (fits 16) (samples b).

#[export] Hint Unfold wf validate demux primitive_size primitive_mux : mp4box.

Section laws.
Context `{BO : ByteOrder}.

Lemma stdp_loop_at xs : Forall (fits 16) xs -> forall fuel acc pre, (length xs < fuel)%nat ->
  read_samples fuel acc (at_pos pre (xs ≫= be_bytes 2)) =
    (Ok (acc ++ xs), at_pos (pre ++ (xs ≫= be_bytes 2)) []).
Proof.
  induction 1 as [|x xs Hx _ IH]; intros [|fuel] acc pre Hf; simpl in Hf; try lia; cbn [read_samples];
    (erewrite bind_ok; [|done]); rewrite BytesCursorExt.remaining_rest, cursor_rest_at.
  - simpl. by rewrite !app_nil_r.
  - change ((x :: xs) ≫= be_bytes 2) with (be_bytes 2 x ++ (xs ≫= be_bytes 2)).
    rewrite blen_app, blen_be_bytes. pose proof (blen_nonneg (xs ≫= be_bytes 2)).
    rewrite (proj2 (Z.ltb_lt _ _)) by lia. erewrite bind_ok; [|by apply read_uint_be_bytes].
    rewrite IH by lia. by rewrite <-!(assoc_L (++)).
Qed.

Lemma stdp_loop_spec fuel : forall acc c, Forall (fits 16) acc -> Flv.buffered c ->
  (length (cursor_rest c) < fuel)%nat ->
  match read_samples fuel acc c with
  | (Ok xs, c') => Flv.buffered c' /\ Forall (fits 16) xs
  | (Err e, _) => BitIo.parse_error e
  | (Panic, _) => False
  | (Fuel, _) => False
  end.
Proof.
  induction fuel as [|fuel IH]; intros acc c Ha Hc Hf; [lia|]. cbn [read_samples].
  erewrite bind_ok; [|done]. destruct (1 <? _); [|done].
  pose proof (spec_uint (pan := False) 2 c Hc) as Hs. pose proof (advances_uint 2 c Hc) as Hadv.
  unfold bind. destruct (read_u16 c) as [[z|e| |] c']; try done. destruct Hs as [Hc' Hz], Hadv as [_ Hl].
  apply IH; [|done|lia]. apply Forall_app. split; [done|]. constructor; [num_tac|constructor].
Qed.

#[global] Arguments read_samples : simpl never.

Lemma stdp_codec b : wf b -> True -> validate b = Ok tt -> primitive_size b < 2 ^ 50 -> codec b.
Proof.
  revert b. box_open.
  eexists; split; [intros W HW HL; repeat pstep | split; [size_tac|]].
  apply (over_takes (fun post => post = [])); [|done]. do 6 tstep.
  intros pre post ->. rewrite !app_nil_r. erewrite bind_ok; [|done]. rewrite cursor_rest_at.
  erewrite bind_ok; [done|]. apply (stdp_loop_at samples0); [done|].
  pose proof (length_bind_ge (fun x => be_bytes 2 x) samples0 ltac:(done)). lia.
Qed.

Lemma stdp_outcome data : 8 * blen data < 2 ^ 62 -> outcome False (demux (BoxHeader.new NAME) data) wf.
Proof.
  intros Hl. apply spec_over; [done|]. do 6 sstep. intros c Hc. erewrite bind_ok; [|done].
  pose proof (stdp_loop_spec (S (length (cursor_rest c))) [] c ltac:(done) Hc ltac:(lia)) as Hs.
  unfold bind. destruct (read_samples _ _ _) as [[xs|e| |] c']; try done. destruct Hs as [Hc' Hx].
  split; [done|]. repeat split; simpl; try done; num_tac.
Qed.

#[global] Instance laws : BoxLaws t := mkBoxLaws t _ _ wf (fun _ => True) False eq_refl stdp_codec stdp_outcome.
End laws.
End Stdp.

(** ** sdtp.rs *)

Module Sdtp.
Record SdtpEntry := mkEntry {
  sample_is_leading : Z;
  sample_depends_on : Z;
  sample_is_depended_on : Z;
  sample_has_redundancy : Z;
}.

Record t := mk {
  header : FullBoxHeader.t;
  entries : list SdtpEntry;
}.

Definition NAME : list byte := str "sdtp".

Definition entry_of (byte : Z) : SdtpEntry :=
  mkEntry (Z.shiftr (Z.land byte 192) 6) (Z.shiftr (Z.land byte 48) 4)
    (Z.shiftr (Z.land byte 12) 2) (Z.land byte 3).

(** Shifts of a [u8] drop the bits above. *)
Definition byte_of (e : SdtpEntry) : Z :=
  Z.lor (Z.lor (Z.lor (wrap 8 (Z.shiftl (sample_is_leading e) 6)) (wrap 8 (Z.shiftl (sample_depends_on e) 4)))
    (wrap 8 (Z.shiftl (sample_is_depended_on e) 2))) (sample_has_redundancy e).

Section box.
Context `{BO : ByteOrder}.

(** [Buf::get_u8], with a byte left. *)
Definition demux (header : BoxHeader.t) (data : list byte) : res ErrorKind t := over data (
  let* header := FullBoxHeader.demux header in
  let* entries := loop_remaining (fun entries =>
    let* byte := read_u8 in ret (entries ++ [entry_of byte])) [] in
  ret (mk header entries)).

Definition primitive_size (b : t) : Z :=
  let size := FullBoxHeader.size (header b) in
  size + blen (entries b).

Definition primitive_mux W `{IoWrite W} (b : t) : M W ErrorKind unit :=
  FullBoxHeader.mux (header b) ;;;
  for_each (entries b) (fun entry => write_u8 (byte_of entry)) ;;;
  ret tt.

Definition validate (b : t) : res ErrorKind unit :=
  if negb (FullBoxHeader.version (header b) =? 0) then Err InvalidData
  else if negb (FullBoxHeader.flags (header b) =? 0) then Err InvalidData
  else Ok tt.

#[global] Instance box : BoxType t := mkBoxType t NAME primitive_size primitive_mux validate.
#[global] Instance box_demux : BoxDemux t := mkBoxDemux t demux.
End box.

Definition entry_wf (e : SdtpEntry) : Prop :=
  fits 2 (sample_is_leading e) /\ fits 2 (sample_depends_on e) /\
  fits 2 (sample_is_depended_on e) /\ fits 2 (sample_has_redundancy e).

Definition wf (b : t) : Prop := FullBoxHeader.wf NAME (header b) /\ Forall entry_wf (entries b).

#[export] Hint Unfold wf validate demux primitive_size primitive_mux : mp4box.

(** The byte and its four fields, by evaluation of all of them. *)
Lemma sdtp_byte e : entry_wf e -> fits 8 (byte_of e) /\ entry_of (byte_of e) = e.
Proof.
  destruct e as [l d i r]. unfold entry_wf, fits; simpl. intros (Hl & Hd & Hi & Hr).
  assert (exists n, l = Z.of_nat n /\ (n < 4)%nat) as (l' & -> & ?) by (exists (Z.to_nat l); lia).
  assert (exists n, d = Z.of_nat n /\ (n < 4)%nat) as (d' & -> & ?) by (exists (Z.to_nat d); lia).
  assert (exists n, i = Z.of_nat n /\ (n < 4)%nat) as (i' & -> & ?) by (exists (Z.to_nat i); lia).
  assert (exists n, r = Z.of_nat n /\ (n < 4)%nat) as (r' & -> & ?) by (exists (Z.to_nat r); lia).
  destruct l' as [|[|[|[|]]]], d' as [|[|[|[|]]]], i' as [|[|[|[|]]]], r' as [|[|[|[|]]]]; try lia;
    vm_compute; repeat split; congruence.
Qed.

Lemma sdtp_entry_wf b : 0 <= b < 256 -> entry_wf (entry_of b).
Proof.
  intros Hb. unfold entry_wf, fits.
  pose proof (Flv.all_bytes (fun b => let e := entry_of b in
    (0 <=? sample_is_leading e) && (sample_is_leading e <? 4) && (0 <=? sample_depends_on e) &&
    (sample_depends_on e <? 4) && (0 <=? sample_is_depended_on e) && (sample_is_depended_on e <? 4) &&
    (0 <=? sample_has_redundancy e) && (sample_has_redundancy e <? 4)) eq_refl b Hb) as H.
  cbv beta zeta in H. lia.
Qed.

Section laws.
Context `{BO : ByteOrder}.

Lemma sdtp_codec b : wf b -> True -> validate b = Ok tt -> primitive_size b < 2 ^ 50 -> codec b.
Proof.
  revert b. box_open.
  assert (forall e, e ∈ entries0 -> fits 8 (byte_of e) /\ entry_of (byte_of e) = e) as He
    by (intros e Hx; apply sdtp_byte; by eapply Forall_elem).
  exists (be_bytes 1 version ++ be_bytes 3 flags ++ (entries0 ≫= fun e => be_bytes 1 (byte_of e)) ++ []).
  split; [|split; [size_tac|]].
  - intros W HW HL. repeat pstep. apply puts_uint. by apply He.
  - apply (over_takes (fun post => post = [])); [|done]. do 6 tstep. rewrite app_nil_r.
    eapply TotalParse.takes_last.
    + apply takes_loop with (f := fun acc e => acc ++ [e]). intros e Hx. destruct (He e Hx) as [Hf Hb].
      split; [done|]. intros s. eapply TotalParse.takes_last; [by apply TotalParse.takes_uint|].
      apply takes_ret_eq. by rewrite Hb.
    + apply takes_ret_eq. by rewrite fold_snoc.
Qed.

Lemma sdtp_outcome data : 8 * blen data < 2 ^ 62 -> outcome False (demux (BoxHeader.new NAME) data) wf.
Proof.
  intros Hl. apply spec_over; [done|]. do 6 sstep.
  eapply (spec_bind _ _ (Forall entry_wf)).
  - apply spec_loop; [done| |].
    + intros s Hs. sstep. apply spec_ret. apply Forall_app. split; [done|].
      constructor; [by apply sdtp_entry_wf|done].
    + intros s. apply (advancing_bind 1 0); [apply advances_uint|intros; apply advancing_ret].
  - intros xs Hx. apply spec_ret. repeat split; simpl; try done; num_tac.
Qed.

#[global] Instance laws : BoxLaws t := mkBoxLaws t _ _ wf (fun _ => True) False eq_refl sdtp_codec sdtp_outcome.
End laws.
End Sdtp.

(** ** padb.rs *)

Module Padb.
Record t := mk {
  header : FullBoxHeader.t;
  samples : list Z;
}.

Definition NAME : list byte := str "padb".

Section box.
Context `{BO : ByteOrder}.

(** [div_ceil(2)] of the number of samples, two to a byte. *)
Definition demux (header : BoxHeader.t) (data : list byte) : res ErrorKind t := over data (
  let* header := FullBoxHeader.demux header in
  let* count := read_u32 in
  let sample_count := (count + 1) / 2 in
  let* samples := read_times (Z.to_nat sample_count) read_u8 in
  ret (mk header samples)).

Definition primitive_size (b : t) : Z :=
  let size := FullBoxHeader.size (header b) in
  let size := size + 4 in
  size + blen (samples b).

(** [(self.samples.len() as u32) * 2 - 1], checked. *)
Definition primitive_mux W `{IoWrite W} (b : t) : M W ErrorKind unit :=
  FullBoxHeader.mux (header b) ;;;
  (let* n := checked_u 32 (wrap 32 (blen (samples b)) * 2) in
   let* n := checked_u 32 (n - 1) in
   write_u32 n) ;;;
  for_each (samples b) write_u8 ;;;
  ret tt.

Definition validate (b : t) : res ErrorKind unit :=
  if negb (FullBoxHeader.version (header b) =? 0) then Err InvalidData
  else if negb (FullBoxHeader.flags (header b) =? 0) then Err InvalidData
  else Ok tt.

#[global] Instance box : BoxType t := mkBoxType t NAME primitive_size primitive_mux validate.
#[global] Instance box_demux : BoxDemux t := mkBoxDemux t demux.
End box.

Definition wf (b : t) : Prop :=
  FullBoxHeader.wf NAME (header b) /\ blen (samples b) <= 2 ^ 31 /\ Forall (fits 8) (samples b).

(** [mux] panics on an empty table and on one of [2 ^ 31] bytes. *)
Definition fair (b : t) : Prop := 0 < blen (samples b) < 2 ^ 31.

#[export] Hint Unfold wf fair validate demux primitive_size primitive_mux : mp4box.

Section laws.
Context `{BO : ByteOrder}.

Lemma padb_count n : 0 < n -> (n * 2 - 1 + 1) / 2 = n.
Proof. intros. replace (n * 2 - 1 + 1) with (n * 2) by lia. by rewrite Z.div_mul. Qed.

Lemma padb_codec b : wf b -> fair b -> validate b = Ok tt -> primitive_size b < 2 ^ 50 -> codec b.
Proof.
  revert b. box_open. rewrite wrap_fits_id by num_tac.
  eexists; split; [intros W HW HL; repeat pstep | split; [size_tac|]].
  apply (over_takes (fun post => post = [])); [|done]. do 7 tstep. rewrite padb_count by lia.
  repeat tstep. done.
Qed.

Lemma padb_outcome data : 8 * blen data < 2 ^ 62 -> outcome False (demux (BoxHeader.new NAME) data) wf.
Proof. box_total. Qed.

#[global] Instance laws : BoxLaws t := mkBoxLaws t _ _ wf fair False eq_refl padb_codec padb_outcome.
End laws.
End Padb.

(** ** stz2.rs *)

Module Stz2.
Record t := mk {
  header : FullBoxHeader.t;
  reserved : Z;
  field_size : Z;
  samples : list Z;
}.

Definition NAME : list byte := str "stz2".

Section box.
Context `{BO : ByteOrder}.

(** The [while sample_idx < sample_count] loop, two samples to a byte when the
    field size is 4. *)
Fixpoint read_samples (field_size : Z) (sample_count : nat) : M Cursor ErrorKind (list Z) :=
  match sample_count with
  | O => ret []
  | S n =>
      if field_size =? 4
      then
        let* byte := read_u8 in
        match n with
        | O => ret [Z.shiftr byte 4]
        | S n =>
            let* rest := read_samples field_size n in
            ret (Z.shiftr byte 4 :: Z.land byte 15 :: rest)
        end
      else if field_size =? 8
      then let* sample := read_u8 in let* rest := read_samples field_size n in ret (sample :: rest)
      else if field_size =? 16
      then let* sample := read_u16 in let* rest := read_samples field_size n in ret (sample :: rest)
      else throw InvalidData
  end.

Definition demux (header : BoxHeader.t) (data : list byte) : res ErrorKind t := over data (
  let* header := FullBoxHeader.demux header in
  let* reserved := read_u24 in
  let* field_size := read_u8 in
  let* sample_count := read_u32 in
  let* samples := read_samples field_size (Z.to_nat sample_count) in
  ret (mk header reserved field_size samples)).

(** The field size is in bits, the product is taken for bytes. *)
Definition primitive_size (b : t) : Z :=
  let size := FullBoxHeader.size (header b) in
  let size := size + 8 in
  size + blen (samples b) * field_size b.

(** The [while sample_idx < self.samples.len()] loop. *)
Fixpoint write_samples {W} `{IoWrite W} (field_size : Z) (samples : list Z) : M W ErrorKind unit :=
  match samples with
  | [] => ret tt
  | sample :: samples =>
      if field_size =? 4
      then
        let byte := wrap 8 (wrap 16 (Z.shiftl sample 4)) in
        match samples with
        | [] => write_u8 byte
        | sample :: samples =>
            write_u8 (Z.lor byte (wrap 8 (Z.land sample 15))) ;;; write_samples field_size samples
        end
      else if field_size =? 8 then write_u8 (wrap 8 sample) ;;; write_samples field_size samples
      else if field_size =? 16 then write_u16 sample ;;; write_samples field_size samples
      else throw InvalidData
  end.

Definition primitive_mux W `{IoWrite W} (b : t) : M W ErrorKind unit :=
  FullBoxHeader.mux (header b) ;;;
  write_u24 (reserved b) ;;;
  write_u8 (field_size b) ;;;
  write_u32 (wrap 32 (blen (samples b))) ;;;
  write_samples (field_size b) (samples b) ;;;
  ret tt.

Definition validate (b : t) : res ErrorKind unit :=
  if negb (FullBoxHeader.version (header b) =? 0) then Err InvalidData
  else if negb (reserved b =? 0) then Err InvalidData
  else if negb (field_size b =? 4) && negb (field_size b =? 8) && negb (field_size b =? 16) then Err InvalidData
  else if (field_size b =? 4) && existsb (fun sample => 15 <? sample) (samples b) then Err InvalidData
  else if (field_size b =? 8) && existsb (fun sample => 255 <? sample) (samples b) then Err InvalidData
  else Ok tt.

#[global] Instance box : BoxType t := mkBoxType t NAME primitive_size primitive_mux validate.
#[global] Instance box_demux : BoxDemux t := mkBoxDemux t demux.
End box.

(** The samples fit the field size. *)
Definition samples_wf (field_size : Z) (xs : list Z) : Prop :=
  (field_size = 4 /\ Forall (fits 4) xs) \/ (field_size = 8 /\ Forall (fits 8) xs) \/
  (field_size = 16 /\ Forall (fits 16) xs) \/ xs = [].

Definition wf (b : t) : Prop :=
  FullBoxHeader.wf NAME (header b) /\ fits 24 (reserved b) /\ fits 8 (field_size b) /\
  fits 32 (blen (samples b)) /\ samples_wf (field_size b) (samples b).

(** [primitive_size] is right only for an empty table. *)
Definition fair (b : t) : Prop := samples b = [].

#[export] Hint Unfold wf fair validate demux primitive_size primitive_mux : mp4box.

(** The bytes of the samples. *)
Fixpoint pack (field_size : Z) (xs : list Z) : list byte :=
  match xs with
  | [] => []
  | x :: xs =>
      if field_size =? 4
      then match xs with [] => be_bytes 1 (x * 16) | y :: xs => be_bytes 1 (x * 16 + y) ++ pack field_size xs end
      else be_bytes (Z.to_nat (field_size / 8)) x ++ pack field_size xs
  end.

Lemma nibbles x y : fits 4 x -> fits 4 y ->
  wrap 8 (wrap 16 (Z.shiftl x 4)) = x * 16 /\ Z.lor (x * 16) (wrap 8 (Z.land y 15)) = x * 16 + y /\
  Z.shiftr (x * 16 + y) 4 = x /\ Z.land (x * 16 + y) 15 = y.
Proof.
  intros Hx Hy. unfold fits in *.
  pose proof (Flv.all_bytes (fun b => let x := b / 16 in let y := b `mod` 16 in
    (wrap 8 (wrap 16 (Z.shiftl x 4)) =? x * 16) && (Z.lor (x * 16) (wrap 8 (Z.land y 15)) =? x * 16 + y) &&
    (Z.shiftr b 4 =? x) && (Z.land b 15 =? y)) eq_refl (x * 16 + y) ltac:(lia)) as H.
  cbv beta zeta in H. replace ((x * 16 + y) / 16) with x in H by (Z.to_euclidean_division_equations; lia).
  replace ((x * 16 + y) `mod` 16) with y in H by (Z.to_euclidean_division_equations; lia). lia.
Qed.

Section laws.
Context `{BO : ByteOrder}.

(** Two steps of the list at a time. *)
Lemma list_ind2 {A} (P : list A -> Prop) : P [] -> (forall x, P [x]) ->
  (forall x y xs, P xs -> P (y :: xs) -> P (x :: y :: xs)) -> forall xs, P xs.
Proof.
  intros H0 H1 H2 xs. enough (P xs /\ forall x, P (x :: xs)) as [? ?] by done.
  induction xs as [|y xs [IH IH']]; auto.
Qed.

Lemma write_nibbles_puts {W} `{IoWriteLaws W} xs : Forall (fits 4) xs -> puts (write_samples 4 xs) (pack 4 xs).
Proof.
  induction xs as [|x|x y xs IH IH'] using list_ind2; intros Hxs; [apply puts_ret| |];
    apply Forall_cons_1 in Hxs as [Hx Hxs]; cbn [write_samples pack Z.eqb Pos.eqb].
  - destruct (nibbles x 0) as (-> & _); [done|num_tac|]. apply puts_uint. num_tac.
  - apply Forall_cons_1 in Hxs as [Hy Hxs]. destruct (nibbles x y) as (-> & -> & _); [done|done|].
    apply puts_bind; [apply puts_uint; num_tac|by apply IH].
Qed.

Lemma read_nibbles_takes P xs : Forall (fits 4) xs ->
  TotalParse.takes_on P (read_samples 4 (length xs)) (pack 4 xs) xs.
Proof.
  induction xs as [|x|x y xs IH IH'] using list_ind2; intros Hxs; [apply TotalParse.takes_ret| |];
    apply Forall_cons_1 in Hxs as [Hx Hxs]; cbn [read_samples pack length Z.eqb Pos.eqb].
  - destruct (nibbles x 0) as (_ & _ & Hs & _); [done|num_tac|].
    eapply TotalParse.takes_last; [apply TotalParse.takes_uint; num_tac|]. apply takes_ret_eq.
    rewrite Z.add_0_r in Hs. by rewrite Hs.
  - apply Forall_cons_1 in Hxs as [Hy Hxs]. destruct (nibbles x y) as (_ & _ & Hs & Hl); [done|done|].
    eapply TotalParse.takes_bind; [apply TotalParse.takes_uint; num_tac|].
    eapply TotalParse.takes_last; [by apply IH|]. apply takes_ret_eq. by rewrite Hs, Hl.
Qed.

Lemma write_samples_puts {W} `{IoWriteLaws W} fs xs : samples_wf fs xs ->
  puts (write_samples fs xs) (pack fs xs).
Proof.
  intros [[-> Hx]|[[-> Hx]|[[-> Hx]| ->]]]; [by apply write_nibbles_puts| | |apply puts_ret];
    (induction Hx as [|x xs Hx _ IH]; [apply puts_ret|]); cbn [write_samples pack Z.eqb Pos.eqb];
    apply puts_bind; try done.
  - rewrite wrap_fits_id by done. by apply puts_uint.
  - by apply puts_uint.
Qed.

Lemma read_samples_takes P fs xs : samples_wf fs xs ->
  TotalParse.takes_on P (read_samples fs (length xs)) (pack fs xs) xs.
Proof.
  intros [[-> Hx]|[[-> Hx]|[[-> Hx]| ->]]]; [by apply read_nibbles_takes| | |apply TotalParse.takes_ret];
    (induction Hx as [|x xs Hx _ IH]; [apply TotalParse.takes_ret|]);
    cbn [read_samples pack length Z.eqb Pos.eqb];
    (eapply TotalParse.takes_bind; [by apply TotalParse.takes_uint|]);
    (eapply TotalParse.takes_last; [apply IH|apply TotalParse.takes_ret]).
Qed.

Lemma samples_spec fs n : fits 8 fs -> spec False (read_samples fs n)
  (fun xs => length xs = n /\ samples_wf fs xs).
Proof.
  intros Hfs. destruct (decide (fs = 4)) as [->|H4].
  { enough (forall m, (m <= n)%nat -> spec False (read_samples 4 m)
      (fun xs => length xs = m /\ Forall (fits 4) xs)) as H
      by (eapply spec_mono; [by apply (H n)|]; intros xs [? ?]; split; [done|by left]).
    induction n as [|n IH]; intros m Hm; [destruct m; [by apply spec_ret|lia]|].
    destruct m as [|[|m]]; [by apply spec_ret| |]; cbn [read_samples Z.eqb Pos.eqb].
    - repeat sstep. rewrite Z.shiftr_div_pow2 by lia. split; [done|]. constructor; [num_tac|done].
    - sstep. eapply spec_bind; [apply (IH m); lia|]. intros xs [Hl Hx]. apply spec_ret.
      rewrite Z.shiftr_div_pow2 by lia. change 15 with (Z.ones 4). rewrite Z.land_ones by lia.
      split; [simpl; lia|]. repeat constructor; try done; num_tac. }
  assert (forall k, (k = 1 \/ k = 2)%nat -> fs = 8 * Z.of_nat k ->
    spec False (read_samples fs n) (fun xs => length xs = n /\ Forall (fits fs) xs)) as Hk.
  { intros k [-> | ->] ->; [change (8 * Z.of_nat 1) with 8|change (8 * Z.of_nat 2) with 16];
      (induction n as [|n IH]; [by apply spec_ret|]); cbn [read_samples Z.eqb Pos.eqb];
      (sstep; eapply spec_bind; [apply IH|]; intros xs [Hl Hx]; apply spec_ret;
       split; [simpl; lia|]; constructor; [num_tac|done]). }
  destruct (decide (fs = 8)) as [->|H8].
  { eapply spec_mono; [by apply (Hk 1%nat); auto|]. intros xs [? ?]. split; [done|]. by right; left. }
  destruct (decide (fs = 16)) as [->|H16].
  { eapply spec_mono; [by apply (Hk 2%nat); auto|]. intros xs [? ?]. split; [done|]. by right; right; left. }
  destruct n; [apply spec_ret; split; [done|by right; right; right]|]. cbn [read_samples].
  rewrite !(proj2 (Z.eqb_neq _ _)) by done. apply spec_throw.
Qed.

#[global] Arguments read_samples : simpl never.
#[global] Arguments write_samples : simpl never.

(** What is written is read back, for every table the reader returns, though
    it does not have the announced size. *)
Lemma stz2_content b : wf b ->
  exists bs, (forall W (HW : IoWrite W) (HL : IoWriteLaws W), puts (Mp4Box.primitive_mux W _ b) bs) /\
    bs = be_bytes 1 (FullBoxHeader.version (header b)) ++ be_bytes 3 (FullBoxHeader.flags (header b)) ++
      be_bytes 3 (reserved b) ++ be_bytes 1 (field_size b) ++ be_bytes 4 (blen (samples b)) ++
      pack (field_size b) (samples b) ++ [] /\
    Mp4Box.demux (BoxHeader.new NAME) bs = Ok b.
Proof.
  destruct b as [[h v f] re fs xs]. unfold wf, FullBoxHeader.wf. cbn [header reserved field_size samples
    FullBoxHeader.header FullBoxHeader.version FullBoxHeader.flags].
  intros ((-> & Hv & Hf) & Hr & Hs & Hl & Hx). eexists. split; [|split; [reflexivity|]].
  - intros W HW HL. cbv [Mp4Box.primitive_mux box primitive_mux header reserved field_size samples].
    rewrite wrap_fits_id by done. repeat pstep. by apply write_samples_puts.
  - cbv [Mp4Box.demux box_demux demux]. apply (over_takes (fun post => post = [])); [|done].
    do 9 tstep. replace (Z.to_nat (blen xs)) with (length xs) by (unfold blen; lia).
    eapply TotalParse.takes_bind; [by apply read_samples_takes|]. by apply takes_ret_eq.
Qed.

Lemma stz2_codec b : wf b -> fair b -> validate b = Ok tt -> primitive_size b < 2 ^ 50 -> codec b.
Proof.
  intros Hwf Hf _ _. destruct (stz2_content b Hwf) as (bs & Hp & Hbs & Hd). exists bs.
  split; [done|]. split; [|done]. rewrite Hbs. unfold fair in Hf. rewrite Hf.
  cbv [Mp4Box.primitive_size box primitive_size]. rewrite Hf. size_tac.
Qed.

Lemma stz2_outcome data : 8 * blen data < 2 ^ 62 -> outcome False (demux (BoxHeader.new NAME) data) wf.
Proof.
  intros Hl. apply spec_over; [done|]. do 9 sstep. eapply spec_bind; [apply samples_spec; num_tac|].
  intros xs [Hx Hwf]. apply spec_ret. repeat split; simpl; try done; num_tac.
Qed.

#[global] Instance laws : BoxLaws t := mkBoxLaws t _ _ wf fair False eq_refl stz2_codec stz2_outcome.
End laws.
End Stz2.

(** ** subs.rs *)

Module Subs.
Record SubSampleEntry := mkSub {
  subsample_size : Z;
  subsample_priority : Z;
  discardable : Z;
  codec_specific_parameters : Z;
}.

Record SubsEntry := mkEntry {
  sample_delta : Z;
  subsamples : list SubSampleEntry;
}.

Record t := mk {
  header : FullBoxHeader.t;
  entries : list SubsEntry;
}.

Definition NAME : list byte := str "subs".

Section box.
Context `{BO : ByteOrder}.

Definition read_subsample (version : Z) : M Cursor ErrorKind SubSampleEntry :=
  let* subsample_size := if version =? 1 then read_u32 else read_u16 in
  let* subsample_priority := read_u8 in
  let* discardable := read_u8 in
  let* codec_specific_parameters := read_u32 in
  ret (mkSub subsample_size subsample_priority discardable codec_specific_parameters).

Definition read_entry (version : Z) : M Cursor ErrorKind SubsEntry :=
  let* sample_delta := read_u32 in
  let* subsample_count := read_u16 in
  let* subsamples := read_times (Z.to_nat subsample_count) (read_subsample version) in
  ret (mkEntry sample_delta subsamples).

Definition demux (header : BoxHeader.t) (data : list byte) : res ErrorKind t := over data (
  let* header := FullBoxHeader.demux header in
  let* entry_count := read_u32 in
  let* entries := read_times (Z.to_nat entry_count) (read_entry (FullBoxHeader.version header)) in
  ret (mk header entries)).

Definition primitive_size (b : t) : Z :=
  let size := FullBoxHeader.size (header b) in
  let size := size + 4 in
  let size := size + sum_of (fun e =>
    let size := 4 in
    let size := size + 2 in
    size + blen (subsamples e) *
      (if FullBoxHeader.version (header b) =? 1 then 4 + 1 + 1 + 4 else 2 + 1 + 1 + 4)) (entries b) in
  size.

Definition primitive_mux W `{IoWrite W} (b : t) : M W ErrorKind unit :=
  FullBoxHeader.mux (header b) ;;;
  write_u32 (wrap 32 (blen (entries b))) ;;;
  for_each (entries b) (fun entry =>
    write_u32 (sample_delta entry) ;;;
    write_u16 (wrap 16 (blen (subsamples entry))) ;;;
    for_each (subsamples entry) (fun subsample =>
      (if FullBoxHeader.version (header b) =? 1
       then write_u32 (subsample_size subsample)
       else write_u16 (wrap 16 (subsample_size subsample))) ;;;
      write_u8 (subsample_priority subsample) ;;;
      write_u8 (discardable subsample) ;;;
      write_u32 (codec_specific_parameters subsample))) ;;;
  ret tt.

Definition validate (b : t) : res ErrorKind unit :=
  if 1 <? FullBoxHeader.version (header b) then Err InvalidData
  else if (FullBoxHeader.version (header b) =? 0) &&
    existsb (fun entry => existsb (fun subsample => u16_max <? subsample_size subsample) (subsamples entry))
      (entries b) then Err InvalidData
  else Ok tt.

#[global] Instance box : BoxType t := mkBoxType t NAME primitive_size primitive_mux validate.
#[global] Instance box_demux : BoxDemux t := mkBoxDemux t demux.
End box.

Definition subsample_wf (version : Z) (s : SubSampleEntry) : Prop :=
  (if version =? 1 then fits 32 (subsample_size s) else fits 16 (subsample_size s)) /\
  fits 8 (subsample_priority s) /\ fits 8 (discardable s) /\ fits 32 (codec_specific_parameters s).

Definition entry_wf (version : Z) (e : SubsEntry) : Prop :=
  fits 32 (sample_delta e) /\ fits 16 (blen (subsamples e)) /\
  Forall (subsample_wf version) (subsamples e).

Definition wf (b : t) : Prop :=
  FullBoxHeader.wf NAME (header b) /\ fits 32 (blen (entries b)) /\
  Forall (entry_wf (FullBoxHeader.version (header b))) (entries b).

#[export] Hint Unfold wf validate demux primitive_size primitive_mux : mp4box.
#[export] Hint Unfold entry_wf read_entry subsample_wf read_subsample : mp4entry.

Section laws.
Context `{BO : ByteOrder}.

Lemma subsample_spec version : spec False (read_subsample version) (subsample_wf version).
Proof.
  unfold read_subsample. destruct (version =? 1) eqn:E; repeat sstep; unfold subsample_wf; rewrite E; simpl;
    repeat split; num_tac.
Qed.
#[local] Hint Resolve subsample_spec : mp4.

Lemma subs_entry_spec version : spec False (read_entry version) (entry_wf version).
Proof. unfold read_entry. repeat sstep. destruct_and!. repeat split; simpl; try done; num_tac. Qed.
#[local] Hint Resolve subs_entry_spec : mp4.

Lemma subs_codec b : wf b -> True -> validate b = Ok tt -> primitive_size b < 2 ^ 50 -> codec b.
Proof.
  revert b. box_open.
  destruct (_ =? 1) eqn:Hv;
    (eexists; split; [intros W HW HL; repeat pstep | split;
      [autorewrite with scuffle; erewrite blen_sum by (intros; autorewrite with scuffle;
         erewrite blen_each by (intros; autorewrite with scuffle; reflexivity); reflexivity);
       unfold FullBoxHeader.size; simpl Z.of_nat; cbv zeta;
       match goal with |- context [sum_of ?f ?xs + 0] =>
         match goal with |- _ = _ + sum_of ?g ?xs => rewrite (sum_of_ext f g xs) by (intros; lia) end end; lia|]]);
    apply (over_takes (fun post => post = [])); try done; repeat tstep; fields_tac.
Qed.

Lemma subs_outcome data : 8 * blen data < 2 ^ 62 -> outcome False (demux (BoxHeader.new NAME) data) wf.
Proof. box_total. Qed.

#[global] Instance laws : BoxLaws t := mkBoxLaws t _ _ wf (fun _ => True) False eq_refl subs_codec subs_outcome.
End laws.
End Subs.
