(* ===== verification/Mp4Fragment.v ===== *)
(** * [scuffle-mp4]: movie fragments (crates/mp4/src/boxes/types)

    The boxes of a movie fragment: its sequence number, the decode time, the
    defaults of a track fragment and the run of samples, with the flags that
    say which fields are present. *)

From Stdlib Require Import Strings.String.
From stdpp Require Import base list numbers.
From Stdlib Require Import Strings.Byte.
From S2P Require Import Prelude Io BytesCursor BitIo H264 Flv Mp4Box.

(** The idiom [flags & F != 0]. *)
Definition has_flag (flags flag : Z) : bool := negb (Z.land flags flag =? 0).

(** ** mfhd.rs *)

Module Mfhd.
Record t := mk {
  header : FullBoxHeader.t;
  sequence_number : Z;
}.

Definition NAME : list byte := str "mfhd".

Definition new (sequence_number : Z) : t := mk (FullBoxHeader.new NAME 0 0) sequence_number.

Section box.
Context `{BO : ByteOrder}.

Definition demux (header : BoxHeader.t) (data : list byte) : res ErrorKind t := over data (
  let* header := FullBoxHeader.demux header in
  let* sequence_number := read_u32 in
  ret (mk header sequence_number)).

Definition primitive_size (b : t) : Z := FullBoxHeader.size (header b) + 4.

Definition primitive_mux W `{IoWrite W} (b : t) : M W ErrorKind unit :=
  FullBoxHeader.mux (header b) ;;;
  write_u32 (sequence_number b) ;;;
  ret tt.

Definition validate (b : t) : res ErrorKind unit :=
  if negb (FullBoxHeader.version (header b) =? 0) then Err InvalidData
  else if negb (FullBoxHeader.flags (header b) =? 0) then Err InvalidData
  else Ok tt.

#[global] Instance box : BoxType t := mkBoxType t NAME primitive_size primitive_mux validate.
#[global] Instance box_demux : BoxDemux t := mkBoxDemux t demux.
End box.

Definition wf (b : t) : Prop := FullBoxHeader.wf NAME (header b) /\ fits 32 (sequence_number b).

#[export] Hint Unfold wf validate demux primitive_size primitive_mux : mp4box.

Section laws.
Context `{BO : ByteOrder}.

Lemma mfhd_codec b : wf b -> True -> validate b = Ok tt -> primitive_size b < 2 ^ 50 -> codec b.
Proof. revert b. box_open. codec_tac. Qed.

Lemma mfhd_outcome data : 8 * blen data < 2 ^ 62 -> outcome False (demux (BoxHeader.new NAME) data) wf.
Proof. box_total. Qed.

#[global] Instance laws : BoxLaws t := mkBoxLaws t _ _ wf (fun _ => True) False eq_refl mfhd_codec mfhd_outcome.
End laws.
End Mfhd.

(** ** tfdt.rs *)

Module Tfdt.
Record t := mk {
  header : FullBoxHeader.t;
  base_media_decode_time : Z;
}.

Definition NAME : list byte := str "tfdt".

Definition new (base_media_decode_time : Z) : t :=
  let version := if u32_max <? base_media_decode_time then 1 else 0 in
  mk (FullBoxHeader.new NAME version 0) base_media_decode_time.

Section box.
Context `{BO : ByteOrder}.

Definition demux (header : BoxHeader.t) (data : list byte) : res ErrorKind t := over data (
  let* header := FullBoxHeader.demux header in
  let* base_media_decode_time := if FullBoxHeader.version header =? 1 then read_u64 else read_u32 in
  ret (mk header base_media_decode_time)).

Definition primitive_size (b : t) : Z :=
  FullBoxHeader.size (header b) + if FullBoxHeader.version (header b) =? 1 then 8 else 4.

Definition primitive_mux W `{IoWrite W} (b : t) : M W ErrorKind unit :=
  FullBoxHeader.mux (header b) ;;;
  (if FullBoxHeader.version (header b) =? 1
   then write_u64 (base_media_decode_time b)
   else write_u32 (wrap 32 (base_media_decode_time b))) ;;;
  ret tt.

Definition validate (b : t) : res ErrorKind unit :=
  if 1 <? FullBoxHeader.version (header b) then Err InvalidData
  else if negb (FullBoxHeader.flags (header b) =? 0) then Err InvalidData
  else if (FullBoxHeader.version (header b) =? 0) && (u32_max <? base_media_decode_time b) then Err InvalidData
  else Ok tt.

#[global] Instance box : BoxType t := mkBoxType t NAME primitive_size primitive_mux validate.
#[global] Instance box_demux : BoxDemux t := mkBoxDemux t demux.
End box.

Definition wf (b : t) : Prop :=
  FullBoxHeader.wf NAME (header b) /\ fits 64 (base_media_decode_time b).

#[export] Hint Unfold wf validate demux primitive_size primitive_mux : mp4box.

Section laws.
Context `{BO : ByteOrder}.

Lemma tfdt_codec b : wf b -> True -> validate b = Ok tt -> primitive_size b < 2 ^ 50 -> codec b.
Proof. revert b. box_open. destruct (_ =? 1) eqn:Hv; codec_tac. Qed.

Lemma tfdt_outcome data : 8 * blen data < 2 ^ 62 -> outcome False (demux (BoxHeader.new NAME) data) wf.
Proof. box_total. Qed.

#[global] Instance laws : BoxLaws t := mkBoxLaws t _ _ wf (fun _ => True) False eq_refl tfdt_codec tfdt_outcome.
End laws.
End Tfdt.

(** ** trun.rs: the flags of a sample *)

Module TrunSampleFlag.
Record t := mk {
  reserved : Z;
  is_leading : Z;
  sample_depends_on : Z;
  sample_is_depended_on : Z;
  sample_has_redundancy : Z;
  sample_padding_value : Z;
  sample_is_non_sync_sample : bool;
  sample_degradation_priority : Z;
}.

#[global] Instance eq_dec : EqDecision t.
Proof. solve_decision. Defined.

(** [#[derive(Default)]] *)
Definition default_ : t := mk 0 0 0 0 0 0 false 0.

Definition validate (f : t) : res ErrorKind unit :=
  if negb (reserved f =? 0) then Err InvalidData
  else if 2 <? is_leading f then Err InvalidData
  else if 2 <? sample_depends_on f then Err InvalidData
  else if 2 <? sample_is_depended_on f then Err InvalidData
  else if 2 <? sample_has_redundancy f then Err InvalidData
  else if 7 <? sample_padding_value f then Err InvalidData
  else Ok tt.

Definition from (value : Z) : t :=
  let reserved := wrap 8 (Z.shiftr value 28) in
  let is_leading := wrap 8 (Z.land (Z.shiftr value 26) 3) in
  let sample_depends_on := wrap 8 (Z.land (Z.shiftr value 24) 3) in
  let sample_is_depended_on := wrap 8 (Z.land (Z.shiftr value 22) 3) in
  let sample_has_redundancy := wrap 8 (Z.land (Z.shiftr value 20) 3) in
  let sample_padding_value := wrap 8 (Z.land (Z.shiftr value 17) 7) in
  let sample_is_non_sync_sample := negb (Z.land (Z.shiftr value 16) 1 =? 0) in
  let sample_degradation_priority := wrap 16 (Z.land value 65535) in
  mk reserved is_leading sample_depends_on sample_is_depended_on sample_has_redundancy
    sample_padding_value sample_is_non_sync_sample sample_degradation_priority.

(** Shifts of a [u32] drop the bits above. *)
Definition into (value : t) : Z :=
  let result := 0 in
  let result := Z.lor result (wrap 32 (Z.shiftl (reserved value) 28)) in
  let result := Z.lor result (wrap 32 (Z.shiftl (is_leading value) 26)) in
  let result := Z.lor result (wrap 32 (Z.shiftl (sample_depends_on value) 24)) in
  let result := Z.lor result (wrap 32 (Z.shiftl (sample_is_depended_on value) 22)) in
  let result := Z.lor result (wrap 32 (Z.shiftl (sample_has_redundancy value) 20)) in
  let result := Z.lor result (wrap 32 (Z.shiftl (sample_padding_value value) 17)) in
  let result := Z.lor result (wrap 32 (Z.shiftl (Z.b2z (sample_is_non_sync_sample value)) 16)) in
  let result := Z.lor result (sample_degradation_priority value) in
  result.

(** The fields are within their bits. *)
Definition wf (f : t) : Prop :=
  fits 4 (reserved f) /\ fits 2 (is_leading f) /\ fits 2 (sample_depends_on f) /\
  fits 2 (sample_is_depended_on f) /\ fits 2 (sample_has_redundancy f) /\
  fits 3 (sample_padding_value f) /\ fits 16 (sample_degradation_priority f).

Lemma lor_low a b k : 0 <= k -> 0 <= a -> a `mod` 2 ^ k = 0 -> fits k b -> Z.lor a b = a + b.
Proof.
  intros Hk Ha Hm Hb. pose proof (Z.add_lor_land a b) as E.
  enough (Z.land a b = 0) by lia. apply Z.bits_inj'. intros i Hi. rewrite Z.land_spec, Z.bits_0.
  destruct (Z.lt_ge_cases i k).
  - rewrite <-(Z.mod_pow2_bits_low a k i), Hm, Z.bits_0 by lia. done.
  - rewrite (fits_testbit k b i), andb_comm by (done || lia). done.
Qed.

(** The word as a sum of its fields. *)
Lemma into_sum f : wf f -> into f =
  reserved f * 2 ^ 28 + is_leading f * 2 ^ 26 + sample_depends_on f * 2 ^ 24 + sample_is_depended_on f * 2 ^ 22 +
  sample_has_redundancy f * 2 ^ 20 + sample_padding_value f * 2 ^ 17 +
  Z.b2z (sample_is_non_sync_sample f) * 2 ^ 16 + sample_degradation_priority f.
Proof.
  destruct f as [r l d i h p n g]. unfold wf, fits, into; simpl. intros (Hr & Hl & Hd & Hi & Hh & Hp & Hg).
  assert (0 <= Z.b2z n < 2) by (destruct n; simpl; lia). set (n' := Z.b2z n) in *. clearbody n'.
  rewrite !Z.shiftl_mul_pow2 by lia. rewrite !wrap_fits_id, Z.lor_0_l by (unfold fits; lia).
  rewrite (lor_low _ (l * 2 ^ 26) 28) by num_tac. rewrite (lor_low _ (d * 2 ^ 24) 26) by num_tac.
  rewrite (lor_low _ (i * 2 ^ 22) 24) by num_tac. rewrite (lor_low _ (h * 2 ^ 20) 22) by num_tac.
  rewrite (lor_low _ (p * 2 ^ 17) 20) by num_tac. rewrite (lor_low _ (n' * 2 ^ 16) 17) by num_tac.
  rewrite (lor_low _ g 16) by num_tac. done.
Qed.

Lemma flags_range f : wf f -> fits 32 (into f).
Proof.
  intros Hf. rewrite (into_sum f Hf). destruct f as [r l d i h p n g]. unfold wf, fits in *; simpl in *.
  destruct n; simpl; lia.
Qed.

(** The field of [w] bits at bit [k]. *)
Lemma field_at v k w x hi lo : 0 <= k -> 0 <= w <= 8 -> v = (hi * 2 ^ w + x) * 2 ^ k + lo ->
  0 <= x < 2 ^ w -> 0 <= lo < 2 ^ k -> wrap 8 ((v / 2 ^ k) `mod` 2 ^ w) = x.
Proof.
  intros Hk Hw -> Hx Hl. rewrite Z.div_add_l, (Z.div_small lo), Z.add_0_r by lia.
  rewrite Z.add_comm, Z.mod_add, Z.mod_small by lia. apply wrap_fits_id. unfold fits.
  pose proof (Z.pow_le_mono_r 2 w 8 ltac:(lia) ltac:(lia)). lia.
Qed.

Lemma flags_roundtrip f : wf f -> from (into f) = f.
Proof.
  intros Hf. unfold from; cbv zeta. rewrite (into_sum f Hf). destruct f as [r l d i h p n g]. unfold wf, fits in Hf.
  cbn [reserved is_leading sample_depends_on sample_is_depended_on sample_has_redundancy
    sample_padding_value sample_is_non_sync_sample sample_degradation_priority] in *.
  destruct Hf as (Hr & Hl & Hd & Hi & Hh & Hp & Hg).
  assert (0 <= Z.b2z n < 2) by (destruct n; simpl; lia).
  assert (negb (Z.b2z n =? 0) = n) as En by by destruct n.
  set (n' := Z.b2z n) in *. clearbody n'.
  set (v := r * 2 ^ 28 + l * 2 ^ 26 + d * 2 ^ 24 + i * 2 ^ 22 + h * 2 ^ 20 + p * 2 ^ 17 + n' * 2 ^ 16 + g).
  change (Z.land ?x 3) with (Z.land x (Z.ones 2)). change (Z.land ?x 7) with (Z.land x (Z.ones 3)).
  change (Z.land ?x 65535) with (Z.land x (Z.ones 16)).
  change (Z.land ?x 1) with (Z.land x (Z.ones 1)).
  rewrite !Z.shiftr_div_pow2, !Z.land_ones by lia. f_equal.
  - rewrite <-(Z.mod_small (v / 2 ^ 28) (2 ^ 4)) by (unfold v; Z.to_euclidean_division_equations; lia).
    apply (field_at v 28 4 r 0 (v - r * 2 ^ 28)); unfold v; lia.
  - apply (field_at v 26 2 l r (v - r * 2 ^ 28 - l * 2 ^ 26)); unfold v; lia.
  - apply (field_at v 24 2 d (r * 4 + l) (i * 2 ^ 22 + h * 2 ^ 20 + p * 2 ^ 17 + n' * 2 ^ 16 + g)); unfold v; lia.
  - apply (field_at v 22 2 i (r * 16 + l * 4 + d) (h * 2 ^ 20 + p * 2 ^ 17 + n' * 2 ^ 16 + g)); unfold v; lia.
  - apply (field_at v 20 2 h (r * 64 + l * 16 + d * 4 + i) (p * 2 ^ 17 + n' * 2 ^ 16 + g)); unfold v; lia.
  - apply (field_at v 17 3 p (r * 2 ^ 8 + l * 64 + d * 16 + i * 4 + h) (n' * 2 ^ 16 + g)); unfold v; lia.
  - rewrite <-En. do 2 f_equal.
    rewrite <-(field_at v 16 1 n' (r * 2 ^ 11 + l * 2 ^ 9 + d * 2 ^ 7 + i * 2 ^ 5 + h * 2 ^ 3 + p) g)
      by (unfold v; lia).
    symmetry. apply wrap_fits_id. pose proof (Z.mod_pos_bound (v / 2 ^ 16) (2 ^ 1)). unfold fits. lia.
  - rewrite <-(Z.mod_unique v (2 ^ 16) (r * 2 ^ 12 + l * 2 ^ 10 + d * 2 ^ 8 + i * 2 ^ 6 + h * 2 ^ 4 + p * 2 + n') g)
      by (unfold v; lia). by apply wrap_fits_id.
Qed.

Lemma field_fits v k w : 0 <= w <= 8 -> fits w (wrap 8 ((v / 2 ^ k) `mod` 2 ^ w)).
Proof.
  intros Hw. pose proof (Z.mod_pos_bound (v / 2 ^ k) (2 ^ w) ltac:(apply Z.pow_pos_nonneg; lia)).
  rewrite wrap_fits_id; [done|]. unfold fits. pose proof (Z.pow_le_mono_r 2 w 8 ltac:(lia) ltac:(lia)). lia.
Qed.

Lemma flags_wf z : fits 32 z -> wf (from z).
Proof.
  intros Hz. unfold from, wf; cbv zeta; cbn [reserved is_leading sample_depends_on sample_is_depended_on sample_has_redundancy
    sample_padding_value sample_is_non_sync_sample sample_degradation_priority].
  change (Z.land ?x 3) with (Z.land x (Z.ones 2)). change (Z.land ?x 7) with (Z.land x (Z.ones 3)).
  change (Z.land ?x 65535) with (Z.land x (Z.ones 16)).
  rewrite !Z.shiftr_div_pow2, !Z.land_ones by lia. split_and!; try (apply field_fits; lia).
  - unfold wrap. unfold fits in *. rewrite Z.mod_small; Z.to_euclidean_division_equations; lia.
  - unfold wrap, fits. rewrite Z.mod_mod by lia. apply Z.mod_pos_bound. lia.
Qed.
End TrunSampleFlag.

(** [reader.read_u32()?.into()] *)
Definition read_flags `{ByteOrder} : M Cursor ErrorKind TrunSampleFlag.t :=
  let* value := read_u32 in ret (TrunSampleFlag.from value).

Lemma read_flags_spec `{ByteOrder} pan : spec pan read_flags TrunSampleFlag.wf.
Proof. unfold read_flags. repeat sstep. apply TrunSampleFlag.flags_wf. num_tac. Qed.
#[export] Hint Resolve read_flags_spec : mp4.

Lemma read_flags_takes `{ByteOrder} P f : TrunSampleFlag.wf f ->
  TotalParse.takes_on P read_flags (be_bytes 4 (TrunSampleFlag.into f)) f.
Proof.
  intros Hf. unfold read_flags. pose proof (TrunSampleFlag.flags_range f Hf).
  eapply TotalParse.takes_last; [apply TotalParse.takes_uint; num_tac|].
  by apply takes_ret_eq, TrunSampleFlag.flags_roundtrip.
Qed.

Lemma present_mono {A} b (Q R : A -> Prop) o : (forall a, Q a -> R a) -> present b Q o -> present b R o.
Proof. intros HQR. destruct o as [a|]; [|done]. intros [Hb Ha]. split; auto. Qed.

Lemma blen_present {A} b (Q : A -> Prop) k (enc : A -> list byte) o : present b Q o ->
  (forall a, blen (enc a) = k) -> blen (opt_bytes enc o) = if b then k else 0.
Proof. destruct o as [a|]; [intros [-> _]|intros ->]; [intros Hk; apply Hk|done]. Qed.

(** Boxes whose flags say which fields are there. *)
Ltac flag_word := match goal with |- puts (write_uint _ _ (TrunSampleFlag.into _)) _ =>
  apply puts_uint; apply TrunSampleFlag.flags_range; assumption end.
Ltac flags_tac :=
  eexists; split; [intros W HW HL; repeat first [flag_word | pstep] | split; [try size_tac|]];
  try (apply (over_takes (fun post => post = [])); [|done]);
  repeat first [apply read_flags_takes; assumption | tstep]; try fields_tac.

(** ** tfhd.rs *)

Module Tfhd.
Record t := mk {
  header : FullBoxHeader.t;
  track_id : Z;
  base_data_offset : option Z;
  sample_description_index : option Z;
  default_sample_duration : option Z;
  default_sample_size : option Z;
  default_sample_flags : option TrunSampleFlag.t;
}.

Definition NAME : list byte := str "tfhd".

Definition BASE_DATA_OFFSET_FLAG : Z := 1.
Definition DEFAULT_BASE_IS_MOOF_FLAG : Z := 131072.
Definition DEFAULT_SAMPLE_DURATION_FLAG : Z := 8.
Definition DEFAULT_SAMPLE_FLAGS_FLAG : Z := 32.
Definition DEFAULT_SAMPLE_SIZE_FLAG : Z := 16.
Definition DURATION_IS_EMPTY_FLAG : Z := 65536.
Definition SAMPLE_DESCRIPTION_INDEX_FLAG : Z := 2.

Definition new (track_id : Z) (base_data_offset sample_description_index default_sample_duration
    default_sample_size : option Z) (default_sample_flags : option TrunSampleFlag.t) : t :=
  let flags :=
    Z.lor (Z.lor (Z.lor (Z.lor (Z.lor
      (if is_some base_data_offset then BASE_DATA_OFFSET_FLAG else 0)
      (if is_some sample_description_index then SAMPLE_DESCRIPTION_INDEX_FLAG else 0))
      (if is_some default_sample_duration then DEFAULT_SAMPLE_DURATION_FLAG else 0))
      (if is_some default_sample_size then DEFAULT_SAMPLE_SIZE_FLAG else 0))
      (if is_some default_sample_flags then DEFAULT_SAMPLE_FLAGS_FLAG else 0))
      DEFAULT_BASE_IS_MOOF_FLAG in
  mk (FullBoxHeader.new NAME 0 flags) track_id base_data_offset sample_description_index
    default_sample_duration default_sample_size default_sample_flags.

Section box.
Context `{BO : ByteOrder}.

Definition demux (header : BoxHeader.t) (data : list byte) : res ErrorKind t := over data (
  let* header := FullBoxHeader.demux header in
  let* track_id := read_u32 in
  let* base_data_offset := read_if (has_flag (FullBoxHeader.flags header) BASE_DATA_OFFSET_FLAG) read_u64 in
  let* sample_description_index :=
    read_if (has_flag (FullBoxHeader.flags header) SAMPLE_DESCRIPTION_INDEX_FLAG) read_u32 in
  let* default_sample_duration :=
    read_if (has_flag (FullBoxHeader.flags header) DEFAULT_SAMPLE_DURATION_FLAG) read_u32 in
  let* default_sample_size :=
    read_if (has_flag (FullBoxHeader.flags header) DEFAULT_SAMPLE_SIZE_FLAG) read_u32 in
  let* default_sample_flags :=
    read_if (has_flag (FullBoxHeader.flags header) DEFAULT_SAMPLE_FLAGS_FLAG) read_flags in
  ret (mk header track_id base_data_offset sample_description_index default_sample_duration
    default_sample_size default_sample_flags)).

Definition primitive_size (b : t) : Z :=
  FullBoxHeader.size (header b) + 4 +
  opt_size (fun _ => 8) (base_data_offset b) +
  opt_size (fun _ => 4) (sample_description_index b) +
  opt_size (fun _ => 4) (default_sample_duration b) +
  opt_size (fun _ => 4) (default_sample_size b) +
  opt_size (fun _ => 4) (default_sample_flags b).

Definition primitive_mux W `{IoWrite W} (b : t) : M W ErrorKind unit :=
  FullBoxHeader.mux (header b) ;;;
  write_u32 (track_id b) ;;;
  if_some (base_data_offset b) write_u64 ;;;
  if_some (sample_description_index b) write_u32 ;;;
  if_some (default_sample_duration b) write_u32 ;;;
  if_some (default_sample_size b) write_u32 ;;;
  if_some (default_sample_flags b) (fun f => write_u32 (TrunSampleFlag.into f)) ;;;
  ret tt.

Definition validate (b : t) : res ErrorKind unit :=
  if negb (FullBoxHeader.version (header b) =? 0) then Err InvalidData
  else if has_flag (FullBoxHeader.flags (header b)) BASE_DATA_OFFSET_FLAG && negb (is_some (base_data_offset b)) then Err InvalidData
  else if negb (has_flag (FullBoxHeader.flags (header b)) BASE_DATA_OFFSET_FLAG) && is_some (base_data_offset b) then Err InvalidData
  else if has_flag (FullBoxHeader.flags (header b)) SAMPLE_DESCRIPTION_INDEX_FLAG && negb (is_some (sample_description_index b)) then Err InvalidData
  else if negb (has_flag (FullBoxHeader.flags (header b)) SAMPLE_DESCRIPTION_INDEX_FLAG) && is_some (sample_description_index b) then Err InvalidData
  else if has_flag (FullBoxHeader.flags (header b)) DEFAULT_SAMPLE_DURATION_FLAG && negb (is_some (default_sample_duration b)) then Err InvalidData
  else if negb (has_flag (FullBoxHeader.flags (header b)) DEFAULT_SAMPLE_DURATION_FLAG) && is_some (default_sample_duration b) then Err InvalidData
  else if has_flag (FullBoxHeader.flags (header b)) DEFAULT_SAMPLE_SIZE_FLAG && negb (is_some (default_sample_size b)) then Err InvalidData
  else if negb (has_flag (FullBoxHeader.flags (header b)) DEFAULT_SAMPLE_SIZE_FLAG) && is_some (default_sample_size b) then Err InvalidData
  else if has_flag (FullBoxHeader.flags (header b)) DEFAULT_SAMPLE_FLAGS_FLAG && negb (is_some (default_sample_flags b)) then Err InvalidData
  else if negb (has_flag (FullBoxHeader.flags (header b)) DEFAULT_SAMPLE_FLAGS_FLAG) && is_some (default_sample_flags b) then Err InvalidData
  else match default_sample_flags b with Some f => TrunSampleFlag.validate f | None => Ok tt end.

#[global] Instance box : BoxType t := mkBoxType t NAME primitive_size primitive_mux validate.
#[global] Instance box_demux : BoxDemux t := mkBoxDemux t demux.
End box.

Definition wf (b : t) : Prop :=
  FullBoxHeader.wf NAME (header b) /\ fits 32 (track_id b) /\
  present (has_flag (FullBoxHeader.flags (header b)) BASE_DATA_OFFSET_FLAG) (fits 64) (base_data_offset b) /\
  present (has_flag (FullBoxHeader.flags (header b)) SAMPLE_DESCRIPTION_INDEX_FLAG) (fits 32)
    (sample_description_index b) /\
  present (has_flag (FullBoxHeader.flags (header b)) DEFAULT_SAMPLE_DURATION_FLAG) (fits 32)
    (default_sample_duration b) /\
  present (has_flag (FullBoxHeader.flags (header b)) DEFAULT_SAMPLE_SIZE_FLAG) (fits 32)
    (default_sample_size b) /\
  present (has_flag (FullBoxHeader.flags (header b)) DEFAULT_SAMPLE_FLAGS_FLAG) TrunSampleFlag.wf
    (default_sample_flags b).

#[export] Hint Unfold wf validate demux primitive_size primitive_mux : mp4box.

Section laws.
Context `{BO : ByteOrder}.

Lemma tfhd_codec b : wf b -> True -> validate b = Ok tt -> primitive_size b < 2 ^ 50 -> codec b.
Proof. revert b. box_open. flags_tac. Qed.

Lemma tfhd_outcome data : 8 * blen data < 2 ^ 62 -> outcome False (demux (BoxHeader.new NAME) data) wf.
Proof. box_total; eapply present_mono; eauto; num_tac. Qed.

#[global] Instance laws : BoxLaws t := mkBoxLaws t _ _ wf (fun _ => True) False eq_refl tfhd_codec tfhd_outcome.
End laws.
End Tfhd.

(** ** trun.rs *)

Module Trun.
Record TrunSample := mkSample {
  duration : option Z;
  size : option Z;
  flags : option TrunSampleFlag.t;
  composition_time_offset : option Z;
}.

Record t := mk {
  header : FullBoxHeader.t;
  data_offset : option Z;
  first_sample_flags : option TrunSampleFlag.t;
  samples : list TrunSample;
}.

Definition NAME : list byte := str "trun".

Definition FLAG_DATA_OFFSET : Z := 1.
Definition FLAG_FIRST_SAMPLE_FLAGS : Z := 4.
Definition FLAG_SAMPLE_COMPOSITION_TIME_OFFSET : Z := 2048.
Definition FLAG_SAMPLE_DURATION : Z := 256.
Definition FLAG_SAMPLE_FLAGS : Z := 1024.
Definition FLAG_SAMPLE_SIZE : Z := 512.

Definition new (samples : list TrunSample) (first_sample_flags : option TrunSampleFlag.t) : t :=
  let flags :=
    match samples with
    | [] => FLAG_DATA_OFFSET
    | s :: _ =>
        let flags_ := FLAG_DATA_OFFSET in
        let flags_ := if is_some (duration s) then Z.lor flags_ FLAG_SAMPLE_DURATION else flags_ in
        let flags_ := if is_some (size s) then Z.lor flags_ FLAG_SAMPLE_SIZE else flags_ in
        let flags_ := if is_some (flags s) then Z.lor flags_ FLAG_SAMPLE_FLAGS else flags_ in
        if is_some (composition_time_offset s) then Z.lor flags_ FLAG_SAMPLE_COMPOSITION_TIME_OFFSET else flags_
    end in
  let version :=
    if existsb (fun s => match composition_time_offset s with Some z => z <? 0 | None => false end) samples
    then 1 else 0 in
  mk (FullBoxHeader.new NAME version flags) (Some 0) first_sample_flags samples.

Section box.
Context `{BO : ByteOrder}.

Definition read_sample (header_flags version : Z) : M Cursor ErrorKind TrunSample :=
  let* duration := read_if (has_flag header_flags FLAG_SAMPLE_DURATION) read_u32 in
  let* size := read_if (has_flag header_flags FLAG_SAMPLE_SIZE) read_u32 in
  let* flags := read_if (has_flag header_flags FLAG_SAMPLE_FLAGS) read_flags in
  let* composition_time_offset :=
    read_if (has_flag header_flags FLAG_SAMPLE_COMPOSITION_TIME_OFFSET)
      (if version =? 1 then read_i32 else read_u32) in
  ret (mkSample duration size flags composition_time_offset).

Definition demux (header : BoxHeader.t) (data : list byte) : res ErrorKind t := over data (
  let* header := FullBoxHeader.demux header in
  let* sample_count := read_u32 in
  let* data_offset := read_if (has_flag (FullBoxHeader.flags header) FLAG_DATA_OFFSET) read_i32 in
  let* first_sample_flags :=
    read_if (has_flag (FullBoxHeader.flags header) FLAG_FIRST_SAMPLE_FLAGS) read_flags in
  let* samples := read_times (Z.to_nat sample_count)
    (read_sample (FullBoxHeader.flags header) (FullBoxHeader.version header)) in
  ret (mk header data_offset first_sample_flags samples)).

Definition sample_size (header_flags : Z) : Z :=
  (if has_flag header_flags FLAG_SAMPLE_DURATION then 4 else 0) +
  (if has_flag header_flags FLAG_SAMPLE_SIZE then 4 else 0) +
  (if has_flag header_flags FLAG_SAMPLE_FLAGS then 4 else 0) +
  (if has_flag header_flags FLAG_SAMPLE_COMPOSITION_TIME_OFFSET then 4 else 0).

Definition primitive_size (b : t) : Z :=
  FullBoxHeader.size (header b) + 4 +
  (if has_flag (FullBoxHeader.flags (header b)) FLAG_DATA_OFFSET then 4 else 0) +
  (if has_flag (FullBoxHeader.flags (header b)) FLAG_FIRST_SAMPLE_FLAGS then 4 else 0) +
  sum_of (fun _ => sample_size (FullBoxHeader.flags (header b))) (samples b).

Definition primitive_mux W `{IoWrite W} (b : t) : M W ErrorKind unit :=
  FullBoxHeader.mux (header b) ;;;
  write_u32 (wrap 32 (blen (samples b))) ;;;
  if_some (data_offset b) write_i32 ;;;
  if_some (first_sample_flags b) (fun f => write_u32 (TrunSampleFlag.into f)) ;;;
  for_each (samples b) (fun sample =>
    if_some (duration sample) write_u32 ;;;
    if_some (size sample) write_u32 ;;;
    if_some (flags sample) (fun f => write_u32 (TrunSampleFlag.into f)) ;;;
    if_some (composition_time_offset sample) (fun composition_time_offset =>
      if FullBoxHeader.version (header b) =? 1
      then write_i32 (swrap 32 composition_time_offset)
      else write_u32 (wrap 32 composition_time_offset))) ;;;
  ret tt.

Definition validate_flags (flags : option TrunSampleFlag.t) : res ErrorKind unit :=
  match flags with Some flags => TrunSampleFlag.validate flags | None => Ok tt end.

(** The loop over the samples stops at the first error. *)
Fixpoint validate_samples (samples : list TrunSample) : res ErrorKind unit :=
  match samples with
  | [] => Ok tt
  | sample :: samples =>
      match validate_flags (flags sample) with Ok _ => validate_samples samples | e => e end
  end.

(** When the offsets are compared with their bound every sample has one. *)
Definition validate (b : t) : res ErrorKind unit :=
  if 1 <? FullBoxHeader.version (header b) then Err InvalidData
  else if negb (has_flag (FullBoxHeader.flags (header b)) FLAG_SAMPLE_COMPOSITION_TIME_OFFSET) && (FullBoxHeader.version (header b) =? 1) then Err InvalidData
  else if has_flag (FullBoxHeader.flags (header b)) FLAG_DATA_OFFSET && negb (is_some (data_offset b)) then Err InvalidData
  else if negb (has_flag (FullBoxHeader.flags (header b)) FLAG_DATA_OFFSET) && is_some (data_offset b) then Err InvalidData
  else if has_flag (FullBoxHeader.flags (header b)) FLAG_FIRST_SAMPLE_FLAGS && negb (is_some (first_sample_flags b)) then Err InvalidData
  else if negb (has_flag (FullBoxHeader.flags (header b)) FLAG_FIRST_SAMPLE_FLAGS) && is_some (first_sample_flags b) then Err InvalidData
  else if has_flag (FullBoxHeader.flags (header b)) FLAG_SAMPLE_DURATION && existsb (fun s => negb (is_some (duration s))) (samples b) then Err InvalidData
  else if negb (has_flag (FullBoxHeader.flags (header b)) FLAG_SAMPLE_DURATION) && existsb (fun s => is_some (duration s)) (samples b) then Err InvalidData
  else if has_flag (FullBoxHeader.flags (header b)) FLAG_SAMPLE_SIZE && existsb (fun s => negb (is_some (size s))) (samples b) then Err InvalidData
  else if negb (has_flag (FullBoxHeader.flags (header b)) FLAG_SAMPLE_SIZE) && existsb (fun s => is_some (size s)) (samples b) then Err InvalidData
  else if has_flag (FullBoxHeader.flags (header b)) FLAG_SAMPLE_FLAGS && existsb (fun s => negb (is_some (flags s))) (samples b) then Err InvalidData
  else if negb (has_flag (FullBoxHeader.flags (header b)) FLAG_SAMPLE_FLAGS) && existsb (fun s => is_some (flags s)) (samples b) then Err InvalidData
  else if has_flag (FullBoxHeader.flags (header b)) FLAG_SAMPLE_COMPOSITION_TIME_OFFSET && existsb (fun s => negb (is_some (composition_time_offset s))) (samples b) then Err InvalidData
  else if negb (has_flag (FullBoxHeader.flags (header b)) FLAG_SAMPLE_COMPOSITION_TIME_OFFSET) && existsb (fun s => is_some (composition_time_offset s)) (samples b) then Err InvalidData
  else if has_flag (FullBoxHeader.flags (header b)) FLAG_SAMPLE_COMPOSITION_TIME_OFFSET && (FullBoxHeader.version (header b) =? 1) &&
    existsb (fun s => i32_max <? default 0 (composition_time_offset s)) (samples b) then Err InvalidData
  else if has_flag (FullBoxHeader.flags (header b)) FLAG_SAMPLE_COMPOSITION_TIME_OFFSET && (FullBoxHeader.version (header b) =? 0) &&
    existsb (fun s => u32_max <? default 0 (composition_time_offset s)) (samples b) then Err InvalidData
  else
    match validate_flags (first_sample_flags b) with Ok _ => validate_samples (samples b) | e => e end.

#[global] Instance box : BoxType t := mkBoxType t NAME primitive_size primitive_mux validate.
#[global] Instance box_demux : BoxDemux t := mkBoxDemux t demux.
End box.

Definition offset_wf (version z : Z) : Prop :=
  if version =? 1 then - 2 ^ 31 <= z < 2 ^ 31 else fits 32 z.

Definition sample_wf (header_flags version : Z) (s : TrunSample) : Prop :=
  present (has_flag header_flags FLAG_SAMPLE_DURATION) (fits 32) (duration s) /\
  present (has_flag header_flags FLAG_SAMPLE_SIZE) (fits 32) (size s) /\
  present (has_flag header_flags FLAG_SAMPLE_FLAGS) TrunSampleFlag.wf (flags s) /\
  present (has_flag header_flags FLAG_SAMPLE_COMPOSITION_TIME_OFFSET) (offset_wf version) (composition_time_offset s).

Definition wf (b : t) : Prop :=
  FullBoxHeader.wf NAME (header b) /\
  present (has_flag (FullBoxHeader.flags (header b)) FLAG_DATA_OFFSET) (fun z => - 2 ^ 31 <= z < 2 ^ 31) (data_offset b) /\
  present (has_flag (FullBoxHeader.flags (header b)) FLAG_FIRST_SAMPLE_FLAGS) TrunSampleFlag.wf (first_sample_flags b) /\
  fits 32 (blen (samples b)) /\
  Forall (sample_wf (FullBoxHeader.flags (header b)) (FullBoxHeader.version (header b))) (samples b).

#[export] Hint Unfold wf validate demux primitive_size primitive_mux : mp4box.
#[export] Hint Unfold sample_wf read_sample offset_wf : mp4entry.

Section laws.
Context `{BO : ByteOrder}.

(** The samples have the size their flags say. *)
Ltac trun_size_tac :=
  autorewrite with scuffle; unfold FullBoxHeader.size; simpl Z.of_nat;
  erewrite (blen_sum (fun _ => _)); [|intros x Hx; elem_tac; autorewrite with scuffle;
    repeat (erewrite blen_present by (first [eassumption | intros; autorewrite with scuffle; reflexivity])); reflexivity];
  repeat (erewrite blen_present by (first [eassumption | intros; autorewrite with scuffle; reflexivity])); 
  unfold sample_size; change (Z.of_nat 4) with 4;
  match goal with |- context [sum_of ?f ?xs + 0] =>
    match goal with |- _ = _ + sum_of ?g _ => rewrite (sum_of_ext f g xs) by (intros; lia) end
  end; lia.

Lemma trun_sample_spec header_flags version :
  spec False (read_sample header_flags version) (sample_wf header_flags version).
Proof.
  unfold read_sample. repeat sstep.
  assert (spec False (if version =? 1 then read_i32 else read_u32) (offset_wf version)) as Ho.
  { unfold offset_wf. destruct (version =? 1); [eapply spec_int; lia|]. eapply spec_mono; [apply spec_uint|].
    intros. num_tac. }
  eapply spec_bind; [by apply spec_read_if|]. intros cto Hc. apply spec_ret.
  split_and!; simpl; try done; eapply present_mono; eauto; num_tac.
Qed.
#[local] Hint Resolve trun_sample_spec : mp4.

Lemma trun_codec b : wf b -> True -> validate b = Ok tt -> primitive_size b < 2 ^ 50 -> codec b.
Proof. revert b. box_open. destruct (_ =? 1) eqn:Hv; flags_tac.
  - trun_size_tac.
  - rewrite Hv, swrap_id by num_tac. apply takes_int; [lia|num_tac].
  - trun_size_tac.
  - rewrite Hv, wrap_fits_id by num_tac. apply TotalParse.takes_uint. num_tac.
 Qed.

Lemma trun_outcome data : 8 * blen data < 2 ^ 62 -> outcome False (demux (BoxHeader.new NAME) data) wf.
Proof. box_total; eapply present_mono; eauto; num_tac. Qed.

#[global] Instance laws : BoxLaws t := mkBoxLaws t _ _ wf (fun _ => True) False eq_refl trun_codec trun_outcome.
End laws.
End Trun.
