(* ===== verification/Mp4Esds.v ===== *)
(** * [scuffle-mp4]: the elementary stream descriptor (crates/mp4/src/boxes/types/esds)

    The descriptors of ISO/IEC 14496-1, their headers with a size of variable
    length, and the box that carries them. A descriptor that holds others is a
    record over the type [D] of its children, so that [DynDescriptor] can be an
    inductive type of its own. *)

From Stdlib Require Import Strings.String.
From stdpp Require Import base list numbers.
From Stdlib Require Import Strings.Byte.
From S2P Require Import Prelude Io BytesCursor BitIo H264 Flv Mp4Box.

(** [str::chars] of valid UTF-8. *)
Fixpoint chars (s : list byte) : list Z :=
  match s with
  | [] => []
  | a :: s =>
      if b2z a <? 128 then b2z a :: chars s
      else
        match s with
        | [] => []
        | b :: s =>
            if b2z a <? 224 then (b2z a - 192) * 64 + (b2z b - 128) :: chars s
            else
              match s with
              | [] => []
              | c :: s =>
                  if b2z a <? 240
                  then ((b2z a - 224) * 64 + (b2z b - 128)) * 64 + (b2z c - 128) :: chars s
                  else
                    match s with
                    | [] => []
                    | d :: s =>
                        (((b2z a - 240) * 64 + (b2z b - 128)) * 64 + (b2z c - 128)) * 64 + (b2z d - 128)
                        :: chars s
                    end
              end
        end
  end.

(** ** descriptor/header.rs *)

Module DescriptorTag.
Inductive t := ESDescrTag | DecoderConfigDescrTag | DecSpecificInfoTag | SLConfigDescrTag | Unknown (tag : Z).

Definition from (tag : Z) : t :=
  match tag with
  | 3 => ESDescrTag
  | 4 => DecoderConfigDescrTag
  | 5 => DecSpecificInfoTag
  | 6 => SLConfigDescrTag
  | _ => Unknown tag
  end.

Definition into (tag : t) : Z :=
  match tag with
  | ESDescrTag => 3
  | DecoderConfigDescrTag => 4
  | DecSpecificInfoTag => 5
  | SLConfigDescrTag => 6
  | Unknown tag => tag
  end.
End DescriptorTag.

Module DescriptorHeader.
Record t := mk { tag : DescriptorTag.t }.

Definition new (tag : DescriptorTag.t) : t := mk tag.

Section parse.
Context `{BO : ByteOrder}.

(** Seven bits a byte, most significant first; the shift of a [u32] drops the
    bits above. *)
Fixpoint read_size (fuel : nat) (size : Z) : M Cursor ErrorKind Z :=
  match fuel with
  | O => out_of_fuel
  | S fuel =>
      let* byte := read_u8 in
      let size := Z.lor (wrap 32 (Z.shiftl size 7)) (Z.land byte 127) in
      if Z.land byte 128 =? 0 then ret size else read_size fuel size
  end.

Definition parse : M Cursor ErrorKind (t * list byte) :=
  let* tag := read_u8 in
  let* c := get in
  let* size := read_size (S (length (cursor_rest c))) 0 in
  let* data := BytesCursorExt.extract_bytes size in
  ret (mk (DescriptorTag.from tag), data).
End parse.
End DescriptorHeader.

(** ** descriptor/traits.rs *)

Section size.
Context `{BO : ByteOrder}.

(** The loops over a [u32] size, seven bits a turn: five turns are enough. *)
Fixpoint bytes_required (fuel : nat) (size : Z) : Z :=
  match fuel with
  | O => 0
  | S fuel =>
      let size := Z.shiftr size 7 in
      if size =? 0 then 1 else 1 + bytes_required fuel size
  end.

Fixpoint write_size {W} `{IoWrite W} (fuel : nat) (size : Z) : M W ErrorKind unit :=
  match fuel with
  | O => out_of_fuel
  | S fuel =>
      let byte := Z.land size 127 in
      let size := Z.shiftr size 7 in
      if size =? 0 then write_u8 byte
      else write_u8 (Z.lor byte 128) ;;; write_size fuel size
  end.
End size.

(** The provided [size] and [mux] of a descriptor, from its tag and what the
    required methods return. *)
Section provided.
Context `{BO : ByteOrder}.

Definition desc_size (primitive_size : Z) : Z :=
  primitive_size + 1 + bytes_required 5 (wrap 32 primitive_size).

Definition desc_mux {W} `{IoWrite W} (tag : DescriptorTag.t) (primitive_size : Z)
    (primitive_mux : M W ErrorKind unit) : M W ErrorKind unit :=
  write_u8 (DescriptorTag.into tag) ;;;
  write_size 5 (wrap 32 primitive_size) ;;;
  primitive_mux ;;;
  ret tt.
End provided.

(** ** descriptor/types *)

Module DecoderSpecificInfoDescriptor.
Record t := mk { header : DescriptorHeader.t; data : list byte }.

Definition demux (header : DescriptorHeader.t) (data : list byte) : res ErrorKind t := Ok (mk header data).

Definition primitive_size (d : t) : Z := blen (data d).

Definition primitive_mux W `{IoWrite W} (d : t) : M W ErrorKind unit :=
  write_all (data d) ;;;
  ret tt.

Definition TAG : DescriptorTag.t := DescriptorTag.DecSpecificInfoTag.
Definition size (d : t) : Z := desc_size (primitive_size d).
Definition mux `{ByteOrder} W `{IoWrite W} (d : t) : M W ErrorKind unit :=
  desc_mux TAG (primitive_size d) (primitive_mux W d).
End DecoderSpecificInfoDescriptor.

Module SLConfigDescriptor.
Record t := mk { header : DescriptorHeader.t; predefined : Z; data : list byte }.

Definition demux (header : DescriptorHeader.t) (data : list byte) : res ErrorKind t :=
  match data with
  | [] => Err InvalidData
  | predefined :: data => Ok (mk header (b2z predefined) data)
  end.

Definition primitive_size (d : t) : Z := 1 + blen (data d).

Definition primitive_mux `{ByteOrder} W `{IoWrite W} (d : t) : M W ErrorKind unit :=
  write_u8 (predefined d) ;;;
  write_all (data d) ;;;
  ret tt.

Definition TAG : DescriptorTag.t := DescriptorTag.SLConfigDescrTag.
Definition size (d : t) : Z := desc_size (primitive_size d).
Definition mux `{ByteOrder} W `{IoWrite W} (d : t) : M W ErrorKind unit :=
  desc_mux TAG (primitive_size d) (primitive_mux W d).
End SLConfigDescriptor.

Module DecoderConfigDescriptor.
Record t (D : Type) := mk {
  header : DescriptorHeader.t;
  object_type_indication : Z;
  stream_type : Z;
  up_stream : bool;
  reserved : Z;
  buffer_size_db : Z;
  max_bitrate : Z;
  avg_bitrate : Z;
  decoder_specific_info : option DecoderSpecificInfoDescriptor.t;
  unknown : list D;
}.
Arguments mk {D}.
Arguments header {D}.
Arguments object_type_indication {D}.
Arguments stream_type {D}.
Arguments up_stream {D}.
Arguments reserved {D}.
Arguments buffer_size_db {D}.
Arguments max_bitrate {D}.
Arguments avg_bitrate {D}.
Arguments decoder_specific_info {D}.
Arguments unknown {D}.

Definition TAG : DescriptorTag.t := DescriptorTag.DecoderConfigDescrTag.

Definition new {D} (object_type_indication stream_type max_bitrate avg_bitrate : Z)
    (decoder_specific_info : option DecoderSpecificInfoDescriptor.t) : t D :=
  mk (DescriptorHeader.new TAG) object_type_indication stream_type
    false 1 0 max_bitrate avg_bitrate decoder_specific_info [].

Section desc.
Context `{BO : ByteOrder} {D : Type} (dsize : D -> Z) (dmux : forall W, IoWrite W -> D -> M W ErrorKind unit).

Definition primitive_size (d : t D) : Z :=
  1 + 1 + 3 + 4 + 4 + opt_size DecoderSpecificInfoDescriptor.size (decoder_specific_info d) + sum_of dsize (unknown d).

Definition primitive_mux W `{IoWrite W} (d : t D) : M W ErrorKind unit :=
  write_u8 (object_type_indication d) ;;;
  let byte := Z.lor (Z.lor (wrap 8 (Z.shiftl (stream_type d) 2)) (Z.shiftl (Z.b2z (up_stream d)) 1)) (reserved d) in
  write_u8 byte ;;;
  write_u24 (buffer_size_db d) ;;;
  write_u32 (max_bitrate d) ;;;
  write_u32 (avg_bitrate d) ;;;
  if_some (decoder_specific_info d) (DecoderSpecificInfoDescriptor.mux W) ;;;
  for_each (unknown d) (dmux W _) ;;;
  ret tt.

Definition size (d : t D) : Z := desc_size (primitive_size d).
Definition mux W `{IoWrite W} (d : t D) : M W ErrorKind unit :=
  desc_mux TAG (primitive_size d) (primitive_mux W d).
End desc.
End DecoderConfigDescriptor.

Module EsDescriptor.
Record t (D : Type) := mk {
  header : DescriptorHeader.t;
  es_id : Z;
  stream_priority : Z;
  depends_on_es_id : option Z;
  url : option (list byte);
  ocr_es_id : option Z;
  decoder_config : option (DecoderConfigDescriptor.t D);
  sl_config : option SLConfigDescriptor.t;
  unknown : list D;
}.
Arguments mk {D}.
Arguments header {D}.
Arguments es_id {D}.
Arguments stream_priority {D}.
Arguments depends_on_es_id {D}.
Arguments url {D}.
Arguments ocr_es_id {D}.
Arguments decoder_config {D}.
Arguments sl_config {D}.
Arguments unknown {D}.

Definition TAG : DescriptorTag.t := DescriptorTag.ESDescrTag.

Definition new {D} (es_id stream_priority : Z) (depends_on_es_id : option Z) (url : option (list byte))
    (ocr_es_id : option Z) (decoder_config : option (DecoderConfigDescriptor.t D))
    (sl_config : option SLConfigDescriptor.t) : t D :=
  mk (DescriptorHeader.new TAG) es_id stream_priority depends_on_es_id url
    ocr_es_id decoder_config sl_config [].

Section desc.
Context `{BO : ByteOrder} {D : Type} (dsize : D -> Z) (dmux : forall W, IoWrite W -> D -> M W ErrorKind unit).

Definition primitive_size (d : t D) : Z :=
  2 + 1 + (if is_some (depends_on_es_id d) then 2 else 0) +
  opt_size (fun url => 1 + blen url) (url d) +
  (if is_some (ocr_es_id d) then 2 else 0) +
  opt_size (DecoderConfigDescriptor.size dsize) (decoder_config d) +
  opt_size SLConfigDescriptor.size (sl_config d) + sum_of dsize (unknown d).

Definition flag_byte (d : t D) : Z :=
  let flag := Z.land (stream_priority d) 31 in
  let flag := if is_some (depends_on_es_id d) then Z.lor flag 128 else flag in
  let flag := if is_some (url d) then Z.lor flag 64 else flag in
  if is_some (ocr_es_id d) then Z.lor flag 32 else flag.

Definition primitive_mux W `{IoWrite W} (d : t D) : M W ErrorKind unit :=
  write_u16 (es_id d) ;;;
  write_u8 (flag_byte d) ;;;
  if_some (depends_on_es_id d) write_u16 ;;;
  if_some (url d) (fun url =>
    write_u8 (wrap 8 (blen url)) ;;;
    for_each (chars url) (fun c => write_u8 (wrap 8 c))) ;;;
  if_some (ocr_es_id d) write_u16 ;;;
  if_some (decoder_config d) (DecoderConfigDescriptor.mux dsize dmux W) ;;;
  if_some (sl_config d) (SLConfigDescriptor.mux W) ;;;
  for_each (unknown d) (dmux W _) ;;;
  ret tt.

Definition size (d : t D) : Z := desc_size (primitive_size d).
Definition mux W `{IoWrite W} (d : t D) : M W ErrorKind unit :=
  desc_mux TAG (primitive_size d) (primitive_mux W d).
End desc.
End EsDescriptor.

(** ** descriptor/mod.rs *)

#[local] Set Warnings "-register-all".

Module DynDescriptor.
Inductive t :=
| Es (desc : EsDescriptor.t t)
| DecoderConfig (desc : DecoderConfigDescriptor.t t)
| DecoderSpecificInfo (desc : DecoderSpecificInfoDescriptor.t)
| SLConfig (desc : SLConfigDescriptor.t)
| Unknown (header : DescriptorHeader.t) (data : list byte).

Section ops.
Context `{BO : ByteOrder}.

Fixpoint size (d : t) : Z :=
  match d with
  | Es desc => EsDescriptor.size size desc
  | DecoderConfig desc => DecoderConfigDescriptor.size size desc
  | DecoderSpecificInfo desc => DecoderSpecificInfoDescriptor.size desc
  | SLConfig desc => SLConfigDescriptor.size desc
  | Unknown _ data => 1 + bytes_required 5 (wrap 32 (blen data)) + blen data
  end.

Fixpoint mux W (HW : IoWrite W) (d : t) {struct d} : M W ErrorKind unit :=
  match d with
  | Es desc => EsDescriptor.mux size mux W desc
  | DecoderConfig desc => DecoderConfigDescriptor.mux size mux W desc
  | DecoderSpecificInfo desc => DecoderSpecificInfoDescriptor.mux W desc
  | SLConfig desc => SLConfigDescriptor.mux W desc
  | Unknown header data =>
      write_u8 (DescriptorTag.into (DescriptorHeader.tag header)) ;;;
      write_size 5 (wrap 32 (blen data)) ;;;
      write_all data ;;;
      ret tt
  end.

(** The step of the loops over the descriptors of a buffer. *)
Definition next {S} (ddemux : M Cursor ErrorKind t) (update : S -> t -> S) (s : S) : M Cursor ErrorKind S :=
  let* descriptor := ddemux in ret (update s descriptor).

(** [DecoderConfigDescriptor::demux] *)
Definition take_config '(decoder_specific_info, unknown) (descriptor : t) :
    option DecoderSpecificInfoDescriptor.t * list t :=
  match descriptor with
  | DecoderSpecificInfo desc => (Some desc, unknown)
  | _ => (decoder_specific_info, unknown ++ [descriptor])
  end.

Definition demux_config (ddemux : M Cursor ErrorKind t) (header : DescriptorHeader.t) (data : list byte) :
    res ErrorKind (DecoderConfigDescriptor.t t) := over data (
  let* object_type_indication := read_u8 in
  let* byte := read_u8 in
  let stream_type := Z.shiftr byte 2 in
  let up_stream := negb (Z.land byte 2 =? 0) in
  let reserved := Z.land byte 1 in
  let* buffer_size_db := read_u24 in
  let* max_bitrate := read_u32 in
  let* avg_bitrate := read_u32 in
  let* (decoder_specific_info, unknown) := loop_remaining (next ddemux take_config) (None, []) in
  ret (DecoderConfigDescriptor.mk header object_type_indication stream_type up_stream reserved buffer_size_db
    max_bitrate avg_bitrate decoder_specific_info unknown)).

(** [EsDescriptor::demux] *)
Definition take_es '(decoder_config, sl_config, unknown) (descriptor : t) :
    option (DecoderConfigDescriptor.t t) * option SLConfigDescriptor.t * list t :=
  match descriptor with
  | DecoderConfig desc => (Some desc, sl_config, unknown)
  | SLConfig desc => (decoder_config, Some desc, unknown)
  | _ => (decoder_config, sl_config, unknown ++ [descriptor])
  end.

Definition read_url : M Cursor ErrorKind (list byte) :=
  let* size := read_u8 in
  let* cs := read_times (Z.to_nat size) read_u8 in
  ret (fold_left push_char cs []).

Definition demux_es (ddemux : M Cursor ErrorKind t) (header : DescriptorHeader.t) (data : list byte) :
    res ErrorKind (EsDescriptor.t t) := over data (
  let* es_id := read_u16 in
  let* flag := read_u8 in
  let stream_priority := Z.land flag 31 in
  let stream_dependence_flag := negb (Z.land flag 128 =? 0) in
  let url_flag := negb (Z.land flag 64 =? 0) in
  let ocr_stream_flag := negb (Z.land flag 32 =? 0) in
  let* depends_on_es_id := read_if stream_dependence_flag read_u16 in
  let* url := read_if url_flag read_url in
  let* ocr_es_id := read_if ocr_stream_flag read_u16 in
  let* (decoder_config, sl_config, unknown) := loop_remaining (next ddemux take_es) (None, None, []) in
  ret (EsDescriptor.mk header es_id stream_priority depends_on_es_id url ocr_es_id decoder_config
    sl_config unknown)).

(** The descriptor of a payload, by the tag. *)
Definition demux_data (ddemux : M Cursor ErrorKind t) (header : DescriptorHeader.t) (data : list byte) :
    M Cursor ErrorKind t :=
  match DescriptorHeader.tag header with
  | DescriptorTag.ESDescrTag =>
      let* desc := lift (demux_es ddemux header data) in ret (Es desc)
  | DescriptorTag.DecoderConfigDescrTag =>
      let* desc := lift (demux_config ddemux header data) in ret (DecoderConfig desc)
  | DescriptorTag.DecSpecificInfoTag =>
      let* desc := lift (DecoderSpecificInfoDescriptor.demux header data) in ret (DecoderSpecificInfo desc)
  | DescriptorTag.SLConfigDescrTag =>
      let* desc := lift (SLConfigDescriptor.demux header data) in ret (SLConfig desc)
  | DescriptorTag.Unknown _ => ret (Unknown header data)
  end.

(** A descriptor inside another has at least two bytes less, so the bytes left
    bound the depth. *)
Fixpoint demux_fuel (fuel : nat) : M Cursor ErrorKind t :=
  match fuel with
  | O => out_of_fuel
  | S fuel => let* (header, data) := DescriptorHeader.parse in demux_data (demux_fuel fuel) header data
  end.

Definition demux : M Cursor ErrorKind t :=
  let* c := get in demux_fuel (S (length (cursor_rest c))).
End ops.
End DynDescriptor.

(** ** esds/mod.rs *)

Module Esds.
Record t := mk {
  header : FullBoxHeader.t;
  es_descriptor : EsDescriptor.t DynDescriptor.t;
  unknown : list DynDescriptor.t;
}.

Definition NAME : list byte := str "esds".

Definition new (es_descriptor : EsDescriptor.t DynDescriptor.t) : t :=
  mk (FullBoxHeader.new NAME 0 0) es_descriptor [].

Section box.
Context `{BO : ByteOrder}.

Definition take_esds '(es_descriptor, unknown) (descriptor : DynDescriptor.t) :
    option (EsDescriptor.t DynDescriptor.t) * list DynDescriptor.t :=
  match descriptor with
  | DynDescriptor.Es desc => (Some desc, unknown)
  | _ => (es_descriptor, unknown ++ [descriptor])
  end.

Definition demux (header : BoxHeader.t) (data : list byte) : res ErrorKind t := over data (
  let* header := FullBoxHeader.demux header in
  let* (es_descriptor, unknown) := loop_remaining (DynDescriptor.next DynDescriptor.demux take_esds) (None, []) in
  let* es_descriptor := ok_or es_descriptor InvalidData in
  ret (mk header es_descriptor unknown)).

(** The unknown descriptors are neither counted nor written. *)
Definition primitive_size (b : t) : Z :=
  FullBoxHeader.size (header b) + EsDescriptor.size DynDescriptor.size (es_descriptor b).

Definition primitive_mux W `{IoWrite W} (b : t) : M W ErrorKind unit :=
  FullBoxHeader.mux (header b) ;;;
  EsDescriptor.mux DynDescriptor.size DynDescriptor.mux W (es_descriptor b) ;;;
  ret tt.

Definition validate (b : t) : res ErrorKind unit := Ok tt.

#[global] Instance box : BoxType t := mkBoxType t NAME primitive_size primitive_mux validate.
#[global] Instance box_demux : BoxDemux t := mkBoxDemux t demux.
End box.
End Esds.

(** ** Descriptor headers *)

(** A descriptor of less than 128 bytes, as [mux] lays it out. *)
Definition desc_frame (tag : DescriptorTag.t) (data : list byte) : list byte :=
  be_bytes 1 (DescriptorTag.into tag) ++ be_bytes 1 (blen data) ++ data.

(** A tag that is the one its number denotes. *)
Definition tag_wf (tag : DescriptorTag.t) : Prop :=
  fits 8 (DescriptorTag.into tag) /\ DescriptorTag.from (DescriptorTag.into tag) = tag.

Lemma tag_from_wf z : fits 8 z -> tag_wf (DescriptorTag.from z).
Proof.
  intros Hz. pose proof (Flv.all_bytes (fun z =>
    (DescriptorTag.into (DescriptorTag.from z) =? z)) ltac:(by vm_compute) z Hz) as E.
  apply Z.eqb_eq in E. unfold tag_wf. by rewrite E.
Qed.

Lemma size_bits b : 0 <= b < 128 -> Z.land b 127 = b /\ Z.land b 128 = 0 /\ Z.shiftr b 7 = 0.
Proof.
  intros Hb. pose proof (Flv.all_bytes (fun b => (128 <=? b) ||
    (Z.land b 127 =? b) && (Z.land b 128 =? 0) && (Z.shiftr b 7 =? 0)) ltac:(by vm_compute) b ltac:(lia)) as E.
  cbv beta in E. rewrite (proj2 (Z.leb_gt _ _)) in E by lia. simpl in E.
  rewrite !andb_true_iff, !Z.eqb_eq in E. tauto.
Qed.

Section headers.
Context `{BO : ByteOrder}.
Import TotalParse.

Lemma desc_size_small n : 0 <= n < 128 -> desc_size n = n + 2.
Proof.
  intros Hn. unfold desc_size. cbn [bytes_required].
  rewrite wrap_fits_id by (unfold fits; lia). destruct (size_bits n Hn) as (_ & _ & ->). simpl. lia.
Qed.

Lemma blen_desc_frame tag data : blen data < 128 -> blen (desc_frame tag data) = desc_size (blen data).
Proof.
  intros Hd. pose proof (blen_nonneg data). rewrite desc_size_small by lia. unfold desc_frame.
  autorewrite with scuffle. lia.
Qed.

Lemma puts_desc_frame {W} `{IoWriteLaws W} tag (m : M W ErrorKind unit) bs :
  fits 8 (DescriptorTag.into tag) -> blen bs < 128 -> puts m bs ->
  puts (desc_mux tag (blen bs) m) (desc_frame tag bs).
Proof.
  intros Ht Hl Hm. pose proof (blen_nonneg bs). unfold desc_mux, desc_frame. cbn [write_size].
  rewrite wrap_fits_id by (unfold fits; lia). destruct (size_bits (blen bs) ltac:(lia)) as (-> & _ & ->).
  rewrite <-(app_nil_r bs) at 2. pstep; [pstep|]. pstep; [by apply puts_uint; simpl; lia|].
  apply puts_bind; [done|pstep].
Qed.

Lemma takes_read_size P fuel n : 0 <= n < 128 ->
  takes_on P (DescriptorHeader.read_size (S fuel) 0) (be_bytes 1 n) n.
Proof.
  intros Hn. cbn [DescriptorHeader.read_size]. eapply takes_last; [apply takes_uint; lia|].
  destruct (size_bits n Hn) as (-> & -> & _). apply takes_ret.
Qed.

Lemma takes_parse P tag data : tag_wf tag -> blen data < 128 ->
  takes_on P DescriptorHeader.parse (desc_frame tag data) (DescriptorHeader.mk tag, data).
Proof.
  intros [Ht Hf] Hd. pose proof (blen_nonneg data). unfold DescriptorHeader.parse, desc_frame.
  eapply takes_bind; [by apply takes_uint|]. rewrite Hf.
  apply takes_get. intros c _. eapply takes_bind; [apply takes_read_size; lia|].
  eapply takes_last; [by apply takes_extract|apply takes_ret].
Qed.

Lemma total_read_size fuel size pre post : (length post < fuel)%nat -> fits 32 size ->
  total (DescriptorHeader.read_size fuel size) pre post (eq UnexpectedEof) (fun z bs => fits 32 z /\ bs <> []).
Proof.
  revert size pre post. induction fuel as [|fuel IH]; intros size pre post Hf Hs; [lia|].
  cbn [DescriptorHeader.read_size]. eapply total_parse_bind; [apply total_uint|].
  intros b bs post' -> [Hl Hb]. cbv beta zeta.
  assert (fits 32 (Z.lor (wrap 32 (Z.shiftl size 7)) (Z.land b 127))) as Hz.
  { apply fits_bits; [lia|]. intros i Hi. rewrite Z.lor_spec, Z.land_spec.
    rewrite (fits_testbit 32 (wrap 32 _) i), (fits_testbit 8 b i); [done|done|lia| |lia].
    by apply wrap_range. }
  assert (bs <> []) by (by intros ->). destruct (_ =? 0).
  - apply total_ret. by rewrite app_nil_r.
  - eapply total_mono; [apply IH; [rewrite length_app in Hf; lia|done]|].
    intros z bs' [Hz' _]. split; [done|]. by destruct bs.
Qed.

(** The payload is at least two bytes shorter than what was read. *)
Lemma total_parse pre post : total DescriptorHeader.parse pre post (eq UnexpectedEof) (fun p bs =>
  (length p.2 + 2 <= length bs)%nat /\ tag_wf (DescriptorHeader.tag p.1)).
Proof.
  unfold DescriptorHeader.parse. eapply total_parse_bind; [apply total_uint|].
  intros tag bs1 post1 -> [H1 Htag].
  eapply (total_parse_bind _ _ _ _ _ (fun c bs => bs = [] /\ c = at_pos (pre ++ bs1) post1));
    [by exists [], post1; rewrite app_nil_r|].
  intros c bs2 post2 -> [-> ->]. rewrite cursor_rest_at.
  eapply total_parse_bind; [apply total_read_size; [simpl; lia|done]|]. intros size bs3 post3 -> [[Hs _] H2].
  eapply total_parse_bind; [by apply total_extract|]. intros data bs4 post4 -> [-> _].
  apply total_ret. simpl. split; [|by apply tag_from_wf].
  assert (length bs3 <> 0%nat) by (by intros ?%nil_length_inv). rewrite !length_app, H1. simpl. lia.
Qed.

Lemma spec_parse n : spec_in n False DescriptorHeader.parse
  (fun p => (length p.2 + 2 <= n)%nat /\ 8 * blen p.2 < 2 ^ 62 /\ tag_wf (DescriptorHeader.tag p.1)).
Proof.
  intros c Hc Hn. destruct (Flv.buffered_at c Hc) as (pre & post & -> & Hl). rewrite cursor_rest_at in *.
  pose proof (total_parse pre post) as Ht. unfold total in Ht.
  destruct (DescriptorHeader.parse _) as [[p|e| |] c']; try done; [|by left].
  destruct Ht as (bs & post' & -> & -> & Hlen & Htag). rewrite !cursor_rest_at, !length_app in *.
  split; [apply Flv.buffered_at_pos; by rewrite <-(assoc_L (++))|]. split; [lia|]. split; [lia|].
  split; [|done]. unfold blen in *. rewrite !length_app in Hl. lia.
Qed.

Lemma advances_parse : advances 1 DescriptorHeader.parse.
Proof. eapply advances_total; [apply total_parse|]. intros p bs [Hl _]. lia. Qed.
End headers.

(** ** Descriptors *)

Module DescriptorLaws.
Import TotalParse.
Import DynDescriptor(Es, DecoderConfig, DecoderSpecificInfo, SLConfig, Unknown).
Abbreviation D := DynDescriptor.t.

(** What holds of every descriptor that [demux] returns. *)
Definition info_wf (d : DecoderSpecificInfoDescriptor.t) : Prop :=
  DecoderSpecificInfoDescriptor.header d = DescriptorHeader.new DecoderSpecificInfoDescriptor.TAG.

Definition sl_wf (d : SLConfigDescriptor.t) : Prop :=
  SLConfigDescriptor.header d = DescriptorHeader.new SLConfigDescriptor.TAG /\
  fits 8 (SLConfigDescriptor.predefined d).

Definition config_other (d : D) : Prop := match d with DecoderSpecificInfo _ => False | _ => True end.
Definition es_other (d : D) : Prop := match d with DecoderConfig _ | SLConfig _ => False | _ => True end.

Definition config_wf (dwf : D -> Prop) (d : DecoderConfigDescriptor.t D) : Prop :=
  DecoderConfigDescriptor.header d = DescriptorHeader.new DecoderConfigDescriptor.TAG /\
  fits 8 (DecoderConfigDescriptor.object_type_indication d) /\
  fits 6 (DecoderConfigDescriptor.stream_type d) /\
  fits 1 (DecoderConfigDescriptor.reserved d) /\
  fits 24 (DecoderConfigDescriptor.buffer_size_db d) /\
  fits 32 (DecoderConfigDescriptor.max_bitrate d) /\
  fits 32 (DecoderConfigDescriptor.avg_bitrate d) /\
  opt_all info_wf (DecoderConfigDescriptor.decoder_specific_info d) /\
  all (fun x => dwf x /\ config_other x) (DecoderConfigDescriptor.unknown d).

Definition es_wf (dwf : D -> Prop) (d : EsDescriptor.t D) : Prop :=
  EsDescriptor.header d = DescriptorHeader.new EsDescriptor.TAG /\
  fits 16 (EsDescriptor.es_id d) /\
  fits 5 (EsDescriptor.stream_priority d) /\
  opt_all (fits 16) (EsDescriptor.depends_on_es_id d) /\
  opt_all (fits 16) (EsDescriptor.ocr_es_id d) /\
  opt_all (config_wf dwf) (EsDescriptor.decoder_config d) /\
  opt_all sl_wf (EsDescriptor.sl_config d) /\
  all (fun x => dwf x /\ es_other x) (EsDescriptor.unknown d).

Fixpoint wf (d : D) : Prop :=
  match d with
  | Es desc => es_wf wf desc
  | DecoderConfig desc => config_wf wf desc
  | DecoderSpecificInfo desc => info_wf desc
  | SLConfig desc => sl_wf desc
  | Unknown header _ =>
      tag_wf (DescriptorHeader.tag header) /\
      match DescriptorHeader.tag header with DescriptorTag.Unknown _ => True | _ => False end
  end.

(** The descriptors whose size takes one byte, with ASCII names: [mux] writes
    longer sizes least significant group first, [demux] reads them most
    significant first. *)
Definition ascii (s : list byte) : Prop := Forall (fun b => b2z b < 128) s.

Section fair.
Context `{BO : ByteOrder}.

Definition info_fair (d : DecoderSpecificInfoDescriptor.t) : Prop :=
  DecoderSpecificInfoDescriptor.primitive_size d < 128.
Definition sl_fair (d : SLConfigDescriptor.t) : Prop := SLConfigDescriptor.primitive_size d < 128.

Definition config_fair (dfair : D -> Prop) (d : DecoderConfigDescriptor.t D) : Prop :=
  DecoderConfigDescriptor.primitive_size DynDescriptor.size d < 128 /\
  opt_all info_fair (DecoderConfigDescriptor.decoder_specific_info d) /\
  all dfair (DecoderConfigDescriptor.unknown d).

Definition es_fair (dfair : D -> Prop) (d : EsDescriptor.t D) : Prop :=
  EsDescriptor.primitive_size DynDescriptor.size d < 128 /\
  opt_all (fun url => ascii url /\ blen url < 256) (EsDescriptor.url d) /\
  opt_all (config_fair dfair) (EsDescriptor.decoder_config d) /\
  opt_all sl_fair (EsDescriptor.sl_config d) /\
  all dfair (EsDescriptor.unknown d).

Fixpoint fair (d : D) : Prop :=
  match d with
  | Es desc => es_fair fair desc
  | DecoderConfig desc => config_fair fair desc
  | DecoderSpecificInfo desc => info_fair desc
  | SLConfig desc => sl_fair desc
  | Unknown _ data => blen data < 128
  end.
End fair.

(** The number of descriptors inside one, itself included. *)
Definition config_rank (drank : D -> nat) (d : DecoderConfigDescriptor.t D) : nat :=
  S (1 + rank_of drank (DecoderConfigDescriptor.unknown d)).
Definition es_rank (drank : D -> nat) (d : EsDescriptor.t D) : nat :=
  S (1 + opt_rank (config_rank drank) (EsDescriptor.decoder_config d) + rank_of drank (EsDescriptor.unknown d)).

Fixpoint rank (d : D) : nat :=
  match d with
  | Es desc => es_rank rank desc
  | DecoderConfig desc => config_rank rank desc
  | _ => 1
  end.

(** *** Round trip *)

Section roundtrip.
Context `{BO : ByteOrder}.

Definition bytes (d : D) : list byte := output (DynDescriptor.mux (list byte) _ d).

(** [d] is read back from what it writes. *)
Definition good (d : D) : Prop :=
  (forall W (HW : IoWrite W) (HL : IoWriteLaws W), puts (DynDescriptor.mux W HW d) (bytes d)) /\
  blen (bytes d) = DynDescriptor.size d /\ bytes d <> [] /\
  forall fuel, (length (bytes d) <= fuel)%nat ->
    takes_on (fun _ => True) (DynDescriptor.demux_fuel fuel) (bytes d) d.

Lemma good_frame d tag data : tag_wf tag -> blen data < 128 ->
  DynDescriptor.size d = desc_size (blen data) ->
  (forall W (HW : IoWrite W) (HL : IoWriteLaws W), puts (DynDescriptor.mux W HW d) (desc_frame tag data)) ->
  (forall fuel, (length data <= fuel)%nat -> forall pre post,
    DynDescriptor.demux_data (DynDescriptor.demux_fuel fuel) (DescriptorHeader.mk tag) data (at_pos pre post) =
      (Ok d, at_pos pre post)) ->
  good d.
Proof.
  intros Ht Hl Hs Hp Hd. assert (bytes d = desc_frame tag data) as E by exact (puts_output _ _ (Hp _ _ _)).
  unfold good. rewrite E. split; [done|]. split; [by rewrite Hs, blen_desc_frame|]. split; [done|].
  intros [|fuel] Hf; [simpl in Hf; lia|]. cbn [DynDescriptor.demux_fuel].
  eapply takes_last; [by apply takes_parse|].
  intros pre post _. cbv iota beta. rewrite app_nil_r. apply Hd. simpl in Hf. lia.
Qed.

Lemma good_info d : info_wf d -> info_fair d -> good (DecoderSpecificInfo d).
Proof.
  destruct d as [h data]. unfold info_wf, info_fair. simpl. intros -> Hl.
  apply (good_frame _ DescriptorTag.DecSpecificInfoTag data); try done.
  intros W HW HL. simpl. unfold DecoderSpecificInfoDescriptor.mux. apply puts_desc_frame; [done|done|].
  eapply puts_eq; [apply app_nil_r|]. unfold DecoderSpecificInfoDescriptor.primitive_mux. repeat pstep.
Qed.

Lemma good_sl d : sl_wf d -> sl_fair d -> good (SLConfig d).
Proof.
  destruct d as [h z data]. unfold sl_wf, sl_fair, SLConfigDescriptor.primitive_size. simpl. intros [-> Hz] Hl.
  assert (blen (be_bytes 1 z ++ data) = 1 + blen data) as E by (autorewrite with scuffle; lia).
  apply (good_frame _ DescriptorTag.SLConfigDescrTag (be_bytes 1 z ++ data)); rewrite ?E; try done.
  - intros W HW HL. cbn [DynDescriptor.mux]. unfold SLConfigDescriptor.mux.
    change (SLConfigDescriptor.primitive_size _) with (1 + blen data). rewrite <-E.
    apply puts_desc_frame; [done|by rewrite E|].
    eapply puts_eq; [|unfold SLConfigDescriptor.primitive_mux; repeat pstep].
    by rewrite app_nil_r.
  - intros fuel _ pre post. unfold DynDescriptor.demux_data. simpl. unfold bind, lift, ret. 
    do 4 f_equal. rewrite b2z_z2b. by apply Z.mod_small.
Qed.

Lemma good_unknown h data : wf (Unknown h data) -> blen data < 128 -> good (Unknown h data).
Proof.
  destruct h as [tag]. simpl. intros [Ht Hu] Hl.
  apply (good_frame _ tag data); try done.
  - cbn [DynDescriptor.size]. unfold desc_size. lia.
  - intros W HW HL. apply (puts_desc_frame tag (write_all data) data); [apply Ht|done|pstep].
  - intros fuel _ pre post. unfold DynDescriptor.demux_data. simpl. by destruct tag.
Qed.

(** A descriptor with children, read in the order they are written. *)
Lemma takes_next {S} (update : S -> D -> S) ds s fuel :
  (forall d, d ∈ ds -> good d) -> (length (ds ≫= bytes) <= fuel)%nat ->
  takes_on (fun post => post = []) (loop_remaining (DynDescriptor.next (DynDescriptor.demux_fuel fuel) update) s)
    (ds ≫= bytes) (fold_left update ds s).
Proof.
  intros Hg Hf. apply takes_children. intros d Hd. destruct (Hg d Hd) as (_ & _ & Hne & Ht).
  split; [done|]. apply Ht. etransitivity; [|exact Hf].
  apply list_elem_of_split in Hd as (l & r & ->). rewrite bind_app. simpl. rewrite !length_app. lia.
Qed.

Lemma puts_good {W} `{HL : IoWriteLaws W} ds : (forall d, d ∈ ds -> good d) ->
  puts (for_each ds (DynDescriptor.mux W _)) (ds ≫= bytes).
Proof. intros Hg. apply puts_each. intros d Hd. by apply Hg. Qed.

Lemma puts_good_opt {W} `{HL : IoWriteLaws W} {A} (C : A -> D) o : (forall d, d ∈ C <$> option_list o -> good d) ->
  puts (if_some o (fun a => DynDescriptor.mux W _ (C a))) ((C <$> option_list o) ≫= bytes).
Proof.
  destruct o as [a|]; simpl; [|intros _; pstep]. intros Hg. rewrite app_nil_r. apply Hg. by left.
Qed.

Lemma blen_good ds : (forall d, d ∈ ds -> good d) -> blen (ds ≫= bytes) = sum_of DynDescriptor.size ds.
Proof. intros Hg. apply blen_sum. intros d Hd. by apply Hg. Qed.

Definition config_children (d : DecoderConfigDescriptor.t D) : list D :=
  (DecoderSpecificInfo <$> option_list (DecoderConfigDescriptor.decoder_specific_info d)) ++
  DecoderConfigDescriptor.unknown d.

Definition config_byte (d : DecoderConfigDescriptor.t D) : Z :=
  Z.lor (Z.lor (wrap 8 (Z.shiftl (DecoderConfigDescriptor.stream_type d) 2))
    (Z.shiftl (Z.b2z (DecoderConfigDescriptor.up_stream d)) 1)) (DecoderConfigDescriptor.reserved d).

Lemma config_byte_bits d : config_wf wf d ->
  fits 8 (config_byte d) /\ Z.shiftr (config_byte d) 2 = DecoderConfigDescriptor.stream_type d /\
  negb (Z.land (config_byte d) 2 =? 0) = DecoderConfigDescriptor.up_stream d /\
  Z.land (config_byte d) 1 = DecoderConfigDescriptor.reserved d.
Proof.
  intros (_ & _ & Hst & Hr & _). unfold config_byte.
  destruct d as [h oti st up r bs mb ab i u]. simpl in *. clear h oti bs mb ab i u.
  pose proof (Flv.all_bytes (fun b => let st := b / 4 in let r := b `mod` 2 in
    forallb (fun up => let e := Z.lor (Z.lor (wrap 8 (Z.shiftl st 2)) (Z.shiftl (Z.b2z up) 1)) r in
      (0 <=? e) && (e <? 256) && (Z.shiftr e 2 =? st) && (Bool.eqb (negb (Z.land e 2 =? 0)) up) && (Z.land e 1 =? r))
      [false; true]) ltac:(by vm_compute) (4 * st + r) ltac:(unfold fits in *; lia)) as E.
  cbv beta zeta in E. rewrite forallb_forall in E. specialize (E up ltac:(destruct up; simpl; tauto)).
  replace ((4 * st + r) / 4) with st in E by (unfold fits in *; Z.to_euclidean_division_equations; lia).
  replace ((4 * st + r) `mod` 2) with r in E by (unfold fits in *; Z.to_euclidean_division_equations; lia).
  rewrite !andb_true_iff, !Z.eqb_eq, Z.leb_le, Z.ltb_lt, eqb_true_iff in E. unfold fits. tauto.
Qed.

Definition config_data (d : DecoderConfigDescriptor.t D) : list byte :=
  be_bytes 1 (DecoderConfigDescriptor.object_type_indication d) ++ be_bytes 1 (config_byte d) ++
  be_bytes 3 (DecoderConfigDescriptor.buffer_size_db d) ++ be_bytes 4 (DecoderConfigDescriptor.max_bitrate d) ++
  be_bytes 4 (DecoderConfigDescriptor.avg_bitrate d) ++ (config_children d ≫= bytes).

Lemma fold_config us i acc : all (fun x => wf x /\ config_other x) us ->
  fold_left DynDescriptor.take_config us (i, acc) = (i, acc ++ us).
Proof.
  revert acc. induction us as [|u us IH]; intros acc; simpl; [by rewrite app_nil_r|].
  intros [[_ Ho] Hu]. destruct u; try done; by rewrite IH, <-(assoc_L (++)).
Qed.

Lemma good_config d : config_wf wf d -> config_fair fair d ->
  (forall x, x ∈ config_children d -> good x) -> good (DecoderConfig d).
Proof.
  intros Hwf [Hs _] Hg. destruct (config_byte_bits d Hwf) as (Hb & Hst & Hup & Hr).
  destruct Hwf as (Hh & Hoti & _ & _ & Hbs & Hmb & Hab & _ & Hu).
  assert (blen (config_data d) = DecoderConfigDescriptor.primitive_size DynDescriptor.size d) as E.
  { unfold config_data. autorewrite with scuffle. rewrite blen_good by done.
    unfold DecoderConfigDescriptor.primitive_size, config_children, sum_of. rewrite foldr_app.
    destruct (DecoderConfigDescriptor.decoder_specific_info d); simpl; lia. }
  apply (good_frame _ DescriptorTag.DecoderConfigDescrTag (config_data d)); rewrite ?E; try done.
  - intros W HW HL. cbn [DynDescriptor.mux]. unfold DecoderConfigDescriptor.mux. rewrite <-E.
    apply puts_desc_frame; [done|by rewrite E|]. unfold DecoderConfigDescriptor.primitive_mux.
    fold (config_byte d). eapply puts_eq; [|repeat (first [apply puts_good|apply (puts_good_opt DecoderSpecificInfo)|pstep])].
    + unfold config_data, config_children. by rewrite bind_app, app_nil_r.
    + intros x Hx. apply Hg. apply elem_of_app. by left.
    + intros x Hx. apply Hg. apply elem_of_app. by right.
  - intros fuel Hf pre post. unfold DynDescriptor.demux_data. simpl.
    assert (DynDescriptor.demux_config (DynDescriptor.demux_fuel fuel)
      (DescriptorHeader.mk DescriptorTag.DecoderConfigDescrTag) (config_data d) = Ok d) as ->; [|done].
    change (DescriptorHeader.mk _) with (DescriptorHeader.new DecoderConfigDescriptor.TAG). rewrite <-Hh.
    apply (over_takes (fun post => post = [])); [|done]. unfold config_data. do 5 tstep.
    eapply takes_last; [apply takes_next; [done|]|].
    + unfold config_data in Hf. rewrite !length_app in Hf. lia.
    + unfold config_children. rewrite fold_left_app. rewrite Hst, Hup, Hr.
      destruct d as [h oti st up r bs mb ab i u]; simpl in *.
      destruct i; simpl; rewrite fold_config by done; apply takes_ret.
Qed.

(** *** [EsDescriptor] *)

Lemma chars_ascii s : ascii s -> chars s = b2z <$> s.
Proof.
  induction 1 as [|b s Hb Hs IH]; [done|]. simpl. rewrite (proj2 (Z.ltb_lt _ _)) by done. by rewrite IH.
Qed.

Lemma push_ascii_all s acc : ascii s -> fold_left push_char (b2z <$> s) acc = acc ++ s.
Proof.
  intros Hs. revert acc. induction Hs as [|b s Hb Hs IH]; intros acc; simpl; [by rewrite app_nil_r|].
  pose proof (b2z_fits b) as Hf. rewrite IH, push_ascii by (unfold fits in Hf; lia).
  by rewrite z2b_b2z, <-(assoc_L (++)).
Qed.

Definition url_data (url : list byte) : list byte := be_bytes 1 (wrap 8 (blen url)) ++ (chars url ≫= fun c => be_bytes 1 (wrap 8 c)).

Lemma blen_url url : ascii url -> blen (url_data url) = 1 + blen url.
Proof.
  intros Hu. unfold url_data. rewrite chars_ascii, blen_app by done.
  rewrite (blen_each 1) by (intros; by autorewrite with scuffle). autorewrite with scuffle.
  unfold blen. rewrite length_fmap. lia.
Qed.

Lemma takes_url P url : ascii url -> blen url < 256 -> takes_on P DynDescriptor.read_url (url_data url) url.
Proof.
  intros Hu Hl. pose proof (blen_nonneg url). unfold DynDescriptor.read_url, url_data.
  rewrite wrap_fits_id by (unfold fits; lia). rewrite chars_ascii by done. tstep.
  eapply takes_last.
  - apply takes_times; [unfold blen; rewrite length_fmap; lia|]. intros z (b & -> & _)%list_elem_of_fmap.
    rewrite wrap_fits_id by apply b2z_fits. apply takes_uint, b2z_fits.
  - by rewrite push_ascii_all; [apply takes_ret|].
Qed.

Lemma flag_byte_bits d : fits 5 (EsDescriptor.stream_priority d) -> let b := EsDescriptor.flag_byte (D := D) d in
  fits 8 b /\ Z.land b 31 = EsDescriptor.stream_priority d /\
  negb (Z.land b 128 =? 0) = is_some (EsDescriptor.depends_on_es_id d) /\
  negb (Z.land b 64 =? 0) = is_some (EsDescriptor.url d) /\
  negb (Z.land b 32 =? 0) = is_some (EsDescriptor.ocr_es_id d).
Proof.
  unfold EsDescriptor.flag_byte. destruct d as [h id sp dep url ocr dc sl us]. simpl. intros Hs.
  pose proof (Flv.all_bytes (fun sp => (32 <=? sp) || forallb (fun '(x, y, z) =>
    let flag := Z.land sp 31 in
    let flag := if (x : bool) then Z.lor flag 128 else flag in
    let flag := if (y : bool) then Z.lor flag 64 else flag in
    let flag := if (z : bool) then Z.lor flag 32 else flag in
    (0 <=? flag) && (flag <? 256) && (Z.land flag 31 =? sp) && Bool.eqb (negb (Z.land flag 128 =? 0)) x &&
    Bool.eqb (negb (Z.land flag 64 =? 0)) y && Bool.eqb (negb (Z.land flag 32 =? 0)) z)
    (list_prod (list_prod [false; true] [false; true]) [false; true]))
    ltac:(by vm_compute) sp ltac:(unfold fits in *; lia)) as E.
  cbv beta in E. rewrite (proj2 (Z.leb_gt _ _)), orb_false_l, forallb_forall in E by (unfold fits in *; lia).
  specialize (E (is_some dep, is_some url, is_some ocr) ltac:(destruct dep, url, ocr; simpl; tauto)).
  cbv beta iota zeta in E.
  rewrite !andb_true_iff, !Z.eqb_eq, Z.leb_le, Z.ltb_lt, !eqb_true_iff in E. unfold fits. tauto.
Qed.

Definition es_children (d : EsDescriptor.t D) : list D :=
  (DecoderConfig <$> option_list (EsDescriptor.decoder_config d)) ++
  (SLConfig <$> option_list (EsDescriptor.sl_config d)) ++ EsDescriptor.unknown d.

Definition es_data (d : EsDescriptor.t D) : list byte :=
  be_bytes 2 (EsDescriptor.es_id d) ++ be_bytes 1 (EsDescriptor.flag_byte d) ++
  opt_bytes (be_bytes 2) (EsDescriptor.depends_on_es_id d) ++ opt_bytes url_data (EsDescriptor.url d) ++
  opt_bytes (be_bytes 2) (EsDescriptor.ocr_es_id d) ++ (es_children d ≫= bytes).

Lemma fold_es us s acc : all (fun x => wf x /\ es_other x) us ->
  fold_left DynDescriptor.take_es us (s, acc) = (s, acc ++ us).
Proof.
  revert acc. induction us as [|u us IH]; intros acc; simpl; [by rewrite app_nil_r|].
  intros [[_ Ho] Hu]. destruct s, u; try done; by rewrite IH, <-(assoc_L (++)).
Qed.

Lemma blen_es_data d : es_fair fair d -> (forall x, x ∈ es_children d -> good x) ->
  blen (es_data d) = EsDescriptor.primitive_size DynDescriptor.size d.
Proof.
  intros (_ & Hu & _) Hg. unfold es_data. autorewrite with scuffle. rewrite blen_good by done.
  unfold EsDescriptor.primitive_size, es_children, sum_of. rewrite !foldr_app.
  destruct d as [h id sp dep [url|] ocr dc sl us]; simpl in *; [rewrite blen_url by apply Hu|];
    destruct dep, ocr, dc, sl; simpl; autorewrite with scuffle; simpl; lia.
Qed.

Lemma puts_opt_u16 {W} `{HL : IoWriteLaws W} o : opt_all (fits 16) o ->
  puts (if_some o write_u16) (opt_bytes (be_bytes 2) o).
Proof. intros Ho. apply puts_opt. intros a ->. by apply puts_uint. Qed.

Lemma takes_opt_u16 P o : opt_all (fits 16) o -> takes_on P (read_if (is_some o) read_u16) (opt_bytes (be_bytes 2) o) o.
Proof. intros Ho. apply takes_opt; [done|]. intros a ->. by apply takes_uint. Qed.

Lemma puts_opt_url {W} `{HL : IoWriteLaws W} o :
  puts (if_some o (fun url => write_u8 (wrap 8 (blen url)) ;;;
    for_each (chars url) (fun c => write_u8 (wrap 8 c)))) (opt_bytes url_data o).
Proof. apply puts_opt. intros url _. unfold url_data. repeat pstep. Qed.

Lemma es_data_puts d W (HW : IoWrite W) (HL : IoWriteLaws W) : es_wf wf d -> (forall x, x ∈ es_children d -> good x) ->
  puts (EsDescriptor.primitive_mux DynDescriptor.size DynDescriptor.mux W d) (es_data d).
Proof.
  intros (Hh & Hid & Hsp & Hdep & Hocr & _) Hg. destruct (flag_byte_bits d Hsp) as (Hb & _).
  unfold es_children in Hg. eapply puts_eq;
    [|unfold EsDescriptor.primitive_mux; repeat (first [ by apply puts_opt_u16 | by apply puts_opt_url | apply puts_good
      | apply (puts_good_opt DecoderConfig) | apply (puts_good_opt SLConfig) | pstep ])].
  - unfold es_data, es_children. by rewrite !bind_app, app_nil_r.
  - intros x Hx. apply Hg. rewrite !elem_of_app. tauto.
  - intros x Hx. apply Hg. rewrite !elem_of_app. tauto.
  - intros x Hx. apply Hg. rewrite !elem_of_app. tauto.
Qed.

Lemma good_es d : es_wf wf d -> es_fair fair d -> (forall x, x ∈ es_children d -> good x) -> good (Es d).
Proof.
  intros Hwf Hfair Hg. pose proof (blen_es_data d Hfair Hg) as E.
  assert (blen (es_data d) < 128) by (rewrite E; apply Hfair).
  apply (good_frame _ DescriptorTag.ESDescrTag (es_data d)); [done|done|by rewrite E| |].
  - intros W HW HL. cbn [DynDescriptor.mux]. unfold EsDescriptor.mux. rewrite <-E.
    apply puts_desc_frame; [done|done|by apply es_data_puts].
  - intros fuel Hf pre post. unfold DynDescriptor.demux_data. simpl.
    assert (DynDescriptor.demux_es (DynDescriptor.demux_fuel fuel)
      (DescriptorHeader.mk DescriptorTag.ESDescrTag) (es_data d) = Ok d) as ->; [|done].
    destruct Hwf as (Hh & Hid & Hsp & Hdep & Hocr & _ & _ & Hu), Hfair as (_ & Hurl & _).
    destruct (flag_byte_bits d Hsp) as (Hb & Hp & Hd & Hul & Ho).
    change (DescriptorHeader.mk _) with (DescriptorHeader.new EsDescriptor.TAG). rewrite <-Hh.
    apply (over_takes (fun post => post = [])); [|done]. unfold es_data. do 2 tstep. rewrite Hp, Hd, Hul, Ho.
    eapply takes_bind; [by apply takes_opt_u16|].
    eapply takes_bind; [apply (takes_opt _ _ _ url_data); [done|]|].
    { intros url Hx. rewrite Hx in Hurl. destruct Hurl. by apply takes_url. }
    eapply takes_bind; [by apply takes_opt_u16|].
    eapply takes_last; [apply takes_next; [done|]|].
    + unfold es_data in Hf. rewrite !length_app in Hf. lia.
    + unfold es_children. rewrite !fold_left_app. destruct d as [h id sp dep url ocr dc sl us]; simpl in *.
      destruct dc, sl; simpl; rewrite fold_es by done; apply takes_ret.
Qed.

(** Every well-formed descriptor of short sizes is read back. *)
Lemma good_dyn n d : (rank d < n)%nat -> wf d -> fair d -> good d.
Proof.
  revert d. induction n as [|n IH]; intros d Hn Hwf Hfair; [lia|].
  destruct d as [d|d|d|d|h data]; simpl in *.
  - apply good_es; [done|done|].
    destruct Hwf as (_ & _ & _ & _ & _ & Hdc & Hsl & Hu), Hfair as (_ & _ & Fdc & Fsl & Fu).
    intros x. unfold es_children. rewrite !elem_of_app, !list_elem_of_fmap.
    unfold es_rank in Hn. intros [(c & -> & Hc)|[(c & -> & Hc)|Hx]].
    + destruct (EsDescriptor.decoder_config d) as [c'|]; [|by inversion Hc]. apply list_elem_of_singleton in Hc as ->.
      simpl in *. apply IH; [simpl; unfold config_rank; lia|done|done].
    + destruct (EsDescriptor.sl_config d) as [c'|]; [|by inversion Hc]. apply list_elem_of_singleton in Hc as ->.
      apply IH; [simpl; lia|done|done].
    + pose proof (rank_elem rank _ _ Hx). rewrite all_elem in Hu, Fu. apply IH; [lia| |by apply Fu]. by apply Hu.
  - apply good_config; [done|done|].
    destruct Hwf as (_ & _ & _ & _ & _ & _ & _ & Hi & Hu), Hfair as (_ & Fi & Fu).
    intros x. unfold config_children. rewrite !elem_of_app, !list_elem_of_fmap.
    unfold config_rank in Hn. intros [(c & -> & Hc)|Hx].
    + destruct (DecoderConfigDescriptor.decoder_specific_info d) as [c'|]; [|by inversion Hc].
      apply list_elem_of_singleton in Hc as ->. apply IH; [simpl; lia|done|done].
    + pose proof (rank_elem rank _ _ Hx). rewrite all_elem in Hu, Fu. apply IH; [lia| |by apply Fu]. by apply Hu.
  - by apply good_info.
  - by apply good_sl.
  - by apply good_unknown.
Qed.
End roundtrip.

(** *** Arbitrary bytes *)

Section outcomes.
Context `{BO : ByteOrder}.

Lemma advances_dyn fuel : advances 1 (DynDescriptor.demux_fuel fuel).
Proof.
  destruct fuel as [|fuel]; [by intros c Hc|]. cbn [DynDescriptor.demux_fuel].
  apply (advancing_bind 1 0); [apply advances_parse|]. intros [h data]. unfold DynDescriptor.demux_data.
  destruct (DescriptorHeader.tag h); try apply advancing_ret;
    (apply (advancing_bind 0 0); [apply advances_lift|intros; apply advancing_ret]).
Qed.

(** The loop over the children, given what each child is. *)
Lemma spec_next {S} n (ddemux : M Cursor ErrorKind D) (update : S -> D -> S) (I : S -> Prop) s :
  spec_in n False ddemux wf -> advances 1 ddemux -> I s -> (forall s d, I s -> wf d -> I (update s d)) ->
  spec_in n False (loop_remaining (DynDescriptor.next ddemux update) s) I.
Proof.
  intros Hd Ha HI Hu. apply spec_in_loop; [done| |].
  - intros s' Hs'. eapply spec_in_bind; [done|]. intros d Hw. apply spec_in_ret. auto.
  - intros s'. apply (advancing_bind 1 0); [done|]. intros d. apply advancing_ret.
Qed.

Lemma spec_in_uint pan n k :
  spec_in n pan (read_uint (T := Cursor) BigEndian k) (fun z => 0 <= z < 256 ^ Z.of_nat k).
Proof.
  apply spec_in_of; [apply spec_uint|]. eapply advances_mono; [|apply advances_uint]. lia.
Qed.

Ltac uint_step := eapply spec_in_bind; [apply spec_in_uint|let E := fresh "E" in intros ? E; cbv beta zeta].

Lemma spec_in_opt_u16 n b : spec_in n False (read_if b read_u16) (opt_all (fits 16)).
Proof.
  unfold read_if. destruct b; [|by apply spec_in_ret]. uint_step. by apply spec_in_ret.
Qed.

Lemma spec_in_times {A} pan n k (m : M Cursor ErrorKind A) (Q : A -> Prop) :
  spec_in n pan m Q -> spec_in n pan (read_times k m) (fun _ => True).
Proof.
  intros Hm. induction k as [|k IH]; simpl; [by apply spec_in_ret|]. eapply spec_in_bind; [done|].
  intros a _. eapply spec_in_bind; [done|]. intros xs _. by apply spec_in_ret.
Qed.

Lemma spec_in_url n b : spec_in n False (read_if b DynDescriptor.read_url) (fun _ => True).
Proof.
  unfold read_if, DynDescriptor.read_url. destruct b; [|by apply spec_in_ret].
  eapply (spec_in_bind _ _ _ (fun _ => True)); [|intros; by apply spec_in_ret]. uint_step.
  eapply spec_in_bind; [eapply spec_in_times, spec_in_uint|]. intros cs _. by apply spec_in_ret.
Qed.

Lemma take_config_wf s d :
  opt_all info_wf s.1 /\ all (fun x => wf x /\ config_other x) s.2 -> wf d ->
  let s' := DynDescriptor.take_config s d in
  opt_all info_wf s'.1 /\ all (fun x => wf x /\ config_other x) s'.2.
Proof.
  destruct s as [i us]. rewrite !all_elem. simpl. intros [Hi Hu] Hd.
  destruct d; simpl; rewrite all_elem; (split; [done|]); try done; intros x;
    rewrite elem_of_app, list_elem_of_singleton; (intros [Hx| ->]; [by apply Hu|by split]).
Qed.

Lemma take_es_wf s d :
  (opt_all (config_wf wf) s.1.1 /\ opt_all sl_wf s.1.2) /\ all (fun x => wf x /\ es_other x) s.2 -> wf d ->
  let s' := DynDescriptor.take_es s d in
  (opt_all (config_wf wf) s'.1.1 /\ opt_all sl_wf s'.1.2) /\ all (fun x => wf x /\ es_other x) s'.2.
Proof.
  destruct s as [[c l] us]. rewrite !all_elem. simpl. intros [[Hc Hl] Hu] Hd.
  destruct d; simpl; rewrite all_elem; (split; [by split|]); try done; intros x;
    rewrite elem_of_app, list_elem_of_singleton; (intros [Hx| ->]; [by apply Hu|by split]).
Qed.

Lemma byte_shiftr z : fits 8 z -> fits 6 (Z.shiftr z 2).
Proof.
  unfold fits. intros Hz. rewrite Z.shiftr_div_pow2 by lia. Z.to_euclidean_division_equations. lia.
Qed.

Lemma fits_land w z : 0 <= w -> fits w (Z.land z (Z.ones w)).
Proof. intros Hw. rewrite Z.land_ones by done. by apply wrap_range. Qed.

Lemma config_outcome ddemux data : 8 * blen data < 2 ^ 62 ->
  spec_in (length data) False ddemux wf -> advances 1 ddemux ->
  outcome False (DynDescriptor.demux_config ddemux (DescriptorHeader.new DecoderConfigDescriptor.TAG) data)
    (config_wf wf).
Proof.
  intros Hl Hd Ha. apply spec_in_over; [done|]. do 5 uint_step.
  eapply spec_in_bind; [eapply (spec_next _ _ _ (fun s =>
    opt_all info_wf s.1 /\ all (fun x => wf x /\ config_other x) s.2)); [done|done|done|apply take_config_wf]|].
  intros [i us] [Hi Hu]. apply spec_in_ret. unfold config_wf. simpl in *.
  split_and!; try done; [by apply byte_shiftr|by apply (fits_land 1)].
Qed.

Lemma es_outcome ddemux data : 8 * blen data < 2 ^ 62 ->
  spec_in (length data) False ddemux wf -> advances 1 ddemux ->
  outcome False (DynDescriptor.demux_es ddemux (DescriptorHeader.new EsDescriptor.TAG) data) (es_wf wf).
Proof.
  intros Hl Hd Ha. apply spec_in_over; [done|]. do 2 uint_step.
  eapply spec_in_bind; [apply spec_in_opt_u16|]. intros dep Hdep.
  eapply spec_in_bind; [apply spec_in_url|]. intros url _.
  eapply spec_in_bind; [apply spec_in_opt_u16|]. intros ocr Hocr.
  eapply spec_in_bind; [eapply (spec_next _ _ _ (fun s => (opt_all (config_wf wf) s.1.1 /\ opt_all sl_wf s.1.2) /\
    all (fun x => wf x /\ es_other x) s.2)); [done|done|done|apply take_es_wf]|].
  intros [[dc sl] us] [[Hdc Hsl] Hu]. apply spec_in_ret. unfold es_wf. simpl in *.
  split_and!; try done. by apply (fits_land 5).
Qed.

(** On any bytes, [DynDescriptor::demux] returns a well-formed descriptor or a
    parse error: the bytes left are fuel enough. *)
Lemma dyn_descriptor_spec n : spec_in n False (DynDescriptor.demux_fuel (S n)) wf.
Proof.
  induction n as [n IH] using lt_wf_ind. cbn [DynDescriptor.demux_fuel].
  eapply spec_in_bind; [apply spec_parse|]. intros [[tag] data] (Hn & Hl & Ht). simpl in *.
  destruct n as [|n]; [lia|]. specialize (IH n ltac:(lia)).
  apply (spec_in_mono n (length data)) in IH; [|lia].
  pose proof (advances_dyn (S n)) as Ha. unfold DynDescriptor.demux_data. simpl.
  destruct tag; try (eapply spec_in_bind; [apply spec_in_lift|intros d Hd; by apply spec_in_ret]).
  - by apply es_outcome.
  - by apply config_outcome.
  - done.
  - destruct data as [|b data]; [by right|]. split; [done|apply b2z_fits].
  - by apply spec_in_ret.
Qed.
End outcomes.
End DescriptorLaws.

(** ** The box *)

Module EsdsLaws.
Import TotalParse DescriptorLaws.

Section laws.
Context `{BO : ByteOrder}.

Definition esds_other (d : DynDescriptor.t) : Prop := match d with DynDescriptor.Es _ => False | _ => True end.

Definition esds_wf (b : Esds.t) : Prop :=
  FullBoxHeader.wf Esds.NAME (Esds.header b) /\ es_wf wf (Esds.es_descriptor b) /\
  all (fun x => wf x /\ esds_other x) (Esds.unknown b).

Definition esds_fair (b : Esds.t) : Prop := es_fair fair (Esds.es_descriptor b) /\ Esds.unknown b = [].

Lemma spec_demux n : spec_in n False DynDescriptor.demux wf.
Proof.
  intros c Hc Hn. unfold DynDescriptor.demux. erewrite bind_ok; [|done]. by apply dyn_descriptor_spec.
Qed.

Lemma takes_demux P d : good d -> takes_on P DynDescriptor.demux (bytes d) d.
Proof.
  intros (_ & _ & _ & Hd). apply takes_get. intros c Hc pre post HP. by apply Hd; [lia|].
Qed.

Lemma esds_codec b : esds_wf b -> esds_fair b -> validate b = Ok tt -> primitive_size b < 2 ^ 50 -> codec b.
Proof.
  intros Hw Hf _ _. destruct b as [[h v f] d us]. destruct Hw as ((Hh & Hv & Hfl) & Hwf & _), Hf as [Hfair Hu].
  simpl in *. subst.
  assert (good (DynDescriptor.Es d)) as Hg by (eapply good_dyn; [apply Nat.lt_succ_diag_r|done|done]).
  pose proof Hg as (Hp & Hs & Hne & _).
  exists (be_bytes 1 v ++ be_bytes 3 f ++ bytes (DynDescriptor.Es d)). split; [|split].
  - intros W HW HL. cbn [primitive_mux Esds.box]. unfold Esds.primitive_mux. eapply puts_eq;
      [|repeat (first [apply (Hp W HW HL)|pstep])]. by rewrite !app_nil_r.
  - cbn [primitive_size Esds.box]. unfold Esds.primitive_size, FullBoxHeader.size. autorewrite with scuffle.
    rewrite Hs. cbn [DynDescriptor.size Esds.es_descriptor]. lia.
  - cbn [demux Esds.box_demux]. unfold Esds.demux. apply (over_takes (fun post => post = [])); [|done].
    rewrite <-(app_nil_r (bytes _)). change (bytes (DynDescriptor.Es d) ++ []) with ([DynDescriptor.Es d] ≫= bytes).
    repeat Mp4Box.tstep. eapply takes_last; [apply takes_children|].
    + intros x ->%list_elem_of_singleton. split; [done|by apply takes_demux].
    + simpl. by apply takes_ret_eq.
Qed.

Lemma take_esds_wf s d :
  opt_all (es_wf wf) s.1 /\ all (fun x => wf x /\ esds_other x) s.2 -> wf d ->
  let s' := Esds.take_esds s d in opt_all (es_wf wf) s'.1 /\ all (fun x => wf x /\ esds_other x) s'.2.
Proof.
  destruct s as [i us]. rewrite !all_elem. simpl. intros [Hi Hu] Hd.
  destruct d; simpl; rewrite all_elem; (split; [done|]); try done; intros x;
    rewrite elem_of_app, list_elem_of_singleton; (intros [Hx| ->]; [by apply Hu|by split]).
Qed.

Lemma esds_outcome data : 8 * blen data < 2 ^ 62 ->
  outcome False (demux (BoxHeader.new (NAME (A := Esds.t))) data) esds_wf.
Proof.
  intros Hl. cbn [demux Esds.box_demux]. apply spec_in_over; [done|].
  eapply spec_in_bind.
  { apply (spec_in_of _ (FullBoxHeader.demux _) (FullBoxHeader.wf Esds.NAME)).
    - unfold FullBoxHeader.demux. repeat sstep. by split_and!.
    - unfold FullBoxHeader.demux. eapply advances_mono; [apply Nat.le_0_l|].
      apply (advancing_bind 1 3); [apply advances_uint|]. intros v.
      apply (advancing_bind 3 0); [apply advances_uint|]. intros f. apply advancing_ret. }
  intros h Hh. eapply spec_in_bind; [eapply (spec_next _ _ _ (fun s =>
    opt_all (es_wf wf) s.1 /\ all (fun x => wf x /\ esds_other x) s.2)); [apply spec_demux| |done|apply take_esds_wf]|].
  - apply (advancing_bind 0 1); [intros c Hc; split; [done|lia]|]. intros c. apply advances_dyn.
  - intros [[d|] us] [Hd Hu]; unfold ok_or; [|intros c Hc _; by right]. by apply spec_in_ret.
Qed.

#[global] Instance esds_laws : BoxLaws Esds.t :=
  mkBoxLaws Esds.t _ _ esds_wf esds_fair False eq_refl esds_codec esds_outcome.
End laws.
End EsdsLaws.
