(* ===== verification/Mp4Config.v ===== *)
(** * [scuffle-mp4]: codec configurations and sample entries
    (crates/mp4/src/boxes/types/avcc.rs, hvcc.rs, av1c.rs, stsd.rs)

    The boxes around the three decoder configuration records, and the fields
    that every sample entry starts with. *)

From Stdlib Require Import Strings.String.
From stdpp Require Import base list numbers.
From Stdlib Require Import Strings.Byte.
From S2P Require Import Prelude Io BitRead BitWrite BytesCursor BitIo Av1 H264 H265 Flv Mp4Box Mp4Movie.

(** ** avcc.rs *)

Module AvcC.
Record t := mk {
  header : BoxHeader.t;
  avc_decoder_configuration_record : AvcConfig.AVCDecoderConfigurationRecord;
}.

Definition NAME : list byte := str "avcC".

Definition new (config : AvcConfig.AVCDecoderConfigurationRecord) : t := mk (BoxHeader.new NAME) config.

Section box.
Context `{BO : ByteOrder}.

Definition demux (header : BoxHeader.t) (data : list byte) : res ErrorKind t := over data (
  let* avc_decoder_configuration_record := AvcConfig.demux in
  ret (mk header avc_decoder_configuration_record)).

Definition primitive_size (b : t) : Z := AvcConfig.size (avc_decoder_configuration_record b).

Definition primitive_mux W `{IoWrite W} (b : t) : M W ErrorKind unit :=
  AvcConfig.mux (avc_decoder_configuration_record b).

Definition validate (b : t) : res ErrorKind unit := Ok tt.

#[global] Instance box : BoxType t := mkBoxType t NAME primitive_size primitive_mux validate.
#[global] Instance box_demux : BoxDemux t := mkBoxDemux t demux.
End box.

Definition wf (b : t) : Prop :=
  header b = BoxHeader.new NAME /\ AvcConfig.config_ok (avc_decoder_configuration_record b).

Section laws.
Context `{BO : ByteOrder}.

Lemma avcc_codec b : wf b -> True -> validate b = Ok tt -> primitive_size b < 2 ^ 50 -> codec b.
Proof.
  intros [Hh Hok] _ _ _. destruct b as [h c]; simpl in *. subst.
  exists (AvcConfig.layout c). split; [|split].
  - intros W HW HL w. apply AvcConfig.avcc_mux_writes, Hok.
  - apply AvcConfig.blen_layout.
  - apply (over_takes (fun post => post = [])); [|done].
    eapply TotalParse.takes_last; [|by apply takes_ret_eq].
    intros pre post ->. apply AvcConfig.demux_takes; [done|by right].
Qed.

Lemma avcc_outcome data : 8 * blen data < 2 ^ 62 -> outcome False (demux (BoxHeader.new NAME) data) wf.
Proof.
  intros Hd. apply spec_over; [done|].
  eapply spec_bind; [apply spec_total; intros; apply AvcConfig.demux_total|].
  intros c (bs & Hok & _). by apply spec_ret.
Qed.

#[global] Instance laws : BoxLaws t := mkBoxLaws t _ _ wf (fun _ => True) False eq_refl avcc_codec avcc_outcome.
End laws.
End AvcC.

(** ** hvcc.rs *)

Module HvcC.
Record t := mk {
  header : BoxHeader.t;
  hevc_config : HevcConfig.HEVCDecoderConfigurationRecord;
}.

Definition NAME : list byte := str "hvcC".

Definition new (hevc_config : HevcConfig.HEVCDecoderConfigurationRecord) : t := mk (BoxHeader.new NAME) hevc_config.

Section box.
Context `{BO : ByteOrder}.

Definition demux (header : BoxHeader.t) (data : list byte) : res ErrorKind t := over data (
  let* hevc_config := HevcConfig.demux in
  ret (mk header hevc_config)).

Definition primitive_size (b : t) : Z := HevcConfig.size (hevc_config b).

Definition primitive_mux W `{IoWrite W} (b : t) : M W ErrorKind unit := HevcConfig.mux (hevc_config b).

Definition validate (b : t) : res ErrorKind unit := Ok tt.

#[global] Instance box : BoxType t := mkBoxType t NAME primitive_size primitive_mux validate.
#[global] Instance box_demux : BoxDemux t := mkBoxDemux t demux.
End box.

Definition wf (b : t) : Prop := header b = BoxHeader.new NAME.
Definition fair (b : t) : Prop := HevcConfig.config_ok (hevc_config b).

Section laws.
Context `{BO : ByteOrder}.

Lemma hvcc_codec b : wf b -> fair b -> validate b = Ok tt -> primitive_size b < 2 ^ 50 -> codec b.
Proof.
  unfold wf, fair, primitive_size. destruct b as [h c]; simpl. intros -> Hok _ Hs.
  pose proof (HevcConfig.hevc_length_layout c) as Hl.
  destruct (BitIo.bits_bytes (Z.to_nat (HevcConfig.size c)) (HevcConfig.layout c)) as (bs & Hbs & Hn); [lia|].
  assert (blen bs = HevcConfig.size c) as Hb by (unfold blen; lia).
  exists bs. split; [|split].
  - intros W HW HL w. pose proof (HevcConfig.hevc_mux_bits_writes (W := W) c Hok) as Hm. rewrite <-Hbs in Hm.
    destruct (BitIo.with_bit_writer_finish (HevcConfig.mux_bits c) bs w Hm) as (w' & Hw & Hwr).
    exists w'. split; [|done]. simpl. unfold primitive_mux, HevcConfig.mux. by rewrite (bind_ok _ _ _ _ _ Hw).
  - done.
  - apply over_consumes; [|lia]. eapply Flv.consumes_map_eq; [by apply Flv.hevc_consumes|done].
Qed.

Lemma hvcc_outcome data : 8 * blen data < 2 ^ 62 -> outcome False (demux (BoxHeader.new NAME) data) wf.
Proof.
  intros Hd. apply spec_over; [done|].
  eapply spec_bind; [apply spec_steady, Flv.steady_hevc|]. intros c _. by apply spec_ret.
Qed.

#[global] Instance laws : BoxLaws t := mkBoxLaws t _ _ wf fair False eq_refl hvcc_codec hvcc_outcome.
End laws.
End HvcC.

(** ** av1c.rs *)

Module Av1C.
Record t := mk {
  header : BoxHeader.t;
  av1_config : Av1Config.AV1CodecConfigurationRecord;
}.

Definition NAME : list byte := str "av1C".

Definition new (av1_config : Av1Config.AV1CodecConfigurationRecord) : t := mk (BoxHeader.new NAME) av1_config.

Section box.
Context `{BO : ByteOrder}.

Definition demux (header : BoxHeader.t) (data : list byte) : res ErrorKind t := over data (
  let* av1_config := Av1Config.demux in
  ret (mk header av1_config)).

Definition primitive_size (b : t) : Z := Av1Config.size (av1_config b).

Definition primitive_mux W `{IoWrite W} (b : t) : M W ErrorKind unit := Av1Config.mux (av1_config b).

Definition validate (b : t) : res ErrorKind unit := Ok tt.

#[global] Instance box : BoxType t := mkBoxType t NAME primitive_size primitive_mux validate.
#[global] Instance box_demux : BoxDemux t := mkBoxDemux t demux.
End box.

Definition wf (b : t) : Prop := header b = BoxHeader.new NAME.

(** The record has no bits for [hdr_wcg_idc] when it is written. *)
Definition fair (b : t) : Prop := Av1Config.config_ok (av1_config b) /\ Av1Config.hdr_wcg_idc (av1_config b) = 0.

Section laws.
Context `{BO : ByteOrder}.

Lemma av1c_codec b : wf b -> fair b -> validate b = Ok tt -> primitive_size b < 2 ^ 50 -> codec b.
Proof.
  unfold wf, fair, primitive_size. destruct b as [h c]; simpl. intros -> [Hok H0] _ Hs.
  destruct (BitIo.bits_bytes 4 (Av1Config.layout 0 c) (Av1Config.av1_length_layout 0 c)) as (hd & Hhd & Hl).
  assert (blen (hd ++ Av1Config.config_obu c) = Av1Config.size c) as Hb.
  { unfold Av1Config.size. rewrite blen_app. unfold blen. lia. }
  exists (hd ++ Av1Config.config_obu c). split; [|split].
  - intros W HW HL w. pose proof (Av1Config.av1_mux_bits_writes (W := W) c Hok) as Hm. rewrite <-Hhd in Hm.
    destruct (BitIo.with_bit_writer_finish (Av1Config.mux_bits c) hd w Hm) as (w1 & H1 & Hw1).
    destruct (write_all_ok (Av1Config.config_obu c) w1) as (w2 & H2 & Hw2).
    exists w2. simpl. unfold primitive_mux, Av1Config.mux. rewrite (bind_ok _ _ _ _ _ H1).
    split; [done|]. by rewrite Hw2, Hw1, <-(assoc_L (++)).
  - done.
  - apply over_consumes; [|lia]. eapply Flv.consumes_map_eq; [apply Flv.av1_consumes; [done|by rewrite H0]|done].
Qed.

Lemma av1c_outcome data : 8 * blen data < 2 ^ 62 -> outcome False (demux (BoxHeader.new NAME) data) wf.
Proof.
  intros Hd. apply spec_over; [done|].
  eapply spec_bind; [apply spec_steady, Flv.steady_av1|]. intros c _. by apply spec_ret.
Qed.

#[global] Instance laws : BoxLaws t := mkBoxLaws t _ _ wf fair False eq_refl av1c_codec av1c_outcome.
End laws.
End Av1C.

(** ** stsd.rs: sample entries *)

(** The trait [SampleEntryExtension]. *)
Class SampleEntryExtension (T : Type) := mkExtension {
  ext_demux : M Cursor ErrorKind T;
  ext_size : T -> Z;
  ext_mux : forall W, IoWrite W -> T -> M W ErrorKind unit;
  ext_validate : T -> res ErrorKind unit;
}.

Module SampleEntry.
Record t {T : Type} := mk { reserved : list Z; data_reference_index : Z; extension : T }.
Arguments t : clear implicits.
Arguments mk {T}.

Definition new {T} (extension : T) : t T := mk (repeat 0 6) 1 extension.

Section ops.
Context `{BO : ByteOrder} {T : Type} `{SampleEntryExtension T}.

Definition demux : M Cursor ErrorKind (t T) :=
  let* reserved := read_exact 6 in
  let* data_reference_index := read_u16 in
  let* extension := ext_demux in
  ret (mk (b2z <$> reserved) data_reference_index extension).

Definition size (e : t T) : Z := 6 + 2 + ext_size (extension e).

Definition validate (e : t T) : res ErrorKind unit :=
  if decide (reserved e <> repeat 0 6) then Err InvalidData else ext_validate (extension e).

Definition mux W `{IoWrite W} (e : t T) : M W ErrorKind unit :=
  lift (validate e) ;;;
  write_all (z2b <$> reserved e) ;;;
  write_u16 (data_reference_index e) ;;;
  ext_mux W _ (extension e) ;;;
  ret tt.
End ops.

Definition wf {T} (ext_wf : T -> Prop) (e : t T) : Prop :=
  length (reserved e) = 6%nat /\ Forall (fits 8) (reserved e) /\ fits 16 (data_reference_index e) /\
  ext_wf (extension e).

Definition with_extension {T U} (e : t T) (extension : U) : t U := mk (reserved e) (data_reference_index e) extension.
End SampleEntry.

Module AudioSampleEntry.
Record t := mk {
  reserved : Z * Z;
  channel_count : Z;
  sample_size : Z;
  pre_defined : Z;
  reserved2 : Z;
  sample_rate : Z;
}.

Definition new (channel_count sample_size sample_rate : Z) : t :=
  mk (0, 0) channel_count sample_size 0 0 sample_rate.

Section ops.
Context `{BO : ByteOrder}.

Definition demux : M Cursor ErrorKind t :=
  let* reserved_0 := read_u32 in
  let* reserved_1 := read_u32 in
  let* channel_count := read_u16 in
  let* sample_size := read_u16 in
  let* pre_defined := read_u16 in
  let* reserved2 := read_u16 in
  let* sample_rate := read_u32 in
  ret (mk (reserved_0, reserved_1) channel_count sample_size pre_defined reserved2 (Z.shiftr sample_rate 16)).

Definition size (e : t) : Z := 4 + 4 + 2 + 2 + 2 + 2 + 4.

Definition mux W (HW : IoWrite W) (e : t) : M W ErrorKind unit :=
  write_u32 (reserved e).1 ;;;
  write_u32 (reserved e).2 ;;;
  write_u16 (channel_count e) ;;;
  write_u16 (sample_size e) ;;;
  write_u16 (pre_defined e) ;;;
  write_u16 (reserved2 e) ;;;
  write_u32 (wrap 32 (Z.shiftl (sample_rate e) 16)) ;;;
  ret tt.

Definition validate (e : t) : res ErrorKind unit :=
  if decide (reserved e <> (0, 0)) then Err InvalidData
  else if negb (pre_defined e =? 0) then Err InvalidData
  else if negb (reserved2 e =? 0) then Err InvalidData
  else Ok tt.

#[global] Instance ext : SampleEntryExtension t := mkExtension t demux size mux validate.
End ops.

Definition wf (e : t) : Prop :=
  fits 32 (reserved e).1 /\ fits 32 (reserved e).2 /\ fits 16 (channel_count e) /\ fits 16 (sample_size e) /\
  fits 16 (pre_defined e) /\ fits 16 (reserved2 e) /\ fits 16 (sample_rate e).
End AudioSampleEntry.

(** [Result::unwrap] *)
Definition unwrapped {W A} (m : M W ErrorKind A) : M W ErrorKind A := fun w =>
  match m w with (Err _, w') => (Panic, w') | r => r end.

Module VisualSampleEntry.
Record t := mk {
  pre_defined : Z;
  reserved : Z;
  pre_defined2 : Z * Z * Z;
  width : Z;
  height : Z;
  horizresolution : Z;
  vertresolution : Z;
  reserved2 : Z;
  frame_count : Z;
  compressorname : list byte;
  depth : Z;
  pre_defined3 : Z;
  clap : option Clap.t;
  colr : option Colr.t;
  pasp : option Pasp.t;
}.

Definition new (width height : Z) (colr : option Colr.t) : t :=
  mk 0 0 (0, 0, 0) width height 0x00480000 0x00480000 0 1 (repeat x00 32) 0x0018 (-1) None colr (Some Pasp.new).

Section ops.
Context `{BO : ByteOrder}.

Definition demux : M Cursor ErrorKind t :=
  let* pre_defined := read_u16 in
  let* reserved := read_u16 in
  let* pre_defined2_0 := read_u32 in
  let* pre_defined2_1 := read_u32 in
  let* pre_defined2_2 := read_u32 in
  let* width := read_u16 in
  let* height := read_u16 in
  let* horizresolution := read_u32 in
  let* vertresolution := read_u32 in
  let* reserved2 := read_u32 in
  let* frame_count := read_u16 in
  let* compressorname := read_exact 32 in
  let* depth := read_u16 in
  let* pre_defined3 := read_i16 in
  ret (mk pre_defined reserved (pre_defined2_0, pre_defined2_1, pre_defined2_2) width height
    horizresolution vertresolution reserved2 frame_count compressorname depth pre_defined3 None None None).

Definition size (e : t) : Z :=
  2 + 2 + 4 + 4 + 4 + 2 + 2 + 4 + 4 + 4 + 2 + 32 + 2 + 2 +
  opt_size Mp4Box.size (clap e) + opt_size Mp4Box.size (pasp e) + opt_size Mp4Box.size (colr e).

Definition mux W (HW : IoWrite W) (e : t) : M W ErrorKind unit :=
  unwrapped (write_u16 (pre_defined e)) ;;;
  unwrapped (write_u16 (reserved e)) ;;;
  unwrapped (write_u32 (pre_defined2 e).1.1) ;;;
  unwrapped (write_u32 (pre_defined2 e).1.2) ;;;
  unwrapped (write_u32 (pre_defined2 e).2) ;;;
  unwrapped (write_u16 (width e)) ;;;
  unwrapped (write_u16 (height e)) ;;;
  unwrapped (write_u32 (horizresolution e)) ;;;
  unwrapped (write_u32 (vertresolution e)) ;;;
  unwrapped (write_u32 (reserved2 e)) ;;;
  unwrapped (write_u16 (frame_count e)) ;;;
  unwrapped (write_all (compressorname e)) ;;;
  unwrapped (write_u16 (depth e)) ;;;
  unwrapped (write_i16 (pre_defined3 e)) ;;;
  if_some (clap e) (fun clap => unwrapped (Mp4Box.mux clap)) ;;;
  if_some (pasp e) (fun pasp => unwrapped (Mp4Box.mux pasp)) ;;;
  if_some (colr e) (fun colr => unwrapped (Mp4Box.mux colr)) ;;;
  ret tt.

Definition validate (e : t) : res ErrorKind unit :=
  if negb (pre_defined e =? 0) then Err InvalidData
  else if negb (reserved e =? 0) then Err InvalidData
  else if decide (pre_defined2 e <> (0, 0, 0)) then Err InvalidData
  else if negb (reserved2 e =? 0) then Err InvalidData
  else if negb (pre_defined3 e =? -1) then Err InvalidData
  else Ok tt.

#[global] Instance ext : SampleEntryExtension t := mkExtension t demux size mux validate.
End ops.

Definition wf (e : t) : Prop :=
  fits 16 (pre_defined e) /\ fits 16 (reserved e) /\
  (fits 32 (pre_defined2 e).1.1 /\ fits 32 (pre_defined2 e).1.2 /\ fits 32 (pre_defined2 e).2) /\
  fits 16 (width e) /\ fits 16 (height e) /\ fits 32 (horizresolution e) /\ fits 32 (vertresolution e) /\
  fits 32 (reserved2 e) /\ fits 16 (frame_count e) /\ length (compressorname e) = 32%nat /\ fits 16 (depth e) /\
  - 2 ^ 15 <= pre_defined3 e < 2 ^ 15.

(** The entry without the boxes that follow its fields. *)
Definition fields (e : t) : t :=
  mk (pre_defined e) (reserved e) (pre_defined2 e) (width e) (height e) (horizresolution e) (vertresolution e)
    (reserved2 e) (frame_count e) (compressorname e) (depth e) (pre_defined3 e) None None None.
End VisualSampleEntry.

Module VisualEntry.
(** [visual_sample_entry.extension.clap = Some(b)], and the like. *)
Definition with_boxes (e : VisualSampleEntry.t) clap colr pasp : VisualSampleEntry.t :=
  VisualSampleEntry.mk (VisualSampleEntry.pre_defined e) (VisualSampleEntry.reserved e)
    (VisualSampleEntry.pre_defined2 e) (VisualSampleEntry.width e) (VisualSampleEntry.height e)
    (VisualSampleEntry.horizresolution e) (VisualSampleEntry.vertresolution e) (VisualSampleEntry.reserved2 e)
    (VisualSampleEntry.frame_count e) (VisualSampleEntry.compressorname e) (VisualSampleEntry.depth e)
    (VisualSampleEntry.pre_defined3 e) clap colr pasp.

Definition update (f : VisualSampleEntry.t -> VisualSampleEntry.t) (e : SampleEntry.t VisualSampleEntry.t) :
    SampleEntry.t VisualSampleEntry.t :=
  SampleEntry.with_extension e (f (SampleEntry.extension e)).

Definition set_clap (e : SampleEntry.t VisualSampleEntry.t) (b : Clap.t) : SampleEntry.t VisualSampleEntry.t :=
  update (fun e => with_boxes e (Some b) (VisualSampleEntry.colr e) (VisualSampleEntry.pasp e)) e.
Definition set_colr (e : SampleEntry.t VisualSampleEntry.t) (b : Colr.t) : SampleEntry.t VisualSampleEntry.t :=
  update (fun e => with_boxes e (VisualSampleEntry.clap e) (Some b) (VisualSampleEntry.pasp e)) e.
Definition set_pasp (e : SampleEntry.t VisualSampleEntry.t) (b : Pasp.t) : SampleEntry.t VisualSampleEntry.t :=
  update (fun e => with_boxes e (VisualSampleEntry.clap e) (VisualSampleEntry.colr e) (Some b)) e.
End VisualEntry.

(** ** Reading and writing sample entries *)

Section entries.
Context `{BO : ByteOrder}.
Import TotalParse.

Lemma puts_unwrapped {W} `{IoWriteLaws W} (m : M W ErrorKind unit) bs : puts m bs -> puts (unwrapped m) bs.
Proof. intros Hm w. destruct (Hm w) as (w' & E & Hw). exists w'. unfold unwrapped. by rewrite E. Qed.

Lemma puts_assoc_r {W} `{IoWriteLaws W} (m : M W ErrorKind unit) xs ys zs : puts m (xs ++ ys ++ zs) -> puts m ((xs ++ ys) ++ zs).
Proof. by rewrite <-(assoc_L (++)). Qed.

(** What comes before the extension. *)
Definition entry_bytes {T} (e : SampleEntry.t T) : list byte :=
  (z2b <$> SampleEntry.reserved e) ++ be_bytes 2 (SampleEntry.data_reference_index e).

Lemma blen_entry_bytes {T} (Q : T -> Prop) e : SampleEntry.wf Q e -> blen (entry_bytes e) = 8.
Proof.
  intros (Hl & _). unfold entry_bytes. rewrite blen_app. autorewrite with scuffle. unfold blen.
  rewrite length_fmap, Hl. done.
Qed.

Lemma entry_puts {T} `{SampleEntryExtension T} (Q : T -> Prop) (e : SampleEntry.t T) bs W (HW : IoWrite W) (HL : IoWriteLaws W) :
  SampleEntry.wf Q e -> SampleEntry.validate e = Ok tt -> puts (ext_mux W _ (SampleEntry.extension e)) bs ->
  puts (SampleEntry.mux W e) (entry_bytes e ++ bs).
Proof.
  intros (Hl & Hr & Hd & Hx) Hv He. unfold SampleEntry.mux, entry_bytes. rewrite Hv.
  apply puts_assoc_r, puts_skip. rewrite <-(app_nil_r bs). do 2 (pstep; [pstep|]).
  apply puts_bind; [done|pstep].
Qed.

Lemma map_byte_id (zs : list Z) : Forall (fits 8) zs -> b2z <$> (z2b <$> zs) = zs.
Proof.
  induction 1 as [|z zs Hz _ IH]; [done|]. rewrite !fmap_cons, IH, b2z_z2b. f_equal. by apply Z.mod_small.
Qed.

Lemma entry_takes {T U} `{SampleEntryExtension T} (Q : U -> Prop) P (e : SampleEntry.t U) (x : T) bs :
  SampleEntry.wf Q e -> takes_on P ext_demux bs x ->
  takes_on P SampleEntry.demux (entry_bytes e ++ bs) (SampleEntry.with_extension e x).
Proof.
  intros (Hl & Hr & Hd & _) Hx. unfold SampleEntry.demux, entry_bytes. rewrite <-(assoc_L (++)).
  eapply takes_bind; [apply takes_exact; by rewrite length_fmap|].
  eapply takes_bind; [by apply takes_uint|]. eapply takes_last; [done|].
  apply takes_ret_eq. unfold SampleEntry.with_extension. by rewrite map_byte_id.
Qed.

Lemma entry_spec {T} `{SampleEntryExtension T} pan (Q : T -> Prop) :
  spec pan ext_demux Q -> spec pan SampleEntry.demux (SampleEntry.wf Q).
Proof.
  intros Hx. unfold SampleEntry.demux. eapply spec_bind; [apply spec_read_exact|]. intros r Hr.
  eapply spec_bind; [apply spec_uint|]. intros d Hd. eapply spec_bind; [done|]. intros x HQ.
  apply spec_ret. unfold SampleEntry.wf. simpl. rewrite length_fmap. split; [done|]. split; [|by split].
  apply Forall_fmap, Forall_true. intros b. apply b2z_fits.
Qed.

(** *** Audio *)

Definition audio_bytes (e : AudioSampleEntry.t) : list byte :=
  be_bytes 4 (AudioSampleEntry.reserved e).1 ++ be_bytes 4 (AudioSampleEntry.reserved e).2 ++
  be_bytes 2 (AudioSampleEntry.channel_count e) ++ be_bytes 2 (AudioSampleEntry.sample_size e) ++
  be_bytes 2 (AudioSampleEntry.pre_defined e) ++ be_bytes 2 (AudioSampleEntry.reserved2 e) ++
  be_bytes 4 (wrap 32 (Z.shiftl (AudioSampleEntry.sample_rate e) 16)).

Lemma audio_puts e W (HW : IoWrite W) (HL : IoWriteLaws W) : AudioSampleEntry.wf e ->
  puts (AudioSampleEntry.mux W HW e) (audio_bytes e).
Proof.
  unfold AudioSampleEntry.wf. intros Hwf. destruct_and! Hwf. unfold AudioSampleEntry.mux.
  eapply puts_eq; [|repeat pstep]. unfold audio_bytes. by rewrite app_nil_r.
Qed.

Lemma audio_takes P e : AudioSampleEntry.wf e -> takes_on P AudioSampleEntry.demux (audio_bytes e) e.
Proof.
  destruct e as [[r0 r1] cc ss pd r2 sr]. unfold AudioSampleEntry.wf. simpl. intros Hwf. destruct_and! Hwf.
  unfold AudioSampleEntry.demux, audio_bytes. cbn [AudioSampleEntry.reserved AudioSampleEntry.channel_count
    AudioSampleEntry.sample_size AudioSampleEntry.pre_defined AudioSampleEntry.reserved2
    AudioSampleEntry.sample_rate fst snd].
  repeat Mp4Box.tstep. f_equal. rewrite wrap_fits_id; [by rewrite Z.shiftr_shiftl_l, Z.shiftl_0_r by lia|].
  rewrite Z.shiftl_mul_pow2 by lia. unfold fits in *. lia.
Qed.

Lemma audio_spec pan : spec pan AudioSampleEntry.demux AudioSampleEntry.wf.
Proof.
  unfold AudioSampleEntry.demux. repeat sstep. unfold AudioSampleEntry.wf. simpl.
  rewrite Z.shiftr_div_pow2 by lia. repeat split; num_tac.
Qed.

(** *** Video *)

Definition visual_bytes (e : VisualSampleEntry.t) : list byte :=
  be_bytes 2 (VisualSampleEntry.pre_defined e) ++ be_bytes 2 (VisualSampleEntry.reserved e) ++
  be_bytes 4 (VisualSampleEntry.pre_defined2 e).1.1 ++ be_bytes 4 (VisualSampleEntry.pre_defined2 e).1.2 ++
  be_bytes 4 (VisualSampleEntry.pre_defined2 e).2 ++
  be_bytes 2 (VisualSampleEntry.width e) ++ be_bytes 2 (VisualSampleEntry.height e) ++
  be_bytes 4 (VisualSampleEntry.horizresolution e) ++ be_bytes 4 (VisualSampleEntry.vertresolution e) ++
  be_bytes 4 (VisualSampleEntry.reserved2 e) ++ be_bytes 2 (VisualSampleEntry.frame_count e) ++
  VisualSampleEntry.compressorname e ++ be_bytes 2 (VisualSampleEntry.depth e) ++
  be_bytes 2 (wrap 16 (VisualSampleEntry.pre_defined3 e)).

Lemma blen_visual_bytes e : VisualSampleEntry.wf e -> blen (visual_bytes e) = 70.
Proof.
  unfold VisualSampleEntry.wf. intros Hwf. destruct_and! Hwf. unfold visual_bytes.
  autorewrite with scuffle. unfold blen. lia.
Qed.

(** The fields, then whatever the three boxes write. *)
Lemma visual_puts e b1 b2 b3 W (HW : IoWrite W) (HL : IoWriteLaws W) : VisualSampleEntry.wf e ->
  puts (if_some (VisualSampleEntry.clap e) Mp4Box.mux) b1 ->
  puts (if_some (VisualSampleEntry.pasp e) Mp4Box.mux) b2 ->
  puts (if_some (VisualSampleEntry.colr e) Mp4Box.mux) b3 ->
  puts (VisualSampleEntry.mux W HW e) (visual_bytes e ++ b1 ++ b2 ++ b3).
Proof.
  assert (forall A (o : option A) (f : A -> M W ErrorKind unit) bs,
    puts (if_some o f) bs -> puts (if_some o (fun a => unwrapped (f a))) bs) as Ho.
  { intros A [a|] f bs Hf; [by apply puts_unwrapped|done]. }
  unfold VisualSampleEntry.wf. intros Hwf H1 H2 H3. destruct_and! Hwf. unfold VisualSampleEntry.mux.
  eapply puts_eq; [|repeat (first [ apply puts_unwrapped | by apply Ho, H1 | by apply Ho, H2 | by apply Ho, H3
    | pstep ])].
  unfold visual_bytes. rewrite app_nil_r. by rewrite <-!(assoc_L (++)).
Qed.

Lemma visual_takes P e : VisualSampleEntry.wf e ->
  takes_on P VisualSampleEntry.demux (visual_bytes e) (VisualSampleEntry.fields e).
Proof.
  unfold VisualSampleEntry.wf. intros Hwf. destruct_and! Hwf.
  unfold VisualSampleEntry.demux, visual_bytes, VisualSampleEntry.fields. repeat Mp4Box.tstep.
  by rewrite <-!surjective_pairing.
Qed.

Lemma visual_spec pan : spec pan VisualSampleEntry.demux (fun e => VisualSampleEntry.wf e /\ VisualSampleEntry.fields e = e).
Proof.
  unfold VisualSampleEntry.demux. repeat sstep. split; [|done]. unfold VisualSampleEntry.wf. simpl.
  repeat split; num_tac.
Qed.
End entries.
