(* ===== verification/Mp4Containers.v ===== *)
(** * [scuffle-mp4]: boxes that contain boxes (crates/mp4/src/boxes/types)

    The containers. Each is a record over the type [D] of dynamic boxes (the
    enum [DynBox], which contains the containers), with the functions that
    write it; these take the size and the writer of [D]. *)

From Stdlib Require Import Strings.String.
From stdpp Require Import base list numbers.
From Stdlib Require Import Strings.Byte.
From S2P Require Import Prelude Io Mp4Box Mp4Movie Mp4Tables Mp4Fragment Mp4Esds Mp4Config.

(** ** edts.rs *)

Module Edts.
Record t {D : Type} := mk {
  header : BoxHeader.t;
  elst : option Elst.t;
  unknown : list D;
}.
Arguments t : clear implicits.
Arguments mk {D}.

Definition NAME : list byte := str "edts".

Definition new {D} (elst : option Elst.t) : t D :=
  mk (BoxHeader.new NAME) elst [].

Section box.
Context `{BO : ByteOrder} {D : Type} (dsize : D -> Z) (dmux : forall W, IoWrite W -> D -> M W ErrorKind unit).

Definition primitive_size (b : t D) : Z :=
  opt_size Mp4Box.size (elst b) + sum_of dsize (unknown b).

Definition primitive_mux W `{IoWrite W} (b : t D) : M W ErrorKind unit :=
  if_some (elst b) Mp4Box.mux ;;;
  for_each (unknown b) (dmux W _) ;;;
  ret tt.

Definition validate (b : t D) : res ErrorKind unit := Ok tt.

Definition size (b : t D) : Z := box_size (primitive_size b).
Definition mux W `{IoWrite W} (b : t D) : M W ErrorKind unit :=
  box_mux NAME (validate b) (size b) (primitive_mux W b).
End box.
End Edts.

(** ** mvex.rs *)

Module Mvex.
Record t {D : Type} := mk {
  header : BoxHeader.t;
  trex : list Trex.t;
  mehd : option Mehd.t;
  unknown : list D;
}.
Arguments t : clear implicits.
Arguments mk {D}.

Definition NAME : list byte := str "mvex".

Definition new {D} (trex : list Trex.t) (mehd : option Mehd.t) : t D :=
  mk (BoxHeader.new NAME) trex mehd [].

Section box.
Context `{BO : ByteOrder} {D : Type} (dsize : D -> Z) (dmux : forall W, IoWrite W -> D -> M W ErrorKind unit).

Definition primitive_size (b : t D) : Z :=
  sum_of Mp4Box.size (trex b) + opt_size Mp4Box.size (mehd b) + sum_of dsize (unknown b).

Definition primitive_mux W `{IoWrite W} (b : t D) : M W ErrorKind unit :=
  for_each (trex b) Mp4Box.mux ;;;
  if_some (mehd b) Mp4Box.mux ;;;
  for_each (unknown b) (dmux W _) ;;;
  ret tt.

Definition validate (b : t D) : res ErrorKind unit := Ok tt.

Definition size (b : t D) : Z := box_size (primitive_size b).
Definition mux W `{IoWrite W} (b : t D) : M W ErrorKind unit :=
  box_mux NAME (validate b) (size b) (primitive_mux W b).
End box.
End Mvex.

(** ** dref.rs *)

Module Dref.
Record t {D : Type} := mk {
  header : FullBoxHeader.t;
  entries : list D;
}.
Arguments t : clear implicits.
Arguments mk {D}.

Definition NAME : list byte := str "dref".

(** [from_url] is [Url::into]. *)
Definition new {D} (from_url : Url.t -> D) : t D := mk (FullBoxHeader.new NAME 0 0) [from_url Url.new].

Section box.
Context `{BO : ByteOrder} {D : Type} (dsize : D -> Z) (dmux : forall W, IoWrite W -> D -> M W ErrorKind unit).

Definition primitive_size (b : t D) : Z := FullBoxHeader.size (header b) + 4 + sum_of dsize (entries b).

Definition primitive_mux W `{IoWrite W} (b : t D) : M W ErrorKind unit :=
  FullBoxHeader.mux (header b) ;;;
  write_u32 (wrap 32 (blen (entries b))) ;;;
  for_each (entries b) (dmux W _) ;;;
  ret tt.

Definition validate (b : t D) : res ErrorKind unit :=
  if negb (FullBoxHeader.version (header b) =? 0) then Err InvalidData
  else if negb (FullBoxHeader.flags (header b) =? 0) then Err InvalidData
  else Ok tt.

Definition size (b : t D) : Z := box_size (primitive_size b).
Definition mux W `{IoWrite W} (b : t D) : M W ErrorKind unit :=
  box_mux NAME (validate b) (size b) (primitive_mux W b).
End box.
End Dref.

(** ** dinf.rs *)

Module Dinf.
Record t {D : Type} := mk {
  header : BoxHeader.t;
  dref : Dref.t D;
  unknown : list D;
}.
Arguments t : clear implicits.
Arguments mk {D}.

Definition NAME : list byte := str "dinf".

Definition new {D} (from_url : Url.t -> D) : t D := mk (BoxHeader.new NAME) (Dref.new from_url) [].

Section box.
Context `{BO : ByteOrder} {D : Type} (dsize : D -> Z) (dmux : forall W, IoWrite W -> D -> M W ErrorKind unit).

Definition primitive_size (b : t D) : Z :=
  Dref.size dsize (dref b) + sum_of dsize (unknown b).

Definition primitive_mux W `{IoWrite W} (b : t D) : M W ErrorKind unit :=
  Dref.mux dsize dmux W (dref b) ;;;
  for_each (unknown b) (dmux W _) ;;;
  ret tt.

Definition validate (b : t D) : res ErrorKind unit := Ok tt.

Definition size (b : t D) : Z := box_size (primitive_size b).
Definition mux W `{IoWrite W} (b : t D) : M W ErrorKind unit :=
  box_mux NAME (validate b) (size b) (primitive_mux W b).
End box.
End Dinf.

(** ** stsd.rs *)

Module Stsd.
Record t {D : Type} := mk {
  header : FullBoxHeader.t;
  entries : list D;
}.
Arguments t : clear implicits.
Arguments mk {D}.

Definition NAME : list byte := str "stsd".

Definition new {D} (entries : list D) : t D := mk (FullBoxHeader.new NAME 0 0) entries.

Section box.
Context `{BO : ByteOrder} {D : Type} (dsize : D -> Z) (dmux : forall W, IoWrite W -> D -> M W ErrorKind unit).

Definition primitive_size (b : t D) : Z := FullBoxHeader.size (header b) + 4 + sum_of dsize (entries b).

Definition primitive_mux W `{IoWrite W} (b : t D) : M W ErrorKind unit :=
  FullBoxHeader.mux (header b) ;;;
  write_u32 (wrap 32 (blen (entries b))) ;;;
  for_each (entries b) (dmux W _) ;;;
  ret tt.

Definition validate (b : t D) : res ErrorKind unit :=
  if negb (FullBoxHeader.flags (header b) =? 0) then Err InvalidData
  else if negb (FullBoxHeader.version (header b) =? 0) then Err InvalidData
  else Ok tt.

Definition size (b : t D) : Z := box_size (primitive_size b).
Definition mux W `{IoWrite W} (b : t D) : M W ErrorKind unit :=
  box_mux NAME (validate b) (size b) (primitive_mux W b).
End box.
End Stsd.

(** ** stbl.rs *)

Module Stbl.
Record t {D : Type} := mk {
  header : BoxHeader.t;
  stsd : Stsd.t D;
  stts : Stts.t;
  ctts : option Ctts.t;
  stsc : Stsc.t;
  stsz : option Stsz.t;
  stz2 : option Stz2.t;
  stco : Stco.t;
  co64 : option Co64.t;
  stss : option Stss.t;
  stsh : option Stsh.t;
  padb : option Padb.t;
  stdp : option Stdp.t;
  sdtp : option Sdtp.t;
  sbgp : option Sbgp.t;
  subs : option Subs.t;
  unknown : list D;
}.
Arguments t : clear implicits.
Arguments mk {D}.

Definition NAME : list byte := str "stbl".

Definition new {D} (stsd : Stsd.t D) (stts : Stts.t) (stsc : Stsc.t) (stco : Stco.t) (stsz : option Stsz.t) : t D :=
  mk (BoxHeader.new NAME) stsd stts None stsc stsz None stco None None None None None None None None [].

Section box.
Context `{BO : ByteOrder} {D : Type} (dsize : D -> Z) (dmux : forall W, IoWrite W -> D -> M W ErrorKind unit).

Definition primitive_size (b : t D) : Z :=
  Stsd.size dsize (stsd b) + Mp4Box.size (stts b) + opt_size Mp4Box.size (ctts b) + Mp4Box.size (stsc b) +
  opt_size Mp4Box.size (stsz b) + opt_size Mp4Box.size (stz2 b) + Mp4Box.size (stco b) +
  opt_size Mp4Box.size (co64 b) + opt_size Mp4Box.size (stss b) + opt_size Mp4Box.size (stsh b) +
  opt_size Mp4Box.size (padb b) + opt_size Mp4Box.size (stdp b) + opt_size Mp4Box.size (sdtp b) +
  opt_size Mp4Box.size (sbgp b) + opt_size Mp4Box.size (subs b) + sum_of dsize (unknown b).

Definition primitive_mux W `{IoWrite W} (b : t D) : M W ErrorKind unit :=
  Stsd.mux dsize dmux W (stsd b) ;;;
  Mp4Box.mux (stts b) ;;;
  if_some (ctts b) Mp4Box.mux ;;;
  Mp4Box.mux (stsc b) ;;;
  if_some (stsz b) Mp4Box.mux ;;;
  if_some (stz2 b) Mp4Box.mux ;;;
  Mp4Box.mux (stco b) ;;;
  if_some (co64 b) Mp4Box.mux ;;;
  if_some (stss b) Mp4Box.mux ;;;
  if_some (stsh b) Mp4Box.mux ;;;
  if_some (padb b) Mp4Box.mux ;;;
  if_some (stdp b) Mp4Box.mux ;;;
  if_some (sdtp b) Mp4Box.mux ;;;
  if_some (sbgp b) Mp4Box.mux ;;;
  if_some (subs b) Mp4Box.mux ;;;
  for_each (unknown b) (dmux W _) ;;;
  ret tt.

Definition validate (b : t D) : res ErrorKind unit := Ok tt.

Definition size (b : t D) : Z := box_size (primitive_size b).
Definition mux W `{IoWrite W} (b : t D) : M W ErrorKind unit :=
  box_mux NAME (validate b) (size b) (primitive_mux W b).
End box.
End Stbl.

(** ** minf.rs *)

Module Minf.
Record t {D : Type} := mk {
  header : BoxHeader.t;
  vmhd : option Vmhd.t;
  smhd : option Smhd.t;
  hmhd : option Hmhd.t;
  nmhd : option Nmhd.t;
  dinf : Dinf.t D;
  stbl : Stbl.t D;
  unknown : list D;
}.
Arguments t : clear implicits.
Arguments mk {D}.

Definition NAME : list byte := str "minf".

Definition new {D} (from_url : Url.t -> D) (stbl : Stbl.t D) (vmhd : option Vmhd.t) (smhd : option Smhd.t) : t D :=
  mk (BoxHeader.new NAME) vmhd smhd None None (Dinf.new from_url) stbl [].

Section box.
Context `{BO : ByteOrder} {D : Type} (dsize : D -> Z) (dmux : forall W, IoWrite W -> D -> M W ErrorKind unit).

Definition primitive_size (b : t D) : Z :=
  opt_size Mp4Box.size (vmhd b) + opt_size Mp4Box.size (smhd b) + opt_size Mp4Box.size (hmhd b) +
  opt_size Mp4Box.size (nmhd b) + Dinf.size dsize (dinf b) + Stbl.size dsize (stbl b) + sum_of dsize (unknown b).

Definition primitive_mux W `{IoWrite W} (b : t D) : M W ErrorKind unit :=
  if_some (vmhd b) Mp4Box.mux ;;;
  if_some (smhd b) Mp4Box.mux ;;;
  if_some (hmhd b) Mp4Box.mux ;;;
  if_some (nmhd b) Mp4Box.mux ;;;
  Dinf.mux dsize dmux W (dinf b) ;;;
  Stbl.mux dsize dmux W (stbl b) ;;;
  for_each (unknown b) (dmux W _) ;;;
  ret tt.

Definition validate (b : t D) : res ErrorKind unit := Ok tt.

Definition size (b : t D) : Z := box_size (primitive_size b).
Definition mux W `{IoWrite W} (b : t D) : M W ErrorKind unit :=
  box_mux NAME (validate b) (size b) (primitive_mux W b).
End box.
End Minf.

(** ** mdia.rs *)

Module Mdia.
Record t {D : Type} := mk {
  header : BoxHeader.t;
  mdhd : Mdhd.t;
  hdlr : Hdlr.t;
  minf : Minf.t D;
  unknown : list D;
}.
Arguments t : clear implicits.
Arguments mk {D}.

Definition NAME : list byte := str "mdia".

Definition new {D} (mdhd : Mdhd.t) (hdlr : Hdlr.t) (minf : Minf.t D) : t D :=
  mk (BoxHeader.new NAME) mdhd hdlr minf [].

Section box.
Context `{BO : ByteOrder} {D : Type} (dsize : D -> Z) (dmux : forall W, IoWrite W -> D -> M W ErrorKind unit).

Definition primitive_size (b : t D) : Z :=
  Mp4Box.size (mdhd b) + Mp4Box.size (hdlr b) + Minf.size dsize (minf b) + sum_of dsize (unknown b).

Definition primitive_mux W `{IoWrite W} (b : t D) : M W ErrorKind unit :=
  Mp4Box.mux (mdhd b) ;;;
  Mp4Box.mux (hdlr b) ;;;
  Minf.mux dsize dmux W (minf b) ;;;
  for_each (unknown b) (dmux W _) ;;;
  ret tt.

Definition validate (b : t D) : res ErrorKind unit := Ok tt.

Definition size (b : t D) : Z := box_size (primitive_size b).
Definition mux W `{IoWrite W} (b : t D) : M W ErrorKind unit :=
  box_mux NAME (validate b) (size b) (primitive_mux W b).
End box.
End Mdia.

(** ** trak.rs *)

Module Trak.
Record t {D : Type} := mk {
  header : BoxHeader.t;
  tkhd : Tkhd.t;
  edts : option (Edts.t D);
  mdia : Mdia.t D;
  unknown : list D;
}.
Arguments t : clear implicits.
Arguments mk {D}.

Definition NAME : list byte := str "trak".

Definition new {D} (tkhd : Tkhd.t) (edts : option (Edts.t D)) (mdia : Mdia.t D) : t D :=
  mk (BoxHeader.new NAME) tkhd edts mdia [].

Section box.
Context `{BO : ByteOrder} {D : Type} (dsize : D -> Z) (dmux : forall W, IoWrite W -> D -> M W ErrorKind unit).

Definition primitive_size (b : t D) : Z :=
  Mp4Box.size (tkhd b) + opt_size (Edts.size dsize) (edts b) + Mdia.size dsize (mdia b) +
  sum_of dsize (unknown b).

Definition primitive_mux W `{IoWrite W} (b : t D) : M W ErrorKind unit :=
  Mp4Box.mux (tkhd b) ;;;
  if_some (edts b) (Edts.mux dsize dmux W) ;;;
  Mdia.mux dsize dmux W (mdia b) ;;;
  for_each (unknown b) (dmux W _) ;;;
  ret tt.

Definition validate (b : t D) : res ErrorKind unit := Ok tt.

Definition size (b : t D) : Z := box_size (primitive_size b).
Definition mux W `{IoWrite W} (b : t D) : M W ErrorKind unit :=
  box_mux NAME (validate b) (size b) (primitive_mux W b).
End box.
End Trak.

(** ** moov.rs *)

Module Moov.
Record t {D : Type} := mk {
  header : BoxHeader.t;
  mvhd : Mvhd.t;
  traks : list (Trak.t D);
  mvex : option (Mvex.t D);
  unknown : list D;
}.
Arguments t : clear implicits.
Arguments mk {D}.

Definition NAME : list byte := str "moov".

Definition new {D} (mvhd : Mvhd.t) (traks : list (Trak.t D)) (mvex : option (Mvex.t D)) : t D :=
  mk (BoxHeader.new NAME) mvhd traks mvex [].

Section box.
Context `{BO : ByteOrder} {D : Type} (dsize : D -> Z) (dmux : forall W, IoWrite W -> D -> M W ErrorKind unit).

Definition primitive_size (b : t D) : Z :=
  Mp4Box.size (mvhd b) + sum_of (Trak.size dsize) (traks b) + opt_size (Mvex.size dsize) (mvex b) +
  sum_of dsize (unknown b).

Definition primitive_mux W `{IoWrite W} (b : t D) : M W ErrorKind unit :=
  Mp4Box.mux (mvhd b) ;;;
  for_each (traks b) (Trak.mux dsize dmux W) ;;;
  if_some (mvex b) (Mvex.mux dsize dmux W) ;;;
  for_each (unknown b) (dmux W _) ;;;
  ret tt.

Definition validate (b : t D) : res ErrorKind unit := Ok tt.

Definition size (b : t D) : Z := box_size (primitive_size b).
Definition mux W `{IoWrite W} (b : t D) : M W ErrorKind unit :=
  box_mux NAME (validate b) (size b) (primitive_mux W b).
End box.
End Moov.

(** ** traf.rs *)

Module Traf.
Record t {D : Type} := mk {
  header : BoxHeader.t;
  tfhd : Tfhd.t;
  trun : option Trun.t;
  sbgp : option Sbgp.t;
  subs : option Subs.t;
  tfdt : option Tfdt.t;
  unknown : list D;
}.
Arguments t : clear implicits.
Arguments mk {D}.

Definition NAME : list byte := str "traf".

Definition new {D} (tfhd : Tfhd.t) (trun : option Trun.t) (tfdt : option Tfdt.t) : t D :=
  mk (BoxHeader.new NAME) tfhd trun None None tfdt [].

Section box.
Context `{BO : ByteOrder} {D : Type} (dsize : D -> Z) (dmux : forall W, IoWrite W -> D -> M W ErrorKind unit).

Definition primitive_size (b : t D) : Z :=
  Mp4Box.size (tfhd b) + opt_size Mp4Box.size (trun b) + opt_size Mp4Box.size (sbgp b) +
  opt_size Mp4Box.size (subs b) + opt_size Mp4Box.size (tfdt b) + sum_of dsize (unknown b).

Definition primitive_mux W `{IoWrite W} (b : t D) : M W ErrorKind unit :=
  Mp4Box.mux (tfhd b) ;;;
  if_some (sbgp b) Mp4Box.mux ;;;
  if_some (subs b) Mp4Box.mux ;;;
  if_some (tfdt b) Mp4Box.mux ;;;
  for_each (unknown b) (dmux W _) ;;;
  if_some (trun b) Mp4Box.mux ;;;
  ret tt.

Definition validate (b : t D) : res ErrorKind unit := Ok tt.

Definition size (b : t D) : Z := box_size (primitive_size b).
Definition mux W `{IoWrite W} (b : t D) : M W ErrorKind unit :=
  box_mux NAME (validate b) (size b) (primitive_mux W b).
End box.
End Traf.

(** ** moof.rs *)

Module Moof.
Record t {D : Type} := mk {
  header : BoxHeader.t;
  mfhd : Mfhd.t;
  traf : list (Traf.t D);
  unknown : list D;
}.
Arguments t : clear implicits.
Arguments mk {D}.

Definition NAME : list byte := str "moof".

Definition new {D} (mfhd : Mfhd.t) (traf : list (Traf.t D)) : t D :=
  mk (BoxHeader.new NAME) mfhd traf [].

Section box.
Context `{BO : ByteOrder} {D : Type} (dsize : D -> Z) (dmux : forall W, IoWrite W -> D -> M W ErrorKind unit).

Definition primitive_size (b : t D) : Z :=
  Mp4Box.size (mfhd b) + sum_of (Traf.size dsize) (traf b) + sum_of dsize (unknown b).

Definition primitive_mux W `{IoWrite W} (b : t D) : M W ErrorKind unit :=
  Mp4Box.mux (mfhd b) ;;;
  for_each (traf b) (Traf.mux dsize dmux W) ;;;
  for_each (unknown b) (dmux W _) ;;;
  ret tt.

Definition validate (b : t D) : res ErrorKind unit := Ok tt.

Definition size (b : t D) : Z := box_size (primitive_size b).
Definition mux W `{IoWrite W} (b : t D) : M W ErrorKind unit :=
  box_mux NAME (validate b) (size b) (primitive_mux W b).
End box.
End Moof.

(** ** avc1.rs *)

Module Avc1.
Record t {D : Type} := mk {
  header : BoxHeader.t;
  visual_sample_entry : SampleEntry.t VisualSampleEntry.t;
  avcc : AvcC.t;
  btrt : option Btrt.t;
  unknown : list D;
}.
Arguments t : clear implicits.
Arguments mk {D}.

Definition NAME : list byte := str "avc1".

Definition new {D} (visual_sample_entry : SampleEntry.t VisualSampleEntry.t) (avcc : AvcC.t) (btrt : option Btrt.t) : t D :=
  mk (BoxHeader.new NAME) visual_sample_entry avcc btrt [].

Section box.
Context `{BO : ByteOrder} {D : Type} (dsize : D -> Z) (dmux : forall W, IoWrite W -> D -> M W ErrorKind unit).

Definition primitive_size (b : t D) : Z :=
  SampleEntry.size (visual_sample_entry b) + Mp4Box.size (avcc b) + opt_size Mp4Box.size (btrt b) +
  sum_of dsize (unknown b).

Definition primitive_mux W `{IoWrite W} (b : t D) : M W ErrorKind unit :=
  SampleEntry.mux W (visual_sample_entry b) ;;;
  Mp4Box.mux (avcc b) ;;;
  if_some (btrt b) Mp4Box.mux ;;;
  for_each (unknown b) (dmux W _) ;;;
  ret tt.

Definition validate (b : t D) : res ErrorKind unit := Ok tt.

Definition size (b : t D) : Z := box_size (primitive_size b).
Definition mux W `{IoWrite W} (b : t D) : M W ErrorKind unit :=
  box_mux NAME (validate b) (size b) (primitive_mux W b).
End box.
End Avc1.

(** ** hev1.rs *)

Module Hev1.
Record t {D : Type} := mk {
  header : BoxHeader.t;
  visual_sample_entry : SampleEntry.t VisualSampleEntry.t;
  hvcc : HvcC.t;
  btrt : option Btrt.t;
  unknown : list D;
}.
Arguments t : clear implicits.
Arguments mk {D}.

Definition NAME : list byte := str "hev1".

Definition new {D} (visual_sample_entry : SampleEntry.t VisualSampleEntry.t) (hvcc : HvcC.t) (btrt : option Btrt.t) : t D :=
  mk (BoxHeader.new NAME) visual_sample_entry hvcc btrt [].

Section box.
Context `{BO : ByteOrder} {D : Type} (dsize : D -> Z) (dmux : forall W, IoWrite W -> D -> M W ErrorKind unit).

Definition primitive_size (b : t D) : Z :=
  SampleEntry.size (visual_sample_entry b) + Mp4Box.size (hvcc b) + opt_size Mp4Box.size (btrt b) +
  sum_of dsize (unknown b).

Definition primitive_mux W `{IoWrite W} (b : t D) : M W ErrorKind unit :=
  SampleEntry.mux W (visual_sample_entry b) ;;;
  Mp4Box.mux (hvcc b) ;;;
  if_some (btrt b) Mp4Box.mux ;;;
  for_each (unknown b) (dmux W _) ;;;
  ret tt.

Definition validate (b : t D) : res ErrorKind unit := Ok tt.

Definition size (b : t D) : Z := box_size (primitive_size b).
Definition mux W `{IoWrite W} (b : t D) : M W ErrorKind unit :=
  box_mux NAME (validate b) (size b) (primitive_mux W b).
End box.
End Hev1.

(** ** av01.rs *)

Module Av01.
Record t {D : Type} := mk {
  header : BoxHeader.t;
  visual_sample_entry : SampleEntry.t VisualSampleEntry.t;
  av1c : Av1C.t;
  btrt : option Btrt.t;
  unknown : list D;
}.
Arguments t : clear implicits.
Arguments mk {D}.

Definition NAME : list byte := str "av01".

Definition new {D} (visual_sample_entry : SampleEntry.t VisualSampleEntry.t) (av1c : Av1C.t) (btrt : option Btrt.t) : t D :=
  mk (BoxHeader.new NAME) visual_sample_entry av1c btrt [].

Section box.
Context `{BO : ByteOrder} {D : Type} (dsize : D -> Z) (dmux : forall W, IoWrite W -> D -> M W ErrorKind unit).

Definition primitive_size (b : t D) : Z :=
  SampleEntry.size (visual_sample_entry b) + Mp4Box.size (av1c b) + opt_size Mp4Box.size (btrt b) +
  sum_of dsize (unknown b).

Definition primitive_mux W `{IoWrite W} (b : t D) : M W ErrorKind unit :=
  SampleEntry.mux W (visual_sample_entry b) ;;;
  Mp4Box.mux (av1c b) ;;;
  if_some (btrt b) Mp4Box.mux ;;;
  for_each (unknown b) (dmux W _) ;;;
  ret tt.

Definition validate (b : t D) : res ErrorKind unit := Ok tt.

Definition size (b : t D) : Z := box_size (primitive_size b).
Definition mux W `{IoWrite W} (b : t D) : M W ErrorKind unit :=
  box_mux NAME (validate b) (size b) (primitive_mux W b).
End box.
End Av01.

(** ** mp4a.rs *)

Module Mp4a.
Record t {D : Type} := mk {
  header : BoxHeader.t;
  audio_sample_entry : SampleEntry.t AudioSampleEntry.t;
  esds : Esds.t;
  btrt : option Btrt.t;
  unknown : list D;
}.
Arguments t : clear implicits.
Arguments mk {D}.

Definition NAME : list byte := str "mp4a".

Definition new {D} (audio_sample_entry : SampleEntry.t AudioSampleEntry.t) (esds : Esds.t) (btrt : option Btrt.t) : t D :=
  mk (BoxHeader.new NAME) audio_sample_entry esds btrt [].

Section box.
Context `{BO : ByteOrder} {D : Type} (dsize : D -> Z) (dmux : forall W, IoWrite W -> D -> M W ErrorKind unit).

Definition primitive_size (b : t D) : Z :=
  SampleEntry.size (audio_sample_entry b) + opt_size Mp4Box.size (btrt b) + Mp4Box.size (esds b) +
  sum_of dsize (unknown b).

Definition primitive_mux W `{IoWrite W} (b : t D) : M W ErrorKind unit :=
  SampleEntry.mux W (audio_sample_entry b) ;;;
  Mp4Box.mux (esds b) ;;;
  if_some (btrt b) Mp4Box.mux ;;;
  for_each (unknown b) (dmux W _) ;;;
  ret tt.

Definition validate (b : t D) : res ErrorKind unit := Ok tt.

Definition size (b : t D) : Z := box_size (primitive_size b).
Definition mux W `{IoWrite W} (b : t D) : M W ErrorKind unit :=
  box_mux NAME (validate b) (size b) (primitive_mux W b).
End box.
End Mp4a.

(** ** opus.rs *)

Module Opus.
Record t {D : Type} := mk {
  header : BoxHeader.t;
  audio_sample_entry : SampleEntry.t AudioSampleEntry.t;
  btrt : option Btrt.t;
  unknown : list D;
}.
Arguments t : clear implicits.
Arguments mk {D}.

Definition NAME : list byte := str "Opus".

Definition new {D} (audio_sample_entry : SampleEntry.t AudioSampleEntry.t) (btrt : option Btrt.t) : t D :=
  mk (BoxHeader.new NAME) audio_sample_entry btrt [].

Section box.
Context `{BO : ByteOrder} {D : Type} (dsize : D -> Z) (dmux : forall W, IoWrite W -> D -> M W ErrorKind unit).

Definition primitive_size (b : t D) : Z :=
  SampleEntry.size (audio_sample_entry b) + opt_size Mp4Box.size (btrt b) + sum_of dsize (unknown b).

Definition primitive_mux W `{IoWrite W} (b : t D) : M W ErrorKind unit :=
  SampleEntry.mux W (audio_sample_entry b) ;;;
  if_some (btrt b) Mp4Box.mux ;;;
  for_each (unknown b) (dmux W _) ;;;
  ret tt.

Definition validate (b : t D) : res ErrorKind unit := Ok tt.

Definition size (b : t D) : Z := box_size (primitive_size b).
Definition mux W `{IoWrite W} (b : t D) : M W ErrorKind unit :=
  box_mux NAME (validate b) (size b) (primitive_mux W b).
End box.
End Opus.
