(* ===== verification/Mp4Dyn.v ===== *)
(** * [scuffle-mp4]: dynamic boxes (crates/mp4/src/boxes/mod.rs, macros.rs)

    The enum [DynBox] of all boxes, with its [size], [mux] and [name], the
    [demux] of every container, and [DynBox::demux], which dispatches on the
    type in the header. The locals of a container's loop are a record, and
    [take] is the [match] in its body. *)

From Stdlib Require Import Strings.String.
From stdpp Require Import base list numbers.
From Stdlib Require Import Strings.Byte.
From S2P Require Import Prelude Io BytesCursor Mp4Box Mp4Movie Mp4Tables Mp4Fragment Mp4Esds Mp4Config Mp4Containers.

#[local] Set Warnings "-register-all".

Module DynBox.
Inductive t :=
| Ftyp (b : Ftyp.t)
| Moov (b : Moov.t t)
| Mvhd (b : Mvhd.t)
| Mvex (b : Mvex.t t)
| Trak (b : Trak.t t)
| Trex (b : Trex.t)
| Mehd (b : Mehd.t)
| Mdia (b : Mdia.t t)
| Tkhd (b : Tkhd.t)
| Edts (b : Edts.t t)
| Elst (b : Elst.t)
| Mdhd (b : Mdhd.t)
| Minf (b : Minf.t t)
| Hdlr (b : Hdlr.t)
| Dinf (b : Dinf.t t)
| Stbl (b : Stbl.t t)
| Hmhd (b : Hmhd.t)
| Nmhd (b : Nmhd.t)
| Smhd (b : Smhd.t)
| Vmhd (b : Vmhd.t)
| Dref (b : Dref.t t)
| Stsd (b : Stsd.t t)
| Stsz (b : Stsz.t)
| Stsc (b : Stsc.t)
| Stco (b : Stco.t)
| Co64 (b : Co64.t)
| Stts (b : Stts.t)
| Stss (b : Stss.t)
| Stz2 (b : Stz2.t)
| Stsh (b : Stsh.t)
| Ctts (b : Ctts.t)
| Stdp (b : Stdp.t)
| Sbgp (b : Sbgp.t)
| Subs (b : Subs.t)
| Padb (b : Padb.t)
| Sdtp (b : Sdtp.t)
| Url (b : Url.t)
| Avc1 (b : Avc1.t t)
| Clap (b : Clap.t)
| Pasp (b : Pasp.t)
| AvcC (b : AvcC.t)
| Btrt (b : Btrt.t)
| Mp4a (b : Mp4a.t t)
| Esds (b : Esds.t)
| Moof (b : Moof.t t)
| Mfhd (b : Mfhd.t)
| Traf (b : Traf.t t)
| Tfhd (b : Tfhd.t)
| Tfdt (b : Tfdt.t)
| Trun (b : Trun.t)
| Mdat (b : Mdat.t)
| Av01 (b : Av01.t t)
| Av1C (b : Av1C.t)
| Colr (b : Colr.t)
| Hev1 (b : Hev1.t t)
| HvcC (b : HvcC.t)
| Opus (b : Opus.t t)
| Unknown (header : BoxHeader.t) (data : list byte).

Section ops.
Context `{BO : ByteOrder}.

Fixpoint size (dyn_box : t) : Z :=
  match dyn_box with
  | Ftyp b => Mp4Box.size b
  | Moov b => Moov.size size b
  | Mvhd b => Mp4Box.size b
  | Mvex b => Mvex.size size b
  | Trak b => Trak.size size b
  | Trex b => Mp4Box.size b
  | Mehd b => Mp4Box.size b
  | Mdia b => Mdia.size size b
  | Tkhd b => Mp4Box.size b
  | Edts b => Edts.size size b
  | Elst b => Mp4Box.size b
  | Mdhd b => Mp4Box.size b
  | Minf b => Minf.size size b
  | Hdlr b => Mp4Box.size b
  | Dinf b => Dinf.size size b
  | Stbl b => Stbl.size size b
  | Hmhd b => Mp4Box.size b
  | Nmhd b => Mp4Box.size b
  | Smhd b => Mp4Box.size b
  | Vmhd b => Mp4Box.size b
  | Dref b => Dref.size size b
  | Stsd b => Stsd.size size b
  | Stsz b => Mp4Box.size b
  | Stsc b => Mp4Box.size b
  | Stco b => Mp4Box.size b
  | Co64 b => Mp4Box.size b
  | Stts b => Mp4Box.size b
  | Stss b => Mp4Box.size b
  | Stz2 b => Mp4Box.size b
  | Stsh b => Mp4Box.size b
  | Ctts b => Mp4Box.size b
  | Stdp b => Mp4Box.size b
  | Sbgp b => Mp4Box.size b
  | Subs b => Mp4Box.size b
  | Padb b => Mp4Box.size b
  | Sdtp b => Mp4Box.size b
  | Url b => Mp4Box.size b
  | Avc1 b => Avc1.size size b
  | Clap b => Mp4Box.size b
  | Pasp b => Mp4Box.size b
  | AvcC b => Mp4Box.size b
  | Btrt b => Mp4Box.size b
  | Mp4a b => Mp4a.size size b
  | Esds b => Mp4Box.size b
  | Moof b => Moof.size size b
  | Mfhd b => Mp4Box.size b
  | Traf b => Traf.size size b
  | Tfhd b => Mp4Box.size b
  | Tfdt b => Mp4Box.size b
  | Trun b => Mp4Box.size b
  | Mdat b => Mp4Box.size b
  | Av01 b => Av01.size size b
  | Av1C b => Mp4Box.size b
  | Colr b => Mp4Box.size b
  | Hev1 b => Hev1.size size b
  | HvcC b => Mp4Box.size b
  | Opus b => Opus.size size b
  | Unknown _ data =>
      let size := blen data + 8 in
      if u32_max <? size then size + 8 else size
  end.

Fixpoint mux W (HW : IoWrite W) (dyn_box : t) {struct dyn_box} : M W ErrorKind unit :=
  match dyn_box with
  | Ftyp b => Mp4Box.mux b
  | Moov b => Moov.mux size mux W b
  | Mvhd b => Mp4Box.mux b
  | Mvex b => Mvex.mux size mux W b
  | Trak b => Trak.mux size mux W b
  | Trex b => Mp4Box.mux b
  | Mehd b => Mp4Box.mux b
  | Mdia b => Mdia.mux size mux W b
  | Tkhd b => Mp4Box.mux b
  | Edts b => Edts.mux size mux W b
  | Elst b => Mp4Box.mux b
  | Mdhd b => Mp4Box.mux b
  | Minf b => Minf.mux size mux W b
  | Hdlr b => Mp4Box.mux b
  | Dinf b => Dinf.mux size mux W b
  | Stbl b => Stbl.mux size mux W b
  | Hmhd b => Mp4Box.mux b
  | Nmhd b => Mp4Box.mux b
  | Smhd b => Mp4Box.mux b
  | Vmhd b => Mp4Box.mux b
  | Dref b => Dref.mux size mux W b
  | Stsd b => Stsd.mux size mux W b
  | Stsz b => Mp4Box.mux b
  | Stsc b => Mp4Box.mux b
  | Stco b => Mp4Box.mux b
  | Co64 b => Mp4Box.mux b
  | Stts b => Mp4Box.mux b
  | Stss b => Mp4Box.mux b
  | Stz2 b => Mp4Box.mux b
  | Stsh b => Mp4Box.mux b
  | Ctts b => Mp4Box.mux b
  | Stdp b => Mp4Box.mux b
  | Sbgp b => Mp4Box.mux b
  | Subs b => Mp4Box.mux b
  | Padb b => Mp4Box.mux b
  | Sdtp b => Mp4Box.mux b
  | Url b => Mp4Box.mux b
  | Avc1 b => Avc1.mux size mux W b
  | Clap b => Mp4Box.mux b
  | Pasp b => Mp4Box.mux b
  | AvcC b => Mp4Box.mux b
  | Btrt b => Mp4Box.mux b
  | Mp4a b => Mp4a.mux size mux W b
  | Esds b => Mp4Box.mux b
  | Moof b => Moof.mux size mux W b
  | Mfhd b => Mp4Box.mux b
  | Traf b => Traf.mux size mux W b
  | Tfhd b => Mp4Box.mux b
  | Tfdt b => Mp4Box.mux b
  | Trun b => Mp4Box.mux b
  | Mdat b => Mp4Box.mux b
  | Av01 b => Av01.mux size mux W b
  | Av1C b => Mp4Box.mux b
  | Colr b => Mp4Box.mux b
  | Hev1 b => Hev1.mux size mux W b
  | HvcC b => Mp4Box.mux b
  | Opus b => Opus.mux size mux W b
  | Unknown header data =>
      let size := blen data + 8 in
      (if u32_max <? size then write_u32 1 else write_u32 size) ;;;
      write_all (BoxHeader.box_type header) ;;;
      (if u32_max <? size then write_u64 size else ret tt) ;;;
      write_all data
  end.
End ops.

(** [Url::into], as the constructors of the data reference use it. *)
Definition dref_new : Dref.t t := Dref.new Url.
Definition dinf_new : Dinf.t t := Dinf.new Url.
Definition minf_new : Stbl.t t -> option Vmhd.t -> option Smhd.t -> Minf.t t := Minf.new Url.
End DynBox.

(** The step of the loop [while reader.has_remaining()] over the boxes. *)
Definition next {D S} (ddemux : M Cursor ErrorKind D) (take : S -> D -> S) (s : S) : M Cursor ErrorKind S :=
  let* dyn_box := ddemux in ret (take s dyn_box).

(** ** [Edts::demux] *)

Module EdtsDemux.
Record locals := mk {
  elst : option Elst.t;
  unknown : list DynBox.t;
}.

Definition init : locals := mk None [].

Definition take (s : locals) (dyn_box : DynBox.t) : locals :=
  match dyn_box with
  | DynBox.Elst b => mk (Some b) (unknown s)
  | _ => mk (elst s) (unknown s ++ [dyn_box])
  end.

Section demux.
Context `{BO : ByteOrder} (ddemux : M Cursor ErrorKind DynBox.t).

Definition demux (header : BoxHeader.t) (data : list byte) : res ErrorKind (Edts.t DynBox.t) := over data (
  let* s := loop_remaining (next ddemux take) init in
  ret (Edts.mk header (elst s) (unknown s))).
End demux.
End EdtsDemux.

(** ** [Mvex::demux] *)

Module MvexDemux.
Record locals := mk {
  trex : list Trex.t;
  mehd : option Mehd.t;
  unknown : list DynBox.t;
}.

Definition init : locals := mk [] None [].

Definition take (s : locals) (dyn_box : DynBox.t) : locals :=
  match dyn_box with
  | DynBox.Trex b => mk (trex s ++ [b]) (mehd s) (unknown s)
  | DynBox.Mehd b => mk (trex s) (Some b) (unknown s)
  | _ => mk (trex s) (mehd s) (unknown s ++ [dyn_box])
  end.

Section demux.
Context `{BO : ByteOrder} (ddemux : M Cursor ErrorKind DynBox.t).

Definition demux (header : BoxHeader.t) (data : list byte) : res ErrorKind (Mvex.t DynBox.t) := over data (
  let* s := loop_remaining (next ddemux take) init in
  ret (Mvex.mk header (trex s) (mehd s) (unknown s))).
End demux.
End MvexDemux.

(** ** [Dref::demux] *)

Module DrefDemux.
Section demux.
Context `{BO : ByteOrder} (ddemux : M Cursor ErrorKind DynBox.t).

Definition demux (header : BoxHeader.t) (data : list byte) : res ErrorKind (Dref.t DynBox.t) := over data (
  let* header := FullBoxHeader.demux header in
  let* entry_count := read_u32 in
  let* entries := read_times (Z.to_nat entry_count) ddemux in
  ret (Dref.mk header entries)).
End demux.
End DrefDemux.

(** ** [Dinf::demux] *)

Module DinfDemux.
Record locals := mk {
  dref : option (Dref.t DynBox.t);
  unknown : list DynBox.t;
}.

Definition init : locals := mk None [].

Definition take (s : locals) (dyn_box : DynBox.t) : locals :=
  match dyn_box with
  | DynBox.Dref b => mk (Some b) (unknown s)
  | _ => mk (dref s) (unknown s ++ [dyn_box])
  end.

Section demux.
Context `{BO : ByteOrder} (ddemux : M Cursor ErrorKind DynBox.t).

Definition demux (header : BoxHeader.t) (data : list byte) : res ErrorKind (Dinf.t DynBox.t) := over data (
  let* s := loop_remaining (next ddemux take) init in
  let* dref := unwrap (dref s) in
  ret (Dinf.mk header dref (unknown s))).
End demux.
End DinfDemux.

(** ** [Stsd::demux] *)

Module StsdDemux.
Section demux.
Context `{BO : ByteOrder} (ddemux : M Cursor ErrorKind DynBox.t).

Definition demux (header : BoxHeader.t) (data : list byte) : res ErrorKind (Stsd.t DynBox.t) := over data (
  let* header := FullBoxHeader.demux header in
  let* entry_count := read_u32 in
  let* entries := read_times (Z.to_nat entry_count) ddemux in
  ret (Stsd.mk header entries)).
End demux.
End StsdDemux.

(** ** [Stbl::demux] *)

Module StblDemux.
Record locals := mk {
  stsd : option (Stsd.t DynBox.t);
  stts : option Stts.t;
  ctts : option Ctts.t;
  stsc : option Stsc.t;
  stsz : option Stsz.t;
  stz2 : option Stz2.t;
  stco : option Stco.t;
  co64 : option Co64.t;
  stss : option Stss.t;
  stsh : option Stsh.t;
  padb : option Padb.t;
  stdp : option Stdp.t;
  sdtp : option Sdtp.t;
  sbgp : option Sbgp.t;
  subs : option Subs.t;
  unknown : list DynBox.t;
}.

Definition init : locals := mk None None None None None None None None None None None None None None None [].

Definition take (s : locals) (dyn_box : DynBox.t) : locals :=
  match dyn_box with
  | DynBox.Stsd b =>
      mk (Some b) (stts s) (ctts s) (stsc s) (stsz s) (stz2 s) (stco s) (co64 s) (stss s) (stsh s) (padb s)
      (stdp s) (sdtp s) (sbgp s) (subs s) (unknown s)
  | DynBox.Stts b =>
      mk (stsd s) (Some b) (ctts s) (stsc s) (stsz s) (stz2 s) (stco s) (co64 s) (stss s) (stsh s) (padb s)
      (stdp s) (sdtp s) (sbgp s) (subs s) (unknown s)
  | DynBox.Ctts b =>
      mk (stsd s) (stts s) (Some b) (stsc s) (stsz s) (stz2 s) (stco s) (co64 s) (stss s) (stsh s) (padb s)
      (stdp s) (sdtp s) (sbgp s) (subs s) (unknown s)
  | DynBox.Stsc b =>
      mk (stsd s) (stts s) (ctts s) (Some b) (stsz s) (stz2 s) (stco s) (co64 s) (stss s) (stsh s) (padb s)
      (stdp s) (sdtp s) (sbgp s) (subs s) (unknown s)
  | DynBox.Stsz b =>
      mk (stsd s) (stts s) (ctts s) (stsc s) (Some b) (stz2 s) (stco s) (co64 s) (stss s) (stsh s) (padb s)
      (stdp s) (sdtp s) (sbgp s) (subs s) (unknown s)
  | DynBox.Stz2 b =>
      mk (stsd s) (stts s) (ctts s) (stsc s) (stsz s) (Some b) (stco s) (co64 s) (stss s) (stsh s) (padb s)
      (stdp s) (sdtp s) (sbgp s) (subs s) (unknown s)
  | DynBox.Stco b =>
      mk (stsd s) (stts s) (ctts s) (stsc s) (stsz s) (stz2 s) (Some b) (co64 s) (stss s) (stsh s) (padb s)
      (stdp s) (sdtp s) (sbgp s) (subs s) (unknown s)
  | DynBox.Co64 b =>
      mk (stsd s) (stts s) (ctts s) (stsc s) (stsz s) (stz2 s) (stco s) (Some b) (stss s) (stsh s) (padb s)
      (stdp s) (sdtp s) (sbgp s) (subs s) (unknown s)
  | DynBox.Stss b =>
      mk (stsd s) (stts s) (ctts s) (stsc s) (stsz s) (stz2 s) (stco s) (co64 s) (Some b) (stsh s) (padb s)
      (stdp s) (sdtp s) (sbgp s) (subs s) (unknown s)
  | DynBox.Stsh b =>
      mk (stsd s) (stts s) (ctts s) (stsc s) (stsz s) (stz2 s) (stco s) (co64 s) (stss s) (Some b) (padb s)
      (stdp s) (sdtp s) (sbgp s) (subs s) (unknown s)
  | DynBox.Padb b =>
      mk (stsd s) (stts s) (ctts s) (stsc s) (stsz s) (stz2 s) (stco s) (co64 s) (stss s) (stsh s) (Some b)
      (stdp s) (sdtp s) (sbgp s) (subs s) (unknown s)
  | DynBox.Stdp b =>
      mk (stsd s) (stts s) (ctts s) (stsc s) (stsz s) (stz2 s) (stco s) (co64 s) (stss s) (stsh s) (padb s)
      (Some b) (sdtp s) (sbgp s) (subs s) (unknown s)
  | DynBox.Sdtp b =>
      mk (stsd s) (stts s) (ctts s) (stsc s) (stsz s) (stz2 s) (stco s) (co64 s) (stss s) (stsh s) (padb s)
      (stdp s) (Some b) (sbgp s) (subs s) (unknown s)
  | DynBox.Sbgp b =>
      mk (stsd s) (stts s) (ctts s) (stsc s) (stsz s) (stz2 s) (stco s) (co64 s) (stss s) (stsh s) (padb s)
      (stdp s) (sdtp s) (Some b) (subs s) (unknown s)
  | DynBox.Subs b =>
      mk (stsd s) (stts s) (ctts s) (stsc s) (stsz s) (stz2 s) (stco s) (co64 s) (stss s) (stsh s) (padb s)
      (stdp s) (sdtp s) (sbgp s) (Some b) (unknown s)
  | _ =>
      mk (stsd s) (stts s) (ctts s) (stsc s) (stsz s) (stz2 s) (stco s) (co64 s) (stss s) (stsh s) (padb s)
      (stdp s) (sdtp s) (sbgp s) (subs s) (unknown s ++ [dyn_box])
  end.

Section demux.
Context `{BO : ByteOrder} (ddemux : M Cursor ErrorKind DynBox.t).

Definition demux (header : BoxHeader.t) (data : list byte) : res ErrorKind (Stbl.t DynBox.t) := over data (
  let* s := loop_remaining (next ddemux take) init in
  let* stsd := ok_or (stsd s) InvalidData in
  let* stts := ok_or (stts s) InvalidData in
  let* stsc := ok_or (stsc s) InvalidData in
  let* stco := ok_or (stco s) InvalidData in
  ret (Stbl.mk header stsd stts (ctts s) stsc (stsz s) (stz2 s) stco (co64 s) (stss s) (stsh s) (padb s)
  (stdp s) (sdtp s) (sbgp s) (subs s) (unknown s))).
End demux.
End StblDemux.

(** ** [Minf::demux] *)

Module MinfDemux.
Record locals := mk {
  vmhd : option Vmhd.t;
  smhd : option Smhd.t;
  hmhd : option Hmhd.t;
  nmhd : option Nmhd.t;
  dinf : option (Dinf.t DynBox.t);
  stbl : option (Stbl.t DynBox.t);
  unknown : list DynBox.t;
}.

Definition init : locals := mk None None None None None None [].

Definition take (s : locals) (dyn_box : DynBox.t) : locals :=
  match dyn_box with
  | DynBox.Vmhd b => mk (Some b) (smhd s) (hmhd s) (nmhd s) (dinf s) (stbl s) (unknown s)
  | DynBox.Smhd b => mk (vmhd s) (Some b) (hmhd s) (nmhd s) (dinf s) (stbl s) (unknown s)
  | DynBox.Hmhd b => mk (vmhd s) (smhd s) (Some b) (nmhd s) (dinf s) (stbl s) (unknown s)
  | DynBox.Nmhd b => mk (vmhd s) (smhd s) (hmhd s) (Some b) (dinf s) (stbl s) (unknown s)
  | DynBox.Dinf b => mk (vmhd s) (smhd s) (hmhd s) (nmhd s) (Some b) (stbl s) (unknown s)
  | DynBox.Stbl b => mk (vmhd s) (smhd s) (hmhd s) (nmhd s) (dinf s) (Some b) (unknown s)
  | _ => mk (vmhd s) (smhd s) (hmhd s) (nmhd s) (dinf s) (stbl s) (unknown s ++ [dyn_box])
  end.

Section demux.
Context `{BO : ByteOrder} (ddemux : M Cursor ErrorKind DynBox.t).

Definition demux (header : BoxHeader.t) (data : list byte) : res ErrorKind (Minf.t DynBox.t) := over data (
  let* s := loop_remaining (next ddemux take) init in
  let* dinf := ok_or (dinf s) InvalidData in
  let* stbl := ok_or (stbl s) InvalidData in
  ret (Minf.mk header (vmhd s) (smhd s) (hmhd s) (nmhd s) dinf stbl (unknown s))).
End demux.
End MinfDemux.

(** ** [Mdia::demux] *)

Module MdiaDemux.
Record locals := mk {
  mdhd : option Mdhd.t;
  hdlr : option Hdlr.t;
  minf : option (Minf.t DynBox.t);
  unknown : list DynBox.t;
}.

Definition init : locals := mk None None None [].

Definition take (s : locals) (dyn_box : DynBox.t) : locals :=
  match dyn_box with
  | DynBox.Mdhd b => mk (Some b) (hdlr s) (minf s) (unknown s)
  | DynBox.Hdlr b => mk (mdhd s) (Some b) (minf s) (unknown s)
  | DynBox.Minf b => mk (mdhd s) (hdlr s) (Some b) (unknown s)
  | _ => mk (mdhd s) (hdlr s) (minf s) (unknown s ++ [dyn_box])
  end.

Section demux.
Context `{BO : ByteOrder} (ddemux : M Cursor ErrorKind DynBox.t).

Definition demux (header : BoxHeader.t) (data : list byte) : res ErrorKind (Mdia.t DynBox.t) := over data (
  let* s := loop_remaining (next ddemux take) init in
  let* mdhd := ok_or (mdhd s) InvalidData in
  let* hdlr := ok_or (hdlr s) InvalidData in
  let* minf := ok_or (minf s) InvalidData in
  ret (Mdia.mk header mdhd hdlr minf (unknown s))).
End demux.
End MdiaDemux.

(** ** [Trak::demux] *)

Module TrakDemux.
Record locals := mk {
  tkhd : option Tkhd.t;
  edts : option (Edts.t DynBox.t);
  mdia : option (Mdia.t DynBox.t);
  unknown : list DynBox.t;
}.

Definition init : locals := mk None None None [].

Definition take (s : locals) (dyn_box : DynBox.t) : locals :=
  match dyn_box with
  | DynBox.Tkhd b => mk (Some b) (edts s) (mdia s) (unknown s)
  | DynBox.Edts b => mk (tkhd s) (Some b) (mdia s) (unknown s)
  | DynBox.Mdia b => mk (tkhd s) (edts s) (Some b) (unknown s)
  | _ => mk (tkhd s) (edts s) (mdia s) (unknown s ++ [dyn_box])
  end.

Section demux.
Context `{BO : ByteOrder} (ddemux : M Cursor ErrorKind DynBox.t).

Definition demux (header : BoxHeader.t) (data : list byte) : res ErrorKind (Trak.t DynBox.t) := over data (
  let* s := loop_remaining (next ddemux take) init in
  let* tkhd := ok_or (tkhd s) InvalidData in
  let* mdia := ok_or (mdia s) InvalidData in
  ret (Trak.mk header tkhd (edts s) mdia (unknown s))).
End demux.
End TrakDemux.

(** ** [Moov::demux] *)

Module MoovDemux.
Record locals := mk {
  mvhd : option Mvhd.t;
  traks : list (Trak.t DynBox.t);
  mvex : option (Mvex.t DynBox.t);
  unknown : list DynBox.t;
}.

Definition init : locals := mk None [] None [].

Definition take (s : locals) (dyn_box : DynBox.t) : locals :=
  match dyn_box with
  | DynBox.Mvhd b => mk (Some b) (traks s) (mvex s) (unknown s)
  | DynBox.Trak b => mk (mvhd s) (traks s ++ [b]) (mvex s) (unknown s)
  | DynBox.Mvex b => mk (mvhd s) (traks s) (Some b) (unknown s)
  | _ => mk (mvhd s) (traks s) (mvex s) (unknown s ++ [dyn_box])
  end.

Section demux.
Context `{BO : ByteOrder} (ddemux : M Cursor ErrorKind DynBox.t).

Definition demux (header : BoxHeader.t) (data : list byte) : res ErrorKind (Moov.t DynBox.t) := over data (
  let* s := loop_remaining (next ddemux take) init in
  let* mvhd := ok_or (mvhd s) InvalidData in
  ret (Moov.mk header mvhd (traks s) (mvex s) (unknown s))).
End demux.
End MoovDemux.

(** ** [Traf::demux] *)

Module TrafDemux.
Record locals := mk {
  tfhd : option Tfhd.t;
  trun : option Trun.t;
  sbgp : option Sbgp.t;
  subs : option Subs.t;
  tfdt : option Tfdt.t;
  unknown : list DynBox.t;
}.

Definition init : locals := mk None None None None None [].

Definition take (s : locals) (dyn_box : DynBox.t) : locals :=
  match dyn_box with
  | DynBox.Tfhd b => mk (Some b) (trun s) (sbgp s) (subs s) (tfdt s) (unknown s)
  | DynBox.Trun b => mk (tfhd s) (Some b) (sbgp s) (subs s) (tfdt s) (unknown s)
  | DynBox.Sbgp b => mk (tfhd s) (trun s) (Some b) (subs s) (tfdt s) (unknown s)
  | DynBox.Subs b => mk (tfhd s) (trun s) (sbgp s) (Some b) (tfdt s) (unknown s)
  | DynBox.Tfdt b => mk (tfhd s) (trun s) (sbgp s) (subs s) (Some b) (unknown s)
  | _ => mk (tfhd s) (trun s) (sbgp s) (subs s) (tfdt s) (unknown s ++ [dyn_box])
  end.

Section demux.
Context `{BO : ByteOrder} (ddemux : M Cursor ErrorKind DynBox.t).

Definition demux (header : BoxHeader.t) (data : list byte) : res ErrorKind (Traf.t DynBox.t) := over data (
  let* s := loop_remaining (next ddemux take) init in
  let* tfhd := ok_or (tfhd s) InvalidData in
  ret (Traf.mk header tfhd (trun s) (sbgp s) (subs s) (tfdt s) (unknown s))).
End demux.
End TrafDemux.

(** ** [Moof::demux] *)

Module MoofDemux.
Record locals := mk {
  mfhd : option Mfhd.t;
  traf : list (Traf.t DynBox.t);
  unknown : list DynBox.t;
}.

Definition init : locals := mk None [] [].

Definition take (s : locals) (dyn_box : DynBox.t) : locals :=
  match dyn_box with
  | DynBox.Mfhd b => mk (Some b) (traf s) (unknown s)
  | DynBox.Traf b => mk (mfhd s) (traf s ++ [b]) (unknown s)
  | _ => mk (mfhd s) (traf s) (unknown s ++ [dyn_box])
  end.

Section demux.
Context `{BO : ByteOrder} (ddemux : M Cursor ErrorKind DynBox.t).

Definition demux (header : BoxHeader.t) (data : list byte) : res ErrorKind (Moof.t DynBox.t) := over data (
  let* s := loop_remaining (next ddemux take) init in
  let* mfhd := ok_or (mfhd s) InvalidData in
  ret (Moof.mk header mfhd (traf s) (unknown s))).
End demux.
End MoofDemux.

(** ** [Avc1::demux] *)

Module Avc1Demux.
Record locals := mk {
  visual_sample_entry : SampleEntry.t VisualSampleEntry.t;
  avcc : option AvcC.t;
  btrt : option Btrt.t;
  unknown : list DynBox.t;
}.

Definition init (visual_sample_entry : SampleEntry.t VisualSampleEntry.t) : locals :=
  mk visual_sample_entry None None [].

Definition take (s : locals) (dyn_box : DynBox.t) : locals :=
  match dyn_box with
  | DynBox.AvcC b => mk (visual_sample_entry s) (Some b) (btrt s) (unknown s)
  | DynBox.Btrt b => mk (visual_sample_entry s) (avcc s) (Some b) (unknown s)
  | DynBox.Clap b => mk (VisualEntry.set_clap (visual_sample_entry s) b) (avcc s) (btrt s) (unknown s)
  | DynBox.Pasp b => mk (VisualEntry.set_pasp (visual_sample_entry s) b) (avcc s) (btrt s) (unknown s)
  | DynBox.Colr b => mk (VisualEntry.set_colr (visual_sample_entry s) b) (avcc s) (btrt s) (unknown s)
  | _ => mk (visual_sample_entry s) (avcc s) (btrt s) (unknown s ++ [dyn_box])
  end.

Section demux.
Context `{BO : ByteOrder} (ddemux : M Cursor ErrorKind DynBox.t).

Definition demux (header : BoxHeader.t) (data : list byte) : res ErrorKind (Avc1.t DynBox.t) := over data (
  let* entry := SampleEntry.demux in
  let* s := loop_remaining (next ddemux take) (init entry) in
  let* avcc := ok_or (avcc s) InvalidData in
  ret (Avc1.mk header (visual_sample_entry s) avcc (btrt s) (unknown s))).
End demux.
End Avc1Demux.

(** ** [Hev1::demux] *)

Module Hev1Demux.
Record locals := mk {
  visual_sample_entry : SampleEntry.t VisualSampleEntry.t;
  hvcc : option HvcC.t;
  btrt : option Btrt.t;
  unknown : list DynBox.t;
}.

Definition init (visual_sample_entry : SampleEntry.t VisualSampleEntry.t) : locals :=
  mk visual_sample_entry None None [].

Definition take (s : locals) (dyn_box : DynBox.t) : locals :=
  match dyn_box with
  | DynBox.HvcC b => mk (visual_sample_entry s) (Some b) (btrt s) (unknown s)
  | DynBox.Btrt b => mk (visual_sample_entry s) (hvcc s) (Some b) (unknown s)
  | DynBox.Clap b => mk (VisualEntry.set_clap (visual_sample_entry s) b) (hvcc s) (btrt s) (unknown s)
  | DynBox.Pasp b => mk (VisualEntry.set_pasp (visual_sample_entry s) b) (hvcc s) (btrt s) (unknown s)
  | DynBox.Colr b => mk (VisualEntry.set_colr (visual_sample_entry s) b) (hvcc s) (btrt s) (unknown s)
  | _ => mk (visual_sample_entry s) (hvcc s) (btrt s) (unknown s ++ [dyn_box])
  end.

Section demux.
Context `{BO : ByteOrder} (ddemux : M Cursor ErrorKind DynBox.t).

Definition demux (header : BoxHeader.t) (data : list byte) : res ErrorKind (Hev1.t DynBox.t) := over data (
  let* entry := SampleEntry.demux in
  let* s := loop_remaining (next ddemux take) (init entry) in
  let* hvcc := ok_or (hvcc s) InvalidData in
  ret (Hev1.mk header (visual_sample_entry s) hvcc (btrt s) (unknown s))).
End demux.
End Hev1Demux.

(** ** [Av01::demux] *)

Module Av01Demux.
Record locals := mk {
  visual_sample_entry : SampleEntry.t VisualSampleEntry.t;
  av1c : option Av1C.t;
  btrt : option Btrt.t;
  unknown : list DynBox.t;
}.

Definition init (visual_sample_entry : SampleEntry.t VisualSampleEntry.t) : locals :=
  mk visual_sample_entry None None [].

Definition take (s : locals) (dyn_box : DynBox.t) : locals :=
  match dyn_box with
  | DynBox.Av1C b => mk (visual_sample_entry s) (Some b) (btrt s) (unknown s)
  | DynBox.Btrt b => mk (visual_sample_entry s) (av1c s) (Some b) (unknown s)
  | DynBox.Clap b => mk (VisualEntry.set_clap (visual_sample_entry s) b) (av1c s) (btrt s) (unknown s)
  | DynBox.Pasp b => mk (VisualEntry.set_pasp (visual_sample_entry s) b) (av1c s) (btrt s) (unknown s)
  | DynBox.Colr b => mk (VisualEntry.set_colr (visual_sample_entry s) b) (av1c s) (btrt s) (unknown s)
  | _ => mk (visual_sample_entry s) (av1c s) (btrt s) (unknown s ++ [dyn_box])
  end.

Section demux.
Context `{BO : ByteOrder} (ddemux : M Cursor ErrorKind DynBox.t).

Definition demux (header : BoxHeader.t) (data : list byte) : res ErrorKind (Av01.t DynBox.t) := over data (
  let* entry := SampleEntry.demux in
  let* s := loop_remaining (next ddemux take) (init entry) in
  let* av1c := ok_or (av1c s) InvalidData in
  ret (Av01.mk header (visual_sample_entry s) av1c (btrt s) (unknown s))).
End demux.
End Av01Demux.

(** ** [Mp4a::demux] *)

Module Mp4aDemux.
Record locals := mk {
  esds : option Esds.t;
  btrt : option Btrt.t;
  unknown : list DynBox.t;
}.

Definition init : locals := mk None None [].

Definition take (s : locals) (dyn_box : DynBox.t) : locals :=
  match dyn_box with
  | DynBox.Esds b => mk (Some b) (btrt s) (unknown s)
  | DynBox.Btrt b => mk (esds s) (Some b) (unknown s)
  | _ => mk (esds s) (btrt s) (unknown s ++ [dyn_box])
  end.

Section demux.
Context `{BO : ByteOrder} (ddemux : M Cursor ErrorKind DynBox.t).

Definition demux (header : BoxHeader.t) (data : list byte) : res ErrorKind (Mp4a.t DynBox.t) := over data (
  let* audio_sample_entry := SampleEntry.demux in
  let* s := loop_remaining (next ddemux take) init in
  let* esds := ok_or (esds s) InvalidData in
  ret (Mp4a.mk header audio_sample_entry esds (btrt s) (unknown s))).
End demux.
End Mp4aDemux.

(** ** [Opus::demux] *)

Module OpusDemux.
Record locals := mk {
  btrt : option Btrt.t;
  unknown : list DynBox.t;
}.

Definition init : locals := mk None [].

Definition take (s : locals) (dyn_box : DynBox.t) : locals :=
  match dyn_box with
  | DynBox.Btrt b => mk (Some b) (unknown s)
  | _ => mk (btrt s) (unknown s ++ [dyn_box])
  end.

Section demux.
Context `{BO : ByteOrder} (ddemux : M Cursor ErrorKind DynBox.t).

Definition demux (header : BoxHeader.t) (data : list byte) : res ErrorKind (Opus.t DynBox.t) := over data (
  let* audio_sample_entry := SampleEntry.demux in
  let* s := loop_remaining (next ddemux take) init in
  ret (Opus.mk header audio_sample_entry (btrt s) (unknown s))).
End demux.
End OpusDemux.

(** ** [DynBox::demux] *)

Module DynBoxDemux.
Section demux.
Context `{BO : ByteOrder}.

(** [match &header.box_type { &Ftyp::NAME => .., .., _ => Unknown }] *)
Definition demux_data (ddemux : M Cursor ErrorKind DynBox.t) (header : BoxHeader.t) (data : list byte) :
    M Cursor ErrorKind DynBox.t :=
  let box_type := BoxHeader.box_type header in
  if decide (box_type = Ftyp.NAME) then let* b := lift (Mp4Box.demux header data) in ret (DynBox.Ftyp b) else
  if decide (box_type = Moov.NAME) then let* b := lift (MoovDemux.demux ddemux header data) in ret (DynBox.Moov b) else
  if decide (box_type = Mvhd.NAME) then let* b := lift (Mp4Box.demux header data) in ret (DynBox.Mvhd b) else
  if decide (box_type = Mvex.NAME) then let* b := lift (MvexDemux.demux ddemux header data) in ret (DynBox.Mvex b) else
  if decide (box_type = Trak.NAME) then let* b := lift (TrakDemux.demux ddemux header data) in ret (DynBox.Trak b) else
  if decide (box_type = Trex.NAME) then let* b := lift (Mp4Box.demux header data) in ret (DynBox.Trex b) else
  if decide (box_type = Mehd.NAME) then let* b := lift (Mp4Box.demux header data) in ret (DynBox.Mehd b) else
  if decide (box_type = Mdia.NAME) then let* b := lift (MdiaDemux.demux ddemux header data) in ret (DynBox.Mdia b) else
  if decide (box_type = Tkhd.NAME) then let* b := lift (Mp4Box.demux header data) in ret (DynBox.Tkhd b) else
  if decide (box_type = Edts.NAME) then let* b := lift (EdtsDemux.demux ddemux header data) in ret (DynBox.Edts b) else
  if decide (box_type = Elst.NAME) then let* b := lift (Mp4Box.demux header data) in ret (DynBox.Elst b) else
  if decide (box_type = Mdhd.NAME) then let* b := lift (Mp4Box.demux header data) in ret (DynBox.Mdhd b) else
  if decide (box_type = Minf.NAME) then let* b := lift (MinfDemux.demux ddemux header data) in ret (DynBox.Minf b) else
  if decide (box_type = Hdlr.NAME) then let* b := lift (Mp4Box.demux header data) in ret (DynBox.Hdlr b) else
  if decide (box_type = Dinf.NAME) then let* b := lift (DinfDemux.demux ddemux header data) in ret (DynBox.Dinf b) else
  if decide (box_type = Stbl.NAME) then let* b := lift (StblDemux.demux ddemux header data) in ret (DynBox.Stbl b) else
  if decide (box_type = Hmhd.NAME) then let* b := lift (Mp4Box.demux header data) in ret (DynBox.Hmhd b) else
  if decide (box_type = Nmhd.NAME) then let* b := lift (Mp4Box.demux header data) in ret (DynBox.Nmhd b) else
  if decide (box_type = Smhd.NAME) then let* b := lift (Mp4Box.demux header data) in ret (DynBox.Smhd b) else
  if decide (box_type = Vmhd.NAME) then let* b := lift (Mp4Box.demux header data) in ret (DynBox.Vmhd b) else
  if decide (box_type = Dref.NAME) then let* b := lift (DrefDemux.demux ddemux header data) in ret (DynBox.Dref b) else
  if decide (box_type = Stsd.NAME) then let* b := lift (StsdDemux.demux ddemux header data) in ret (DynBox.Stsd b) else
  if decide (box_type = Stsz.NAME) then let* b := lift (Mp4Box.demux header data) in ret (DynBox.Stsz b) else
  if decide (box_type = Stsc.NAME) then let* b := lift (Mp4Box.demux header data) in ret (DynBox.Stsc b) else
  if decide (box_type = Stco.NAME) then let* b := lift (Mp4Box.demux header data) in ret (DynBox.Stco b) else
  if decide (box_type = Co64.NAME) then let* b := lift (Mp4Box.demux header data) in ret (DynBox.Co64 b) else
  if decide (box_type = Stts.NAME) then let* b := lift (Mp4Box.demux header data) in ret (DynBox.Stts b) else
  if decide (box_type = Stss.NAME) then let* b := lift (Mp4Box.demux header data) in ret (DynBox.Stss b) else
  if decide (box_type = Stz2.NAME) then let* b := lift (Mp4Box.demux header data) in ret (DynBox.Stz2 b) else
  if decide (box_type = Stsh.NAME) then let* b := lift (Mp4Box.demux header data) in ret (DynBox.Stsh b) else
  if decide (box_type = Ctts.NAME) then let* b := lift (Mp4Box.demux header data) in ret (DynBox.Ctts b) else
  if decide (box_type = Stdp.NAME) then let* b := lift (Mp4Box.demux header data) in ret (DynBox.Stdp b) else
  if decide (box_type = Sbgp.NAME) then let* b := lift (Mp4Box.demux header data) in ret (DynBox.Sbgp b) else
  if decide (box_type = Subs.NAME) then let* b := lift (Mp4Box.demux header data) in ret (DynBox.Subs b) else
  if decide (box_type = Padb.NAME) then let* b := lift (Mp4Box.demux header data) in ret (DynBox.Padb b) else
  if decide (box_type = Sdtp.NAME) then let* b := lift (Mp4Box.demux header data) in ret (DynBox.Sdtp b) else
  if decide (box_type = Url.NAME) then let* b := lift (Mp4Box.demux header data) in ret (DynBox.Url b) else
  if decide (box_type = Avc1.NAME) then let* b := lift (Avc1Demux.demux ddemux header data) in ret (DynBox.Avc1 b) else
  if decide (box_type = Clap.NAME) then let* b := lift (Mp4Box.demux header data) in ret (DynBox.Clap b) else
  if decide (box_type = Pasp.NAME) then let* b := lift (Mp4Box.demux header data) in ret (DynBox.Pasp b) else
  if decide (box_type = AvcC.NAME) then let* b := lift (Mp4Box.demux header data) in ret (DynBox.AvcC b) else
  if decide (box_type = Btrt.NAME) then let* b := lift (Mp4Box.demux header data) in ret (DynBox.Btrt b) else
  if decide (box_type = Mp4a.NAME) then let* b := lift (Mp4aDemux.demux ddemux header data) in ret (DynBox.Mp4a b) else
  if decide (box_type = Esds.NAME) then let* b := lift (Mp4Box.demux header data) in ret (DynBox.Esds b) else
  if decide (box_type = Moof.NAME) then let* b := lift (MoofDemux.demux ddemux header data) in ret (DynBox.Moof b) else
  if decide (box_type = Mfhd.NAME) then let* b := lift (Mp4Box.demux header data) in ret (DynBox.Mfhd b) else
  if decide (box_type = Traf.NAME) then let* b := lift (TrafDemux.demux ddemux header data) in ret (DynBox.Traf b) else
  if decide (box_type = Tfhd.NAME) then let* b := lift (Mp4Box.demux header data) in ret (DynBox.Tfhd b) else
  if decide (box_type = Tfdt.NAME) then let* b := lift (Mp4Box.demux header data) in ret (DynBox.Tfdt b) else
  if decide (box_type = Trun.NAME) then let* b := lift (Mp4Box.demux header data) in ret (DynBox.Trun b) else
  if decide (box_type = Mdat.NAME) then let* b := lift (Mp4Box.demux header data) in ret (DynBox.Mdat b) else
  if decide (box_type = Av01.NAME) then let* b := lift (Av01Demux.demux ddemux header data) in ret (DynBox.Av01 b) else
  if decide (box_type = Av1C.NAME) then let* b := lift (Mp4Box.demux header data) in ret (DynBox.Av1C b) else
  if decide (box_type = Colr.NAME) then let* b := lift (Mp4Box.demux header data) in ret (DynBox.Colr b) else
  if decide (box_type = Hev1.NAME) then let* b := lift (Hev1Demux.demux ddemux header data) in ret (DynBox.Hev1 b) else
  if decide (box_type = HvcC.NAME) then let* b := lift (Mp4Box.demux header data) in ret (DynBox.HvcC b) else
  if decide (box_type = Opus.NAME) then let* b := lift (OpusDemux.demux ddemux header data) in ret (DynBox.Opus b) else
  ret (DynBox.Unknown header data).

(** A box inside another has at least eight bytes less, so the bytes left bound
    the depth. *)
Fixpoint demux_fuel (fuel : nat) : M Cursor ErrorKind DynBox.t :=
  match fuel with
  | O => out_of_fuel
  | S fuel => let* (header, data) := BoxHeader.demux in demux_data (demux_fuel fuel) header data
  end.

Definition demux : M Cursor ErrorKind DynBox.t :=
  let* c := get in demux_fuel (S (length (cursor_rest c))).
End demux.
End DynBoxDemux.
