(* ===== verification/Mp4DynLaws.v ===== *)
(** * [scuffle-mp4]: what dynamic boxes write is read back

    The children of a box in the order they are written, the boxes that are
    well-formed and fair at every level, and the proof that [DynBox::demux]
    reads such a box back from what [DynBox::mux] wrote. *)

From Stdlib Require Import Strings.String.
From stdpp Require Import base list numbers.
From Stdlib Require Import Strings.Byte.
From S2P Require Import Prelude Io BytesCursor H264 Flv Mp4Box Mp4Movie Mp4Tables Mp4Fragment Mp4Esds Mp4Config Mp4Containers Mp4Dyn.

Module DynLaws.
Import TotalParse.

(** [impl From<X> for DynBox] *)
Class IntoDyn (A : Type) := into : A -> DynBox.t.

#[export] Instance into_ftyp : IntoDyn Ftyp.t := DynBox.Ftyp.
#[export] Instance into_moov : IntoDyn (Moov.t DynBox.t) := DynBox.Moov.
#[export] Instance into_mvhd : IntoDyn Mvhd.t := DynBox.Mvhd.
#[export] Instance into_mvex : IntoDyn (Mvex.t DynBox.t) := DynBox.Mvex.
#[export] Instance into_trak : IntoDyn (Trak.t DynBox.t) := DynBox.Trak.
#[export] Instance into_trex : IntoDyn Trex.t := DynBox.Trex.
#[export] Instance into_mehd : IntoDyn Mehd.t := DynBox.Mehd.
#[export] Instance into_mdia : IntoDyn (Mdia.t DynBox.t) := DynBox.Mdia.
#[export] Instance into_tkhd : IntoDyn Tkhd.t := DynBox.Tkhd.
#[export] Instance into_edts : IntoDyn (Edts.t DynBox.t) := DynBox.Edts.
#[export] Instance into_elst : IntoDyn Elst.t := DynBox.Elst.
#[export] Instance into_mdhd : IntoDyn Mdhd.t := DynBox.Mdhd.
#[export] Instance into_minf : IntoDyn (Minf.t DynBox.t) := DynBox.Minf.
#[export] Instance into_hdlr : IntoDyn Hdlr.t := DynBox.Hdlr.
#[export] Instance into_dinf : IntoDyn (Dinf.t DynBox.t) := DynBox.Dinf.
#[export] Instance into_stbl : IntoDyn (Stbl.t DynBox.t) := DynBox.Stbl.
#[export] Instance into_hmhd : IntoDyn Hmhd.t := DynBox.Hmhd.
#[export] Instance into_nmhd : IntoDyn Nmhd.t := DynBox.Nmhd.
#[export] Instance into_smhd : IntoDyn Smhd.t := DynBox.Smhd.
#[export] Instance into_vmhd : IntoDyn Vmhd.t := DynBox.Vmhd.
#[export] Instance into_dref : IntoDyn (Dref.t DynBox.t) := DynBox.Dref.
#[export] Instance into_stsd : IntoDyn (Stsd.t DynBox.t) := DynBox.Stsd.
#[export] Instance into_stsz : IntoDyn Stsz.t := DynBox.Stsz.
#[export] Instance into_stsc : IntoDyn Stsc.t := DynBox.Stsc.
#[export] Instance into_stco : IntoDyn Stco.t := DynBox.Stco.
#[export] Instance into_co64 : IntoDyn Co64.t := DynBox.Co64.
#[export] Instance into_stts : IntoDyn Stts.t := DynBox.Stts.
#[export] Instance into_stss : IntoDyn Stss.t := DynBox.Stss.
#[export] Instance into_stz2 : IntoDyn Stz2.t := DynBox.Stz2.
#[export] Instance into_stsh : IntoDyn Stsh.t := DynBox.Stsh.
#[export] Instance into_ctts : IntoDyn Ctts.t := DynBox.Ctts.
#[export] Instance into_stdp : IntoDyn Stdp.t := DynBox.Stdp.
#[export] Instance into_sbgp : IntoDyn Sbgp.t := DynBox.Sbgp.
#[export] Instance into_subs : IntoDyn Subs.t := DynBox.Subs.
#[export] Instance into_padb : IntoDyn Padb.t := DynBox.Padb.
#[export] Instance into_sdtp : IntoDyn Sdtp.t := DynBox.Sdtp.
#[export] Instance into_url : IntoDyn Url.t := DynBox.Url.
#[export] Instance into_avc1 : IntoDyn (Avc1.t DynBox.t) := DynBox.Avc1.
#[export] Instance into_clap : IntoDyn Clap.t := DynBox.Clap.
#[export] Instance into_pasp : IntoDyn Pasp.t := DynBox.Pasp.
#[export] Instance into_avcc : IntoDyn AvcC.t := DynBox.AvcC.
#[export] Instance into_btrt : IntoDyn Btrt.t := DynBox.Btrt.
#[export] Instance into_mp4a : IntoDyn (Mp4a.t DynBox.t) := DynBox.Mp4a.
#[export] Instance into_esds : IntoDyn Esds.t := DynBox.Esds.
#[export] Instance into_moof : IntoDyn (Moof.t DynBox.t) := DynBox.Moof.
#[export] Instance into_mfhd : IntoDyn Mfhd.t := DynBox.Mfhd.
#[export] Instance into_traf : IntoDyn (Traf.t DynBox.t) := DynBox.Traf.
#[export] Instance into_tfhd : IntoDyn Tfhd.t := DynBox.Tfhd.
#[export] Instance into_tfdt : IntoDyn Tfdt.t := DynBox.Tfdt.
#[export] Instance into_trun : IntoDyn Trun.t := DynBox.Trun.
#[export] Instance into_mdat : IntoDyn Mdat.t := DynBox.Mdat.
#[export] Instance into_av01 : IntoDyn (Av01.t DynBox.t) := DynBox.Av01.
#[export] Instance into_av1c : IntoDyn Av1C.t := DynBox.Av1C.
#[export] Instance into_colr : IntoDyn Colr.t := DynBox.Colr.
#[export] Instance into_hev1 : IntoDyn (Hev1.t DynBox.t) := DynBox.Hev1.
#[export] Instance into_hvcc : IntoDyn HvcC.t := DynBox.HvcC.
#[export] Instance into_opus : IntoDyn (Opus.t DynBox.t) := DynBox.Opus.

(** The boxes directly inside a box, in the order they are written. *)
Definition children (dyn_box : DynBox.t) : list DynBox.t :=
  match dyn_box with
  | DynBox.Edts b => (DynBox.Elst <$> option_list (Edts.elst b)) ++ Edts.unknown b
  | DynBox.Mvex b =>
      (DynBox.Trex <$> Mvex.trex b) ++ (DynBox.Mehd <$> option_list (Mvex.mehd b)) ++ Mvex.unknown b
  | DynBox.Dref b => Dref.entries b
  | DynBox.Dinf b => [DynBox.Dref (Dinf.dref b)] ++ Dinf.unknown b
  | DynBox.Stsd b => Stsd.entries b
  | DynBox.Stbl b =>
      [DynBox.Stsd (Stbl.stsd b)] ++ [DynBox.Stts (Stbl.stts b)] ++
      (DynBox.Ctts <$> option_list (Stbl.ctts b)) ++ [DynBox.Stsc (Stbl.stsc b)] ++
      (DynBox.Stsz <$> option_list (Stbl.stsz b)) ++ (DynBox.Stz2 <$> option_list (Stbl.stz2 b)) ++
      [DynBox.Stco (Stbl.stco b)] ++ (DynBox.Co64 <$> option_list (Stbl.co64 b)) ++
      (DynBox.Stss <$> option_list (Stbl.stss b)) ++ (DynBox.Stsh <$> option_list (Stbl.stsh b)) ++
      (DynBox.Padb <$> option_list (Stbl.padb b)) ++ (DynBox.Stdp <$> option_list (Stbl.stdp b)) ++
      (DynBox.Sdtp <$> option_list (Stbl.sdtp b)) ++ (DynBox.Sbgp <$> option_list (Stbl.sbgp b)) ++
      (DynBox.Subs <$> option_list (Stbl.subs b)) ++ Stbl.unknown b
  | DynBox.Minf b =>
      (DynBox.Vmhd <$> option_list (Minf.vmhd b)) ++ (DynBox.Smhd <$> option_list (Minf.smhd b)) ++
      (DynBox.Hmhd <$> option_list (Minf.hmhd b)) ++ (DynBox.Nmhd <$> option_list (Minf.nmhd b)) ++
      [DynBox.Dinf (Minf.dinf b)] ++ [DynBox.Stbl (Minf.stbl b)] ++ Minf.unknown b
  | DynBox.Mdia b =>
      [DynBox.Mdhd (Mdia.mdhd b)] ++ [DynBox.Hdlr (Mdia.hdlr b)] ++ [DynBox.Minf (Mdia.minf b)] ++
      Mdia.unknown b
  | DynBox.Trak b =>
      [DynBox.Tkhd (Trak.tkhd b)] ++ (DynBox.Edts <$> option_list (Trak.edts b)) ++
      [DynBox.Mdia (Trak.mdia b)] ++ Trak.unknown b
  | DynBox.Moov b =>
      [DynBox.Mvhd (Moov.mvhd b)] ++ (DynBox.Trak <$> Moov.traks b) ++
      (DynBox.Mvex <$> option_list (Moov.mvex b)) ++ Moov.unknown b
  | DynBox.Traf b =>
      [DynBox.Tfhd (Traf.tfhd b)] ++ (DynBox.Sbgp <$> option_list (Traf.sbgp b)) ++
      (DynBox.Subs <$> option_list (Traf.subs b)) ++ (DynBox.Tfdt <$> option_list (Traf.tfdt b)) ++
      Traf.unknown b ++ (DynBox.Trun <$> option_list (Traf.trun b))
  | DynBox.Moof b => [DynBox.Mfhd (Moof.mfhd b)] ++ (DynBox.Traf <$> Moof.traf b) ++ Moof.unknown b
  | DynBox.Avc1 b =>

      (DynBox.Clap <$> option_list (VisualSampleEntry.clap (SampleEntry.extension (Avc1.visual_sample_entry b)))) ++
      (DynBox.Pasp <$> option_list (VisualSampleEntry.pasp (SampleEntry.extension (Avc1.visual_sample_entry b)))) ++
      (DynBox.Colr <$> option_list (VisualSampleEntry.colr (SampleEntry.extension (Avc1.visual_sample_entry b)))) ++
      [DynBox.AvcC (Avc1.avcc b)] ++ (DynBox.Btrt <$> option_list (Avc1.btrt b)) ++ Avc1.unknown b
  | DynBox.Hev1 b =>

      (DynBox.Clap <$> option_list (VisualSampleEntry.clap (SampleEntry.extension (Hev1.visual_sample_entry b)))) ++
      (DynBox.Pasp <$> option_list (VisualSampleEntry.pasp (SampleEntry.extension (Hev1.visual_sample_entry b)))) ++
      (DynBox.Colr <$> option_list (VisualSampleEntry.colr (SampleEntry.extension (Hev1.visual_sample_entry b)))) ++
      [DynBox.HvcC (Hev1.hvcc b)] ++ (DynBox.Btrt <$> option_list (Hev1.btrt b)) ++ Hev1.unknown b
  | DynBox.Av01 b =>

      (DynBox.Clap <$> option_list (VisualSampleEntry.clap (SampleEntry.extension (Av01.visual_sample_entry b)))) ++
      (DynBox.Pasp <$> option_list (VisualSampleEntry.pasp (SampleEntry.extension (Av01.visual_sample_entry b)))) ++
      (DynBox.Colr <$> option_list (VisualSampleEntry.colr (SampleEntry.extension (Av01.visual_sample_entry b)))) ++
      [DynBox.Av1C (Av01.av1c b)] ++ (DynBox.Btrt <$> option_list (Av01.btrt b)) ++ Av01.unknown b
  | DynBox.Mp4a b =>
      [DynBox.Esds (Mp4a.esds b)] ++ (DynBox.Btrt <$> option_list (Mp4a.btrt b)) ++ Mp4a.unknown b
  | DynBox.Opus b => (DynBox.Btrt <$> option_list (Opus.btrt b)) ++ Opus.unknown b
  | _ => []
  end.

(** [P] holds of a box and of every box inside it. *)
Inductive every (P : DynBox.t -> Prop) (b : DynBox.t) : Prop :=
| every_node : P b -> (forall x, x ∈ children b -> every P x) -> every P b.

(** The boxes that a container does not have a field for. *)
Definition edts_other (d : DynBox.t) : Prop :=
  match d with DynBox.Elst _ => False | _ => True end.
Definition mvex_other (d : DynBox.t) : Prop :=
  match d with DynBox.Trex _ | DynBox.Mehd _ => False | _ => True end.
Definition dinf_other (d : DynBox.t) : Prop :=
  match d with DynBox.Dref _ => False | _ => True end.
Definition stbl_other (d : DynBox.t) : Prop :=
  match d with DynBox.Stsd _ | DynBox.Stts _ | DynBox.Ctts _ | DynBox.Stsc _ | DynBox.Stsz _ |
  DynBox.Stz2 _ | DynBox.Stco _ | DynBox.Co64 _ | DynBox.Stss _ | DynBox.Stsh _ | DynBox.Padb _ |
  DynBox.Stdp _ | DynBox.Sdtp _ | DynBox.Sbgp _ | DynBox.Subs _ => False | _ => True end.
Definition minf_other (d : DynBox.t) : Prop :=
  match d with DynBox.Vmhd _ | DynBox.Smhd _ | DynBox.Hmhd _ | DynBox.Nmhd _ | DynBox.Dinf _ |
  DynBox.Stbl _ => False | _ => True end.
Definition mdia_other (d : DynBox.t) : Prop :=
  match d with DynBox.Mdhd _ | DynBox.Hdlr _ | DynBox.Minf _ => False | _ => True end.
Definition trak_other (d : DynBox.t) : Prop :=
  match d with DynBox.Tkhd _ | DynBox.Edts _ | DynBox.Mdia _ => False | _ => True end.
Definition moov_other (d : DynBox.t) : Prop :=
  match d with DynBox.Mvhd _ | DynBox.Trak _ | DynBox.Mvex _ => False | _ => True end.
Definition traf_other (d : DynBox.t) : Prop :=
  match d with DynBox.Tfhd _ | DynBox.Trun _ | DynBox.Sbgp _ | DynBox.Subs _ | DynBox.Tfdt _ => False
  | _ => True end.
Definition moof_other (d : DynBox.t) : Prop :=
  match d with DynBox.Mfhd _ | DynBox.Traf _ => False | _ => True end.
Definition avc1_other (d : DynBox.t) : Prop :=
  match d with DynBox.AvcC _ | DynBox.Btrt _ | DynBox.Clap _ | DynBox.Pasp _ | DynBox.Colr _ => False
  | _ => True end.
Definition hev1_other (d : DynBox.t) : Prop :=
  match d with DynBox.HvcC _ | DynBox.Btrt _ | DynBox.Clap _ | DynBox.Pasp _ | DynBox.Colr _ => False
  | _ => True end.
Definition av01_other (d : DynBox.t) : Prop :=
  match d with DynBox.Av1C _ | DynBox.Btrt _ | DynBox.Clap _ | DynBox.Pasp _ | DynBox.Colr _ => False
  | _ => True end.
Definition mp4a_other (d : DynBox.t) : Prop :=
  match d with DynBox.Esds _ | DynBox.Btrt _ => False | _ => True end.
Definition opus_other (d : DynBox.t) : Prop :=
  match d with DynBox.Btrt _ => False | _ => True end.

(** The types that have a box. *)
Definition NAMES : list (list byte) :=
  [Ftyp.NAME; Moov.NAME; Mvhd.NAME; Mvex.NAME; Trak.NAME; Trex.NAME; Mehd.NAME; Mdia.NAME; Tkhd.NAME;
  Edts.NAME; Elst.NAME; Mdhd.NAME; Minf.NAME; Hdlr.NAME; Dinf.NAME; Stbl.NAME; Hmhd.NAME; Nmhd.NAME; Smhd.NAME;
  Vmhd.NAME; Dref.NAME; Stsd.NAME; Stsz.NAME; Stsc.NAME; Stco.NAME; Co64.NAME; Stts.NAME; Stss.NAME; Stz2.NAME;
  Stsh.NAME; Ctts.NAME; Stdp.NAME; Sbgp.NAME; Subs.NAME; Padb.NAME; Sdtp.NAME; Url.NAME; Avc1.NAME; Clap.NAME;
  Pasp.NAME; AvcC.NAME; Btrt.NAME; Mp4a.NAME; Esds.NAME; Moof.NAME; Mfhd.NAME; Traf.NAME; Tfhd.NAME; Tfdt.NAME;
  Trun.NAME; Mdat.NAME; Av01.NAME; Av1C.NAME; Colr.NAME; Hev1.NAME; HvcC.NAME; Opus.NAME].

Section wf.
Context `{BO : ByteOrder}.

(** What holds of the fields of every box that [demux] returns. *)
Definition local_wf (dyn_box : DynBox.t) : Prop :=
  match dyn_box with
  | DynBox.Ftyp b => box_wf b
  | DynBox.Moov b => Moov.header b = BoxHeader.new Moov.NAME /\ all moov_other (Moov.unknown b)
  | DynBox.Mvhd b => box_wf b
  | DynBox.Mvex b => Mvex.header b = BoxHeader.new Mvex.NAME /\ all mvex_other (Mvex.unknown b)
  | DynBox.Trak b => Trak.header b = BoxHeader.new Trak.NAME /\ all trak_other (Trak.unknown b)
  | DynBox.Trex b => box_wf b
  | DynBox.Mehd b => box_wf b
  | DynBox.Mdia b => Mdia.header b = BoxHeader.new Mdia.NAME /\ all mdia_other (Mdia.unknown b)
  | DynBox.Tkhd b => box_wf b
  | DynBox.Edts b => Edts.header b = BoxHeader.new Edts.NAME /\ all edts_other (Edts.unknown b)
  | DynBox.Elst b => box_wf b
  | DynBox.Mdhd b => box_wf b
  | DynBox.Minf b => Minf.header b = BoxHeader.new Minf.NAME /\ all minf_other (Minf.unknown b)
  | DynBox.Hdlr b => box_wf b
  | DynBox.Dinf b => Dinf.header b = BoxHeader.new Dinf.NAME /\ all dinf_other (Dinf.unknown b)
  | DynBox.Stbl b => Stbl.header b = BoxHeader.new Stbl.NAME /\ all stbl_other (Stbl.unknown b)
  | DynBox.Hmhd b => box_wf b
  | DynBox.Nmhd b => box_wf b
  | DynBox.Smhd b => box_wf b
  | DynBox.Vmhd b => box_wf b
  | DynBox.Dref b => FullBoxHeader.wf Dref.NAME (Dref.header b) /\ blen (Dref.entries b) < 2 ^ 32
  | DynBox.Stsd b => FullBoxHeader.wf Stsd.NAME (Stsd.header b) /\ blen (Stsd.entries b) < 2 ^ 32
  | DynBox.Stsz b => box_wf b
  | DynBox.Stsc b => box_wf b
  | DynBox.Stco b => box_wf b
  | DynBox.Co64 b => box_wf b
  | DynBox.Stts b => box_wf b
  | DynBox.Stss b => box_wf b
  | DynBox.Stz2 b => box_wf b
  | DynBox.Stsh b => box_wf b
  | DynBox.Ctts b => box_wf b
  | DynBox.Stdp b => box_wf b
  | DynBox.Sbgp b => box_wf b
  | DynBox.Subs b => box_wf b
  | DynBox.Padb b => box_wf b
  | DynBox.Sdtp b => box_wf b
  | DynBox.Url b => box_wf b
  | DynBox.Avc1 b =>
      Avc1.header b = BoxHeader.new Avc1.NAME /\ SampleEntry.wf VisualSampleEntry.wf (Avc1.visual_sample_entry b) /\ all avc1_other (Avc1.unknown b)
  | DynBox.Clap b => box_wf b
  | DynBox.Pasp b => box_wf b
  | DynBox.AvcC b => box_wf b
  | DynBox.Btrt b => box_wf b
  | DynBox.Mp4a b =>
      Mp4a.header b = BoxHeader.new Mp4a.NAME /\ SampleEntry.wf AudioSampleEntry.wf (Mp4a.audio_sample_entry b) /\ all mp4a_other (Mp4a.unknown b)
  | DynBox.Esds b => box_wf b
  | DynBox.Moof b => Moof.header b = BoxHeader.new Moof.NAME /\ all moof_other (Moof.unknown b)
  | DynBox.Mfhd b => box_wf b
  | DynBox.Traf b => Traf.header b = BoxHeader.new Traf.NAME /\ all traf_other (Traf.unknown b)
  | DynBox.Tfhd b => box_wf b
  | DynBox.Tfdt b => box_wf b
  | DynBox.Trun b => box_wf b
  | DynBox.Mdat b => box_wf b
  | DynBox.Av01 b =>
      Av01.header b = BoxHeader.new Av01.NAME /\ SampleEntry.wf VisualSampleEntry.wf (Av01.visual_sample_entry b) /\ all av01_other (Av01.unknown b)
  | DynBox.Av1C b => box_wf b
  | DynBox.Colr b => box_wf b
  | DynBox.Hev1 b =>
      Hev1.header b = BoxHeader.new Hev1.NAME /\ SampleEntry.wf VisualSampleEntry.wf (Hev1.visual_sample_entry b) /\ all hev1_other (Hev1.unknown b)
  | DynBox.HvcC b => box_wf b
  | DynBox.Opus b =>
      Opus.header b = BoxHeader.new Opus.NAME /\ SampleEntry.wf AudioSampleEntry.wf (Opus.audio_sample_entry b) /\ all opus_other (Opus.unknown b)
  | DynBox.Unknown header _ => length (BoxHeader.box_type header) = 4%nat /\ BoxHeader.box_type header ∉ NAMES
  end.

(** The boxes that are written as they are read: those whose [validate]
    accepts them, within what each box can represent. *)
Definition local_fair (dyn_box : DynBox.t) : Prop :=
  DynBox.size dyn_box < 2 ^ 50 /\
  match dyn_box with
  | DynBox.Ftyp b => box_fair b /\ validate b = Ok tt
  | DynBox.Mvhd b => box_fair b /\ validate b = Ok tt
  | DynBox.Trex b => box_fair b /\ validate b = Ok tt
  | DynBox.Mehd b => box_fair b /\ validate b = Ok tt
  | DynBox.Tkhd b => box_fair b /\ validate b = Ok tt
  | DynBox.Elst b => box_fair b /\ validate b = Ok tt
  | DynBox.Mdhd b => box_fair b /\ validate b = Ok tt
  | DynBox.Hdlr b => box_fair b /\ validate b = Ok tt
  | DynBox.Hmhd b => box_fair b /\ validate b = Ok tt
  | DynBox.Nmhd b => box_fair b /\ validate b = Ok tt
  | DynBox.Smhd b => box_fair b /\ validate b = Ok tt
  | DynBox.Vmhd b => box_fair b /\ validate b = Ok tt
  | DynBox.Dref b => Dref.validate b = Ok tt
  | DynBox.Stsd b => Stsd.validate b = Ok tt
  | DynBox.Stsz b => box_fair b /\ validate b = Ok tt
  | DynBox.Stsc b => box_fair b /\ validate b = Ok tt
  | DynBox.Stco b => box_fair b /\ validate b = Ok tt
  | DynBox.Co64 b => box_fair b /\ validate b = Ok tt
  | DynBox.Stts b => box_fair b /\ validate b = Ok tt
  | DynBox.Stss b => box_fair b /\ validate b = Ok tt
  | DynBox.Stz2 b => box_fair b /\ validate b = Ok tt
  | DynBox.Stsh b => box_fair b /\ validate b = Ok tt
  | DynBox.Ctts b => box_fair b /\ validate b = Ok tt
  | DynBox.Stdp b => box_fair b /\ validate b = Ok tt
  | DynBox.Sbgp b => box_fair b /\ validate b = Ok tt
  | DynBox.Subs b => box_fair b /\ validate b = Ok tt
  | DynBox.Padb b => box_fair b /\ validate b = Ok tt
  | DynBox.Sdtp b => box_fair b /\ validate b = Ok tt
  | DynBox.Url b => box_fair b /\ validate b = Ok tt
  | DynBox.Avc1 b => SampleEntry.validate (Avc1.visual_sample_entry b) = Ok tt
  | DynBox.Clap b => box_fair b /\ validate b = Ok tt
  | DynBox.Pasp b => box_fair b /\ validate b = Ok tt
  | DynBox.AvcC b => box_fair b /\ validate b = Ok tt
  | DynBox.Btrt b => box_fair b /\ validate b = Ok tt
  | DynBox.Mp4a b => SampleEntry.validate (Mp4a.audio_sample_entry b) = Ok tt
  | DynBox.Esds b => box_fair b /\ validate b = Ok tt
  | DynBox.Mfhd b => box_fair b /\ validate b = Ok tt
  | DynBox.Tfhd b => box_fair b /\ validate b = Ok tt
  | DynBox.Tfdt b => box_fair b /\ validate b = Ok tt
  | DynBox.Trun b => box_fair b /\ validate b = Ok tt
  | DynBox.Mdat b => box_fair b /\ validate b = Ok tt
  | DynBox.Av01 b => SampleEntry.validate (Av01.visual_sample_entry b) = Ok tt
  | DynBox.Av1C b => box_fair b /\ validate b = Ok tt
  | DynBox.Colr b => box_fair b /\ validate b = Ok tt
  | DynBox.Hev1 b => SampleEntry.validate (Hev1.visual_sample_entry b) = Ok tt
  | DynBox.HvcC b => box_fair b /\ validate b = Ok tt
  | DynBox.Opus b => SampleEntry.validate (Opus.audio_sample_entry b) = Ok tt
  | DynBox.Unknown _ data => blen data + 8 <= u32_max
  | _ => True
  end.
End wf.

Create HintDb mp4dyn.
Create HintDb mp4into.
#[export] Hint Unfold
  Edts.primitive_size Edts.primitive_mux EdtsDemux.demux Mvex.primitive_size Mvex.primitive_mux MvexDemux.demux
  Dref.primitive_size Dref.primitive_mux DrefDemux.demux Dinf.primitive_size Dinf.primitive_mux DinfDemux.demux
  Stsd.primitive_size Stsd.primitive_mux StsdDemux.demux Stbl.primitive_size Stbl.primitive_mux StblDemux.demux
  Minf.primitive_size Minf.primitive_mux MinfDemux.demux Mdia.primitive_size Mdia.primitive_mux MdiaDemux.demux
  Trak.primitive_size Trak.primitive_mux TrakDemux.demux Moov.primitive_size Moov.primitive_mux MoovDemux.demux
  Traf.primitive_size Traf.primitive_mux TrafDemux.demux Moof.primitive_size Moof.primitive_mux MoofDemux.demux
  Avc1.primitive_size Avc1.primitive_mux Avc1Demux.demux Hev1.primitive_size Hev1.primitive_mux Hev1Demux.demux
  Av01.primitive_size Av01.primitive_mux Av01Demux.demux Mp4a.primitive_size Mp4a.primitive_mux Mp4aDemux.demux
  Opus.primitive_size Opus.primitive_mux OpusDemux.demux : mp4dyn.
#[export] Hint Unfold
  into_ftyp into_moov into_mvhd into_mvex into_trak into_trex into_mehd into_mdia into_tkhd into_edts into_elst
  into_mdhd into_minf into_hdlr into_dinf into_stbl into_hmhd into_nmhd into_smhd into_vmhd into_dref into_stsd
  into_stsz into_stsc into_stco into_co64 into_stts into_stss into_stz2 into_stsh into_ctts into_stdp into_sbgp
  into_subs into_padb into_sdtp into_url into_avc1 into_clap into_pasp into_avcc into_btrt into_mp4a into_esds
  into_moof into_mfhd into_traf into_tfhd into_tfdt into_trun into_mdat into_av01 into_av1c into_colr into_hev1
  into_hvcc into_opus : mp4into.

(** ** Generic lemmas *)

Section roundtrip.
Context `{BO : ByteOrder}.

Definition bytes (d : DynBox.t) : list byte := output (DynBox.mux (list byte) _ d).

(** [d] is read back from what it writes. *)
Definition good (d : DynBox.t) : Prop :=
  (forall W (HW : IoWrite W) (HL : IoWriteLaws W), puts (DynBox.mux W HW d) (bytes d)) /\
  blen (bytes d) = DynBox.size d /\ bytes d <> [] /\
  forall fuel, (length (bytes d) <= fuel)%nat ->
    takes_on (fun _ => True) (DynBoxDemux.demux_fuel fuel) (bytes d) d.

Lemma box_good_frame d name data : length name = 4%nat -> blen data < 2 ^ 60 ->
  DynBox.size d = box_size (blen data) ->
  (forall W (HW : IoWrite W) (HL : IoWriteLaws W), puts (DynBox.mux W HW d) (frame name data)) ->
  (forall fuel, (length data <= fuel)%nat -> forall pre post,
    DynBoxDemux.demux_data (DynBoxDemux.demux_fuel fuel) (BoxHeader.new name) data (at_pos pre post) =
      (Ok d, at_pos pre post)) ->
  good d.
Proof.
  intros Hn Hl Hs Hp Hd. assert (bytes d = frame name data) as E by exact (puts_output _ _ (Hp _ _ _)).
  assert (blen (frame name data) = box_size (blen data)) as Hb by (rewrite blen_frame by done; done).
  assert (length data < length (frame name data))%nat as Hlt.
  { pose proof (blen_nonneg data). unfold box_size in Hb. cbv zeta in Hb. unfold blen in *.
    destruct (u32_max <? _); lia. }
  unfold good. rewrite E. split; [done|]. split; [by rewrite Hs|]. split; [intros E'; rewrite E' in Hlt; simpl in Hlt; lia|].
  intros [|fuel] Hf; [lia|]. cbn [DynBoxDemux.demux_fuel].
  eapply takes_last; [by apply header_takes_frame|].
  intros pre post _. cbv iota beta. rewrite app_nil_r. apply Hd. lia.
Qed.

Lemma good_box d name psize (pmux : forall W, IoWrite W -> M W ErrorKind unit) data :
  length name = 4%nat -> blen data = psize -> DynBox.size d = box_size psize -> DynBox.size d < 2 ^ 50 ->
  (forall W (HW : IoWrite W), DynBox.mux W HW d = box_mux name (Ok tt) (box_size psize) (pmux W HW)) ->
  (forall W (HW : IoWrite W) (HL : IoWriteLaws W), puts (pmux W HW) data) ->
  (forall fuel, (length data <= fuel)%nat -> forall pre post,
    DynBoxDemux.demux_data (DynBoxDemux.demux_fuel fuel) (BoxHeader.new name) data (at_pos pre post) =
      (Ok d, at_pos pre post)) ->
  good d.
Proof.
  intros Hn Hb Hs Hl Hm Hp Hd. assert (psize < 2 ^ 50) as Hps.
  { rewrite Hs in Hl. unfold box_size in Hl. cbv zeta in Hl. destruct (u32_max <? _); lia. }
  apply (box_good_frame d name data); [done|lia|by rewrite Hb| |done].
  intros W HW HL. rewrite Hm. by apply (mux_frames name pmux psize data); [|done|lia|].
Qed.

Lemma leaf_good {A} `{HL : BoxLaws A} `{IntoDyn A} (a : A) :
  box_wf a -> DynBox.size (into a) < 2 ^ 50 -> box_fair a /\ validate a = Ok tt ->
  (forall W (HW : IoWrite W), DynBox.mux W HW (into a) = Mp4Box.mux a) ->
  DynBox.size (into a) = Mp4Box.size a ->
  (forall ddemux data, DynBoxDemux.demux_data ddemux (BoxHeader.new (NAME (A := A))) data =
    (let* b := lift (Mp4Box.demux (BoxHeader.new (NAME (A := A))) data) in ret (into b))) ->
  good (into a).
Proof.
  intros Hw Hs [Hf Hv] Hm Hsz Hd.
  assert (primitive_size a < 2 ^ 50) as Hp.
  { rewrite Hsz in Hs. unfold Mp4Box.size, box_size in Hs. cbv zeta in Hs. destruct (u32_max <? _); lia. }
  destruct (box_codec a Hw Hf Hv Hp) as (data & Hput & Hlen & Hdm).
  apply (good_box (into a) NAME (primitive_size a) (fun W HW => primitive_mux W HW a) data);
    [apply box_name|done|done|done| |done|].
  - intros W HW. rewrite Hm. unfold Mp4Box.mux. by rewrite Hv.
  - intros fuel _ pre post. rewrite Hd, Hdm. done.
Qed.

Lemma unknown_good header data : local_wf (DynBox.Unknown header data) ->
  local_fair (DynBox.Unknown header data) -> good (DynBox.Unknown header data).
Proof.
  destruct header as [name]. intros [Hn Hk] [_ Hl]. simpl in *. unfold u32_max in *.
  apply (box_good_frame _ name data); [done|lia|done| |].
  - intros W HW HL. cbn [DynBox.mux BoxHeader.box_type]. unfold frame, u32_max. cbv zeta.
    pose proof (blen_nonneg data). rewrite (proj2 (Z.ltb_ge _ _)) by lia. repeat pstep.
  - intros fuel _ pre post. unfold DynBoxDemux.demux_data. cbn [BoxHeader.box_type BoxHeader.new].
    assert (Forall (fun n => name <> n) NAMES) as Hne.
    { apply List.Forall_forall. intros n Hn' ->. apply Hk. by apply list_elem_of_In. }
    unfold NAMES in Hne. clear Hk.
    repeat (apply Forall_cons_1 in Hne as [Hx Hne]; rewrite (decide_False _ _ Hx); clear Hx). done.
Qed.

(** *** Containers: writing *)

Lemma puts_boxes ds W (HW : IoWrite W) (HL : IoWriteLaws W) : (forall d, d ∈ ds -> good d) ->
  puts (for_each ds (DynBox.mux W HW)) (ds ≫= bytes).
Proof. intros Hg. apply puts_each. intros d Hd. by apply Hg. Qed.

Lemma puts_into_list {A} `{IntoDyn A} (xs : list A) W (HW : IoWrite W) (HL : IoWriteLaws W) (f : A -> M W ErrorKind unit) :
  (forall a, DynBox.mux W HW (into a) = f a) -> (forall d, d ∈ into <$> xs -> good d) ->
  puts (for_each xs f) ((into <$> xs) ≫= bytes).
Proof.
  intros Hf Hg. replace ((into <$> xs) ≫= bytes) with (xs ≫= fun a => bytes (into a)).
  - apply puts_each. intros a Ha. rewrite <-Hf. apply Hg. by apply list_elem_of_fmap_2.
  - clear. induction xs as [|a xs IH]; [done|]. by rewrite fmap_cons, !bind_cons, IH.
Qed.

Lemma puts_into_opt {A} `{IntoDyn A} (o : option A) W (HW : IoWrite W) (HL : IoWriteLaws W) (f : A -> M W ErrorKind unit) :
  (forall a, DynBox.mux W HW (into a) = f a) -> (forall d, d ∈ into <$> option_list o -> good d) ->
  puts (if_some o f) ((into <$> option_list o) ≫= bytes).
Proof.
  intros Hf Hg. destruct o as [a|]; [|apply puts_ret]. simpl. rewrite app_nil_r, <-Hf. apply Hg. by left.
Qed.

Lemma puts_into {A} `{IntoDyn A} (a : A) W (HW : IoWrite W) (HL : IoWriteLaws W) m :
  DynBox.mux W HW (into a) = m -> (forall d, d ∈ [into a] -> good d) -> puts m ([into a] ≫= bytes).
Proof. intros <- Hg. simpl. rewrite app_nil_r. apply Hg. by left. Qed.

(** *** Containers: sizes *)

Lemma blen_boxes ds : (forall d, d ∈ ds -> good d) -> blen (ds ≫= bytes) = sum_of DynBox.size ds.
Proof. intros Hg. apply blen_sum. intros d Hd. by apply Hg. Qed.

Lemma sum_of_app {A} (f : A -> Z) xs ys : sum_of f (xs ++ ys) = sum_of f xs + sum_of f ys.
Proof. induction xs as [|x xs IH]; simpl; [done|rewrite IH; lia]. Qed.

Lemma sum_of_one {A} (f : A -> Z) x : sum_of f [x] = f x.
Proof. simpl. lia. Qed.

Lemma sum_of_fmap {A B} (f : B -> Z) (g : A -> B) xs : sum_of f (g <$> xs) = sum_of (fun a => f (g a)) xs.
Proof. induction xs as [|x xs IH]; simpl; [done|by rewrite <-IH]. Qed.

Lemma sum_of_option {A B} (f : B -> Z) (g : A -> B) o :
  sum_of f (g <$> option_list o) = opt_size (fun a => f (g a)) o.
Proof. destruct o; simpl; lia. Qed.

(** *** Containers: reading *)

Lemma takes_boxes {S} (take : S -> DynBox.t -> S) ds s fuel :
  (forall d, d ∈ ds -> good d) -> (length (ds ≫= bytes) <= fuel)%nat ->
  takes_on (fun post => post = []) (loop_remaining (next (DynBoxDemux.demux_fuel fuel) take) s)
    (ds ≫= bytes) (fold_left take ds s).
Proof.
  intros Hg Hf. apply takes_children. intros d Hd. destruct (Hg d Hd) as (_ & _ & Hne & Ht).
  split; [done|]. apply Ht. etransitivity; [|exact Hf].
  apply list_elem_of_split in Hd as (l & r & ->). rewrite bind_app. simpl. rewrite !length_app. lia.
Qed.

Lemma takes_filled {S B} (take : S -> DynBox.t -> S) ds s s' fuel (k : S -> M Cursor ErrorKind B) b :
  (forall d, d ∈ ds -> good d) -> (length (ds ≫= bytes) <= fuel)%nat -> fold_left take ds s = s' ->
  takes_on (fun post => post = []) (k s') [] b ->
  takes_on (fun post => post = []) (bind (loop_remaining (next (DynBoxDemux.demux_fuel fuel) take) s) k)
    (ds ≫= bytes) b.
Proof. intros Hg Hf <- Hk. eapply takes_last; [by apply takes_boxes|done]. Qed.

Lemma dispatch {A} `{IntoDyn A} (dm : M Cursor ErrorKind DynBox.t -> BoxHeader.t -> list byte -> res ErrorKind A)
    name ddemux data a :
  (forall ddemux data, DynBoxDemux.demux_data ddemux (BoxHeader.new name) data =
    (let* b := lift (dm ddemux (BoxHeader.new name) data) in ret (into b))) ->
  dm ddemux (BoxHeader.new name) data = Ok a -> forall pre post,
  DynBoxDemux.demux_data ddemux (BoxHeader.new name) data (at_pos pre post) = (Ok (into a), at_pos pre post).
Proof. intros Hd E pre post. by rewrite Hd, E. Qed.

Section fold.
Context {S : Type} (u : S -> DynBox.t -> S).

Lemma fold_one d s rest r : fold_left u rest (u s d) = r -> fold_left u ([d] ++ rest) s = r.
Proof. done. Qed.

Lemma fold_opt {A} (C : A -> DynBox.t) (k : option A -> S) o s rest r :
  (forall a, u s (C a) = k (Some a)) -> s = k None -> fold_left u rest (k o) = r ->
  fold_left u ((C <$> option_list o) ++ rest) s = r.
Proof. intros Hu -> <-. destruct o as [a|]; simpl; [by rewrite Hu|done]. Qed.

Lemma fold_list {A} (C : A -> DynBox.t) (k : list A -> S) xs s rest r :
  (forall a, u s (C a) = k [a]) -> s = k [] -> (forall acc a, u (k acc) (C a) = k (acc ++ [a])) ->
  fold_left u rest (k xs) = r -> fold_left u ((C <$> xs) ++ rest) s = r.
Proof.
  intros _ -> Hu <-. rewrite fold_left_app. f_equal. change (k xs) with (k ([] ++ xs)). generalize (@nil A).
  induction xs as [|x xs IH]; intros acc; simpl; [by rewrite app_nil_r|]. by rewrite Hu, IH, <-(assoc_L (++)).
Qed.

Lemma fold_unknown (other : DynBox.t -> Prop) (k : list DynBox.t -> S) us s rest r : all other us ->
  (forall h d, u s (DynBox.Unknown h d) = k [DynBox.Unknown h d]) -> s = k [] ->
  (forall acc d, other d -> u (k acc) d = k (acc ++ [d])) ->
  fold_left u rest (k us) = r -> fold_left u (us ++ rest) s = r.
Proof.
  intros Ho _ -> Hu <-. rewrite fold_left_app. f_equal. change (k us) with (k ([] ++ us)). generalize (@nil DynBox.t).
  induction us as [|x us IH]; intros acc; simpl; [by rewrite app_nil_r|]. destruct Ho as [Hx Ho].
  by rewrite Hu, IH, <-(assoc_L (++)).
Qed.
End fold.

(** *** Tactics *)

(** The children of the box are good. *)
Ltac child_tac :=
  let d := fresh "d" in let Hd := fresh "Hd" in
  intros d Hd; match goal with Hg : forall x, x ∈ children _ -> good x |- _ => apply Hg end;
  cbn [children]; rewrite ?elem_of_app; tauto.

Ltac into_tac := intros; unfold into; autounfold with mp4into; cbn [DynBox.mux]; reflexivity.

Ltac pchild :=
  match goal with
  | |- puts (bind _ _) _ => eapply puts_bind
  | |- puts (ret tt) _ => apply puts_ret
  | |- puts (for_each _ (DynBox.mux _ _)) _ => apply puts_boxes; child_tac
  | |- puts (for_each _ _) _ => apply puts_into_list; [into_tac|child_tac]
  | |- puts (if_some _ _) _ => apply puts_into_opt; [into_tac|child_tac]
  | |- puts (_ ?a) _ => apply (puts_into a); [into_tac|child_tac]
  end.

Ltac sum_tac :=
  cbn [children]; rewrite ?sum_of_app, ?sum_of_one, ?sum_of_option, ?sum_of_fmap;
  rewrite ?Z.add_assoc; autounfold with mp4dyn; first [reflexivity | cbn [DynBox.size]; unfold opt_size; lia].

(** What one [take] does, as a function of what it takes. *)
Ltac take_as x :=
  cbn; unfold VisualEntry.set_clap, VisualEntry.set_pasp, VisualEntry.set_colr, VisualEntry.update,
    VisualEntry.with_boxes, SampleEntry.with_extension, VisualSampleEntry.fields; cbn;
  match goal with |- ?l = ?k x =>
    let l' := eval pattern x in l in match l' with ?f _ => unify k f end
  end; reflexivity.

Ltac fold_step :=
  lazymatch goal with
  | |- fold_left _ ([_] ++ _) _ = _ => apply fold_one; cbn [fold_left]
  | |- fold_left _ ((_ <$> option_list _) ++ _) _ = _ =>
      eapply fold_opt; [let a := fresh "a" in intros a; take_as (Some a)|reflexivity|]
  | |- fold_left _ ((_ <$> _) ++ _) _ = _ =>
      eapply fold_list; [let a := fresh "a" in intros a; take_as [a]|reflexivity|reflexivity|]
  | H : all _ ?us |- fold_left _ (?us ++ _) _ = _ =>
      eapply fold_unknown; [exact H|let h := fresh "h" in let d := fresh "d" in intros h d; take_as [DynBox.Unknown h d]
        |reflexivity|by intros acc []|]
  | H : all _ ?us |- fold_left _ ?us _ = _ => rewrite <-(app_nil_r us)
  | |- fold_left _ (?C <$> ?xs) _ = _ => rewrite <-(app_nil_r (C <$> xs))
  | |- fold_left _ [] _ = _ => reflexivity
  end; cbv beta.

(** The fields that come before the boxes are [prefix]. *)
Ltac box_tac name psize pmux prefix :=
  match goal with |- good (?C ?b) =>
    apply (good_box (C b) name (psize b) (fun W HW => pmux W HW b) (prefix ++ (children (C b) ≫= bytes)));
      [reflexivity| |reflexivity|assumption| | |]
  end.

(** The boxes after the fields are those that the locals were filled with. *)
Ltac finish_tac :=
  eapply takes_filled; [assumption|assumption|cbn [children]; repeat fold_step|];
  match goal with b : _ |- takes_on _ _ _ ?x =>
    constr_eq b x;
    match goal with Hh : _ = BoxHeader.new _ |- _ => clear - Hh; destruct b; cbn in Hh; subst end;
    repeat match goal with
    | e : SampleEntry.t _ |- _ => destruct e
    | e : VisualSampleEntry.t |- _ => destruct e
    end;
    intros ? ? _; rewrite app_nil_r; reflexivity
  end.

Ltac container_tac name psize pmux dm :=
  intros [Hh Hu] [Hs Hf] Hg; box_tac name psize pmux (@nil byte); [| reflexivity| |];
  lazymatch goal with
  | |- blen _ = _ => rewrite app_nil_l, blen_boxes by assumption; sum_tac
  | |- forall W HW HL, puts _ _ =>
      intros W HW HL; eapply puts_eq; [|autounfold with mp4dyn; repeat pchild];
      unfold into; autounfold with mp4into; cbn [children]; rewrite !bind_app, app_nil_r, app_nil_l; reflexivity
  | |- _ =>
      intros fuel Hfuel; apply (dispatch dm name); [reflexivity|];
      autounfold with mp4dyn; apply (over_takes (fun post => post = [])); [|reflexivity]; finish_tac
  end.

(** A box with a counted list of boxes. *)
Lemma takes_counted {B} ds fuel (k : list DynBox.t -> M Cursor ErrorKind B) b : (forall d, d ∈ ds -> good d) ->
  blen ds < 2 ^ 32 -> (length (ds ≫= bytes) <= fuel)%nat -> takes_on (fun post => post = []) (k ds) [] b ->
  takes_on (fun post => post = []) (let* entry_count := read_u32 in
    let* entries := read_times (Z.to_nat entry_count) (DynBoxDemux.demux_fuel fuel) in k entries)
    (be_bytes 4 (wrap 32 (blen ds)) ++ (ds ≫= bytes)) b.
Proof.
  intros Hg Hn Hf Hk. pose proof (blen_nonneg ds). rewrite wrap_fits_id by (unfold fits; lia).
  eapply takes_bind; [apply takes_uint; lia|]. eapply takes_last; [|done].
  apply takes_times; [unfold blen; lia|]. intros d Hd. apply Hg; [done|]. etransitivity; [|exact Hf].
  apply list_elem_of_split in Hd as (l & r & ->). rewrite bind_app. simpl. rewrite !length_app. lia.
Qed.

Definition full_header (h : FullBoxHeader.t) : list byte :=
  be_bytes 1 (FullBoxHeader.version h) ++ be_bytes 3 (FullBoxHeader.flags h).

Lemma puts_full_header name h W (HW : IoWrite W) (HL : IoWriteLaws W) : FullBoxHeader.wf name h ->
  puts (FullBoxHeader.mux h) (full_header h).
Proof.
  intros (_ & Hv & Hf). unfold FullBoxHeader.mux. eapply puts_eq; [|repeat pstep]. unfold full_header.
  by rewrite app_nil_r.
Qed.

Lemma takes_full_header P name h : FullBoxHeader.wf name h ->
  takes_on P (FullBoxHeader.demux (BoxHeader.new name)) (full_header h) h.
Proof.
  intros (Hh & Hv & Hf). unfold FullBoxHeader.demux, full_header. repeat Mp4Box.tstep. rewrite <-Hh. by destruct h.
Qed.

Ltac entries_tac name psize pmux dm :=
  intros [Hh Hn] [Hs Hv] Hg; cbn [children] in Hg;
  match goal with |- good (?C ?b) =>
    match type of Hg with forall x, x ∈ ?ds -> _ =>
      match type of Hh with FullBoxHeader.wf _ ?h =>
      apply (good_box (C b) name (psize b) (fun W HW => pmux W HW b)
        (full_header h ++ be_bytes 4 (wrap 32 (blen ds)) ++ (ds ≫= bytes)));
        [reflexivity| |reflexivity|assumption| | |]
      end
    end
  end;
  lazymatch goal with
  | |- blen _ = _ => unfold full_header; rewrite !blen_app; rewrite blen_boxes by assumption; autorewrite with scuffle; autounfold with mp4dyn; unfold FullBoxHeader.size; lia
  | |- forall W HW, DynBox.mux _ _ _ = _ =>
      intros W HW; cbn [DynBox.mux]; try unfold Dref.mux; try unfold Stsd.mux; rewrite Hv; reflexivity
  | |- forall W HW HL, puts _ _ =>
      intros W HW HL; eapply puts_eq; [|autounfold with mp4dyn;
        repeat (first [apply (puts_full_header _ _ _ _ _ Hh)|apply puts_boxes; assumption|apply puts_ret
          |apply puts_uint; num_tac|eapply puts_bind])];
      by rewrite app_nil_r
  | |- _ =>
      intros fuel Hfuel; apply (dispatch dm name); [reflexivity|];
      autounfold with mp4dyn; apply (over_takes (fun post => post = [])); [|reflexivity];
      eapply takes_bind; [exact (takes_full_header _ _ _ Hh)|];
      apply takes_counted; [assumption|assumption|rewrite !length_app in Hfuel; lia|];
      apply takes_ret_eq; match goal with b : _ |- _ = ?b' => constr_eq b b'; destruct b; reflexivity end
  end.

(** *** Sample entries *)

Definition audio_prefix (e : SampleEntry.t AudioSampleEntry.t) : list byte :=
  entry_bytes e ++ audio_bytes (SampleEntry.extension e).
Definition visual_prefix (e : SampleEntry.t VisualSampleEntry.t) : list byte :=
  entry_bytes e ++ visual_bytes (SampleEntry.extension e).

Lemma blen_audio_prefix e : SampleEntry.wf AudioSampleEntry.wf e -> blen (audio_prefix e) = SampleEntry.size e.
Proof.
  intros He. unfold audio_prefix. rewrite blen_app, (blen_entry_bytes _ _ He). unfold audio_bytes.
  rewrite !blen_app, !blen_be_bytes. reflexivity.
Qed.

Lemma blen_visual_prefix e : SampleEntry.wf VisualSampleEntry.wf e -> blen (visual_prefix e) = 78.
Proof.
  intros He. unfold visual_prefix. rewrite blen_app, (blen_entry_bytes _ _ He).
  rewrite blen_visual_bytes; [done|apply He].
Qed.

Lemma puts_audio_prefix e W (HW : IoWrite W) (HL : IoWriteLaws W) : SampleEntry.wf AudioSampleEntry.wf e ->
  SampleEntry.validate e = Ok tt -> puts (SampleEntry.mux W e) (audio_prefix e).
Proof. intros He Hv. apply (entry_puts AudioSampleEntry.wf); [done|done|]. apply audio_puts, He. Qed.

Lemma takes_audio_prefix P e : SampleEntry.wf AudioSampleEntry.wf e ->
  takes_on P SampleEntry.demux (audio_prefix e) e.
Proof.
  intros He. replace e with (SampleEntry.with_extension e (SampleEntry.extension e)) at 2 by by destruct e.
  eapply entry_takes; [done|]. apply audio_takes, He.
Qed.

(** The three boxes of a visual sample entry, in the order they are written. *)
Definition visual_children (e : VisualSampleEntry.t) : list DynBox.t :=
  (DynBox.Clap <$> option_list (VisualSampleEntry.clap e)) ++
  (DynBox.Pasp <$> option_list (VisualSampleEntry.pasp e)) ++
  (DynBox.Colr <$> option_list (VisualSampleEntry.colr e)).

Lemma puts_visual_prefix e W (HW : IoWrite W) (HL : IoWriteLaws W) : SampleEntry.wf VisualSampleEntry.wf e ->
  SampleEntry.validate e = Ok tt -> (forall d, d ∈ visual_children (SampleEntry.extension e) -> good d) ->
  puts (SampleEntry.mux W e) (visual_prefix e ++ (visual_children (SampleEntry.extension e) ≫= bytes)).
Proof.
  intros He Hv Hg. unfold visual_prefix, visual_children in *. rewrite !bind_app, <-(assoc_L (++)).
  apply (entry_puts VisualSampleEntry.wf); [done|done|].
  apply visual_puts; [apply He|apply (puts_into_opt (A := Clap.t))|apply (puts_into_opt (A := Pasp.t))
    |apply (puts_into_opt (A := Colr.t))]; try done; intros d Hd; apply Hg; rewrite !elem_of_app; tauto.
Qed.

Lemma takes_visual_prefix P e : SampleEntry.wf VisualSampleEntry.wf e ->
  takes_on P SampleEntry.demux (visual_prefix e)
    (SampleEntry.with_extension e (VisualSampleEntry.fields (SampleEntry.extension e))).
Proof. intros He. eapply entry_takes; [done|]. apply visual_takes, He. Qed.

Lemma visual_size e : SampleEntry.size e = 78 + sum_of DynBox.size (visual_children (SampleEntry.extension e)).
Proof.
  unfold visual_children. rewrite !sum_of_app, !sum_of_option. unfold SampleEntry.size. simpl.
  unfold VisualSampleEntry.size.
  destruct (VisualSampleEntry.clap _), (VisualSampleEntry.pasp _), (VisualSampleEntry.colr _); cbn [opt_size]; lia.
Qed.

Ltac audio_tac name psize pmux dm :=
  intros (Hh & He & Hu) [Hs Hv] Hg;
  match type of He with SampleEntry.wf _ ?e => box_tac name psize pmux (audio_prefix e) end; [| reflexivity| |];
  lazymatch goal with
  | |- blen _ = _ =>
      rewrite blen_app, blen_boxes, blen_audio_prefix by assumption; sum_tac
  | |- forall W HW HL, puts _ _ =>
      intros W HW HL; eapply puts_eq; [|autounfold with mp4dyn;
        repeat lazymatch goal with
        | |- puts (SampleEntry.mux _ _) _ => apply puts_audio_prefix; assumption
        | |- _ => pchild
        end];
      unfold into; autounfold with mp4into; cbn [children]; rewrite !bind_app, app_nil_r; reflexivity
  | |- _ =>
      intros fuel Hfuel; apply (dispatch dm name); [reflexivity|];
      rewrite length_app in Hfuel;
      autounfold with mp4dyn; apply (over_takes (fun post => post = [])); [|reflexivity];
      eapply takes_bind; [exact (takes_audio_prefix _ _ He)|]; cbv beta;
      assert (length (children _ ≫= bytes) <= fuel)%nat by (eapply Nat.le_trans; [apply Nat.le_add_l|exact Hfuel]);
      finish_tac
  end.

Ltac visual_tac name psize pmux dm :=
  intros (Hh & He & Hu) [Hs Hv] Hg;
  match type of He with SampleEntry.wf _ ?e =>
    assert (forall d, d ∈ visual_children (SampleEntry.extension e) -> good d) as Hvis
      by (unfold visual_children; intros d Hd; apply Hg; cbn [children]; rewrite ?elem_of_app in *; tauto);
    box_tac name psize pmux (visual_prefix e)
  end; [| reflexivity| |];
  lazymatch goal with
  | |- blen _ = _ =>
      rewrite blen_app, blen_boxes, blen_visual_prefix by assumption;
      autounfold with mp4dyn; rewrite visual_size; unfold visual_children; sum_tac
  | |- forall W HW HL, puts _ _ =>
      intros W HW HL; eapply puts_eq; [|autounfold with mp4dyn;
        repeat lazymatch goal with
        | |- puts (SampleEntry.mux _ _) _ => apply puts_visual_prefix; assumption
        | |- _ => pchild
        end];
      unfold into, visual_children; autounfold with mp4into; cbn [children];
      rewrite !bind_app, app_nil_r, <-!(assoc_L (++)); reflexivity
  | |- _ =>
      intros fuel Hfuel; apply (dispatch dm name); [reflexivity|];
      rewrite length_app in Hfuel;
      autounfold with mp4dyn; apply (over_takes (fun post => post = [])); [|reflexivity];
      eapply takes_bind; [exact (takes_visual_prefix _ _ He)|]; cbv beta;
      assert (length (children _ ≫= bytes) <= fuel)%nat by (eapply Nat.le_trans; [apply Nat.le_add_l|exact Hfuel]);
      finish_tac
  end.

Lemma edts_good b : local_wf (DynBox.Edts b) -> local_fair (DynBox.Edts b) ->
  (forall x, x ∈ children (DynBox.Edts b) -> good x) -> good (DynBox.Edts b).
Proof. container_tac Edts.NAME (Edts.primitive_size DynBox.size) (fun W HW => Edts.primitive_mux DynBox.mux W (H := HW)) EdtsDemux.demux. Qed.

Lemma mvex_good b : local_wf (DynBox.Mvex b) -> local_fair (DynBox.Mvex b) ->
  (forall x, x ∈ children (DynBox.Mvex b) -> good x) -> good (DynBox.Mvex b).
Proof. container_tac Mvex.NAME (Mvex.primitive_size DynBox.size) (fun W HW => Mvex.primitive_mux DynBox.mux W (H := HW)) MvexDemux.demux. Qed.

Lemma dref_good b : local_wf (DynBox.Dref b) -> local_fair (DynBox.Dref b) ->
  (forall x, x ∈ children (DynBox.Dref b) -> good x) -> good (DynBox.Dref b).
Proof. entries_tac Dref.NAME (Dref.primitive_size DynBox.size) (fun W HW => Dref.primitive_mux DynBox.mux W (H := HW)) DrefDemux.demux. Qed.

Lemma dinf_good b : local_wf (DynBox.Dinf b) -> local_fair (DynBox.Dinf b) ->
  (forall x, x ∈ children (DynBox.Dinf b) -> good x) -> good (DynBox.Dinf b).
Proof. container_tac Dinf.NAME (Dinf.primitive_size DynBox.size) (fun W HW => Dinf.primitive_mux DynBox.size DynBox.mux W (H := HW)) DinfDemux.demux. Qed.

Lemma stsd_good b : local_wf (DynBox.Stsd b) -> local_fair (DynBox.Stsd b) ->
  (forall x, x ∈ children (DynBox.Stsd b) -> good x) -> good (DynBox.Stsd b).
Proof. entries_tac Stsd.NAME (Stsd.primitive_size DynBox.size) (fun W HW => Stsd.primitive_mux DynBox.mux W (H := HW)) StsdDemux.demux. Qed.

Lemma stbl_good b : local_wf (DynBox.Stbl b) -> local_fair (DynBox.Stbl b) ->
  (forall x, x ∈ children (DynBox.Stbl b) -> good x) -> good (DynBox.Stbl b).
Proof. container_tac Stbl.NAME (Stbl.primitive_size DynBox.size) (fun W HW => Stbl.primitive_mux DynBox.size DynBox.mux W (H := HW)) StblDemux.demux. Qed.

Lemma minf_good b : local_wf (DynBox.Minf b) -> local_fair (DynBox.Minf b) ->
  (forall x, x ∈ children (DynBox.Minf b) -> good x) -> good (DynBox.Minf b).
Proof. container_tac Minf.NAME (Minf.primitive_size DynBox.size) (fun W HW => Minf.primitive_mux DynBox.size DynBox.mux W (H := HW)) MinfDemux.demux. Qed.

Lemma mdia_good b : local_wf (DynBox.Mdia b) -> local_fair (DynBox.Mdia b) ->
  (forall x, x ∈ children (DynBox.Mdia b) -> good x) -> good (DynBox.Mdia b).
Proof. container_tac Mdia.NAME (Mdia.primitive_size DynBox.size) (fun W HW => Mdia.primitive_mux DynBox.size DynBox.mux W (H := HW)) MdiaDemux.demux. Qed.

Lemma trak_good b : local_wf (DynBox.Trak b) -> local_fair (DynBox.Trak b) ->
  (forall x, x ∈ children (DynBox.Trak b) -> good x) -> good (DynBox.Trak b).
Proof. container_tac Trak.NAME (Trak.primitive_size DynBox.size) (fun W HW => Trak.primitive_mux DynBox.size DynBox.mux W (H := HW)) TrakDemux.demux. Qed.

Lemma moov_good b : local_wf (DynBox.Moov b) -> local_fair (DynBox.Moov b) ->
  (forall x, x ∈ children (DynBox.Moov b) -> good x) -> good (DynBox.Moov b).
Proof. container_tac Moov.NAME (Moov.primitive_size DynBox.size) (fun W HW => Moov.primitive_mux DynBox.size DynBox.mux W (H := HW)) MoovDemux.demux. Qed.

Lemma traf_good b : local_wf (DynBox.Traf b) -> local_fair (DynBox.Traf b) ->
  (forall x, x ∈ children (DynBox.Traf b) -> good x) -> good (DynBox.Traf b).
Proof. container_tac Traf.NAME (Traf.primitive_size DynBox.size) (fun W HW => Traf.primitive_mux DynBox.mux W (H := HW)) TrafDemux.demux. Qed.

Lemma moof_good b : local_wf (DynBox.Moof b) -> local_fair (DynBox.Moof b) ->
  (forall x, x ∈ children (DynBox.Moof b) -> good x) -> good (DynBox.Moof b).
Proof. container_tac Moof.NAME (Moof.primitive_size DynBox.size) (fun W HW => Moof.primitive_mux DynBox.size DynBox.mux W (H := HW)) MoofDemux.demux. Qed.

Lemma mp4a_good b : local_wf (DynBox.Mp4a b) -> local_fair (DynBox.Mp4a b) ->
  (forall x, x ∈ children (DynBox.Mp4a b) -> good x) -> good (DynBox.Mp4a b).
Proof. audio_tac Mp4a.NAME (Mp4a.primitive_size DynBox.size) (fun W HW => Mp4a.primitive_mux DynBox.mux W (H := HW)) Mp4aDemux.demux. Qed.

Lemma opus_good b : local_wf (DynBox.Opus b) -> local_fair (DynBox.Opus b) ->
  (forall x, x ∈ children (DynBox.Opus b) -> good x) -> good (DynBox.Opus b).
Proof. audio_tac Opus.NAME (Opus.primitive_size DynBox.size) (fun W HW => Opus.primitive_mux DynBox.mux W (H := HW)) OpusDemux.demux. Qed.

Lemma avc1_good b : local_wf (DynBox.Avc1 b) -> local_fair (DynBox.Avc1 b) ->
  (forall x, x ∈ children (DynBox.Avc1 b) -> good x) -> good (DynBox.Avc1 b).
Proof. visual_tac Avc1.NAME (Avc1.primitive_size DynBox.size) (fun W HW => Avc1.primitive_mux DynBox.mux W (H := HW)) Avc1Demux.demux. Qed.

Lemma hev1_good b : local_wf (DynBox.Hev1 b) -> local_fair (DynBox.Hev1 b) ->
  (forall x, x ∈ children (DynBox.Hev1 b) -> good x) -> good (DynBox.Hev1 b).
Proof. visual_tac Hev1.NAME (Hev1.primitive_size DynBox.size) (fun W HW => Hev1.primitive_mux DynBox.mux W (H := HW)) Hev1Demux.demux. Qed.

Lemma av01_good b : local_wf (DynBox.Av01 b) -> local_fair (DynBox.Av01 b) ->
  (forall x, x ∈ children (DynBox.Av01 b) -> good x) -> good (DynBox.Av01 b).
Proof. visual_tac Av01.NAME (Av01.primitive_size DynBox.size) (fun W HW => Av01.primitive_mux DynBox.mux W (H := HW)) Av01Demux.demux. Qed.


(** Every well-formed and fair box is read back. *)
Lemma dyn_good b : every local_wf b -> every local_fair b -> good b.
Proof.
  intros Hw. induction Hw as [b Hw _ IH]. intros [Hf Hc].
  assert (forall x, x ∈ children b -> good x) as Hg by auto. clear IH Hc.
  destruct b; try match goal with |- good (_ ?b) =>
    apply (leaf_good b); [exact Hw|exact (proj1 Hf)|exact (proj2 Hf)|reflexivity|reflexivity|reflexivity] end.
  - by apply moov_good.
  - by apply mvex_good.
  - by apply trak_good.
  - by apply mdia_good.
  - by apply edts_good.
  - by apply minf_good.
  - by apply dinf_good.
  - by apply stbl_good.
  - by apply dref_good.
  - by apply stsd_good.
  - by apply avc1_good.
  - by apply mp4a_good.
  - by apply moof_good.
  - by apply traf_good.
  - by apply av01_good.
  - by apply hev1_good.
  - by apply opus_good.
  - by apply unknown_good.
Qed.
End roundtrip.
End DynLaws.
