(* ===== verification/Mp4DynTotal.v ===== *)
(** * [scuffle-mp4]: reading arbitrary bytes as a box

    [DynBox::demux] on any bytes: the bytes left are fuel enough, its errors
    are parse errors, and what it returns is well-formed at every level. *)

From Stdlib Require Import Strings.String.
From stdpp Require Import base list numbers.
From Stdlib Require Import Strings.Byte.
From S2P Require Import Prelude Io BytesCursor BitIo H264 Flv Mp4Box Mp4Movie Mp4Tables Mp4Fragment Mp4Esds.
From S2P Require Import Mp4Config Mp4Containers Mp4Dyn Mp4DynLaws.

Module DynTotal.
Import DynLaws.

(** ** Lists of children *)

Lemma all_app {A} (P : A -> Prop) xs ys : all P (xs ++ ys) <-> all P xs /\ all P ys.
Proof. induction xs as [|x xs IH]; simpl; [tauto|]. rewrite IH. tauto. Qed.

Lemma all_fmap {A B} (P : B -> Prop) (f : A -> B) xs : all P (f <$> xs) <-> all (fun a => P (f a)) xs.
Proof. induction xs as [|x xs IH]; simpl; [tauto|]. by rewrite <-IH. Qed.

Lemma all_option {A B} (P : B -> Prop) (f : A -> B) o : all P (f <$> option_list o) <-> opt_all (fun a => P (f a)) o.
Proof. destruct o; simpl; tauto. Qed.

Lemma all_one {A} (P : A -> Prop) x : all P [x] <-> P x.
Proof. simpl. tauto. Qed.

Lemma all_and {A} (P Q : A -> Prop) xs : all (fun x => P x /\ Q x) xs <-> all P xs /\ all Q xs.
Proof. induction xs as [|x xs IH]; simpl; [tauto|]. rewrite IH. tauto. Qed.

Lemma every_intro P b : P b -> all (every P) (children b) -> every P b.
Proof. intros Hb Hc. constructor; [done|]. by apply all_elem. Qed.

(** ** Parsers *)

Section parsers.
Context `{BO : ByteOrder} {pan : Prop}.

Lemma spec_in_step {A B} k n (m : M Cursor ErrorKind A) (f : A -> M Cursor ErrorKind B) Q R :
  advances k m -> spec_in n pan m Q -> (forall a, Q a -> (k <= n)%nat -> spec_in (n - k) pan (f a) R) ->
  spec_in n pan (bind m f) R.
Proof.
  intros Ha Hm Hf c Hc Hn. specialize (Ha c Hc). specialize (Hm c Hc Hn).
  unfold bind. destruct (m c) as [[a|e| |] c1]; try done. destruct Hm as (Hc1 & Hle & HQ), Ha as [_ Hk].
  specialize (Hf a HQ ltac:(lia) c1 Hc1 ltac:(lia)). destruct (f a c1) as [[b|e| |] c2]; try done.
  destruct Hf as (Hc2 & Hle2 & HR). split; [done|]. split; [lia|done].
Qed.

Lemma advancing_exact n : advances n (read_exact (T := Cursor) n).
Proof.
  intros c Hc. destruct (Flv.buffered_at c Hc) as (pre & post & -> & Hl).
  change (read_exact n) with (cursor_read_exact n). destruct (le_lt_dec n (length post)) as [Hn|Hn].
  - rewrite <-(take_drop n post), read_exact_at by (rewrite length_take; lia).
    rewrite !cursor_rest_at, length_app, length_take. split; [|lia].
    apply Flv.buffered_at_pos. by rewrite <-(assoc_L (++)), take_drop.
  - by rewrite read_exact_eof.
Qed.

Lemma spec_in_exact n k : spec_in n pan (read_exact (T := Cursor) k) (fun bs => length bs = k).
Proof.
  apply spec_in_of; [apply spec_read_exact|]. eapply advances_mono; [|apply advancing_exact]. lia.
Qed.

(** The payload of a box is part of what is left. *)
Lemma spec_in_rest n : spec_in n pan BytesCursorExt.extract_remaining
  (fun data => (length data <= n)%nat /\ 8 * blen data < 2 ^ 62).
Proof.
  intros c Hc Hn. pose proof (advances_rest c Hc) as Ha.
  destruct (Flv.buffered_at c Hc) as (pre & post & -> & Hl). rewrite cursor_rest_at in Hn.
  rewrite BytesCursorExt.extract_remaining_at in *. destruct Ha as [Hb Ha]. split; [done|]. split; [lia|].
  split; [done|]. unfold blen in *. rewrite length_app in Hl. lia.
Qed.

Lemma spec_in_extract n size : 0 <= size -> spec_in n pan (BytesCursorExt.extract_bytes size)
  (fun data => (length data <= n)%nat /\ 8 * blen data < 2 ^ 62).
Proof.
  intros Hs c Hc Hn. pose proof (advances_extract size Hs c Hc) as Ha.
  destruct (Flv.buffered_at c Hc) as (pre & post & -> & Hl). rewrite cursor_rest_at in Hn.
  pose proof (TotalParse.total_extract size pre post Hs) as Ht. unfold TotalParse.total in Ht.
  destruct (BytesCursorExt.extract_bytes size _) as [[d|e| |] c']; try done; [|by left].
  destruct Ht as (bs & post' & -> & -> & -> & _), Ha as [Hb Ha]. split; [done|]. split; [lia|].
  unfold blen in *. rewrite !length_app in *. split; lia.
Qed.

Lemma spec_in_ok_or {A} n (o : option A) (Q : A -> Prop) : opt_all Q o -> spec_in n pan (ok_or o InvalidData) Q.
Proof. intros Ho. destruct o; [by apply spec_in_ret|]. intros c Hc _. by right. Qed.

Lemma spec_in_unwrap {A} n (o : option A) (Q : A -> Prop) : pan -> opt_all Q o -> spec_in n pan (unwrap o) Q.
Proof. intros Hp Ho. destruct o; [by apply spec_in_ret|]. by intros c Hc _. Qed.

Lemma spec_in_list {A} n k (m : M Cursor ErrorKind A) (Q : A -> Prop) :
  spec_in n pan m Q -> spec_in n pan (read_times k m) (fun xs => length xs = k /\ all Q xs).
Proof.
  intros Hm. induction k as [|k IH]; simpl; [by apply spec_in_ret|]. eapply spec_in_bind; [done|].
  intros a Ha. eapply spec_in_bind; [done|]. intros xs [Hl Hx]. apply spec_in_ret. simpl. auto.
Qed.

Lemma advancing_int n : advances n (read_int n).
Proof.
  unfold read_int. rewrite <-(Nat.add_0_r n) at 1. apply advancing_bind; [apply advances_uint|].
  intros z. apply advancing_ret.
Qed.

Lemma advancing_entry {T} `{SampleEntryExtension T} : advances 0 ext_demux -> advances 0 SampleEntry.demux.
Proof.
  intros Hx. unfold SampleEntry.demux. eapply advances_mono; [apply Nat.le_0_l|].
  apply (advancing_bind 6 2); [apply advancing_exact|]. intros r.
  apply (advancing_bind 2 0); [apply advances_uint|]. intros d.
  apply (advancing_bind 0 0); [done|]. intros x. apply advancing_ret.
Qed.

Ltac advancing_tac :=
  repeat (apply (advancing_bind 0 0);
    [eapply advances_mono; [apply Nat.le_0_l|first [apply advances_uint|apply advancing_exact|apply advancing_int]]|intros ?]);
  apply advancing_ret.

Lemma spec_in_audio n : spec_in n pan SampleEntry.demux (SampleEntry.wf AudioSampleEntry.wf).
Proof.
  apply spec_in_of; [apply entry_spec, audio_spec|]. apply advancing_entry. simpl.
  unfold AudioSampleEntry.demux. advancing_tac.
Qed.

Lemma spec_in_visual n : spec_in n pan SampleEntry.demux
  (SampleEntry.wf (fun e => VisualSampleEntry.wf e /\ VisualSampleEntry.fields e = e)).
Proof.
  apply spec_in_of; [apply entry_spec, visual_spec|]. apply advancing_entry. simpl.
  unfold VisualSampleEntry.demux. advancing_tac.
Qed.

Lemma spec_in_full_header n name :
  spec_in n pan (FullBoxHeader.demux (BoxHeader.new name)) (FullBoxHeader.wf name).
Proof.
  apply spec_in_of; unfold FullBoxHeader.demux.
  - repeat sstep. by split_and!.
  - advancing_tac.
Qed.
End parsers.

(** The header: the payload is at least eight bytes shorter than what there
    was. The subtraction of the header's size may overflow. *)
Lemma spec_in_header `{BO : ByteOrder} n : spec_in n True BoxHeader.demux (fun p =>
  (length p.2 + 8 <= n)%nat /\ 8 * blen p.2 < 2 ^ 62 /\ length (BoxHeader.box_type p.1) = 4%nat).
Proof.
  unfold BoxHeader.demux.
  eapply spec_in_step; [apply advances_uint|apply DescriptorLaws.spec_in_uint|]. intros size [Hz _] Hn.
  eapply spec_in_step; [apply advancing_exact|apply spec_in_exact|]. intros name Hname Hn'.
  eapply (spec_in_bind _ _ _ (fun z => 0 <= z)).
  { destruct (size =? 1).
    - eapply spec_in_weaken; [|apply DescriptorLaws.spec_in_uint]. intros z Hz'. cbv beta in Hz'. lia.
    - by apply spec_in_ret. }
  intros size' Hs.
  eapply (spec_in_bind _ _ _ (fun data => (length data <= n - 4 - 4)%nat /\ 8 * blen data < 2 ^ 62)).
  - destruct (size' =? 0); [apply spec_in_rest|].
    eapply (spec_in_bind _ _ _ (fun z => 0 <= z)); [|intros z Hz'; by apply spec_in_extract].
    unfold checked_u. destruct (Z.leb_spec 0 (size' - if size =? 1 then 16 else 8)); simpl; [|by intros c Hc _].
    destruct (_ <? _); [by apply spec_in_ret|by intros c Hc _].
  - intros data [Hl Hb]. apply spec_in_ret. simpl. split; [lia|done].
Qed.


(** ** What the loops of the containers keep *)

Section containers.
Context `{BO : ByteOrder}.

Abbreviation wf := (every local_wf).

(** Every box that a local holds is well-formed. *)
Definition edts_inv (s : EdtsDemux.locals) : Prop :=
  opt_all (fun b => wf (DynBox.Elst b)) (EdtsDemux.elst s) /\
  all (fun x => wf x /\ edts_other x) (EdtsDemux.unknown s).

Definition mvex_inv (s : MvexDemux.locals) : Prop :=
  all (fun b => wf (DynBox.Trex b)) (MvexDemux.trex s) /\
  opt_all (fun b => wf (DynBox.Mehd b)) (MvexDemux.mehd s) /\
  all (fun x => wf x /\ mvex_other x) (MvexDemux.unknown s).

Definition dinf_inv (s : DinfDemux.locals) : Prop :=
  opt_all (fun b => wf (DynBox.Dref b)) (DinfDemux.dref s) /\
  all (fun x => wf x /\ dinf_other x) (DinfDemux.unknown s).

Definition stbl_inv (s : StblDemux.locals) : Prop :=
  opt_all (fun b => wf (DynBox.Stsd b)) (StblDemux.stsd s) /\
  opt_all (fun b => wf (DynBox.Stts b)) (StblDemux.stts s) /\
  opt_all (fun b => wf (DynBox.Ctts b)) (StblDemux.ctts s) /\
  opt_all (fun b => wf (DynBox.Stsc b)) (StblDemux.stsc s) /\
  opt_all (fun b => wf (DynBox.Stsz b)) (StblDemux.stsz s) /\
  opt_all (fun b => wf (DynBox.Stz2 b)) (StblDemux.stz2 s) /\
  opt_all (fun b => wf (DynBox.Stco b)) (StblDemux.stco s) /\
  opt_all (fun b => wf (DynBox.Co64 b)) (StblDemux.co64 s) /\
  opt_all (fun b => wf (DynBox.Stss b)) (StblDemux.stss s) /\
  opt_all (fun b => wf (DynBox.Stsh b)) (StblDemux.stsh s) /\
  opt_all (fun b => wf (DynBox.Padb b)) (StblDemux.padb s) /\
  opt_all (fun b => wf (DynBox.Stdp b)) (StblDemux.stdp s) /\
  opt_all (fun b => wf (DynBox.Sdtp b)) (StblDemux.sdtp s) /\
  opt_all (fun b => wf (DynBox.Sbgp b)) (StblDemux.sbgp s) /\
  opt_all (fun b => wf (DynBox.Subs b)) (StblDemux.subs s) /\
  all (fun x => wf x /\ stbl_other x) (StblDemux.unknown s).

Definition minf_inv (s : MinfDemux.locals) : Prop :=
  opt_all (fun b => wf (DynBox.Vmhd b)) (MinfDemux.vmhd s) /\
  opt_all (fun b => wf (DynBox.Smhd b)) (MinfDemux.smhd s) /\
  opt_all (fun b => wf (DynBox.Hmhd b)) (MinfDemux.hmhd s) /\
  opt_all (fun b => wf (DynBox.Nmhd b)) (MinfDemux.nmhd s) /\
  opt_all (fun b => wf (DynBox.Dinf b)) (MinfDemux.dinf s) /\
  opt_all (fun b => wf (DynBox.Stbl b)) (MinfDemux.stbl s) /\
  all (fun x => wf x /\ minf_other x) (MinfDemux.unknown s).

Definition mdia_inv (s : MdiaDemux.locals) : Prop :=
  opt_all (fun b => wf (DynBox.Mdhd b)) (MdiaDemux.mdhd s) /\
  opt_all (fun b => wf (DynBox.Hdlr b)) (MdiaDemux.hdlr s) /\
  opt_all (fun b => wf (DynBox.Minf b)) (MdiaDemux.minf s) /\
  all (fun x => wf x /\ mdia_other x) (MdiaDemux.unknown s).

Definition trak_inv (s : TrakDemux.locals) : Prop :=
  opt_all (fun b => wf (DynBox.Tkhd b)) (TrakDemux.tkhd s) /\
  opt_all (fun b => wf (DynBox.Edts b)) (TrakDemux.edts s) /\
  opt_all (fun b => wf (DynBox.Mdia b)) (TrakDemux.mdia s) /\
  all (fun x => wf x /\ trak_other x) (TrakDemux.unknown s).

Definition moov_inv (s : MoovDemux.locals) : Prop :=
  opt_all (fun b => wf (DynBox.Mvhd b)) (MoovDemux.mvhd s) /\
  all (fun b => wf (DynBox.Trak b)) (MoovDemux.traks s) /\
  opt_all (fun b => wf (DynBox.Mvex b)) (MoovDemux.mvex s) /\
  all (fun x => wf x /\ moov_other x) (MoovDemux.unknown s).

Definition traf_inv (s : TrafDemux.locals) : Prop :=
  opt_all (fun b => wf (DynBox.Tfhd b)) (TrafDemux.tfhd s) /\
  opt_all (fun b => wf (DynBox.Trun b)) (TrafDemux.trun s) /\
  opt_all (fun b => wf (DynBox.Sbgp b)) (TrafDemux.sbgp s) /\
  opt_all (fun b => wf (DynBox.Subs b)) (TrafDemux.subs s) /\
  opt_all (fun b => wf (DynBox.Tfdt b)) (TrafDemux.tfdt s) /\
  all (fun x => wf x /\ traf_other x) (TrafDemux.unknown s).

Definition moof_inv (s : MoofDemux.locals) : Prop :=
  opt_all (fun b => wf (DynBox.Mfhd b)) (MoofDemux.mfhd s) /\
  all (fun b => wf (DynBox.Traf b)) (MoofDemux.traf s) /\
  all (fun x => wf x /\ moof_other x) (MoofDemux.unknown s).

Definition avc1_inv (s : Avc1Demux.locals) : Prop :=
  SampleEntry.wf VisualSampleEntry.wf (Avc1Demux.visual_sample_entry s) /\
  opt_all (fun b => wf (DynBox.Clap b)) (VisualSampleEntry.clap (SampleEntry.extension (Avc1Demux.visual_sample_entry s))) /\
  opt_all (fun b => wf (DynBox.Pasp b)) (VisualSampleEntry.pasp (SampleEntry.extension (Avc1Demux.visual_sample_entry s))) /\
  opt_all (fun b => wf (DynBox.Colr b)) (VisualSampleEntry.colr (SampleEntry.extension (Avc1Demux.visual_sample_entry s))) /\
  opt_all (fun b => wf (DynBox.AvcC b)) (Avc1Demux.avcc s) /\
  opt_all (fun b => wf (DynBox.Btrt b)) (Avc1Demux.btrt s) /\
  all (fun x => wf x /\ avc1_other x) (Avc1Demux.unknown s).

Definition hev1_inv (s : Hev1Demux.locals) : Prop :=
  SampleEntry.wf VisualSampleEntry.wf (Hev1Demux.visual_sample_entry s) /\
  opt_all (fun b => wf (DynBox.Clap b)) (VisualSampleEntry.clap (SampleEntry.extension (Hev1Demux.visual_sample_entry s))) /\
  opt_all (fun b => wf (DynBox.Pasp b)) (VisualSampleEntry.pasp (SampleEntry.extension (Hev1Demux.visual_sample_entry s))) /\
  opt_all (fun b => wf (DynBox.Colr b)) (VisualSampleEntry.colr (SampleEntry.extension (Hev1Demux.visual_sample_entry s))) /\
  opt_all (fun b => wf (DynBox.HvcC b)) (Hev1Demux.hvcc s) /\
  opt_all (fun b => wf (DynBox.Btrt b)) (Hev1Demux.btrt s) /\
  all (fun x => wf x /\ hev1_other x) (Hev1Demux.unknown s).

Definition av01_inv (s : Av01Demux.locals) : Prop :=
  SampleEntry.wf VisualSampleEntry.wf (Av01Demux.visual_sample_entry s) /\
  opt_all (fun b => wf (DynBox.Clap b)) (VisualSampleEntry.clap (SampleEntry.extension (Av01Demux.visual_sample_entry s))) /\
  opt_all (fun b => wf (DynBox.Pasp b)) (VisualSampleEntry.pasp (SampleEntry.extension (Av01Demux.visual_sample_entry s))) /\
  opt_all (fun b => wf (DynBox.Colr b)) (VisualSampleEntry.colr (SampleEntry.extension (Av01Demux.visual_sample_entry s))) /\
  opt_all (fun b => wf (DynBox.Av1C b)) (Av01Demux.av1c s) /\
  opt_all (fun b => wf (DynBox.Btrt b)) (Av01Demux.btrt s) /\
  all (fun x => wf x /\ av01_other x) (Av01Demux.unknown s).

Definition mp4a_inv (s : Mp4aDemux.locals) : Prop :=
  opt_all (fun b => wf (DynBox.Esds b)) (Mp4aDemux.esds s) /\
  opt_all (fun b => wf (DynBox.Btrt b)) (Mp4aDemux.btrt s) /\
  all (fun x => wf x /\ mp4a_other x) (Mp4aDemux.unknown s).

Definition opus_inv (s : OpusDemux.locals) : Prop :=
  opt_all (fun b => wf (DynBox.Btrt b)) (OpusDemux.btrt s) /\
  all (fun x => wf x /\ opus_other x) (OpusDemux.unknown s).

(** ** Tactics *)

Lemma spec_next_box {S} n (ddemux : M Cursor ErrorKind DynBox.t) (take : S -> DynBox.t -> S) (I : S -> Prop) s :
  spec_in n True ddemux wf -> advances 1 ddemux -> I s -> (forall s d, I s -> wf d -> I (take s d)) ->
  spec_in n True (loop_remaining (next ddemux take) s) I.
Proof.
  intros Hd Ha HI Hu. apply spec_in_loop; [done| |].
  - intros s' Hs'. eapply spec_in_bind; [done|]. intros d Hw. apply spec_in_ret. auto.
  - intros s'. apply (advancing_bind 1 0); [done|]. intros d. apply advancing_ret.
Qed.

(** One turn keeps the locals well-formed. *)
Ltac take_inv :=
  intros Hs Hd; destruct_and! Hs;
  match goal with |- context [_ ?s ?d] => is_var d; destruct d end; cbn;
  rewrite ?all_app, ?all_one; repeat first [assumption | exact I | apply conj].

Ltac locals_tac :=
  cbn [children]; rewrite ?all_app, ?all_option, ?all_fmap, ?all_one, ?all_and in *; cbn;
  repeat first [assumption | tauto | apply conj].

(** The required boxes are there, and the box is made of the locals. *)
Ltac fields_outcome :=
  repeat match goal with
  | |- spec_in _ _ (bind (ok_or _ _) _) _ => eapply spec_in_bind; [apply spec_in_ok_or; eassumption|intros ? ?]
  | |- spec_in _ _ (bind (unwrap _) _) _ => eapply spec_in_bind; [apply spec_in_unwrap; [exact I|eassumption]|intros ? ?]
  end; apply spec_in_ret, every_intro; locals_tac.

Ltac container_outcome inv taken :=
  intros Hl Hd Ha; autounfold with mp4dyn; apply spec_in_over; [exact Hl|];
  eapply spec_in_bind; [apply (spec_next_box _ _ _ inv); [exact Hd|exact Ha|repeat (apply conj); exact I|exact taken]|];
  intros s Hs; unfold inv in Hs; destruct_and! Hs; cbv beta in *; fields_outcome.

Ltac entries_outcome :=
  intros Hl Hd Ha; autounfold with mp4dyn; apply spec_in_over; [exact Hl|];
  eapply spec_in_bind; [apply spec_in_full_header|]; intros h Hh;
  eapply spec_in_bind; [apply DescriptorLaws.spec_in_uint|]; intros count Hcount;
  eapply spec_in_bind; [apply (spec_in_list _ _ _ _ Hd)|]; intros entries [Hlen Hentries];
  apply spec_in_ret, every_intro; [split; [exact Hh|cbv beta in Hcount; cbn [Dref.entries Stsd.entries]; unfold blen; lia]|exact Hentries].

Ltac audio_outcome inv taken :=
  intros Hl Hd Ha; autounfold with mp4dyn; apply spec_in_over; [exact Hl|];
  eapply spec_in_bind; [apply spec_in_audio|]; intros e He;
  eapply spec_in_bind; [apply (spec_next_box _ _ _ inv); [exact Hd|exact Ha|repeat (apply conj); exact I|exact taken]|];
  intros s Hs; unfold inv in Hs; destruct_and! Hs; cbv beta in *; fields_outcome.

Lemma visual_init e : SampleEntry.wf (fun e => VisualSampleEntry.wf e /\ VisualSampleEntry.fields e = e) e ->
  SampleEntry.wf VisualSampleEntry.wf e /\ VisualSampleEntry.clap (SampleEntry.extension e) = None /\
  VisualSampleEntry.pasp (SampleEntry.extension e) = None /\ VisualSampleEntry.colr (SampleEntry.extension e) = None.
Proof. intros (Hr & Hl & Hi & Hw & <-). repeat split; try done; apply Hi || apply Hw. Qed.

Ltac visual_outcome inv taken :=
  intros Hl Hd Ha; autounfold with mp4dyn; apply spec_in_over; [exact Hl|];
  eapply spec_in_bind; [apply spec_in_visual|]; intros e He; apply visual_init in He as (He & Hclap & Hpasp & Hcolr);
  eapply spec_in_bind; [apply (spec_next_box _ _ _ inv); [exact Hd|exact Ha|
    unfold inv; cbn; rewrite Hclap, Hpasp, Hcolr; repeat first [exact He|exact I|apply conj]|exact taken]|];
  intros s Hs; unfold inv in Hs; destruct_and! Hs; cbv beta in *; fields_outcome.

Lemma edts_take s d : edts_inv s -> wf d -> edts_inv (EdtsDemux.take s d).
Proof. unfold edts_inv. take_inv. Qed.

Lemma edts_outcome ddemux data : 8 * blen data < 2 ^ 62 -> spec_in (length data) True ddemux wf -> advances 1 ddemux ->
  outcome True (EdtsDemux.demux ddemux (BoxHeader.new Edts.NAME) data) (fun b => wf (DynBox.Edts b)).
Proof. container_outcome edts_inv edts_take. Qed.

Lemma mvex_take s d : mvex_inv s -> wf d -> mvex_inv (MvexDemux.take s d).
Proof. unfold mvex_inv. take_inv. Qed.

Lemma mvex_outcome ddemux data : 8 * blen data < 2 ^ 62 -> spec_in (length data) True ddemux wf -> advances 1 ddemux ->
  outcome True (MvexDemux.demux ddemux (BoxHeader.new Mvex.NAME) data) (fun b => wf (DynBox.Mvex b)).
Proof. container_outcome mvex_inv mvex_take. Qed.

Lemma dref_outcome ddemux data : 8 * blen data < 2 ^ 62 -> spec_in (length data) True ddemux wf -> advances 1 ddemux ->
  outcome True (DrefDemux.demux ddemux (BoxHeader.new Dref.NAME) data) (fun b => wf (DynBox.Dref b)).
Proof. entries_outcome. Qed.

Lemma dinf_take s d : dinf_inv s -> wf d -> dinf_inv (DinfDemux.take s d).
Proof. unfold dinf_inv. take_inv. Qed.

Lemma dinf_outcome ddemux data : 8 * blen data < 2 ^ 62 -> spec_in (length data) True ddemux wf -> advances 1 ddemux ->
  outcome True (DinfDemux.demux ddemux (BoxHeader.new Dinf.NAME) data) (fun b => wf (DynBox.Dinf b)).
Proof. container_outcome dinf_inv dinf_take. Qed.

Lemma stsd_outcome ddemux data : 8 * blen data < 2 ^ 62 -> spec_in (length data) True ddemux wf -> advances 1 ddemux ->
  outcome True (StsdDemux.demux ddemux (BoxHeader.new Stsd.NAME) data) (fun b => wf (DynBox.Stsd b)).
Proof. entries_outcome. Qed.

Lemma stbl_take s d : stbl_inv s -> wf d -> stbl_inv (StblDemux.take s d).
Proof. unfold stbl_inv. take_inv. Qed.

Lemma stbl_outcome ddemux data : 8 * blen data < 2 ^ 62 -> spec_in (length data) True ddemux wf -> advances 1 ddemux ->
  outcome True (StblDemux.demux ddemux (BoxHeader.new Stbl.NAME) data) (fun b => wf (DynBox.Stbl b)).
Proof. container_outcome stbl_inv stbl_take. Qed.

Lemma minf_take s d : minf_inv s -> wf d -> minf_inv (MinfDemux.take s d).
Proof. unfold minf_inv. take_inv. Qed.

Lemma minf_outcome ddemux data : 8 * blen data < 2 ^ 62 -> spec_in (length data) True ddemux wf -> advances 1 ddemux ->
  outcome True (MinfDemux.demux ddemux (BoxHeader.new Minf.NAME) data) (fun b => wf (DynBox.Minf b)).
Proof. container_outcome minf_inv minf_take. Qed.

Lemma mdia_take s d : mdia_inv s -> wf d -> mdia_inv (MdiaDemux.take s d).
Proof. unfold mdia_inv. take_inv. Qed.

Lemma mdia_outcome ddemux data : 8 * blen data < 2 ^ 62 -> spec_in (length data) True ddemux wf -> advances 1 ddemux ->
  outcome True (MdiaDemux.demux ddemux (BoxHeader.new Mdia.NAME) data) (fun b => wf (DynBox.Mdia b)).
Proof. container_outcome mdia_inv mdia_take. Qed.

Lemma trak_take s d : trak_inv s -> wf d -> trak_inv (TrakDemux.take s d).
Proof. unfold trak_inv. take_inv. Qed.

Lemma trak_outcome ddemux data : 8 * blen data < 2 ^ 62 -> spec_in (length data) True ddemux wf -> advances 1 ddemux ->
  outcome True (TrakDemux.demux ddemux (BoxHeader.new Trak.NAME) data) (fun b => wf (DynBox.Trak b)).
Proof. container_outcome trak_inv trak_take. Qed.

Lemma moov_take s d : moov_inv s -> wf d -> moov_inv (MoovDemux.take s d).
Proof. unfold moov_inv. take_inv. Qed.

Lemma moov_outcome ddemux data : 8 * blen data < 2 ^ 62 -> spec_in (length data) True ddemux wf -> advances 1 ddemux ->
  outcome True (MoovDemux.demux ddemux (BoxHeader.new Moov.NAME) data) (fun b => wf (DynBox.Moov b)).
Proof. container_outcome moov_inv moov_take. Qed.

Lemma traf_take s d : traf_inv s -> wf d -> traf_inv (TrafDemux.take s d).
Proof. unfold traf_inv. take_inv. Qed.

Lemma traf_outcome ddemux data : 8 * blen data < 2 ^ 62 -> spec_in (length data) True ddemux wf -> advances 1 ddemux ->
  outcome True (TrafDemux.demux ddemux (BoxHeader.new Traf.NAME) data) (fun b => wf (DynBox.Traf b)).
Proof. container_outcome traf_inv traf_take. Qed.

Lemma moof_take s d : moof_inv s -> wf d -> moof_inv (MoofDemux.take s d).
Proof. unfold moof_inv. take_inv. Qed.

Lemma moof_outcome ddemux data : 8 * blen data < 2 ^ 62 -> spec_in (length data) True ddemux wf -> advances 1 ddemux ->
  outcome True (MoofDemux.demux ddemux (BoxHeader.new Moof.NAME) data) (fun b => wf (DynBox.Moof b)).
Proof. container_outcome moof_inv moof_take. Qed.

Lemma avc1_take s d : avc1_inv s -> wf d -> avc1_inv (Avc1Demux.take s d).
Proof. unfold avc1_inv. take_inv. Qed.

Lemma avc1_outcome ddemux data : 8 * blen data < 2 ^ 62 -> spec_in (length data) True ddemux wf -> advances 1 ddemux ->
  outcome True (Avc1Demux.demux ddemux (BoxHeader.new Avc1.NAME) data) (fun b => wf (DynBox.Avc1 b)).
Proof. visual_outcome avc1_inv avc1_take. Qed.

Lemma hev1_take s d : hev1_inv s -> wf d -> hev1_inv (Hev1Demux.take s d).
Proof. unfold hev1_inv. take_inv. Qed.

Lemma hev1_outcome ddemux data : 8 * blen data < 2 ^ 62 -> spec_in (length data) True ddemux wf -> advances 1 ddemux ->
  outcome True (Hev1Demux.demux ddemux (BoxHeader.new Hev1.NAME) data) (fun b => wf (DynBox.Hev1 b)).
Proof. visual_outcome hev1_inv hev1_take. Qed.

Lemma av01_take s d : av01_inv s -> wf d -> av01_inv (Av01Demux.take s d).
Proof. unfold av01_inv. take_inv. Qed.

Lemma av01_outcome ddemux data : 8 * blen data < 2 ^ 62 -> spec_in (length data) True ddemux wf -> advances 1 ddemux ->
  outcome True (Av01Demux.demux ddemux (BoxHeader.new Av01.NAME) data) (fun b => wf (DynBox.Av01 b)).
Proof. visual_outcome av01_inv av01_take. Qed.

Lemma mp4a_take s d : mp4a_inv s -> wf d -> mp4a_inv (Mp4aDemux.take s d).
Proof. unfold mp4a_inv. take_inv. Qed.

Lemma mp4a_outcome ddemux data : 8 * blen data < 2 ^ 62 -> spec_in (length data) True ddemux wf -> advances 1 ddemux ->
  outcome True (Mp4aDemux.demux ddemux (BoxHeader.new Mp4a.NAME) data) (fun b => wf (DynBox.Mp4a b)).
Proof. audio_outcome mp4a_inv mp4a_take. Qed.

Lemma opus_take s d : opus_inv s -> wf d -> opus_inv (OpusDemux.take s d).
Proof. unfold opus_inv. take_inv. Qed.

Lemma opus_outcome ddemux data : 8 * blen data < 2 ^ 62 -> spec_in (length data) True ddemux wf -> advances 1 ddemux ->
  outcome True (OpusDemux.demux ddemux (BoxHeader.new Opus.NAME) data) (fun b => wf (DynBox.Opus b)).
Proof. audio_outcome opus_inv opus_take. Qed.

(** ** [DynBox::demux] *)

Lemma leaf_spec {A} `{HL : BoxLaws A} `{IntoDyn A} n header data : 8 * blen data < 2 ^ 62 ->
  BoxHeader.box_type header = NAME (A := A) ->
  (forall a, box_wf a -> wf (into a)) ->
  spec_in n True (let* b := lift (Mp4Box.demux header data) in ret (into (A := A) b)) wf.
Proof.
  intros Hd Hh Hw. destruct header as [name]. simpl in Hh. subst name.
  eapply spec_in_bind; [apply spec_in_lift|intros a Ha; apply spec_in_ret; by apply Hw].
  pose proof (box_outcome data Hd) as Ho. unfold outcome in *.
  by destruct (Mp4Box.demux _ _).
Qed.

Lemma container_spec {A} `{IntoDyn A} n header data name
    (dm : BoxHeader.t -> list byte -> res ErrorKind A) :
  BoxHeader.box_type header = name ->
  outcome True (dm (BoxHeader.new name) data) (fun b => wf (into b)) ->
  spec_in n True (let* b := lift (dm header data) in ret (into b)) wf.
Proof.
  intros Hh Ho. destruct header as [name']. simpl in Hh. subst name'.
  eapply spec_in_bind; [by apply spec_in_lift|]. intros a Ha. by apply spec_in_ret.
Qed.

Lemma spec_in_if {P : Prop} `{Decision P} {A} n (m m' : M Cursor ErrorKind A) Q :
  (P -> spec_in n True m Q) -> (~ P -> spec_in n True m' Q) -> spec_in n True (if decide P then m else m') Q.
Proof. intros. case_decide; auto. Qed.

Lemma demux_data_spec n ddemux header data : 8 * blen data < 2 ^ 62 -> length (BoxHeader.box_type header) = 4%nat ->
  spec_in (length data) True ddemux wf -> advances 1 ddemux ->
  spec_in n True (DynBoxDemux.demux_data ddemux header data) wf.
Proof.
  intros Hd Hn Hs Ha. unfold DynBoxDemux.demux_data. cbv zeta.
  apply spec_in_if; intros HFtyp; [apply (leaf_spec (A := Ftyp.t)); [done|exact HFtyp|intros b Hb; by apply every_intro]|].
  apply spec_in_if; intros HMoov; [apply (container_spec (A := Moov.t DynBox.t) _ _ _ _ (MoovDemux.demux ddemux) HMoov); by apply moov_outcome|].
  apply spec_in_if; intros HMvhd; [apply (leaf_spec (A := Mvhd.t)); [done|exact HMvhd|intros b Hb; by apply every_intro]|].
  apply spec_in_if; intros HMvex; [apply (container_spec (A := Mvex.t DynBox.t) _ _ _ _ (MvexDemux.demux ddemux) HMvex); by apply mvex_outcome|].
  apply spec_in_if; intros HTrak; [apply (container_spec (A := Trak.t DynBox.t) _ _ _ _ (TrakDemux.demux ddemux) HTrak); by apply trak_outcome|].
  apply spec_in_if; intros HTrex; [apply (leaf_spec (A := Trex.t)); [done|exact HTrex|intros b Hb; by apply every_intro]|].
  apply spec_in_if; intros HMehd; [apply (leaf_spec (A := Mehd.t)); [done|exact HMehd|intros b Hb; by apply every_intro]|].
  apply spec_in_if; intros HMdia; [apply (container_spec (A := Mdia.t DynBox.t) _ _ _ _ (MdiaDemux.demux ddemux) HMdia); by apply mdia_outcome|].
  apply spec_in_if; intros HTkhd; [apply (leaf_spec (A := Tkhd.t)); [done|exact HTkhd|intros b Hb; by apply every_intro]|].
  apply spec_in_if; intros HEdts; [apply (container_spec (A := Edts.t DynBox.t) _ _ _ _ (EdtsDemux.demux ddemux) HEdts); by apply edts_outcome|].
  apply spec_in_if; intros HElst; [apply (leaf_spec (A := Elst.t)); [done|exact HElst|intros b Hb; by apply every_intro]|].
  apply spec_in_if; intros HMdhd; [apply (leaf_spec (A := Mdhd.t)); [done|exact HMdhd|intros b Hb; by apply every_intro]|].
  apply spec_in_if; intros HMinf; [apply (container_spec (A := Minf.t DynBox.t) _ _ _ _ (MinfDemux.demux ddemux) HMinf); by apply minf_outcome|].
  apply spec_in_if; intros HHdlr; [apply (leaf_spec (A := Hdlr.t)); [done|exact HHdlr|intros b Hb; by apply every_intro]|].
  apply spec_in_if; intros HDinf; [apply (container_spec (A := Dinf.t DynBox.t) _ _ _ _ (DinfDemux.demux ddemux) HDinf); by apply dinf_outcome|].
  apply spec_in_if; intros HStbl; [apply (container_spec (A := Stbl.t DynBox.t) _ _ _ _ (StblDemux.demux ddemux) HStbl); by apply stbl_outcome|].
  apply spec_in_if; intros HHmhd; [apply (leaf_spec (A := Hmhd.t)); [done|exact HHmhd|intros b Hb; by apply every_intro]|].
  apply spec_in_if; intros HNmhd; [apply (leaf_spec (A := Nmhd.t)); [done|exact HNmhd|intros b Hb; by apply every_intro]|].
  apply spec_in_if; intros HSmhd; [apply (leaf_spec (A := Smhd.t)); [done|exact HSmhd|intros b Hb; by apply every_intro]|].
  apply spec_in_if; intros HVmhd; [apply (leaf_spec (A := Vmhd.t)); [done|exact HVmhd|intros b Hb; by apply every_intro]|].
  apply spec_in_if; intros HDref; [apply (container_spec (A := Dref.t DynBox.t) _ _ _ _ (DrefDemux.demux ddemux) HDref); by apply dref_outcome|].
  apply spec_in_if; intros HStsd; [apply (container_spec (A := Stsd.t DynBox.t) _ _ _ _ (StsdDemux.demux ddemux) HStsd); by apply stsd_outcome|].
  apply spec_in_if; intros HStsz; [apply (leaf_spec (A := Stsz.t)); [done|exact HStsz|intros b Hb; by apply every_intro]|].
  apply spec_in_if; intros HStsc; [apply (leaf_spec (A := Stsc.t)); [done|exact HStsc|intros b Hb; by apply every_intro]|].
  apply spec_in_if; intros HStco; [apply (leaf_spec (A := Stco.t)); [done|exact HStco|intros b Hb; by apply every_intro]|].
  apply spec_in_if; intros HCo64; [apply (leaf_spec (A := Co64.t)); [done|exact HCo64|intros b Hb; by apply every_intro]|].
  apply spec_in_if; intros HStts; [apply (leaf_spec (A := Stts.t)); [done|exact HStts|intros b Hb; by apply every_intro]|].
  apply spec_in_if; intros HStss; [apply (leaf_spec (A := Stss.t)); [done|exact HStss|intros b Hb; by apply every_intro]|].
  apply spec_in_if; intros HStz2; [apply (leaf_spec (A := Stz2.t)); [done|exact HStz2|intros b Hb; by apply every_intro]|].
  apply spec_in_if; intros HStsh; [apply (leaf_spec (A := Stsh.t)); [done|exact HStsh|intros b Hb; by apply every_intro]|].
  apply spec_in_if; intros HCtts; [apply (leaf_spec (A := Ctts.t)); [done|exact HCtts|intros b Hb; by apply every_intro]|].
  apply spec_in_if; intros HStdp; [apply (leaf_spec (A := Stdp.t)); [done|exact HStdp|intros b Hb; by apply every_intro]|].
  apply spec_in_if; intros HSbgp; [apply (leaf_spec (A := Sbgp.t)); [done|exact HSbgp|intros b Hb; by apply every_intro]|].
  apply spec_in_if; intros HSubs; [apply (leaf_spec (A := Subs.t)); [done|exact HSubs|intros b Hb; by apply every_intro]|].
  apply spec_in_if; intros HPadb; [apply (leaf_spec (A := Padb.t)); [done|exact HPadb|intros b Hb; by apply every_intro]|].
  apply spec_in_if; intros HSdtp; [apply (leaf_spec (A := Sdtp.t)); [done|exact HSdtp|intros b Hb; by apply every_intro]|].
  apply spec_in_if; intros HUrl; [apply (leaf_spec (A := Url.t)); [done|exact HUrl|intros b Hb; by apply every_intro]|].
  apply spec_in_if; intros HAvc1; [apply (container_spec (A := Avc1.t DynBox.t) _ _ _ _ (Avc1Demux.demux ddemux) HAvc1); by apply avc1_outcome|].
  apply spec_in_if; intros HClap; [apply (leaf_spec (A := Clap.t)); [done|exact HClap|intros b Hb; by apply every_intro]|].
  apply spec_in_if; intros HPasp; [apply (leaf_spec (A := Pasp.t)); [done|exact HPasp|intros b Hb; by apply every_intro]|].
  apply spec_in_if; intros HAvcC; [apply (leaf_spec (A := AvcC.t)); [done|exact HAvcC|intros b Hb; by apply every_intro]|].
  apply spec_in_if; intros HBtrt; [apply (leaf_spec (A := Btrt.t)); [done|exact HBtrt|intros b Hb; by apply every_intro]|].
  apply spec_in_if; intros HMp4a; [apply (container_spec (A := Mp4a.t DynBox.t) _ _ _ _ (Mp4aDemux.demux ddemux) HMp4a); by apply mp4a_outcome|].
  apply spec_in_if; intros HEsds; [apply (leaf_spec (A := Esds.t)); [done|exact HEsds|intros b Hb; by apply every_intro]|].
  apply spec_in_if; intros HMoof; [apply (container_spec (A := Moof.t DynBox.t) _ _ _ _ (MoofDemux.demux ddemux) HMoof); by apply moof_outcome|].
  apply spec_in_if; intros HMfhd; [apply (leaf_spec (A := Mfhd.t)); [done|exact HMfhd|intros b Hb; by apply every_intro]|].
  apply spec_in_if; intros HTraf; [apply (container_spec (A := Traf.t DynBox.t) _ _ _ _ (TrafDemux.demux ddemux) HTraf); by apply traf_outcome|].
  apply spec_in_if; intros HTfhd; [apply (leaf_spec (A := Tfhd.t)); [done|exact HTfhd|intros b Hb; by apply every_intro]|].
  apply spec_in_if; intros HTfdt; [apply (leaf_spec (A := Tfdt.t)); [done|exact HTfdt|intros b Hb; by apply every_intro]|].
  apply spec_in_if; intros HTrun; [apply (leaf_spec (A := Trun.t)); [done|exact HTrun|intros b Hb; by apply every_intro]|].
  apply spec_in_if; intros HMdat; [apply (leaf_spec (A := Mdat.t)); [done|exact HMdat|intros b Hb; by apply every_intro]|].
  apply spec_in_if; intros HAv01; [apply (container_spec (A := Av01.t DynBox.t) _ _ _ _ (Av01Demux.demux ddemux) HAv01); by apply av01_outcome|].
  apply spec_in_if; intros HAv1C; [apply (leaf_spec (A := Av1C.t)); [done|exact HAv1C|intros b Hb; by apply every_intro]|].
  apply spec_in_if; intros HColr; [apply (leaf_spec (A := Colr.t)); [done|exact HColr|intros b Hb; by apply every_intro]|].
  apply spec_in_if; intros HHev1; [apply (container_spec (A := Hev1.t DynBox.t) _ _ _ _ (Hev1Demux.demux ddemux) HHev1); by apply hev1_outcome|].
  apply spec_in_if; intros HHvcC; [apply (leaf_spec (A := HvcC.t)); [done|exact HHvcC|intros b Hb; by apply every_intro]|].
  apply spec_in_if; intros HOpus; [apply (container_spec (A := Opus.t DynBox.t) _ _ _ _ (OpusDemux.demux ddemux) HOpus); by apply opus_outcome|].
  apply spec_in_ret, every_intro; [|done]. split; [done|]. unfold NAMES. rewrite list_elem_of_In.
  intros Hin. repeat (destruct Hin as [Hin|Hin]; [congruence|]). done.
Qed.

Lemma advancing_lifted {A} (r : res ErrorKind A) (f : A -> DynBox.t) : advances 0 (let* b := lift r in ret (f b)).
Proof. apply (advancing_bind 0 0); [apply advances_lift|]. intros b. apply advancing_ret. Qed.

Lemma advancing_if {P : Prop} `{Decision P} {A} k (m m' : M Cursor ErrorKind A) :
  advances k m -> advances k m' -> advances k (if decide P then m else m').
Proof. intros. by case_decide. Qed.

Lemma advancing_header : advances 1 BoxHeader.demux.
Proof.
  unfold BoxHeader.demux. eapply (advances_mono 1 (4 + 4)); [lia|].
  apply (advancing_bind 4 4); [apply advances_uint|]. intros size.
  apply (advancing_bind 4 0); [apply advancing_exact|]. intros name.
  apply (advancing_bind 0 0).
  { destruct (size =? 1); [eapply advances_mono; [apply Nat.le_0_l|apply advances_uint]|apply advancing_ret]. }
  intros size'. apply (advancing_bind 0 0); [|intros data; apply advancing_ret].
  destruct (size' =? 0); [apply advances_rest|]. intros c Hc. unfold checked_u.
  destruct (Z.leb_spec 0 (size' - if size =? 1 then 16 else 8)); simpl; [|done].
  destruct (_ <? _); [|done]. by apply advances_extract.
Qed.

Lemma advancing_dyn fuel : advances 1 (DynBoxDemux.demux_fuel fuel).
Proof.
  destruct fuel as [|fuel]; [by intros c Hc|]. cbn [DynBoxDemux.demux_fuel].
  apply (advancing_bind 1 0); [apply advancing_header|]. intros [h data]. unfold DynBoxDemux.demux_data. cbv zeta.
  repeat (apply advancing_if; [apply advancing_lifted|]). apply advancing_ret.
Qed.

Lemma dyn_spec n : spec_in n True (DynBoxDemux.demux_fuel (S n)) wf.
Proof.
  induction n as [n IH] using lt_wf_ind. cbn [DynBoxDemux.demux_fuel].
  eapply spec_in_bind; [apply spec_in_header|]. intros [header data] (Hn & Hl & Ht). simpl in *.
  destruct n as [|n]; [lia|]. specialize (IH n ltac:(lia)).
  apply (spec_in_mono n (length data)) in IH; [|lia].
  apply demux_data_spec; [done|done|done|apply advancing_dyn].
Qed.

Lemma dyn_demux_spec n : spec_in n True DynBoxDemux.demux wf.
Proof.
  intros c Hc Hn. unfold DynBoxDemux.demux. erewrite bind_ok; [|done]. by apply dyn_spec.
Qed.
End containers.
End DynTotal.
