(* ===== verification/Mp4Traf.v ===== *)
(** * [scuffle-mp4]: track fragments (crates/mp4/src/boxes/types/traf.rs)

    The operations of a track fragment besides its encoding:
    [Traf::optimize], which moves values that all samples share into the
    defaults of the fragment's header, [Traf::duration] and
    [Traf::contains_keyframe]. What a fragment means is given by
    [effective], the list of its samples with the defaults filled in; the
    lemmas show that [optimize] keeps it, does not make the fragment bigger,
    and leaves boxes that the writer accepts. *)

From Stdlib Require Import Strings.String Btauto.
From stdpp Require Import base sets list numbers.
From Stdlib Require Import Strings.Byte.
From S2P Require Import Prelude Io Mp4Box Mp4Movie Mp4Tables Mp4Fragment Mp4Esds Mp4Config Mp4Containers.

Module TrafOps.
Import Trun.

(** ** The operations *)

Definition flag_if (c : bool) (flag : Z) : Z := if c then flag else 0.

(** The first rewriting step: flags shared by all samples but the first. *)
Definition optimize_flags (tfhd : Tfhd.t) (trun : Trun.t) : Tfhd.t * Trun.t :=
  match samples trun with
  | first_sample :: second :: rest =>
      if negb (is_some (Tfhd.default_sample_flags tfhd)) &&
         forallb (fun s => bool_decide (flags s = flags second)) rest
      then
        (Tfhd.mk (Tfhd.header tfhd) (Tfhd.track_id tfhd) (Tfhd.base_data_offset tfhd)
           (Tfhd.sample_description_index tfhd) (Tfhd.default_sample_duration tfhd)
           (Tfhd.default_sample_size tfhd) (flags second),
         mk (header trun) (data_offset trun)
           (if bool_decide (flags first_sample = flags second) then first_sample_flags trun
            else flags first_sample)
           ((fun s => mkSample (duration s) (size s) None (composition_time_offset s)) <$> samples trun))
      else (tfhd, trun)
  | _ => (tfhd, trun)
  end.

Definition optimize_offsets (trun : Trun.t) : Trun.t :=
  if forallb (fun s => bool_decide (composition_time_offset s = Some 0)) (samples trun)
  then mk (header trun) (data_offset trun) (first_sample_flags trun)
         ((fun s => mkSample (duration s) (size s) (flags s) None) <$> samples trun)
  else trun.

Definition optimize_duration (tfhd : Tfhd.t) (trun : Trun.t) : Tfhd.t * Trun.t :=
  match samples trun with
  | first_sample :: rest =>
      if negb (is_some (Tfhd.default_sample_duration tfhd)) &&
         forallb (fun s => bool_decide (duration s = duration first_sample)) rest
      then
        (Tfhd.mk (Tfhd.header tfhd) (Tfhd.track_id tfhd) (Tfhd.base_data_offset tfhd)
           (Tfhd.sample_description_index tfhd) (duration first_sample)
           (Tfhd.default_sample_size tfhd) (Tfhd.default_sample_flags tfhd),
         mk (header trun) (data_offset trun) (first_sample_flags trun)
           ((fun s => mkSample None (size s) (flags s) (composition_time_offset s)) <$> samples trun))
      else (tfhd, trun)
  | [] => (tfhd, trun)
  end.

Definition optimize_size (tfhd : Tfhd.t) (trun : Trun.t) : Tfhd.t * Trun.t :=
  match samples trun with
  | first_sample :: rest =>
      if negb (is_some (Tfhd.default_sample_size tfhd)) &&
         forallb (fun s => bool_decide (size s = size first_sample)) rest
      then
        (Tfhd.mk (Tfhd.header tfhd) (Tfhd.track_id tfhd) (Tfhd.base_data_offset tfhd)
           (Tfhd.sample_description_index tfhd) (Tfhd.default_sample_duration tfhd)
           (size first_sample) (Tfhd.default_sample_flags tfhd),
         mk (header trun) (data_offset trun) (first_sample_flags trun)
           ((fun s => mkSample (duration s) None (flags s) (composition_time_offset s)) <$> samples trun))
      else (tfhd, trun)
  | [] => (tfhd, trun)
  end.

(** [trun.samples.first().and_then(f).is_some()] *)
Definition first_has {A} (f : TrunSample -> option A) (trun : Trun.t) : bool :=
  match samples trun with s :: _ => is_some (f s) | [] => false end.

Definition set_flags (h : FullBoxHeader.t) (flags : Z) : FullBoxHeader.t :=
  FullBoxHeader.mk (FullBoxHeader.header h) (FullBoxHeader.version h) flags.

Definition trun_flags (trun : Trun.t) : Z :=
  Z.lor (Z.lor (Z.lor (Z.lor (Z.lor
    (flag_if (is_some (data_offset trun)) FLAG_DATA_OFFSET)
    (flag_if (is_some (first_sample_flags trun)) FLAG_FIRST_SAMPLE_FLAGS))
    (flag_if (first_has duration trun) FLAG_SAMPLE_DURATION))
    (flag_if (first_has size trun) FLAG_SAMPLE_SIZE))
    (flag_if (first_has flags trun) FLAG_SAMPLE_FLAGS))
    (flag_if (first_has composition_time_offset trun) FLAG_SAMPLE_COMPOSITION_TIME_OFFSET).

Definition tfhd_flags (tfhd : Tfhd.t) : Z :=
  Z.lor (Z.lor (Z.lor (Z.lor
    (flag_if (is_some (Tfhd.base_data_offset tfhd)) Tfhd.BASE_DATA_OFFSET_FLAG)
    (flag_if (is_some (Tfhd.default_sample_duration tfhd)) Tfhd.DEFAULT_SAMPLE_DURATION_FLAG))
    (flag_if (is_some (Tfhd.default_sample_flags tfhd)) Tfhd.DEFAULT_SAMPLE_FLAGS_FLAG))
    (flag_if (is_some (Tfhd.default_sample_size tfhd)) Tfhd.DEFAULT_SAMPLE_SIZE_FLAG))
    (Z.land (FullBoxHeader.flags (Tfhd.header tfhd)) Tfhd.DEFAULT_BASE_IS_MOOF_FLAG).

Definition reflag_trun (trun : Trun.t) : Trun.t :=
  mk (set_flags (header trun) (trun_flags trun)) (data_offset trun) (first_sample_flags trun) (samples trun).

Definition reflag_tfhd (tfhd : Tfhd.t) : Tfhd.t :=
  Tfhd.mk (set_flags (Tfhd.header tfhd) (tfhd_flags tfhd)) (Tfhd.track_id tfhd) (Tfhd.base_data_offset tfhd)
    (Tfhd.sample_description_index tfhd) (Tfhd.default_sample_duration tfhd) (Tfhd.default_sample_size tfhd)
    (Tfhd.default_sample_flags tfhd).

Definition rewrite_run (tfhd : Tfhd.t) (trun : Trun.t) : Tfhd.t * Trun.t :=
  let '(tfhd, trun) := optimize_flags tfhd trun in
  let trun := optimize_offsets trun in
  let '(tfhd, trun) := optimize_duration tfhd trun in
  optimize_size tfhd trun.

Definition optimize {D} (b : Traf.t D) : Traf.t D :=
  match Traf.trun b with
  | None => b
  | Some trun =>
      match samples trun with
      | [] => b
      | _ :: _ =>
          let '(tfhd, trun) := rewrite_run (Traf.tfhd b) trun in
          Traf.mk (Traf.header b) (reflag_tfhd tfhd) (Some (reflag_trun trun)) (Traf.sbgp b) (Traf.subs b)
            (Traf.tfdt b) (Traf.unknown b)
      end
  end.

(** The sum is a [u32]: an overflow panics. *)
Fixpoint sum_durations (tfhd : Tfhd.t) (acc : Z) (xs : list TrunSample) : res ErrorKind Z :=
  match xs with
  | [] => Ok acc
  | sample :: xs =>
      match (match duration sample with Some d => Some d | None => Tfhd.default_sample_duration tfhd end) with
      | Some d => if acc + d <=? u32_max then sum_durations tfhd (acc + d) xs else Panic
      | None => sum_durations tfhd acc xs
      end
  end.

Definition traf_duration {D} (b : Traf.t D) : res ErrorKind Z :=
  match Traf.trun b with
  | Some trun => sum_durations (Traf.tfhd b) 0 (samples trun)
  | None => Ok 0
  end.

Definition key (flags : option TrunSampleFlag.t) : bool :=
  match flags with Some flags => TrunSampleFlag.sample_depends_on flags =? 2 | None => false end.

Definition sample_key (tfhd : Tfhd.t) (sample : TrunSample) : bool :=
  match flags sample with
  | Some f => key (Some f)
  | None => key (Tfhd.default_sample_flags tfhd)
  end.

Definition contains_keyframe {D} (b : Traf.t D) : bool :=
  match Traf.trun b with
  | Some trun => key (first_sample_flags trun) || existsb (sample_key (Traf.tfhd b)) (samples trun)
  | None => false
  end.

(** ** What the samples of a fragment are *)

Definition or_else {A} (a b : option A) : option A := match a with Some _ => a | None => b end.

(** A value given for a sample takes precedence over the default of the
    fragment; the flags of the first sample can be given apart; a missing
    composition time offset is zero. What is absent here as well is taken from
    the track (ISO/IEC 14496-12, 8.8.8). *)
Definition effective_sample (tfhd : Tfhd.t) (first : option TrunSampleFlag.t) (s : TrunSample) : TrunSample :=
  mkSample (or_else (duration s) (Tfhd.default_sample_duration tfhd))
    (or_else (size s) (Tfhd.default_sample_size tfhd))
    (or_else (flags s) (or_else first (Tfhd.default_sample_flags tfhd)))
    (Some (default 0 (composition_time_offset s))).

Definition effective_run (tfhd : Tfhd.t) (trun : Trun.t) : list TrunSample :=
  match samples trun with
  | [] => []
  | s :: rest => effective_sample tfhd (first_sample_flags trun) s :: (effective_sample tfhd None <$> rest)
  end.

Definition effective {D} (b : Traf.t D) : list TrunSample :=
  match Traf.trun b with Some trun => effective_run (Traf.tfhd b) trun | None => [] end.

(** Every sample has the same optional fields as the first. *)
Definition alike (trun : Trun.t) : Prop := forall s, s ∈ samples trun ->
  is_some (duration s) = first_has duration trun /\ is_some (size s) = first_has size trun /\
  is_some (flags s) = first_has flags trun /\
  is_some (composition_time_offset s) = first_has composition_time_offset trun.

(** The flags of the first sample are given at most once. *)
Definition once (trun : Trun.t) : Prop :=
  first_sample_flags trun = None \/ first_has flags trun = false.

Definition keyed (tfhd : Tfhd.t) (trun : Trun.t) : bool :=
  key (first_sample_flags trun) || existsb (sample_key tfhd) (samples trun).

(** The bytes that the choice of defaults decides. *)
Definition width (c : bool) : Z := if c then 4 else 0.

Definition tfhd_weight (tfhd : Tfhd.t) : Z :=
  width (is_some (Tfhd.default_sample_duration tfhd)) + width (is_some (Tfhd.default_sample_size tfhd)) +
  width (is_some (Tfhd.default_sample_flags tfhd)).

Definition trun_weight (trun : Trun.t) : Z :=
  width (is_some (first_sample_flags trun)) +
  blen (samples trun) * (width (first_has duration trun) + width (first_has size trun) +
    width (first_has flags trun) + width (first_has composition_time_offset trun)).

(** What each step keeps. *)
Definition step_ok (tfhd : Tfhd.t) (trun : Trun.t) (p : Tfhd.t * Trun.t) : Prop :=
  effective_run p.1 p.2 = effective_run tfhd trun /\ keyed p.1 p.2 = keyed tfhd trun /\
  alike p.2 /\ once p.2 /\ trun_weight p.2 <= trun_weight trun /\
  tfhd_weight p.1 + trun_weight p.2 <= tfhd_weight tfhd + trun_weight trun.

Lemma step_ok_refl tfhd trun : alike trun -> once trun -> step_ok tfhd trun (tfhd, trun).
Proof. by intros. Qed.

Lemma step_ok_trans tfhd trun p q :
  step_ok tfhd trun p -> (alike p.2 -> once p.2 -> step_ok p.1 p.2 q) -> step_ok tfhd trun q.
Proof.
  intros (E1 & E3 & A & O & W1 & W2) H. destruct (H A O) as (F1 & F3 & B & Q & X1 & X2). simpl in *.
  split_and!; first [done | congruence | lia].
Qed.

(** The sum is one of the effective durations. *)
Fixpoint sum_effective (acc : Z) (xs : list TrunSample) : res ErrorKind Z :=
  match xs with
  | [] => Ok acc
  | s :: xs =>
      match duration s with
      | Some d => if acc + d <=? u32_max then sum_effective (acc + d) xs else Panic
      | None => sum_effective acc xs
      end
  end.

Lemma sum_durations_effective tfhd trun acc :
  sum_durations tfhd acc (samples trun) = sum_effective acc (effective_run tfhd trun).
Proof.
  assert (forall xs acc, sum_durations tfhd acc xs = sum_effective acc (effective_sample tfhd None <$> xs)) as H.
  { induction xs as [|x xs IH]; intros; simpl; [done|]. unfold or_else.
    destruct (duration x), (Tfhd.default_sample_duration tfhd); simpl; rewrite ?IH; done. }
  unfold effective_run. destruct (samples trun) as [|x xs]; simpl; [done|]. unfold or_else.
  destruct (duration x), (Tfhd.default_sample_duration tfhd); simpl; rewrite ?H; done.
Qed.

Lemma forallb_eq {A} (f : TrunSample -> option A) `{EqDecision A} o xs :
  forallb (fun s => bool_decide (f s = o)) xs = true -> forall s, s ∈ xs -> f s = o.
Proof.
  rewrite forallb_forall. intros H s Hs%list_elem_of_In. by apply H, bool_decide_eq_true in Hs.
Qed.

(** A field that a step keeps in every sample, or drops from every sample. *)
Definition uniform {A} (f : TrunSample -> option A) (g : TrunSample -> TrunSample) : Prop :=
  (forall s, f (g s) = f s) \/ (forall s, f (g s) = None).

Lemma uniform_is_some {A} (f : TrunSample -> option A) g x y :
  uniform f g -> is_some (f x) = is_some (f y) -> is_some (f (g x)) = is_some (f (g y)).
Proof. intros [H|H]; by rewrite !H. Qed.

Lemma alike_fmap h off fsf trun g :
  uniform duration g -> uniform size g -> uniform flags g -> uniform composition_time_offset g ->
  alike trun -> alike (mk h off fsf (g <$> samples trun)).
Proof.
  intros Hd Hs Hf Hc A s. unfold alike, first_has in *. simpl.
  intros (x & -> & Hx)%list_elem_of_fmap. specialize (A x Hx).
  destruct (samples trun) as [|y ys]; [by apply elem_of_nil in Hx|]. simpl.
  destruct_and! A. split_and!; by apply uniform_is_some.
Qed.

Lemma effective_fmap tfhd trun tfhd' h off g :
  (forall s first, s ∈ samples trun -> effective_sample tfhd' first (g s) = effective_sample tfhd first s) ->
  effective_run tfhd' (mk h off (first_sample_flags trun) (g <$> samples trun)) = effective_run tfhd trun.
Proof.
  intros H. unfold effective_run. destruct (samples trun) as [|x xs]; simpl; [done|].
  rewrite H by set_solver. f_equal. rewrite <-list_fmap_compose.
  apply list_fmap_ext. intros i y Hy. apply H. apply list_elem_of_lookup_2 in Hy. set_solver.
Qed.

Lemma keyed_fmap tfhd trun tfhd' h off g :
  Tfhd.default_sample_flags tfhd' = Tfhd.default_sample_flags tfhd -> (forall s, flags (g s) = flags s) ->
  keyed tfhd' (mk h off (first_sample_flags trun) (g <$> samples trun)) = keyed tfhd trun.
Proof.
  intros Hd Hg. unfold keyed. f_equal. simpl. induction (samples trun) as [|x xs IH]; simpl; [done|].
  f_equal; [|exact IH]. unfold sample_key. by rewrite Hg, Hd.
Qed.

Ltac all_eq E := let E' := fresh in pose proof (forallb_eq _ _ _ E) as E'; clear E; rename E' into E.
Ltac uniform_tac := unfold uniform; simpl; auto.

Lemma offsets_ok tfhd trun : alike trun -> once trun -> step_ok tfhd trun (tfhd, optimize_offsets trun).
Proof.
  intros A O. unfold optimize_offsets. case_match eqn:E; [|by apply step_ok_refl].
  all_eq E. split_and!; simpl.
  - apply effective_fmap. intros. unfold effective_sample; simpl. by rewrite E.
  - by apply keyed_fmap.
  - apply alike_fmap; uniform_tac.
  - unfold once, first_has in *. simpl. destruct (samples trun); auto.
  - unfold trun_weight, first_has, width. simpl. destruct (samples trun); simpl; [lia|].
    unfold blen; simpl. rewrite length_fmap. repeat case_match; lia.
  - unfold tfhd_weight, trun_weight, first_has, width. simpl. destruct (samples trun); simpl; [lia|].
    unfold blen; simpl. rewrite length_fmap. repeat case_match; lia.
Qed.

Lemma duration_ok tfhd trun : alike trun -> once trun -> step_ok tfhd trun (optimize_duration tfhd trun).
Proof.
  intros A O. unfold optimize_duration. destruct (samples trun) as [|x xs] eqn:S; [by apply step_ok_refl|].
  case_match eqn:E; [|by apply step_ok_refl]. apply andb_prop in E as [En E].
  all_eq E. rewrite <-S.
  assert (Tfhd.default_sample_duration tfhd = None) as Hn by (by destruct Tfhd.default_sample_duration).
  split_and!; simpl.
  - apply effective_fmap. intros s first Hs. rewrite S in Hs.
    unfold effective_sample; simpl. rewrite Hn. f_equal.
    apply elem_of_cons in Hs as [->|Hs]; [|rewrite (E s Hs)]; by destruct (duration x).
  - by apply keyed_fmap.
  - apply alike_fmap; uniform_tac.
  - unfold once, first_has in *. simpl. by rewrite S in *.
  - unfold trun_weight, first_has, width. rewrite S. simpl.
    unfold blen; simpl. rewrite length_fmap, ?Hn. simpl. repeat case_match; lia.
  - unfold tfhd_weight, trun_weight, first_has, width. rewrite S. simpl.
    unfold blen; simpl. rewrite length_fmap, ?Hn. simpl. repeat case_match; lia.
Qed.

Lemma size_ok tfhd trun : alike trun -> once trun -> step_ok tfhd trun (optimize_size tfhd trun).
Proof.
  intros A O. unfold optimize_size. destruct (samples trun) as [|x xs] eqn:S; [by apply step_ok_refl|].
  case_match eqn:E; [|by apply step_ok_refl]. apply andb_prop in E as [En E].
  all_eq E. rewrite <-S.
  assert (Tfhd.default_sample_size tfhd = None) as Hn by (by destruct Tfhd.default_sample_size).
  split_and!; simpl.
  - apply effective_fmap. intros s first Hs. rewrite S in Hs.
    unfold effective_sample; simpl. rewrite Hn. f_equal.
    apply elem_of_cons in Hs as [->|Hs]; [|rewrite (E s Hs)]; by destruct (size x).
  - by apply keyed_fmap.
  - apply alike_fmap; uniform_tac.
  - unfold once, first_has in *. simpl. by rewrite S in *.
  - unfold trun_weight, first_has, width. rewrite S. simpl.
    unfold blen; simpl. rewrite length_fmap, ?Hn. simpl. repeat case_match; lia.
  - unfold tfhd_weight, trun_weight, first_has, width. rewrite S. simpl.
    unfold blen; simpl. rewrite length_fmap, ?Hn. simpl. repeat case_match; lia.
Qed.

Lemma existsb_shared tfhd tfhd' ys f :
  Tfhd.default_sample_flags tfhd = None -> Tfhd.default_sample_flags tfhd' = f ->
  (forall s, s ∈ ys -> flags s = f) ->
  existsb (sample_key tfhd') ((fun s => mkSample (duration s) (size s) None (composition_time_offset s)) <$> ys) =
  existsb (sample_key tfhd) ys.
Proof.
  intros Hn Hf E. induction ys as [|s ys IH]; simpl; [done|].
  f_equal; [|apply IH; set_solver]. unfold sample_key. simpl. rewrite Hn, Hf, (E s) by set_solver.
  by destruct f.
Qed.

(** Where all samples have flags, those of the first become the flags of the
    first sample unless they are the others'. *)
Lemma flags_ok tfhd trun : alike trun -> once trun -> step_ok tfhd trun (optimize_flags tfhd trun).
Proof.
  intros A O. unfold optimize_flags. destruct (samples trun) as [|x [|y ys]] eqn:S; try by apply step_ok_refl.
  case_match eqn:E; [|by apply step_ok_refl]. apply andb_prop in E as [En E].
  all_eq E. rewrite <-S.
  assert (Tfhd.default_sample_flags tfhd = None) as Hn by (by destruct Tfhd.default_sample_flags).
  pose proof (A y) as (_ & _ & Hy & _); [rewrite S; set_solver|].
  unfold once, first_has in *. rewrite S in Hy, O. simpl in Hy, O.
  assert (forall s, s ∈ ys -> effective_sample
    (Tfhd.mk (Tfhd.header tfhd) (Tfhd.track_id tfhd) (Tfhd.base_data_offset tfhd)
           (Tfhd.sample_description_index tfhd) (Tfhd.default_sample_duration tfhd)
           (Tfhd.default_sample_size tfhd) (flags y)) None
    (mkSample (duration s) (size s) None (composition_time_offset s)) = effective_sample tfhd None s) as He.
  { intros s Hs. unfold effective_sample; simpl. rewrite Hn, (E s Hs). by destruct (flags y). }
  split_and!; simpl.
  - unfold effective_run; simpl. rewrite S; simpl. f_equal; [|f_equal].
    + unfold effective_sample; simpl. rewrite Hn. f_equal.
      case_bool_decide as Hb; destruct (flags x), (flags y), (first_sample_flags trun); naive_solver.
    + unfold effective_sample; simpl. rewrite Hn. by destruct (flags y).
    + rewrite <-list_fmap_compose. apply list_fmap_ext. intros i s Hs. apply He.
      by apply list_elem_of_lookup_2 in Hs.
  - unfold keyed. rewrite S. simpl first_sample_flags. simpl samples. simpl existsb.
    rewrite (existsb_shared tfhd _ ys (flags y)) by done. rewrite !orb_assoc. f_equal.
    unfold sample_key. simpl flags. simpl Tfhd.default_sample_flags. rewrite Hn.
    case_bool_decide as Hb; destruct (flags x), (flags y), (first_sample_flags trun); destruct O; simplify_eq/=; try done;
      simpl; rewrite ?orb_false_r; btauto.
  - apply alike_fmap; uniform_tac.
  - right. unfold first_has. simpl. by rewrite S.
  - unfold trun_weight, first_has, width. rewrite S. simpl.
    unfold blen; simpl. rewrite length_fmap, ?Hn. simpl.
    case_bool_decide as Hb; destruct (flags x), (flags y), (first_sample_flags trun);
      destruct O; simplify_eq/=; repeat case_match; lia.
  - unfold tfhd_weight, trun_weight, first_has, width. rewrite S. simpl.
    unfold blen; simpl. rewrite length_fmap, ?Hn. simpl.
    case_bool_decide as Hb; destruct (flags x), (flags y), (first_sample_flags trun);
      destruct O; simplify_eq/=; repeat case_match; lia.
Qed.
Lemma rewrite_run_ok tfhd trun : alike trun -> once trun -> step_ok tfhd trun (rewrite_run tfhd trun).
Proof.
  intros A O. unfold rewrite_run. pose proof (flags_ok tfhd trun A O) as H.
  destruct (optimize_flags tfhd trun) as [tfhd1 trun1]. eapply step_ok_trans; [exact H|]. clear A O H. intros A O.
  eapply step_ok_trans; [by apply offsets_ok|]. clear A O. simpl. intros A O.
  pose proof (duration_ok tfhd1 (optimize_offsets trun1) A O) as H.
  destruct (optimize_duration tfhd1 (optimize_offsets trun1)) as [tfhd2 trun2].
  eapply step_ok_trans; [exact H|]. simpl. apply size_ok.
Qed.

(** ** What the writer accepts *)

(** The fields that no step changes. *)
Definition frame (tfhd : Tfhd.t) (trun : Trun.t) (p : Tfhd.t * Trun.t) : Prop :=
  Tfhd.header p.1 = Tfhd.header tfhd /\ Tfhd.track_id p.1 = Tfhd.track_id tfhd /\
  Tfhd.base_data_offset p.1 = Tfhd.base_data_offset tfhd /\
  Tfhd.sample_description_index p.1 = Tfhd.sample_description_index tfhd /\
  header p.2 = header trun /\ data_offset p.2 = data_offset trun /\
  length (samples p.2) = length (samples trun).

Lemma frame_trans tfhd trun p q : frame tfhd trun p -> frame p.1 p.2 q -> frame tfhd trun q.
Proof. unfold frame. intros. destruct_and!. split_and!; congruence. Qed.

Ltac frame_tac :=
  repeat case_match; split_and!; cbn [fst snd samples]; rewrite ?length_fmap; try done; try congruence.

Lemma flags_frame tfhd trun : frame tfhd trun (optimize_flags tfhd trun).
Proof. unfold optimize_flags. frame_tac. Qed.

Lemma offsets_frame tfhd trun : frame tfhd trun (tfhd, optimize_offsets trun).
Proof. unfold optimize_offsets. frame_tac. Qed.

Lemma duration_frame tfhd trun : frame tfhd trun (optimize_duration tfhd trun).
Proof. unfold optimize_duration. frame_tac. Qed.

Lemma size_frame tfhd trun : frame tfhd trun (optimize_size tfhd trun).
Proof. unfold optimize_size. frame_tac. Qed.

(** A property of a run that the four steps keep is kept by their composition. *)
Lemma rewrite_run_ind (R : Tfhd.t -> Trun.t -> Prop) tfhd trun :
  (forall h r, R h r -> R (optimize_flags h r).1 (optimize_flags h r).2) ->
  (forall h r, R h r -> R h (optimize_offsets r)) ->
  (forall h r, R h r -> R (optimize_duration h r).1 (optimize_duration h r).2) ->
  (forall h r, R h r -> R (optimize_size h r).1 (optimize_size h r).2) ->
  R tfhd trun -> R (rewrite_run tfhd trun).1 (rewrite_run tfhd trun).2.
Proof.
  intros Hf Ho Hd Hs H. unfold rewrite_run. apply Hf in H.
  destruct (optimize_flags tfhd trun) as [h1 r1]. simpl in H. apply Ho, Hd in H.
  destruct (optimize_duration h1 (optimize_offsets r1)) as [h2 r2]. by apply Hs in H.
Qed.

Lemma rewrite_run_frame tfhd trun : frame tfhd trun (rewrite_run tfhd trun).
Proof.
  pose (R := fun h r => frame tfhd trun (h, r)).
  cut (R (rewrite_run tfhd trun).1 (rewrite_run tfhd trun).2); [by destruct (rewrite_run tfhd trun)|].
  apply rewrite_run_ind; [..|done]; subst R; intros h r H; simpl; (eapply frame_trans in H; [exact H|]); simpl.
  - rewrite <-surjective_pairing. apply flags_frame.
  - apply offsets_frame.
  - rewrite <-surjective_pairing. apply duration_frame.
  - rewrite <-surjective_pairing. apply size_frame.
Qed.

(** The values a run carries are in range; a signed run has an offset that is
    not zero. *)
Definition offset_ok (version : Z) (o : option Z) : Prop :=
  (version = 1 -> default 0 o <= i32_max) /\ (version = 0 -> default 0 o <= u32_max).

Definition version_of (trun : Trun.t) : Z := FullBoxHeader.version (header trun).

Definition shifted (trun : Trun.t) : Prop :=
  version_of trun = 1 -> exists s z, s ∈ samples trun /\ composition_time_offset s = Some z /\ z <> 0.

Definition sound (tfhd : Tfhd.t) (trun : Trun.t) : Prop :=
  version_of trun <= 1 /\ shifted trun /\
  (forall s, s ∈ samples trun -> validate_flags (flags s) = Ok tt /\
    offset_ok (version_of trun) (composition_time_offset s)) /\
  validate_flags (first_sample_flags trun) = Ok tt /\ validate_flags (Tfhd.default_sample_flags tfhd) = Ok tt.

Lemma sound_fmap tfhd trun tfhd' off fsf g :
  sound tfhd trun -> uniform flags g -> (forall s, composition_time_offset (g s) = composition_time_offset s) ->
  validate_flags fsf = Ok tt -> validate_flags (Tfhd.default_sample_flags tfhd') = Ok tt ->
  sound tfhd' (mk (header trun) off fsf (g <$> samples trun)).
Proof.
  intros (Hv & Hs & Ha & _ & _) Hf Hc H1 H2. split_and!; [done| |..|done|done].
  - intros E. destruct (Hs E) as (s & z & Hin & Hz & Hn). exists (g s), z. rewrite Hc.
    split_and!; try done. simpl. by apply list_elem_of_fmap_2.
  - simpl. intros ? (s & -> & Hin)%list_elem_of_fmap. destruct (Ha s Hin) as [Hx Hy]. rewrite Hc.
    split; [|done]. destruct Hf as [Hf|Hf]; by rewrite Hf.
Qed.

Lemma offset_ok_None v o : offset_ok v o -> offset_ok v None.
Proof. unfold offset_ok, i32_max, u32_max. simpl. lia. Qed.

Lemma rewrite_run_sound tfhd trun : sound tfhd trun -> sound (rewrite_run tfhd trun).1 (rewrite_run tfhd trun).2.
Proof.
  apply rewrite_run_ind; clear; intros h r H; pose proof H as (Hv & Hs & Ha & Hf & Hd).
  - unfold optimize_flags. destruct (samples r) as [|x [|y ys]] eqn:S; try done.
    case_match; [|done]. rewrite <-S. simpl. apply sound_fmap with h; try done.
    + uniform_tac.
    + case_bool_decide; [done|]. by apply Ha; set_solver.
    + by apply Ha; set_solver.
  - unfold optimize_offsets. case_match eqn:E; [|done]. all_eq E. split_and!; try done; simpl.
    + intros Hv1. destruct (Hs Hv1) as (s & z & Hin & Hz & Hn). apply E in Hin. congruence.
    + intros ? (s & -> & Hin)%list_elem_of_fmap. destruct (Ha s Hin) as [? Ho%offset_ok_None]. done.
  - unfold optimize_duration. destruct (samples r) eqn:S; try done. case_match; [|done]. rewrite <-S. simpl.
    apply sound_fmap with h; try done. uniform_tac.
  - unfold optimize_size. destruct (samples r) eqn:S; try done. case_match; [|done]. rewrite <-S. simpl.
    apply sound_fmap with h; try done. uniform_tac.
Qed.
(** ** The checks of the writer as one conjunction *)

Lemma guard_ok {A} (c : bool) (k : res ErrorKind A) a :
  (if c then Err InvalidData else k) = Ok a <-> c = false /\ k = Ok a.
Proof. destruct c; naive_solver. Qed.

Lemma forall_cons {A} (P : A -> Prop) x xs :
  (forall s, s ∈ x :: xs -> P s) <-> P x /\ (forall s, s ∈ xs -> P s).
Proof. setoid_rewrite elem_of_cons. split; [auto|]. intros [Hx Hs] s [->|H]; auto. Qed.

Lemma forall_nil {A} (P : A -> Prop) : (forall s, s ∈ [] -> P s) <-> True.
Proof. split; [done|]. intros _ s Hs. by apply elem_of_nil in Hs. Qed.

Lemma existsb_false {A} (f : A -> bool) xs : existsb f xs = false <-> (forall x, x ∈ xs -> f x = false).
Proof.
  induction xs as [|x xs IH]; simpl; [by rewrite forall_nil|]. by rewrite forall_cons, orb_false_iff, IH.
Qed.

Lemma flag_matches {A} (fl : bool) (f : TrunSample -> option A) xs :
  fl && existsb (fun s => negb (is_some (f s))) xs = false /\
  negb fl && existsb (fun s => is_some (f s)) xs = false <-> (forall s, s ∈ xs -> is_some (f s) = fl).
Proof.
  destruct fl; simpl; rewrite existsb_false; [setoid_rewrite negb_false_iff|]; split; try done; by intros [??].
Qed.

Lemma flag_matches_opt {A} (fl : bool) (o : option A) :
  fl && negb (is_some o) = false /\ negb fl && is_some o = false <-> is_some o = fl.
Proof. destruct fl, o; simpl; split; try done; by intros [??]. Qed.

Lemma validate_samples_ok xs :
  validate_samples xs = Ok tt <-> (forall s, s ∈ xs -> validate_flags (flags s) = Ok tt).
Proof.
  induction xs as [|x xs IH]; simpl; [by rewrite forall_nil|]. rewrite forall_cons, <-IH.
  destruct (validate_flags (flags x)) as [[]| | |]; split; try done; by intros [??].
Qed.

Definition has (trun : Trun.t) (flag : Z) : bool := has_flag (FullBoxHeader.flags (header trun)) flag.

Definition shape (trun : Trun.t) : Prop :=
  version_of trun <= 1 /\ (version_of trun = 1 -> has trun FLAG_SAMPLE_COMPOSITION_TIME_OFFSET = true) /\
  is_some (data_offset trun) = has trun FLAG_DATA_OFFSET /\
  is_some (first_sample_flags trun) = has trun FLAG_FIRST_SAMPLE_FLAGS /\
  (forall s, s ∈ samples trun -> is_some (duration s) = has trun FLAG_SAMPLE_DURATION) /\
  (forall s, s ∈ samples trun -> is_some (size s) = has trun FLAG_SAMPLE_SIZE) /\
  (forall s, s ∈ samples trun -> is_some (flags s) = has trun FLAG_SAMPLE_FLAGS) /\
  (forall s, s ∈ samples trun ->
    is_some (composition_time_offset s) = has trun FLAG_SAMPLE_COMPOSITION_TIME_OFFSET) /\
  (forall s, s ∈ samples trun -> offset_ok (version_of trun) (composition_time_offset s)) /\
  validate_flags (first_sample_flags trun) = Ok tt /\
  (forall s, s ∈ samples trun -> validate_flags (flags s) = Ok tt).

Lemma offsets_match fl v xs :
  fl && existsb (fun s => negb (is_some (composition_time_offset s))) xs = false /\
  negb fl && existsb (fun s => is_some (composition_time_offset s)) xs = false ->
  fl && (v =? 1) && existsb (fun s => i32_max <? default 0 (composition_time_offset s)) xs = false /\
  fl && (v =? 0) && existsb (fun s => u32_max <? default 0 (composition_time_offset s)) xs = false <->
  (forall s, s ∈ xs -> offset_ok v (composition_time_offset s)).
Proof.
  rewrite flag_matches. intros H. unfold offset_ok. destruct fl; simpl.
  - destruct (Z.eqb_spec v 1), (Z.eqb_spec v 0); try lia; simpl; rewrite ?existsb_false;
      split; try (intros [H1 H2]); try (intros H1); split_and?; intros; try done; try split; intros; try lia;
      try (apply Z.ltb_ge; by auto); apply Z.ltb_ge; naive_solver.
  - split; [|done]. intros _ s Hs. specialize (H s Hs). destruct (composition_time_offset s); [done|].
    unfold i32_max, u32_max; simpl. lia.
Qed.

Lemma version_match fl v : negb fl && (v =? 1) = false <-> (v = 1 -> fl = true).
Proof. destruct fl, (Z.eqb_spec v 1); simpl; naive_solver. Qed.

Lemma first_match (a b : res ErrorKind unit) :
  match a with Ok _ => b | Err e => Err e | Panic => Panic | Fuel => Fuel end = Ok tt <-> a = Ok tt /\ b = Ok tt.
Proof. destruct a as [[]| | |]; naive_solver. Qed.

Lemma validate_shape trun : validate trun = Ok tt <-> shape trun.
Proof.
  unfold validate, shape. fold (version_of trun). rewrite !guard_ok.
  rewrite <-!flag_matches, <-!flag_matches_opt, <-validate_samples_ok. unfold has.
  rewrite first_match, version_match, Z.ltb_ge. split; intros; destruct_and!; split_and!; try done.
  - eapply offsets_match; split; eassumption.
  - match goal with H : context [offset_ok] |- _ => eapply offsets_match in H; [apply H|split; eassumption] end.
  - match goal with H : context [offset_ok] |- _ => eapply offsets_match in H; [apply H|split; eassumption] end.
Qed.
Lemma shape_alike trun : shape trun -> alike trun /\ (samples trun <> [] ->
  first_has duration trun = has trun FLAG_SAMPLE_DURATION /\ first_has size trun = has trun FLAG_SAMPLE_SIZE /\
  first_has flags trun = has trun FLAG_SAMPLE_FLAGS /\
  first_has composition_time_offset trun = has trun FLAG_SAMPLE_COMPOSITION_TIME_OFFSET).
Proof.
  intros (_ & _ & _ & _ & Hd & Hs & Hf & Hc & _). unfold alike, first_has.
  destruct (samples trun) as [|x xs]; [split; [intros s Hs'; by apply elem_of_nil in Hs'|done]|].
  rewrite (Hd x), (Hs x), (Hf x), (Hc x) by set_solver. split; [|done].
  intros s Hin. by rewrite (Hd s), (Hs s), (Hf s), (Hc s).
Qed.

Lemma shape_sound tfhd trun :
  shape trun -> shifted trun -> validate_flags (Tfhd.default_sample_flags tfhd) = Ok tt -> sound tfhd trun.
Proof. unfold shape. intros. destruct_and!. split_and!; auto. Qed.

(** The flags [optimize] writes are those of the fields that are there. *)
Lemma trun_flags_has trun :
  let r := reflag_trun trun in
  has r FLAG_DATA_OFFSET = is_some (data_offset r) /\
  has r FLAG_FIRST_SAMPLE_FLAGS = is_some (first_sample_flags r) /\
  has r FLAG_SAMPLE_DURATION = first_has duration r /\ has r FLAG_SAMPLE_SIZE = first_has size r /\
  has r FLAG_SAMPLE_FLAGS = first_has flags r /\
  has r FLAG_SAMPLE_COMPOSITION_TIME_OFFSET = first_has composition_time_offset r.
Proof.
  unfold has, reflag_trun, trun_flags, set_flags. simpl.
  change (@first_has ?A ?f (mk ?a ?b ?c (samples trun))) with (@first_has A f trun).
  destruct (is_some (data_offset trun)), (is_some (first_sample_flags trun)), (first_has duration trun),
    (first_has size trun), (first_has flags trun), (first_has composition_time_offset trun); by split_and!.
Qed.

Lemma sound_shape tfhd trun : alike trun -> sound tfhd trun -> shape (reflag_trun trun).
Proof.
  intros A (Hv & Hs & Ha & Hf & _). destruct (trun_flags_has trun) as (E1 & E2 & E3 & E4 & E5 & E6).
  unfold shape. rewrite E1, E2, E3, E4, E5, E6.
  change (@first_has ?A ?f (reflag_trun trun)) with (@first_has A f trun). simpl.
  change (version_of (reflag_trun trun)) with (version_of trun).
  split_and!; try done; try (intros s Hin; by apply A); try (intros s Hin; by apply Ha).
  intros Hv1. destruct (Hs Hv1) as (s & z & Hin & Hz & _). destruct (A s Hin) as (_ & _ & _ & <-). by rewrite Hz.
Qed.

Lemma land_single z n : 0 <= n -> Z.land z (2 ^ n) = 0 \/ Z.land z (2 ^ n) = 2 ^ n.
Proof.
  intros Hn. destruct (Z.testbit z n) eqn:E; [right|left]; apply Z.bits_inj'; intros i Hi;
    rewrite Z.land_spec, Z.pow2_bits_eqb, ?Z.bits_0 by lia; destruct (Z.eqb_spec n i); subst;
    rewrite ?E, ?andb_false_r; done.
Qed.

(** The same for the header of the fragment; the index of the sample
    description must be absent, since its flag is not written back. *)
Lemma tfhd_reflag_validate tfhd :
  FullBoxHeader.version (Tfhd.header tfhd) = 0 -> Tfhd.sample_description_index tfhd = None ->
  validate_flags (Tfhd.default_sample_flags tfhd) = Ok tt -> Tfhd.validate (reflag_tfhd tfhd) = Ok tt.
Proof.
  intros Hv Hi Hf. unfold Tfhd.validate, reflag_tfhd, tfhd_flags, set_flags. simpl. rewrite Hv, Hi.
  change Tfhd.DEFAULT_BASE_IS_MOOF_FLAG with (2 ^ 17).
  destruct (land_single (FullBoxHeader.flags (Tfhd.header tfhd)) 17) as [-> | ->]; [done|..];
    destruct (Tfhd.base_data_offset tfhd), (Tfhd.default_sample_duration tfhd), (Tfhd.default_sample_flags tfhd),
    (Tfhd.default_sample_size tfhd); exact Hf || done.
Qed.

Lemma tfhd_validate_facts tfhd : Tfhd.validate tfhd = Ok tt ->
  FullBoxHeader.version (Tfhd.header tfhd) = 0 /\ validate_flags (Tfhd.default_sample_flags tfhd) = Ok tt.
Proof.
  unfold Tfhd.validate. rewrite !guard_ok. intros (Hv & H). split; [|by apply H]. lia.
Qed.

(** ** Sizes *)

Lemma sum_of_const {A} c (xs : list A) : sum_of (fun _ => c) xs = blen xs * c.
Proof. unfold blen. induction xs as [|x xs IH]; simpl; [done|]. rewrite IH. lia. Qed.

Lemma trun_primitive_size trun :
  is_some (first_sample_flags trun) = has trun FLAG_FIRST_SAMPLE_FLAGS ->
  first_has duration trun = has trun FLAG_SAMPLE_DURATION /\ first_has size trun = has trun FLAG_SAMPLE_SIZE /\
  first_has flags trun = has trun FLAG_SAMPLE_FLAGS /\
  first_has composition_time_offset trun = has trun FLAG_SAMPLE_COMPOSITION_TIME_OFFSET ->
  primitive_size trun = 8 + width (has trun FLAG_DATA_OFFSET) + trun_weight trun.
Proof.
  intros H1 (H2 & H3 & H4 & H5). unfold primitive_size, trun_weight, sample_size, FullBoxHeader.size.
  rewrite sum_of_const, H1, H2, H3, H4, H5. unfold width, has. lia.
Qed.

Definition fixed_weight (tfhd : Tfhd.t) : Z :=
  opt_size (fun _ => 8) (Tfhd.base_data_offset tfhd) + opt_size (fun _ => 4) (Tfhd.sample_description_index tfhd).

Lemma tfhd_primitive_size tfhd :
  Tfhd.primitive_size tfhd = 8 + fixed_weight tfhd + tfhd_weight tfhd.
Proof.
  unfold Tfhd.primitive_size, fixed_weight, tfhd_weight, FullBoxHeader.size, width, opt_size, is_some.
  repeat case_match; lia.
Qed.

Lemma tfhd_box_size tfhd : Mp4Box.size tfhd = 8 + Tfhd.primitive_size tfhd.
Proof.
  unfold Mp4Box.size, box_size. change (Mp4Box.primitive_size tfhd) with (Tfhd.primitive_size tfhd).
  rewrite tfhd_primitive_size. unfold fixed_weight, tfhd_weight, width, opt_size, u32_max.
  repeat case_match; lia.
Qed.

Lemma box_size_mono p q : p <= q -> box_size p + (q - p) <= box_size q.
Proof. intros. unfold box_size, u32_max. repeat case_match; lia. Qed.
(** ** The whole of [optimize] *)

(** The boxes [optimize] leaves, when it has samples to work on. *)
Lemma optimize_cons {D} (b : Traf.t D) trun : Traf.trun b = Some trun -> samples trun <> [] ->
  let p := rewrite_run (Traf.tfhd b) trun in
  optimize b = Traf.mk (Traf.header b) (reflag_tfhd p.1) (Some (reflag_trun p.2)) (Traf.sbgp b) (Traf.subs b)
    (Traf.tfdt b) (Traf.unknown b).
Proof.
  intros Ht Hs. unfold optimize. rewrite Ht. destruct (samples trun) eqn:S; [done|]. by destruct (rewrite_run _ _).
Qed.

Lemma optimize_nil {D} (b : Traf.t D) trun : Traf.trun b = Some trun -> samples trun = [] -> optimize b = b.
Proof. intros Ht Hs. unfold optimize. by rewrite Ht, Hs. Qed.

Lemma optimize_meaning {D} (b : Traf.t D) trun : Traf.trun b = Some trun -> shape trun -> once trun ->
  effective (optimize b) = effective b /\ traf_duration (optimize b) = traf_duration b /\
  contains_keyframe (optimize b) = contains_keyframe b.
Proof.
  intros Ht Hs O. destruct (decide (samples trun = [])) as [S|S]; [by rewrite (optimize_nil b trun)|].
  rewrite (optimize_cons b trun) by done. apply shape_alike in Hs as [A _].
  destruct (rewrite_run_ok (Traf.tfhd b) trun A O) as (E & K & _).
  unfold effective, traf_duration, contains_keyframe. simpl. rewrite Ht.
  change (samples (rewrite_run ?h ?r).2) with (samples (reflag_trun (rewrite_run h r).2)).
  rewrite !sum_durations_effective.
  change (effective_run (reflag_tfhd ?h) (reflag_trun ?r)) with (effective_run h r).
  rewrite E. split_and!; [done|done|exact K].
Qed.

Lemma optimize_smaller {D} (dsize : D -> Z) (b : Traf.t D) trun :
  Traf.trun b = Some trun -> shape trun -> once trun -> Traf.size dsize (optimize b) <= Traf.size dsize b.
Proof.
  intros Ht Hs O. destruct (decide (samples trun = [])) as [S|S]; [by rewrite (optimize_nil b trun)|].
  rewrite (optimize_cons b trun) by done. pose proof (shape_alike _ Hs) as [A Hh]. specialize (Hh S).
  destruct (rewrite_run_ok (Traf.tfhd b) trun A O) as (_ & _ & A' & _ & W1 & W2).
  destruct (rewrite_run_frame (Traf.tfhd b) trun) as (_ & _ & F1 & F2 & _ & F3 & _).
  set (p := rewrite_run (Traf.tfhd b) trun) in *.
  assert (primitive_size (reflag_trun p.2) = 8 + width (is_some (data_offset trun)) + trun_weight p.2) as P1.
  { destruct (trun_flags_has p.2) as (T1 & T2 & T3 & T4 & T5 & T6).
    rewrite trun_primitive_size by (by rewrite ?T2, ?T3, ?T4, ?T5, ?T6). rewrite T1. simpl. by rewrite F3. }
  assert (primitive_size trun = 8 + width (is_some (data_offset trun)) + trun_weight trun) as P2.
  { destruct Hs as (_ & _ & H1 & H2 & _). by rewrite trun_primitive_size, H1. }
  assert (Tfhd.primitive_size (reflag_tfhd p.1) = 8 + fixed_weight (Traf.tfhd b) + tfhd_weight p.1) as P3.
  { rewrite tfhd_primitive_size. unfold fixed_weight. simpl. by rewrite F1, F2. }
  pose proof (tfhd_primitive_size (Traf.tfhd b)) as P4.
  pose proof (box_size_mono (primitive_size (reflag_trun p.2)) (primitive_size trun) ltac:(lia)) as M1.
  unfold Traf.size. enough (Traf.primitive_size dsize
    (Traf.mk (Traf.header b) (reflag_tfhd p.1) (Some (reflag_trun p.2)) (Traf.sbgp b) (Traf.subs b)
    (Traf.tfdt b) (Traf.unknown b)) <= Traf.primitive_size dsize b) as G
    by (pose proof (box_size_mono _ _ G); lia).
  unfold Traf.primitive_size. simpl. rewrite Ht. simpl.
  change (Mp4Box.size (reflag_trun p.2)) with (box_size (primitive_size (reflag_trun p.2))).
  change (Mp4Box.size trun) with (box_size (primitive_size trun)). rewrite !tfhd_box_size. lia.
Qed.

Lemma optimize_accepted {D} (b : Traf.t D) trun :
  Traf.trun b = Some trun -> shape trun -> once trun -> Tfhd.validate (Traf.tfhd b) = Ok tt ->
  Tfhd.sample_description_index (Traf.tfhd b) = None -> shifted trun ->
  Tfhd.validate (Traf.tfhd (optimize b)) = Ok tt /\
  exists trun', Traf.trun (optimize b) = Some trun' /\ Trun.validate trun' = Ok tt.
Proof.
  intros Ht Hs O Hv Hi Hz. destruct (decide (samples trun = [])) as [S|S].
  { rewrite (optimize_nil b trun) by done. split; [done|]. exists trun. by rewrite validate_shape. }
  rewrite (optimize_cons b trun) by done. simpl. pose proof (shape_alike _ Hs) as [A _].
  destruct (tfhd_validate_facts _ Hv) as [Hv0 Hvf].
  destruct (rewrite_run_ok (Traf.tfhd b) trun A O) as (_ & _ & A' & _).
  destruct (rewrite_run_frame (Traf.tfhd b) trun) as (F0 & _ & _ & F1 & _).
  pose proof (rewrite_run_sound _ _ (shape_sound _ _ Hs Hz Hvf)) as Hso. split.
  - apply tfhd_reflag_validate; [by rewrite F0|by rewrite F1|apply Hso].
  - eexists. split; [done|]. apply validate_shape. by eapply sound_shape.
Qed.
End TrafOps.
