(* ===== verification/Mp4Codec.v ===== *)
(** * [scuffle-mp4]: codec strings (crates/mp4/src/codec.rs)

    The codec parameter strings of a track: the formatting of
    [VideoCodec] and [AudioCodec], their parsers, the [codec] methods of the
    sample entries, and the methods of [Stsd] and [DynBox] that use them.
    Strings are the bytes of their UTF-8 encoding; the error of a parser is
    its message up to the offending value. *)

From Stdlib Require Import Strings.String.
From stdpp Require Import base list numbers.
From Stdlib Require Import Strings.Byte.
From S2P Require Import Prelude Io BytesCursor Aac Amf0 H264 H265 Av1 Av1Obu Mp4Box Mp4Movie Mp4Tables.
From S2P Require Import Mp4Fragment Mp4Esds Mp4Config Mp4Containers Mp4Dyn.

(** ** Numbers in strings *)

Module Radix.
(** The digit of a value below 16, in lower case. *)
Definition digit (d : Z) : byte := if d <? 10 then z2b (48 + d) else z2b (87 + d).

(** [char::to_digit] *)
Definition to_digit (base : Z) (c : byte) : option Z :=
  let c := b2z c in
  let d :=
    if (48 <=? c) && (c <=? 57) then Some (c - 48)
    else if (97 <=? c) && (c <=? 122) then Some (c - 87)
    else if (65 <=? c) && (c <=? 90) then Some (c - 55)
    else None in
  match d with Some d => if d <? base then Some d else None | None => None end.

(** The digits of [z], most significant first: one turn for each. *)
Fixpoint digits (fuel : nat) (base z : Z) (acc : list byte) : list byte :=
  match fuel with
  | O => acc
  | S fuel =>
      let acc := digit (z mod base) :: acc in
      if z / base =? 0 then acc else digits fuel base (z / base) acc
  end.

(** [{}] and [{:x}]; a [u64] has at most 64 digits in any base. *)
Definition print (base z : Z) : list byte := digits 64 base z [].

(** [{:02}] and [{:02x}] *)
Definition print2 (base z : Z) : list byte :=
  let s := print base z in if (length s <? 2)%nat then digit 0 :: s else s.

Fixpoint parse_digits (base max acc : Z) (s : list byte) : option Z :=
  match s with
  | [] => Some acc
  | c :: s =>
      match to_digit base c with
      | Some d => if max <? acc * base + d then None else parse_digits base max (acc * base + d) s
      | None => None
      end
  end.

(** [from_str_radix] of the unsigned type of [w] bits: one leading plus sign is
    allowed before the digits. *)
Definition parse (w base : Z) (s : list byte) : option Z :=
  match s with
  | [] => None
  | c :: rest =>
      if b2z c =? 43
      then match rest with [] => None | _ :: _ => parse_digits base (2 ^ w - 1) 0 rest end
      else parse_digits base (2 ^ w - 1) 0 s
  end.

Example print_samples :
  print 10 0 = str "0" /\ print 10 65535 = str "65535" /\ print 16 0x1f0a = str "1f0a" /\
  print2 16 7 = str "07" /\ print2 10 123 = str "123".
Proof. vm_compute. done. Qed.

Example parse_samples :
  parse 8 16 (str "fF") = Some 255 /\ parse 8 16 (str "100") = None /\ parse 8 10 (str "+7") = Some 7 /\
  parse 8 10 (str "+") = None /\ parse 8 10 (str "-1") = None /\ parse 8 10 [] = None.
Proof. vm_compute. done. Qed.
End Radix.

(** [s.split('.').collect()]: never empty. *)
Fixpoint split_dot (s : list byte) : list (list byte) :=
  match s with
  | [] => [[]]
  | c :: s =>
      if b2z c =? 46 then [] :: split_dot s
      else match split_dot s with
           | part :: parts => (c :: part) :: parts
           | [] => [[c]]
           end
  end.

(** [s.is_char_boundary(i)] *)
Definition is_char_boundary (s : list byte) (i : nat) : bool :=
  match i with
  | O => true
  | _ => if (i =? length s)%nat then true
         else match s !! i with Some b => negb ((128 <=? b2z b) && (b2z b <? 192)) | None => false end
  end.

(** [&s[i..j]]; [None] is the panic. *)
Definition str_slice (s : list byte) (i j : nat) : option (list byte) :=
  if (i <=? j)%nat && is_char_boundary s i && is_char_boundary s j
  then Some (take (j - i) (drop i s)) else None.

(** ** codec.rs *)

Definition Message : Type := list byte.

Section parsing.
Context {A : Type}.

(** [..map_err(|e| format!(..))?] *)
Definition or_message (o : option Z) (message : string) (k : Z -> res Message A) : res Message A :=
  match o with Some z => k z | None => Err (str message) end.

(** [splits[i]], which panics out of bounds. *)
Definition part (splits : list (list byte)) (i : nat) (k : list byte -> res Message A) : res Message A :=
  match splits !! i with Some s => k s | None => Panic end.

(** [match s { a => .., b => .., _ => return Err(..) }] with two values. *)
Definition either (s : list byte) (yes no : string) (message : string) (k : bool -> res Message A) : res Message A :=
  if bool_decide (s = str yes) then k true
  else if bool_decide (s = str no) then k false
  else Err (str message).

Definition slice_str (s : list byte) (i j : nat) (k : list byte -> res Message A) : res Message A :=
  match str_slice s i j with Some s => k s | None => Panic end.
End parsing.

Module VideoCodec.
Inductive t :=
| Avc (profile constraint_set level : Z)
| Hevc (general_profile_space profile_compatibility profile level : Z) (tier : bool) (constraint_indicator : Z)
| Av1 (profile level : Z) (tier : bool) (depth : Z) (monochrome sub_sampling_x sub_sampling_y : bool)
    (color_primaries transfer_characteristics matrix_coefficients : Z) (full_range_flag : bool).

Definition bit (b : bool) : list byte := if b then str "1" else str "0".

(** [impl Display] *)
Definition fmt (c : t) : list byte :=
  match c with
  | Avc profile constraint_set level =>
      str "avc1." ++ Radix.print2 16 profile ++ Radix.print2 16 constraint_set ++ Radix.print2 16 level
  | Hevc general_profile_space profile_compatibility profile level tier constraint_indicator =>
      str "hev1." ++
      (if general_profile_space =? 1 then str "A"
       else if general_profile_space =? 2 then str "B"
       else if general_profile_space =? 3 then str "C" else []) ++ Radix.print 16 profile ++
      str "." ++ Radix.print 16 profile_compatibility ++
      str "." ++ (if tier then str "H" else str "L") ++ Radix.print 16 level ++
      str "." ++ Radix.print 16 constraint_indicator
  | Av1 profile level tier depth monochrome sub_sampling_x sub_sampling_y color_primaries
      transfer_characteristics matrix_coefficients full_range_flag =>
      str "av01." ++ Radix.print 10 profile ++
      str "." ++ Radix.print 10 level ++ (if tier then str "H" else str "M") ++
      str "." ++ Radix.print2 10 depth ++
      str "." ++ bit monochrome ++
      str "." ++ bit sub_sampling_x ++ bit sub_sampling_y ++ bit monochrome ++
      str "." ++ Radix.print2 10 color_primaries ++
      str "." ++ Radix.print2 10 transfer_characteristics ++
      str "." ++ Radix.print2 10 matrix_coefficients ++
      str "." ++ bit full_range_flag
  end.

Definition parse_avc (splits : list (list byte)) : res Message t :=
  if (length splits <? 2)%nat then Err (str "missing profile")
  else
    part splits 1 (fun s =>
    slice_str s 0 2 (fun p => or_message (Radix.parse 8 16 p) "invalid profile" (fun profile =>
    slice_str s 2 4 (fun c => or_message (Radix.parse 8 16 c) "invalid constraint set" (fun constraint_set =>
    slice_str s 4 6 (fun l => or_message (Radix.parse 8 16 l) "invalid level" (fun level =>
    Ok (Avc profile constraint_set level)))))))).

Definition parse_hevc (splits : list (list byte)) : res Message t :=
  if (length splits <? 6)%nat then Err (str "missing profile")
  else
    part splits 1 (fun s1 =>
    or_message
      (if bool_decide (s1 = str "A") then Some 1 else if bool_decide (s1 = str "B") then Some 2
       else if bool_decide (s1 = str "C") then Some 3 else None) "invalid general profile space"
      (fun general_profile_space =>
    part splits 2 (fun s2 => or_message (Radix.parse 8 16 s2) "invalid profile" (fun profile =>
    part splits 3 (fun s3 => or_message (Radix.parse 32 16 s3) "invalid profile compatibility" (fun profile_compatibility =>
    part splits 4 (fun s4 => either s4 "H" "L" "invalid tier" (fun tier =>
    part splits 5 (fun s5 => or_message (Radix.parse 8 16 s5) "invalid level" (fun level =>
    part splits 6 (fun s6 => or_message (Radix.parse 64 16 s6) "invalid constraint indicator" (fun constraint_indicator =>
    Ok (Hevc general_profile_space profile_compatibility profile level tier constraint_indicator))))))))))))).

Definition parse_av1 (splits : list (list byte)) : res Message t :=
  if (length splits <? 12)%nat then Err (str "missing profile")
  else
    part splits 1 (fun s1 => or_message (Radix.parse 8 16 s1) "invalid profile" (fun profile =>
    part splits 2 (fun s2 => or_message (Radix.parse 8 16 s2) "invalid level" (fun level =>
    part splits 3 (fun s3 => either s3 "H" "M" "invalid tier" (fun tier =>
    part splits 4 (fun s4 => or_message (Radix.parse 8 10 s4) "invalid depth" (fun depth =>
    part splits 5 (fun s5 => either s5 "1" "0" "invalid monochrome" (fun monochrome =>
    part splits 6 (fun s6 => either s6 "1" "0" "invalid sub_sampling_x" (fun sub_sampling_x =>
    part splits 7 (fun s7 => either s7 "1" "0" "invalid sub_sampling_y" (fun sub_sampling_y =>
    part splits 8 (fun s8 => or_message (Radix.parse 8 10 s8) "invalid color_primaries" (fun color_primaries =>
    part splits 9 (fun s9 => or_message (Radix.parse 8 10 s9) "invalid transfer_characteristics"
      (fun transfer_characteristics =>
    part splits 10 (fun s10 => or_message (Radix.parse 8 10 s10) "invalid matrix_coefficients"
      (fun matrix_coefficients =>
    part splits 11 (fun s11 => or_message (Radix.parse 8 10 s11) "invalid full_range_flag" (fun full_range =>
    Ok (Av1 profile level tier depth monochrome sub_sampling_x sub_sampling_y color_primaries
      transfer_characteristics matrix_coefficients (full_range =? 1)))))))))))))))))))))))).

(** [impl FromStr] *)
Definition from_str (s : list byte) : res Message t :=
  let splits := split_dot s in
  match splits with
  | [] => Err (str "empty string")
  | kind :: _ =>
      if bool_decide (kind = str "avc1") then parse_avc splits
      else if bool_decide (kind = str "hev1") then parse_hevc splits
      else if bool_decide (kind = str "av01") then parse_av1 splits
      else Err (str "unknown type")
  end.
End VideoCodec.

Module AudioCodec.
Inductive t :=
| Aac (object_type : Aac.AudioObjectType)
| Opus.

(** [impl Display] *)
Definition fmt (c : t) : list byte :=
  match c with
  | Aac object_type => str "mp4a.40." ++ Radix.print 10 (Aac.as_u16 object_type)
  | Opus => str "opus"
  end.

(** [impl FromStr] *)
Definition from_str (s : list byte) : res Message t :=
  let splits := split_dot s in
  match splits with
  | [] => Err (str "empty string")
  | kind :: _ =>
      if bool_decide (kind = str "mp4a")
      then if (length splits <? 3)%nat then Err (str "missing object type")
           else part splits 2 (fun s2 => or_message (Radix.parse 16 10 s2) "invalid object type" (fun object_type =>
                Ok (Aac (Aac.from_u16 object_type))))
      else if bool_decide (kind = str "opus") then Ok Opus
      else Err (str "unknown type")
  end.
End AudioCodec.

(** ** The [codec] methods *)

#[global] Instance obu_type_eq_dec : EqDecision Av1Obu.ObuType.
Proof. solve_decision. Defined.

Section codec.
Context `{BO : ByteOrder}.

Definition Avc1_codec {D} (b : Avc1.t D) : res ErrorKind VideoCodec.t :=
  let c := AvcC.avc_decoder_configuration_record (Avc1.avcc b) in
  Ok (VideoCodec.Avc (AvcConfig.profile_indication c) (AvcConfig.profile_compatibility c)
        (AvcConfig.level_indication c)).

Definition Hev1_codec {D} (b : Hev1.t D) : res ErrorKind VideoCodec.t :=
  let c := HvcC.hevc_config (Hev1.hvcc b) in
  Ok (VideoCodec.Hevc (HevcConfig.general_profile_space c) (HevcConfig.general_profile_compatibility_flags c)
        (HevcConfig.general_profile_idc c) (HevcConfig.general_level_idc c) (HevcConfig.general_tier_flag c)
        (HevcConfig.general_constraint_indicator_flags c)).

Definition Av01_codec {D} (b : Av01.t D) : res ErrorKind VideoCodec.t :=
  over (Av1Config.config_obu (Av1C.av1_config (Av01.av1c b))) (
  let* header := Av1Obu.ObuHeader_parse in
  let* cursor := get in
  let* data := BytesCursorExt.extract_bytes (default (BytesCursorExt.remaining cursor) (Av1Obu.size header)) in
  if negb (bool_decide (Av1Obu.obu_type header = Av1Obu.SequenceHeader)) then throw InvalidData
  else
    let* seq_obu := lift (over data (Av1Obu.SequenceHeaderObu_parse header)) in
    match Av1Obu.operating_points seq_obu with
    | [] => panic
    | op_point :: _ =>
        let c := Av1Obu.color_config seq_obu in
        ret (VideoCodec.Av1 (Av1Obu.seq_profile seq_obu) (Av1Obu.seq_level_idx op_point) (Av1Obu.seq_tier op_point)
          (wrap 8 (Av1Obu.bit_depth c)) (Av1Obu.mono_chrome c) (Av1Obu.subsampling_x c) (Av1Obu.subsampling_y c)
          (Av1Obu.color_primaries c) (Av1Obu.transfer_characteristics c) (Av1Obu.matrix_coefficients c)
          (Av1Obu.full_color_range c))
    end).

Definition Mp4a_codec {D} (b : Mp4a.t D) : res ErrorKind AudioCodec.t :=
  match EsDescriptor.decoder_config (Esds.es_descriptor (Mp4a.esds b)) with
  | Some config =>
      match DecoderConfigDescriptor.decoder_specific_info config with
      | Some info =>
          match Aac.parse (DecoderSpecificInfoDescriptor.data info) with
          | Ok aac_config => Ok (AudioCodec.Aac (Aac.audio_object_type aac_config))
          | Err e => Err e
          | Panic => Panic
          | Fuel => Fuel
          end
      | None => Err InvalidData
      end
  | None => Err InvalidData
  end.

Definition Opus_codec {D} (b : Opus.t D) : res ErrorKind AudioCodec.t := Ok AudioCodec.Opus.

(** [codec().ok().map(|c| c.to_string())] *)
Definition ok_string {A} (fmt : A -> list byte) (r : res ErrorKind A) : res ErrorKind (option (list byte)) :=
  match r with Ok c => Ok (Some (fmt c)) | Err _ => Ok None | Panic => Panic | Fuel => Fuel end.

Definition entry_codec (e : DynBox.t) : res ErrorKind (option (list byte)) :=
  match e with
  | DynBox.Av01 b => ok_string VideoCodec.fmt (Av01_codec b)
  | DynBox.Avc1 b => ok_string VideoCodec.fmt (Avc1_codec b)
  | DynBox.Hev1 b => ok_string VideoCodec.fmt (Hev1_codec b)
  | DynBox.Opus b => ok_string AudioCodec.fmt (Opus_codec b)
  | DynBox.Mp4a b => ok_string AudioCodec.fmt (Mp4a_codec b)
  | _ => Ok None
  end.

(** The strings the iterator yields. *)
Fixpoint entry_codecs (es : list DynBox.t) : res ErrorKind (list (list byte)) :=
  match es with
  | [] => Ok []
  | e :: es =>
      match entry_codec e with
      | Ok o =>
          match entry_codecs es with
          | Ok ss => Ok (option_list o ++ ss)
          | r => r
          end
      | Err e => Err e
      | Panic => Panic
      | Fuel => Fuel
      end
  end.

Definition get_codecs (b : Stsd.t DynBox.t) : res ErrorKind (list (list byte)) := entry_codecs (Stsd.entries b).

Definition is_audio (b : Stsd.t DynBox.t) : bool :=
  existsb (fun e => match e with DynBox.Mp4a _ | DynBox.Opus _ => true | _ => false end) (Stsd.entries b).

Definition is_video (b : Stsd.t DynBox.t) : bool :=
  existsb (fun e => match e with DynBox.Av01 _ | DynBox.Avc1 _ | DynBox.Hev1 _ => true | _ => false end)
    (Stsd.entries b).
End codec.

(** [DynBox::name] *)
Definition dyn_name (b : DynBox.t) : list byte :=
  match b with
  | DynBox.Ftyp _ => Ftyp.NAME
  | DynBox.Moov _ => Moov.NAME
  | DynBox.Mvhd _ => Mvhd.NAME
  | DynBox.Mvex _ => Mvex.NAME
  | DynBox.Trak _ => Trak.NAME
  | DynBox.Trex _ => Trex.NAME
  | DynBox.Mehd _ => Mehd.NAME
  | DynBox.Mdia _ => Mdia.NAME
  | DynBox.Tkhd _ => Tkhd.NAME
  | DynBox.Edts _ => Edts.NAME
  | DynBox.Elst _ => Elst.NAME
  | DynBox.Mdhd _ => Mdhd.NAME
  | DynBox.Minf _ => Minf.NAME
  | DynBox.Hdlr _ => Hdlr.NAME
  | DynBox.Dinf _ => Dinf.NAME
  | DynBox.Stbl _ => Stbl.NAME
  | DynBox.Hmhd _ => Hmhd.NAME
  | DynBox.Nmhd _ => Nmhd.NAME
  | DynBox.Smhd _ => Smhd.NAME
  | DynBox.Vmhd _ => Vmhd.NAME
  | DynBox.Dref _ => Dref.NAME
  | DynBox.Stsd _ => Stsd.NAME
  | DynBox.Stsz _ => Stsz.NAME
  | DynBox.Stsc _ => Stsc.NAME
  | DynBox.Stco _ => Stco.NAME
  | DynBox.Co64 _ => Co64.NAME
  | DynBox.Stts _ => Stts.NAME
  | DynBox.Stss _ => Stss.NAME
  | DynBox.Stz2 _ => Stz2.NAME
  | DynBox.Stsh _ => Stsh.NAME
  | DynBox.Ctts _ => Ctts.NAME
  | DynBox.Stdp _ => Stdp.NAME
  | DynBox.Sbgp _ => Sbgp.NAME
  | DynBox.Subs _ => Subs.NAME
  | DynBox.Padb _ => Padb.NAME
  | DynBox.Sdtp _ => Sdtp.NAME
  | DynBox.Url _ => Url.NAME
  | DynBox.Avc1 _ => Avc1.NAME
  | DynBox.Clap _ => Clap.NAME
  | DynBox.Pasp _ => Pasp.NAME
  | DynBox.AvcC _ => AvcC.NAME
  | DynBox.Btrt _ => Btrt.NAME
  | DynBox.Mp4a _ => Mp4a.NAME
  | DynBox.Esds _ => Esds.NAME
  | DynBox.Moof _ => Moof.NAME
  | DynBox.Mfhd _ => Mfhd.NAME
  | DynBox.Traf _ => Traf.NAME
  | DynBox.Tfhd _ => Tfhd.NAME
  | DynBox.Tfdt _ => Tfdt.NAME
  | DynBox.Trun _ => Trun.NAME
  | DynBox.Mdat _ => Mdat.NAME
  | DynBox.Av01 _ => Av01.NAME
  | DynBox.Av1C _ => Av1C.NAME
  | DynBox.Colr _ => Colr.NAME
  | DynBox.Hev1 _ => Hev1.NAME
  | DynBox.HvcC _ => HvcC.NAME
  | DynBox.Opus _ => Opus.NAME
  | DynBox.Unknown header _ =>
      if Utf8.valid (BoxHeader.box_type header) then BoxHeader.box_type header else str "unknown"
  end.

(** ** Printed numbers are read back *)

Create HintDb codec.

Module RadixLaws.
Import Radix.

Lemma digit_b2z d : 0 <= d < 16 -> b2z (digit d) = if d <? 10 then 48 + d else 87 + d.
Proof. intros. unfold digit. destruct (Z.ltb_spec d 10); rewrite b2z_z2b_small; lia. Qed.

Lemma to_digit_digit base d : 0 <= d < base -> base <= 16 -> to_digit base (digit d) = Some d.
Proof.
  intros Hd Hb. unfold to_digit. rewrite digit_b2z by lia. destruct (Z.ltb_spec d 10).
  - destruct (Z.leb_spec 48 (48 + d)), (Z.leb_spec (48 + d) 57); try lia. simpl.
    replace (48 + d - 48) with d by lia. by destruct (Z.ltb_spec d base); [|lia].
  - destruct (Z.leb_spec 48 (87 + d)), (Z.leb_spec (87 + d) 57), (Z.leb_spec 97 (87 + d)),
      (Z.leb_spec (87 + d) 122); try lia. simpl.
    replace (87 + d - 87) with d by lia. by destruct (Z.ltb_spec d base); [|lia].
Qed.

(** Neither a plus sign nor a dot. *)
Definition plain (c : byte) : Prop := b2z c <> 43 /\ b2z c <> 46 /\ b2z c < 128.

Lemma digit_plain d : 0 <= d < 16 -> plain (digit d).
Proof. intros. unfold plain. rewrite digit_b2z by lia. destruct (d <? 10) eqn:E; lia. Qed.

Lemma digits_parse base max fuel z acc : 2 <= base <= 16 -> 0 <= z < base ^ Z.of_nat fuel ->
  exists ds, digits fuel base z acc = ds ++ acc /\ Forall plain ds /\ (fuel = O \/ ds <> []) /\
    forall a, 0 <= a -> a * base ^ blen ds + z <= max ->
      parse_digits base max a (ds ++ acc) = parse_digits base max (a * base ^ blen ds + z) acc.
Proof.
  intros Hb. revert z acc. induction fuel as [|fuel IH]; intros z acc Hz.
  { exists []. split_and!; [done|done|by left|]. intros a Ha Hm. simpl. f_equal.
    change (blen []) with 0. simpl in Hz. lia. }
  assert (0 <= z mod base < base) as Hd by (apply Z.mod_pos_bound; lia).
  assert (0 <= z / base) as Hq by (apply Z.div_pos; lia).
  pose proof (Z.div_mod z base ltac:(lia)) as Hdm. cbn [digits].
  destruct (Z.eqb_spec (z / base) 0) as [E|E].
  - exists [digit (z mod base)]. split_and!; try done; [constructor; [apply digit_plain; lia|done]|by right|].
    intros a Ha Hm. change (blen [digit (z mod base)]) with 1 in *. rewrite Z.pow_1_r in *. simpl.
    rewrite to_digit_digit by lia. replace (a * base + z mod base) with (a * base + z) by lia.
    by destruct (Z.ltb_spec max (a * base + z)); [lia|].
  - destruct (IH (z / base) (digit (z mod base) :: acc)) as (ds & E1 & E2 & E3 & E4).
    { split; [done|]. apply Z.div_lt_upper_bound; [lia|]. rewrite Nat2Z.inj_succ, Z.pow_succ_r in Hz by lia. lia. }
    exists (ds ++ [digit (z mod base)]). rewrite E1, <-app_assoc. split_and!; [done|..].
    + apply Forall_app. split; [done|]. constructor; [apply digit_plain; lia|done].
    + right. by destruct ds.
    + intros a Ha Hm. unfold blen in *. rewrite length_app, Nat2Z.inj_add in *. simpl Z.of_nat in *.
      rewrite Z.pow_add_r, Z.pow_1_r in * by lia. pose proof (Z.pow_pos_nonneg base (Z.of_nat (length ds))) as Hp.
      change ([digit (z mod base)] ++ acc) with (digit (z mod base) :: acc).
      rewrite E4 by nia. simpl. rewrite to_digit_digit by lia.
      replace ((a * base ^ Z.of_nat (length ds) + z / base) * base + z mod base)
        with (a * (base ^ Z.of_nat (length ds) * base) + z) by nia.
      by destruct (Z.ltb_spec max (a * (base ^ Z.of_nat (length ds) * base) + z)); [lia|].
Qed.

Lemma print_parse w base z : 2 <= base <= 16 -> 0 <= w <= 64 -> 0 <= z < 2 ^ w ->
  exists d ds, print base z = d :: ds /\ Forall plain (d :: ds) /\
    parse_digits base (2 ^ w - 1) 0 (d :: ds) = Some z.
Proof.
  intros Hb Hw Hz. destruct (digits_parse base (2 ^ w - 1) 64 z []) as (ds & E1 & E2 & E3 & E4); [done| |].
  { split; [lia|]. apply Z.lt_le_trans with (2 ^ w); [lia|]. apply Z.le_trans with (2 ^ 64).
    - apply Z.pow_le_mono_r; lia.
    - apply Z.pow_le_mono_l. lia. }
  specialize (E4 0). rewrite app_nil_r, Z.mul_0_l in *. destruct ds as [|d ds]; [by destruct E3|].
  exists d, ds. split_and!; [done|done|]. apply E4; lia.
Qed.

Lemma parse_plain w base s : s <> [] -> Forall plain s -> parse w base s = parse_digits base (2 ^ w - 1) 0 s.
Proof.
  destruct s as [|c s]; [done|]. intros _ [(Hc & _) _]%Forall_cons_iff. unfold parse.
  by destruct (Z.eqb_spec (b2z c) 43).
Qed.

Lemma parse_print w base z : 2 <= base <= 16 -> 0 <= w <= 64 -> 0 <= z < 2 ^ w ->
  parse w base (print base z) = Some z.
Proof.
  intros Hb Hw Hz. destruct (print_parse w base z) as (d & ds & -> & E2 & E3); try done. by rewrite parse_plain.
Qed.

Lemma print_plain base z : 2 <= base <= 16 -> 0 <= z < 2 ^ 64 -> Forall plain (print base z).
Proof. intros Hb Hz. destruct (print_parse 64 base z) as (d & ds & -> & E & _); done || lia. Qed.

Lemma print2_plain base z : 2 <= base <= 16 -> 0 <= z < 2 ^ 64 -> Forall plain (print2 base z).
Proof.
  intros Hb Hz. pose proof (print_plain base z Hb Hz). unfold print2. case_match; [|done].
  constructor; [|done]. by vm_compute.
Qed.

(** Two hexadecimal digits for a byte. *)
Lemma print2_hex z : 0 <= z < 256 -> exists c d,
  print2 16 z = [c; d] /\ plain c /\ plain d /\ parse 8 16 [c; d] = Some z.
Proof.
  intros Hz. pose proof (print2_plain 16 z ltac:(lia) ltac:(lia)) as Hp.
  assert (length (print2 16 z) = 2%nat /\ parse 8 16 (print2 16 z) = Some z) as [Hl He].
  { assert (Forall (fun z => length (print2 16 z) = 2%nat /\ parse 8 16 (print2 16 z) = Some z) (seqZ 0 256)) as H
      by (apply (bool_decide_unpack _); vm_compute; done).
    eapply (proj1 (list.Forall_forall _ _)) in H; [exact H|]. apply elem_of_seqZ. lia. }
  destruct (print2 16 z) as [|c [|d [|]]]; try done. rewrite !Forall_cons_iff in Hp. exists c, d.
  destruct_and! Hp. done.
Qed.

(** ** Splitting at the dots *)

Lemma split_dot_none s : Forall plain s -> split_dot s = [s].
Proof.
  induction 1 as [|c s (_ & Hc & _) _ IH]; simpl; [done|]. destruct (Z.eqb_spec (b2z c) 46); [done|]. by rewrite IH.
Qed.

Lemma split_dot_app s r : Forall plain s -> split_dot (s ++ str "." ++ r) = s :: split_dot r.
Proof.
  induction 1 as [|c s (_ & Hc & _) _ IH]; simpl in *; [done|]. destruct (Z.eqb_spec (b2z c) 46); [done|]. by rewrite IH.
Qed.

Lemma plain_dec_str s : forallb (fun c => negb (b2z c =? 43) && negb (b2z c =? 46) && (b2z c <? 128)) s = true ->
  Forall plain s.
Proof.
  rewrite forallb_forall. intros H. apply list.Forall_forall. intros c Hc%list_elem_of_In%H. unfold plain. lia.
Qed.
End RadixLaws.

Module CodecLaws.
Import RadixLaws.
#[local] Arguments Radix.parse : simpl never.

(** The fields of a codec within their types; an object type is in the form
    that [From<u16>] gives it. *)
Definition video_ok (c : VideoCodec.t) : Prop :=
  match c with
  | VideoCodec.Avc profile constraint_set level => fits 8 profile /\ fits 8 constraint_set /\ fits 8 level
  | VideoCodec.Hevc _ profile_compatibility profile level _ constraint_indicator =>
      fits 32 profile_compatibility /\ fits 8 profile /\ fits 8 level /\ fits 64 constraint_indicator
  | VideoCodec.Av1 profile level _ depth _ _ _ color_primaries transfer_characteristics matrix_coefficients _ =>
      fits 8 profile /\ fits 8 level /\ fits 8 depth /\ fits 8 color_primaries /\
      fits 8 transfer_characteristics /\ fits 8 matrix_coefficients
  end.

Definition audio_ok (c : AudioCodec.t) : Prop :=
  match c with
  | AudioCodec.Aac object_type => fits 16 (Aac.as_u16 object_type) /\ Aac.from_u16 (Aac.as_u16 object_type) = object_type
  | AudioCodec.Opus => True
  end.

Lemma ascii_boundary c : b2z c < 128 -> negb ((128 <=? b2z c) && (b2z c <? 192)) = true.
Proof. intros. destruct (Z.leb_spec 128 (b2z c)); [lia|done]. Qed.

Lemma avc_from_str profile constraint_set level :
  video_ok (VideoCodec.Avc profile constraint_set level) ->
  VideoCodec.from_str (VideoCodec.fmt (VideoCodec.Avc profile constraint_set level)) =
    Ok (VideoCodec.Avc profile constraint_set level).
Proof.
  intros (Hp & Hc & Hl). unfold VideoCodec.from_str, VideoCodec.fmt.
  destruct (print2_hex profile Hp) as (p1 & p2 & -> & P1 & P2 & EP).
  destruct (print2_hex constraint_set Hc) as (c1 & c2 & -> & C1 & C2 & EC).
  destruct (print2_hex level Hl) as (l1 & l2 & -> & L1 & L2 & EL).
  change (str "avc1." ++ ?r) with (str "avc1" ++ str "." ++ r).
  rewrite split_dot_app by (by apply plain_dec_str). rewrite split_dot_none by (simpl; repeat constructor; apply P1 || apply P2 || apply C1 || apply C2 || apply L1 || apply L2).
  rewrite bool_decide_eq_true_2 by done. unfold VideoCodec.parse_avc, part, slice_str, str_slice, is_char_boundary. simpl.
  rewrite !ascii_boundary by (apply C1 || apply L1). simpl. rewrite EP, EC, EL. done.
Qed.

Lemma aac_from_str object_type : audio_ok (AudioCodec.Aac object_type) ->
  AudioCodec.from_str (AudioCodec.fmt (AudioCodec.Aac object_type)) = Ok (AudioCodec.Aac object_type).
Proof.
  intros [Hf Hc]. unfold AudioCodec.from_str, AudioCodec.fmt.
  change (str "mp4a.40." ++ ?r) with (str "mp4a" ++ str "." ++ str "40" ++ str "." ++ r).
  rewrite !split_dot_app by (by apply plain_dec_str).
  rewrite split_dot_none by (apply print_plain; unfold fits in *; lia).
  rewrite bool_decide_eq_true_2 by done. unfold part. simpl. unfold fits in Hf.
  by rewrite parse_print by lia; simpl; rewrite Hc.
Qed.

#[local] Hint Extern 1 (Forall plain (str _)) => by apply plain_dec_str : codec.
#[local] Hint Extern 1 (Forall plain (Radix.print _ _)) => apply print_plain; unfold fits in *; lia : codec.
#[local] Hint Extern 1 (Forall plain (Radix.print2 _ _)) => apply print2_plain; unfold fits in *; lia : codec.
#[local] Hint Extern 2 (Forall plain (_ ++ _)) => apply Forall_app; split : codec.
#[local] Hint Extern 2 (Forall plain (if ?b then _ else _)) => destruct b : codec.
#[local] Hint Extern 2 (Forall plain (VideoCodec.bit ?b)) => destruct b; by apply plain_dec_str : codec.
#[local] Hint Constructors Forall : codec.

(** What is printed for these two codecs has too few parts to be parsed. *)
Lemma hevc_from_str space compatibility profile level tier constraint_indicator :
  video_ok (VideoCodec.Hevc space compatibility profile level tier constraint_indicator) ->
  VideoCodec.from_str (VideoCodec.fmt (VideoCodec.Hevc space compatibility profile level tier constraint_indicator)) =
    Err (str "missing profile").
Proof.
  intros (H1 & H2 & H3 & H4). unfold VideoCodec.from_str, VideoCodec.fmt.
  change (str "hev1." ++ ?r) with (str "hev1" ++ str "." ++ r).
  rewrite split_dot_app by auto with codec. rewrite (app_assoc (if space =? 1 then _ else _)).
  rewrite split_dot_app by auto 8 with codec. rewrite split_dot_app by auto with codec.
  rewrite (app_assoc (if tier then _ else _)). rewrite split_dot_app by auto with codec.
  rewrite split_dot_none by auto with codec. done.
Qed.

Lemma av1_from_str profile level tier depth mono x y cp tc mc full :
  video_ok (VideoCodec.Av1 profile level tier depth mono x y cp tc mc full) ->
  VideoCodec.from_str (VideoCodec.fmt (VideoCodec.Av1 profile level tier depth mono x y cp tc mc full)) =
    Err (str "missing profile").
Proof.
  intros (H1 & H2 & H3 & H4 & H5 & H6). unfold VideoCodec.from_str, VideoCodec.fmt.
  change (str "av01." ++ ?r) with (str "av01" ++ str "." ++ r).
  rewrite !split_dot_app by auto with codec. rewrite (app_assoc (Radix.print 10 level)).
  rewrite !split_dot_app by auto with codec.
  rewrite (app_assoc (VideoCodec.bit x)), (app_assoc (VideoCodec.bit x ++ _)).
  rewrite !split_dot_app by auto 8 with codec. rewrite split_dot_none by auto with codec. done.
Qed.
End CodecLaws.
