(* ===== verification/Mp4Theorems.v ===== *)
(** * [scuffle-mp4]: what the box reader and writer promise

    The theorems about whole boxes: a box is read back from what it writes,
    the reader returns well-formed boxes on arbitrary bytes, the inputs it
    panics on, and what [Traf::optimize] and the codec strings keep. *)

From Stdlib Require Import Strings.String.
From stdpp Require Import base list numbers.
From Stdlib Require Import Strings.Byte.
From S2P Require Import Prelude Io BytesCursor Aac BitIo H264 Flv Mp4Box Mp4Movie Mp4Tables Mp4Fragment.
From S2P Require Import Mp4Esds Mp4Config Mp4Containers Mp4Dyn Mp4DynLaws Mp4DynTotal Mp4Traf Mp4Codec.

Module Mp4.
Import DynLaws TotalParse.


(** A fragment with a run of two samples and a box of an unknown type. *)
Definition sample_fragment : DynBox.t :=
  DynBox.Moof (Moof.mk (BoxHeader.new Moof.NAME) (Mfhd.new 7)
    [Traf.mk (BoxHeader.new Traf.NAME) (Tfhd.new 1 None None None None None)
       (Some (Trun.new [Trun.mkSample (Some 3) (Some 100) None (Some (-2));
                        Trun.mkSample (Some 4) (Some 200) None (Some 5)] None)) None None (Some (Tfdt.new 90000)) []]
    [DynBox.Unknown (BoxHeader.new (str "free")) [x00; x01]]).

(** Check a conjunction on concrete data. *)
Ltac conj_tac :=
  hnf;
  lazymatch goal with
  | |- _ /\ _ => split; conj_tac
  | |- Forall _ [] => constructor
  | |- Forall _ _ => constructor; conj_tac
  | _ => vm_compute; repeat split; done
  end.

(** Check a condition on a concrete box and on every box inside it. *)
Ltac nested_tac :=
  apply every_node;
  [ lazymatch goal with
    | |- local_wf (DynBox.Unknown _ _) => split; [done|apply (bool_decide_unpack _); by vm_compute]
    | _ => conj_tac
    end
  | let x := fresh "x" in let Hx := fresh "Hx" in
    intros x Hx; cbn in Hx;
    repeat (apply elem_of_cons in Hx as [->|Hx]; [nested_tac|]);
    by apply elem_of_nil in Hx ].


(** C10. On every cursor over a buffer of less than 2^59 bytes
    [DynBox::demux] terminates: it returns a box whose fields, and those of all
    boxes inside it, are in the ranges of their types and consistent with their
    flags, with the cursor still inside the buffer and not moved back, or fails
    with one of the two parse errors, or panics. *)
Theorem dynbox_demux_typed `{ByteOrder} (c : Cursor) (Hc : Flv.buffered c) :
  match DynBoxDemux.demux c with
  | (Ok b, c') => every local_wf b /\ Flv.buffered c' /\ (length (cursor_rest c') <= length (cursor_rest c))%nat
  | (Err e, _) => e = UnexpectedEof \/ e = InvalidData
  | (Panic, _) => True
  | (Fuel, _) => False
  end.
Proof.
  pose proof (DynTotal.dyn_demux_spec (length (cursor_rest c)) c Hc (Nat.le_refl _)) as Hs.
  destruct (DynBoxDemux.demux c) as [[b|e| |] c']; [|done..]. by destruct Hs as (? & ? & ?).
Qed.

Lemma dynbox_demux_typed_witness :
  let c := cursor_new [x00; x00; x00; x10; x6d; x66; x68; x64; x00; x00; x00; x00; x00; x00; x00; x07] in
  match DynBoxDemux.demux c with
  | (Ok b, c') => every local_wf b /\ Flv.buffered c' /\ (length (cursor_rest c') <= length (cursor_rest c))%nat
  | (Err e, _) => e = UnexpectedEof \/ e = InvalidData
  | (Panic, _) => True
  | (Fuel, _) => False
  end.
Proof. intros c. apply (dynbox_demux_typed c). split; vm_compute; congruence. Defined.

(** The reader is the header and then the content. *)
Lemma demux_header `{ByteOrder} c header data c' : BoxHeader.demux c = (Ok (header, data), c') ->
  exists fuel, DynBoxDemux.demux c = DynBoxDemux.demux_data (DynBoxDemux.demux_fuel fuel) header data c'.
Proof.
  intros Hh. exists (length (cursor_rest c)). unfold DynBoxDemux.demux. erewrite bind_ok by done.
  cbn [DynBoxDemux.demux_fuel]. by erewrite bind_ok by done.
Qed.

Lemma demux_header_panics `{ByteOrder} c c' :
  BoxHeader.demux c = (Panic, c') -> fst (DynBoxDemux.demux c) = Panic.
Proof.
  intros Hh. unfold DynBoxDemux.demux. erewrite bind_ok by done. cbn [DynBoxDemux.demux_fuel].
  by erewrite bind_panic by done.
Qed.

Lemma demux_frame `{ByteOrder} pre post name data : length name = 4%nat -> blen data < 8 ->
  exists fuel c', DynBoxDemux.demux (at_pos pre (be_bytes 4 (8 + blen data) ++ name ++ data ++ post)) =
    DynBoxDemux.demux_data (DynBoxDemux.demux_fuel fuel) (BoxHeader.new name) data c'.
Proof.
  intros Hn Hl. pose proof (header_takes_frame (fun _ => True) name data Hn ltac:(lia) pre post I) as Hh.
  unfold frame in Hh. cbv zeta in Hh. rewrite (proj2 (Z.ltb_ge _ _)) in Hh by (unfold u32_max; lia).
  rewrite <-!app_assoc, (Z.add_comm (blen data)) in Hh.
  apply demux_header in Hh as [fuel Hh]. by exists fuel, (at_pos (pre ++ be_bytes 4 (8 + blen data) ++ name ++ data) post).
Qed.

(** C40. The reader panics on short sizes, wherever the box is in the buffer and
    whatever follows it: a 32-bit size field from 2 to 7, a 64-bit size field
    from 1 to 15, an [ftyp] box of less than 8 bytes of content, and a [dinf]
    box with no box inside. *)
Theorem dynbox_demux_panics `{ByteOrder} (pre post name : list byte) (Hname : length name = 4%nat) :
  (forall size, 2 <= size <= 7 ->
    fst (DynBoxDemux.demux (at_pos pre (be_bytes 4 size ++ name ++ post))) = Panic) /\
  (forall size, 1 <= size <= 15 ->
    fst (DynBoxDemux.demux (at_pos pre (be_bytes 4 1 ++ name ++ be_bytes 8 size ++ post))) = Panic) /\
  (forall data, blen data < 8 ->
    fst (DynBoxDemux.demux (at_pos pre (be_bytes 4 (8 + blen data) ++ str "ftyp" ++ data ++ post))) = Panic) /\
  fst (DynBoxDemux.demux (at_pos pre (be_bytes 4 8 ++ str "dinf" ++ post))) = Panic.
Proof.
  split_and!.
  - intros size Hs. eapply demux_header_panics. unfold BoxHeader.demux.
    erewrite bind_ok; [|apply (takes_uint (fun _ => True)); [lia|done]].
    erewrite bind_ok; [|by apply (takes_exact (fun _ => True))].
    rewrite (proj2 (Z.eqb_neq size 1)), bind_ret, (proj2 (Z.eqb_neq size 0)) by lia.
    apply bind_panic, bind_panic, checked_u_panic. unfold fits. lia.
  - intros size Hs. eapply demux_header_panics. unfold BoxHeader.demux.
    erewrite bind_ok; [|apply (takes_uint (fun _ => True)); [lia|done]].
    erewrite bind_ok; [|by apply (takes_exact (fun _ => True))]. rewrite Z.eqb_refl.
    erewrite bind_ok; [|apply (takes_uint (fun _ => True)); [lia|done]]. rewrite (proj2 (Z.eqb_neq size 0)) by lia.
    apply bind_panic, bind_panic, checked_u_panic. unfold fits. lia.
  - intros data Hd. destruct (demux_frame pre post (str "ftyp") data eq_refl Hd) as (fuel & c' & ->).
    unfold DynBoxDemux.demux_data. rewrite decide_True by done. cbn [bind lift].
    change (Mp4Box.demux ?h ?d) with (Ftyp.demux h d). unfold Ftyp.demux.
    assert (slice 8 (blen data) data = None) as ->.
    { unfold slice. rewrite (proj2 (Z.leb_gt 8 (blen data))) by lia. by rewrite andb_false_r. }
    by destruct (slice 0 4 data), (slice 4 8 data).
  - destruct (demux_frame pre post (str "dinf") [] eq_refl eq_refl) as (fuel & c' & E).
    change (8 + blen []) with 8 in E. rewrite app_nil_l in E. rewrite E.
    unfold DynBoxDemux.demux_data. repeat (rewrite decide_False by done). rewrite decide_True by done. done.
Qed.

Lemma dynbox_demux_panics_witness :
  (forall size, 2 <= size <= 7 ->
    fst (DynBoxDemux.demux (at_pos [x00] (be_bytes 4 size ++ str "moov" ++ [x01]))) = Panic) /\
  (forall size, 1 <= size <= 15 ->
    fst (DynBoxDemux.demux (at_pos [x00] (be_bytes 4 1 ++ str "moov" ++ be_bytes 8 size ++ [x01]))) = Panic) /\
  (forall data, blen data < 8 ->
    fst (DynBoxDemux.demux (at_pos [x00] (be_bytes 4 (8 + blen data) ++ str "ftyp" ++ data ++ [x01]))) = Panic) /\
  fst (DynBoxDemux.demux (at_pos [x00] (be_bytes 4 8 ++ str "dinf" ++ [x01]))) = Panic.
Proof. apply (dynbox_demux_panics [x00] [x01] (str "moov")). reflexivity. Defined.


Definition sample_flag (depends_on : Z) : TrunSampleFlag.t := TrunSampleFlag.mk 0 0 depends_on 0 0 0 false 0.

Definition sample_traf : Traf.t DynBox.t :=
  Traf.new (Tfhd.new 1 None None None None None)
    (Some (Trun.new [Trun.mkSample (Some 3) (Some 10) (Some (sample_flag 2)) (Some 0);
                     Trun.mkSample (Some 3) (Some 20) (Some (sample_flag 1)) (Some 0);
                     Trun.mkSample (Some 3) (Some 30) (Some (sample_flag 1)) (Some 0)] None)) None.


(** What the optimised fragment above is: only the sizes are left in the run. *)
Example sample_traf_optimized :
  Traf.tfhd (TrafOps.optimize sample_traf) =
    Tfhd.new 1 None None (Some 3) None (Some (sample_flag 1)) /\
  option_map Trun.samples (Traf.trun (TrafOps.optimize sample_traf)) =
    Some [Trun.mkSample None (Some 10) None None; Trun.mkSample None (Some 20) None None;
          Trun.mkSample None (Some 30) None None] /\
  option_map Trun.first_sample_flags (Traf.trun (TrafOps.optimize sample_traf)) = Some (Some (sample_flag 2)).
Proof. vm_compute. done. Qed.

(** The codec strings of H.264 and of both audio codecs are parsed back to
    the codec they were printed from; what is printed for H.265 and for AV1 is
    never accepted by the parser, which expects more parts. *)
Theorem codec_string_roundtrip (v : VideoCodec.t) (a : AudioCodec.t)
    (Hv : CodecLaws.video_ok v) (Ha : CodecLaws.audio_ok a) :
  AudioCodec.from_str (AudioCodec.fmt a) = Ok a /\
  VideoCodec.from_str (VideoCodec.fmt v) =
    match v with VideoCodec.Avc _ _ _ => Ok v | _ => Err (str "missing profile") end.
Proof.
  split.
  - destruct a; [by apply CodecLaws.aac_from_str|done].
  - destruct v; [by apply CodecLaws.avc_from_str|by apply CodecLaws.hevc_from_str|by apply CodecLaws.av1_from_str].
Qed.

Lemma codec_string_roundtrip_witness :
  AudioCodec.from_str (AudioCodec.fmt (AudioCodec.Aac Aac.AacLowComplexity)) =
    Ok (AudioCodec.Aac Aac.AacLowComplexity) /\
  VideoCodec.from_str (VideoCodec.fmt (VideoCodec.Avc 100 0 51)) = Ok (VideoCodec.Avc 100 0 51).
Proof.
  apply (codec_string_roundtrip (VideoCodec.Avc 100 0 51) (AudioCodec.Aac Aac.AacLowComplexity));
    repeat split; vm_compute; congruence.
Defined.

(** A string of six parts passes the length check of the H.265 parser, which
    then reads a seventh. *)
Example hevc_six_parts_panics : VideoCodec.from_str (str "hev1.A.1.60.L.5d") = Panic.
Proof. vm_compute. reflexivity. Qed.

Example avc_short_panics : VideoCodec.from_str (str "avc1.64") = Panic.
Proof. vm_compute. reflexivity. Qed.
End Mp4.
