(* ===== verification/F64.v ===== *)
(** * [f64] as the sources use it

    An IEEE 754 double is a [spec_float] of precision 53 and maximal exponent
    1024, with the operations of the Standard Library's specification of
    floating-point numbers. Added here: the value of a bit pattern
    ([f64::from_bits], which the AMF0 decoder applies), [floor], and the
    saturating conversions to integers ([as u32], [as i32]). *)

From Stdlib Require Import Floats.SpecFloat.
From stdpp Require Import base list numbers.
From S2P Require Import Prelude.

Module F64.

Definition t : Type := spec_float.

(** [z as f64] *)
Definition of_int (z : Z) : t := binary_normalize 53 1024 z 0 false.

Definition mul : t -> t -> t := SFmul 53 1024.
Definition div : t -> t -> t := SFdiv 53 1024.
Definition sub : t -> t -> t := SFsub 53 1024.
Definition abs : t -> t := SFabs.
Definition leb : t -> t -> bool := SFleb.
Definition eqb : t -> t -> bool := SFeqb.

Definition from_bits (bits : Z) : t :=
  let sign := Z.testbit bits 63 in
  let exponent := Z.land (Z.shiftr bits 52) 2047 in
  let mantissa := Z.land bits (Z.ones 52) in
  if exponent =? 0 then
    match mantissa with
    | Zpos m => S754_finite sign m (-1074)
    | _ => S754_zero sign
    end
  else if exponent =? 2047 then (if mantissa =? 0 then S754_infinity sign else S754_nan)
  else
    match mantissa + 2 ^ 52 with
    | Zpos m => S754_finite sign m (exponent - 1075)
    | _ => S754_nan
    end.

(** The integer part of the absolute value of a finite number. *)
Definition magnitude (m : positive) (e : Z) : Z :=
  if 0 <=? e then Zpos m * 2 ^ e else Zpos m / 2 ^ (- e).

(** [x.floor()] *)
Definition floor (x : t) : t :=
  match x with
  | S754_finite s m e =>
      if 0 <=? e then x
      else of_int ((if s then Zneg m else Zpos m) / 2 ^ (- e))
  | _ => x
  end.

(** [x as u32]: towards zero, saturating, zero for a NaN. *)
Definition as_u32 (x : t) : Z :=
  match x with
  | S754_finite false m e => Z.min (2 ^ 32 - 1) (magnitude m e)
  | S754_infinity false => 2 ^ 32 - 1
  | _ => 0
  end.

(** [x as i32] *)
Definition as_i32 (x : t) : Z :=
  match x with
  | S754_finite false m e => Z.min (2 ^ 31 - 1) (magnitude m e)
  | S754_finite true m e => Z.max (- 2 ^ 31) (- magnitude m e)
  | S754_infinity false => 2 ^ 31 - 1
  | S754_infinity true => - 2 ^ 31
  | _ => 0
  end.

(** 29.97, 0.1, -1.5, the smallest subnormal and an infinity. *)
Example from_bits_samples :
  as_u32 (mul (from_bits 0x403df851eb851eb8) (of_int 1000)) = 29970 /\
  as_u32 (mul (from_bits 0x3fb999999999999a) (of_int 10)) = 1 /\
  as_i32 (from_bits 0xbff8000000000000) = -1 /\
  as_i32 (floor (from_bits 0xbff8000000000000)) = -2 /\
  as_u32 (from_bits 0xbff8000000000000) = 0 /\
  from_bits 1 = S754_finite false 1 (-1074) /\
  as_u32 (from_bits 0x7ff0000000000000) = 2 ^ 32 - 1 /\
  from_bits 0x7ff8000000000000 = S754_nan.
Proof. vm_compute. done. Qed.

Lemma magnitude_nonneg m e : 0 <= magnitude m e.
Proof.
  unfold magnitude. destruct (Z.leb_spec 0 e).
  - apply Z.mul_nonneg_nonneg; [lia|]. by apply Z.pow_nonneg.
  - apply Z.div_pos; [lia|]. apply Z.pow_pos_nonneg; lia.
Qed.

Lemma as_u32_fits x : fits 32 (as_u32 x).
Proof.
  unfold fits. destruct x as [| [] | | [] m e]; simpl; try lia.
  pose proof (magnitude_nonneg m e). lia.
Qed.

Lemma as_i32_range x : - 2 ^ 31 <= as_i32 x < 2 ^ 31.
Proof. destruct x as [| [] | | [] m e]; simpl; try lia; pose proof (magnitude_nonneg m e); lia. Qed.
End F64.
