(* ===== verification/Transmuxer.v ===== *)
(** * [scuffle-transmuxer] (crates/transmuxer/src)

    The transmuxer takes FLV tags and produces fragmented MP4: an init segment
    from the sequence headers and the metadata, then one media segment per
    audio or video packet. Its state is a record, [mux] and [demux] are state
    transformers with errors; boxes are written to a [Vec<u8>] with the models
    of the mp4 crate, frame rates are IEEE doubles. *)

From Stdlib Require Import Strings.String.
From stdpp Require Import base list numbers.
From Stdlib Require Import Strings.Byte.
From S2P Require Import Prelude Io BytesCursor Aac Amf0 BitIo Av1 H264 H264Sps H265 Flv Av1Obu H265Sps Mp4Box.
From S2P Require Import Mp4Movie Mp4Tables Mp4Fragment Mp4Esds Mp4Config Mp4Containers Mp4Dyn Mp4Traf.
From S2P Require Import Mp4Codec F64.

(** ** errors.rs *)

Inductive TransmuxError :=
| InvalidVideoDimensions
| InvalidVideoFrameRate
| InvalidAudioSampleRate
| InvalidAudioChannels
| InvalidAudioSampleSize
| InvalidHEVCDecoderConfigurationRecord
| InvalidAv1DecoderConfigurationRecord
| InvalidAVCDecoderConfigurationRecord
| NoSequenceHeaders
| IO (e : ErrorKind).

(** [?] on a result of the lower crates. *)
Definition io {A} (r : res ErrorKind A) : res TransmuxError A :=
  match r with Ok a => Ok a | Err e => Err (IO e) | Panic => Panic | Fuel => Fuel end.

Definition and_then {E A B} (r : res E A) (k : A -> res E B) : res E B :=
  match r with Ok a => k a | Err e => Err e | Panic => Panic | Fuel => Fuel end.

Notation "'do' x <- r ; k" := (and_then r (fun x => k)) (at level 60, x pattern, r at level 59, right associativity) :
  rust_scope.

(** ** define.rs *)

Inductive VideoSequenceHeader :=
| SeqAvc (config : AvcConfig.AVCDecoderConfigurationRecord)
| SeqHevc (config : HevcConfig.HEVCDecoderConfigurationRecord)
| SeqAv1 (config : Av1Config.AV1CodecConfigurationRecord).

Record AudioSequenceHeader := mkAudioSeq { seq_sound_size : Z; seq_sound_type : Z; seq_data : list byte }.

Record VideoSettings := mkVideoSettings {
  width : Z;
  height : Z;
  framerate : F64.t;
  video_bitrate : Z;
  video_codec : VideoCodec.t;
  video_timescale : Z;
}.

Record AudioSettings := mkAudioSettings {
  sample_rate : Z;
  channels : Z;
  audio_bitrate : Z;
  audio_codec : AudioCodec.t;
  audio_timescale : Z;
}.

Inductive MediaType := Video | Audio.

Record MediaSegment := mkSegment {
  data : list byte;
  ty : MediaType;
  keyframe : bool;
  timestamp : Z;
}.

Inductive TransmuxResult :=
| InitSegment (video_settings : VideoSettings) (audio_settings : AudioSettings) (bytes : list byte)
| Media (segment : MediaSegment).

Definition into_bytes (r : TransmuxResult) : list byte :=
  match r with
  | InitSegment _ _ bytes => bytes
  | Media segment => data segment
  end.

(** ** codecs *)

Definition sample_flags (key : bool) : TrunSampleFlag.t :=
  TrunSampleFlag.mk 0 0 (if key then 2 else 1) 0 0 0 (negb key) 0.

Definition is_key (frame_type : Z) : bool := frame_type =? FrameType.Keyframe.

Module CodecAac.
(** [aac::trun_sample]: the sample and its duration. *)
Definition trun_sample (data : list byte) : Trun.TrunSample * Z :=
  (Trun.mkSample (Some 1024) (Some (wrap 32 (blen data))) (Some (TrunSampleFlag.mk 0 0 2 0 0 0 false 0)) None, 1024).

(** [SoundType] and [SoundSize] are bytes: [Mono] and [Bit8] are 0, [Stereo]
    and [Bit16] are 1. *)
Definition stsd_entry (sound_size sound_type : Z) (data : list byte) :
    res TransmuxError (DynBox.t * Aac.PartialAudioSpecificConfig) :=
  do aac_config <- io (Aac.parse data);
  do channels <- (if sound_type =? 0 then Ok 1 else if sound_type =? 1 then Ok 2 else Err InvalidAudioChannels);
  do bits <- (if sound_size =? 0 then Ok 8 else if sound_size =? 1 then Ok 16 else Err InvalidAudioSampleSize);
  Ok (DynBox.Mp4a (Mp4a.new
        (SampleEntry.new (AudioSampleEntry.new channels bits (Aac.sampling_frequency aac_config)))
        (Esds.new (EsDescriptor.new 2 0 (Some 0) None (Some 0)
          (Some (DecoderConfigDescriptor.new 64 5 0 0
            (Some (DecoderSpecificInfoDescriptor.mk
              (DescriptorHeader.new DecoderSpecificInfoDescriptor.TAG) data)))) None)) None), aac_config).
End CodecAac.

Module CodecAv1.
Definition trun_sample (frame_type duration : Z) (data : list byte) : Trun.TrunSample :=
  Trun.mkSample (Some duration) (Some (wrap 32 (blen data))) (Some (sample_flags (is_key frame_type))) None.

Section entry.
Context `{BO : ByteOrder}.

(** The sequence header at the start of the configuration OBUs. *)
Definition sequence_header (config : Av1Config.AV1CodecConfigurationRecord) :
    res TransmuxError Av1Obu.SequenceHeaderObu :=
  fst ((let* header := map_err IO Av1Obu.ObuHeader_parse in
        let* cursor := get in
        let* data := map_err IO
          (BytesCursorExt.extract_bytes (default (BytesCursorExt.remaining cursor) (Av1Obu.size header))) in
        if negb (bool_decide (Av1Obu.obu_type header = Av1Obu.SequenceHeader))
        then throw InvalidAv1DecoderConfigurationRecord
        else lift (io (over data (Av1Obu.SequenceHeaderObu_parse header))))
       (cursor_new (Av1Config.config_obu config))).

Definition stsd_entry (config : Av1Config.AV1CodecConfigurationRecord) :
    res TransmuxError (DynBox.t * Av1Obu.SequenceHeaderObu) :=
  do seq_obu <- sequence_header config;
  let c := Av1Obu.color_config seq_obu in
  Ok (DynBox.Av01 (Av01.new
        (SampleEntry.new (VisualSampleEntry.new (wrap 16 (Av1Obu.max_frame_width seq_obu))
          (wrap 16 (Av1Obu.max_frame_height seq_obu))
          (Some (Colr.new (Colr.Nclx (Av1Obu.color_primaries c) (Av1Obu.transfer_characteristics c)
            (Av1Obu.matrix_coefficients c) (Av1Obu.full_color_range c))))))
        (Av1C.new config) None), seq_obu).
End entry.
End CodecAv1.

Module CodecAvc.
Definition trun_sample (frame_type composition_time duration : Z) (data : list byte) : Trun.TrunSample :=
  Trun.mkSample (Some duration) (Some (wrap 32 (blen data))) (Some (sample_flags (is_key frame_type)))
    (Some composition_time).

Section entry.
Context `{BO : ByteOrder}.

Definition stsd_entry (config : AvcConfig.AVCDecoderConfigurationRecord) : res TransmuxError (DynBox.t * H264Sps.Sps) :=
  match AvcConfig.sps config with
  | [] => Err InvalidAVCDecoderConfigurationRecord
  | nalu :: _ =>
      do sps <- io (H264Sps.parse nalu);
      let colr := (fun c => Colr.new (Colr.Nclx (H264Sps.color_primaries c) (H264Sps.transfer_characteristics c)
        (H264Sps.matrix_coefficients c) (H264Sps.full_range c))) <$> H264Sps.color_config sps in
      Ok (DynBox.Avc1 (Avc1.new
            (SampleEntry.new (VisualSampleEntry.new (wrap 16 (H264Sps.width sps)) (wrap 16 (H264Sps.height sps)) colr))
            (AvcC.new config) None), sps)
  end.
End entry.
End CodecAvc.

Module CodecHevc.
Definition trun_sample (frame_type composition_time duration : Z) (data : list byte) : Trun.TrunSample :=
  Trun.mkSample (Some duration) (Some (wrap 32 (blen data))) (Some (sample_flags (is_key frame_type)))
    (Some composition_time).

(** [config.arrays.iter().find(|a| a.nal_unit_type == Sps).and_then(|v| v.nalus.first())] *)
Definition find_sps (config : HevcConfig.HEVCDecoderConfigurationRecord) : option (list byte) :=
  a ← List.find (fun a => match HevcConfig.nal_unit_type a with HevcConfig.Sps => true | _ => false end)
    (HevcConfig.arrays config);
  head (HevcConfig.nalus a).

Section entry.
Context `{BO : ByteOrder}.

Definition stsd_entry (config : HevcConfig.HEVCDecoderConfigurationRecord) :
    res TransmuxError (DynBox.t * H265Sps.Sps) :=
  match find_sps config with
  | None => Err InvalidHEVCDecoderConfigurationRecord
  | Some nalu =>
      do sps <- io (H265Sps.parse nalu);
      let colr := (fun c => Colr.new (Colr.Nclx (H265Sps.color_primaries c) (H265Sps.transfer_characteristics c)
        (H265Sps.matrix_coefficients c) (H265Sps.full_range c))) <$> H265Sps.color_config sps in
      Ok (DynBox.Hev1 (Hev1.new
            (SampleEntry.new (VisualSampleEntry.new (wrap 16 (H265Sps.width sps)) (wrap 16 (H265Sps.height sps)) colr))
            (HvcC.new config) None), sps)
  end.
End entry.
End CodecHevc.

(** ** lib.rs *)

Module Transmuxer.
Record t := mk {
  audio_duration : Z;
  video_duration : Z;
  sequence_number : Z;
  last_video_timestamp : Z;
  settings : option (VideoSettings * AudioSettings);
  tags : list Flv.FlvTag;
}.

Definition new : t := mk 0 0 1 0 None [].

Definition set_tags (tags : list Flv.FlvTag) (s : t) : t :=
  mk (audio_duration s) (video_duration s) (sequence_number s) (last_video_timestamp s) (settings s) tags.
Definition set_settings (settings : option (VideoSettings * AudioSettings)) (s : t) : t :=
  mk (audio_duration s) (video_duration s) (sequence_number s) (last_video_timestamp s) settings (tags s).
Definition set_sequence_number (n : Z) (s : t) : t :=
  mk (audio_duration s) (video_duration s) n (last_video_timestamp s) (settings s) (tags s).
Definition set_audio_duration (n : Z) (s : t) : t :=
  mk n (video_duration s) (sequence_number s) (last_video_timestamp s) (settings s) (tags s).
Definition set_video_duration (n : Z) (s : t) : t :=
  mk (audio_duration s) n (sequence_number s) (last_video_timestamp s) (settings s) (tags s).
Definition set_last_video_timestamp (n : Z) (s : t) : t :=
  mk (audio_duration s) (video_duration s) (sequence_number s) n (settings s) (tags s).

Abbreviation X := (M t TransmuxError).

(** [add_tag] *)
Definition add_tag (tag : Flv.FlvTag) (s : t) : t := set_tags (tags s ++ [tag]) s.

(** *** Sequence headers and metadata *)

Record Tags := mkTags {
  video_sequence_header : option VideoSequenceHeader;
  audio_sequence_header : option AudioSequenceHeader;
  scriptdata_tag : option (list (list byte * Amf0Value.t));
}.

(** [HashMap::get] after [collect]: a later pair replaces an earlier one. *)
Definition map_get (key : list byte) (pairs : list (list byte * Amf0Value.t)) : option Amf0Value.t :=
  snd <$> List.find (fun p => bool_decide (p.1 = key)) (rev pairs).

(** The first object among the values. *)
Definition find_object (values : list Amf0Value.t) : option (list (list byte * Amf0Value.t)) :=
  match List.find (fun v => match v with Amf0Value.Object _ => true | _ => false end) values with
  | Some (Amf0Value.Object properties) => Some properties
  | _ => None
  end.

(** The [match] in the loop of [find_tags]. *)
Definition note_tag (s : Tags) (tag : Flv.FlvTag) : Tags :=
  match Flv.tag_data tag with
  | Flv.TagVideo v =>
      match Flv.video_body v with
      | Flv.VideoAvc (Flv.AvcSequenceHeader config) =>
          mkTags (Some (SeqAvc config)) (audio_sequence_header s) (scriptdata_tag s)
      | Flv.VideoEnhanced (Flv.EAv1 (Flv.Av1SequenceStart config)) =>
          mkTags (Some (SeqAv1 config)) (audio_sequence_header s) (scriptdata_tag s)
      | Flv.VideoEnhanced (Flv.EHevc (Flv.HevcSequenceStart config)) =>
          mkTags (Some (SeqHevc config)) (audio_sequence_header s) (scriptdata_tag s)
      | _ => s
      end
  | Flv.TagAudio a =>
      match Flv.audio_body a with
      | Flv.AudioAac (Flv.AacSequenceHeader data) =>
          mkTags (video_sequence_header s) (Some (mkAudioSeq (Flv.sound_size a) (Flv.sound_type a) data))
            (scriptdata_tag s)
      | _ => s
      end
  | Flv.TagScriptData d =>
      if bool_decide (Flv.script_name d = str "@setDataFrame") || bool_decide (Flv.script_name d = str "onMetaData")
      then
        match find_object (Flv.script_data d) with
        | Some meta_object => mkTags (video_sequence_header s) (audio_sequence_header s) (Some meta_object)
        | None => s
        end
      else s
  | Flv.TagUnknown _ _ => s
  end.

Definition complete (s : Tags) : bool :=
  is_some (video_sequence_header s) && is_some (audio_sequence_header s) && is_some (scriptdata_tag s).

Fixpoint find_tags (s : Tags) (tags : list Flv.FlvTag) : Tags :=
  match tags with
  | [] => s
  | tag :: tags => if complete s then s else find_tags (note_tag s tag) tags
  end.

(** *** The init segment *)

(** The number stored under a key, if there is one and it is a number. *)
Definition number_of (key : string) (meta : list (list byte * Amf0Value.t)) : option F64.t :=
  match map_get (str key) meta with
  | Some (Amf0Value.Number bits) => Some (F64.from_bits bits)
  | _ => None
  end.

Definition kilobits (o : option F64.t) : Z :=
  match o with Some v => F64.as_u32 (F64.mul v (F64.of_int 1024)) | None => 0 end.

(** What the video sequence header gives: brand, codec, sample entry, frame
    rate (if it has one), width and height. *)
Record VideoInfo := mkVideoInfo {
  brand : FourCC.t;
  info_codec : VideoCodec.t;
  entry : DynBox.t;
  fps : F64.t;
  info_width : Z;
  info_height : Z;
}.

Section mux.
Context `{BO : ByteOrder} `{FP : FixedPoint}.

Definition nonzero_or (rate video_fps : F64.t) : F64.t :=
  if negb (F64.eqb rate (F64.of_int 0)) then rate else video_fps.

Definition video_info (header : VideoSequenceHeader) (video_fps : F64.t) : res TransmuxError VideoInfo :=
  match header with
  | SeqAvc config =>
      let codec := VideoCodec.Avc (AvcConfig.profile_indication config) (AvcConfig.profile_compatibility config)
        (AvcConfig.level_indication config) in
      do (entry, sps) <- CodecAvc.stsd_entry config;
      Ok (mkVideoInfo FourCC.Avc1 codec entry (nonzero_or (H264Sps.frame_rate sps) video_fps)
            (wrap 32 (H264Sps.width sps)) (wrap 32 (H264Sps.height sps)))
  | SeqAv1 config =>
      do (entry, seq_obu) <- CodecAv1.stsd_entry config;
      match Av1Obu.operating_points seq_obu with
      | [] => Panic
      | op_point :: _ =>
          let c := Av1Obu.color_config seq_obu in
          Ok (mkVideoInfo FourCC.Av01
                (VideoCodec.Av1 (Av1Obu.seq_profile seq_obu) (Av1Obu.seq_level_idx op_point) (Av1Obu.seq_tier op_point)
                  (wrap 8 (Av1Obu.bit_depth c)) (Av1Obu.mono_chrome c) (Av1Obu.subsampling_x c)
                  (Av1Obu.subsampling_y c) (Av1Obu.color_primaries c) (Av1Obu.transfer_characteristics c)
                  (Av1Obu.matrix_coefficients c) (Av1Obu.full_color_range c))
                entry video_fps (wrap 32 (Av1Obu.max_frame_width seq_obu)) (wrap 32 (Av1Obu.max_frame_height seq_obu)))
      end
  | SeqHevc config =>
      let codec := VideoCodec.Hevc (HevcConfig.general_profile_space config)
        (HevcConfig.general_profile_compatibility_flags config) (HevcConfig.general_profile_idc config)
        (HevcConfig.general_level_idc config) (HevcConfig.general_tier_flag config)
        (HevcConfig.general_constraint_indicator_flags config) in
      do (entry, sps) <- CodecHevc.stsd_entry config;
      Ok (mkVideoInfo FourCC.Hev1 codec entry (nonzero_or (H265Sps.frame_rate sps) video_fps)
            (wrap 32 (H265Sps.width sps)) (wrap 32 (H265Sps.height sps)))
  end.

(** One track of the movie box. *)
Definition stbl_of (entry : DynBox.t) : Stbl.t DynBox.t :=
  Stbl.new (Stsd.new [entry]) (Stts.new []) (Stsc.new []) (Stco.new []) (Some (Stsz.new 0 [])).

Definition video_trak (video_width video_height video_timescale : Z) (entry : DynBox.t) : option (Trak.t DynBox.t) :=
  tkhd ← Tkhd.new 0 0 1 0 (Some (video_width, video_height));
  Some (Trak.new tkhd None (Mdia.new (Mdhd.new 0 0 video_timescale 0) (Hdlr.new HandlerType.Vide (str "VideoHandler"))
    (DynBox.minf_new (stbl_of entry) (Some Vmhd.new) None))).

Definition audio_trak (audio_sample_rate : Z) (entry : DynBox.t) : option (Trak.t DynBox.t) :=
  tkhd ← Tkhd.new 0 0 2 0 None;
  smhd ← Smhd.new;
  Some (Trak.new tkhd None (Mdia.new (Mdhd.new 0 0 audio_sample_rate 0) (Hdlr.new HandlerType.Soun (str "SoundHandler"))
    (DynBox.minf_new (stbl_of entry) None (Some smhd)))).

Definition moov_of (video : VideoInfo) (video_timescale audio_sample_rate : Z) (audio_entry : DynBox.t) :
    option (Moov.t DynBox.t) :=
  mvhd ← Mvhd.new 0 0 1000 0 1;
  video_trak ← video_trak (info_width video) (info_height video) video_timescale (entry video);
  audio_trak ← audio_trak audio_sample_rate audio_entry;
  Some (Moov.new mvhd [video_trak; audio_trak] (Some (Mvex.new [Trex.new 1; Trex.new 2] None))).

(** A sequence of writes to a new [Vec<u8>], and what it holds at the end. *)
Definition written_by (m : M (list byte) ErrorKind unit) : res TransmuxError (list byte) :=
  match m [] with
  | (Ok _, bytes) => Ok bytes
  | (Err e, _) => Err (IO e)
  | (Panic, _) => Panic
  | (Fuel, _) => Fuel
  end.

Definition init_sequence (s : t) : res TransmuxError (option (VideoSettings * AudioSettings * list byte)) :=
  let found := find_tags (mkTags None None None) (tags s) in
  match video_sequence_header found, audio_sequence_header found with
  | Some video_header, Some audio_header =>
      let meta := default [] (scriptdata_tag found) in
      let video_fps := default (F64.of_int 0) (number_of "framerate" meta) in
      let estimated_video_bitrate := kilobits (number_of "videodatarate" meta) in
      let estimated_audio_bitrate := kilobits (number_of "audiodatarate" meta) in
      do video <- video_info video_header video_fps;
      do (audio_entry, config) <-
        CodecAac.stsd_entry (seq_sound_size audio_header) (seq_sound_type audio_header) (seq_data audio_header);
      let audio_sample_rate := Aac.sampling_frequency config in
      do audio_channels <-
        (if seq_sound_type audio_header =? 0 then Ok 1 else if seq_sound_type audio_header =? 1 then Ok 2
         else Err InvalidAudioChannels);
      if F64.eqb (fps video) (F64.of_int 0) then Err InvalidVideoFrameRate
      else if (info_width video =? 0) || (info_height video =? 0) then Err InvalidVideoDimensions
      else if audio_sample_rate =? 0 then Err InvalidAudioSampleRate
      else
        let timescale := F64.as_u32 (F64.mul (F64.of_int 1000) (fps video)) in
        do bytes <- written_by (
          Mp4Box.mux (Ftyp.new FourCC.Iso5 512 [FourCC.Iso5; FourCC.Iso6; brand video; FourCC.Mp41]) ;;;
          let* moov := unwrap (moov_of video timescale audio_sample_rate audio_entry) in
          Moov.mux DynBox.size DynBox.mux (list byte) moov);
        Ok (Some (mkVideoSettings (info_width video) (info_height video) (fps video) estimated_video_bitrate
                    (info_codec video) timescale,
                  mkAudioSettings audio_sample_rate audio_channels estimated_audio_bitrate
                    (AudioCodec.Aac (Aac.audio_object_type config)) audio_sample_rate, bytes))
  | _, _ => Ok None
  end.

(** *** The media segments *)

(** The duration of a video frame in ticks of a thousandth of the frame rate. *)
Definition frame_duration (settings : VideoSettings) (last_video_timestamp timestamp_ms : Z) : Z :=
  if (last_video_timestamp =? 0) || (timestamp_ms =? 0) || (timestamp_ms <? last_video_timestamp) then 1000
  else
    let delta := F64.sub (F64.of_int timestamp_ms) (F64.of_int last_video_timestamp) in
    let expected_delta := F64.div (F64.of_int 1000) (framerate settings) in
    if F64.leb (F64.abs (F64.sub delta expected_delta)) (F64.of_int 1) then 1000
    else F64.as_u32 (F64.mul delta (framerate settings)).

(** [((composition_time as f64 * framerate) / 1000.0).floor() * 1000.0] *)
Definition composition_ticks (settings : VideoSettings) (composition_time : Z) : F64.t :=
  F64.mul
    (F64.floor (F64.div (F64.mul (F64.of_int composition_time) (framerate settings)) (F64.of_int 1000)))
    (F64.of_int 1000).

(** What the [match] on the tag assigns to the local variables. *)
Record Packet := mkPacket {
  mdat_data : list byte;
  total_duration : Z;
  trun_sample : Trun.TrunSample;
  is_audio : bool;
  is_keyframe : bool;
}.

(** [None] is [continue]. *)
Definition packet_of (settings : VideoSettings) (duration : Z) (tag : Flv.FlvTag) : option Packet :=
  match Flv.tag_data tag with
  | Flv.TagAudio a =>
      match Flv.audio_body a with
      | Flv.AudioAac (Flv.AacRaw data) =>
          let '(sample, duration) := CodecAac.trun_sample data in
          Some (mkPacket data duration sample true false)
      | _ => None
      end
  | Flv.TagVideo v =>
      let frame_type := Flv.frame_type v in
      match Flv.video_body v with
      | Flv.VideoAvc (Flv.AvcNalu composition_time data) =>
          let composition_time := F64.as_u32 (composition_ticks settings composition_time) in
          Some (mkPacket data duration (CodecAvc.trun_sample frame_type composition_time duration data)
                  false (is_key frame_type))
      | Flv.VideoEnhanced (Flv.EAv1 (Flv.Av1Raw data)) =>
          Some (mkPacket data duration (CodecAv1.trun_sample frame_type duration data) false (is_key frame_type))
      | Flv.VideoEnhanced (Flv.EHevc (Flv.HevcNalu composition_time data)) =>
          let composition_time := F64.as_i32 (composition_ticks settings (default 0 composition_time)) in
          Some (mkPacket data duration (CodecHevc.trun_sample frame_type composition_time duration data)
                  false (is_key frame_type))
      | _ => None
      end
  | _ => None
  end.

(** The fragment before its data offset is known. *)
Definition fragment (s : t) (p : Packet) : Traf.t DynBox.t :=
  let '(main_duration, main_id) := if is_audio p then (audio_duration s, 2) else (video_duration s, 1) in
  TrafOps.optimize (Traf.new (Tfhd.new main_id None None None None None)
    (Some (Trun.new [trun_sample p] None)) (Some (Tfdt.new main_duration))).

Definition set_data_offset (offset : Z) (r : Trun.t) : Trun.t :=
  Trun.mk (Trun.header r) (Some offset) (Trun.first_sample_flags r) (Trun.samples r).

(** [moof.traf.get_mut(0)] and the run in it, with the data offset. *)
Definition place (offset : Z) (moof : Moof.t DynBox.t) : option (Moof.t DynBox.t) :=
  match Moof.traf moof with
  | traf :: trafs =>
      match Traf.trun traf with
      | Some trun =>
          Some (Moof.mk (Moof.header moof) (Moof.mfhd moof)
            (Traf.mk (Traf.header traf) (Traf.tfhd traf) (Some (set_data_offset offset trun)) (Traf.sbgp traf)
               (Traf.subs traf) (Traf.tfdt traf) (Traf.unknown traf) :: trafs) (Moof.unknown moof))
      | None => None
      end
  | [] => None
  end.

(** The part of the loop after the [match]. *)
Definition segment (tag : Flv.FlvTag) (p : Packet) : X MediaSegment :=
  let* s := get in
  let moof := Moof.new (Mfhd.new (sequence_number s)) [fragment s p] in
  let moof_size := Moof.size DynBox.size moof in
  let* offset := checked_i 32 (swrap 32 moof_size + 8) in
  let* moof := unwrap (place offset moof) in
  let* writer := lift (written_by (
    Moof.mux DynBox.size DynBox.mux (list byte) moof ;;;
    Mp4Box.mux (Mdat.new [mdat_data p]))) in
  let* n := checked_u 32 (sequence_number s + 1) in
  modify (set_sequence_number n) ;;;
  if is_audio p
  then
    let* d := checked_u 64 (audio_duration s + total_duration p) in
    modify (set_audio_duration d) ;;;
    let* timestamp := checked_u 64 (d - total_duration p) in
    ret (mkSegment writer Audio false timestamp)
  else
    let* d := checked_u 64 (video_duration s + total_duration p) in
    modify (set_video_duration d) ;;;
    modify (set_last_video_timestamp (Flv.timestamp_ms tag)) ;;;
    let* timestamp := checked_u 64 (d - total_duration p) in
    ret (mkSegment writer Video (is_keyframe p) timestamp).

(** The loop of [mux]: [pending] is the queue, of which every turn takes the
    first tag. *)
Fixpoint mux_loop (settings : VideoSettings) (pending : list Flv.FlvTag) : X (option TransmuxResult) :=
  match pending with
  | [] => ret None
  | tag :: rest =>
      modify (set_tags rest) ;;;
      let* s := get in
      let duration := frame_duration settings (last_video_timestamp s) (Flv.timestamp_ms tag) in
      match packet_of settings duration tag with
      | None => mux_loop settings rest
      | Some p => let* segment := segment tag p in ret (Some (Media segment))
      end
  end.

Definition mux : X (option TransmuxResult) :=
  let* s := get in
  match settings s with
  | None =>
      let* found := lift (init_sequence s) in
      match found with
      | None => if 30 <? blen (tags s) then throw NoSequenceHeaders else ret None
      | Some (video_settings, audio_settings, writer) =>
          modify (set_settings (Some (video_settings, audio_settings))) ;;;
          ret (Some (InitSegment video_settings audio_settings writer))
      end
  | Some (video_settings, _) => mux_loop video_settings (tags s)
  end.

(** [demux]: every turn reads the size of the previous tag, so the bytes left,
    plus one, bound the turns; the tags read before an error are kept. *)
Fixpoint demux_loop (fuel : nat) (c : Cursor) : X unit :=
  match fuel with
  | O => out_of_fuel
  | S fuel =>
      if BytesCursorExt.remaining c =? 0 then ret tt
      else
        let '(r, c) := read_u32 c in
        lift (io r) ;;;
        if BytesCursorExt.remaining c =? 0 then ret tt
        else
          let '(r, c) := Flv.FlvTag_demux c in
          let* tag := lift (io r) in
          modify (add_tag tag) ;;;
          demux_loop fuel c
  end.

Definition demux (data : list byte) : X unit :=
  demux_loop (S (length data)) (cursor_new data).
End mux.
End Transmuxer.
