(* ===== verification/TransmuxerLaws.v ===== *)
(** * [scuffle-transmuxer]: what a media segment holds

    The fragment the transmuxer builds for one packet, in closed form: the
    boxes are well-formed, so they are written and read back, the data offset
    points at the media data, and the counters of the state advance as an
    abstract timeline says. *)

From Stdlib Require Import Strings.String.
From stdpp Require Import base sets list numbers.
From Stdlib Require Import Strings.Byte.
From S2P Require Import Prelude Io BytesCursor Aac Amf0 BitIo H264 Flv Mp4Box Mp4Movie Mp4Tables Mp4Fragment.
From S2P Require Import Mp4Esds Mp4Config Mp4Containers Mp4Dyn Mp4DynLaws Mp4Traf F64 Transmuxer.

Module SegmentLaws.
Import Transmuxer DynLaws TotalParse.

(** ** The fragment of one sample *)

Definition cto_version (c : option Z) : Z := match c with Some z => if z <? 0 then 1 else 0 | None => 0 end.

(** A composition offset of zero is left out. *)
Definition cto_kept (c : option Z) : option Z := if bool_decide (c = Some 0) then None else c.

Definition single_tfhd (id d z : Z) : Tfhd.t :=
  Tfhd.mk (FullBoxHeader.mk (BoxHeader.new Tfhd.NAME) 0 131096) id None None (Some d) (Some z) None.

Definition single_trun (f : TrunSampleFlag.t) (c : option Z) (offset : Z) : Trun.t :=
  Trun.mk (FullBoxHeader.mk (BoxHeader.new Trun.NAME) (cto_version c) (if is_some (cto_kept c) then 3073 else 1025))
    (Some offset) None [Trun.mkSample None None (Some f) (cto_kept c)].

Definition single_traf (id base d z : Z) (f : TrunSampleFlag.t) (c : option Z) (offset : Z) : Traf.t DynBox.t :=
  Traf.mk (BoxHeader.new Traf.NAME) (single_tfhd id d z) (Some (single_trun f c offset)) None None
    (Some (Tfdt.new base)) [].

Definition single_moof (n id base d z : Z) (f : TrunSampleFlag.t) (c : option Z) (offset : Z) : Moof.t DynBox.t :=
  Moof.new (Mfhd.new n) [single_traf id base d z f c offset].

Lemma optimize_single id base d z f c :
  TrafOps.optimize (Traf.new (Tfhd.new id None None None None None)
    (Some (Trun.new [Trun.mkSample (Some d) (Some z) (Some f) c] None)) (Some (Tfdt.new base))) =
  single_traf id base d z f c 0.
Proof.
  unfold single_traf, single_trun, cto_kept, cto_version.
  unfold TrafOps.optimize, TrafOps.rewrite_run, TrafOps.optimize_flags, TrafOps.optimize_offsets. simpl.
  destruct c as [v|]; simpl; [|done].
  rewrite andb_true_r, orb_false_r. case_bool_decide as Hc; simpl; [|destruct (v <? 0); done].
  simplify_eq. done.
Qed.

Lemma place_single n id base d z f c offset :
  place offset (single_moof n id base d z f c 0) = Some (single_moof n id base d z f c offset).
Proof. done. Qed.

(** The sample [s] of a packet, within the widths of its fields. *)
Definition sample_ok (d z : Z) (f : TrunSampleFlag.t) (c : option Z) : Prop :=
  fits 32 d /\ fits 32 z /\ TrunSampleFlag.wf f /\ TrunSampleFlag.validate f = Ok tt /\
  match c with Some v => - 2 ^ 31 <= v < 2 ^ 32 | None => True end.

Section single.
Context `{BO : ByteOrder} (n id base d z : Z) (f : TrunSampleFlag.t) (c : option Z) (offset : Z).
Context (Hn : fits 32 n) (Hid : fits 32 id) (Hbase : fits 64 base) (Hs : sample_ok d z f c)
  (Hoff : - 2 ^ 31 <= offset < 2 ^ 31).

Lemma single_tfhd_ok : Tfhd.wf (single_tfhd id d z) /\ Tfhd.validate (single_tfhd id d z) = Ok tt.
Proof.
  destruct Hs as (Hd & Hz & _). split; [|done].
  unfold Tfhd.wf, FullBoxHeader.wf, fits in *; simpl. split_and!; try done; lia.
Qed.

Lemma single_trun_ok : Trun.wf (single_trun f c offset) /\ Trun.validate (single_trun f c offset) = Ok tt.
Proof.
  destruct Hs as (_ & _ & Hf & Hv & Hc). split.
  - unfold Trun.wf, FullBoxHeader.wf, single_trun, cto_version, cto_kept. simpl.
    destruct c as [v|]; [case_bool_decide|]; simplify_eq; simpl.
    all: try destruct (Z.ltb_spec v 0); simpl; unfold fits, blen; simpl; split_and!; try done; try lia.
    all: apply List.Forall_cons_iff; split; [|constructor]; unfold Trun.sample_wf; simpl; split_and!; try done.
    all: unfold Trun.offset_wf, fits; simpl; lia.
  - apply TrafOps.validate_shape. unfold TrafOps.shape, TrafOps.offset_ok, TrafOps.version_of, TrafOps.has.
    unfold single_trun, cto_version, cto_kept. cbn [Trun.samples].
    rewrite !TrafOps.forall_cons, !TrafOps.forall_nil. simpl. rewrite Hv.
    destruct c as [v|]; [case_bool_decide|]; simplify_eq; simpl.
    all: try destruct (Z.ltb_spec v 0); unfold i32_max, u32_max; split_and!; try done; try lia.
Qed.

Definition trun_size : Z := if is_some (cto_kept c) then 28 else 24.
Definition tfdt_size : Z := if u32_max <? base then 20 else 16.

Lemma single_trun_size : DynBox.size (DynBox.Trun (single_trun f c offset)) = trun_size.
Proof. unfold trun_size, single_trun. destruct (is_some (cto_kept c)); reflexivity. Qed.

Lemma single_tfdt_size : DynBox.size (DynBox.Tfdt (Tfdt.new base)) = tfdt_size.
Proof. unfold tfdt_size, Tfdt.new. simpl. destruct (u32_max <? base); reflexivity. Qed.

Lemma single_traf_size :
  DynBox.size (DynBox.Traf (single_traf id base d z f c offset)) = 32 + tfdt_size + trun_size.
Proof.
  pose proof single_trun_size as E1. pose proof single_tfdt_size as E2. simpl in E1, E2.
  change (DynBox.size (DynBox.Traf (single_traf id base d z f c offset)))
    with (box_size (24 + Mp4Box.size (single_trun f c offset) + 0 + 0 + Mp4Box.size (Tfdt.new base) + 0)).
  rewrite E1, E2. unfold box_size, trun_size, tfdt_size, u32_max. repeat case_match; lia.
Qed.

Lemma single_moof_size :
  DynBox.size (DynBox.Moof (single_moof n id base d z f c offset)) = 56 + tfdt_size + trun_size.
Proof.
  pose proof single_traf_size as E.
  change (DynBox.size (DynBox.Moof (single_moof n id base d z f c offset)))
    with (box_size (16 + (DynBox.size (DynBox.Traf (single_traf id base d z f c offset)) + 0) + 0)).
  rewrite E. unfold box_size, trun_size, tfdt_size, u32_max. repeat case_match; lia.
Qed.

Lemma single_sizes : trun_size < 2 ^ 50 /\ tfdt_size < 2 ^ 50 /\ 32 + tfdt_size + trun_size < 2 ^ 50 /\
  56 + tfdt_size + trun_size <= 104.
Proof. unfold trun_size, tfdt_size. repeat case_match; lia. Qed.

Lemma single_tfdt_ok : Tfdt.wf (Tfdt.new base) /\ Tfdt.validate (Tfdt.new base) = Ok tt.
Proof.
  unfold Tfdt.wf, Tfdt.validate, Tfdt.new, FullBoxHeader.wf, fits, u32_max in *. simpl.
  destruct (Z.ltb_spec (2 ^ 32 - 1) base); simpl; split_and!; try done; try lia.
Qed.
End single.
(** ** Written and read back *)

Lemma every_leaf P b : P b -> children b = [] -> every P b.
Proof. intros Hb E. apply every_node; [done|]. rewrite E. intros x Hx. by apply elem_of_nil in Hx. Qed.

Section boxes.
Context `{BO : ByteOrder}.

Lemma single_moof_every n id base d z f c offset :
  fits 32 n -> fits 32 id -> fits 64 base -> sample_ok d z f c -> - 2 ^ 31 <= offset < 2 ^ 31 ->
  let b := DynBox.Moof (single_moof n id base d z f c offset) in every local_wf b /\ every local_fair b.
Proof.
  intros Hn Hid Hbase Hs Hoff b. destruct (single_sizes base c) as (S1 & S2 & S3 & S4).
  destruct (single_tfhd_ok id d z f c Hid Hs) as [W1 V1].
  destruct (single_trun_ok d z f c offset Hs Hoff) as [W2 V2]. destruct (single_tfdt_ok base Hbase) as [W3 V3].
  pose proof (single_traf_size id base d z f c offset) as T1. pose proof (single_moof_size n id base d z f c offset) as T2.
  assert (forall P, P b -> P (DynBox.Mfhd (Mfhd.new n)) -> P (DynBox.Traf (single_traf id base d z f c offset)) ->
    P (DynBox.Tfhd (single_tfhd id d z)) -> P (DynBox.Tfdt (Tfdt.new base)) ->
    P (DynBox.Trun (single_trun f c offset)) -> every P b) as Hev.
  { intros P P0 P1 P2 P3 P4 P5. apply every_node; [done|]. intros x Hx. cbn in Hx.
    repeat (apply elem_of_cons in Hx as [->|Hx]); [by apply every_leaf| |by apply elem_of_nil in Hx].
    apply every_node; [done|]. intros y Hy. cbn in Hy.
    repeat (apply elem_of_cons in Hy as [->|Hy]); try (by apply every_leaf). by apply elem_of_nil in Hy. }
  split; apply Hev; try exact W1; try exact W2; try exact W3; try (by split_and!); try (split; [|done]); subst b; try (rewrite ?T1, ?T2; lia); try done.
  - by rewrite single_tfdt_size.
  - by rewrite single_trun_size.
Qed.

Lemma written_by_puts m bs : puts m bs -> written_by m = Ok bs.
Proof. intros Hm. destruct (Hm []) as (w & E & Hw). unfold written_by. rewrite E. simpl in Hw. by rewrite Hw. Qed.

Lemma mdat_good payload : blen payload + 8 <= u32_max ->
  good (DynBox.Mdat (Mdat.new [payload])) /\
  bytes (DynBox.Mdat (Mdat.new [payload])) = be_bytes 4 (blen payload + 8) ++ str "mdat" ++ payload.
Proof.
  intros Hl. pose proof (blen_nonneg payload). unfold u32_max in Hl.
  assert (DynBox.size (DynBox.Mdat (Mdat.new [payload])) = blen payload + 8) as Hs.
  { change (DynBox.size (DynBox.Mdat (Mdat.new [payload]))) with (box_size (blen payload + 0)).
    unfold box_size, u32_max. cbv zeta. destruct (Z.ltb_spec (2 ^ 32 - 1) (blen payload + 0 + 8)); lia. }
  split.
  - apply dyn_good; (apply every_leaf; [|done]); [split; [done|by eexists]|]. split; [rewrite Hs; lia|done].
  - apply puts_output.
    assert (frame Mdat.NAME payload = be_bytes 4 (blen payload + 8) ++ str "mdat" ++ payload) as <-.
    { unfold frame, u32_max. cbv zeta. rewrite (proj2 (Z.ltb_ge _ _)) by lia. done. }
    refine (proj2 (mux_frames Mdat.NAME (fun W HW => Mdat.primitive_mux W (Mdat.new [payload]))
      (Mdat.primitive_size (Mdat.new [payload])) payload eq_refl _ _ _) (list byte) _ _).
    + unfold Mdat.primitive_size; simpl. lia.
    + lia.
    + intros W HW HL. rewrite <-(app_nil_r payload) at 2.
      change (puts ((write_all payload ;;; ret tt) ;;; ret tt) (payload ++ [])).
      apply puts_assoc. eapply puts_bind; [apply puts_all|]. apply puts_skip, puts_ret.
Qed.

(** ** One segment *)

Definition track_id (ty : MediaType) : Z := match ty with Video => 1 | Audio => 2 end.

(** [bs] is a fragment with one run of one sample and then the media data: read
    as boxes it is a [moof] and an [mdat] with nothing after them; the numbers
    in the [moof] are those given, and its data offset leads to the data. *)
Definition carries (bs : list byte) (ty : MediaType) (n base duration : Z) (flags : TrunSampleFlag.t)
    (offset : Z) (payload : list byte) : Prop :=
  exists moof traf trun c,
    DynBoxDemux.demux (cursor_new bs) = (Ok (DynBox.Moof moof), c) /\
    DynBoxDemux.demux c = (Ok (DynBox.Mdat (Mdat.new [payload])), at_pos bs []) /\
    Mfhd.sequence_number (Moof.mfhd moof) = n /\ Moof.traf moof = [traf] /\
    Tfhd.track_id (Traf.tfhd traf) = track_id ty /\ Traf.tfdt traf = Some (Tfdt.new base) /\
    TrafOps.effective traf =
      [Trun.mkSample (Some duration) (Some (blen payload)) (Some flags) (Some offset)] /\
    Traf.trun traf = Some trun /\
    exists data_offset, Trun.data_offset trun = Some data_offset /\ drop (Z.to_nat data_offset) bs = payload.

Lemma cto_kept_value c : default 0 (cto_kept c) = default 0 c.
Proof. unfold cto_kept. case_bool_decide; simplify_eq; done. Qed.

Lemma demux_good b pre post : good b -> DynBoxDemux.demux (at_pos pre (bytes b ++ post)) = (Ok b, at_pos (pre ++ bytes b) post).
Proof.
  intros (_ & _ & _ & Ht). unfold DynBoxDemux.demux. erewrite bind_ok by done. apply Ht; [|done].
  rewrite cursor_rest_at, length_app. lia.
Qed.

Lemma moof_size_eq m : Moof.size DynBox.size m = DynBox.size (DynBox.Moof m).
Proof. reflexivity. Qed.

Lemma moof_mux_eq W (HW : IoWrite W) m : Moof.mux DynBox.size DynBox.mux W m = DynBox.mux W HW (DynBox.Moof m).
Proof. reflexivity. Qed.

Lemma mdat_mux_eq W (HW : IoWrite W) (m : Mdat.t) : Mp4Box.mux m = DynBox.mux W HW (DynBox.Mdat m).
Proof. reflexivity. Qed.

(** From the bytes of the two boxes to the segment. *)
Lemma segment_layout ty n base d f c payload offset b1 b2 :
  let moof := single_moof n (track_id ty) base d (blen payload) f c offset in
  offset = blen b1 + 8 ->
  puts (DynBox.mux (list byte) _ (DynBox.Moof moof)) b1 ->
  puts (DynBox.mux (list byte) _ (DynBox.Mdat (Mdat.new [payload]))) b2 ->
  (forall pre post, DynBoxDemux.demux (at_pos pre (b1 ++ post)) = (Ok (DynBox.Moof moof), at_pos (pre ++ b1) post)) ->
  (forall pre post, DynBoxDemux.demux (at_pos pre (b2 ++ post)) =
    (Ok (DynBox.Mdat (Mdat.new [payload])), at_pos (pre ++ b2) post)) ->
  b2 = be_bytes 4 (blen payload + 8) ++ str "mdat" ++ payload ->
  exists bs, written_by (Moof.mux DynBox.size DynBox.mux (list byte) moof ;;; Mp4Box.mux (Mdat.new [payload])) = Ok bs /\
    carries bs ty n base d f (default 0 c) payload.
Proof.
  intros moof Ho P1 P2 D1 D2 E2. exists (b1 ++ b2). split.
  { apply written_by_puts. rewrite moof_mux_eq, (mdat_mux_eq (list byte) _). by apply puts_bind. }
  exists moof, (single_traf (track_id ty) base d (blen payload) f c offset), (single_trun f c offset), (at_pos b1 b2).
  split; [exact (D1 [] b2)|]. split.
  { specialize (D2 b1 []). by rewrite app_nil_r in D2. }
  clear D1 D2 P1 P2. split_and!; try reflexivity.
  - unfold TrafOps.effective, TrafOps.effective_run, TrafOps.effective_sample. simpl. by rewrite cto_kept_value.
  - exists offset. split; [reflexivity|]. rewrite E2, !app_assoc. apply drop_app_length'.
    rewrite !length_app, length_be_bytes. unfold blen in Ho. simpl. lia.
Qed.

Lemma segment_carries ty n base d f c payload moof_size :
  fits 32 n -> fits 64 base -> sample_ok d (blen payload) f c -> blen payload + 8 <= u32_max ->
  DynBox.size (DynBox.Moof (single_moof n (track_id ty) base d (blen payload) f c 0)) = moof_size ->
  let moof := single_moof n (track_id ty) base d (blen payload) f c (moof_size + 8) in
  exists bs, written_by (Moof.mux DynBox.size DynBox.mux (list byte) moof ;;; Mp4Box.mux (Mdat.new [payload])) = Ok bs /\
    carries bs ty n base d f (default 0 c) payload.
Proof.
  intros Hn Hb Hs Hl Hsize moof.
  pose proof (single_moof_size n (track_id ty) base d (blen payload) f c 0) as E0.
  pose proof (single_moof_size n (track_id ty) base d (blen payload) f c (moof_size + 8)) as E1.
  destruct (single_sizes base c) as (_ & _ & _ & Hle).
  assert (0 <= moof_size <= 104) as Hm.
  { rewrite <-Hsize, E0. split; [|done]. unfold tfdt_size, trun_size. repeat case_match; lia. }
  destruct (single_moof_every n (track_id ty) base d (blen payload) f c (moof_size + 8)) as [Hw Hf];
    [done|destruct ty; done|done|done|lia|].
  pose proof (dyn_good _ Hw Hf) as Hg. pose proof Hg as (Hp & Hlen & _ & _).
  destruct (mdat_good payload Hl) as [Hg' Eb]. pose proof Hg' as (Hp' & _ & _ & _).
  apply (segment_layout ty n base d f c payload (moof_size + 8) (bytes (DynBox.Moof moof))
    (bytes (DynBox.Mdat (Mdat.new [payload])))); [|apply Hp|apply Hp'| | |exact Eb].
  { subst moof. rewrite Hlen, E1, <-E0, Hsize. reflexivity. }
  - intros pre post. by apply demux_good.
  - intros pre post. by apply demux_good.
Qed.
End boxes.

(** ** Packets *)

(** What a tag is to the transmuxer: the medium, whether it is a key frame, and
    the data. *)
Definition media (tag : Flv.FlvTag) : option (MediaType * bool * list byte) :=
  match Flv.tag_data tag with
  | Flv.TagAudio a =>
      match Flv.audio_body a with Flv.AudioAac (Flv.AacRaw data) => Some (Audio, true, data) | _ => None end
  | Flv.TagVideo v =>
      let key := is_key (Flv.frame_type v) in
      match Flv.video_body v with
      | Flv.VideoAvc (Flv.AvcNalu _ data) | Flv.VideoEnhanced (Flv.EAv1 (Flv.Av1Raw data))
      | Flv.VideoEnhanced (Flv.EHevc (Flv.HevcNalu _ data)) => Some (Video, key, data)
      | _ => None
      end
  | _ => None
  end.

Definition is_audio_type (ty : MediaType) : bool := match ty with Audio => true | Video => false end.

(** The composition time offset of a tag, in ticks. *)
Definition offset_of (settings : VideoSettings) (tag : Flv.FlvTag) : Z :=
  match Flv.tag_data tag with
  | Flv.TagVideo v =>
      match Flv.video_body v with
      | Flv.VideoAvc (Flv.AvcNalu composition_time _) => F64.as_u32 (composition_ticks settings composition_time)
      | Flv.VideoEnhanced (Flv.EHevc (Flv.HevcNalu composition_time _)) =>
          F64.as_i32 (composition_ticks settings (default 0 composition_time))
      | _ => 0
      end
  | _ => 0
  end.

Definition duration_of (ty : MediaType) (frame_duration : Z) : Z :=
  match ty with Audio => 1024 | Video => frame_duration end.

Lemma sample_flags_ok key : TrunSampleFlag.wf (sample_flags key) /\ TrunSampleFlag.validate (sample_flags key) = Ok tt.
Proof. destruct key; split; [vm_compute|done|vm_compute|done]; repeat split; done. Qed.

Lemma packet_none settings duration tag : media tag = None -> packet_of settings duration tag = None.
Proof. unfold media, packet_of. repeat case_match; done. Qed.

Lemma packet_some settings duration tag ty key payload : fits 32 duration -> blen payload <= u32_max ->
  media tag = Some (ty, key, payload) ->
  exists c, packet_of settings duration tag = Some (mkPacket payload (duration_of ty duration)
      (Trun.mkSample (Some (duration_of ty duration)) (Some (blen payload)) (Some (sample_flags key)) c)
      (is_audio_type ty) (key && negb (is_audio_type ty))) /\
    sample_ok (duration_of ty duration) (blen payload) (sample_flags key) c /\
    default 0 c = offset_of settings tag.
Proof.
  intros Hd Hl Hm. pose proof (blen_nonneg payload). unfold u32_max in Hl.
  assert (wrap 32 (blen payload) = blen payload) as Hw by (apply wrap_fits_id; unfold fits; lia).
  pose proof (sample_flags_ok key) as [Hf Hv].
  assert (forall c, match c with Some v => - 2 ^ 31 <= v < 2 ^ 32 | None => True end ->
    sample_ok (duration_of ty duration) (blen payload) (sample_flags key) c) as Hok.
  { intros c Hc. unfold sample_ok. split_and!; try done; [destruct ty; done|unfold fits; lia]. }
  unfold media, packet_of, offset_of in *.
  repeat case_match; simplify_eq/=; unfold CodecAac.trun_sample, CodecAvc.trun_sample, CodecAv1.trun_sample,
    CodecHevc.trun_sample in *; simplify_eq/=; rewrite ?Hw, ?andb_true_r; eexists; (split; [reflexivity|]);
    split; try reflexivity; apply Hok; try done.
  - match goal with |- context [F64.as_u32 ?x] => pose proof (F64.as_u32_fits x) as Hu end. unfold fits in Hu. lia.
  - match goal with |- context [F64.as_i32 ?x] => pose proof (F64.as_i32_range x) as Hu end. lia.
Qed.

Lemma frame_duration_fits settings last ts : fits 32 (frame_duration settings last ts).
Proof. unfold frame_duration. repeat case_match; try (unfold fits; lia). apply F64.as_u32_fits. Qed.

(** ** The state after a segment *)

Definition clock (ty : MediaType) (s : t) : Z := match ty with Audio => audio_duration s | Video => video_duration s end.

Definition advance (ty : MediaType) (duration timestamp_ms : Z) (s : t) : t :=
  let s := set_sequence_number (sequence_number s + 1) s in
  match ty with
  | Audio => set_audio_duration (audio_duration s + duration) s
  | Video => set_last_video_timestamp timestamp_ms (set_video_duration (video_duration s + duration) s)
  end.

(** The counters have room for [k] more segments. *)
Definition room (k : Z) (s : t) : Prop :=
  0 <= sequence_number s /\ sequence_number s + k < 2 ^ 32 /\
  0 <= audio_duration s /\ audio_duration s + k * 2 ^ 32 < 2 ^ 64 /\
  0 <= video_duration s /\ video_duration s + k * 2 ^ 32 < 2 ^ 64.

Lemma room_advance k ty duration ts s : fits 32 duration -> room (k + 1) s -> room k (advance ty duration ts s).
Proof. unfold room, fits. destruct ty; simpl; lia. Qed.

Lemma room_mono k k' s : 0 <= k <= k' -> room k' s -> room k s.
Proof. unfold room. nia. Qed.

Section mux.
Context `{BO : ByteOrder} `{FP : FixedPoint}.

Lemma fragment_eq s ty payload d sample_size f c k :
  fragment s (mkPacket payload d (Trun.mkSample (Some d) (Some sample_size) (Some f) c) (is_audio_type ty) k) =
  single_traf (track_id ty) (clock ty s) d sample_size f c 0.
Proof. destruct ty; apply optimize_single. Qed.

Lemma segment_spec s tag ty key payload d c :
  room 1 s -> fits 32 d -> blen payload + 8 <= u32_max -> sample_ok d (blen payload) (sample_flags key) c ->
  exists bs, segment tag (mkPacket payload d
      (Trun.mkSample (Some d) (Some (blen payload)) (Some (sample_flags key)) c)
      (is_audio_type ty) (key && negb (is_audio_type ty))) s =
    (Ok (mkSegment bs ty (key && negb (is_audio_type ty)) (clock ty s)), advance ty d (Flv.timestamp_ms tag) s) /\
    carries bs ty (sequence_number s) (clock ty s) d (sample_flags key) (default 0 c) payload.
Proof.
  intros Hr Hd Hl Hs. unfold room in Hr. unfold fits in Hd.
  set (size := DynBox.size (DynBox.Moof (single_moof (sequence_number s) (track_id ty) (clock ty s) d (blen payload)
    (sample_flags key) c 0))).
  assert (0 <= size <= 104) as Hsz.
  { subst size. rewrite single_moof_size. pose proof (single_sizes (clock ty s) c) as (_ & _ & _ & Hle).
    split; [|done]. unfold tfdt_size, trun_size. repeat case_match; lia. }
  destruct (segment_carries ty (sequence_number s) (clock ty s) d (sample_flags key) c payload size) as (bs & Hw & Hc);
    [unfold fits; lia|destruct ty; unfold fits; simpl; lia|done|done|done|].
  exists bs. split; [|done]. unfold segment. erewrite bind_ok by done. rewrite fragment_eq.
  change (Moof.new (Mfhd.new (sequence_number s))
    [single_traf (track_id ty) (clock ty s) d (blen payload) (sample_flags key) c 0])
    with (single_moof (sequence_number s) (track_id ty) (clock ty s) d (blen payload) (sample_flags key) c 0).
  rewrite moof_size_eq. fold size.
  rewrite swrap_id by lia. erewrite bind_ok; [|apply checked_i_ok; lia].
  rewrite place_single. cbn [unwrap]. rewrite bind_ret.
  erewrite bind_ok; [|unfold lift; cbn [mdat_data]; rewrite Hw; reflexivity].
  erewrite bind_ok; [|apply checked_u_ok; unfold fits; lia]. erewrite bind_ok; [|reflexivity].
  destruct ty; cbn [is_audio is_audio_type total_duration clock] in *.
  - erewrite bind_ok; [|apply checked_u_ok; unfold fits; lia]. do 2 (erewrite bind_ok; [|reflexivity]).
    erewrite bind_ok; [|apply checked_u_ok; unfold fits; lia]. rewrite Z.add_simpl_r. done.
  - erewrite bind_ok; [|apply checked_u_ok; unfold fits; lia]. erewrite bind_ok; [|reflexivity].
    erewrite bind_ok; [|apply checked_u_ok; unfold fits; lia]. rewrite Z.add_simpl_r, andb_false_r. done.
Qed.

(** ** The queue *)

Lemma set_tags_twice a b s : set_tags a (set_tags b s) = set_tags a s.
Proof. done. Qed.

Lemma set_tags_same s : set_tags (tags s) s = s.
Proof. by destruct s. Qed.

Lemma mux_loop_skips vs skipped pending s : Forall (fun tag => media tag = None) skipped ->
  mux_loop vs (skipped ++ pending) (set_tags (skipped ++ pending) s) = mux_loop vs pending (set_tags pending s).
Proof.
  intros H. induction H as [|tag skipped Hm _ IH]; [done|]. cbn [app mux_loop].
  erewrite bind_ok; [|reflexivity]. erewrite bind_ok; [|reflexivity]. rewrite packet_none by done. apply IH.
Qed.

Lemma mux_loop_media vs tag rest s ty key payload :
  media tag = Some (ty, key, payload) -> room 1 s -> blen payload + 8 <= u32_max ->
  let d := duration_of ty (frame_duration vs (last_video_timestamp s) (Flv.timestamp_ms tag)) in
  exists bs, mux_loop vs (tag :: rest) (set_tags (tag :: rest) s) =
    (Ok (Some (Media (mkSegment bs ty (key && negb (is_audio_type ty)) (clock ty s)))),
     set_tags rest (advance ty d (Flv.timestamp_ms tag) s)) /\
    carries bs ty (sequence_number s) (clock ty s) d (sample_flags key) (offset_of vs tag) payload.
Proof.
  intros Hm Hr Hl d. pose proof (frame_duration_fits vs (last_video_timestamp s) (Flv.timestamp_ms tag)) as Hf.
  destruct (packet_some vs (frame_duration vs (last_video_timestamp s) (Flv.timestamp_ms tag)) tag ty key payload)
    as (c & Hp & Hs & Hc); [done|unfold u32_max in *; lia|done|].
  destruct (segment_spec (set_tags rest s) tag ty key payload d c) as (bs & Hseg & Hcar);
    [done|subst d; destruct ty; done|done|done|].
  exists bs. rewrite <-Hc. split; [|by destruct ty]. cbn [mux_loop].
  erewrite bind_ok; [|reflexivity]. erewrite bind_ok; [|reflexivity]. cbn [last_video_timestamp set_tags].
  rewrite Hp. fold d. rewrite set_tags_twice. erewrite bind_ok; [|exact Hseg]. by destruct ty.
Qed.

(** [while let Some(packet) = transmuxer.mux()? { .. }] *)
Fixpoint mux_all (fuel : nat) : X (list TransmuxResult) :=
  match fuel with
  | O => out_of_fuel
  | S fuel =>
      let* r := mux in
      match r with
      | None => ret []
      | Some x => let* xs := mux_all fuel in ret (x :: xs)
      end
  end.
End mux.

(** What the queue amounts to: one piece per packet, numbered consecutively,
    with the two tracks each laid out without gaps. *)
Record Piece := mkPiece {
  piece_type : MediaType;
  piece_number : Z;
  piece_start : Z;
  piece_duration : Z;
  piece_key : bool;
  piece_offset : Z;
  piece_data : list byte;
}.

Fixpoint timeline (vs : VideoSettings) (number audio video last : Z) (tags : list Flv.FlvTag) : list Piece :=
  match tags with
  | [] => []
  | tag :: tags =>
      match media tag with
      | None => timeline vs number audio video last tags
      | Some (Audio, key, data) =>
          mkPiece Audio number audio 1024 key 0 data :: timeline vs (number + 1) (audio + 1024) video last tags
      | Some (Video, key, data) =>
          let d := frame_duration vs last (Flv.timestamp_ms tag) in
          mkPiece Video number video d key (offset_of vs tag) data ::
            timeline vs (number + 1) audio (video + d) (Flv.timestamp_ms tag) tags
      end
  end.

(** The segment is the piece. *)
Definition realises `{ByteOrder} (piece : Piece) (segment : MediaSegment) : Prop :=
  ty segment = piece_type piece /\ timestamp segment = piece_start piece /\
  keyframe segment = piece_key piece && negb (is_audio_type (piece_type piece)) /\
  carries (data segment) (piece_type piece) (piece_number piece) (piece_start piece) (piece_duration piece)
    (sample_flags (piece_key piece)) (piece_offset piece) (piece_data piece).

(** The data of every packet fits an [mdat] box with a 32-bit size. *)
Definition sized (tag : Flv.FlvTag) : Prop :=
  match media tag with Some (_, _, payload) => blen payload + 8 <= u32_max | None => True end.

Section all.
Context `{BO : ByteOrder} `{FP : FixedPoint}.

Lemma mux_ready vs aud s : settings s = Some (vs, aud) -> mux s = mux_loop vs (tags s) s.
Proof. intros E. unfold mux. erewrite bind_ok; [|reflexivity]. by rewrite E. Qed.

Lemma advance_settings ty d ts s : settings (advance ty d ts s) = settings s.
Proof. by destruct ty. Qed.

Lemma media_audio_offset vs tag key payload : media tag = Some (Audio, key, payload) -> offset_of vs tag = 0.
Proof. unfold media, offset_of. repeat case_match; done. Qed.

Lemma mux_all_timeline vs aud pending : forall s fuel, settings s = Some (vs, aud) -> room (blen pending) s ->
  Forall sized pending -> (length pending < fuel)%nat ->
  exists segments s', mux_all fuel (set_tags pending s) = (Ok (Media <$> segments), s') /\
    tags s' = [] /\ settings s' = Some (vs, aud) /\
    Forall2 realises
      (timeline vs (sequence_number s) (audio_duration s) (video_duration s) (last_video_timestamp s) pending) segments.
Proof.
  induction pending as [|tag pending IH]; intros s fuel Hset Hr Hsz Hf.
  { destruct fuel as [|fuel]; [lia|]. exists [], (set_tags [] s). split; [|by repeat split].
    cbn [mux_all]. erewrite bind_ok; [|rewrite (mux_ready vs aud) by done; reflexivity]. done. }
  apply List.Forall_cons_iff in Hsz as [Ht Hsz]. unfold sized in Ht.
  assert (room (blen pending + 1) s) as Hr' by (unfold blen in *; simpl in Hr; replace (Z.of_nat (length pending) + 1) with (Z.of_nat (S (length pending))) by lia; done).
  destruct (media tag) as [[[ty key] payload]|] eqn:Hm.
  - destruct fuel as [|fuel]; [lia|]. simpl in Hf.
    destruct (mux_loop_media vs tag pending s ty key payload Hm) as (bs & Hmux & Hcar);
      [apply (room_mono 1) in Hr'; [done|pose proof (blen_nonneg pending); lia]|done|].
    set (d := duration_of ty (frame_duration vs (last_video_timestamp s) (Flv.timestamp_ms tag))) in *.
    set (s1 := advance ty d (Flv.timestamp_ms tag) s) in *.
    assert (fits 32 d) as Hd by (subst d; destruct ty; [apply frame_duration_fits|done]).
    destruct (IH s1 fuel) as (segments & s' & Hall & H1 & H2 & H3);
      [subst s1; by rewrite advance_settings|by apply room_advance|done|lia|].
    exists (mkSegment bs ty (key && negb (is_audio_type ty)) (clock ty s) :: segments), s'.
    split; [|split; [done|split; [done|]]].
    + cbn [mux_all]. erewrite bind_ok; [|rewrite (mux_ready vs aud) by done; exact Hmux]. cbv beta iota.
      erewrite bind_ok; [|exact Hall]. done.
    + simpl. rewrite Hm. subst s1. destruct ty; simpl in *; constructor; try done.
      rewrite (media_audio_offset vs tag key payload Hm) in Hcar. done.
  - destruct (IH s fuel) as (segments & s' & Hall & H1 & H2 & H3);
      [done|apply (room_mono (blen pending)) in Hr'; [done|pose proof (blen_nonneg pending); lia]|done|simpl in Hf; lia|].
    exists segments, s'. split; [|split; [done|split; [done|simpl; by rewrite Hm]]].
    destruct fuel as [|fuel]; [simpl in Hf; lia|]. cbn [mux_all] in *.
    assert (mux (set_tags (tag :: pending) s) = mux (set_tags pending s)) as Hmux.
    { rewrite !(mux_ready vs aud) by done. apply (mux_loop_skips vs [tag]). by constructor. }
    unfold bind in *. by rewrite Hmux.
Qed.
End all.
End SegmentLaws.
