(* ===== verification/TransmuxerInit.v ===== *)
(** * [scuffle-transmuxer]: the init segment

    The [ftyp] and [moov] boxes that [init_sequence] writes, around the sample
    entries of the two tracks: if the entries can be written and read back, so
    can the init segment. *)

From Stdlib Require Import Strings.String.
From stdpp Require Import base sets list numbers.
From Stdlib Require Import Strings.Byte.
From S2P Require Import Prelude Io BytesCursor Aac Amf0 BitIo H264 H264Sps Flv Mp4Box Mp4Movie Mp4Tables.
From S2P Require Import Mp4Fragment Mp4Esds Mp4Config Mp4Containers Mp4Dyn Mp4DynLaws Mp4Codec Mp4Theorems.
From S2P Require Import F64 Transmuxer TransmuxerLaws.

Module InitLaws.
Import Transmuxer DynLaws TotalParse SegmentLaws.

Section init.
Context `{BO : ByteOrder} `{FP : FixedPoint}.

(** Well-formed and accepted by the writer. *)
Definition ok (b : DynBox.t) : Prop := local_wf b /\ local_fair b.

Lemma every_and b : every ok b -> every local_wf b /\ every local_fair b.
Proof.
  induction 1 as [b [Hw Hf] _ IH].
  split; (apply every_node; [assumption|intros x Hx; destruct (IH x Hx); assumption]).
Qed.

Lemma box_size_bound n : 0 <= n -> n + 8 <= box_size n <= n + 16.
Proof. intros. unfold box_size, u32_max. cbv zeta. case_match; lia. Qed.

(** A box and the boxes inside it, of at most [n] bytes. *)
Definition fine (n : Z) (b : DynBox.t) : Prop := every ok b /\ 0 <= DynBox.size b <= n.

Lemma fine_mono m n b : m <= n -> fine m b -> fine n b.
Proof. intros ? [H1 H2]. split; [exact H1|lia]. Qed.

(** A container is fine if its own header is and the boxes inside it are. *)
Lemma fine_container n b : n < 2 ^ 50 -> local_wf b ->
  match b with DynBox.Stsd b => Stsd.validate b = Ok tt | DynBox.Dref b => Dref.validate b = Ok tt
  | DynBox.Moov _ | DynBox.Trak _ | DynBox.Mdia _ | DynBox.Minf _ | DynBox.Stbl _ | DynBox.Dinf _ | DynBox.Mvex _ =>
      True
  | _ => False end ->
  (forall x, x ∈ children b -> every ok x) -> 0 <= DynBox.size b <= n -> fine n b.
Proof.
  intros Hn Hw Hv Hc Hs. split; [|assumption]. apply every_node; [|assumption]. split; [assumption|].
  split; [lia|]. destruct b; exact Hv || exact I || destruct Hv.
Qed.

Lemma fine_leaf n b : local_wf b -> local_fair b -> children b = [] -> 0 <= DynBox.size b <= n -> fine n b.
Proof. intros. split; [|assumption]. apply every_leaf; [split; assumption|assumption]. Qed.
End init.

(** Check a leaf of constant size. *)
Ltac leaf_tac := apply fine_leaf; [Mp4.conj_tac|Mp4.conj_tac|reflexivity|vm_compute; split; congruence].

(** The boxes inside a container, one by one. *)
Ltac children_tac :=
  let x := fresh "x" in let Hx := fresh "Hx" in
  intros x Hx; cbn in Hx;
  repeat (apply elem_of_cons in Hx as [->|Hx]; [eapply proj1; eassumption|]);
  by apply elem_of_nil in Hx.

Section tracks.
Context `{BO : ByteOrder} `{FP : FixedPoint}.

(** The sizes of containers. *)
Lemma stbl_size_eq b : DynBox.size (DynBox.Stbl b) = Stbl.size DynBox.size b.
Proof. reflexivity. Qed.
Lemma dinf_size_eq b : DynBox.size (DynBox.Dinf b) = Dinf.size DynBox.size b.
Proof. reflexivity. Qed.
Lemma minf_size_eq b : DynBox.size (DynBox.Minf b) = Minf.size DynBox.size b.
Proof. reflexivity. Qed.
Lemma mdia_size_eq b : DynBox.size (DynBox.Mdia b) = Mdia.size DynBox.size b.
Proof. reflexivity. Qed.
Lemma trak_size_eq b : DynBox.size (DynBox.Trak b) = Trak.size DynBox.size b.
Proof. reflexivity. Qed.
Lemma mvex_size_eq b : DynBox.size (DynBox.Mvex b) = Mvex.size DynBox.size b.
Proof. reflexivity. Qed.
Lemma moov_size_eq b : DynBox.size (DynBox.Moov b) = Moov.size DynBox.size b.
Proof. reflexivity. Qed.

Lemma stsd_fine n entry : n < 2 ^ 40 -> fine n entry -> fine (n + 24) (DynBox.Stsd (Stsd.new [entry])).
Proof.
  intros Hn He. pose proof He as [_ Hs].
  apply fine_container; [lia|split; [Mp4.conj_tac|done]|done|children_tac|].
  change (DynBox.size (DynBox.Stsd (Stsd.new [entry]))) with (box_size (4 + 4 + (DynBox.size entry + 0))).
  pose proof (box_size_bound (4 + 4 + (DynBox.size entry + 0))). lia.
Qed.

Lemma stbl_fine n entry : n < 2 ^ 40 -> fine n entry -> fine (n + 108) (DynBox.Stbl (stbl_of entry)).
Proof.
  intros Hn He. pose proof (stsd_fine n entry Hn He) as Hsd. pose proof Hsd as [_ Hs].
  assert (fine 16 (DynBox.Stts (Stts.new []))) as H1 by leaf_tac.
  assert (fine 16 (DynBox.Stsc (Stsc.new []))) as H2 by leaf_tac.
  assert (fine 16 (DynBox.Stco (Stco.new []))) as H3 by leaf_tac.
  assert (fine 20 (DynBox.Stsz (Stsz.new 0 []))) as H4 by leaf_tac.
  apply fine_container; [lia|by split|done|children_tac|].
  change (DynBox.size (DynBox.Stbl (stbl_of entry)))
    with (box_size (DynBox.size (DynBox.Stsd (Stsd.new [entry])) + 16 + 0 + 16 + 20 + 0 + 16 + 0 + 0 + 0 + 0 + 0 + 0 + 0 + 0 + 0)).
  match goal with |- context [box_size ?x] => pose proof (box_size_bound x) end. lia.
Qed.

Lemma dinf_fine : fine 36 (DynBox.Dinf DynBox.dinf_new).
Proof.
  assert (fine 12 (DynBox.Url Url.new)) as H1 by leaf_tac.
  assert (fine 28 (DynBox.Dref DynBox.dref_new)) as H2.
  { apply fine_container; [lia|split; [Mp4.conj_tac|done]|done|children_tac|vm_compute; split; congruence]. }
  apply fine_container; [lia|by split|done|children_tac|vm_compute; split; congruence].
Qed.

Lemma vmhd_fine : fine 20 (DynBox.Vmhd Vmhd.new).
Proof. leaf_tac. Qed.

Lemma smhd_fine smhd : Smhd.new = Some smhd -> fine 16 (DynBox.Smhd smhd).
Proof.
  unfold Smhd.new. rewrite from_num_ok by (vm_compute; split; congruence). simpl. intros [= <-]. leaf_tac.
Qed.

(** A media information box with one of the two headers. *)
Lemma minf_fine n entry vmhd smhd : n < 2 ^ 40 -> fine n entry ->
  (forall b, vmhd = Some b -> fine 20 (DynBox.Vmhd b)) -> (forall b, smhd = Some b -> fine 16 (DynBox.Smhd b)) ->
  fine (n + 200) (DynBox.Minf (DynBox.minf_new (stbl_of entry) vmhd smhd)).
Proof.
  intros Hn He Hv Hsm. pose proof (stbl_fine n entry Hn He) as Hst. pose proof Hst as [_ Hs].
  pose proof dinf_fine as Hd. pose proof Hd as [_ Hds].
  assert (0 <= opt_size Mp4Box.size vmhd <= 20) as Hvs.
  { destruct vmhd as [b|]; simpl; [|lia]. destruct (Hv b eq_refl) as [_ Hb]. exact Hb. }
  assert (0 <= opt_size Mp4Box.size smhd <= 16) as Hss.
  { destruct smhd as [b|]; simpl; [|lia]. destruct (Hsm b eq_refl) as [_ Hb]. exact Hb. }
  apply fine_container; [lia|by split|done| |].
  - intros x Hx. change (children _) with ((DynBox.Vmhd <$> option_list vmhd) ++ (DynBox.Smhd <$> option_list smhd) ++
      [DynBox.Dinf DynBox.dinf_new; DynBox.Stbl (stbl_of entry)]) in Hx.
    apply elem_of_app in Hx as [(b & -> & Hb)%list_elem_of_fmap|Hx].
    { destruct vmhd; simpl in Hb; [|by apply elem_of_nil in Hb].
      apply list_elem_of_singleton in Hb as ->. exact (proj1 (Hv _ eq_refl)). }
    apply elem_of_app in Hx as [(b & -> & Hb)%list_elem_of_fmap|Hx].
    { destruct smhd; simpl in Hb; [|by apply elem_of_nil in Hb].
      apply list_elem_of_singleton in Hb as ->. exact (proj1 (Hsm _ eq_refl)). }
    apply elem_of_cons in Hx as [->|Hx]; [exact (proj1 Hd)|].
    apply list_elem_of_singleton in Hx as ->. exact (proj1 Hst).
  - rewrite minf_size_eq. unfold Minf.size, Minf.primitive_size. cbn [DynBox.minf_new Minf.new Minf.vmhd Minf.smhd
      Minf.hmhd Minf.nmhd Minf.dinf Minf.stbl Minf.unknown]. rewrite stbl_size_eq in Hs. rewrite dinf_size_eq in Hds.
    unfold DynBox.dinf_new in Hds. simpl opt_size. simpl sum_of.
    match goal with |- context [box_size ?x] => pose proof (box_size_bound x) end. lia.
Qed.

Lemma mdhd_fine timescale : fits 32 timescale -> fine 32 (DynBox.Mdhd (Mdhd.new 0 0 timescale 0)).
Proof.
  intros Ht. apply fine_leaf; [|by Mp4.conj_tac|reflexivity|vm_compute; split; congruence].
  cbn. unfold Mdhd.wf, FullBoxHeader.wf, fits in *. simpl. split_and!; try done; lia.
Qed.

Lemma hdlr_fine handler name : (handler, name) = (HandlerType.Vide, str "VideoHandler") \/
  (handler, name) = (HandlerType.Soun, str "SoundHandler") -> fine 45 (DynBox.Hdlr (Hdlr.new handler name)).
Proof. intros [[= -> ->]|[= -> ->]]; leaf_tac. Qed.

Lemma tkhd_fine id wh tkhd : id = 1 \/ id = 2 -> match wh with Some (w, h) => 0 <= w < 2 ^ 15 /\ 0 <= h < 2 ^ 15 | None => True end ->
  Tkhd.new 0 0 id 0 wh = Some tkhd -> fine 92 (DynBox.Tkhd tkhd).
Proof.
  intros Hid Hwh. unfold Tkhd.new.
  assert (exists w h, default (0, 0) wh = (w, h) /\ 0 <= w < 2 ^ 15 /\ 0 <= h < 2 ^ 15) as (w & h & -> & Hw & Hh).
  { destruct wh as [[w h]|]; simpl; eexists _, _; (split; [done|]); lia. }
  assert (exists v, (if is_some wh then from_num 16 8 0 else from_num 16 8 1) = Some v /\ - 2 ^ 15 <= v < 2 ^ 15)
    as (v & -> & Hv).
  { destruct (is_some wh); rewrite from_num_ok by (vm_compute; split; congruence); eexists; (split; [done|]); lia. }
  rewrite !from_num_ok by lia. cbn. intros [= <-].
  apply fine_leaf; [| |reflexivity|vm_compute; split; congruence].
  - cbn. unfold Tkhd.wf, FullBoxHeader.wf, fits in *. simpl. split_and!; try done; try lia.
    all: repeat constructor; lia.
  - split; [vm_compute; reflexivity|]. split; [exact I|]. destruct Hid as [-> | ->]; reflexivity.
Qed.

Lemma mdia_fine n mdhd hdlr minf : n < 2 ^ 45 -> fine 32 (DynBox.Mdhd mdhd) -> fine 45 (DynBox.Hdlr hdlr) ->
  fine n (DynBox.Minf minf) -> fine (n + 100) (DynBox.Mdia (Mdia.new mdhd hdlr minf)).
Proof.
  intros Hn H1 H2 H3. pose proof H1 as [_ S1]. pose proof H2 as [_ S2]. pose proof H3 as [_ S3].
  apply fine_container; [lia|by split|done|children_tac|].
  rewrite mdia_size_eq. unfold Mdia.size, Mdia.primitive_size. simpl sum_of. rewrite minf_size_eq in S3.
  cbn [Mdia.new Mdia.mdhd Mdia.hdlr Mdia.minf].
  change (DynBox.size (DynBox.Mdhd mdhd)) with (Mp4Box.size mdhd) in S1.
  change (DynBox.size (DynBox.Hdlr hdlr)) with (Mp4Box.size hdlr) in S2.
  match goal with |- context [box_size ?x] => pose proof (box_size_bound x) end. lia.
Qed.

Lemma trak_fine n tkhd mdia : n < 2 ^ 45 -> fine 92 (DynBox.Tkhd tkhd) -> fine n (DynBox.Mdia mdia) ->
  fine (n + 108) (DynBox.Trak (Trak.new tkhd None mdia)).
Proof.
  intros Hn H1 H2. pose proof H1 as [_ S1]. pose proof H2 as [_ S2].
  apply fine_container; [lia|by split|done|children_tac|].
  rewrite trak_size_eq. unfold Trak.size, Trak.primitive_size. simpl sum_of. simpl opt_size. rewrite mdia_size_eq in S2.
  cbn [Trak.new Trak.tkhd Trak.mdia]. change (DynBox.size (DynBox.Tkhd tkhd)) with (Mp4Box.size tkhd) in S1.
  match goal with |- context [box_size ?x] => pose proof (box_size_bound x) end. lia.
Qed.

Lemma mvex_fine : fine 80 (DynBox.Mvex (Mvex.new [Trex.new 1; Trex.new 2] None)).
Proof.
  assert (fine 32 (DynBox.Trex (Trex.new 1))) as H1 by leaf_tac.
  assert (fine 32 (DynBox.Trex (Trex.new 2))) as H2 by leaf_tac.
  apply fine_container; [lia|by split|done|children_tac|vm_compute; split; congruence].
Qed.

Lemma mvhd_fine mvhd : Mvhd.new 0 0 1000 0 1 = Some mvhd -> fine 108 (DynBox.Mvhd mvhd).
Proof.
  unfold Mvhd.new. rewrite !from_num_ok by (vm_compute; split; congruence). cbn. intros [= <-]. leaf_tac.
Qed.

Lemma moov_fine n video timescale rate audio_entry moov : n < 2 ^ 40 -> fine n (entry video) -> fine n audio_entry ->
  fits 32 timescale -> fits 32 rate -> 0 <= info_width video < 2 ^ 15 -> 0 <= info_height video < 2 ^ 15 ->
  moov_of video timescale rate audio_entry = Some moov -> every ok (DynBox.Moov moov).
Proof.
  intros Hn Hv Ha Ht Hr Hw Hh. unfold moov_of, video_trak, audio_trak. intros E.
  apply bind_Some in E as (mvhd & E1 & E). apply bind_Some in E as (vt & E2 & E). apply bind_Some in E as (at_ & E3 & E).
  injection E as <-. apply bind_Some in E2 as (vk & K1 & E2). injection E2 as <-.
  apply bind_Some in E3 as (ak & K2 & E3). apply bind_Some in E3 as (smhd & K3 & E3). injection E3 as <-.
  pose proof (mvhd_fine mvhd E1) as F1. pose proof mvex_fine as F2.
  assert (fine (n + 200 + 100 + 108) (DynBox.Trak (Trak.new vk None (Mdia.new (Mdhd.new 0 0 timescale 0)
    (Hdlr.new HandlerType.Vide (str "VideoHandler")) (DynBox.minf_new (stbl_of (entry video)) (Some Vmhd.new) None))))) as F3.
  { apply trak_fine; [lia|apply (tkhd_fine 1 (Some (info_width video, info_height video))); auto|].
    apply mdia_fine; [lia|by apply mdhd_fine|apply hdlr_fine; by left|]. apply minf_fine; [done|done| |done].
    intros b [= <-]. apply vmhd_fine. }
  assert (fine (n + 200 + 100 + 108) (DynBox.Trak (Trak.new ak None (Mdia.new (Mdhd.new 0 0 rate 0)
    (Hdlr.new HandlerType.Soun (str "SoundHandler")) (DynBox.minf_new (stbl_of audio_entry) None (Some smhd)))))) as F4.
  { apply trak_fine; [lia|apply (tkhd_fine 2 None); auto|].
    apply mdia_fine; [lia|by apply mdhd_fine|apply hdlr_fine; by right|]. apply minf_fine; [done|done|done|].
    intros b [= <-]. by apply smhd_fine. }
  pose proof F1 as [_ S1]. pose proof F2 as [_ S2]. pose proof F3 as [_ S3]. pose proof F4 as [_ S4].
  refine (proj1 (_ : fine (2 * n + 1100) _)).
  apply fine_container; [lia|by split|done|children_tac|].
  rewrite moov_size_eq. unfold Moov.size, Moov.primitive_size. simpl sum_of. simpl opt_size.
  rewrite trak_size_eq in S3, S4. rewrite mvex_size_eq in S2. cbn [Moov.new Moov.mvhd Moov.traks Moov.mvex].
  change (DynBox.size (DynBox.Mvhd mvhd)) with (Mp4Box.size mvhd) in S1.
  match goal with |- context [box_size ?x] => pose proof (box_size_bound x) end. lia.
Qed.

(** The movie box can be built: the dimensions fit the fixed-point fields. *)
Lemma moov_total video timescale rate audio_entry :
  0 <= info_width video < 2 ^ 15 -> 0 <= info_height video < 2 ^ 15 ->
  exists moov, moov_of video timescale rate audio_entry = Some moov.
Proof.
  intros Hw Hh. unfold moov_of, video_trak, audio_trak, Mvhd.new, Tkhd.new, Smhd.new. cbn [is_some default].
  rewrite !from_num_ok by (vm_compute; split; congruence || lia). simpl.
  rewrite !from_num_ok by lia. by eexists.
Qed.

Lemma moov_mux_eq W (HW : IoWrite W) m : Moov.mux DynBox.size DynBox.mux W m = DynBox.mux W HW (DynBox.Moov m).
Proof. reflexivity. Qed.

Lemma ftyp_mux_eq W (HW : IoWrite W) (b : Ftyp.t) : Mp4Box.mux b = DynBox.mux W HW (DynBox.Ftyp b).
Proof. reflexivity. Qed.

(** Two boxes written one after the other and read back. *)
Lemma pair_read_back b1 b2 : every ok b1 -> every ok b2 ->
  exists bs, (forall W (HW : IoWrite W) (HL : IoWriteLaws W), puts (DynBox.mux W HW b1 ;;; DynBox.mux W HW b2) bs) /\
    blen bs = DynBox.size b1 + DynBox.size b2 /\
    exists c, DynBoxDemux.demux (cursor_new bs) = (Ok b1, c) /\ DynBoxDemux.demux c = (Ok b2, at_pos bs []).
Proof.
  intros H1%every_and H2%every_and. destruct H1 as [W1 F1], H2 as [W2 F2].
  pose proof (dyn_good _ W1 F1) as G1. pose proof (dyn_good _ W2 F2) as G2.
  exists (bytes b1 ++ bytes b2). split; [|split].
  - intros W HW HL. apply puts_bind; [apply G1|apply G2].
  - rewrite blen_app. f_equal; [apply G1|apply G2].
  - exists (at_pos (bytes b1) (bytes b2)). split; [exact (demux_good b1 [] (bytes b2) G1)|].
    pose proof (demux_good b2 (bytes b1) [] G2) as E. by rewrite app_nil_r in E.
Qed.

Definition ftyp_of (brand : FourCC.t) : Ftyp.t := Ftyp.new FourCC.Iso5 512 [FourCC.Iso5; FourCC.Iso6; brand; FourCC.Mp41].

Lemma ftyp_ok brand : brand = FourCC.Avc1 \/ brand = FourCC.Av01 \/ brand = FourCC.Hev1 ->
  every ok (DynBox.Ftyp (ftyp_of brand)).
Proof. intros [-> | [-> | ->]]; refine (proj1 (_ : fine 32 _)); leaf_tac. Qed.

Lemma video_brand header rate video : video_info header rate = Ok video ->
  brand video = FourCC.Avc1 \/ brand video = FourCC.Av01 \/ brand video = FourCC.Hev1.
Proof.
  unfold video_info. destruct header; unfold and_then; repeat case_match; intros; simplify_eq/=; auto.
Qed.

(** The bytes of the init segment. *)
Lemma init_written n video timescale rate audio_entry :
  brand video = FourCC.Avc1 \/ brand video = FourCC.Av01 \/ brand video = FourCC.Hev1 ->
  n < 2 ^ 40 -> fine n (entry video) -> fine n audio_entry -> fits 32 timescale -> fits 32 rate ->
  0 <= info_width video < 2 ^ 15 -> 0 <= info_height video < 2 ^ 15 ->
  exists moov bs c, moov_of video timescale rate audio_entry = Some moov /\
    written_by (Mp4Box.mux (ftyp_of (brand video)) ;;;
      let* moov := unwrap (moov_of video timescale rate audio_entry) in
      Moov.mux DynBox.size DynBox.mux (list byte) moov) = Ok bs /\
    DynBoxDemux.demux (cursor_new bs) = (Ok (DynBox.Ftyp (ftyp_of (brand video))), c) /\
    DynBoxDemux.demux c = (Ok (DynBox.Moov moov), at_pos bs []).
Proof.
  intros Hb Hn Hv Ha Ht Hr Hw Hh. destruct (moov_total video timescale rate audio_entry Hw Hh) as [moov Hm].
  destruct (pair_read_back (DynBox.Ftyp (ftyp_of (brand video))) (DynBox.Moov moov)) as (bs & Hp & _ & c & D1 & D2);
    [by apply ftyp_ok|by apply (moov_fine n video timescale rate audio_entry)|].
  exists moov, bs, c. split_and!; try done. apply written_by_puts. rewrite Hm. cbn [unwrap].
  rewrite (ftyp_mux_eq (list byte) _). specialize (Hp (list byte) _ _). rewrite <-moov_mux_eq in Hp. exact Hp.
Qed.
End tracks.
End InitLaws.
