(* ===== verification/TransmuxerTheorems.v ===== *)
(** * [scuffle-transmuxer]: properties

    The transmuxer as a whole: FLV bytes in, tags queued, one init segment and
    then one media segment per packet out. *)

From Stdlib Require Import Strings.String.
From stdpp Require Import base sets list numbers.
From Stdlib Require Import Strings.Byte.
From S2P Require Import Prelude Io BytesCursor Aac Amf0 BitIo H264 H264Sps Flv Mp4Box Mp4Movie Mp4Tables.
From S2P Require Import Mp4Fragment Mp4Esds Mp4Config Mp4Containers Mp4Dyn Mp4DynLaws Mp4Codec Mp4Theorems.
From S2P Require Import F64 Transmuxer TransmuxerLaws TransmuxerInit.

Module TransmuxerProps.
Import Transmuxer DynLaws TotalParse SegmentLaws InitLaws.

(** ** Reading tags *)

Section demux.
Context `{BO : ByteOrder}.

(** [Ok] without its value. *)
Definition forget {A} (r : res ErrorKind A) : res ErrorKind unit :=
  match r with Ok _ => Ok tt | Err e => Err e | Panic => Panic | Fuel => Fuel end.

Lemma has_remaining_eq c :
  AvcConfig.has_remaining c = (Ok (negb (BytesCursorExt.remaining c =? 0)), c).
Proof.
  unfold AvcConfig.has_remaining. erewrite bind_ok; [|done]. unfold ret. do 2 f_equal.
  unfold BytesCursorExt.remaining. destruct (Z.ltb_spec 0 (Z.max 0 (blen (inner c) - Z.of_N (pos c)))),
    (Z.eqb_spec (Z.max 0 (blen (inner c) - Z.of_N (pos c))) 0); simpl; done || lia.
Qed.

(** The transmuxer's loop is the loop of the FLV reader, with the tags pushed to
    the queue one at a time. *)
Lemma demux_loop_tags fuel : forall c s, exists queued,
  demux_loop fuel c s = (io (forget (fst (Flv.tags_loop fuel c))), set_tags (tags s ++ queued) s) /\
  (forall ts, fst (Flv.tags_loop fuel c) = Ok ts -> queued = ts).
Proof.
  assert (forall s, set_tags (tags s ++ []) s = s) as Hs by (intros []; unfold set_tags; simpl; by rewrite app_nil_r).
  induction fuel as [|fuel IH]; intros c s; cbn [Flv.tags_loop demux_loop].
  { exists []. by rewrite Hs. }
  erewrite bind_ok by apply has_remaining_eq. destruct (_ =? 0); cbv beta iota delta [negb].
  { exists []. rewrite Hs. split; [done|]. by intros ts [= <-]. }
  destruct (read_u32 c) as [[z|e| |] c1] eqn:E1; cycle 1.
  1-3: exists []; rewrite Hs; unfold bind; rewrite E1; done.
  erewrite (bind_ok read_u32) by exact E1. erewrite (bind_ok (lift _)) by done.
  erewrite bind_ok by apply has_remaining_eq. destruct (_ =? 0); cbv beta iota delta [negb].
  { exists []. rewrite Hs. split; [done|]. by intros ts [= <-]. }
  destruct (Flv.FlvTag_demux c1) as [[tag|e| |] c2] eqn:E2; cycle 1.
  1-3: exists []; rewrite Hs; unfold bind; rewrite E2; done.
  erewrite (bind_ok Flv.FlvTag_demux) by exact E2. erewrite (bind_ok (lift _)) by done.
  erewrite (bind_ok (modify _)) by done.
  destruct (IH c2 (add_tag tag s)) as (queued & E & Hq). exists (tag :: queued). rewrite E.
  unfold bind at 1 2. destruct (Flv.tags_loop fuel c2) as [[ts|e| |] c3]; cbn in *; rewrite <-app_assoc; (split; [done|]); try done.
  intros ? [= <-]. f_equal. by apply Hq.
Qed.

(** The packets of an FLV file are far from the limits of a box. *)
Lemma layout_sized tag bs : Flv.tag_layout tag bs -> sized tag.
Proof.
  destruct 1 as [prev tag t bs _ _ _ Hl Hd]. unfold sized, media.
  destruct tag as [ts sid d]. simpl in *. unfold u32_max.
  destruct Hd as [a Ha|v bs Hv| |]; simpl; try done.
  - unfold Flv.audio_bytes, Flv.aac_bytes in Hl. repeat case_match; simplify_eq; try done.
    rewrite !blen_app in Hl. unfold blen in *. lia.
  - destruct Hv as [|ft p bs _ _ Hp| |ft pt codec p bs _ _ _ _ Hp]; simpl; try done.
    all: destruct Hp; simpl; try done; rewrite !blen_app in Hl; unfold blen in *; lia.
Qed.

Lemma demux_file ts bss trailer s : Forall2 Flv.tag_layout ts bss -> trailer = [] \/ length trailer = 4%nat ->
  demux (mjoin bss ++ trailer) s = (Ok tt, set_tags (tags s ++ ts) s).
Proof.
  intros Hl Ht. unfold demux. set (data := mjoin bss ++ trailer).
  pose proof (Flv.tags_loop_at ts bss Hl trailer (S (length data)) [] Ht ltac:(subst data; lia)) as E.
  destruct (demux_loop_tags (S (length data)) (cursor_new data) s) as (queued & -> & Hq).
  change (at_pos [] (mjoin bss ++ trailer)) with (cursor_new data) in E. rewrite E in *. cbn in *.
  by rewrite (Hq ts eq_refl).
Qed.
End demux.

(** ** The init segment *)

Definition found (ts : list Flv.FlvTag) : Tags := find_tags (mkTags None None None) ts.
Definition metadata (ts : list Flv.FlvTag) : list (list byte * Amf0Value.t) := default [] (scriptdata_tag (found ts)).

(** The metadata's values that the transmuxer uses. *)
Definition metadata_rate (ts : list Flv.FlvTag) : F64.t := default (F64.of_int 0) (number_of "framerate" (metadata ts)).

Section init.
Context `{BO : ByteOrder} `{FP : FixedPoint}.

(** The two sequence headers are in the queue and can be used: they parse, the
    frame rate, the dimensions and the sample rate are not zero, and the sample
    entries built from them are boxes that can be written. *)
Record init_ready (ts : list Flv.FlvTag) (audio_header : AudioSequenceHeader) (video : VideoInfo) (audio_entry : DynBox.t)
    (config : Aac.PartialAudioSpecificConfig) : Prop := {
  ready_video : exists header, video_sequence_header (found ts) = Some header /\
    video_info header (metadata_rate ts) = Ok video;
  ready_header : audio_sequence_header (found ts) = Some audio_header;
  ready_audio : CodecAac.stsd_entry (seq_sound_size audio_header) (seq_sound_type audio_header) (seq_data audio_header) =
    Ok (audio_entry, config);
  ready_rate : F64.eqb (fps video) (F64.of_int 0) = false;
  ready_width : 0 < info_width video < 2 ^ 15;
  ready_height : 0 < info_height video < 2 ^ 15;
  ready_frequency : 0 < Aac.sampling_frequency config < 2 ^ 32;
  ready_video_entry : every ok (entry video) /\ DynBox.size (entry video) < 2 ^ 39;
  ready_audio_entry : every ok audio_entry /\ DynBox.size audio_entry < 2 ^ 39;
}.

Definition video_settings_of (ts : list Flv.FlvTag) (video : VideoInfo) : VideoSettings :=
  mkVideoSettings (info_width video) (info_height video) (fps video) (kilobits (number_of "videodatarate" (metadata ts)))
    (info_codec video) (F64.as_u32 (F64.mul (F64.of_int 1000) (fps video))).

Definition audio_settings_of (ts : list Flv.FlvTag) (audio_header : AudioSequenceHeader)
    (config : Aac.PartialAudioSpecificConfig) : AudioSettings :=
  mkAudioSettings (Aac.sampling_frequency config) (seq_sound_type audio_header + 1)
    (kilobits (number_of "audiodatarate" (metadata ts))) (AudioCodec.Aac (Aac.audio_object_type config))
    (Aac.sampling_frequency config).

(** [bs] reads as an [ftyp] and a [moov] box with nothing after them, and the
    movie is the one of the given tracks. *)
Definition introduces (bs : list byte) (video : VideoInfo) (audio_entry : DynBox.t)
    (config : Aac.PartialAudioSpecificConfig) : Prop :=
  exists moov c,
    moov_of video (F64.as_u32 (F64.mul (F64.of_int 1000) (fps video))) (Aac.sampling_frequency config) audio_entry =
      Some moov /\
    DynBoxDemux.demux (cursor_new bs) = (Ok (DynBox.Ftyp (ftyp_of (brand video))), c) /\
    DynBoxDemux.demux c = (Ok (DynBox.Moov moov), at_pos bs []).

Lemma ok_fine b : every ok b -> DynBox.size b < 2 ^ 39 -> fine (2 ^ 39) b.
Proof.
  intros H Hs. pose proof (every_and b H) as [Hw Hf]. destruct (dyn_good b Hw Hf) as (_ & Hl & _).
  pose proof (blen_nonneg (bytes b)). split; [done|lia].
Qed.

(** The sound type is one of the two that the sample entry accepts. *)
Lemma aac_channels size type data r : CodecAac.stsd_entry size type data = Ok r ->
  (if type =? 0 then Ok 1 else if type =? 1 then Ok 2 else Err InvalidAudioChannels) = Ok (type + 1).
Proof.
  unfold CodecAac.stsd_entry, and_then. destruct (io _); try done.
  destruct (Z.eqb_spec type 0) as [->|_]; [done|]. by destruct (Z.eqb_spec type 1) as [->|_].
Qed.

Lemma init_sequence_ready s audio_header video audio_entry config :
  init_ready (tags s) audio_header video audio_entry config ->
  exists bs, init_sequence s =
      Ok (Some (video_settings_of (tags s) video, audio_settings_of (tags s) audio_header config, bs)) /\
    introduces bs video audio_entry config.
Proof.
  intros [(header & Hv & Hvi) Ha Haac Hfps Hw Hh Hr [Ev Sv] [Ea Sa]].
  set (timescale := F64.as_u32 (F64.mul (F64.of_int 1000) (fps video))).
  destruct (init_written (2 ^ 39) video timescale (Aac.sampling_frequency config) audio_entry)
    as (moov & bs & c & Hm & Hwr & D1 & D2); [by eapply video_brand|done|by apply ok_fine|by apply ok_fine|
    apply F64.as_u32_fits|unfold fits; lia|lia|lia|].
  exists bs. split; [|by exists moov, c]. unfold init_sequence.
  fold (found (tags s)) (metadata (tags s)) (metadata_rate (tags s)). rewrite Hv, Ha, Hvi. cbn [and_then].
  rewrite Haac. cbn [and_then]. rewrite (aac_channels _ _ _ _ Haac). cbn [and_then].
  rewrite Hfps, !(proj2 (Z.eqb_neq _ 0)) by lia. cbn [orb]. fold (ftyp_of (brand video)).
  fold timescale. rewrite Hwr. done.
Qed.

Lemma mux_init s audio_header video audio_entry config : settings s = None ->
  init_ready (tags s) audio_header video audio_entry config ->
  let vs := video_settings_of (tags s) video in let aus := audio_settings_of (tags s) audio_header config in
  exists bs, mux s = (Ok (Some (InitSegment vs aus bs)), set_settings (Some (vs, aus)) s) /\
    introduces bs video audio_entry config.
Proof.
  intros Hn Hr vs aus. destruct (init_sequence_ready _ _ _ _ _ Hr) as (bs & E & Hi). exists bs. split; [|done].
  unfold mux. erewrite bind_ok by done. rewrite Hn. erewrite bind_ok by (unfold lift; rewrite E; done). done.
Qed.

(** Draining a queue that starts with no settings: the init segment, then the
    media segments. *)
Lemma mux_all_init s audio_header video audio_entry config fuel : settings s = None ->
  init_ready (tags s) audio_header video audio_entry config -> room (blen (tags s)) s -> Forall sized (tags s) ->
  (S (length (tags s)) < fuel)%nat ->
  let vs := video_settings_of (tags s) video in let aus := audio_settings_of (tags s) audio_header config in
  exists init segments s', mux_all fuel s = (Ok (InitSegment vs aus init :: (Media <$> segments)), s') /\
    tags s' = [] /\ introduces init video audio_entry config /\
    Forall2 realises
      (timeline vs (sequence_number s) (audio_duration s) (video_duration s) (last_video_timestamp s) (tags s)) segments.
Proof.
  intros Hn Hr Hroom Hsz Hf vs aus. destruct fuel as [|fuel]; [lia|].
  destruct (mux_init s _ _ _ _ Hn Hr) as (init & Hm & Hi). fold vs aus in Hm.
  destruct (mux_all_timeline vs aus (tags s) (set_settings (Some (vs, aus)) s) fuel) as (segments & s' & Hall & Ht & _ & H2);
    [done|done|done|lia|].
  exists init, segments, s'. split_and!; try done. cbn [mux_all]. erewrite bind_ok by exact Hm. cbv beta iota.
  change (set_settings (Some (vs, aus)) s) with (set_tags (tags s) (set_settings (Some (vs, aus)) s)).
  by erewrite bind_ok by exact Hall.
Qed.

(** [NoSequenceHeaders] is not an error of the init segment itself. *)
Definition specific {A} (r : res TransmuxError A) : Prop := r <> Err NoSequenceHeaders.

Lemma specific_io {A} (r : res ErrorKind A) : specific (io r).
Proof. by destruct r. Qed.

Lemma specific_written m : specific (written_by m).
Proof. unfold specific, written_by. by destruct (m []) as [[]]. Qed.

Lemma specific_then {A B} (r : res TransmuxError A) (k : A -> res TransmuxError B) :
  specific r -> (forall a, specific (k a)) -> specific (and_then r k).
Proof. unfold specific. intros H1 H2. destruct r; simpl; auto; congruence. Qed.

Lemma specific_sequence_header config : specific (CodecAv1.sequence_header config).
Proof.
  unfold specific, CodecAv1.sequence_header, bind, map_err, get, throw, lift. intros E.
  repeat (case_match; simplify_eq/=; try done). by eapply specific_io.
Qed.

Lemma specific_video header rate : specific (video_info header rate).
Proof.
  destruct header; simpl; (apply specific_then; [|by intros [? ?]; try case_match]).
  - unfold CodecAvc.stsd_entry. case_match; [done|]. by apply specific_then; [apply specific_io|].
  - unfold CodecHevc.stsd_entry. case_match; [|done]. by apply specific_then; [apply specific_io|].
  - unfold CodecAv1.stsd_entry. by apply specific_then; [apply specific_sequence_header|].
Qed.

Lemma specific_audio size type data : specific (CodecAac.stsd_entry size type data).
Proof.
  unfold CodecAac.stsd_entry. apply specific_then; [apply specific_io|intros config].
  apply specific_then; [by repeat case_match|intros channels]. apply specific_then; [by repeat case_match|done].
Qed.

(** The init segment is not there yet exactly when a header is missing. *)
Lemma init_sequence_missing s :
  let missing := video_sequence_header (found (tags s)) = None \/ audio_sequence_header (found (tags s)) = None in
  (missing /\ init_sequence s = Ok None) \/
  (~ missing /\ init_sequence s <> Ok None /\ specific (init_sequence s)).
Proof.
  intros missing. subst missing. unfold init_sequence. fold (found (tags s)).
  destruct (video_sequence_header (found (tags s))) as [header|]; [|left; auto].
  destruct (audio_sequence_header (found (tags s))) as [audio|]; [|left; auto].
  right. split; [by intros []|]. split.
  - intros E. repeat (unfold and_then in E; case_match; simplify_eq/=; try done).
  - apply specific_then; [apply specific_video|intros video].
    apply specific_then; [apply specific_audio|intros [entry config]].
    apply specific_then; [by repeat case_match|intros channels].
    repeat (case_match; [done|]). by apply specific_then; [apply specific_written|].
Qed.
End init.

(** ** A stream: H.264 at 30 frames per second and AAC at 44.1 kHz *)

Definition sample_config : AvcConfig.AVCDecoderConfigurationRecord :=
  AvcConfig.mkConfig 1 100 0 31 3 [H264Sps.sample] [[x68; xeb; xe3]] None.

Definition sample_tags : list Flv.FlvTag :=
  [Flv.mkTag 0 0 (Flv.TagVideo (Flv.mkVideo 1 (Flv.VideoAvc (Flv.AvcSequenceHeader sample_config))));
   Flv.mkTag 0 0 (Flv.TagAudio (Flv.mkAudio 3 1 1 (Flv.AudioAac (Flv.AacSequenceHeader [x12; x10]))));
   Flv.mkTag 0 0 (Flv.TagVideo (Flv.mkVideo 1 (Flv.VideoAvc (Flv.AvcNalu 0 [x65; x88]))));
   Flv.mkTag 23 0 (Flv.TagAudio (Flv.mkAudio 3 1 1 (Flv.AudioAac (Flv.AacRaw [x21; x10]))));
   Flv.mkTag 33 0 (Flv.TagVideo (Flv.mkVideo 2 (Flv.VideoAvc (Flv.AvcNalu 67 [x41; x9a]))))].

Definition sample_audio : AudioSequenceHeader := mkAudioSeq 1 1 [x12; x10].

Definition sample_audio_config : Aac.PartialAudioSpecificConfig :=
  Eval vm_compute in match Aac.parse [x12; x10] with Ok c => c | _ => Aac.mkConfig (Aac.Unknown 0) 0 0 end.

Definition sample_audio_entry : DynBox.t :=
  Eval vm_compute in
    match CodecAac.stsd_entry 1 1 [x12; x10] with Ok (entry, _) => entry | _ => DynBox.Unknown (BoxHeader.new []) [] end.

Definition sample_video : VideoInfo :=
  Eval vm_compute in
    match video_info (SeqAvc sample_config) (F64.of_int 0) with
    | Ok video => video
    | _ => mkVideoInfo FourCC.Avc1 (VideoCodec.Avc 0 0 0) (DynBox.Unknown (BoxHeader.new []) []) (F64.of_int 0) 0 0
    end.

Lemma sample_ready : init_ready sample_tags sample_audio sample_video sample_audio_entry sample_audio_config.
Proof.
  split.
  - exists (SeqAvc sample_config). split; vm_compute; reflexivity.
  - vm_compute; reflexivity.
  - vm_compute; reflexivity.
  - vm_compute; reflexivity.
  - vm_compute; done.
  - vm_compute; done.
  - vm_compute; done.
  - split; [Mp4.nested_tac|vm_compute; done].
  - split; [Mp4.nested_tac|vm_compute; done].
Qed.

(** [demux] is the loop of the FLV reader with the tags pushed to the queue
    one by one. On every buffer it stops: it succeeds exactly when the FLV
    reader does, with the tags it reads appended to the queue in order; it fails
    only with [UnexpectedEof] or [InvalidData], and panics only on script data
    on which the AMF0 reader panics. In every case the tags in front of the
    failure are kept in the queue and nothing else of the state changes. *)
Theorem demux_queues_tags `{ByteOrder} (data : list byte) (s : t) :
  let '(r, s') := demux data s in
  exists queued, s' = set_tags (tags s ++ queued) s /\
    match r with
    | Ok _ => Flv.tags_loop (S (length data)) (cursor_new data) = (Ok queued, at_pos data [])
    | Err e => (e = IO UnexpectedEof \/ e = IO InvalidData) /\
        exists e' c, Flv.tags_loop (S (length data)) (cursor_new data) = (Err e', c) /\ e = IO e'
    | Panic => Flv.script_panic data
    | Fuel => False
    end.
Proof.
  unfold demux. destruct (demux_loop_tags (S (length data)) (cursor_new data) s) as (queued & -> & Hq).
  pose proof (Flv.tags_loop_scans (S (length data)) [] data ltac:(lia)) as Hs. unfold Flv.scans in Hs.
  change (at_pos [] data) with (cursor_new data) in Hs. exists queued. split; [done|].
  destruct (Flv.tags_loop _ _) as [[ts|e| |] c]; cbn in *; try done.
  - destruct Hs as (bs & post & Hd & -> & ->). assert (post = []) as -> by (apply (f_equal length) in Hd; rewrite length_app in Hd;
      destruct post; [done|simpl in Hd; lia]). by rewrite (Hq ts eq_refl).
  - split; [destruct Hs as [-> | ->]; auto|]. by eexists _, _.
Qed.

Definition sample_header_bytes : list byte :=
  be_bytes 4 0 ++ be_bytes 1 9 ++ be_bytes 3 (5 + blen (AvcConfig.layout sample_config)) ++ be_bytes 3 0 ++ be_bytes 1 0 ++
  be_bytes 3 0 ++ Flv.video_byte false 1 7 ++ be_bytes 1 0 ++ be_bytes 3 0 ++ AvcConfig.layout sample_config.

(** The other tags: sizes, types, timestamps and data. *)
Definition sample_tag_bytes : list (list byte) :=
  [sample_header_bytes;
   [x00; x00; x00; x00; x08; x00; x00; x04; x00; x00; x00; x00; x00; x00; x00; xaf; x00; x12; x10];
   [x00; x00; x00; x00; x09; x00; x00; x07; x00; x00; x00; x00; x00; x00; x00; x17; x01; x00; x00; x00; x65; x88];
   [x00; x00; x00; x00; x08; x00; x00; x04; x00; x00; x17; x00; x00; x00; x00; xaf; x01; x21; x10];
   [x00; x00; x00; x00; x09; x00; x00; x07; x00; x00; x21; x00; x00; x00; x00; x27; x01; x00; x00; x43; x41; x9a]].

Lemma sample_layout : Forall2 Flv.tag_layout sample_tags sample_tag_bytes.
Proof.
  assert (AvcConfig.config_ok sample_config) as Hc.
  { unfold AvcConfig.config_ok. cbn. unfold AvcConfig.sets_ok. split_and!; try done. all: repeat constructor. }
  constructor; [|constructor; [|constructor; [|constructor; [|constructor; [|constructor]]]]].
  - refine (Flv.TL 0 (Flv.mkTag 0 0 _) 9 (Flv.video_byte false 1 7 ++ be_bytes 1 0 ++ be_bytes 3 0 ++
      AvcConfig.layout sample_config) _ _ _ _ _); try (by vm_compute).
    apply Flv.DL_video. apply (Flv.VL_avc 1); [done|done|]. by apply Flv.AL_header.
  - refine (Flv.TL 0 (Flv.mkTag 0 0 _) 8 [xaf; x00; x12; x10] _ _ _ _ _); try (by vm_compute).
    apply (Flv.DL_audio (Flv.mkAudio 3 1 1 (Flv.AudioAac (Flv.AacSequenceHeader [x12; x10])))). by vm_compute.
  - refine (Flv.TL 0 (Flv.mkTag 0 0 _) 9 [x17; x01; x00; x00; x00; x65; x88] _ _ _ _ _); try (by vm_compute).
    apply Flv.DL_video. refine (Flv.VL_avc 1 _ [x01; x00; x00; x00; x65; x88] _ _ _); try (by vm_compute).
    by apply (Flv.AL_nalu 0 [x65; x88]).
  - refine (Flv.TL 0 (Flv.mkTag 23 0 _) 8 [xaf; x01; x21; x10] _ _ _ _ _); try (by vm_compute).
    apply (Flv.DL_audio (Flv.mkAudio 3 1 1 (Flv.AudioAac (Flv.AacRaw [x21; x10])))). by vm_compute.
  - refine (Flv.TL 0 (Flv.mkTag 33 0 _) 9 [x27; x01; x00; x00; x43; x41; x9a] _ _ _ _ _); try (by vm_compute).
    apply Flv.DL_video. refine (Flv.VL_avc 2 _ [x01; x00; x00; x43; x41; x9a] _ _ _); try (by vm_compute).
    by apply (Flv.AL_nalu 67 [x41; x9a]).
Qed.

(** ** Properties *)

(** C1. The transmuxer from end to end: the tags of an FLV file are queued by
    [demux], and draining the queue with [mux] gives the init segment and then
    exactly the segments of the timeline of the tags, one for each AAC, AVC, AV1
    or HEVC packet, in order and with nothing left in the queue. The init segment
    reads as [ftyp] and [moov] with the two tracks of the sequence headers; every
    media segment reads as [moof] and [mdat] with consecutive sequence numbers,
    start times that continue the previous segment of the track, and a data
    offset that leads to the packet's data. *)
Theorem transmux_stream `{ByteOrder} `{FixedPoint} (ts : list Flv.FlvTag) (bss : list (list byte)) (trailer : list byte)
    audio_header video audio_entry config (fuel : nat)
    (Hlayout : Forall2 Flv.tag_layout ts bss) (Htrailer : trailer = [] \/ length trailer = 4%nat)
    (Hready : init_ready ts audio_header video audio_entry config)
    (Hcount : blen ts < 2 ^ 32 - 1) (Hfuel : (S (length ts) < fuel)%nat) :
  let vs := video_settings_of ts video in
  exists init segments s',
    (demux (mjoin bss ++ trailer) ;;; mux_all fuel) new =
      (Ok (InitSegment vs (audio_settings_of ts audio_header config) init :: (Media <$> segments)), s') /\
    tags s' = [] /\ introduces init video audio_entry config /\
    Forall2 realises (timeline vs 1 0 0 0 ts) segments.
Proof.
  intros vs. erewrite bind_ok by (by apply (demux_file ts)).
  apply (mux_all_init (set_tags ts new)); [done|done| | |done].
  - unfold room. simpl. pose proof (blen_nonneg ts). lia.
  - clear -Hlayout. induction Hlayout; constructor; [by eapply layout_sized|done].
Qed.

Lemma transmux_stream_witness :
  let vs := video_settings_of sample_tags sample_video in
  exists init segments s',
    (demux (mjoin sample_tag_bytes ++ []) ;;; mux_all 7) new =
      (Ok (InitSegment vs (audio_settings_of sample_tags sample_audio sample_audio_config) init :: (Media <$> segments)), s') /\
    tags s' = [] /\ introduces init sample_video sample_audio_entry sample_audio_config /\
    Forall2 realises (timeline vs 1 0 0 0 sample_tags) segments.
Proof.
  apply (transmux_stream sample_tags sample_tag_bytes [] sample_audio sample_video sample_audio_entry sample_audio_config 7).
  - exact sample_layout.
  - left. reflexivity.
  - exact sample_ready.
  - vm_compute. reflexivity.
  - vm_compute. repeat constructor.
Defined.

(** The timeline of the sample: two video frames of 1000 ticks at 30000 ticks per
    second, and an audio frame of 1024 samples between them. *)
Example sample_timeline :
  (fun p => (piece_number p, piece_start p, piece_duration p, piece_key p, piece_offset p)) <$>
    timeline (video_settings_of sample_tags sample_video) 1 0 0 0 sample_tags =
  [(1, 0, 1000, true, 0); (2, 0, 1024, true, 0); (3, 1000, 1000, false, 2000)].
Proof. vm_compute. reflexivity. Qed.

(** With settings, [mux] takes the tags up to the first packet off the queue
    and returns its segment: the tags that are no packets are dropped, the
    segment starts at the clock of its track, which advances by the duration of
    the packet, and the sequence number by one; the other track's clock and the
    settings are not touched. An empty queue, or one without packets, is emptied
    and gives nothing. *)
Theorem mux_next_segment `{ByteOrder} `{FixedPoint} (s : t) vs aus skipped (next : option Flv.FlvTag) rest
    (Hset : settings s = Some (vs, aus)) (Hskip : Forall (fun tag => media tag = None) skipped)
    (Htags : tags s = skipped ++ match next with Some tag => tag :: rest | None => [] end) :
  match next with
  | None => mux s = (Ok None, set_tags [] s)
  | Some tag =>
      forall type key payload, media tag = Some (type, key, payload) -> room 1 s -> blen payload + 8 <= u32_max ->
      let d := duration_of type (frame_duration vs (last_video_timestamp s) (Flv.timestamp_ms tag)) in
      exists bs, mux s =
        (Ok (Some (Media (mkSegment bs type (key && negb (is_audio_type type)) (clock type s)))),
         set_tags rest (advance type d (Flv.timestamp_ms tag) s)) /\
        carries bs type (sequence_number s) (clock type s) d (sample_flags key) (offset_of vs tag) payload
  end.
Proof.
  assert (forall pending, tags s = skipped ++ pending -> mux s = mux_loop vs pending (set_tags pending s)) as Hm.
  { intros pending Ht. rewrite (mux_ready vs aus) by done.
    rewrite <-(set_tags_same s) at 2. rewrite !Ht. by apply mux_loop_skips. }
  rewrite (Hm _ Htags). destruct next as [tag|]; [|done].
  intros type key payload Hmedia Hr Hl. by apply mux_loop_media.
Qed.

Lemma mux_next_segment_witness :
  let s := mk 0 2000 3 33 (Some (video_settings_of sample_tags sample_video,
    audio_settings_of sample_tags sample_audio sample_audio_config)) sample_tags in
  exists bs, mux s =
    (Ok (Some (Media (mkSegment bs Video true 2000))), set_tags (drop 3 sample_tags) (mk 0 3000 4 0 (settings s) sample_tags)) /\
    carries bs Video 3 2000 1000 (sample_flags true) 0 [x65; x88].
Proof.
  intros s.
  apply (mux_next_segment s (video_settings_of sample_tags sample_video)
    (audio_settings_of sample_tags sample_audio sample_audio_config) (take 2 sample_tags)
    (Some (Flv.mkTag 0 0 (Flv.TagVideo (Flv.mkVideo 1 (Flv.VideoAvc (Flv.AvcNalu 0 [x65; x88])))))) (drop 3 sample_tags)
    eq_refl) with (type := Video) (key := true) (payload := [x65; x88]).
  - repeat constructor.
  - reflexivity.
  - reflexivity.
  - vm_compute. repeat split; congruence.
  - vm_compute. congruence.
Defined.

(** C31. Until the init segment has been produced [mux] produces nothing else:
    from a state without settings every call returns the init segment, and then
    only the settings of the state change; or nothing, while one of the two
    sequence headers is missing and there are at most 30 tags; or the error
    [NoSequenceHeaders], when there are more; or another error when both headers
    are there. Whatever the outcome, the queue, the counters and the clocks are
    unchanged, and after a failure the settings are too. *)
Theorem init_segment_first `{ByteOrder} `{FixedPoint} (s : t) (Hs : settings s = None) :
  let missing := video_sequence_header (found (tags s)) = None \/ audio_sequence_header (found (tags s)) = None in
  match mux s with
  | (Ok (Some (InitSegment vs aus _)), s') => ~ missing /\ s' = set_settings (Some (vs, aus)) s
  | (Ok (Some (Media _)), _) => False
  | (Ok None, s') => missing /\ blen (tags s) <= 30 /\ s' = s
  | (Err NoSequenceHeaders, s') => missing /\ 30 < blen (tags s) /\ s' = s
  | (_, s') => ~ missing /\ s' = s
  end.
Proof.
  intros missing. unfold mux. erewrite bind_ok by done. rewrite Hs. unfold bind at 1, lift.
  destruct (init_sequence_missing s) as [[Hm ->]|(Hm & Hn & Hsp)]; cbn.
  - by destruct (Z.ltb_spec 30 (blen (tags s))).
  - unfold specific in Hsp. by destruct (init_sequence s) as [[[[vs aus] bs]|]|[]| |].
Qed.

Lemma init_segment_first_witness :
  let s := set_tags (take 1 sample_tags) new in
  let missing := video_sequence_header (found (tags s)) = None \/ audio_sequence_header (found (tags s)) = None in
  settings s = None /\ missing /\
  match mux s with
  | (Ok (Some (InitSegment vs aus _)), s') => ~ missing /\ s' = set_settings (Some (vs, aus)) s
  | (Ok (Some (Media _)), _) => False
  | (Ok None, s') => missing /\ blen (tags s) <= 30 /\ s' = s
  | (Err NoSequenceHeaders, s') => missing /\ 30 < blen (tags s) /\ s' = s
  | (_, s') => ~ missing /\ s' = s
  end.
Proof.
  intros s missing. split; [reflexivity|]. split; [right; reflexivity|].
  apply (init_segment_first s). reflexivity.
Defined.
End TransmuxerProps.
