(* ===== verification/BatchQueue.v ===== *)
(** * [scuffle-batching]: the queue shared by the batcher and the data loader

    crates/batching/src/batch.rs and dataloader.rs have the same structure: a
    current batch behind a mutex, a loop that sends it off when it has waited
    long enough, tasks that wait for a permit of a semaphore before they call
    the executor. The text of both files is the same for this part; here it is
    modelled once, over the type of batches.

    The code holds the mutex only over stretches without an [await], so every
    such stretch is one step. Time is the monotonic clock of the runtime, and
    passes in steps of its own. *)

From stdpp Require Import base list numbers option gmap.
From S2P Require Import Prelude.

(** Where a task spawned for a batch is: waiting for its permit, or in the
    executor. *)
Inductive Stage := Acquiring | Executing.

#[global] Instance stage_eq_dec : EqDecision Stage.
Proof. solve_decision. Defined.

Module Queue.
Section queue.
Context {B : Type} (created_at : B -> Z).

Record t := mk {
  semaphore : Z;
  current_batch : option B;
  tasks : list (Stage * B);
  now : Z;
  wake_at : Z;
}.

(** [batch_size.max(1)] is kept by the clients; [concurrency.max(1)] permits. *)
Definition new (concurrency delay now : Z) : t := mk (Z.max 1 concurrency) None [] now (now + delay).

(** [batch.replace(..)] and changes through [batch.as_mut()]. *)
Definition replace (b : B) (s : t) : t := mk (semaphore s) (Some b) (tasks s) (now s) (wake_at s).

(** [tokio::spawn(batch.take().unwrap().spawn(executor))] *)
Definition spawn (b : B) (s : t) : t := mk (semaphore s) None (tasks s ++ [(Acquiring, b)]) (now s) (wake_at s).

Definition sleep (delta : Z) (s : t) : t := mk (semaphore s) (current_batch s) (tasks s) (now s) (now s + delta).

(** One turn of [batch_loop], once its [sleep] is over. *)
Definition batch_loop (delay : Z) (s : t) : option t :=
  if now s <? wake_at s then None
  else
    match current_batch s with
    | None => Some (sleep delay s)
    | Some b =>
        let remaining := Z.max 0 (delay - (now s - created_at b)) in
        if remaining =? 0 then Some (sleep delay (spawn b s)) else Some (sleep remaining s)
    end.

(** [semaphore.acquire_owned().await], which returns when there is a permit. *)
Definition acquire (i : nat) (s : t) : option t :=
  match tasks s !! i with
  | Some (Acquiring, b) =>
      if 0 <? semaphore s
      then Some (mk (semaphore s - 1) (current_batch s) (<[i := (Executing, b)]> (tasks s)) (now s) (wake_at s))
      else None
  | _ => None
  end.

(** The executor is done: the task ends and its permit is dropped. *)
Definition release (i : nat) (s : t) : option (B * t) :=
  match tasks s !! i with
  | Some (Executing, b) =>
      Some (b, mk (semaphore s + 1) (current_batch s) (delete i (tasks s)) (now s) (wake_at s))
  | _ => None
  end.

Definition pass (dt : Z) (s : t) : t := mk (semaphore s) (current_batch s) (tasks s) (now s + Z.max 0 dt) (wake_at s).

(** ** Invariant *)

(** The batches that are not finished. *)
Definition live (s : t) : list B := option_list (current_batch s) ++ (snd <$> tasks s).

Definition executing (s : t) : list B := snd <$> filter (fun x => x.1 = Executing) (tasks s).

(** Permits are neither lost nor made up, and the loop wakes up no later than
    the current batch is due. *)
Record ok (concurrency delay : Z) (s : t) : Prop := {
  ok_delay : 0 <= delay;
  ok_permits : semaphore s + blen (executing s) = Z.max 1 concurrency;
  ok_free : 0 <= semaphore s;
  ok_wake : wake_at s <= now s + delay;
  ok_current : forall b, current_batch s = Some b -> created_at b <= now s /\ wake_at s <= created_at b + delay;
}.

(** ** The operations keep the invariant *)

Definition is_executing (x : Stage * B) : Z := match x.1 with Executing => 1 | Acquiring => 0 end.

Definition count (xs : list (Stage * B)) : Z := blen (snd <$> filter (fun x => x.1 = Executing) xs).

Lemma count_app xs ys : count (xs ++ ys) = count xs + count ys.
Proof. unfold count. by rewrite filter_app, fmap_app, blen_app. Qed.

Lemma count_cons x xs : count (x :: xs) = is_executing x + count xs.
Proof.
  unfold count, is_executing, blen. rewrite !length_fmap, filter_cons.
  destruct x as [[] b]; simpl fst in *; case_decide; try done; cbn [length]; lia.
Qed.

Lemma count_nonneg xs : 0 <= count xs.
Proof. apply blen_nonneg. Qed.

Lemma count_insert i x y xs : xs !! i = Some x -> count (<[i := y]> xs) = count xs - is_executing x + is_executing y.
Proof.
  intros Hi. rewrite insert_take_drop by (by eapply lookup_lt_Some).
  rewrite <-(take_drop_middle xs i x Hi) at 3. rewrite !count_app, !count_cons. lia.
Qed.

Lemma count_delete i x xs : xs !! i = Some x -> count (delete i xs) = count xs - is_executing x.
Proof.
  intros Hi. rewrite delete_take_drop. rewrite <-(take_drop_middle xs i x Hi) at 3.
  rewrite !count_app, count_cons. lia.
Qed.

Section invariant.
Context (concurrency delay : Z).
Local Abbreviation good := (ok concurrency delay).

Lemma ok_new now : 0 <= delay -> good (new concurrency delay now).
Proof. split; simpl; try done; unfold executing, blen; simpl; lia. Qed.

Lemma ok_replace b s : good s -> (created_at b = now s \/ exists b0, current_batch s = Some b0 /\ created_at b = created_at b0) ->
  good (replace b s).
Proof.
  intros [H1 H2 H3 H4 H5] Hb. split; simpl; try done. intros b' [= <-].
  destruct Hb as [-> | (b0 & E & ->)]; [lia|auto].
Qed.

Lemma ok_spawn b s : good s -> good (spawn b s).
Proof.
  intros [H1 H2 H3 H4 H5]. split; simpl; try done. unfold executing in *. simpl.
  fold (count (tasks s)) (count (tasks s ++ [(Acquiring, b)])) in *. rewrite count_app, count_cons. unfold count at 2.
  unfold is_executing, blen. simpl. lia.
Qed.

Lemma ok_batch_loop s s' : good s -> batch_loop delay s = Some s' -> good s'.
Proof.
  intros Hs. unfold batch_loop. destruct (Z.ltb_spec (now s) (wake_at s)); [done|].
  destruct (current_batch s) as [b|] eqn:E; [destruct (Z.eqb_spec (Z.max 0 (delay - (now s - created_at b))) 0)|];
    intros [= <-].
  - apply (ok_spawn b) in Hs as [H1 H2 H3 H4 H5]. split; simpl in *; try done; lia.
  - destruct Hs as [H1 H2 H3 H4 H5]. destruct (H5 b E). split; simpl; try done; try lia.
    intros b' E'. simplify_eq. lia.
  - destruct Hs as [H1 H2 H3 H4 H5]. split; simpl; try done; try lia. by rewrite E.
Qed.

Lemma ok_acquire i s s' : good s -> acquire i s = Some s' -> good s'.
Proof.
  intros [H1 H2 H3 H4 H5]. unfold acquire. destruct (tasks s !! i) as [[[] b]|] eqn:Hi; try done.
  destruct (Z.ltb_spec 0 (semaphore s)); [|done]. intros [= <-]. split; simpl; try done; [|lia].
  unfold executing in *. simpl. fold (count (tasks s)) (count (<[i := (Executing, b)]> (tasks s))) in *.
  rewrite (count_insert _ _ _ _ Hi). unfold is_executing. cbn [fst]. lia.
Qed.

Lemma ok_release i s b s' : good s -> release i s = Some (b, s') -> good s'.
Proof.
  intros [H1 H2 H3 H4 H5]. unfold release. destruct (tasks s !! i) as [[[] b0]|] eqn:Hi; try done.
  intros [= <- <-]. split; simpl; try done; [|lia].
  unfold executing in *. simpl. fold (count (tasks s)) (count (delete i (tasks s))) in *.
  rewrite (count_delete _ _ _ Hi). unfold is_executing. cbn [fst]. lia.
Qed.

Lemma ok_pass dt s : good s -> good (pass dt s).
Proof. intros [H1 H2 H3 H4 H5]. split; simpl; try done; [lia|]. intros b E. specialize (H5 b E). lia. Qed.

(** ** Batches are neither lost nor made up *)

Lemma live_spawn b s : live (spawn b s) ≡ₚ b :: (snd <$> tasks s).
Proof. unfold live. simpl. rewrite fmap_app. simpl. by rewrite Permutation_app_comm. Qed.

Lemma live_batch_loop s s' : batch_loop delay s = Some s' -> live s' ≡ₚ live s.
Proof.
  unfold batch_loop. destruct (now s <? wake_at s); [done|].
  destruct (current_batch s) as [b|] eqn:E; [destruct (_ =? 0)|]; intros [= <-]; unfold live; simpl; rewrite ?E; simpl; try done.
  rewrite fmap_app. simpl. by rewrite Permutation_app_comm.
Qed.

Lemma live_acquire i s s' : acquire i s = Some s' -> live s' = live s.
Proof.
  unfold acquire. destruct (tasks s !! i) as [[[] b]|] eqn:Hi; try done. destruct (0 <? semaphore s); [|done].
  intros [= <-]. unfold live. simpl. f_equal. rewrite list_fmap_insert. simpl.
  apply list_insert_id. by rewrite list_lookup_fmap, Hi.
Qed.

Lemma live_release i s b s' : release i s = Some (b, s') -> live s ≡ₚ b :: live s'.
Proof.
  unfold release. destruct (tasks s !! i) as [[[] b0]|] eqn:Hi; try done. intros [= <- <-]. unfold live. simpl.
  rewrite (delete_Permutation (tasks s) i (Executing, b0) Hi) at 1. simpl. by rewrite Permutation_middle.
Qed.

(** ** Progress *)

(** Steps left until every batch is finished. *)
Definition left (s : t) : Z := 3 * blen (option_list (current_batch s)) + 2 * blen (tasks s) - blen (executing s).

Lemma left_nonneg s : 0 <= left s.
Proof.
  unfold left, executing, blen. rewrite length_fmap. pose proof (length_filter (fun x : Stage * B => x.1 = Executing) (tasks s)). lia.
Qed.

Lemma left_count s : left s = 3 * blen (option_list (current_batch s)) + 2 * blen (tasks s) - count (tasks s).
Proof. done. Qed.

Lemma left_batch_loop s b s' : current_batch s = Some b -> batch_loop delay s = Some s' -> current_batch s' = None ->
  left s' = left s - 1.
Proof.
  intros E. unfold batch_loop. destruct (now s <? wake_at s); [done|]. rewrite E. destruct (_ =? 0); intros [= <-]; simpl; [|by rewrite E].
  intros _. rewrite !left_count. simpl. rewrite E, blen_app, count_app, count_cons.
  change (count []) with 0. change (is_executing (Acquiring, b)) with 0. change (blen [(Acquiring, b)]) with 1.
  change (blen (option_list (Some b))) with 1. change (blen []) with 0. lia.
Qed.

Lemma left_acquire i s s' : acquire i s = Some s' -> left s' = left s - 1.
Proof.
  unfold acquire. destruct (tasks s !! i) as [[[] b]|] eqn:Hi; try done. destruct (0 <? semaphore s); [|done].
  intros [= <-]. rewrite !left_count. simpl. rewrite (count_insert _ _ _ _ Hi). unfold is_executing, blen. cbn [fst].
  rewrite length_insert. lia.
Qed.

Lemma left_release i s b s' : release i s = Some (b, s') -> left s' = left s - 1.
Proof.
  unfold release. destruct (tasks s !! i) as [[[] b0]|] eqn:Hi; try done. intros [= <- <-]. rewrite !left_count. simpl.
  rewrite (count_delete _ _ _ Hi). unfold is_executing, blen. cbn [fst].
  rewrite length_delete by (by eexists). apply lookup_lt_Some in Hi. lia.
Qed.

Lemma left_pass dt s : left (pass dt s) = left s.
Proof. done. Qed.

(** While a batch is not finished, one of the steps that finish batches can be
    made, if necessary after waiting until the current batch is due. *)
Lemma progress s : good s -> 0 < left s ->
  (exists dt s', batch_loop delay (pass dt s) = Some s' /\ left s' < left s) \/
  (exists i s', acquire i s = Some s' /\ left s' < left s) \/
  (exists i b s', release i s = Some (b, s') /\ left s' < left s).
Proof.
  intros [H1 H2 H3 H4 H5] Hl. destruct (current_batch s) as [b|] eqn:E.
  { left. set (s1 := pass (Z.max (wake_at s) (created_at b + delay) - now s) s).
    destruct (H5 b eq_refl) as [Hc Hw].
    assert (batch_loop delay s1 = Some (sleep delay (spawn b s1))) as Hb.
    { unfold batch_loop. simpl. rewrite E, (proj2 (Z.ltb_ge _ _)) by lia.
      rewrite (proj2 (Z.eqb_eq (Z.max 0 _) 0)) by lia. done. }
    eexists _, _. split; [exact Hb|]. rewrite (left_batch_loop s1 b _ E Hb) by done. change (left s1) with (left s). lia. }
  right. destruct (executing s) as [|b bs] eqn:Ex.
  - left. rewrite left_count, E in Hl. unfold executing in Ex. fold (count (tasks s)) in Hl.
    unfold count in Hl. rewrite Ex in Hl. destruct (tasks s) as [|[[] b] ts] eqn:Et; simpl in Hl.
    + unfold blen in Hl. simpl in Hl. lia.
    + assert (0 < semaphore s) as Hp by (unfold blen in H2; simpl in H2; lia).
      eexists 0%nat, _. split; [unfold acquire; rewrite Et; simpl; rewrite (proj2 (Z.ltb_lt _ _) Hp); done|].
      rewrite (left_acquire 0 s); [lia|]. unfold acquire. rewrite Et. simpl. by rewrite (proj2 (Z.ltb_lt _ _) Hp).
    + by rewrite filter_cons_True in Ex.
  - right. assert (b ∈ executing s) as Hb by (rewrite Ex; left).
    apply list_elem_of_fmap in Hb as ([st b'] & -> & Hin). apply list_elem_of_filter in Hin as [Hst Hin].
    simpl in Hst. subst st. apply list_elem_of_lookup in Hin as [i Hi].
    exists i, b'. eexists. split; [unfold release; by rewrite Hi|].
    rewrite (left_release i s b'); [lia|]. unfold release. by rewrite Hi.
Qed.
End invariant.
End queue.
End Queue.
