(* ===== verification/DataLoader.v ===== *)
(** * [scuffle-batching]: the data loader (crates/batching/src/dataloader.rs)

    [load_many] puts keys into batches and waits for the results of the batches
    it used; batches are loaded by an executor, a trait that the user of the
    crate implements, so its answers are a parameter here. The state is the
    queue, the shared results (an [Arc] is an index into [results]) and the
    calls that have been made, with what each one waits for. An event is one
    stretch of code between two [await]s. *)

From stdpp Require Import base list numbers option gmap.
From S2P Require Import Prelude BatchQueue.

(** What an event leads to. *)
Inductive Next (S : Type) := Goes (s : S) | Blocked | Panics.
Arguments Goes {S}.
Arguments Blocked {S}.
Arguments Panics {S}.

Module DataLoader.
Section loader.
Context {K V : Type} `{Countable K}.

(** [values] is a [OnceCell<Option<HashMap>>]; [token] is a cancellation
    token. *)
Record BatchResult := mkResult { values : option (option (gmap K V)); cancelled : bool }.

Record Batch := mkBatch { items : gset K; result : nat; created_at : Z }.

Record BatchWaiting := mkWaiting { keys : gset K; waiting_on : nat }.

(** A call of [load_many], with its local variable [waiters]. *)
Record Call := mkCall { requested : list K; waiters : list BatchWaiting }.

Record t := mk {
  queue : Queue.t (B := Batch);
  results : list BatchResult;
  calls : list Call;
}.

Definition set_queue (q : Queue.t) (s : t) : t := mk q (results s) (calls s).

Definition new (concurrency delay now : Z) : t := mk (Queue.new concurrency delay now) [] [].

(** ** The builder *)

(** Durations are in milliseconds. *)
Record DataLoaderBuilder := mkBuilder { builder_batch_size : Z; builder_concurrency : Z; builder_delay : Z }.

Definition builder_new : DataLoaderBuilder := mkBuilder 1000 50 5.
Definition with_batch_size (batch_size : Z) (b : DataLoaderBuilder) : DataLoaderBuilder :=
  mkBuilder batch_size (builder_concurrency b) (builder_delay b).
Definition with_delay (delay : Z) (b : DataLoaderBuilder) : DataLoaderBuilder :=
  mkBuilder (builder_batch_size b) (builder_concurrency b) delay.
Definition with_concurrency (concurrency : Z) (b : DataLoaderBuilder) : DataLoaderBuilder :=
  mkBuilder (builder_batch_size b) concurrency (builder_delay b).

(** [build]: the batch size and the delay are parameters of the events. *)
Definition build (b : DataLoaderBuilder) (now : Z) : t := new (builder_concurrency b) (builder_delay b) now.

(** [Batch::new] *)
Definition batch_new (s : t) : Batch * t :=
  (mkBatch ∅ (length (results s)) (Queue.now (queue s)),
   mk (queue s) (results s ++ [mkResult None false]) (calls s)).

(** [waiters.last_mut().unwrap().keys.insert(item)] *)
Fixpoint add_key (item : K) (waiters : list BatchWaiting) : option (list BatchWaiting) :=
  match waiters with
  | [] => None
  | [w] => Some [mkWaiting ({[item]} ∪ keys w) (waiting_on w)]
  | w :: ws => ws' ← add_key item ws; Some (w :: ws')
  end.

(** The body of the loop of [load_many]; [None] is the [unwrap]. *)
Definition load_item (batch_size : Z) (item : K) (st : t * bool * list BatchWaiting) :
    option (t * bool * list BatchWaiting) :=
  let '(s, new_batch, waiters) := st in
  let '(b, s, new_batch) :=
    match Queue.current_batch (queue s) with
    | None => let '(b, s) := batch_new s in (b, s, true)
    | Some b => (b, s, new_batch)
    end in
  let b := mkBatch ({[item]} ∪ items b) (result b) (created_at b) in
  let waiters := if new_batch : bool then waiters ++ [mkWaiting ∅ (result b)] else waiters in
  waiters ← add_key item waiters;
  Some (set_queue (if batch_size <=? Z.of_nat (size (items b)) then Queue.spawn b (queue s)
                   else Queue.replace b (queue s)) s, false, waiters).

Fixpoint load_items (batch_size : Z) (keys : list K) (st : t * bool * list BatchWaiting) :
    option (t * bool * list BatchWaiting) :=
  match keys with
  | [] => Some st
  | item :: keys => st ← load_item batch_size item st; load_items batch_size keys st
  end.

(** [load_many] up to its first wait for a result. *)
Definition load_many (batch_size : Z) (keys : list K) (s : t) : option t :=
  '(s, _, waiters) ← load_items (Z.max 1 batch_size) keys (s, true, []);
  Some (mk (queue s) (results s) (calls s ++ [mkCall keys waiters])).

(** [BatchResult::wait]: pending, an error, or the values. *)
Definition wait (r : BatchResult) : option (option (gmap K V)) :=
  if cancelled r then Some (match values r with Some (Some m) => Some m | _ => None end) else None.

(** [results.extend(keys.into_iter().filter_map(..))] *)
Definition extend (acc : gmap K V) (keys : gset K) (m : gmap K V) : gmap K V :=
  filter (fun kv => kv.1 ∈ keys) m ∪ acc.

(** The rest of [load_many]: wait for one result after the other. *)
Fixpoint collect (rs : list BatchResult) (acc : gmap K V) (ws : list BatchWaiting) : option (option (gmap K V)) :=
  match ws with
  | [] => Some (Some acc)
  | w :: ws =>
      r ← rs !! waiting_on w;
      match wait r with
      | None => None
      | Some None => Some None
      | Some (Some m) => collect rs (extend acc (keys w) m) ws
      end
  end.

(** What a call has returned by now, if it has. *)
Definition returned (s : t) (c : Call) : option (option (gmap K V)) := collect (results s) ∅ (waiters c).

(** [load]: [into_values().next()] of the result. *)
Definition load_value (r : option (gmap K V)) : option (option V) := (fun m => snd <$> head (map_to_list m)) <$> r.

(** The end of [Batch::spawn]: the executor returned, or panicked ([None]); the
    drop guard cancels the token in either case. *)
Definition finish (i : nat) (outcome : option (option (gmap K V))) (s : t) : Next t :=
  match Queue.release i (queue s) with
  | None => Blocked
  | Some (b, q) =>
      match results s !! result b with
      | None => Panics
      | Some r =>
          match outcome, values r with
          | Some _, Some _ => Panics
          | Some v, None => Goes (mk q (<[result b := mkResult (Some v) true]> (results s)) (calls s))
          | None, v => Goes (mk q (<[result b := mkResult v true]> (results s)) (calls s))
          end
      end
  end.

Inductive Event :=
| Load (keys : list K)
| Pass (dt : Z)
| Wake
| Acquire (i : nat)
| Finish (i : nat) (outcome : option (option (gmap K V))).

Definition lift (s : t) (o : option Queue.t) : Next t := match o with Some q => Goes (set_queue q s) | None => Blocked end.

Definition next (batch_size delay : Z) (e : Event) (s : t) : Next t :=
  match e with
  | Load keys => match load_many batch_size keys s with Some s => Goes s | None => Panics end
  | Pass dt => Goes (set_queue (Queue.pass dt (queue s)) s)
  | Wake => lift s (Queue.batch_loop created_at delay (queue s))
  | Acquire i => lift s (Queue.acquire i (queue s))
  | Finish i outcome => finish i outcome s
  end.

(** ** Executions *)

(** What the executor may answer for a set of keys. *)
Context (fetcher : gset K -> option (option (gmap K V)) -> Prop).

Definition allowed (s : t) (e : Event) : Prop :=
  match e with
  | Finish i outcome => exists b, Queue.tasks (queue s) !! i = Some (Executing, b) /\ fetcher (items b) outcome
  | _ => True
  end.

Context (batch_size concurrency delay start : Z).

Inductive reachable : t -> Prop :=
| reach_new : reachable (new concurrency delay start)
| reach_step s e s' : reachable s -> allowed s e -> next batch_size delay e s = Goes s' -> reachable s'.

Inductive runs : t -> list Event -> t -> Prop :=
| runs_nil s : runs s [] s
| runs_cons s e s1 es s2 : allowed s e -> next batch_size delay e s = Goes s1 -> runs s1 es s2 -> runs s (e :: es) s2.
End loader.
End DataLoader.
