(* ===== verification/DataLoaderLaws.v ===== *)
(** * [scuffle-batching]: the data loader's invariant

    Every result a call waits for belongs to a batch that is not finished, whose
    keys include those of the call, or is filled in; so calls return what the
    executor says about their keys, and no call is forgotten. *)

From stdpp Require Import base list numbers option gmap.
From S2P Require Import Prelude BatchQueue DataLoader.

Module LoaderLaws.
Import DataLoader.

Section laws.
Context {K V : Type} `{Countable K}.
Context (fetcher : gset K -> option (option (gmap K V)) -> Prop).
Context (batch_size concurrency delay start : Z).
Local Abbreviation t := (DataLoader.t (K := K) (V := V)).
Local Abbreviation Batch := (DataLoader.Batch (K := K)).
Local Abbreviation BatchResult := (DataLoader.BatchResult (K := K) (V := V)).
Local Abbreviation BatchWaiting := (DataLoader.BatchWaiting (K := K)).
Local Abbreviation Call := (DataLoader.Call (K := K)).
Local Abbreviation live s := (Queue.live (queue s)).

(** What is known of a waiter: its keys are in its batch, or the executor has
    answered for them. *)
Definition waiter_ok (batches : list Batch) (rs : list BatchResult) (w : BatchWaiting) : Prop :=
  (waiting_on w < length rs)%nat /\
  (forall b, b ∈ batches -> result b = waiting_on w -> keys w ⊆ items b) /\
  (forall m, rs !! waiting_on w = Some (mkResult (Some (Some m)) true) -> exists ks, fetcher ks (Some (Some m)) /\ keys w ⊆ ks).

Definition all_keys (ws : list BatchWaiting) : gset K := ⋃ (keys <$> ws).

Definition call_ok (batches : list Batch) (rs : list BatchResult) (c : Call) : Prop :=
  all_keys (waiters c) = list_to_set (requested c) /\ Forall (waiter_ok batches rs) (waiters c).

Record inv (s : t) : Prop := {
  inv_queue : Queue.ok created_at concurrency delay (queue s);
  inv_size : Forall (fun b => 1 <= Z.of_nat (size (items b)) <= Z.max 1 batch_size) (live s);
  inv_room : forall b, Queue.current_batch (queue s) = Some b -> Z.of_nat (size (items b)) < Z.max 1 batch_size;
  inv_ids : NoDup (result <$> live s);
  inv_live : Forall (fun b => results s !! result b = Some (mkResult None false)) (live s);
  inv_done : forall i r, results s !! i = Some r -> i ∉ (result <$> live s) -> cancelled r = true;
  inv_calls : Forall (call_ok (live s) (results s)) (calls s);
}.

(** Waiters stay satisfied while batches grow and new ones come in. *)
Lemma waiter_ok_mono bs bs' rs rs' w :
  (forall b', b' ∈ bs' -> (length rs <= result b')%nat \/ exists b, b ∈ bs /\ result b = result b' /\ items b ⊆ items b') ->
  (forall i, (i < length rs)%nat -> rs' !! i = rs !! i) -> (length rs <= length rs')%nat ->
  waiter_ok bs rs w -> waiter_ok bs' rs' w.
Proof.
  intros Hb Hr Hl (Hw & Hk & Hv). split; [lia|]. split.
  - intros b' Hin E. destruct (Hb b' Hin) as [|(b & Hin' & E' & Hsub)]; [lia|].
    specialize (Hk b Hin' ltac:(congruence)). set_solver.
  - intros m. rewrite Hr by done. apply Hv.
Qed.

Lemma call_ok_mono bs bs' rs rs' c :
  (forall b', b' ∈ bs' -> (length rs <= result b')%nat \/ exists b, b ∈ bs /\ result b = result b' /\ items b ⊆ items b') ->
  (forall i, (i < length rs)%nat -> rs' !! i = rs !! i) -> (length rs <= length rs')%nat ->
  call_ok bs rs c -> call_ok bs' rs' c.
Proof.
  intros Hb Hr Hl [Hu Hw]. split; [done|]. eapply Forall_impl; [exact Hw|]. intros w. by apply waiter_ok_mono.
Qed.

Lemma loader_inv_new : 0 <= delay -> inv (new concurrency delay start).
Proof.
  intros Hd. split; try (by constructor); try done. by apply Queue.ok_new.
Qed.

Lemma inv_in_range s b : inv s -> b ∈ live s -> (result b < length (results s))%nat.
Proof.
  intros Hs Hb. pose proof (inv_live s Hs) as Hl. rewrite Forall_forall in Hl. by eapply lookup_lt_Some, Hl.
Qed.

(** A step of the queue that keeps its batches. *)
Lemma inv_queue_step s q : inv s -> Queue.ok created_at concurrency delay q -> Queue.live q ≡ₚ live s ->
  (forall b, Queue.current_batch q = Some b -> Queue.current_batch (queue s) = Some b) -> inv (set_queue q s).
Proof.
  intros [H1 H2 H3 H4 H5 H6 H7] Hq Hl Hc. split; simpl; try done.
  - by rewrite Hl.
  - auto.
  - by rewrite Hl.
  - by rewrite Hl.
  - intros i r Hi Hn. apply (H6 i r Hi). by rewrite <-Hl.
  - eapply Forall_impl; [exact H7|]. intros c. apply call_ok_mono; try done.
    intros b' Hb'. right. exists b'. by rewrite <-Hl.
Qed.

(** ** [load_many] *)

(** The batch [b], with one more key, becomes the current one or is spawned. *)
Definition put (b : Batch) (q : Queue.t) : Queue.t :=
  if Z.max 1 batch_size <=? Z.of_nat (size (items b)) then Queue.spawn b q else Queue.replace b q.

Lemma put_live b q : Queue.live (put b q) ≡ₚ b :: (snd <$> Queue.tasks q).
Proof. unfold put. case_match; [apply Queue.live_spawn|done]. Qed.

Definition in_tasks (s : t) : list Batch := snd <$> Queue.tasks (queue s).

(** [b0] is the batch that the next key goes into, in the state [s1] that [s]
    becomes when a new batch is made if there is none. *)
Record opened (s s1 : t) (b0 : Batch) : Prop := {
  opened_queue : queue s1 = queue s;
  opened_calls : calls s1 = calls s;
  opened_ids : NoDup (result b0 :: (result <$> in_tasks s));
  opened_results : Forall (fun b => results s1 !! result b = Some (mkResult None false)) (b0 :: in_tasks s);
  opened_sizes : Forall (fun b => 1 <= Z.of_nat (size (items b)) <= Z.max 1 batch_size) (in_tasks s);
  opened_room : Z.of_nat (size (items b0)) < Z.max 1 batch_size;
  opened_done : forall i r, results s1 !! i = Some r -> i ∉ (result b0 :: (result <$> in_tasks s)) -> cancelled r = true;
  opened_old : forall i, (i < length (results s))%nat -> results s1 !! i = results s !! i;
  opened_more : (length (results s) <= length (results s1))%nat;
  opened_batch : (length (results s) <= result b0)%nat \/ b0 ∈ live s;
  opened_time : created_at b0 = Queue.now (queue s) \/
    exists b1, Queue.current_batch (queue s) = Some b1 /\ created_at b0 = created_at b1;
}.

Lemma live_tasks s : live s = option_list (Queue.current_batch (queue s)) ++ in_tasks s.
Proof. done. Qed.

Lemma opened_current s b0 : inv s -> Queue.current_batch (queue s) = Some b0 -> opened s s b0.
Proof.
  intros [H1 H2 H3 H4 H5 H6 H7] E. rewrite live_tasks, E in *. cbn [option_list app] in *.
  apply List.Forall_cons_iff in H2 as [_ H2].
  split; try done; [by apply H3|right; rewrite live_tasks, E; left|right; by exists b0].
Qed.

Lemma opened_new s : inv s -> Queue.current_batch (queue s) = None ->
  let '(b0, s1) := batch_new s in opened s s1 b0.
Proof.
  intros [H1 H2 H3 H4 H5 H6 H7] E. rewrite live_tasks, E in *. cbn [option_list app] in *. unfold batch_new.
  assert (Forall (fun b => (result b < length (results s))%nat) (in_tasks s)) as Hr.
  { eapply Forall_impl; [exact H5|]. intros x Hx. exact (lookup_lt_Some _ _ _ Hx). }
  rewrite Forall_forall in Hr.
  split; try done; cbn [result items created_at results].
  - constructor; [|done]. intros (x & Ex & Hx)%list_elem_of_fmap. specialize (Hr x Hx). lia.
  - constructor; [cbn [result]; by rewrite lookup_app_r, Nat.sub_diag by lia|]. rewrite Forall_forall in *.
    intros x Hx. rewrite lookup_app_l by (by apply Hr). by apply H5.
  - rewrite size_empty. lia.
  - intros i r Hi [Hne Hn]%not_elem_of_cons.
    apply lookup_app_Some in Hi as [Hi|[Hi1 Hi2]]; [by apply (H6 i)|].
    apply list_lookup_singleton_Some in Hi2 as [Hi2 _]. lia.
  - intros i Hi. by rewrite lookup_app_l.
  - rewrite length_app. lia.
  - by left.
  - by left.
Qed.

Lemma size_insert (item : K) (xs : gset K) : (1 <= size ({[item]} ∪ xs) <= S (size xs))%nat.
Proof.
  split.
  - enough (size ({[item]} ∪ xs) <> 0)%nat by lia. apply size_non_empty_iff. clear. set_solver.
  - destruct (decide (item ∈ xs)); [|rewrite size_union, size_singleton by set_solver; lia].
    replace ({[item]} ∪ xs) with xs by set_solver. lia.
Qed.

Definition with_key (item : K) (b : Batch) : Batch := mkBatch ({[item]} ∪ items b) (result b) (created_at b).

(** The step of [load_item] after the batch is known. *)
Lemma inv_put s s1 b0 item : inv s -> opened s s1 b0 ->
  let s2 := set_queue (put (with_key item b0) (queue s1)) s1 in
  inv s2 /\ (forall w, waiter_ok (live s) (results s) w -> waiter_ok (live s2) (results s2) w).
Proof.
  intros Hs [O1 O2 O3 O4 O5 O6 O7 O8 O9 O10 O11] s2. pose proof (size_insert item (items b0)) as Hsz.
  assert (live s2 ≡ₚ with_key item b0 :: in_tasks s) as Hl by (subst s2; simpl; rewrite put_live, O1; done).
  assert (forall w, waiter_ok (live s) (results s) w -> waiter_ok (live s2) (results s2) w) as Hmono.
  { intros w. apply waiter_ok_mono; try done. intros b' Hb'. rewrite Hl in Hb'.
    apply elem_of_cons in Hb' as [-> | Hb'].
    - destruct O10 as [|Hin]; [by left|]. right. exists b0. split_and!; try done. apply union_subseteq_r.
    - right. exists b'. split_and!; try done. rewrite live_tasks. apply elem_of_app. by right. }
  split; [|done]. split; rewrite ?Hl; try done.
  - simpl. rewrite O1. unfold put. case_match; [by apply Queue.ok_spawn, inv_queue|].
    by apply Queue.ok_replace; [apply inv_queue|].
  - constructor; [simpl; lia|done].
  - intros b' E. simpl in E. unfold put in E. case_match eqn:Eb; [done|]. injection E as <-. apply Z.leb_gt in Eb. done.
  - apply List.Forall_cons_iff in O4 as [? ?]. by constructor.
  - intros i r Hi Hn. apply (O7 i r Hi). by rewrite Hl in Hn.
  - simpl. rewrite O2. eapply Forall_impl; [exact (inv_calls s Hs)|]. intros c [Hu Hw].
    split; [done|]. eapply Forall_impl; [exact Hw|]. exact Hmono.
Qed.

(** What holds between two items: the last waiter is that of the current batch,
    if this call has used it. *)
Record looping (s : t) (new_batch : bool) (ws : list BatchWaiting) (seen : gset K) : Prop := {
  looping_inv : inv s;
  looping_ok : Forall (waiter_ok (live s) (results s)) ws;
  looping_keys : all_keys ws = seen;
  looping_last : new_batch = false -> forall b, Queue.current_batch (queue s) = Some b ->
    exists ws0 w, ws = ws0 ++ [w] /\ waiting_on w = result b;
  looping_new : new_batch = true -> ws = [];
}.

Lemma add_key_last (item : K) (ws : list BatchWaiting) w :
  add_key item (ws ++ [w]) = Some (ws ++ [mkWaiting ({[item]} ∪ keys w) (waiting_on w)]).
Proof.
  induction ws as [|x ws IH]; [done|]. simpl. rewrite IH. by destruct ws.
Qed.

Lemma all_keys_app ws ws' : all_keys (ws ++ ws') = all_keys ws ∪ all_keys ws'.
Proof. unfold all_keys. by rewrite fmap_app, union_list_app_L. Qed.

Lemma all_keys_one w : all_keys [w] = keys w.
Proof. unfold all_keys. simpl. set_solver. Qed.

(** The waiter of the batch just used. *)
Lemma waiter_ok_last s s1 b0 item w : inv s -> opened s s1 b0 -> waiting_on w = result b0 ->
  keys w = ∅ \/ waiter_ok (live s) (results s) w ->
  let s2 := set_queue (put (with_key item b0) (queue s1)) s1 in
  waiter_ok (live s2) (results s2) (mkWaiting ({[item]} ∪ keys w) (waiting_on w)).
Proof.
  intros Hs Ho Ew Hw s2. destruct (inv_put s s1 b0 item Hs Ho) as [Hi Hmono]. fold s2 in Hi, Hmono.
  assert (live s2 ≡ₚ with_key item b0 :: in_tasks s) as Hl by (subst s2; simpl; rewrite put_live, (opened_queue _ _ _ Ho); done).
  assert (with_key item b0 ∈ live s2) as Hin by (rewrite Hl; left).
  pose proof (inv_ids s2 Hi) as Hn. pose proof (inv_live s2 Hi) as Hlv. rewrite Forall_forall in Hlv.
  pose proof (Hlv _ Hin) as Hr. simpl in Hr. unfold waiter_ok. cbn [keys waiting_on]. rewrite Ew. split_and!.
  - by eapply lookup_lt_Some.
  - intros b Hb E. assert (b = with_key item b0) as ->.
    { rewrite Hl in Hb, Hn. apply elem_of_cons in Hb as [|Hb]; [done|]. apply NoDup_cons in Hn as [Hn _].
      destruct Hn. apply list_elem_of_fmap. by exists b. }
    destruct Hw as [-> | Hw]; [clear; simpl; set_solver|]. destruct (Hmono w Hw) as (_ & Hk & _).
    specialize (Hk _ Hin ltac:(done)). apply union_subseteq. split; [apply union_subseteq_l|exact Hk].
  - intros m E. simpl in E. rewrite Hr in E. done.
Qed.

Lemma load_item_ok s new_batch ws seen item : looping s new_batch ws seen ->
  exists s' ws', load_item (Z.max 1 batch_size) item (s, new_batch, ws) = Some (s', false, ws') /\
    looping s' false ws' ({[item]} ∪ seen) /\ calls s' = calls s.
Proof.
  intros [Hs Hok Hk Hlast Hnew].
  assert (exists b0 s1 nb, match Queue.current_batch (queue s) with
      | None => let '(b, s) := batch_new s in (b, s, true) | Some b => (b, s, new_batch) end = (b0, s1, nb) /\
    opened s s1 b0 /\ (nb = false -> exists ws0 w, ws = ws0 ++ [w] /\ waiting_on w = result b0)) as (b0 & s1 & nb & E & Ho & Hl).
  { destruct (Queue.current_batch (queue s)) as [b|] eqn:Eb.
    - exists b, s, new_batch. split_and!; [done|by apply opened_current|]. intros ->. by apply Hlast.
    - pose proof (opened_new s Hs Eb) as Ho. destruct (batch_new s) as [b0 s1]. by exists b0, s1, true. }
  unfold load_item. rewrite E. fold (with_key item b0). fold (put (with_key item b0) (queue s1)).
  assert (exists ws0 w, (if nb then ws ++ [mkWaiting ∅ (result (with_key item b0))] else ws) = ws0 ++ [w] /\
    waiting_on w = result b0 /\ (keys w = ∅ \/ waiter_ok (live s) (results s) w) /\
    Forall (waiter_ok (live s) (results s)) ws0 /\ all_keys (ws0 ++ [w]) = all_keys ws) as (ws0 & w & -> & Ew & Hw & H0 & Hu).
  { destruct nb.
    - exists ws, (mkWaiting ∅ (result b0)). split_and!; try done; [by left|]. rewrite all_keys_app, all_keys_one. simpl. by rewrite union_empty_r_L.
    - destruct (Hl eq_refl) as (ws0 & w & -> & Ew). apply Forall_app in Hok as [H0 Hw]. apply List.Forall_cons_iff in Hw as [Hw _].
      exists ws0, w. split_and!; try done. by right. }
  rewrite add_key_last. cbn [option_bind mbind]. eexists _, _. split; [done|].
  destruct (inv_put s s1 b0 item Hs Ho) as [Hi Hmono]. split; [|apply (opened_calls _ _ _ Ho)]. split; try done.
  - apply Forall_app. split; [eapply Forall_impl; [exact H0|exact Hmono]|]. constructor; [|done]. by apply (waiter_ok_last s s1 b0 item w).
  - rewrite <-Hk, <-Hu, !all_keys_app, !all_keys_one. clear. simpl. set_solver.
  - intros _ b Eb. eexists ws0, _. split; [done|]. simpl in *. unfold put in Eb. case_match; [done|]. by injection Eb as <-.
Qed.

Lemma load_items_ok items : forall s new_batch ws seen, looping s new_batch ws seen ->
  exists s' nb' ws', load_items (Z.max 1 batch_size) items (s, new_batch, ws) = Some (s', nb', ws') /\
    looping s' nb' ws' (list_to_set items ∪ seen) /\ calls s' = calls s.
Proof.
  induction items as [|item items IH]; intros s nb ws seen Hl; cbn [load_items].
  { exists s, nb, ws. split_and!; try done. by replace (list_to_set [] ∪ seen) with seen by (clear; set_solver). }
  destruct (load_item_ok s nb ws seen item Hl) as (s1 & ws1 & -> & H1 & C1). simpl.
  destruct (IH s1 false ws1 _ H1) as (s2 & nb2 & ws2 & -> & H2 & C2). exists s2, nb2, ws2. split_and!; try done; [|congruence].
  by replace ({[item]} ∪ list_to_set items ∪ seen) with (list_to_set items ∪ ({[item]} ∪ seen)) by (clear; set_solver).
Qed.

Lemma load_many_ok items s : inv s -> exists s', load_many batch_size items s = Some s' /\ inv s'.
Proof.
  intros Hs. destruct (load_items_ok items s true [] ∅) as (s' & nb & ws & E & [Hi Hok Hk _ _] & Hc).
  { by split. }
  unfold load_many. rewrite E. simpl. eexists. split; [done|]. destruct Hi as [I1 I2 I3 I4 I5 I6 I7].
  split; try done. simpl. apply Forall_app. split; [done|]. constructor; [|done]. split; [|done]. simpl. rewrite Hk. clear. set_solver.
Qed.

(** ** The other events *)

Lemma finish_waiter s i b q v w : inv s -> Queue.release i (queue s) = Some (b, q) ->
  (forall m, v = Some (Some m) -> fetcher (items b) v) ->
  waiter_ok (live s) (results s) w -> waiter_ok (Queue.live q) (<[result b := mkResult v true]> (results s)) w.
Proof.
  intros Hs Hr Hv (Hw & Hk & Hd). pose proof (Queue.live_release i (queue s) b q Hr) as Hl.
  pose proof (inv_in_range s b Hs ltac:(rewrite Hl; left)) as Hb.
  split; [by rewrite length_insert|]. split.
  - intros b' Hin. apply Hk. rewrite Hl. by right.
  - intros m E. destruct (decide (waiting_on w = result b)) as [Ew|Ew].
    + rewrite Ew, list_lookup_insert_eq in E by done. simplify_eq. exists (items b). split; [by apply (Hv m)|].
      apply (Hk b); [rewrite Hl; left|done].
    + rewrite list_lookup_insert_ne in E by done. by apply Hd.
Qed.

Lemma finish_inv s i b q v : inv s -> Queue.release i (queue s) = Some (b, q) ->
  (forall m, v = Some (Some m) -> fetcher (items b) v) ->
  inv (mk q (<[result b := mkResult v true]> (results s)) (calls s)).
Proof.
  intros Hs Hr Hv. pose proof Hs as [H1 H2 H3 H4 H5 H6 H7].
  pose proof (Queue.live_release i (queue s) b q Hr) as Hl.
  assert (Queue.current_batch q = Queue.current_batch (queue s)) as Hc.
  { unfold Queue.release in Hr. repeat case_match; simplify_eq. done. }
  rewrite Hl in H2, H4, H5. apply List.Forall_cons_iff in H2 as [_ H2]. apply List.Forall_cons_iff in H5 as [_ H5].
  apply NoDup_cons in H4 as [Hnot H4].
  split; simpl; try done.
  - by eapply Queue.ok_release.
  - rewrite Hc. auto.
  - rewrite Forall_forall in *. intros x Hx. rewrite list_lookup_insert_ne; [by apply H5|].
    intros E. apply Hnot. rewrite E. apply list_elem_of_fmap. by exists x.
  - intros j r Hj Hn. destruct (decide (j = result b)) as [-> |Hne].
    + rewrite list_lookup_insert_eq in Hj; [by simplify_eq|]. apply (inv_in_range s b Hs). rewrite Hl. left.
    + rewrite list_lookup_insert_ne in Hj by done. apply (H6 j r Hj). rewrite Hl. by apply not_elem_of_cons.
  - eapply Forall_impl; [exact H7|]. intros c [Hu Hw]. split; [done|]. eapply Forall_impl; [exact Hw|].
    intros w. by apply (finish_waiter s i b q v w).
Qed.

(** No event panics, and the invariant is kept. *)
Lemma next_ok s e : inv s -> allowed fetcher s e ->
  match next batch_size delay e s with Goes s' => inv s' | Blocked => True | Panics => False end.
Proof.
  intros Hs Ha. destruct e as [items|dt| |i|i outcome]; simpl.
  - by destruct (load_many_ok items s Hs) as (s' & -> & Hi).
  - apply inv_queue_step; try done. apply Queue.ok_pass, (inv_queue s Hs).
  - destruct (Queue.batch_loop created_at delay (queue s)) as [q|] eqn:E; [|done]. simpl. apply inv_queue_step; [done| | |].
    + eapply Queue.ok_batch_loop; [apply (inv_queue s Hs)|exact E].
    + by eapply Queue.live_batch_loop.
    + unfold Queue.batch_loop in E. intros b. repeat case_match; simplify_eq; simpl; done || congruence.
  - destruct (Queue.acquire i (queue s)) as [q|] eqn:E; [|done]. simpl. apply inv_queue_step; [done| | |].
    + eapply Queue.ok_acquire; [apply (inv_queue s Hs)|exact E].
    + by rewrite (Queue.live_acquire i _ _ E).
    + unfold Queue.acquire in E. intros b. repeat case_match; simplify_eq; done.
  - unfold finish. destruct (Queue.release i (queue s)) as [[b q]|] eqn:E; [|done].
    pose proof (inv_live s Hs) as Hlv. rewrite Forall_forall in Hlv.
    rewrite (Hlv b) by (rewrite (Queue.live_release i _ _ _ E); left). cbn [values].
    destruct Ha as (b' & Ht & Hf). unfold Queue.release in E. rewrite Ht in E. injection E as <- <-.
    destruct outcome as [v|]; apply (finish_inv s i); try done; try (unfold Queue.release; by rewrite Ht).
Qed.

Lemma reachable_inv s : 0 <= delay -> reachable fetcher batch_size concurrency delay start s -> inv s.
Proof.
  intros Hd. induction 1 as [|s e s' _ IH Ha E]; [by apply loader_inv_new|]. pose proof (next_ok s e IH Ha) as Hn. by rewrite E in Hn.
Qed.

(** ** What calls return *)

Lemma extend_lookup (acc : gmap K V) (ks : gset K) m k :
  extend acc ks m !! k = if decide (k ∈ ks) then union_with (fun x _ => Some x) (m !! k) (acc !! k) else acc !! k.
Proof.
  unfold extend. rewrite lookup_union, map_lookup_filter. case_decide as Hk.
  - destruct (m !! k) eqn:E; simpl; [|by destruct (acc !! k)]. rewrite option_guard_True by done. by destruct (acc !! k).
  - destruct (m !! k) eqn:E; simpl; [|by destruct (acc !! k)]. rewrite option_guard_False by done. by destruct (acc !! k).
Qed.

(** The executor looks keys up: what it returns for a batch, when it succeeds,
    agrees with the data. The result so far is then the data, restricted to the
    keys so far. *)
Lemma collect_ok (db : K -> option V) bs rs ws :
  (forall ks m k, fetcher ks (Some (Some m)) -> k ∈ ks -> m !! k = db k) ->
  forall acc seen r, Forall (waiter_ok bs rs) ws ->
  (forall k, acc !! k = if decide (k ∈ seen) then db k else None) ->
  collect rs acc ws = Some (Some r) ->
  forall k, r !! k = if decide (k ∈ seen ∪ all_keys ws) then db k else None.
Proof.
  intros Hdb. induction ws as [|w ws IH]; intros acc seen r Hok Hacc Hc k; cbn [collect] in Hc.
  { simplify_eq. rewrite Hacc. change (all_keys []) with (∅ : gset K). by rewrite union_empty_r_L. }
  apply List.Forall_cons_iff in Hok as [(_ & _ & Hw) Hok].
  apply bind_Some in Hc as (x & Ex & Hc). unfold wait in Hc. destruct x as [v c]. simpl in Hc.
  destruct c; [|done]. destruct v as [[m|]|]; try done. destruct (Hw m Ex) as (ks & Hf & Hsub).
  replace (seen ∪ all_keys (w :: ws)) with ((seen ∪ keys w) ∪ all_keys ws)
    by (change (w :: ws) with ([w] ++ ws); by rewrite all_keys_app, all_keys_one, (assoc_L (∪))).
  apply (IH (extend acc (keys w) m)); [done| |done]. intros k'. rewrite extend_lookup, Hacc.
  destruct (decide (k' ∈ keys w)) as [Hin|Hin].
  - rewrite (Hdb ks m k') by auto. rewrite (decide_True (P := k' ∈ seen ∪ keys w)) by (apply elem_of_union; by right).
    case_decide; destruct (db k'); done.
  - destruct (decide (k' ∈ seen)); [rewrite decide_True|rewrite decide_False]; try done; rewrite elem_of_union; tauto.
Qed.

(** When nothing is left in the queue every call has returned. *)
Lemma collect_complete (rs : list BatchResult) ws : forall acc, (forall w, w ∈ ws -> exists r, rs !! waiting_on w = Some r /\ cancelled r = true) ->
  exists o, collect rs acc ws = Some o.
Proof.
  induction ws as [|w ws IH]; intros acc Hw; cbn [collect]; [by eexists|].
  destruct (Hw w ltac:(left)) as (r & -> & Hr). simpl. unfold wait. rewrite Hr.
  destruct (values r) as [[m|]|]; [|by eexists..]. apply IH. intros w' Hin. apply Hw. by right.
Qed.

Lemma all_returned s c : inv s -> Queue.left (queue s) = 0 -> c ∈ calls s -> exists o, returned s c = Some o.
Proof.
  intros Hs Hl Hc. apply collect_complete. intros w Hw.
  pose proof (inv_calls s Hs) as Hcs. rewrite Forall_forall in Hcs. destruct (Hcs c Hc) as [_ Hws].
  rewrite Forall_forall in Hws. destruct (Hws w Hw) as (Hr & _). apply lookup_lt_is_Some in Hr as [r Hr].
  exists r. split; [done|]. apply (inv_done s Hs _ _ Hr).
  assert (live s = []) as ->; [|apply not_elem_of_nil]. unfold Queue.left, Queue.executing in Hl.
  pose proof (length_filter (fun x : Stage * Batch => x.1 = Executing) (Queue.tasks (queue s))) as Hf.
  rewrite live_tasks. unfold in_tasks. unfold blen in Hl. rewrite length_fmap in Hl.
  destruct (Queue.current_batch (queue s)); simpl in Hl; [lia|]. destruct (Queue.tasks (queue s)); [done|]. simpl in *. lia.
Qed.

(** ** Every call returns *)

Context (Hanswers : forall ks, exists outcome, fetcher ks outcome).

Definition not_load (e : Event (K := K) (V := V)) : Prop := match e with Load _ => False | _ => True end.

(** One more batch on its way. *)
Lemma step_forward s : inv s -> 0 < Queue.left (queue s) ->
  exists es s', runs fetcher batch_size delay s es s' /\ Forall not_load es /\ inv s' /\ calls s' = calls s /\
    Queue.left (queue s') < Queue.left (queue s).
Proof.
  intros Hs Hl. destruct (Queue.progress created_at concurrency delay (queue s) (inv_queue s Hs) Hl)
    as [(dt & q & E & Hlt)|[(i & q & E & Hlt)|(i & b & q & E & Hlt)]].
  - exists [Pass dt; Wake], (set_queue q s). pose proof (next_ok s (Pass dt) Hs I) as H1. cbn [next] in H1.
    pose proof (next_ok _ Wake H1 I) as H2. cbn [next lift queue set_queue] in H2. rewrite E in H2.
    split_and!; try done; [|by repeat constructor].
    eapply runs_cons; [done|reflexivity|]. eapply runs_cons; [done|simpl; rewrite E; reflexivity|]. apply runs_nil.
  - exists [Acquire i], (set_queue q s). pose proof (next_ok s (Acquire i) Hs I) as H1. cbn [next lift] in H1. rewrite E in H1.
    split_and!; try done; [|by repeat constructor].
    eapply runs_cons; [done|simpl; rewrite E; reflexivity|]. apply runs_nil.
  - destruct (Hanswers (items b)) as [o Ho].
    assert (allowed fetcher s (Finish i o)) as Ha.
    { exists b. split; [|done]. unfold Queue.release in E. repeat case_match; simplify_eq. done. }
    pose proof (next_ok s (Finish i o) Hs Ha) as H1.
    assert (exists v, next batch_size delay (Finish i o) s = Goes (mk q (<[result b := mkResult v true]> (results s)) (calls s))) as [v Ev].
    { simpl in *. unfold finish in *. rewrite E in *. destruct (results s !! result b); [|done].
      destruct o; [|by eexists]. destruct (values b0); [done|by eexists]. }
    rewrite Ev in H1. exists [Finish i o]. eexists. split; [by eapply runs_cons; [| |apply runs_nil]|].
    split_and!; try done. by repeat constructor.
Qed.

Lemma runs_app s es s1 es' s2 : runs fetcher batch_size delay s es s1 -> runs fetcher batch_size delay s1 es' s2 ->
  runs fetcher batch_size delay s (es ++ es') s2.
Proof. induction 1; [done|]. intros. simpl. eapply runs_cons; eauto. Qed.

Lemma drain n : forall s, inv s -> Queue.left (queue s) <= Z.of_nat n ->
  exists es s', runs fetcher batch_size delay s es s' /\ Forall not_load es /\ inv s' /\ calls s' = calls s /\
    Queue.left (queue s') = 0.
Proof.
  induction n as [|n IH]; intros s Hs Hn.
  { exists [], s. split_and!; try done; [apply runs_nil|]. pose proof (Queue.left_nonneg (queue s)). lia. }
  destruct (decide (Queue.left (queue s) = 0)) as [E|E].
  { exists [], s. split_and!; try done. apply runs_nil. }
  pose proof (Queue.left_nonneg (queue s)) as H0.
  destruct (step_forward s Hs ltac:(lia)) as (es & s1 & R1 & N1 & I1 & C1 & L1).
  destruct (IH s1 I1 ltac:(lia)) as (es' & s2 & R2 & N2 & I2 & C2 & L2).
  exists (es ++ es'), s2. split_and!; try done; [by eapply runs_app|by apply Forall_app|congruence].
Qed.
End laws.
End LoaderLaws.
