(* ===== verification/Batcher.v ===== *)
(** * [scuffle-batching]: the batcher (crates/batching/src/batch.rs)

    [execute_many] queues requests, each with a oneshot channel for its
    response, and waits for the channels in order. The executor, a trait that
    the user of the crate implements, is given the requests of a batch with the
    sending halves and may answer or drop each of them at any time, also after
    its [execute] has returned. A channel is an index into [channels]. *)

From stdpp Require Import base list numbers option gmap.
From S2P Require Import Prelude BatchQueue.

Module Batcher.
Section batcher.
Context {Req Resp : Type}.

(** A oneshot channel: open, with its value, or with its sender dropped. *)
Inductive Channel := Open | Sent (v : Resp) | Closed.

(** A request with its [BatchResponse]. *)
Abbreviation Item := (Req * nat)%type.

Record Batch := mkBatch { items : list Item; created_at : Z }.

(** A call of [execute_many], with its local variable [responses]. *)
Record Call := mkCall { requests : list Req; responses : list nat }.

(** [handed]: the items that the executor has been given and not used up. *)
Record t := mk {
  queue : Queue.t (B := Batch);
  channels : list Channel;
  handed : list Item;
  calls : list Call;
}.

Definition set_queue (q : Queue.t) (s : t) : t := mk q (channels s) (handed s) (calls s).

Definition new (concurrency delay now : Z) : t := mk (Queue.new concurrency delay now) [] [] [].

(** ** The builder *)

(** Durations are in milliseconds. *)
Record BatcherBuilder := mkBuilder { builder_batch_size : Z; builder_concurrency : Z; builder_delay : Z }.

Definition builder_new : BatcherBuilder := mkBuilder 1000 50 5.
Definition with_batch_size (batch_size : Z) (b : BatcherBuilder) : BatcherBuilder :=
  mkBuilder batch_size (builder_concurrency b) (builder_delay b).
Definition with_delay (delay : Z) (b : BatcherBuilder) : BatcherBuilder :=
  mkBuilder (builder_batch_size b) (builder_concurrency b) delay.
Definition with_concurrency (concurrency : Z) (b : BatcherBuilder) : BatcherBuilder :=
  mkBuilder (builder_batch_size b) concurrency (builder_delay b).

(** [build]: the batch size and the delay are parameters of the events. *)
Definition build (b : BatcherBuilder) (now : Z) : t := new (builder_concurrency b) (builder_delay b) now.

(** The body of the loop of [execute_many]. *)
Definition execute_item (batch_size : Z) (item : Req) (st : t * list nat) : t * list nat :=
  let '(s, responses) := st in
  let b := default (mkBatch [] (Queue.now (queue s))) (Queue.current_batch (queue s)) in
  let ch := length (channels s) in
  let b := mkBatch (items b ++ [(item, ch)]) (created_at b) in
  (mk (if batch_size <=? blen (items b) then Queue.spawn b (queue s) else Queue.replace b (queue s))
     (channels s ++ [Open]) (handed s) (calls s), responses ++ [ch]).

Definition execute_items (batch_size : Z) (items : list Req) (st : t * list nat) : t * list nat :=
  foldl (fun st item => execute_item batch_size item st) st items.

(** [execute_many] up to its first wait for a response. *)
Definition execute_many (batch_size : Z) (items : list Req) (s : t) : t :=
  let '(s, responses) := execute_items (Z.max 1 batch_size) items (s, []) in
  mk (queue s) (channels s) (handed s) (calls s ++ [mkCall items responses]).

(** The rest: [results.push(response.await.ok())] for every response. *)
Fixpoint collect (cs : list Channel) (responses : list nat) : option (list (option Resp)) :=
  match responses with
  | [] => Some []
  | ch :: responses =>
      c ← cs !! ch;
      match c with
      | Open => None
      | Sent v => rs ← collect cs responses; Some (Some v :: rs)
      | Closed => rs ← collect cs responses; Some (None :: rs)
      end
  end.

Definition returned (s : t) (c : Call) : option (list (option Resp)) := collect (channels s) (responses c).

(** [execute]: [pop()?] of the results of one request. *)
Definition execute_value (rs : list (option Resp)) : option Resp := mjoin (last rs).

Inductive Event :=
| Execute (items : list Req)
| Pass (dt : Z)
| Wake
| Acquire (i : nat)
| Done (i : nat)
| Send (n : nat) (v : Resp)
| Drop (n : nat).

(** [executor.execute(self.items)] once the permit is there. *)
Definition acquire (i : nat) (s : t) : option t :=
  q ← Queue.acquire i (queue s);
  '(_, b) ← Queue.tasks (queue s) !! i;
  Some (mk q (channels s) (handed s ++ items b) (calls s)).

(** The executor uses up one of the items it holds: [BatchResponse::send], or
    dropping it. *)
Definition settle (n : nat) (c : Channel) (s : t) : option t :=
  '(_, ch) ← handed s !! n;
  Some (mk (queue s) (<[ch := c]> (channels s)) (delete n (handed s)) (calls s)).

Definition next (batch_size delay : Z) (e : Event) (s : t) : option t :=
  match e with
  | Execute items => Some (execute_many batch_size items s)
  | Pass dt => Some (set_queue (Queue.pass dt (queue s)) s)
  | Wake => q ← Queue.batch_loop created_at delay (queue s); Some (set_queue q s)
  | Acquire i => acquire i s
  | Done i => '(_, q) ← Queue.release i (queue s); Some (set_queue q s)
  | Send n v => settle n (Sent v) s
  | Drop n => settle n Closed s
  end.

(** ** Executions *)

(** What the executor may answer to a request. *)
Context (answers : Req -> Resp -> Prop).

Definition allowed (s : t) (e : Event) : Prop :=
  match e with
  | Send n v => exists q ch, handed s !! n = Some (q, ch) /\ answers q v
  | _ => True
  end.

Context (batch_size concurrency delay start : Z).

Inductive reachable : t -> Prop :=
| reach_new : reachable (new concurrency delay start)
| reach_step s e s' : reachable s -> allowed s e -> next batch_size delay e s = Some s' -> reachable s'.

Inductive runs : t -> list Event -> t -> Prop :=
| runs_nil s : runs s [] s
| runs_cons s e s1 es s2 : allowed s e -> next batch_size delay e s = Some s1 -> runs s1 es s2 -> runs s (e :: es) s2.
End batcher.
End Batcher.
