(* ===== verification/BatcherLaws.v ===== *)
(** * [scuffle-batching]: the batcher's invariant

    Channels are numbered in the order of the requests; every open channel has
    exactly one holder, a batch on its way or the executor, and the request next
    to it is the one the channel was made for. *)

From stdpp Require Import base list numbers option gmap.
From S2P Require Import Prelude BatchQueue Batcher.

Module BatcherLaws.
Import Batcher.

Section laws.
Context {Req Resp : Type} (answers : Req -> Resp -> Prop).
Context (batch_size concurrency delay start : Z).
Local Abbreviation t := (Batcher.t (Req := Req) (Resp := Resp)).
Local Abbreviation Batch := (Batcher.Batch (Req := Req)).
Local Abbreviation Item := (Req * nat)%type.

(** The requests of the calls, each with its channel. *)
Definition issued (s : t) : list Item := calls s ≫= fun c => zip (requests c) (responses c).

(** The batches that have not reached the executor. *)
Definition waiting (q : Queue.t (B := Batch)) : list Batch :=
  option_list (Queue.current_batch q) ++ (snd <$> filter (fun x => x.1 = Acquiring) (Queue.tasks q)).

Definition holders (s : t) : list Item := (waiting (queue s) ≫= items) ++ handed s.

(** [iss] are the requests so far, those of the call that is being queued
    included. *)
Record inv (iss : list Item) (s : t) : Prop := {
  inv_queue : Queue.ok created_at concurrency delay (queue s);
  inv_size : Forall (fun b => 1 <= blen (items b) <= Z.max 1 batch_size) (Queue.live (queue s));
  inv_room : forall b, Queue.current_batch (queue s) = Some b -> blen (items b) < Z.max 1 batch_size;
  inv_numbers : iss.*2 = seq 0 (length (channels s));
  inv_held : holders s ⊆+ iss;
  inv_open : forall q ch, (q, ch) ∈ holders s <-> (q, ch) ∈ iss /\ channels s !! ch = Some Open;
  inv_answers : forall q ch v, (q, ch) ∈ iss -> channels s !! ch = Some (Sent v) -> answers q v;
}.

(** A channel belongs to one request. *)
Lemma issued_inj iss s q q' ch : inv iss s -> (q, ch) ∈ iss -> (q', ch) ∈ iss -> q = q'.
Proof.
  intros Hs H1 H2. apply list_elem_of_lookup in H1 as [i H1]. apply list_elem_of_lookup in H2 as [j H2].
  assert (NoDup (iss.*2)) as Hn by (rewrite (inv_numbers iss s Hs); apply NoDup_seq).
  assert (i = j) as ->; [|by simplify_eq].
  apply (NoDup_lookup (iss.*2) i j ch Hn); rewrite list_lookup_fmap; [by rewrite H1|by rewrite H2].
Qed.

Lemma issued_range iss s q ch : inv iss s -> (q, ch) ∈ iss -> (ch < length (channels s))%nat.
Proof.
  intros Hs Hin. apply (list_elem_of_fmap_2 snd) in Hin. rewrite (inv_numbers iss s Hs) in Hin.
  apply elem_of_seq in Hin. simpl in Hin. lia.
Qed.

Lemma batcher_inv_new : 0 <= delay -> inv [] (new concurrency delay start).
Proof.
  intros Hd. split; try (by constructor); try done; try (by apply Queue.ok_new).
  - intros q ch. split; [by intros ?%elem_of_nil|]. by intros [?%elem_of_nil _].
Qed.

(** A step that only moves items between their holders. *)
Lemma inv_move iss s s' : inv iss s -> Queue.ok created_at concurrency delay (queue s') ->
  Forall (fun b => 1 <= blen (items b) <= Z.max 1 batch_size) (Queue.live (queue s')) ->
  (forall b, Queue.current_batch (queue s') = Some b -> Queue.current_batch (queue s) = Some b) ->
  channels s' = channels s -> holders s' ≡ₚ holders s -> inv iss s'.
Proof.
  intros [H1 H2 H3 H4 H5 H6 H7] Hq Hl Hc Hch Hh. split; try done; rewrite ?Hch, ?Hh; try done; [auto|].
  intros q ch. by rewrite Hh.
Qed.

(** ** Where the items are *)

Definition acq (xs : list (Stage * Batch)) : list Batch := snd <$> filter (fun x => x.1 = Acquiring) xs.

Lemma acq_app xs ys : acq (xs ++ ys) = acq xs ++ acq ys.
Proof. unfold acq. by rewrite filter_app, fmap_app. Qed.

Lemma acq_cons st b xs : acq ((st, b) :: xs) = match st with Acquiring => [b] | Executing => [] end ++ acq xs.
Proof. unfold acq. rewrite filter_cons. simpl fst. destruct st; case_decide; done. Qed.

Lemma waiting_batch_loop q q' : Queue.batch_loop created_at delay q = Some q' -> waiting q' ≡ₚ waiting q.
Proof.
  unfold Queue.batch_loop. destruct (Queue.now q <? Queue.wake_at q); [done|].
  destruct (Queue.current_batch q) as [b|] eqn:E; [destruct (_ =? 0)|]; intros [= <-]; unfold waiting; simpl; rewrite ?E; try done.
  fold (acq (Queue.tasks q ++ [(Acquiring, b)])) (acq (Queue.tasks q)). rewrite acq_app, acq_cons. simpl.
  by rewrite Permutation_app_comm.
Qed.

Lemma waiting_acquire i q q' b st : Queue.acquire i q = Some q' -> Queue.tasks q !! i = Some (st, b) ->
  waiting q ≡ₚ b :: waiting q' /\ Queue.current_batch q' = Queue.current_batch q.
Proof.
  unfold Queue.acquire. intros E Hi. rewrite Hi in E. destruct st; [|done]. destruct (0 <? Queue.semaphore q); [|done].
  injection E as <-. split; [|done]. unfold waiting. simpl. fold (acq (Queue.tasks q)) (acq (<[i := (Executing, b)]> (Queue.tasks q))).
  rewrite Permutation_middle. f_equiv. rewrite insert_take_drop by (by eapply lookup_lt_Some).
  rewrite <-(take_drop_middle _ i _ Hi) at 1. rewrite !acq_app, !acq_cons. simpl. by rewrite Permutation_middle.
Qed.

Lemma waiting_release i q b q' : Queue.release i q = Some (b, q') -> waiting q' = waiting q /\ Queue.current_batch q' = Queue.current_batch q.
Proof.
  unfold Queue.release. destruct (Queue.tasks q !! i) as [[[] b0]|] eqn:Hi; try done. intros [= <- <-]. split; [|done].
  unfold waiting. simpl. fold (acq (Queue.tasks q)) (acq (delete i (Queue.tasks q))). f_equal.
  rewrite delete_take_drop. rewrite <-(take_drop_middle _ i _ Hi) at 3. by rewrite !acq_app, acq_cons.
Qed.

(** ** [execute_many] *)

Definition put (b : Batch) (q : Queue.t) : Queue.t :=
  if Z.max 1 batch_size <=? blen (items b) then Queue.spawn b q else Queue.replace b q.

Lemma batcher_put_live b q : Queue.live (put b q) ≡ₚ b :: (snd <$> Queue.tasks q).
Proof. unfold put. case_match; [apply Queue.live_spawn|done]. Qed.

Lemma put_waiting b q : waiting (put b q) ≡ₚ b :: acq (Queue.tasks q).
Proof.
  unfold put. case_match; [|done]. unfold waiting. simpl. fold (acq (Queue.tasks q ++ [(Acquiring, b)])).
  rewrite acq_app, acq_cons. simpl. by rewrite Permutation_app_comm.
Qed.

(** The batch that the next request goes into. *)
Definition opened (q : Queue.t) : Batch := default (mkBatch [] (Queue.now q)) (Queue.current_batch q).

Lemma waiting_opened q : (waiting q ≫= items) = items (opened q) ++ (acq (Queue.tasks q) ≫= items).
Proof. unfold waiting, opened. fold (acq (Queue.tasks q)). by destruct (Queue.current_batch q). Qed.

Lemma opened_room iss s : inv iss s -> blen (items (opened (queue s))) < Z.max 1 batch_size.
Proof.
  intros Hs. unfold opened. destruct (Queue.current_batch (queue s)) as [b|] eqn:E; simpl; [by apply (inv_room iss s Hs)|].
  unfold blen. simpl. lia.
Qed.

Lemma execute_item_holders item s rs :
  holders (execute_item (Z.max 1 batch_size) item (s, rs)).1 ≡ₚ (item, length (channels s)) :: holders s.
Proof.
  unfold execute_item. fold (opened (queue s)). set (b := mkBatch _ (created_at (opened (queue s)))).
  cbn [fst]. fold (put b (queue s)). unfold holders at 1. cbn [queue handed].
  assert (waiting (put b (queue s)) ≫= items ≡ₚ (b :: acq (Queue.tasks (queue s))) ≫= items) as ->
    by (apply bind_Permutation, put_waiting).
  unfold holders. rewrite waiting_opened. cbn [mbind list_bind items b]. rewrite <-!(assoc_L (++)). simpl.
  symmetry. apply Permutation_middle.
Qed.

Definition with_item (item : Req) (s : t) : Batch :=
  mkBatch (items (opened (queue s)) ++ [(item, length (channels s))]) (created_at (opened (queue s))).

Lemma execute_item_queue item s rs :
  queue (execute_item (Z.max 1 batch_size) item (s, rs)).1 = put (with_item item s) (queue s).
Proof. done. Qed.

Lemma execute_item_ok iss s rs item : inv iss s ->
  inv (iss ++ [(item, length (channels s))]) (execute_item (Z.max 1 batch_size) item (s, rs)).1.
Proof.
  intros Hs. pose proof Hs as [H1 H2 H3 H4 H5 H6 H7]. pose proof (execute_item_holders item s rs) as Hh.
  pose proof (opened_room iss s Hs) as Hr.
  assert (forall ch, (ch < length (channels s))%nat -> (channels s ++ [Open]) !! ch = channels s !! ch) as Hold
    by (intros; by apply lookup_app_l).
  assert ((channels s ++ [Open]) !! length (channels s) = Some Open) as Hnew by (by rewrite lookup_app_r, Nat.sub_diag).
  split.
  - rewrite execute_item_queue. unfold put. case_match; [by apply Queue.ok_spawn|]. apply Queue.ok_replace; [done|].
    unfold with_item, opened. simpl.
    destruct (Queue.current_batch (queue s)) as [b|] eqn:E; simpl; [right; by exists b|by left].
  - rewrite execute_item_queue, batcher_put_live. constructor.
    + unfold with_item. cbn [items]. rewrite blen_app. unfold blen in *. simpl. lia.
    + unfold Queue.live in H2. by apply Forall_app in H2 as [_ H2].
  - rewrite execute_item_queue. unfold put. intros b. case_match eqn:Eb; [done|]. intros [= <-]. by apply Z.leb_gt in Eb.
  - rewrite fmap_app, H4. simpl. by rewrite length_app, Nat.add_1_r, seq_S.
  - rewrite Hh, (Permutation_app_comm iss). by apply submseteq_skip.
  - intros q ch. rewrite Hh, elem_of_cons, H6, elem_of_app, list_elem_of_singleton. cbn [execute_item fst channels].
    split.
    + intros [[= -> ->]|[Hin Ho]]; [by auto|]. split; [by auto|]. by rewrite Hold by (by eapply issued_range).
    + intros [[Hin|[= -> ->]] Ho]; [|by auto]. rewrite Hold in Ho by (by eapply issued_range). by auto.
  - intros q ch v. rewrite elem_of_app, list_elem_of_singleton. cbn [execute_item fst channels].
    intros [Hin|[= -> ->]] Hv; [|by rewrite Hnew in Hv]. rewrite Hold in Hv by (by eapply issued_range). by eapply H7.
Qed.

Lemma execute_items_ok reqs : forall iss s rs, inv iss s ->
  let st := execute_items (Z.max 1 batch_size) reqs (s, rs) in
  exists new, st.2 = rs ++ new /\ length new = length reqs /\ calls st.1 = calls s /\ inv (iss ++ zip reqs new) st.1.
Proof.
  induction reqs as [|item reqs IH]; intros iss s rs Hs; cbn [execute_items foldl].
  { exists []. by rewrite !app_nil_r. }
  pose proof (execute_item_ok iss s rs item Hs) as H1.
  change (execute_item (Z.max 1 batch_size) item (s, rs)) with
    ((execute_item (Z.max 1 batch_size) item (s, rs)).1, rs ++ [length (channels s)]).
  destruct (IH _ _ (rs ++ [length (channels s)]) H1) as (new & E1 & E2 & E3 & E4).
  exists (length (channels s) :: new). rewrite <-!(assoc_L (++)) in *. split_and!; try done. simpl. by rewrite E2.
Qed.

(** The invariant of whole states. *)
Definition ok (s : t) : Prop := inv (issued s) s /\ Forall (fun c => length (responses c) = length (requests c)) (calls s).

Lemma execute_many_ok reqs s : ok s -> ok (execute_many batch_size reqs s).
Proof.
  intros [Hs Hc]. destruct (execute_items_ok reqs (issued s) s [] Hs) as (new & E1 & E2 & E3 & [I1 I2 I3 I4 I5 I6 I7]).
  unfold execute_many. destruct (execute_items _ reqs (s, [])) as [s1 rs1]. cbn [fst snd app] in *. subst rs1.
  assert (issued (mk (queue s1) (channels s1) (handed s1) (calls s1 ++ [mkCall reqs new])) = issued s ++ zip reqs new) as Ei.
  { unfold issued. cbn [calls]. rewrite E3, bind_app. simpl. by rewrite app_nil_r. }
  split; [rewrite Ei; by split|]. simpl. rewrite E3. apply Forall_app. split; [done|]. by constructor.
Qed.

(** ** The other events *)

Lemma holders_nodup iss s : inv iss s -> NoDup (holders s).
Proof.
  intros Hs. assert (NoDup iss) as Hn by (apply (NoDup_fmap_1 snd); rewrite (inv_numbers iss s Hs); apply NoDup_seq).
  destruct (submseteq_Permutation _ _ (inv_held iss s Hs)) as [rest Hp].
  rewrite Hp in Hn. by apply NoDup_app in Hn as [Hn _].
Qed.

Lemma settle_ok iss s n c q ch : inv iss s -> handed s !! n = Some (q, ch) -> c <> Open ->
  (forall v, c = Sent v -> answers q v) ->
  inv iss (mk (queue s) (<[ch := c]> (channels s)) (delete n (handed s)) (calls s)).
Proof.
  intros Hs Hn Hc Hv. pose proof Hs as [H1 H2 H3 H4 H5 H6 H7]. set (s' := mk _ _ _ _).
  assert (holders s ≡ₚ (q, ch) :: holders s') as Hh.
  { unfold holders. subst s'. cbn [queue handed]. rewrite (delete_Permutation _ _ _ Hn) at 1. by rewrite Permutation_middle. }
  pose proof (holders_nodup iss s Hs) as Hd. rewrite Hh in Hd. apply NoDup_cons in Hd as [Hnot _].
  assert ((q, ch) ∈ holders s) as Hin by (rewrite Hh; left). apply H6 in Hin as [Hin Ho].
  assert (ch < length (channels s))%nat as Hr by (by eapply lookup_lt_Some).
  split; try done.
  - subst s'. cbn [channels]. by rewrite length_insert.
  - etrans; [|exact H5]. rewrite Hh. by apply submseteq_cons.
  - intros q' ch'. subst s'. cbn [channels] in *. split.
    + intros Hq. assert (ch' <> ch) as Hne.
      { intros ->. apply Hnot. assert ((q', ch) ∈ holders s) as Hq' by (rewrite Hh; by right). apply H6 in Hq' as [Hq' _].
        by rewrite (issued_inj iss s q q' ch Hs Hin Hq'). }
      rewrite list_lookup_insert_ne by done. apply H6. rewrite Hh. by right.
    + intros [Hq E]. assert (ch' <> ch) as Hne by (intros ->; rewrite list_lookup_insert_eq in E by done; congruence).
      rewrite list_lookup_insert_ne in E by done. assert ((q', ch') ∈ holders s) as Hq' by (by apply H6).
      rewrite Hh in Hq'. apply elem_of_cons in Hq' as [|]; [congruence|done].
  - intros q' ch' v Hq E. subst s'. cbn [channels] in E. destruct (decide (ch' = ch)) as [->|Hne].
    + rewrite list_lookup_insert_eq in E by done. rewrite (issued_inj iss s q' q ch Hs Hq Hin). apply Hv. congruence.
    + rewrite list_lookup_insert_ne in E by done. by eapply H7.
Qed.

Lemma batcher_next_ok s e s' : ok s -> allowed answers s e -> next batch_size delay e s = Some s' -> ok s'.
Proof.
  intros [Hs Hc] Ha E. pose proof Hs as [Hq Hsz Hroom _ _ _ _].
  assert (forall q, Queue.live q ≡ₚ Queue.live (queue s) -> Queue.ok created_at concurrency delay q ->
    (forall b, Queue.current_batch q = Some b -> Queue.current_batch (queue s) = Some b) ->
    waiting q ≡ₚ waiting (queue s) -> ok (set_queue q s)) as Hmove.
  { intros q Hl Hok Hcb Hw. split; [|done]. apply (inv_move (issued s) s); try done; [simpl; by rewrite Hl|].
    unfold holders. simpl. apply Permutation_app_tail. by apply bind_Permutation. }
  destruct e as [reqs|dt| |i|i|n v|n]; cbn [next] in E.
  - injection E as <-. by apply execute_many_ok.
  - injection E as <-. apply Hmove; try done. by apply Queue.ok_pass.
  - apply bind_Some in E as (q & E & [= <-]). apply Hmove.
    + by eapply Queue.live_batch_loop.
    + by eapply Queue.ok_batch_loop.
    + intros b. unfold Queue.batch_loop in E. repeat case_match; simplify_eq; simpl; done || congruence.
    + by apply waiting_batch_loop.
  - apply bind_Some in E as (q & E & E'). apply bind_Some in E' as ([st b] & Hi & [= <-]).
    destruct (waiting_acquire i _ q b st E Hi) as [Hw Hcb]. split; [|done].
    apply (inv_move (issued s) s); simpl; try done.
    + by eapply Queue.ok_acquire.
    + by rewrite (Queue.live_acquire i _ _ E).
    + by rewrite Hcb.
    + unfold holders. simpl. rewrite (bind_Permutation items _ _ Hw). simpl. 
      rewrite (Permutation_app_comm (handed s)), (assoc_L (++)). apply Permutation_app_tail, Permutation_app_comm.
  - apply bind_Some in E as ([b q] & E & [= <-]). destruct (waiting_release i _ b q E) as [Hw Hcb].
    split; [|done]. apply (inv_move (issued s) s); simpl; try done.
    + by eapply Queue.ok_release.
    + rewrite (Queue.live_release i _ _ _ E) in Hsz. by apply List.Forall_cons_iff in Hsz as [_ Hsz].
    + by rewrite Hcb.
    + unfold holders. simpl. by rewrite Hw.
  - apply bind_Some in E as ([q ch] & Hn & [= <-]). destruct Ha as (q' & ch' & Hn' & Hv). simplify_eq. split; [|done].
    apply (settle_ok (issued s) s n (Sent v) q' ch'); try done. by intros ? [= <-].
  - apply bind_Some in E as ([q ch] & Hn & [= <-]). split; [|done]. by apply (settle_ok (issued s) s n Closed q ch).
Qed.

Lemma reachable_ok s : 0 <= delay -> reachable answers batch_size concurrency delay start s -> ok s.
Proof.
  intros Hd. induction 1 as [|s e s' _ IH Ha E]; [split; [by apply batcher_inv_new|by constructor]|]. by eapply batcher_next_ok.
Qed.

(** ** What calls return *)

Lemma batcher_collect_ok (cs : list (Channel (Resp := Resp))) chs : forall rs, collect cs chs = Some rs ->
  length rs = length chs /\
  forall i v, rs !! i = Some (Some v) -> exists ch, chs !! i = Some ch /\ cs !! ch = Some (Sent v).
Proof.
  induction chs as [|ch chs IH]; intros rs E; cbn [collect] in E.
  { injection E as <-. done. }
  apply bind_Some in E as (c & Ec & E). destruct c as [|v|]; [done| |].
  all: apply bind_Some in E as (rs' & E' & [= <-]); destruct (IH rs' E') as [Hl Hr]; split; [simpl; by rewrite Hl|].
  all: intros [|i] w Hw; simpl in *; simplify_eq; first [by apply Hr | by eexists].
Qed.

Lemma issued_call s c i q ch : c ∈ calls s -> requests c !! i = Some q -> responses c !! i = Some ch -> (q, ch) ∈ issued s.
Proof.
  intros Hc Hq Hch. apply list_elem_of_bind. exists c. split; [|done]. apply list_elem_of_lookup. exists i.
  apply lookup_zip_Some. done.
Qed.

Lemma batcher_collect_complete (cs : list (Channel (Resp := Resp))) chs :
  (forall ch, ch ∈ chs -> exists c, cs !! ch = Some c /\ c <> Open) -> exists rs, collect cs chs = Some rs.
Proof.
  induction chs as [|ch chs IH]; intros Hc; cbn [collect]; [by eexists|].
  destruct (Hc ch ltac:(left)) as (c & -> & Ho). simpl. destruct IH as [rs ->]; [intros; apply Hc; by right|].
  destruct c; [done|by eexists..].
Qed.

Lemma batcher_all_returned s c : ok s -> holders s = [] -> c ∈ calls s -> exists rs, returned s c = Some rs.
Proof.
  intros [Hs Hl] Hh Hc. apply batcher_collect_complete. intros ch Hch. apply list_elem_of_lookup in Hch as [i Hi].
  rewrite Forall_forall in Hl. destruct (lookup_lt_is_Some_2 (requests c) i) as [q Hq].
  { rewrite <-(Hl c Hc). by eapply lookup_lt_Some. }
  pose proof (issued_call s c i q ch Hc Hq Hi) as Hin. pose proof (issued_range _ s q ch Hs Hin) as Hr.
  apply lookup_lt_is_Some in Hr as [x Hx]. exists x. split; [done|]. intros ->.
  assert ((q, ch) ∈ holders s) as Hq' by (by apply (inv_open _ s Hs)). rewrite Hh in Hq'. by apply elem_of_nil in Hq'.
Qed.

(** ** Every call returns *)

Definition not_execute (e : Event (Req := Req) (Resp := Resp)) : Prop := match e with Execute _ => False | _ => True end.
Local Abbreviation go := (runs answers batch_size delay).

Lemma batcher_runs_app s es s1 es' s2 : go s es s1 -> go s1 es' s2 -> go s (es ++ es') s2.
Proof. induction 1; [done|]. intros. simpl. eapply runs_cons; eauto. Qed.

Lemma runs_ok s es s' : ok s -> go s es s' -> ok s'.
Proof. intros Hs Hr. induction Hr as [|s e s1 es s2 Ha E _ IH]; [done|]. apply IH. by eapply batcher_next_ok. Qed.

Lemma batcher_step_forward s : ok s -> 0 < Queue.left (queue s) ->
  exists es s', go s es s' /\ Forall not_execute es /\ calls s' = calls s /\ Queue.left (queue s') < Queue.left (queue s).
Proof.
  intros [Hs _] Hl. destruct (Queue.progress created_at concurrency delay (queue s) (inv_queue _ s Hs) Hl)
    as [(dt & q & E & Hlt)|[(i & q & E & Hlt)|(i & b & q & E & Hlt)]].
  - exists [Pass dt; Wake], (set_queue q s). split_and!; try done; [|by repeat constructor].
    eapply runs_cons; [done|reflexivity|]. eapply runs_cons; [done|simpl; rewrite E; reflexivity|]. apply runs_nil.
  - destruct (Queue.tasks (queue s) !! i) as [[st b]|] eqn:Hi; [|unfold Queue.acquire in E; by rewrite Hi in E].
    exists [Acquire i], (mk q (channels s) (handed s ++ items b) (calls s)). split_and!; try done; [|by repeat constructor].
    eapply runs_cons; [done|simpl; unfold acquire; rewrite E; simpl; rewrite Hi; reflexivity|]. apply runs_nil.
  - exists [Done i], (set_queue q s). split_and!; try done; [|by repeat constructor].
    eapply runs_cons; [done|simpl; rewrite E; reflexivity|]. apply runs_nil.
Qed.

Lemma batcher_drain n : forall s, ok s -> Queue.left (queue s) <= Z.of_nat n ->
  exists es s', go s es s' /\ Forall not_execute es /\ calls s' = calls s /\ Queue.left (queue s') = 0.
Proof.
  induction n as [|n IH]; intros s Hs Hn; pose proof (Queue.left_nonneg (queue s)) as H0.
  { exists [], s. split_and!; try done; [apply runs_nil|lia]. }
  destruct (decide (Queue.left (queue s) = 0)) as [E|E]; [exists [], s; split_and!; try done; apply runs_nil|].
  destruct (batcher_step_forward s Hs ltac:(lia)) as (es & s1 & R1 & N1 & C1 & L1).
  destruct (IH s1 (runs_ok _ _ _ Hs R1) ltac:(lia)) as (es' & s2 & R2 & N2 & C2 & L2).
  exists (es ++ es'), s2. split_and!; try done; [by eapply batcher_runs_app|by apply Forall_app|congruence].
Qed.

(** The executor answers or drops what it holds. *)
Lemma settle_all (choose : Req -> option Resp) xs :
  (forall q v, choose q = Some v -> answers q v) -> forall s, handed s = xs ->
  exists es s', go s es s' /\ Forall not_execute es /\ calls s' = calls s /\ queue s' = queue s /\ handed s' = [].
Proof.
  intros Hch. induction xs as [|[q ch] xs IH]; intros s Hx.
  { exists [], s. split_and!; try done. apply runs_nil. }
  set (e := match choose q with Some v => Send 0 v | None => Drop 0 end : Event (Req := Req) (Resp := Resp)).
  set (c := match choose q with Some v => Sent v | None => Closed end : Channel (Resp := Resp)).
  set (s1 := mk (queue s) (<[ch := c]> (channels s)) xs (calls s)).
  assert (next batch_size delay e s = Some s1) as E1.
  { subst e c s1. destruct (choose q); simpl; unfold settle; rewrite Hx; done. }
  assert (allowed answers s e) as Ha.
  { subst e. destruct (choose q) eqn:Eq; simpl; [|done]. exists q, ch. rewrite Hx. split; [done|by apply Hch]. }
  destruct (IH s1 eq_refl) as (es & s' & R & N & C & Q & E). exists (e :: es), s'. split_and!; try done.
  - by eapply runs_cons.
  - constructor; [|done]. subst e. by destruct (choose q).
Qed.

Lemma left_zero_waiting q : Queue.left (B := Batch) q = 0 -> waiting q = [].
Proof.
  intros Hl. unfold Queue.left, Queue.executing in Hl.
  pose proof (length_filter (fun x : Stage * Batch => x.1 = Executing) (Queue.tasks q)) as Hf.
  unfold blen in Hl. rewrite length_fmap in Hl. unfold waiting.
  destruct (Queue.current_batch q); simpl in Hl; [lia|]. destruct (Queue.tasks q); [done|]. simpl in *. lia.
Qed.
End laws.
End BatcherLaws.
