(* ===== verification/BatchingTheorems.v ===== *)
(** * [scuffle-batching]: properties

    The data loader's and the batcher's contracts over every interleaving of
    calls, timer, permits and executor. *)

From Stdlib Require Import Strings.String.
From stdpp Require Import base list numbers option gmap strings.
From S2P Require Import Prelude BatchQueue DataLoader DataLoaderLaws Batcher BatcherLaws.

Module BatchingProps.
Import DataLoader LoaderLaws.

(** ** A run of the data loader

    Three keys with a batch size of two: the first two are spawned at once, the
    third waits for the timer. *)

Definition table : gmap Z Z := list_to_map [(1, 10); (2, 20)].

(** An executor that looks the keys up in the table. *)
Definition lookup_table (ks : gset Z) (outcome : option (option (gmap Z Z))) : Prop :=
  outcome = Some (Some (filter (fun kv => kv.1 ∈ ks) table)).

Definition sample_events : list (Event (K := Z) (V := Z)) :=
  [Load [1; 2; 3]; Acquire 0; Finish 0 (Some (Some (filter (fun kv => kv.1 ∈ ({[1; 2]} : gset Z)) table)));
   Pass 5; Wake; Acquire 0; Finish 0 (Some (Some (filter (fun kv => kv.1 ∈ ({[3]} : gset Z)) table)))].

Fixpoint run (es : list (Event (K := Z) (V := Z))) (s : t (K := Z) (V := Z)) : t (K := Z) (V := Z) :=
  match es with
  | [] => s
  | e :: es => match next 2 5 e s with Goes s => run es s | _ => s end
  end.

Definition after (n : nat) : t (K := Z) (V := Z) := run (take n sample_events) (new 1 5 0).

Lemma sample_reachable n : (n <= 7)%nat -> reachable lookup_table 2 1 5 0 (after n).
Proof.
  induction n as [|n IH]; intros Hn; [exact (reach_new _ _ _ _ _)|].
  eapply (reach_step _ _ _ _ _ (after n) (default Wake (sample_events !! n))); [apply IH; lia| |].
  - do 7 (destruct n as [|n]; [first [exact I | eexists; split; [vm_compute; reflexivity|vm_compute; reflexivity]]|]). lia.
  - do 7 (destruct n as [|n]; [vm_compute; reflexivity|]). lia.
Qed.

Section loader.
Context {K V : Type} `{Countable K}.

(** C16. Whatever the interleaving of calls, timer, permits and answers, a call of
    [load_many] that succeeds returns exactly the data of the keys it asked
    for: every key the data has, with its value, and no other key, even though
    its keys were spread over batches shared with other calls. The executor is
    only assumed to return, when it succeeds, the data of the keys it was
    given; it may fail or panic. [load] of one key returns its value. *)
Theorem dataloader_returns_data (fetcher : gset K -> option (option (gmap K V)) -> Prop) (db : K -> option V)
    (batch_size concurrency delay start : Z) (s : t) (c : Call) (r : gmap K V)
    (Hfetcher : forall ks m k, fetcher ks (Some (Some m)) -> k ∈ ks -> m !! k = db k)
    (Hdelay : 0 <= delay) (Hreach : reachable fetcher batch_size concurrency delay start s)
    (Hcall : c ∈ calls s) (Hret : returned s c = Some (Some r)) :
  (forall k, r !! k = if decide (k ∈ requested c) then db k else None) /\
  (forall k, requested c = [k] -> load_value (Some r) = Some (db k)).
Proof.
  pose proof (reachable_inv fetcher batch_size concurrency delay start s Hdelay Hreach) as Hi.
  pose proof (inv_calls _ _ _ _ s Hi) as Hc. rewrite Forall_forall in Hc. destruct (Hc c Hcall) as [Hu Hw].
  assert (forall k, r !! k = if decide (k ∈ requested c) then db k else None) as Hr.
  { intros k. rewrite (collect_ok fetcher db _ _ _ Hfetcher ∅ ∅ r Hw) by
      (exact Hret || (intros k'; rewrite decide_False by apply not_elem_of_empty; apply lookup_empty)).
    rewrite Hu, union_empty_l_L.
    destruct (decide (k ∈ requested c)); [rewrite decide_True|rewrite decide_False]; try done; by rewrite elem_of_list_to_set. }
  split; [done|]. intros k E. unfold load_value. cbn [fmap option_fmap option_map]. f_equal.
  assert (r = match db k with Some v => {[k := v]} | None => ∅ end) as ->.
  { apply map_eq. intros k'. rewrite Hr, E. destruct (decide (k' ∈ [k])) as [->%list_elem_of_singleton|Hn].
    - destruct (db k); [by rewrite lookup_singleton_eq|by rewrite lookup_empty].
    - rewrite list_elem_of_singleton in Hn. destruct (db k); [by rewrite lookup_singleton_ne|by rewrite lookup_empty]. }
  destruct (db k); [by rewrite map_to_list_singleton|by rewrite map_to_list_empty].
Qed.

(** C18. The limits of the data loader in every reachable state: batches have at
    least one key and at most [max(1, batch_size)]; at most
    [max(1, concurrency)] of them are in the executor at a time; the loop wakes
    up no later than [delay] after the current batch was made, and then sends
    it off; and no step panics, neither the [unwrap]s of [load_many] nor the
    assertion that a result is set only once. *)
Theorem dataloader_limits (fetcher : gset K -> option (option (gmap K V)) -> Prop)
    (batch_size concurrency delay start : Z) (s : t)
    (Hdelay : 0 <= delay) (Hreach : reachable fetcher batch_size concurrency delay start s) :
  (forall b, b ∈ Queue.live (queue s) -> 1 <= Z.of_nat (size (items b)) <= Z.max 1 batch_size) /\
  blen (Queue.executing (queue s)) <= Z.max 1 concurrency /\
  (forall b, Queue.current_batch (queue s) = Some b ->
    Queue.wake_at (queue s) <= created_at b + delay /\
    (created_at b + delay <= Queue.now (queue s) ->
     exists q, Queue.batch_loop created_at delay (queue s) = Some q /\ Queue.current_batch q = None /\
       (Acquiring, b) ∈ Queue.tasks q)) /\
  (forall e, allowed fetcher s e -> next batch_size delay e s <> Panics).
Proof.
  pose proof (reachable_inv fetcher batch_size concurrency delay start s Hdelay Hreach) as Hi.
  pose proof Hi as [[Q1 Q2 Q3 Q4 Q5] H2 _ _ _ _ _]. split_and!.
  - by apply Forall_forall.
  - lia.
  - intros b E. destruct (Q5 b E) as [Hc Hw]. split; [done|]. intros Hn. eexists. split.
    + unfold Queue.batch_loop. rewrite E, (proj2 (Z.ltb_ge _ _)), (proj2 (Z.eqb_eq (Z.max 0 _) 0)) by lia. reflexivity.
    + split; [done|]. simpl. apply elem_of_app. right. left.
  - intros e Ha E. pose proof (next_ok fetcher batch_size concurrency delay s e Hi Ha) as Hn. by rewrite E in Hn.
Qed.

(** C17. No call is forgotten: in every reachable state of the data loader there
    is a continuation without further calls after which every call has returned,
    if the executor answers every batch in some way. *)
Theorem dataloader_calls_return (fetcher : gset K -> option (option (gmap K V)) -> Prop)
    (batch_size concurrency delay start : Z) (s : t)
    (Hanswers : forall ks, exists outcome, fetcher ks outcome)
    (Hdelay : 0 <= delay) (Hreach : reachable fetcher batch_size concurrency delay start s) :
  exists es s', runs fetcher batch_size delay s es s' /\ Forall not_load es /\ calls s' = calls s /\
    forall c, c ∈ calls s' -> exists r, returned s' c = Some r.
Proof.
  pose proof (reachable_inv fetcher batch_size concurrency delay start s Hdelay Hreach) as Hi.
  destruct (drain fetcher batch_size concurrency delay Hanswers (Z.to_nat (Queue.left (queue s))) s Hi)
    as (es & s' & Hr & Hn & Hi' & Hc & Hl).
  { pose proof (Queue.left_nonneg (queue s)). lia. }
  exists es, s'. split_and!; try done. intros c Hin. by eapply all_returned.
Qed.
End loader.

Lemma dataloader_returns_data_witness :
  let c := mkCall [1; 2; 3] [mkWaiting {[1; 2]} 0; mkWaiting {[3]} 1] in
  let r : gmap Z Z := {[1 := 10; 2 := 20]} in
  returned (after 7) c = Some (Some r) /\
  (forall k, r !! k = if decide (k ∈ [1; 2; 3]) then table !! k else None) /\
  (forall k, [1; 2; 3] = [k] -> load_value (Some r) = Some (table !! k)).
Proof.
  intros c r. split; [vm_compute; reflexivity|].
  apply (dataloader_returns_data lookup_table (fun k => table !! k) 2 1 5 0 (after 7) c r).
  - intros ks m k [= ->] Hk. rewrite map_lookup_filter. destruct (table !! k); simpl; [|done]. by rewrite option_guard_True.
  - lia.
  - by apply sample_reachable.
  - vm_compute. left.
  - vm_compute. reflexivity.
Defined.

Lemma dataloader_limits_witness :
  let s := after 4 in
  Queue.current_batch (queue s) = Some (mkBatch {[3]} 1 0) /\
  (forall b, b ∈ Queue.live (queue s) -> 1 <= Z.of_nat (size (items b)) <= Z.max 1 2) /\
  blen (Queue.executing (queue s)) <= Z.max 1 1 /\
  (forall b, Queue.current_batch (queue s) = Some b ->
    Queue.wake_at (queue s) <= created_at b + 5 /\
    (created_at b + 5 <= Queue.now (queue s) ->
     exists q, Queue.batch_loop created_at 5 (queue s) = Some q /\ Queue.current_batch q = None /\
       (Acquiring, b) ∈ Queue.tasks q)) /\
  (forall e, allowed lookup_table s e -> next 2 5 e s <> Panics).
Proof.
  intros s. split; [vm_compute; reflexivity|].
  apply (dataloader_limits lookup_table 2 1 5 0 s); [lia|]. by apply (sample_reachable 4); lia.
Defined.

Lemma dataloader_calls_return_witness :
  let s := after 1 in
  returned s (mkCall [1; 2; 3] [mkWaiting {[1; 2]} 0; mkWaiting {[3]} 1]) = None /\
  exists es s', runs lookup_table 2 5 s es s' /\ Forall not_load es /\ calls s' = calls s /\
    forall c, c ∈ calls s' -> exists r, returned s' c = Some r.
Proof.
  intros s. split; [vm_compute; reflexivity|].
  apply (dataloader_calls_return lookup_table 2 1 5 0 s); [|lia|by apply (sample_reachable 1); lia].
  intros ks. eexists. reflexivity.
Defined.
End BatchingProps.

Module BatcherProps.
Import Batcher BatcherLaws.

(** ** A run of the batcher: three requests, of which the second is not answered *)

Definition doubles (q v : Z) : Prop := v = 2 * q.

Definition sample_events : list (Event (Req := Z) (Resp := Z)) :=
  [Execute [1; 2; 3]; Acquire 0; Send 0 2; Drop 0; Done 0; Pass 5; Wake; Acquire 0; Send 0 6; Done 0].

Fixpoint run (es : list (Event (Req := Z) (Resp := Z))) (s : t (Req := Z) (Resp := Z)) : t (Req := Z) (Resp := Z) :=
  match es with
  | [] => s
  | e :: es => match next 2 5 e s with Some s => run es s | None => s end
  end.

Definition after (n : nat) : t (Req := Z) (Resp := Z) := run (take n sample_events) (new 1 5 0).

Lemma batcher_sample_reachable n : (n <= 10)%nat -> reachable doubles 2 1 5 0 (after n).
Proof.
  induction n as [|n IH]; intros Hn; [exact (reach_new _ _ _ _ _)|].
  eapply (reach_step _ _ _ _ _ (after n) (default Wake (sample_events !! n))); [apply IH; lia| |].
  - do 10 (destruct n as [|n]; [first [exact I | eexists _, _; split; vm_compute; reflexivity]|]). lia.
  - do 10 (destruct n as [|n]; [vm_compute; reflexivity|]). lia.
Qed.

Section batcher.
Context {Req Resp : Type}.

(** C19. Whatever the interleaving of calls, timer, permits and executor, a call of
    [execute_many] that has returned has one result per request, in the order of
    the requests, and a result that is not missing is what the executor answered
    to that very request, although requests of many calls share batches and the
    executor answers them in any order. [execute] of one request returns its
    answer. At most [max(1, batch_size)] requests are given to the executor at
    once, and at most [max(1, concurrency)] batches are in it. *)
Theorem batcher_answers_in_order (answers : Req -> Resp -> Prop) (batch_size concurrency delay start : Z)
    (s : t (Req := Req) (Resp := Resp)) (c : Call) (rs : list (option Resp))
    (Hdelay : 0 <= delay) (Hreach : reachable answers batch_size concurrency delay start s)
    (Hcall : c ∈ calls s) (Hret : returned s c = Some rs) :
  length rs = length (requests c) /\
  (forall i q v, requests c !! i = Some q -> rs !! i = Some (Some v) -> answers q v) /\
  (forall q v, requests c = [q] -> execute_value rs = Some v -> answers q v) /\
  (forall b, b ∈ Queue.live (queue s) -> 1 <= blen (items b) <= Z.max 1 batch_size) /\
  blen (Queue.executing (queue s)) <= Z.max 1 concurrency.
Proof.
  destruct (reachable_ok answers batch_size concurrency delay start s Hdelay Hreach) as [Hi Hl].
  pose proof Hl as Hlen. rewrite Forall_forall in Hlen. destruct (batcher_collect_ok _ _ rs Hret) as [Hn Hv].
  assert (forall i q v, requests c !! i = Some q -> rs !! i = Some (Some v) -> answers q v) as Ha.
  { intros i q v Hq Hr. destruct (Hv i v Hr) as (ch & Hch & Hs).
    eapply (inv_answers _ _ _ _ _ s Hi); [by eapply issued_call|done]. }
  split_and!; [by rewrite Hn, Hlen|done| | |].
  - intros q v E Hx. apply (Ha 0%nat); [by rewrite E|]. rewrite (Hlen c Hcall), E in Hn.
    destruct rs as [|x [|]]; simpl in Hn; try lia. unfold execute_value in Hx. cbn in Hx. destruct x; simplify_eq. done.
  - apply Forall_forall, (inv_size _ _ _ _ _ s Hi).
  - pose proof (inv_queue _ _ _ _ _ s Hi) as [_ Q2 Q3 _ _]. lia.
Qed.

(** No call of the batcher is forgotten: in every reachable state, whatever
    the executor chooses to answer to each request or to leave unanswered, there
    is a continuation without further calls after which every call has
    returned. *)
Theorem batcher_calls_return (answers : Req -> Resp -> Prop) (choose : Req -> option Resp)
    (batch_size concurrency delay start : Z) (s : t (Req := Req) (Resp := Resp))
    (Hchoose : forall q v, choose q = Some v -> answers q v)
    (Hdelay : 0 <= delay) (Hreach : reachable answers batch_size concurrency delay start s) :
  exists es s', runs answers batch_size delay s es s' /\ Forall not_execute es /\ calls s' = calls s /\
    forall c, c ∈ calls s' -> exists rs, returned s' c = Some rs.
Proof.
  pose proof (reachable_ok answers batch_size concurrency delay start s Hdelay Hreach) as Hs.
  destruct (batcher_drain answers batch_size concurrency delay (Z.to_nat (Queue.left (queue s))) s Hs) as (es & s1 & R1 & N1 & C1 & L1).
  { pose proof (Queue.left_nonneg (queue s)). lia. }
  destruct (settle_all answers batch_size delay choose (handed s1) Hchoose s1 eq_refl) as (es' & s2 & R2 & N2 & C2 & Q2 & H2).
  exists (es ++ es'), s2. split_and!; [by eapply batcher_runs_app|by apply Forall_app|congruence|]. intros c Hc.
  eapply (batcher_all_returned answers batch_size concurrency delay); [|  |done].
  - eapply runs_ok; [|exact R2]. by eapply runs_ok.
  - unfold holders. rewrite Q2, H2, (left_zero_waiting _ L1). done.
Qed.
End batcher.

Lemma batcher_answers_in_order_witness :
  let s := after 10 in let c := mkCall [1; 2; 3] [0; 1; 2]%nat in let rs := [Some 2; None; Some 6] in
  length rs = length (requests c) /\
  (forall i q v, requests c !! i = Some q -> rs !! i = Some (Some v) -> doubles q v) /\
  (forall q v, requests c = [q] -> execute_value rs = Some v -> doubles q v) /\
  (forall b, b ∈ Queue.live (queue s) -> 1 <= blen (items b) <= Z.max 1 2) /\
  blen (Queue.executing (queue s)) <= Z.max 1 1.
Proof.
  intros s c rs. apply (batcher_answers_in_order doubles 2 1 5 0 s c rs).
  - lia.
  - by apply (batcher_sample_reachable 10); lia.
  - vm_compute. left.
  - vm_compute. reflexivity.
Defined.

Lemma batcher_calls_return_witness :
  let s := after 1 in
  returned s (mkCall [1; 2; 3] [0; 1; 2]%nat) = None /\
  exists es s', runs doubles 2 5 s es s' /\ Forall not_execute es /\ calls s' = calls s /\
    forall c, c ∈ calls s' -> exists rs, returned s' c = Some rs.
Proof.
  intros s. split; [vm_compute; reflexivity|].
  apply (batcher_calls_return doubles (fun q => Some (2 * q)) 2 1 5 0 s); [|lia|by apply (batcher_sample_reachable 1); lia].
  intros q v [= <-]. reflexivity.
Defined.
End BatcherProps.
