(* ===== verification/Context.v ===== *)
(** * [scuffle-context] (crates/context/src)

    A handler cancels contexts and waits until they are dropped. A tracker
    counts the contexts of a handler; dropping the last one of a stopped tracker
    wakes the calls that wait. Every atomic operation of the code is an event of
    its own, so the interleavings of threads are the sequences of events; memory
    is sequentially consistent. Cancellation tokens, [Notify] and [Arc] are
    modelled by what their documentation says: cancelling a token cancels the
    tokens below it, and a [notified()] future receives every [notify_waiters]
    after its creation. *)

From stdpp Require Import base list numbers option.
From S2P Require Import Prelude.

Module Context.
(** A token and the one above it; its own flag. *)
Record Token := mkToken { parent : option nat; cancelled : bool }.

(** [ContextTrackerInner] *)
Record Tracker := mkTracker { stopped : bool; active_count : Z }.

(** A [Context] with its [ContextTracker]. *)
Record Context := mkContext { context_token : nat; context_tracker : nat }.

(** A [Handler]; [refs] counts the clones, which share the drop guard. *)
Record Handler := mkHandler { handler_token : nat; handler_tracker : nat; refs : Z }.

(** A call of [ContextTrackerInner::wait]: its [notified()] future is made, it
    is awaiting it, or it has returned. [after_stop]: the tracker was stopped
    when the call began, as in [shutdown]. *)
Inductive WaitStage := Registered | Parked | Returned.
Record Wait := mkWait { wait_on : nat; stage : WaitStage; notified : bool; after_stop : bool }.

(** A [ContextTracker::drop] whose [fetch_sub] found 1: it has to look at
    [stopped], or to notify. *)
Inductive DropStage := Looking | Notifying.
Record Dropping := mkDropping { drop_of : nat; drop_stage : DropStage }.

Record t := mk {
  tokens : list Token;
  trackers : list Tracker;
  contexts : list Context;
  handlers : list Handler;
  waits : list Wait;
  drops : list Dropping;
  cancelling : list nat;
}.

Definition init : t := mk [] [] [] [] [] [] [].

(** [is_cancelled]: the token or one above it is cancelled; parents are older. *)
Fixpoint token_cancelled (fuel : nat) (ts : list Token) (i : nat) : bool :=
  match ts !! i with
  | None => false
  | Some tk =>
      cancelled tk ||
      match parent tk, fuel with
      | Some p, S fuel => token_cancelled fuel ts p
      | _, _ => false
      end
  end.

Definition is_cancelled (s : t) (i : nat) : bool := token_cancelled (S i) (tokens s) i.

(** [Context::is_done], [Handler::is_done] *)
Definition context_done (s : t) (c : Context) : bool := is_cancelled s (context_token c).
Definition handler_done (s : t) (h : Handler) : bool := is_cancelled s (handler_token h).

(** [ContextTrackerInner::child]: [fetch_add]. *)
Definition tracker_child (k : nat) (ts : list Tracker) : list Tracker :=
  alter (fun k => mkTracker (stopped k) (active_count k + 1)) k ts.

(** [Handler::new] *)
Definition handler_new (s : t) : t :=
  mk (tokens s ++ [mkToken None false]) (trackers s ++ [mkTracker false 0]) (contexts s)
    (handlers s ++ [mkHandler (length (tokens s)) (length (trackers s)) 1]) (waits s) (drops s) (cancelling s).

(** [Handler::context] *)
Definition handler_context (h : Handler) (s : t) : t :=
  mk (tokens s ++ [mkToken (Some (handler_token h)) false]) (tracker_child (handler_tracker h) (trackers s))
    (contexts s ++ [mkContext (length (tokens s)) (handler_tracker h)]) (handlers s) (waits s) (drops s) (cancelling s).

(** [Context::new_child] *)
Definition context_new_child (c : Context) (s : t) : t :=
  let token := length (tokens s) in let tracker := length (trackers s) in
  mk (tokens s ++ [mkToken (Some (context_token c)) false]) (trackers s ++ [mkTracker false 1])
    (contexts s ++ [mkContext token tracker]) (handlers s ++ [mkHandler token tracker 1])
    (waits s) (drops s) (cancelling s).

(** [Context::clone] *)
Definition context_clone (c : Context) (s : t) : t :=
  mk (tokens s) (tracker_child (context_tracker c) (trackers s)) (contexts s ++ [c]) (handlers s) (waits s) (drops s)
    (cancelling s).

(** The first step of [ContextTracker::drop]: [fetch_sub]. *)
Definition context_drop (i : nat) (c : Context) (s : t) : t :=
  let k := context_tracker c in
  let last := match trackers s !! k with Some tr => active_count tr =? 1 | None => false end in
  mk (tokens s) (alter (fun k => mkTracker (stopped k) (active_count k - 1)) k (trackers s)) (delete i (contexts s))
    (handlers s) (waits s) (if last then drops s ++ [mkDropping k Looking] else drops s) (cancelling s).

(** The second: load [stopped]. *)
Definition drop_look (i : nat) (k : nat) (s : t) : t :=
  let notify := match trackers s !! k with Some tr => stopped tr | None => false end in
  mk (tokens s) (trackers s) (contexts s) (handlers s) (waits s)
    (if notify then <[i := mkDropping k Notifying]> (drops s) else delete i (drops s)) (cancelling s).

(** The third: [notify_waiters]. *)
Definition drop_notify (i : nat) (k : nat) (s : t) : t :=
  mk (tokens s) (trackers s) (contexts s) (handlers s)
    ((fun w => if decide (wait_on w = k) then mkWait (wait_on w) (stage w) true (after_stop w) else w) <$> waits s)
    (delete i (drops s)) (cancelling s).

Definition cancel_token (i : nat) (s : t) : t :=
  mk (alter (fun tk => mkToken (parent tk) true) i (tokens s)) (trackers s) (contexts s) (handlers s) (waits s) (drops s)
    (cancelling s).

(** [Handler::cancel]: [tracker.stop()], and then [token.cancel()]. *)
Definition handler_stop (h : Handler) (s : t) : t :=
  mk (tokens s) (alter (fun k => mkTracker true (active_count k)) (handler_tracker h) (trackers s)) (contexts s)
    (handlers s) (waits s) (drops s) (cancelling s ++ [handler_token h]).

Definition handler_cancel (i : nat) (token : nat) (s : t) : t :=
  let s := cancel_token token s in
  mk (tokens s) (trackers s) (contexts s) (handlers s) (waits s) (drops s) (delete i (cancelling s)).

Definition handler_clone (i : nat) (h : Handler) (s : t) : t :=
  mk (tokens s) (trackers s) (contexts s) (<[i := mkHandler (handler_token h) (handler_tracker h) (refs h + 1)]> (handlers s))
    (waits s) (drops s) (cancelling s).

(** Dropping a handler; the last clone drops the guard, which cancels. *)
Definition handler_drop (i : nat) (h : Handler) (s : t) : t :=
  let s := if refs h =? 1 then cancel_token (handler_token h) s else s in
  mk (tokens s) (trackers s) (contexts s)
    (if refs h =? 1 then delete i (handlers s)
     else <[i := mkHandler (handler_token h) (handler_tracker h) (refs h - 1)]> (handlers s))
    (waits s) (drops s) (cancelling s).

(** [ContextTrackerInner::wait]: make the [notified()] future. *)
Definition wait_begin (k : nat) (s : t) : t :=
  let flag := match trackers s !! k with Some tr => stopped tr | None => false end in
  mk (tokens s) (trackers s) (contexts s) (handlers s) (waits s ++ [mkWait k Registered false flag]) (drops s) (cancelling s).

(** Then load the count, and return or await. *)
Definition wait_check (i : nat) (w : Wait) (s : t) : t :=
  let none := match trackers s !! wait_on w with Some tr => active_count tr =? 0 | None => true end in
  mk (tokens s) (trackers s) (contexts s) (handlers s)
    (<[i := mkWait (wait_on w) (if none then Returned else Parked) (notified w) (after_stop w)]> (waits s)) (drops s)
    (cancelling s).

(** The [await] returns once the future was notified. *)
Definition wait_wake (i : nat) (w : Wait) (s : t) : t :=
  mk (tokens s) (trackers s) (contexts s) (handlers s)
    (<[i := mkWait (wait_on w) Returned (notified w) (after_stop w)]> (waits s)) (drops s) (cancelling s).

Inductive Event :=
| HandlerNew
| HandlerContext (i : nat)
| ContextChild (i : nat)
| ContextClone (i : nat)
| ContextDrop (i : nat)
| DropLook (i : nat)
| DropNotify (i : nat)
| HandlerStop (i : nat)
| HandlerCancel (i : nat)
| HandlerClone (i : nat)
| HandlerDrop (i : nat)
| HandlerWait (i : nat)
| HandlerDone (i : nat)
| WaitCheck (i : nat)
| WaitWake (i : nat).

(** [None]: the event is not possible in the state. *)
Definition next (e : Event) (s : t) : option t :=
  match e with
  | HandlerNew => Some (handler_new s)
  | HandlerContext i => h ← handlers s !! i; Some (handler_context h s)
  | ContextChild i => c ← contexts s !! i; Some (context_new_child c s)
  | ContextClone i => c ← contexts s !! i; Some (context_clone c s)
  | ContextDrop i => c ← contexts s !! i; Some (context_drop i c s)
  | DropLook i => d ← drops s !! i; match drop_stage d with Looking => Some (drop_look i (drop_of d) s) | _ => None end
  | DropNotify i => d ← drops s !! i; match drop_stage d with Notifying => Some (drop_notify i (drop_of d) s) | _ => None end
  | HandlerStop i => h ← handlers s !! i; Some (handler_stop h s)
  | HandlerCancel i => token ← cancelling s !! i; Some (handler_cancel i token s)
  | HandlerClone i => h ← handlers s !! i; Some (handler_clone i h s)
  | HandlerDrop i => h ← handlers s !! i; Some (handler_drop i h s)
  | HandlerWait i => h ← handlers s !! i; Some (wait_begin (handler_tracker h) s)
  | HandlerDone i => h ← handlers s !! i; if handler_done s h then Some (wait_begin (handler_tracker h) s) else None
  | WaitCheck i => w ← waits s !! i; match stage w with Registered => Some (wait_check i w s) | _ => None end
  | WaitWake i => w ← waits s !! i; if notified w then match stage w with Parked => Some (wait_wake i w s) | _ => None end else None
  end.

Inductive reachable : t -> Prop :=
| reach_init : reachable init
| reach_step s e s' : reachable s -> next e s = Some s' -> reachable s'.

(** ** ext.rs *)

Inductive Poll (A : Type) := Ready (a : A) | Pending.
Arguments Ready {A}.
Arguments Pending {A}.

(** [FutureWithContext::poll], from what the context and the future say. *)
Definition future_poll {A} (ctx : Poll unit) (future : Poll A) : Poll (option A) :=
  match ctx, future with
  | _, Ready v => Ready (Some v)
  | Ready _, Pending => Ready None
  | Pending, Pending => Pending
  end.

(** [StreamWithContext::poll_next] *)
Definition stream_poll_next {A} (ctx : Poll unit) (stream : Poll (option A)) : Poll (option A) :=
  match ctx, stream with
  | Ready _, _ => Ready None
  | Pending, Ready v => Ready v
  | Pending, Pending => Pending
  end.
End Context.
