(* ===== verification/ContextTheorems.v ===== *)
(** * [scuffle-context]: properties

    Under every interleaving a [shutdown] returns once its contexts are gone; a
    [wait] on a handler that was not cancelled itself may sleep for ever. *)

From stdpp Require Import base list numbers option gmap.
From S2P Require Import Prelude Context.

Module ContextProps.
Import Context.

(** ** Invariant *)

Definition on (k : nat) (cs : list Context) : list Context := filter (fun c => context_tracker c = k) cs.

Record ok (s : t) : Prop := {
  ok_count : forall k tr, trackers s !! k = Some tr -> active_count tr = blen (on k (contexts s));
  ok_contexts : Forall (fun c => (context_tracker c < length (trackers s))%nat) (contexts s);
  ok_handlers : Forall (fun h => (handler_tracker h < length (trackers s))%nat) (handlers s);
  ok_waits : Forall (fun w => (wait_on w < length (trackers s))%nat) (waits s);
  ok_drops : Forall (fun d => (drop_of d < length (trackers s))%nat) (drops s);
  ok_stopped : forall w tr, w ∈ waits s -> after_stop w = true -> trackers s !! wait_on w = Some tr -> stopped tr = true;
  ok_parked : forall w, w ∈ waits s -> after_stop w = true -> stage w = Parked -> notified w = false ->
    on (wait_on w) (contexts s) <> [] \/ exists d, d ∈ drops s /\ drop_of d = wait_on w;
  ok_silent : forall k tr, trackers s !! k = Some tr -> stopped tr = false ->
    (forall w, w ∈ waits s -> wait_on w = k -> notified w = false) /\
    (forall d, d ∈ drops s -> drop_of d = k -> drop_stage d = Looking);
}.

Lemma on_app k cs cs' : on k (cs ++ cs') = on k cs ++ on k cs'.
Proof. apply filter_app. Qed.

Lemma on_one k c : blen (on k [c]) = if decide (context_tracker c = k) then 1 else 0.
Proof. unfold on. rewrite filter_cons. case_decide; done. Qed.

(** New trackers have fresh numbers. *)
Lemma on_fresh n cs : Forall (fun c => (context_tracker c < n)%nat) cs -> on n cs = [].
Proof.
  intros H. induction H as [|c cs Hc _ IH]; [done|]. unfold on. rewrite filter_cons_False by lia. exact IH.
Qed.

Lemma on_delete k i c cs : cs !! i = Some c ->
  blen (on k (delete i cs)) = blen (on k cs) - if decide (context_tracker c = k) then 1 else 0.
Proof.
  intros Hi. rewrite delete_take_drop. rewrite <-(take_drop_middle cs i c Hi) at 3.
  change (c :: drop (S i) cs) with ([c] ++ drop (S i) cs). rewrite !on_app, !blen_app, on_one. lia.
Qed.

Lemma Forall_lt_mono {A} (f : A -> nat) n m xs : (n <= m)%nat ->
  Forall (fun x => (f x < n)%nat) xs -> Forall (fun x => (f x < m)%nat) xs.
Proof. intros Hn H. eapply Forall_impl; [exact H|]. simpl. lia. Qed.

Lemma init_ok : ok init.
Proof.
  split; try (by constructor); try done.
  intros w Hw. by apply elem_of_nil in Hw.
Qed.

(** ** Every event keeps it *)

Lemma alter_Some (f : Tracker -> Tracker) (k j : nat) (ts : list Tracker) tr' : alter f k ts !! j = Some tr' ->
  exists tr, ts !! j = Some tr /\ tr' = if decide (j = k) then f tr else tr.
Proof.
  destruct (decide (j = k)) as [->|Hne].
  - rewrite list_lookup_alter_eq. intros (tr & E & ->)%fmap_Some_1. by exists tr.
  - rewrite list_lookup_alter_ne by done. intros E. by exists tr'.
Qed.

(** One more context of tracker [k]. *)
Lemma ok_add_context s tokens' c hs : ok s -> (context_tracker c < length (trackers s))%nat ->
  Forall (fun h => (handler_tracker h < length (trackers s))%nat) hs ->
  ok (mk tokens' (tracker_child (context_tracker c) (trackers s)) (contexts s ++ [c]) hs (waits s) (drops s) (cancelling s)).
Proof.
  intros [H1 H2 H3 H4 H5 H6 H7 H8] Hc Hh. unfold tracker_child. split; simpl; rewrite ?length_alter; try done.
  - intros k tr' (tr & E & ->)%alter_Some. rewrite on_app, blen_app, on_one, <-(H1 k tr E).
    destruct (decide (k = context_tracker c)), (decide (context_tracker c = k)); simpl; try lia; congruence.
  - apply Forall_app. split; [done|]. by constructor.
  - intros w tr' Hw Ha (tr & E & ->)%alter_Some. specialize (H6 w tr Hw Ha E). by case_decide.
  - intros w Hw Ha Hs Hn. destruct (H7 w Hw Ha Hs Hn) as [Hne|Hd]; [left|by right].
    rewrite on_app. intros [? _]%app_eq_nil. done.
  - intros k tr' (tr & E & ->)%alter_Some Hst. apply (H8 k tr E). by case_decide.
Qed.

(** A new tracker without contexts. *)
Lemma ok_add_tracker s tokens' : ok s ->
  ok (mk tokens' (trackers s ++ [mkTracker false 0]) (contexts s) (handlers s) (waits s) (drops s) (cancelling s)).
Proof.
  intros [H1 H2 H3 H4 H5 H6 H7 H8]. split; simpl; rewrite ?length_app; simpl; try done.
  2-5: by eapply Forall_lt_mono; [|eassumption]; lia.
  - intros k tr [E|[Hk E]]%lookup_app_Some; [by apply H1|]. apply list_lookup_singleton_Some in E as [E <-].
    replace k with (length (trackers s)) by lia. rewrite on_fresh by done. done.
  - intros w tr Hw Ha E. rewrite Forall_forall in H4. rewrite lookup_app_l in E by (by apply H4). by eapply H6.
  - intros k tr [E|[Hk E]]%lookup_app_Some Hst; [by eapply H8|]. apply list_lookup_singleton_Some in E as [E _].
    rewrite Forall_forall in H4. rewrite Forall_forall in H5. split; [intros w Hw Ek; specialize (H4 w Hw)|intros d Hd Ek; specialize (H5 d Hd)]; lia.
Qed.

Lemma ok_handlers_only s tokens' hs cancelling' : ok s ->
  Forall (fun h => (handler_tracker h < length (trackers s))%nat) hs ->
  ok (mk tokens' (trackers s) (contexts s) hs (waits s) (drops s) cancelling').
Proof. intros [H1 H2 H3 H4 H5 H6 H7 H8] Hh. by split. Qed.

Lemma ok_drop_context s i c : ok s -> contexts s !! i = Some c -> ok (context_drop i c s).
Proof.
  intros [H1 H2 H3 H4 H5 H6 H7 H8] Hi. unfold context_drop. set (k := context_tracker c).
  assert (k < length (trackers s))%nat as Hk by (rewrite Forall_forall in H2; apply H2; by eapply list_elem_of_lookup_2).
  destruct (lookup_lt_is_Some_2 (trackers s) k Hk) as [tr0 E0]. rewrite E0.
  assert (forall d, d ∈ drops s -> d ∈ (if active_count tr0 =? 1 then drops s ++ [mkDropping k Looking] else drops s)) as Hd.
  { intros d Hd. case_match; [|done]. apply elem_of_app. by left. }
  split; simpl; rewrite ?length_alter; try done.
  - intros j tr' (tr & E & ->)%alter_Some. rewrite (on_delete j i c) by done. rewrite <-(H1 j tr E). subst k.
    destruct (decide (j = context_tracker c)), (decide (context_tracker c = j)); simpl; try lia; congruence.
  - by apply Forall_delete.
  - case_match; [|done]. apply Forall_app. split; [done|]. by constructor.
  - intros w tr' Hw Ha (tr & E & ->)%alter_Some. specialize (H6 w tr Hw Ha E). by case_decide.
  - intros w Hw Ha Hs Hn. destruct (H7 w Hw Ha Hs Hn) as [Hne|(d & Hin & Ed)]; [|right; exists d; auto].
    destruct (decide (wait_on w = k)) as [Ew|Ew].
    + destruct (Z.eqb_spec (active_count tr0) 1) as [E1|E1].
      * right. exists (mkDropping k Looking). split; [apply elem_of_app; right; left|done].
      * left. rewrite Ew in *. intros Hnil. pose proof (on_delete k i c (contexts s) Hi) as Hl. rewrite Hnil in Hl.
        rewrite decide_True in Hl by done. rewrite <-(H1 k tr0 E0) in Hl. change (blen []) with 0 in Hl. lia.
    + left. intros Hnil. apply Hne. pose proof (on_delete (wait_on w) i c (contexts s) Hi) as Hl. rewrite Hnil in Hl.
      rewrite decide_False in Hl by done. change (blen []) with 0 in Hl. unfold blen in Hl.
      destruct (on (wait_on w) (contexts s)); [done|simpl in Hl; lia].
  - intros j tr' (tr & E & ->)%alter_Some Hst. assert (stopped tr = false) as Hst' by (by case_decide).
    destruct (H8 j tr E Hst') as [Hw Hl]. split; [done|]. intros d Hin Ej. case_match; [|by apply Hl].
    apply elem_of_app in Hin as [Hin| ->%list_elem_of_singleton]; [by apply Hl|done].
Qed.

Lemma elem_of_delete {A} (x : A) (i : nat) (xs : list A) : x ∈ delete i xs -> x ∈ xs.
Proof. intros Hx. eapply elem_of_sublist; [exact Hx|apply sublist_delete]. Qed.

Lemma elem_of_insert {A} (x y : A) (i : nat) (xs : list A) : x ∈ <[i := y]> xs -> x = y \/ x ∈ xs.
Proof.
  intros (j & Hj)%list_elem_of_lookup. destruct (decide (i = j)) as [->|Hne].
  - left. destruct (decide (j < length xs)%nat) as [Hl|Hl]; [rewrite list_lookup_insert_eq in Hj by done; congruence|].
    rewrite list_insert_ge in Hj by lia. apply lookup_lt_Some in Hj. lia.
  - right. rewrite list_lookup_insert_ne in Hj by done. by eapply list_elem_of_lookup_2.
Qed.

Lemma elem_of_delete_other {A} (x y : A) (i : nat) (xs : list A) : xs !! i = Some y -> x ∈ xs -> x <> y -> x ∈ delete i xs.
Proof.
  intros Hi Hx Hne. rewrite (delete_Permutation xs i y Hi) in Hx. apply elem_of_cons in Hx as [|]; done.
Qed.

Lemma ok_drop_look s i k : ok s -> drops s !! i = Some (mkDropping k Looking) -> ok (drop_look i k s).
Proof.
  intros [H1 H2 H3 H4 H5 H6 H7 H8] Hi. unfold drop_look.
  assert (k < length (trackers s))%nat as Hk.
  { rewrite Forall_forall in H5. apply (H5 (mkDropping k Looking)). by eapply list_elem_of_lookup_2. }
  destruct (lookup_lt_is_Some_2 (trackers s) k Hk) as [tr0 E0]. rewrite E0. destruct (stopped tr0) eqn:Est.
  - split; simpl; try done.
    + by apply Forall_insert.
    + intros w Hw Ha Hs Hn. destruct (H7 w Hw Ha Hs Hn) as [|(d & Hd & Ed)]; [by left|right].
      destruct (decide (drop_of d = k)) as [Ek|Ek].
      * exists (mkDropping k Notifying). split; [|simpl; congruence]. eapply list_elem_of_lookup_2, list_lookup_insert_eq.
        by eapply lookup_lt_Some.
      * apply list_elem_of_lookup in Hd as [j Hj]. exists d. split; [|done]. apply (list_elem_of_lookup_2 _ j).
        rewrite list_lookup_insert_ne; [done|]. intros ->. rewrite Hi in Hj. by simplify_eq.
    + intros j tr E Hst. destruct (H8 j tr E Hst) as [Hw Hl]. split; [done|].
      intros d [->|Hd]%elem_of_insert Ed; [|by apply Hl]. simpl in Ed. subst j. congruence.
  - split; simpl; try done.
    + by apply Forall_delete.
    + intros w Hw Ha Hs Hn. destruct (H7 w Hw Ha Hs Hn) as [|(d & Hd & Ed)]; [by left|right].
      exists d. split; [|done]. eapply elem_of_delete_other; [exact Hi|done|]. intros ->. simpl in Ed. subst k.
      rewrite (H6 w tr0 Hw Ha E0) in Est. done.
    + intros j tr E Hst. destruct (H8 j tr E Hst) as [Hw Hl]. split; [done|].
      intros d Hd%elem_of_delete. by apply Hl.
Qed.

Definition notify (k : nat) (w : Wait) : Wait :=
  if decide (wait_on w = k) then mkWait (wait_on w) (stage w) true (after_stop w) else w.

Lemma notify_same k w : wait_on (notify k w) = wait_on w /\ after_stop (notify k w) = after_stop w /\ stage (notify k w) = stage w.
Proof. unfold notify. by case_decide. Qed.

Lemma ok_drop_notify s i k : ok s -> drops s !! i = Some (mkDropping k Notifying) -> ok (drop_notify i k s).
Proof.
  intros [H1 H2 H3 H4 H5 H6 H7 H8] Hi. unfold drop_notify. fold (notify k).
  assert (mkDropping k Notifying ∈ drops s) as Hin by (by eapply list_elem_of_lookup_2).
  split; simpl; try done.
  - apply Forall_fmap. eapply Forall_impl; [exact H4|]. intros w Hw. simpl. by destruct (notify_same k w) as (-> & _).
  - by apply Forall_delete.
  - intros w' tr (w & -> & Hw)%list_elem_of_fmap. destruct (notify_same k w) as (-> & -> & _). by apply H6.
  - intros w' (w & -> & Hw)%list_elem_of_fmap. destruct (notify_same k w) as (-> & -> & ->). intros Ha Hs Hn.
    unfold notify in Hn. case_decide as Hk; [done|]. destruct (H7 w Hw Ha Hs Hn) as [|(d & Hd & Ed)]; [by left|right].
    exists d. split; [|done]. eapply elem_of_delete_other; [exact Hi|done|]. intros ->. simpl in Ed. congruence.
  - intros j tr E Hst. destruct (H8 j tr E Hst) as [Hw Hl]. split; [|intros d Hd%elem_of_delete; by apply Hl].
    intros w' (w & -> & Hin')%list_elem_of_fmap. unfold notify. case_decide as Hk; simpl; [|by apply Hw].
    intros Ej. specialize (Hl _ Hin ltac:(simpl; congruence)). done.
Qed.

Lemma ok_stop s h : ok s -> ok (handler_stop h s).
Proof.
  intros [H1 H2 H3 H4 H5 H6 H7 H8]. unfold handler_stop. split; simpl; rewrite ?length_alter; try done.
  - intros k tr' (tr & E & ->)%alter_Some. rewrite <-(H1 k tr E). by case_decide.
  - intros w tr' Hw Ha (tr & E & ->)%alter_Some. specialize (H6 w tr Hw Ha E). by case_decide.
  - intros k tr' (tr & E & ->)%alter_Some Hst. apply (H8 k tr E). by case_decide.
Qed.

Lemma ok_wait_begin s k : ok s -> (k < length (trackers s))%nat -> ok (wait_begin k s).
Proof.
  intros [H1 H2 H3 H4 H5 H6 H7 H8] Hk. unfold wait_begin. destruct (lookup_lt_is_Some_2 (trackers s) k Hk) as [tr0 E0].
  rewrite E0. split; simpl; try done.
  - apply Forall_app. split; [done|]. by constructor.
  - intros w tr [Hw| ->%list_elem_of_singleton]%elem_of_app Ha E; [by eapply H6|]. simpl in *. congruence.
  - intros w [Hw| ->%list_elem_of_singleton]%elem_of_app Ha Hs Hn; [by apply H7|done].
  - intros j tr E Hst. destruct (H8 j tr E Hst) as [Hw Hl]. split; [|done].
    intros w [Hin| ->%list_elem_of_singleton]%elem_of_app Ej; [by apply Hw|done].
Qed.

(** A wait that parks has seen a context; one that returns is no matter. *)
Lemma ok_wait_update s i w st : ok s -> waits s !! i = Some w ->
  (st = Returned \/ (st = Parked /\ on (wait_on w) (contexts s) <> [])) ->
  ok (mk (tokens s) (trackers s) (contexts s) (handlers s)
    (<[i := mkWait (wait_on w) st (notified w) (after_stop w)]> (waits s)) (drops s) (cancelling s)).
Proof.
  intros [H1 H2 H3 H4 H5 H6 H7 H8] Hi Hst. assert (w ∈ waits s) as Hw by (by eapply list_elem_of_lookup_2).
  split; simpl; try done.
  - apply Forall_insert; [done|]. simpl. rewrite Forall_forall in H4. by apply H4.
  - intros w' tr [->|Hw']%elem_of_insert; [exact (H6 w tr Hw)|exact (H6 w' tr Hw')].
  - intros w' [->|Hw']%elem_of_insert; [|by apply H7]. simpl. intros Ha Hs Hn.
    destruct Hst as [->|[-> Hne]]; [done|by left].
  - intros k tr E Hs. destruct (H8 k tr E Hs) as [Hwt Hl]. split; [|done].
    intros w' [->|Hw']%elem_of_insert; [exact (Hwt w Hw)|exact (Hwt w' Hw')].
Qed.

Lemma next_event_ok s e s' : ok s -> next e s = Some s' -> ok s'.
Proof.
  intros Hs E. pose proof Hs as [H1 H2 H3 H4 H5 _ _ _]. rewrite Forall_forall in H2. rewrite Forall_forall in H4.
  assert (forall i h, handlers s !! i = Some h -> (handler_tracker h < length (trackers s))%nat) as Hh.
  { intros i h Hi. rewrite Forall_forall in H3. apply H3. by eapply list_elem_of_lookup_2. }
  assert (forall i c, contexts s !! i = Some c -> (context_tracker c < length (trackers s))%nat) as Hc.
  { intros i c Hi. apply H2. by eapply list_elem_of_lookup_2. }
  destruct e; cbn [next] in E; try (apply bind_Some in E as (x & Hx & E)).
  - injection E as <-. pose proof (ok_add_tracker s (tokens s ++ [mkToken None false]) Hs) as Ht.
    refine (ok_handlers_only _ _ _ _ Ht _). simpl. rewrite length_app. apply Forall_app. split; [|constructor; [simpl; lia|done]].
    eapply Forall_lt_mono; [|exact H3]. lia.
  - injection E as <-. unfold handler_context.
    by apply (ok_add_context s (tokens s ++ [mkToken (Some (handler_token x)) false]) (mkContext (length (tokens s)) (handler_tracker x)) (handlers s)); [|eapply Hh|].
  - injection E as <-. set (tokens' := tokens s ++ [mkToken (Some (context_token x)) false]).
    pose proof (ok_add_tracker s tokens' Hs) as Ht.
    assert (tracker_child (length (trackers s)) (trackers s ++ [mkTracker false 0]) = trackers s ++ [mkTracker false 1]) as Ec.
    { unfold tracker_child. rewrite alter_app_r_alt by lia. by rewrite Nat.sub_diag. }
    pose proof (ok_add_context _ tokens' (mkContext (length (tokens s)) (length (trackers s)))
      (handlers s ++ [mkHandler (length (tokens s)) (length (trackers s)) 1]) Ht) as Hr. simpl in Hr. rewrite Ec, length_app in Hr.
    apply Hr; [simpl; lia|]. apply Forall_app. split; [|constructor; [simpl; lia|done]]. eapply Forall_lt_mono; [|exact H3]. lia.
  - injection E as <-. apply (ok_add_context s (tokens s) x (handlers s)); [done|by eapply Hc|done].
  - injection E as <-. by apply ok_drop_context.
  - destruct x as [k []]; [|done]. injection E as <-. by apply ok_drop_look.
  - destruct x as [k []]; [done|]. injection E as <-. by apply ok_drop_notify.
  - injection E as <-. by apply ok_stop.
  - injection E as <-. by apply (ok_handlers_only s).
  - injection E as <-. apply (ok_handlers_only s); [done|]. apply Forall_insert; [done|]. exact (Hh _ _ Hx).
  - injection E as <-. unfold handler_drop. case_match; simpl; apply (ok_handlers_only s); try done;
      [by apply Forall_delete|]. apply Forall_insert; [done|]. exact (Hh _ _ Hx).
  - injection E as <-. apply ok_wait_begin; [done|by eapply Hh].
  - destruct (handler_done s x); [|done]. injection E as <-. apply ok_wait_begin; [done|by eapply Hh].
  - destruct (stage x) eqn:Est; try done. injection E as <-. unfold wait_check. apply ok_wait_update; [done|done|].
    destruct (lookup_lt_is_Some_2 (trackers s) (wait_on x)) as [tr Etr]; [apply H4; by eapply list_elem_of_lookup_2|].
    rewrite Etr, (H1 _ _ Etr). destruct (Z.eqb_spec (blen (on (wait_on x) (contexts s))) 0) as [|Hne]; [by left|right].
    split; [done|]. intros E. by rewrite E in Hne.
  - destruct (notified x), (stage x); try done. injection E as <-. apply ok_wait_update; [done|done|by left].
Qed.

Lemma reachable_event_ok s : reachable s -> ok s.
Proof. induction 1 as [|s e s' _ IH E]; [exact init_ok|by eapply next_event_ok]. Qed.

(** ** Waiting on a tracker that is not stopped *)

Fixpoint run (es : list Event) (s : t) : option t :=
  match es with
  | [] => Some s
  | e :: es => s' ← next e s; run es s'
  end.

Lemma alter_stopped (f : Tracker -> Tracker) (j k : nat) (ts : list Tracker) tr :
  (forall tr, stopped tr = true -> stopped (f tr) = true) -> ts !! k = Some tr -> stopped tr = true ->
  exists tr', alter f j ts !! k = Some tr' /\ stopped tr' = true.
Proof.
  intros Hf E Hs. destruct (decide (j = k)) as [->|Hne].
  - exists (f tr). rewrite list_lookup_alter_eq, E. auto.
  - exists tr. by rewrite list_lookup_alter_ne.
Qed.

(** A stopped tracker stays stopped. *)
Lemma next_stopped s e s' k tr : next e s = Some s' -> trackers s !! k = Some tr -> stopped tr = true ->
  exists tr', trackers s' !! k = Some tr' /\ stopped tr' = true.
Proof.
  intros E Hk Hst. destruct e; cbn [next] in E; try (apply bind_Some in E as (x & Hx & E)); repeat case_match; simplify_eq;
    unfold handler_drop, handler_cancel, cancel_token in *; repeat case_match; cbn [trackers];
    try (by exists tr); try (by apply (alter_stopped _ _ k (trackers s) tr)).
  all: exists tr; split; [|done]; cbn; by apply lookup_app_l_Some.
Qed.

Lemma next_parked s e s' i w : reachable s -> waits s !! i = Some w -> stage w = Parked ->
  (forall tr, trackers s !! wait_on w = Some tr -> stopped tr = false) -> next e s = Some s' -> waits s' !! i = Some w.
Proof.
  intros Hr Hi Hp Hu E. pose proof (reachable_event_ok s Hr) as [_ _ _ H4 _ _ _ H8].
  assert (w ∈ waits s) as Hw by (by eapply list_elem_of_lookup_2). rewrite Forall_forall in H4.
  destruct (lookup_lt_is_Some_2 (trackers s) (wait_on w) (H4 w Hw)) as [tr Etr].
  destruct (H8 _ tr Etr (Hu tr Etr)) as [Hn Hl].
  destruct e as [| | | | | |j| | | | | | |j|j]; cbn [next] in E; try (apply bind_Some in E as (x & Hx & E)).
  7: { destruct x as [k []]; [done|]. injection E as <-. cbn [drop_notify waits]. rewrite list_lookup_fmap, Hi. simpl.
       rewrite decide_False; [done|]. intros Ek. specialize (Hl (mkDropping k Notifying) (list_elem_of_lookup_2 _ _ _ Hx)). by specialize (Hl (eq_sym Ek)). }
  13: { destruct (stage x) eqn:Ex; try done. injection E as <-. cbn [wait_check waits].
        rewrite list_lookup_insert_ne; [done|]. intros ->. simplify_eq. congruence. }
  13: { destruct (notified x) eqn:Ex; [|done]. destruct (stage x); try done. injection E as <-. cbn [wait_wake waits].
        rewrite list_lookup_insert_ne; [done|]. intros ->. simplify_eq. by rewrite Hn in Ex. }
  all: repeat case_match; simplify_eq; unfold handler_drop; repeat case_match; cbn; try done; by apply lookup_app_l_Some.
Qed.

(** ** Properties *)


(** C21. [wait] and [done] can sleep for ever: as long as the handler itself has not
    been cancelled, a call that found a context and went to sleep is never woken,
    whatever happens: not when all contexts of the handler have been dropped, and
    not when its token was cancelled by a parent. *)
Theorem unstopped_wait_sleeps (s s' : t) (i : nat) (w : Wait) (es : list Event)
    (Hreach : reachable s) (Hwait : waits s !! i = Some w) (Hparked : stage w = Parked) (Hrun : run es s = Some s')
    (Hunstopped : forall tr, trackers s' !! wait_on w = Some tr -> stopped tr = false) :
  waits s' !! i = Some w.
Proof.
  revert s Hreach Hwait Hrun. induction es as [|e es IH]; intros s Hreach Hwait Hrun; cbn [run] in Hrun; [by simplify_eq|].
  apply bind_Some in Hrun as (s1 & E & Hrun). apply (IH s1); [by eapply reach_step| |done].
  eapply next_parked; try done. intros tr Etr. destruct (stopped tr) eqn:Est; [|done].
  assert (forall es s s' tr, run es s = Some s' -> trackers s !! wait_on w = Some tr -> stopped tr = true ->
    exists tr', trackers s' !! wait_on w = Some tr' /\ stopped tr' = true) as Hmono.
  { clear. induction es as [|e es IH]; intros s s' tr Hr Hk Hs; cbn [run] in Hr; [simplify_eq; by exists tr|].
    apply bind_Some in Hr as (s1 & E & Hr). destruct (next_stopped s e s1 _ tr E Hk Hs) as (tr1 & ? & ?). by eapply IH. }
  destruct (Hmono (e :: es) s s' tr) as (tr' & Etr' & Est'); [cbn [run]; by rewrite E|done|done|].
  by rewrite (Hunstopped tr' Etr') in Est'.
Qed.

(** A handler, a context of it, and a child of the context; the parent is
    cancelled, the child's handler waits, and then both contexts are dropped. *)
Definition parent_cancelled : list Event :=
  [HandlerNew; HandlerContext 0; ContextChild 0; HandlerStop 0; HandlerCancel 0; HandlerDone 1; WaitCheck 0].
Definition contexts_dropped : list Event := [ContextDrop 1; DropLook 0; ContextDrop 0; DropLook 0; DropNotify 0].

Lemma run_reachable es : forall s s', reachable s -> run es s = Some s' -> reachable s'.
Proof.
  induction es as [|e es IH]; intros s s' Hr E; cbn [run] in E; [by simplify_eq|].
  apply bind_Some in E as (s1 & E1 & E). eapply IH; [|exact E]. by eapply reach_step.
Qed.

Lemma unstopped_wait_sleeps_witness :
  let s := default init (run parent_cancelled init) in let s' := default init (run contexts_dropped s) in
  let w := mkWait 1 Parked false false in
  handler_done s' (mkHandler 2 1 1) = true /\ contexts s' = [] /\ drops s' = [] /\
  waits s !! 0%nat = Some w /\ waits s' !! 0%nat = Some w.
Proof.
  intros s s' w. do 4 (split; [vm_compute; reflexivity|]).
  apply (unstopped_wait_sleeps s s' 0 w contexts_dropped).
  - apply (run_reachable parent_cancelled init s reach_init). vm_compute. reflexivity.
  - vm_compute. reflexivity.
  - reflexivity.
  - vm_compute. reflexivity.
  - intros tr. vm_compute. by intros [= <-].
Defined.

(** [shutdown] racing with the drop of the only context. *)
Definition shutdown_race : list Event :=
  [HandlerNew; HandlerContext 0; HandlerStop 0; HandlerCancel 0; HandlerDone 0; WaitCheck 0; ContextDrop 0; DropLook 0; DropNotify 0].


(** A context made between the last drop and its notification: a wait that began
    after both returns although the context is still there. *)
Example wait_returns_early :
  let s := run [HandlerNew; HandlerContext 0; ContextDrop 0; HandlerStop 0; HandlerCancel 0; HandlerContext 0;
    HandlerDone 0; WaitCheck 0; DropLook 0; DropNotify 0; WaitWake 0] init in
  option_map waits s = Some [mkWait 0 Returned true true] /\ option_map contexts s = Some [mkContext 2 0].
Proof. vm_compute. done. Qed.
End ContextProps.
