(* ===== verification/FeatureSets.v ===== *)
(** * Feature sets of the workspace checks (dev-tools/xtask/src/utils.rs)

    [cargo xtask power-set] runs a command for every combination of the
    features of a package. This file has the computation of the combinations:
    the closure of a feature's dependencies ([flatten_features]), the search
    for combinations ([find_permutations]) and their assembly for a package
    ([test_package_features]).

    A [BTreeSet] is a [gset]. A [BTreeMap] is the list of its entries in key
    order, which is the order in which the code iterates over it; keys are
    distinct. A [Vec] used as a stack is a list whose head is the top. *)

From Stdlib Require Import Strings.String Strings.Ascii.
From stdpp Require Import base list numbers gmap strings.
From S2P Require Import Prelude.

Open Scope nat_scope.

Module Features.

Abbreviation FeatureSet := (gset string).

(** [map.get(k)] and [map[k]]. *)
Fixpoint get {A} (k : string) (m : list (string * A)) : option A :=
  match m with
  | [] => None
  | (k', v) :: m => if decide (k = k') then Some v else get k m
  end.

Definition contains_key {A} (k : string) (m : list (string * A)) : bool :=
  match get k m with Some _ => true | None => false end.

(** [map.remove(k)] *)
Definition remove {A} (k : string) (m : list (string * A)) : list (string * A) :=
  filter (fun e => e.1 <> k) m.

(** [s.strip_prefix(p)] *)
Fixpoint strip_prefix (p s : string) : option string :=
  match p, s with
  | EmptyString, _ => Some s
  | String a p, String b s => if decide (a = b) then strip_prefix p s else None
  | String _ _, EmptyString => None
  end.

(** [cargo_metadata::Package], the field that is used. *)
Record Package := mkPackage { features : list (string * list string) }.

Record XTaskMetadata := mkMetadata {
  skip_feature_sets : gset FeatureSet;
  skip_optional_dependencies : bool;
  extra_features : FeatureSet;
  deny_list : FeatureSet;
  always_include_features : FeatureSet;
  max_combination_size : option nat;
  allow_list : FeatureSet;
  additive_features : FeatureSet;
  skip : bool
}.

Definition XTaskMetadata_default : XTaskMetadata :=
  mkMetadata ∅ true ∅ ∅ ∅ None ∅ ∅ false.

(** The [anyhow::bail!] of [test_package_features]. *)
Inductive Error := BothLists.

(** ** [flatten_features] *)

(** The loop [while let Some(dep) = next.pop()]. *)
Fixpoint flatten_loop (fuel : nat) (package_features : list (string * list string))
    (next : list string) (features : FeatureSet) : res Error FeatureSet :=
  match fuel with
  | O => Fuel
  | S fuel =>
      match next with
      | [] => Ok features
      | dep :: next =>
          match get dep package_features with
          | Some deps =>
              if decide (dep ∈ features) then flatten_loop fuel package_features next features
              else flatten_loop fuel package_features (reverse deps ++ next) ({[dep]} ∪ features)
          | None => flatten_loop fuel package_features next features
          end
      end
  end.

(** Every entry of the map extends the stack at most once. *)
Definition flatten_fuel (package_features : list (string * list string)) (deps : list string) : nat :=
  S (length deps + sum_list (length ∘ snd <$> package_features)).

Definition flatten_features (deps : list string) (package_features : list (string * list string)) :
    res Error FeatureSet :=
  flatten_loop (flatten_fuel package_features deps) package_features (reverse deps) ∅.

(** ** [find_permutations] *)

(** [start.iter().flat_map(|f| viable_features[f].iter().chain(once(f)))];
    [None] is the panic of the index. *)
Definition flattened (viable_features : list (string * FeatureSet)) (start : FeatureSet) : option FeatureSet :=
  ds ← mapM (fun f => get f viable_features) (elements start);
  Some (⋃ ds ∪ start).

(** [new_start.insert(feature)], then every dependency is removed. *)
Definition with_feature (start : FeatureSet) (feature : string) (deps : FeatureSet) : FeatureSet :=
  ({[feature]} ∪ start) ∖ deps.

(** The body of the loop over [viable_features]: what is pushed. *)
Definition push_feature (start flat : FeatureSet) (rem : nat) (permutations skip : gset FeatureSet)
    (stack : list (FeatureSet * nat)) (entry : string * FeatureSet) : list (FeatureSet * nat) :=
  let '(feature, deps) := entry in
  if decide (feature ∈ flat) then stack
  else
    let new_start := with_feature start feature deps in
    if decide (new_start ∈ permutations) then stack
    else if decide (new_start ∈ skip) then stack
    else (new_start, Nat.pred rem) :: stack.

(** [skip_feature_sets.iter().any(|s| s.is_subset(&start))] *)
Definition skipped (skip : gset FeatureSet) (start : FeatureSet) : bool :=
  existsb (fun s => bool_decide (s ⊆ start)) (elements skip).

Fixpoint find_loop (fuel : nat) (viable_features : list (string * FeatureSet)) (skip : gset FeatureSet)
    (stack : list (FeatureSet * nat)) (permutations : gset FeatureSet) : res Error (gset FeatureSet) :=
  match fuel with
  | O => Fuel
  | S fuel =>
      match stack with
      | [] => Ok permutations
      | (start, rem) :: stack =>
          if skipped skip start then find_loop fuel viable_features skip stack permutations
          else if decide (start ∈ permutations) then find_loop fuel viable_features skip stack permutations
          else
            let permutations := {[start]} ∪ permutations in
            if decide (rem = 0) then find_loop fuel viable_features skip stack permutations
            else
              match flattened viable_features start with
              | None => Panic
              | Some flat =>
                  find_loop fuel viable_features skip
                    (foldl (push_feature start flat rem permutations skip) stack viable_features) permutations
              end
      end
  end.

(** Every set is expanded once, and pushes at most one set per feature. *)
Definition find_fuel (viable_features : list (string * FeatureSet)) (initial_start : FeatureSet) : nat :=
  2 + length viable_features * 2 ^ size (initial_start ∪ list_to_set viable_features.*1).

(** [find_permutations] starting with no permutations, as its only caller does. *)
Definition find_permutations (initial_start : FeatureSet) (remaining : nat)
    (viable_features : list (string * FeatureSet)) (skip : gset FeatureSet) : res Error (gset FeatureSet) :=
  find_loop (find_fuel viable_features initial_start) viable_features skip [(initial_start, remaining)] ∅.

(** ** [test_package_features] *)

(** The loop over the dependencies [dep:name] of one feature; the state is
    [(implicit_features, used_deps)]. *)
Definition scan_deps (feature : string) (deps : list string) (st : FeatureSet * FeatureSet) :
    FeatureSet * FeatureSet :=
  foldl (fun '(implicit_features, used_deps) dep =>
           if decide (dep = feature) then
             if decide (length deps = 1) then ({[feature]} ∪ implicit_features, used_deps)
             else (implicit_features, {[dep]} ∪ used_deps)
           else (implicit_features, {[dep]} ∪ used_deps))
        st (omap (strip_prefix "dep:") deps).

(** The features left when optional dependencies are skipped. *)
Definition package_features (package : Package) (xtask_metadata : XTaskMetadata) : list (string * list string) :=
  if skip_optional_dependencies xtask_metadata then
    let '(implicit_features, used_deps) :=
      foldl (fun st '(feature, deps) => scan_deps feature deps st) (∅, ∅) (features package) in
    foldl (fun m feature =>
             if decide (feature ∈ used_deps) then m
             else if decide (feature ∈ extra_features xtask_metadata) then m
             else remove feature m)
          (features package) (elements implicit_features)
  else features package.

(** [(use_allow_list && !allow_list.contains(f)) || (use_deny_list && deny_list.contains(f))] *)
Definition filtered_out (xtask_metadata : XTaskMetadata) (feature : string) : bool :=
  (negb (bool_decide (allow_list xtask_metadata = ∅))
     && negb (bool_decide (feature ∈ allow_list xtask_metadata)))
  || (negb (bool_decide (deny_list xtask_metadata = ∅))
        && bool_decide (feature ∈ deny_list xtask_metadata)).

(** The loop over [package_features]: [(viable_features, additive_features)]. *)
Fixpoint split_features (xtask_metadata : XTaskMetadata) (all todo : list (string * list string)) :
    res Error (list (string * FeatureSet) * list (string * FeatureSet)) :=
  match todo with
  | [] => Ok ([], [])
  | (feature, deps) :: todo =>
      if filtered_out xtask_metadata feature then split_features xtask_metadata all todo
      else
        match flatten_features deps all with
        | Ok flat =>
            match split_features xtask_metadata all todo with
            | Ok (viable, additive) =>
                if decide (feature ∈ additive_features xtask_metadata)
                then Ok (viable, (feature, flat) :: additive)
                else Ok ((feature, flat) :: viable, additive)
            | e => e
            end
        | Err e => Err e
        | Panic => Panic
        | Fuel => Fuel
        end
  end.

(** The loop over [additive_features] for one permutation; the state is
    [(permutation, permutations)]. *)
Definition add_additive (flat : FeatureSet) (st : FeatureSet * gset FeatureSet)
    (entry : string * FeatureSet) : FeatureSet * gset FeatureSet :=
  let '(permutation, permutations) := st in
  let '(feature, deps) := entry in
  if decide (feature ∈ flat) then st
  else
    let permutation := with_feature permutation feature deps in
    (permutation, {[permutation]} ∪ permutations).

(** The loop over the non-additive permutations. *)
Fixpoint extend_permutations (viable additive : list (string * FeatureSet)) (todo : list FeatureSet)
    (permutations : gset FeatureSet) : option (gset FeatureSet) :=
  match todo with
  | [] => Some permutations
  | permutation :: todo =>
      flat ← flattened viable permutation;
      extend_permutations viable additive todo
        (foldl (add_additive flat) (permutation, {[permutation]} ∪ permutations) additive).2
  end.

(** The last loop: every additive feature on its own. *)
Definition add_single (always_included flat : FeatureSet) (permutations : gset FeatureSet)
    (entry : string * FeatureSet) : gset FeatureSet :=
  if decide (entry.1 ∈ flat) then permutations
  else {[ {[entry.1]} ∪ always_included ]} ∪ permutations.

Definition always_included (package : Package) (added_features : list string)
    (xtask_metadata : XTaskMetadata) : FeatureSet :=
  filter (fun f => contains_key f (package_features package xtask_metadata) = true)
    (always_include_features xtask_metadata ∪ list_to_set added_features).

Definition skip_sets (excluded_features : list string) (xtask_metadata : XTaskMetadata) : gset FeatureSet :=
  list_to_set ((fun f => {[f]}) <$> excluded_features) ∪ skip_feature_sets xtask_metadata.

Definition test_package_features (package : Package) (added_features excluded_features : list string)
    (xtask_metadata : XTaskMetadata) : res Error (gset FeatureSet) :=
  if decide (features package = []) then Ok ∅
  else if negb (bool_decide (allow_list xtask_metadata = ∅)) && negb (bool_decide (deny_list xtask_metadata = ∅))
  then Err BothLists
  else
    let all := package_features package xtask_metadata in
    match split_features xtask_metadata all all with
    | Ok (viable, additive) =>
        let always := always_included package added_features xtask_metadata in
        match find_permutations always
                (default (length viable + 1) (max_combination_size xtask_metadata))
                viable (skip_sets excluded_features xtask_metadata) with
        | Ok non_additive =>
            match extend_permutations viable additive (elements non_additive) ∅, flattened viable always with
            | Some permutations, Some flat => Ok (foldl (add_single always flat) permutations additive)
            | _, _ => Panic
            end
        | Err e => Err e
        | Panic => Panic
        | Fuel => Fuel
        end
    | Err e => Err e
    | Panic => Panic
    | Fuel => Fuel
    end.

(** ** [parse_features] and [comma_delimited] *)

(** [feature.splitn(2, '/')]: the part in front of the first slash, and the
    rest when there is one. *)
Fixpoint split_slash (s : string) : string * option string :=
  match s with
  | EmptyString => (EmptyString, None)
  | String a s =>
      if decide (a = "/"%char) then (EmptyString, Some s)
      else let '(first, second) := split_slash s in (String a first, second)
  end.

(** The accumulated [(generic_features, crate_features)]. *)
Definition parse_feature (st : FeatureSet * gmap string FeatureSet) (feature : string) :
    FeatureSet * gmap string FeatureSet :=
  let '(generic_features, crate_features) := st in
  match split_slash feature with
  | (first, Some second) =>
      (generic_features, <[first := {[second]} ∪ default ∅ (crate_features !! first)]> crate_features)
  | (first, None) => ({[first]} ∪ generic_features, crate_features)
  end.

Definition parse_features (features : list string) : FeatureSet * gmap string FeatureSet :=
  foldl parse_feature (∅, ∅) features.

Definition comma_delimited (features : list string) : string :=
  foldl (fun s feature =>
           (if decide (s = EmptyString) then s else s +:+ ",") +:+ feature) EmptyString features.

End Features.
