(* ===== verification/FeatureSetsLaws.v ===== *)
(** * Laws of the feature-set computation

    The dependencies of a feature as a relation ([implied]) and
    [flatten_features] as its closure; the search of [find_permutations] by
    an invariance principle ([find_loop_inv]): it ends for every input, it
    yields allowed combinations only, and it covers every combination. *)

From Stdlib Require Import Strings.String.
From stdpp Require Import base list numbers gmap strings.
From S2P Require Import Prelude FeatureSets.

Open Scope nat_scope.

Module FeatureLaws.
Import Features.

(** ** Maps as lists of entries *)

Lemma get_Some_elem {A} k (v : A) m : get k m = Some v -> (k, v) ∈ m.
Proof.
  induction m as [|[k' v'] m IH]; simpl; [done|].
  case_decide; intros; simplify_eq; set_solver.
Qed.

Lemma get_is_Some {A} k (m : list (string * A)) : is_Some (get k m) <-> k ∈ m.*1.
Proof.
  induction m as [|[k' v'] m IH]; simpl.
  - split; [intros []; done|set_solver].
  - case_decide; subst; rewrite elem_of_cons; [|rewrite IH; naive_solver].
    split; eauto.
Qed.

Lemma contains_key_spec {A} k (m : list (string * A)) : contains_key k m = true <-> is_Some (get k m).
Proof. unfold contains_key. destruct (get k m); split; [eauto|done..|intros [? ?]; done]. Qed.

Lemma get_filter {A} (R : gset string) k (m : list (string * A)) :
  get k (filter (fun e => e.1 ∉ R) m) = if decide (k ∈ R) then None else get k m.
Proof.
  induction m as [|[k' v'] m IH]; [simpl; by case_decide|].
  rewrite filter_cons. simpl. destruct (decide (k' ∈ R)) as [Hk|Hk].
  - rewrite decide_False by (simpl; tauto). rewrite IH.
    repeat case_decide; congruence.
  - rewrite decide_True by done. simpl. rewrite IH. repeat case_decide; congruence.
Qed.

(** ** [flatten_features] *)

Section flatten.
Context (pkg : list (string * list string)).

(** A feature of the package that is switched on by a list of dependencies. *)
Inductive implied (deps : list string) : string -> Prop :=
| implied_dep d : d ∈ deps -> is_Some (get d pkg) -> implied deps d
| implied_step d ds d' :
    implied deps d -> get d pkg = Some ds -> d' ∈ ds -> is_Some (get d' pkg) -> implied deps d'.

Lemma implied_trans deps d ds f :
  implied deps d -> get d pkg = Some ds -> implied ds f -> implied deps f.
Proof. intros Hd Hg. induction 1; eauto using implied. Qed.

Lemma implied_known deps f : implied deps f -> is_Some (get f pkg).
Proof. by destruct 1. Qed.

(** The entries that can still extend the stack. *)
Definition remaining (features : gset string) (m : list (string * list string)) : nat :=
  sum_list (length ∘ snd <$> filter (fun e => e.1 ∉ features) m).

Lemma remaining_mono features d m : remaining ({[d]} ∪ features) m <= remaining features m.
Proof.
  unfold remaining. induction m as [|[k ds] m IH]; [done|].
  rewrite !filter_cons. simpl. repeat case_decide; csimpl; first [lia|exfalso; set_solver].
Qed.

Lemma remaining_insert features d ds m : get d m = Some ds -> d ∉ features ->
  remaining ({[d]} ∪ features) m + length ds <= remaining features m.
Proof.
  induction m as [|[k v] m IH]; simpl; [done|]. intros Hg Hd.
  pose proof (remaining_mono features d m) as Hm. unfold remaining in *.
  rewrite !filter_cons. simpl. case_decide as Hk; simplify_eq.
  - rewrite decide_False by set_solver. rewrite decide_True by done. csimpl. lia.
  - specialize (IH Hg Hd). repeat case_decide; csimpl; first [lia|exfalso; set_solver].
Qed.

Record flat_inv (deps next : list string) (features : gset string) : Prop := {
  flat_sound f : f ∈ features -> implied deps f;
  flat_next f : f ∈ next -> is_Some (get f pkg) -> implied deps f;
  flat_deps d : d ∈ deps -> is_Some (get d pkg) -> d ∈ features \/ d ∈ next;
  flat_closed f ds d : f ∈ features -> get f pkg = Some ds -> d ∈ ds -> is_Some (get d pkg) ->
    d ∈ features \/ d ∈ next
}.

Lemma flatten_loop_spec deps fuel : forall next features,
  flat_inv deps next features -> length next + remaining features pkg < fuel ->
  exists r, flatten_loop fuel pkg next features = Ok r /\ forall f, f ∈ r <-> implied deps f.
Proof.
  induction fuel as [|fuel IH]; [lia|]. intros [|d next] features [Hs Hn Hd Hc] Hf; simpl.
  { exists features. split; [done|]. intros f. split; [auto|].
    induction 1 as [f Hin Hk|f ds f' _ IHf Hg Hin Hk].
    - destruct (Hd f Hin Hk); set_solver.
    - destruct (Hc f ds f' IHf Hg Hin Hk); set_solver. }
  simpl in Hf. destruct (get d pkg) as [ds|] eqn:Hg; [case_decide as Hin|].
  - apply IH; [|lia]. split; [done|set_solver..].
  - assert (implied deps d) as Hi by (apply Hn; [set_solver|eauto]).
    apply IH; [|rewrite length_app, length_reverse; pose proof (remaining_insert _ _ _ _ Hg Hin); lia].
    split.
    + intros f. rewrite elem_of_union, elem_of_singleton. intros [-> |]; auto.
    + intros f. rewrite elem_of_app, elem_of_reverse. intros [Hf'|Hf'] Hk.
      * by apply (implied_step deps d ds).
      * apply Hn; [by constructor|done].
    + intros f Hf' Hk. rewrite elem_of_app. destruct (Hd f Hf' Hk); set_solver.
    + intros f ds' e He Hg' He' Hk. rewrite elem_of_app, elem_of_reverse.
      apply elem_of_union in He as [->%elem_of_singleton|He]; [naive_solver|].
      destruct (Hc f ds' e He Hg' He' Hk); set_solver.
  - apply IH; [|lia]. split; [done|set_solver|..].
    + intros f Hf' Hk. destruct (Hd f Hf' Hk) as [|[-> |]%elem_of_cons]; auto. destruct Hk; congruence.
    + intros f ds e He Hg' He' Hk. destruct (Hc f ds e He Hg' He' Hk) as [|[-> |]%elem_of_cons]; auto.
      destruct Hk; congruence.
Qed.

(** [flatten_features] is the closure of the dependencies. *)
Lemma flatten_features_spec deps :
  exists r, flatten_features deps pkg = Ok r /\ forall f, f ∈ r <-> implied deps f.
Proof.
  apply flatten_loop_spec.
  - split; [set_solver|..]; intros f.
    + rewrite elem_of_reverse. eauto using implied.
    + rewrite elem_of_reverse. auto.
    + set_solver.
  - unfold flatten_fuel. rewrite length_reverse.
    assert (remaining ∅ pkg = sum_list (length ∘ snd <$> pkg)) as ->; [|lia].
    unfold remaining. clear. induction pkg as [|e m IH]; [done|].
    rewrite filter_cons, decide_True by set_solver. csimpl. lia.
Qed.

End flatten.

(** ** Subsets *)

Fixpoint subsets (l : list string) : list (gset string) :=
  match l with
  | [] => [∅]
  | x :: l => subsets l ++ (union {[x]} <$> subsets l)
  end.

Lemma subsets_length l : length (subsets l) = 2 ^ length l.
Proof. induction l; simpl; [done|]. rewrite length_app, length_fmap. lia. Qed.

Lemma subsets_elem l : forall s, s ⊆ list_to_set l -> s ∈ subsets l.
Proof.
  induction l as [|x l IH]; intros s Hs; simpl.
  { apply list_elem_of_singleton. set_solver. }
  rewrite elem_of_app. destruct (decide (x ∈ s)) as [Hx|Hx]; [right|left; apply IH; set_solver].
  apply list_elem_of_fmap. exists (s ∖ {[x]}). split; [|apply IH; set_solver].
  apply set_eq. intros y. destruct (decide (y = x)); set_solver.
Qed.

Lemma subsets_size (P : gset (gset string)) k : (forall s, s ∈ P -> s ⊆ k) -> size P <= 2 ^ size k.
Proof.
  intros HP. unfold size at 1, set_size. simpl.
  transitivity (length (subsets (elements k))); [|by rewrite subsets_length].
  apply submseteq_length, NoDup_submseteq; [apply NoDup_elements|].
  intros s Hs%elem_of_elements. apply subsets_elem. rewrite list_to_set_elements_L. auto.
Qed.

(** ** [find_permutations] *)

Section find.
Context (viable : list (string * gset string)) (skip : gset (gset string)).

Definition keys : gset string := list_to_set viable.*1.

Lemma keys_spec f : f ∈ keys <-> is_Some (get f viable).
Proof. unfold keys. by rewrite elem_of_list_to_set, get_is_Some. Qed.

(** A feature that is on when the features [s] are requested. *)
Definition covers (s : gset string) (f : string) : Prop :=
  f ∈ s \/ exists g ds, g ∈ s /\ get g viable = Some ds /\ f ∈ ds.

Lemma flattened_Some s : s ⊆ keys ->
  exists flat, flattened viable s = Some flat /\ forall f, f ∈ flat <-> covers s f.
Proof.
  intros Hs. unfold flattened.
  destruct (mapM (fun f => get f viable) (elements s)) as [ds|] eqn:E; simpl.
  - eexists. split; [done|]. intros f. rewrite elem_of_union, elem_of_union_list. unfold covers.
    apply mapM_Some in E. split.
    + intros [(d & Hd & Hf)|]; [|by left]. apply list_elem_of_lookup in Hd as [i Hi].
      destruct (Forall2_lookup_r _ _ _ _ _ E Hi) as (g & Hg & Hget).
      right. exists g, d. split; [|done]. apply elem_of_elements. by eapply list_elem_of_lookup_2.
    + intros [|(g & d & Hg & Hget & Hf)]; [by right|]. apply elem_of_elements, list_elem_of_lookup in Hg as [i Hi].
      destruct (Forall2_lookup_l _ _ _ _ _ E Hi) as (d' & Hd & Hget').
      left. exists d'. split; [by eapply list_elem_of_lookup_2|congruence].
  - exfalso. apply eq_None_not_Some in E. apply E, mapM_is_Some, Forall_forall.
    intros f Hf%elem_of_elements. apply keys_spec. auto.
Qed.

Lemma flattened_None s f : f ∈ s -> f ∉ keys -> flattened viable s = None.
Proof.
  intros Hf Hk. unfold flattened. destruct (mapM _ _) as [ds|] eqn:E; [|done]. exfalso.
  apply Hk, keys_spec. assert (is_Some (mapM (fun f => get f viable) (elements s))) as H by eauto.
  apply mapM_is_Some in H. rewrite Forall_forall in H. apply H. by apply elem_of_elements.
Qed.

Lemma skipped_spec s : skipped skip s = true <-> exists k, k ∈ skip /\ k ⊆ s.
Proof.
  unfold skipped. rewrite existsb_exists. split.
  - intros (k & Hk & Hs%bool_decide_eq_true). exists k. split; [|done].
    by apply elem_of_elements, list_elem_of_In.
  - intros (k & Hk & Hs). exists k. split; [by apply list_elem_of_In, elem_of_elements|].
    by apply bool_decide_eq_true.
Qed.

Lemma push_elem start flat rem perms e l : forall stack,
  e ∈ foldl (push_feature start flat rem perms skip) stack l <->
  e ∈ stack \/ exists f ds, (f, ds) ∈ l /\ f ∉ flat /\ with_feature start f ds ∉ perms
    /\ with_feature start f ds ∉ skip /\ e = (with_feature start f ds, Nat.pred rem).
Proof.
  induction l as [|[f ds] l IH]; intros stack; simpl; [set_solver|].
  rewrite IH. repeat case_decide; try rewrite elem_of_cons;
    setoid_rewrite elem_of_cons; naive_solver.
Qed.

Lemma push_length start flat rem perms l : forall stack,
  length (foldl (push_feature start flat rem perms skip) stack l) <= length stack + length l.
Proof.
  induction l as [|[f ds] l IH]; intros stack; simpl; [lia|].
  etransitivity; [apply IH|]. repeat case_decide; simpl; lia.
Qed.

(** What holds at the start and is kept by every turn of the loop holds at the
    end; and the loop ends. *)
Lemma find_loop_inv (I : list (gset string * nat) -> gset (gset string) -> Prop) :
  (forall s r stack perms, I ((s, r) :: stack) perms -> skipped skip s = true \/ s ∈ perms -> I stack perms) ->
  (forall s stack perms, I ((s, 0) :: stack) perms -> skipped skip s = false -> s ∉ perms ->
     s ⊆ keys -> I stack ({[s]} ∪ perms)) ->
  (forall s r flat stack perms, I ((s, S r) :: stack) perms -> skipped skip s = false -> s ∉ perms ->
     s ⊆ keys -> (forall f, f ∈ flat <-> covers s f) ->
     I (foldl (push_feature s flat (S r) ({[s]} ∪ perms) skip) stack viable) ({[s]} ∪ perms)) ->
  forall fuel stack perms, I stack perms ->
    (forall e, e ∈ stack -> e.1 ⊆ keys) -> (forall s, s ∈ perms -> s ⊆ keys) ->
    length stack + length viable * (2 ^ size keys - size perms) < fuel ->
    exists p, find_loop fuel viable skip stack perms = Ok p /\ I [] p.
Proof.
  intros Hdrop Hleaf Hexpand. induction fuel as [|fuel IH]; [by intros ? ? _ _ _ ?%Nat.nlt_0_r|].
  intros [|[s r] stack] perms HI Hst Hp Hf; simpl; [by eauto|]. simpl in Hf.
  assert (s ⊆ keys) as Hs by (apply (Hst (s, r)); constructor).
  assert (forall e, e ∈ stack -> e.1 ⊆ keys) as Hst' by (intros; apply Hst; by constructor).
  destruct (skipped skip s) eqn:Hsk; [apply IH; [by eauto|done|done|lia]|].
  case_decide as Hin; [apply IH; [by eauto|done|done|lia]|].
  assert (forall q, q ∈ {[s]} ∪ perms -> q ⊆ keys) as Hp' by set_solver.
  assert (size ({[s]} ∪ perms) = S (size perms)) as Hsz by (rewrite size_union, size_singleton by set_solver; lia).
  pose proof (subsets_size _ _ Hp') as Hb. rewrite Hsz in Hb.
  replace (2 ^ size keys - size perms) with (S (2 ^ size keys - S (size perms))) in Hf by lia.
  rewrite Nat.mul_succ_r in Hf.
  case_decide as Hr; [subst; apply IH; [by eauto|done|done|rewrite Hsz; lia]|].
  destruct (flattened_Some s Hs) as (flat & -> & Hflat). destruct r as [|r]; [done|].
  apply IH; [by eauto| |done|].
  - intros e [?|(f & ds & Hv & _ & _ & _ & ->)]%push_elem; [auto|]. simpl. unfold with_feature.
    assert (f ∈ keys) by (apply elem_of_list_to_set, list_elem_of_fmap; by exists (f, ds)). set_solver.
  - rewrite Hsz. pose proof (push_length s flat (S r) ({[s]} ∪ perms) viable stack). lia.
Qed.

Lemma skipped_mono s t : s ⊆ t -> skipped skip t = false -> skipped skip s = false.
Proof.
  intros Hst Ht. apply not_true_iff_false. apply not_true_iff_false in Ht. contradict Ht.
  apply skipped_spec in Ht as (k & Hk & Hs). apply skipped_spec. exists k. set_solver.
Qed.

Lemma find_fuel_enough initial : initial ⊆ keys ->
  1 + length viable * (2 ^ size keys - size (∅ : gset (gset string))) < find_fuel viable initial.
Proof.
  intros Hi. unfold find_fuel. fold keys. replace (initial ∪ keys) with keys by set_solver.
  rewrite size_empty. lia.
Qed.

(** The search ends, with combinations that no skip set excludes. *)
Lemma find_permutations_sound initial rem : initial ⊆ keys ->
  exists p, find_permutations initial rem viable skip = Ok p
    /\ forall s, s ∈ p -> s ⊆ keys /\ skipped skip s = false.
Proof.
  intros Hi. unfold find_permutations.
  apply (find_loop_inv (fun _ perms => forall s, s ∈ perms -> s ⊆ keys /\ skipped skip s = false));
    [set_solver..|by apply find_fuel_enough].
Qed.

(** With a start that is not viable the search stops at once. *)
Lemma find_permutations_bad initial rem f : f ∈ initial -> f ∉ keys ->
  find_permutations initial rem viable skip = Panic \/ exists p, find_permutations initial rem viable skip = Ok p.
Proof.
  intros Hf Hk. unfold find_permutations, find_fuel. simpl.
  destruct (skipped skip initial); [by eauto|]. rewrite decide_False by set_solver.
  case_decide; [by eauto|]. rewrite (flattened_None initial f) by done. by left.
Qed.

Section coverage.
Hypothesis distinct : forall f ds, (f, ds) ∈ viable -> get f viable = Some ds.
Hypothesis closed : forall f ds d dd, get f viable = Some ds -> d ∈ ds -> get d viable = Some dd -> dd ⊆ ds.
Hypothesis acyclic : forall f ds, get f viable = Some ds -> f ∉ ds.

Lemma covers_dep s f ds g : covers s f -> get f viable = Some ds -> g ∈ ds -> covers s g.
Proof.
  intros [Hf|(h & hs & Hh & Hg & Hf)] Hd Hin; right; [by exists f, ds|].
  exists h, hs. split_and!; [done..|]. by apply (closed h hs f ds).
Qed.

Lemma covers_with_feature s f ds g : get f viable = Some ds ->
  covers (with_feature s f ds) g <-> covers s g \/ g = f \/ g ∈ ds.
Proof.
  intros Hd. assert (f ∈ with_feature s f ds) as Hf by (unfold with_feature; pose proof (acyclic f ds Hd); set_solver).
  assert (forall h, h ∈ ds -> covers (with_feature s f ds) h) as Hds by (intros; right; by exists f, ds).
  split.
  - intros [Hg|(h & hs & Hh & Hget & Hg)].
    + unfold with_feature, covers in *. set_solver.
    + destruct (decide (h = f)) as [-> |]; [simplify_eq; auto|]. left. right. exists h, hs.
      unfold with_feature in Hh. set_solver.
  - intros [Hg|[-> |Hg]]; [|by left|auto].
    assert (forall h, h ∈ s -> covers (with_feature s f ds) h) as Hs.
    { intros h Hh. destruct (decide (h ∈ ds)); [auto|]. left. unfold with_feature. set_solver. }
    destruct Hg as [|(h & hs & Hh & Hget & Hg)]; [auto|]. eauto using covers_dep.
Qed.

Lemma covers_insert s f ds g : get f viable = Some ds ->
  covers (s ∪ {[f]}) g <-> covers s g \/ g = f \/ g ∈ ds.
Proof.
  intros Hd. split.
  - intros [[Hg| ->%elem_of_singleton]%elem_of_union|(h & hs & [Hh| ->%elem_of_singleton]%elem_of_union & Hget & Hg)];
      [by left; left|auto|left; right; eauto|simplify_eq; auto].
  - intros [[Hg|(h & hs & Hh & Hget & Hg)]|[-> |Hg]]; [left; set_solver|right|left; set_solver|right].
    + exists h, hs. set_solver.
    + exists f, ds. set_solver.
Qed.

(** What the loop keeps: what is still to be expanded is on the stack, and
    its budget is larger than the number of features not covered yet. *)
Record search (initial : gset string) (stack : list (gset string * nat)) (perms : gset (gset string)) : Prop := {
  search_initial : skipped skip initial = true \/ initial ∈ perms \/ initial ∈ stack.*1;
  search_next s f ds : s ∈ perms -> get f viable = Some ds -> ~ covers s f ->
    skipped skip (with_feature s f ds) = true \/ with_feature s f ds ∈ perms \/ with_feature s f ds ∈ stack.*1;
  search_budget s r : (s, r) ∈ stack -> exists l, l ⊆ keys /\ (forall f, f ∈ l -> covers s f) /\ size keys < r + size l;
  search_covers s : s ∈ perms \/ s ∈ stack.*1 -> forall f, f ∈ initial -> covers s f
}.

Lemma search_drop initial s r stack perms : search initial ((s, r) :: stack) perms ->
  skipped skip s = true \/ s ∈ perms -> search initial stack perms.
Proof.
  intros [Hi Hn Hb Hc] Hs. split.
  - destruct Hi as [|[|[-> |]%elem_of_cons]]; naive_solver.
  - intros t f ds Ht Hg Hcov. destruct (Hn t f ds Ht Hg Hcov) as [|[|[Heq|]%elem_of_cons]]; naive_solver.
  - intros t q Ht. apply (Hb t q). by constructor.
  - intros t [Ht|Ht]; apply Hc; [by left|right; by constructor].
Qed.

Lemma search_expand initial s r flat stack perms : search initial ((s, S r) :: stack) perms ->
  s ⊆ keys -> (forall f, f ∈ flat <-> covers s f) ->
  search initial (foldl (push_feature s flat (S r) ({[s]} ∪ perms) skip) stack viable) ({[s]} ∪ perms).
Proof.
  intros [Hi Hn Hb Hc] Hs Hflat.
  assert (forall t, t ∈ stack.*1 -> t ∈ (foldl (push_feature s flat (S r) ({[s]} ∪ perms) skip) stack viable).*1) as Hin.
  { intros t (e & -> & He)%list_elem_of_fmap. apply list_elem_of_fmap. exists e. split; [done|]. apply push_elem. by left. }
  split.
  - destruct Hi as [|[|[-> |]%elem_of_cons]]; [by left|right; left; set_solver..|right; right; auto].
  - intros t f ds Ht Hg Hcov. apply elem_of_union in Ht as [->%elem_of_singleton|Ht].
    + destruct (decide (with_feature s f ds ∈ {[s]} ∪ perms)); [auto|].
      destruct (skipped skip (with_feature s f ds)) eqn:Hsk; [auto|]. right. right.
      apply list_elem_of_fmap. exists (with_feature s f ds, r). split; [done|]. apply push_elem. right.
      exists f, ds. split_and!; [by apply get_Some_elem|by rewrite Hflat|done| |done].
      intros Hk. apply not_true_iff_false in Hsk. apply Hsk, skipped_spec. by exists (with_feature s f ds).
    + destruct (Hn t f ds Ht Hg Hcov) as [|[|[Heq|]%elem_of_cons]]; [auto|set_solver| |auto].
      simpl in Heq. rewrite Heq. right. left. set_solver.
  - intros t q [Ht|(f & ds & Hv & Hf & _ & _ & [= -> ->])]%push_elem; [apply (Hb t q); by constructor|].
    destruct (Hb s (S r)) as (l & Hl & Hcl & Hsz); [by constructor|].
    exists ({[f]} ∪ l). rewrite Hflat in Hf. split_and!.
    + assert (f ∈ keys) by (apply keys_spec; rewrite (distinct f ds) by done; eauto). set_solver.
    + intros g Hg. apply covers_with_feature; [auto|].
      apply elem_of_union in Hg as [->%elem_of_singleton|Hg]; auto.
    + rewrite size_union, size_singleton by (intros g; rewrite elem_of_singleton; intros -> ?; auto). simpl. lia.
  - intros t Ht f Hf. assert (covers s f) as Hcs by (apply Hc; [right; by constructor|done]).
    destruct Ht as [[->%elem_of_singleton|Ht]%elem_of_union|Ht]; [done|by apply Hc; [left|]|].
    apply list_elem_of_fmap in Ht as (e & -> & [He|(g & ds & Hv & _ & _ & _ & ->)]%push_elem).
    + apply Hc; [right|done]. constructor. apply list_elem_of_fmap. eauto.
    + simpl. apply covers_with_feature; auto.
Qed.

(** With the default budget the search covers every combination that
    contains the start. *)
Lemma find_permutations_covers initial rem : initial ⊆ keys -> size keys < rem ->
  exists p, find_permutations initial rem viable skip = Ok p
    /\ (forall s f, s ∈ p -> f ∈ initial -> covers s f)
    /\ forall X, initial ⊆ X -> X ⊆ keys -> skipped skip X = false ->
         exists s, s ∈ p /\ s ⊆ X /\ forall f, covers s f <-> covers X f.
Proof.
  intros Hi Hr.
  assert (exists p, find_permutations initial rem viable skip = Ok p /\ search initial [] p) as (p & Hp & [Hsi Hn _ Hc]).
  { unfold find_permutations. apply (find_loop_inv (search initial)); [..|by apply find_fuel_enough].
    - apply search_drop.
    - intros s stack perms HI _ _ Hs. destruct (search_budget _ _ _ HI s 0) as (l & Hl & _ & Hsz); [by constructor|].
      apply subseteq_size in Hl. lia.
    - intros s r flat stack perms HI _ _. by apply search_expand.
    - split; [right; right; set_solver|set_solver| |].
      + intros s r [= -> ->]%list_elem_of_singleton. exists ∅. rewrite size_empty. set_solver by lia.
      + intros s [Hs|Hs]; [set_solver|]. apply list_elem_of_singleton in Hs as ->. intros f Hf. by left.
    - intros e ->%list_elem_of_singleton. done.
    - set_solver. }
  exists p. split_and!; [done|by eauto|]. intros X HiX HX Hsk.
  assert (forall Y, Y ⊆ X -> exists s, s ∈ p /\ s ⊆ X /\ forall f, covers s f <-> covers (initial ∪ Y) f) as Hind.
  { intros Y. induction Y as [|x Y Hx IH] using set_ind_L; intros HY.
    - exists initial. rewrite union_empty_r_L. split_and!; [|done..].
      destruct Hsi as [Hs|[|]]; [|done|set_solver]. rewrite (skipped_mono initial X) in Hs by done. done.
    - destruct IH as (s & Hs & HsX & Hcov); [set_solver|].
      destruct (proj1 (keys_spec x) ltac:(set_solver)) as [ds Hds].
      replace (initial ∪ ({[x]} ∪ Y)) with (initial ∪ Y ∪ {[x]}) by set_solver.
      assert (covers s x \/ ~ covers s x) as [Hx'|Hx'].
      { destruct (flattened_Some s) as (flat & _ & Hflat); [set_solver|].
        destruct (decide (x ∈ flat)); [left|right]; by rewrite <-Hflat. }
      + exists s. split_and!; [done..|]. intros f. rewrite (covers_insert _ x ds) by done. rewrite <-Hcov.
        split; [auto|]. intros [|[-> |]]; eauto using covers_dep.
      + assert (with_feature s x ds ⊆ X) as Hsub by (unfold with_feature; set_solver).
        exists (with_feature s x ds). split_and!; [|done|].
        * destruct (Hn s x ds Hs Hds Hx') as [Hk|[|]]; [|done|set_solver].
          rewrite (skipped_mono _ X) in Hk by done. done.
        * intros f. rewrite covers_with_feature, (covers_insert _ x ds), Hcov by done. done. }
  destruct (Hind X ltac:(done)) as (s & Hs & HsX & Hcov). exists s. split_and!; [done..|].
  intros f. rewrite Hcov. by replace (initial ∪ X) with X by set_solver.
Qed.
End coverage.
End find.
End FeatureLaws.
