(* ===== verification/FeatureSetsTheorems.v ===== *)
(** * Theorems on the feature sets of a package

    [test_package_features]: every combination of the viable features is
    tested up to the features it switches on, and the outcomes of the
    function, the panics included. *)

From Stdlib Require Import Strings.String.
From stdpp Require Import base list numbers gmap strings.
From S2P Require Import Prelude FeatureSets FeatureSetsLaws.

Open Scope nat_scope.

Module FeatureProps.
Import Features FeatureLaws.

(** ** The features that are left *)

Lemma remove_filter {A} k R (m : list (string * A)) :
  remove k (filter (fun e => e.1 ∉ (R : gset string)) m) = filter (fun e => e.1 ∉ {[k]} ∪ R) m.
Proof.
  unfold remove. rewrite list_filter_filter. apply list_filter_iff. set_solver.
Qed.

(** Skipping optional dependencies only removes entries. *)
Lemma package_features_filter package md :
  exists R : gset string, package_features package md = filter (fun e => e.1 ∉ R) (features package).
Proof.
  assert (exists R : gset string, features package = filter (fun e => e.1 ∉ R) (features package)) as Hid.
  { set (R := ∅ : gset string). exists R. induction (features package) as [|e m IH]; [done|].
    rewrite filter_cons, decide_True by set_solver. by f_equal. }
  unfold package_features. destruct (skip_optional_dependencies md); [|done].
  destruct (foldl _ _ _) as [implicit used]. revert Hid. generalize (features package) at 1 3.
  induction (elements implicit) as [|f l IH]; intros m [R ->]; simpl; [by exists R|].
  repeat case_decide; [apply IH; by exists R..|]. apply IH. exists ({[f]} ∪ R). apply remove_filter.
Qed.

Lemma package_features_get package md f ds :
  get f (package_features package md) = Some ds -> get f (features package) = Some ds.
Proof.
  destruct (package_features_filter package md) as [R ->]. rewrite get_filter. by case_decide.
Qed.

Lemma implied_package package md ds f :
  implied (package_features package md) ds f -> implied (features package) ds f.
Proof.
  assert (forall d, is_Some (get d (package_features package md)) -> is_Some (get d (features package))) as Hk.
  { intros d [v Hv%package_features_get]. eauto. }
  induction 1; eauto using implied, package_features_get.
Qed.

(** A feature that is combined with the others. *)
Definition viable_feature (package : Package) (md : XTaskMetadata) (f : string) : Prop :=
  is_Some (get f (package_features package md)) /\ filtered_out md f = false /\ f ∉ additive_features md.

(** A feature that is only added to combinations. *)
Definition additive_feature (package : Package) (md : XTaskMetadata) (f : string) : Prop :=
  is_Some (get f (package_features package md)) /\ filtered_out md f = false /\ f ∈ additive_features md.

(** The features that are on when [s] is requested. *)
Definition enabled (pkg : list (string * list string)) (s : gset string) (f : string) : Prop :=
  f ∈ s \/ exists g ds, g ∈ s /\ get g pkg = Some ds /\ implied pkg ds f.

(** An entry that is not kept: the other keys are looked up as before. *)
Ltac other_entry :=
  case_decide; [subst; split; [intros (? & ? & ?)|intros (? & ? & ?)]; destruct_and?; congruence|done].

Lemma split_features_spec md all todo :
  exists viable additive, split_features md all todo = Ok (viable, additive)
  /\ (forall f flat, get f viable = Some flat <-> exists ds, get f todo = Some ds /\ filtered_out md f = false
        /\ f ∉ additive_features md /\ flatten_features ds all = Ok flat)
  /\ (forall f, f ∈ additive.*1 <-> is_Some (get f todo) /\ filtered_out md f = false /\ f ∈ additive_features md)
  /\ viable.*1 `sublist_of` todo.*1.
Proof.
  induction todo as [|[k ds] todo (v & a & IH & Hv & Ha & Hs)]; simpl.
  { exists [], []. split_and!; [done| | |constructor].
    - intros f flat. simpl. split; [done|by intros (? & ? & _)].
    - intros f. rewrite elem_of_nil. split; [done|]. by intros [[] ?]. }
  destruct (filtered_out md k) eqn:Hk.
  { exists v, a. split_and!; [done| | |by constructor].
    - intros f flat. rewrite Hv. other_entry.
    - intros f. rewrite Ha. other_entry. }
  destruct (flatten_features_spec all ds) as (flat & Hflat & _). rewrite Hflat, IH.
  case_decide as Hadd.
  - exists v, ((k, flat) :: a). split_and!; [done| | |by constructor].
    + intros f fl. rewrite Hv. other_entry.
    + intros f. csimpl. rewrite elem_of_cons, Ha. case_decide as Hf; subst; [|naive_solver].
      split; [intros _; split_and!; by eauto|by left].
  - exists ((k, flat) :: v), a. split_and!; [done| | |by constructor].
    + intros f fl. simpl. case_decide as Hf; [|apply Hv].
      subst. split; [intros [= ->]; by exists ds|intros (? & [= <-] & ? & ? & ?); congruence].
    + intros f. rewrite Ha. other_entry.
Qed.

(** ** The loops after the search *)

Section loops.
Context (viable additive : list (string * gset string)).

(** A set that holds viable and additive features only. *)
Definition allowed (s : gset string) : Prop := forall f, f ∈ s -> f ∈ keys viable \/ f ∈ additive.*1.

Lemma add_additive_spec flat l : (forall e, e ∈ l -> e ∈ additive) -> forall p perms, allowed p ->
  let r := (foldl (add_additive flat) (p, perms) l).2 in
  perms ⊆ r /\ forall s, s ∈ r -> s ∈ perms \/ allowed s.
Proof.
  induction l as [|[f ds] l IH]; intros Hl p perms Hp; simpl; [by auto|].
  case_decide; [apply IH; [set_solver|done]|].
  assert (allowed (with_feature p f ds)) as Hw.
  { intros g. unfold with_feature. intros [[ ->%elem_of_singleton|Hg]%elem_of_union _]%elem_of_difference; [|by apply Hp].
    right. apply list_elem_of_fmap. exists (f, ds). split; [done|]. apply Hl. by constructor. }
  destruct (IH ltac:(set_solver) (with_feature p f ds) ({[with_feature p f ds]} ∪ perms) Hw) as [Hsub Hall].
  split; [etransitivity; [apply union_subseteq_r|exact Hsub]|].
  intros s Hs. destruct (Hall s Hs) as [[ ->%elem_of_singleton|]%elem_of_union|]; auto.
Qed.

Lemma extend_permutations_spec todo : (forall s, s ∈ todo -> s ⊆ keys viable) -> forall perms,
  exists r, extend_permutations viable additive todo perms = Some r /\ perms ⊆ r
    /\ (forall s, s ∈ todo -> s ∈ r) /\ forall s, s ∈ r -> s ∈ perms \/ allowed s.
Proof.
  induction todo as [|s todo IH]; intros Ht perms; simpl; [exists perms; set_solver|].
  destruct (flattened_Some viable s) as (flat & -> & _); [apply Ht; by constructor|]. simpl.
  assert (allowed s) as Hs by (intros f Hf; left; by apply (Ht s); [constructor|]).
  destruct (add_additive_spec flat additive ltac:(done) s ({[s]} ∪ perms) Hs) as [Hsub Hall].
  destruct (IH ltac:(intros; apply Ht; by constructor)
    (foldl (add_additive flat) (s, {[s]} ∪ perms) additive).2) as (r & -> & Hr & Htodo & Hall').
  exists r. split_and!; [done|etransitivity; [apply union_subseteq_r|by etransitivity]|..].
  - intros q [-> |Hq]%elem_of_cons; [|by apply Htodo]. apply Hr, Hsub. set_solver.
  - intros q Hq. destruct (Hall' q Hq) as [Hq'|]; [|by right].
    destruct (Hall q Hq') as [[ ->%elem_of_singleton|]%elem_of_union|]; auto.
Qed.

Lemma add_single_spec always flat l : (forall e, e ∈ l -> e ∈ additive) -> allowed always -> forall perms,
  let r := foldl (add_single always flat) perms l in
  perms ⊆ r /\ (forall f, f ∈ l.*1 -> f ∉ flat -> {[f]} ∪ always ∈ r) /\ forall s, s ∈ r -> s ∈ perms \/ allowed s.
Proof.
  intros Hl Ha. induction l as [|[f ds] l IH]; intros perms; simpl; [set_solver|].
  assert (allowed ({[f]} ∪ always)) as Hw.
  { intros g [ ->%elem_of_singleton|Hg]%elem_of_union; [|by apply Ha].
    right. apply list_elem_of_fmap. exists (f, ds). split; [done|]. apply Hl. by constructor. }
  destruct (IH ltac:(intros; apply Hl; by constructor) (add_single always flat perms (f, ds))) as (Hsub & Hin & Hall).
  revert Hsub Hin Hall. generalize (foldl (add_single always flat) (add_single always flat perms (f, ds)) l).
  unfold add_single. simpl. intros r. case_decide; intros Hsub Hin Hall; (split_and!; [set_solver|..]).
  - intros g [-> |Hg]%elem_of_cons; [done|by apply Hin].
  - done.
  - intros g [-> |Hg]%elem_of_cons Hf; [set_solver|by apply Hin].
  - intros s Hs. destruct (Hall s Hs) as [[ ->%elem_of_singleton|]%elem_of_union|]; auto.
Qed.
End loops.

Lemma keys_size (m : list (string * gset string)) : size (keys m) <= length m.
Proof.
  unfold keys. induction m as [|[k v] m IH]; csimpl; [done|].
  rewrite size_union_alt. rewrite size_singleton.
  assert (size (list_to_set m.*1 ∖ {[k]} : gset string) <= size (list_to_set m.*1 : gset string)); [|lia].
  apply subseteq_size. set_solver.
Qed.

(** ** The package *)

Section package.
Context (package : Package) (added excluded : list string) (md : XTaskMetadata).
Let all := package_features package md.
Let always := always_included package added md.

Lemma split_package :
  exists viable additive, split_features md all all = Ok (viable, additive)
  /\ (forall f, f ∈ keys viable <-> viable_feature package md f)
  /\ (forall f, f ∈ additive.*1 <-> additive_feature package md f)
  /\ (forall f flat, get f viable = Some flat -> exists ds, get f all = Some ds /\ forall g, g ∈ flat <-> implied all ds g)
  /\ viable.*1 `sublist_of` all.*1.
Proof.
  destruct (split_features_spec md all all) as (v & a & Hs & Hv & Ha & Hsub). exists v, a.
  split_and!; [done| |done| |done].
  - intros f. rewrite keys_spec. split.
    + intros [flat (ds & Hg & Hf & Hadd & _)%Hv]. unfold viable_feature. fold all. rewrite Hg. by eauto.
    + intros ([ds Hg] & Hf & Hadd). destruct (flatten_features_spec all ds) as (flat & Hflat & _).
      exists flat. apply Hv. by exists ds.
  - intros f flat (ds & Hg & _ & _ & Hflat)%Hv. exists ds. split; [done|].
    destruct (flatten_features_spec all ds) as (flat' & Hflat' & Hspec).
    rewrite Hflat in Hflat'. by simplify_eq.
Qed.

Lemma covers_enabled viable s f :
  (forall f flat, get f viable = Some flat -> exists ds, get f all = Some ds /\ forall g, g ∈ flat <-> implied all ds g) ->
  s ⊆ keys viable -> covers viable s f <-> enabled all s f.
Proof.
  intros Hv Hs. unfold covers, enabled. f_equiv. split.
  - intros (g & flat & Hg & Hget & Hf). destruct (Hv g flat Hget) as (ds & Hds & Hspec).
    exists g, ds. by rewrite <-Hspec.
  - intros (g & ds & Hg & Hget & Hf). destruct (proj1 (keys_spec viable g) (Hs g Hg)) as [flat Hflat].
    destruct (Hv g flat Hflat) as (ds' & Hds & Hspec). exists g, flat. simplify_eq. by rewrite Hspec.
Qed.

Lemma viable_distinct (viable : list (string * gset string)) : NoDup (features package).*1 -> viable.*1 `sublist_of` all.*1 ->
  forall f ds, (f, ds) ∈ viable -> get f viable = Some ds.
Proof.
  intros Hnd Hsub. assert (NoDup viable.*1) as Hv.
  { eapply sublist_NoDup; [|exact Hsub]. unfold all. destruct (package_features_filter package md) as [R ->].
    eapply sublist_NoDup; [exact Hnd|]. apply fmap_sublist, sublist_filter. }
  clear Hsub. induction viable as [|[k v] viable IH]; intros f ds; simpl; [set_solver|].
  apply NoDup_cons in Hv as [Hk Hv]. rewrite elem_of_cons. intros [[= -> ->]|Hin]; [by rewrite decide_True|].
  rewrite decide_False; [by apply IH|]. intros ->. apply Hk, list_elem_of_fmap. by exists (k, ds).
Qed.

Lemma viable_closed (viable : list (string * gset string)) :
  (forall f flat, get f viable = Some flat -> exists ds, get f all = Some ds /\ forall g, g ∈ flat <-> implied all ds g) ->
  forall f ds d dd, get f viable = Some ds -> d ∈ ds -> get d viable = Some dd -> dd ⊆ ds.
Proof.
  intros Hd f flat d flat' (ds & Hg & Hspec)%Hd Hin (ds' & Hg' & Hspec')%Hd g Hin'.
  apply Hspec. apply Hspec in Hin. apply Hspec' in Hin'. by eapply implied_trans.
Qed.

(** What is computed when the features that are always included are viable. *)
Lemma test_package_ok : features package <> [] -> allow_list md = ∅ \/ deny_list md = ∅ ->
  (forall f, f ∈ always -> viable_feature package md f) ->
  exists viable additive non_additive perms,
    split_features md all all = Ok (viable, additive)
    /\ find_permutations always (default (length viable + 1) (max_combination_size md)) viable
         (skip_sets excluded md) = Ok non_additive
    /\ test_package_features package added excluded md = Ok perms
    /\ non_additive ⊆ perms
    /\ (forall f, additive_feature package md f -> ~ enabled all always f -> {[f]} ∪ always ∈ perms)
    /\ forall p f, p ∈ perms -> f ∈ p -> viable_feature package md f \/ additive_feature package md f.
Proof.
  intros Hne Hl Halw. destruct split_package as (v & a & Hs & Hv & Ha & Hd & Hsub).
  assert (always ⊆ keys v) as Hk by (intros f Hf; by apply Hv, Halw).
  destruct (find_permutations_sound v (skip_sets excluded md) always
    (default (length v + 1) (max_combination_size md)) Hk) as (na & Hna & Hsound).
  destruct (extend_permutations_spec v a (elements na)) with (perms := ∅ : gset (gset string))
    as (r & Hr & _ & Hin & Hall); [intros s Hin%elem_of_elements; by apply Hsound|].
  destruct (flattened_Some v always Hk) as (flat & Hflat & Hcov).
  destruct (add_single_spec v a always flat a ltac:(done) ltac:(intros f Hf; left; by apply Hk) r) as (Hr' & Hadd & Hall').
  exists v, a, na, (foldl (add_single always flat) r a). split_and!; [done..| | | |].
  - unfold test_package_features. rewrite decide_False by done.
    rewrite (proj2 (andb_false_iff _ _)) by (rewrite !negb_false_iff, !bool_decide_eq_true; done).
    fold all. rewrite Hs. fold always. by rewrite Hna, Hr, Hflat.
  - intros s Hs'. apply Hr', Hin. by apply elem_of_elements.
  - intros f Hf Hen. apply Hadd; [by apply Ha|]. by rewrite Hcov, covers_enabled.
  - intros p f Hp Hf. rewrite <-Hv, <-Ha. destruct (Hall' p Hp) as [Hp'|Hp']; [|by apply Hp'].
    destruct (Hall p Hp') as [|Hp'']; [set_solver|by apply Hp''].
Qed.
(** The keys of the map of viable features. *)
Definition keys_of : gset string :=
  match split_features md all all with Ok (viable, _) => keys viable | _ => ∅ end.

Lemma keys_of_spec f : f ∈ keys_of <-> viable_feature package md f.
Proof. unfold keys_of. destruct split_package as (v & a & -> & Hv & _). apply Hv. Qed.

Lemma always_viable : Forall (fun f => f ∈ keys_of) (elements always) -> forall f, f ∈ always -> viable_feature package md f.
Proof. rewrite Forall_forall. intros H f Hf. apply keys_of_spec, H. by apply elem_of_elements. Qed.

Lemma always_not_viable : ~ Forall (fun f => f ∈ keys_of) (elements always) ->
  exists f, f ∈ always /\ ~ viable_feature package md f.
Proof.
  intros H%not_Forall_Exists; [|apply _]. apply Exists_exists in H as (f & Hf & Hn). exists f.
  split; [by apply elem_of_elements|]. by rewrite <-keys_of_spec.
Qed.

(** The map of viable features is indexed with every feature that is always
    included. *)
Lemma test_package_panic : features package <> [] -> allow_list md = ∅ \/ deny_list md = ∅ ->
  (exists f, f ∈ always /\ ~ viable_feature package md f) ->
  test_package_features package added excluded md = Panic.
Proof.
  intros Hne Hl (f & Hf & Hnv). destruct split_package as (v & a & Hs & Hv & _).
  assert (f ∉ keys v) as Hk by (by rewrite Hv).
  unfold test_package_features. rewrite decide_False by done.
  rewrite (proj2 (andb_false_iff _ _)) by (rewrite !negb_false_iff, !bool_decide_eq_true; done).
  fold all. rewrite Hs. fold always. rewrite (flattened_None v always f Hf Hk).
  destruct (find_permutations_bad v (skip_sets excluded md) always
    (default (length v + 1) (max_combination_size md)) f Hf Hk) as [-> |[p ->]]; [done|].
  by destruct (extend_permutations _ _ _ _).
Qed.
End package.


(** A package whose feature [b] switches [a] on, and whose [c] is additive. *)
Definition sample_package : Package := mkPackage [("a", []); ("b", ["a"]); ("c", ["dep:x"])]%string.
Definition sample_metadata : XTaskMetadata := mkMetadata ∅ true ∅ ∅ ∅ None ∅ {["c"%string]} false.

Lemma sample_acyclic f ds : get f (features sample_package) = Some ds -> ~ implied (features sample_package) ds f.
Proof.
  intros Hg. destruct (flatten_features_spec (features sample_package) ds) as (r & Hr & Hspec).
  rewrite <-Hspec. revert Hg Hr. simpl. repeat case_decide; intros; simplify_eq;
    vm_compute in Hr; injection Hr as <-; by apply (bool_decide_unpack _).
Qed.


(** C27. The outcomes of [test_package_features]. It panics exactly when some
    feature that is always included (by the metadata or by [--features]) is a
    feature of the package that is not combined with the others, because it
    is additive or filtered out by the allow or the deny list; the only error
    is that both lists are given; and the search always ends. *)
Theorem feature_sets_outcome package added excluded md :
  (test_package_features package added excluded md = Panic <->
     features package <> [] /\ (allow_list md = ∅ \/ deny_list md = ∅)
     /\ exists f, f ∈ always_included package added md /\ ~ viable_feature package md f)
  /\ (test_package_features package added excluded md = Err BothLists <->
        features package <> [] /\ allow_list md <> ∅ /\ deny_list md <> ∅)
  /\ test_package_features package added excluded md <> Fuel.
Proof.
  destruct (decide (features package = [])) as [He|He].
  { unfold test_package_features. rewrite decide_True by done. naive_solver. }
  destruct (decide (allow_list md = ∅ \/ deny_list md = ∅)) as [Hl|Hl].
  2: { unfold test_package_features. rewrite decide_False by done.
       rewrite (proj2 (andb_true_iff _ _)) by (rewrite !negb_true_iff, !bool_decide_eq_false; naive_solver).
       naive_solver. }
  destruct (decide (Forall (fun f => f ∈ keys_of package md) (elements (always_included package added md)))) as [Hf|Hf];
    [pose proof (always_viable package added md Hf) as Hv|apply always_not_viable in Hf].
  - destruct (test_package_ok package added excluded md He Hl Hv) as (_ & _ & _ & perms & _ & _ & -> & _). naive_solver.
  - rewrite (test_package_panic package added excluded md He Hl Hf). naive_solver.
Qed.

End FeatureProps.
