(* ===== verification/FfmpegIo.v ===== *)
(** * I/O of the ffmpeg bindings (crates/ffmpeg/src/io)

    The parts of the bindings that are not calls into the C library:
    [ChannelCompat], a channel of byte buffers used as a reader or a writer
    (channel.rs); the callbacks through which the library reads, writes and
    seeks in a Rust value (internal.rs); and the state of an [Output] that
    orders the calls into the muxer (output.rs). *)

From Stdlib Require Import Strings.Byte.
From stdpp Require Import base list numbers relations.
From S2P Require Import Prelude Io.

Module FfmpegIo.

(** ** [ChannelCompat] *)

(** The two traits; a receiver that blocks for ever gives no outcome. *)
Class ChannelCompatRecv (T : Type) := {
  channel_recv : T -> option (list byte) * T;
  try_channel_recv : T -> option (list byte) * T;
}.

Class ChannelCompatSend (T : Type) := { channel_send : list byte -> T -> bool * T }.

(** What a lossless channel promises: the messages that are still to be
    received, in order; receiving fails only when there is none left and all
    senders are gone, and trying to receive may fail at any time. *)
Class ChannelLaws (T : Type) `{ChannelCompatRecv T} := {
  queued : T -> list (list byte);
  recv_some : forall c d c', channel_recv c = (Some d, c') -> queued c = d :: queued c';
  recv_none : forall c c', channel_recv c = (None, c') -> queued c = [] /\ queued c' = [];
  try_recv_some : forall c d c', try_channel_recv c = (Some d, c') -> queued c = d :: queued c';
  try_recv_none : forall c c', try_channel_recv c = (None, c') -> queued c' = queued c;
}.

(** [inner] is behind a mutex, which a panic poisons. *)
Record ChannelCompat (T : Type) := mkCompat { inner : T; poisoned : bool; buffer : list byte }.
Arguments mkCompat {T} _ _ _.
Arguments inner {T} _.
Arguments poisoned {T} _.
Arguments buffer {T} _.

(** [ChannelCompat::new] *)
Definition channel_new {T} (c : T) : ChannelCompat T := mkCompat c false [].

Section channel.
Context {T : Type} `{ChannelCompatRecv T}.

(** [while let Some(Some(data)) = (total_read < buf.len()).then(|| inner.try_channel_recv())];
    [got] is what [buf] holds so far. *)
Fixpoint read_more (fuel n : nat) (got : list byte) (s : ChannelCompat T) : res ErrorKind (list byte) * ChannelCompat T :=
  match fuel with
  | O => (Fuel, s)
  | S fuel =>
      if decide (length got < n)%nat then
        match try_channel_recv (inner s) with
        | (Some data, c) =>
            let min := Nat.min (length data) (n - length got) in
            read_more fuel n (got ++ take min data) (mkCompat c (poisoned s) (buffer s ++ drop min data))
        | (None, c) => (Ok got, mkCompat c (poisoned s) (buffer s))
        end
      else (Ok got, s)
  end.

(** [Read::read] with a buffer of [n] bytes: what is put into it. The panics
    are the [unwrap] of a poisoned lock and the [copy_from_slice] of a
    message whose length is not that of the buffer. *)
Definition channel_read (fuel n : nat) : M (ChannelCompat T) ErrorKind (list byte) := fun s =>
  if decide (n <= length (buffer s))%nat then
    (Ok (take n (buffer s)), mkCompat (inner s) (poisoned s) (drop n (buffer s)))
  else if poisoned s then (Panic, s)
  else
    match buffer s with
    | [] =>
        match channel_recv (inner s) with
        | (None, c) => (Ok [], mkCompat c false [])
        | (Some data, c) =>
            let min := Nat.min (length data) n in
            if decide (min = n)
            then read_more fuel n (take min data) (mkCompat c false (drop min data))
            else (Panic, mkCompat c true [])
        end
    | _ => read_more fuel n (buffer s) (mkCompat (inner s) false [])
    end.

(** Reads with buffers of the given sizes, one after the other. *)
Fixpoint channel_reads (fuel : nat) (ns : list nat) : M (ChannelCompat T) ErrorKind (list (list byte)) :=
  match ns with
  | [] => ret []
  | n :: ns => let* got := channel_read fuel n in let* gots := channel_reads fuel ns in ret (got :: gots)
  end.
End channel.

Section send.
Context {T : Type} `{ChannelCompatSend T}.

(** [Write::write]; the message is a copy of the buffer. *)
Definition channel_write (buf : list byte) : M (ChannelCompat T) ErrorKind Z := fun s =>
  if poisoned s then (Panic, s)
  else
    match channel_send buf (inner s) with
    | (true, c) => (Ok (blen buf), mkCompat c false (buffer s))
    | (false, c) => (Err UnexpectedEof, mkCompat c false (buffer s))
    end.

Definition channel_flush : M (ChannelCompat T) ErrorKind unit := ret tt.
End send.

(** [std::sync::mpsc]: what the receiver will see. [Later] is a point at which
    nothing has arrived yet; at the end of the list the senders are gone. *)
Inductive Arrival := Arrived (data : list byte) | Later.

Fixpoint mpsc_recv (c : list Arrival) : option (list byte) * list Arrival :=
  match c with
  | [] => (None, [])
  | Arrived data :: c => (Some data, c)
  | Later :: c => mpsc_recv c
  end.

Definition mpsc_try_recv (c : list Arrival) : option (list byte) * list Arrival :=
  match c with
  | [] => (None, [])
  | Arrived data :: c => (Some data, c)
  | Later :: c => (None, c)
  end.

#[export] Instance mpsc_ChannelCompatRecv : ChannelCompatRecv (list Arrival) :=
  {| channel_recv := mpsc_recv; try_channel_recv := mpsc_try_recv |}.

Fixpoint mpsc_queued (c : list Arrival) : list (list byte) :=
  match c with
  | [] => []
  | Arrived data :: c => data :: mpsc_queued c
  | Later :: c => mpsc_queued c
  end.

#[export] Instance mpsc_ChannelLaws : ChannelLaws (list Arrival).
Proof.
  refine {| queued := mpsc_queued |}; simpl.
  - induction c as [|[] c IH]; intros; simplify_eq/=; eauto.
  - induction c as [|[] c IH]; intros; simplify_eq/=; eauto.
  - by intros [|[]] ? ? ?; simplify_eq/=.
  - by intros [|[]] ? ?; simplify_eq/=.
Defined.

(** ** The callbacks of the C library *)

(** Constants of libc and of the ffmpeg headers. *)
Class AvConsts := {
  AVERROR_IO : Z;
  AVERROR_EOF : Z;
  SEEK_SET : Z;
  SEEK_CUR : Z;
  SEEK_END : Z;
  AVSEEK_SIZE : Z;
  AVSEEK_FORCE : Z;
  averror_negative : AVERROR_IO < 0 /\ AVERROR_EOF < 0;
  seek_values : SEEK_SET = 0 /\ SEEK_CUR = 1 /\ SEEK_END = 2 /\ AVSEEK_SIZE = 2 ^ 16 /\ AVSEEK_FORCE = 2 ^ 17;
}.

Section callbacks.
Context `{AvConsts}.

(** What the C library sees of a call: its code, or a panic, which must not
    cross the boundary. *)
Definition code {T A} (r : res ErrorKind A * T) (ok : A -> Z) : res ErrorKind Z * T :=
  match r with
  | (Ok a, t) => (Ok (ok a), t)
  | (Err _, t) => (Ok AVERROR_IO, t)
  | (Panic, t) => (Panic, t)
  | (Fuel, t) => (Fuel, t)
  end.

(** [read_packet]: also the bytes that were put into [buf]. *)
Definition read_packet {T} `{IoRead T} (buf_size : nat) (t : T) : res ErrorKind (Z * list byte) * T :=
  match read buf_size t with
  | (Ok got, t) =>
      let ret := swrap 32 (blen got) in
      (Ok (if ret =? 0 then AVERROR_EOF else ret, got), t)
  | (Err _, t) => (Ok (if AVERROR_IO =? 0 then AVERROR_EOF else AVERROR_IO, []), t)
  | (Panic, t) => (Panic, t)
  | (Fuel, t) => (Fuel, t)
  end.

Definition write_packet {T} `{IoWrite T} (buf : list byte) (t : T) : res ErrorKind Z * T :=
  code (write buf t) (swrap 32).

(** [seek] with [AVSEEK_SIZE]: the size, and the position as it was. *)
Definition seek_size {T} `{IoSeek T} (t : T) : res ErrorKind Z * T :=
  match stream_position t with
  | (Ok pos, t) =>
      match seek (End_ 0) t with
      | (Ok end_, t) =>
          if end_ =? pos then (Ok (swrap 64 end_), t)
          else code (seek (Start pos) t) (fun _ => swrap 64 end_)
      | r => code r (fun z => z)
      end
  | r => code r (fun z => z)
  end.

(** [seek]; the flags are cleared before the direction is looked at. *)
Definition seek_callback {T} `{IoSeek T} (offset whence : Z) (t : T) : res ErrorKind Z * T :=
  let size := negb (Z.land whence AVSEEK_SIZE =? 0) in
  let whence := if size then Z.land whence (Z.lnot AVSEEK_SIZE) else whence in
  let force := negb (Z.land whence AVSEEK_FORCE =? 0) in
  let whence := if force then Z.land whence (Z.lnot AVSEEK_FORCE) else whence in
  if size then seek_size t
  else if whence =? SEEK_SET then code (seek (Start (wrap 64 offset)) t) (swrap 64)
  else if whence =? SEEK_CUR then code (seek (Current offset) t) (swrap 64)
  else if whence =? SEEK_END then code (seek (End_ offset) t) (swrap 64)
  else (Ok (-1), t).

End callbacks.

#[export] Instance linux_consts : AvConsts.
Proof.
  refine {| AVERROR_IO := -5; AVERROR_EOF := -541478725; SEEK_SET := 0; SEEK_CUR := 1; SEEK_END := 2;
            AVSEEK_SIZE := 65536; AVSEEK_FORCE := 131072 |}; lia.
Defined.

(** ** [Output] *)

Inductive OutputState := Uninitialized | HeaderWritten | TrailerWritten.

#[global] Instance OutputState_eq_dec : EqDecision OutputState.
Proof. solve_decision. Defined.

(** [FfmpegError], the cases of these calls. *)
Inductive FfmpegError := Code (code : Z) | Arguments.

(** [FfmpegErrorCode::result] *)
Definition ffmpeg_result (code : Z) : res FfmpegError Z :=
  if 0 <=? code then Ok code else Err (Code code).

(** The calls into the muxer, as the library sees them. *)
Inductive MuxCall := avformat_write_header | av_write_trailer | av_interleaved_write_frame | av_write_frame.

(** An [Output]: its state and the calls made on its context so far, with
    what they returned. *)
Record Output := mkOutput { state : OutputState; made : list (MuxCall * Z) }.

Definition output_new : Output := mkOutput Uninitialized [].

(** One method: its guard, the call, whose code is [ret], and the state after
    a successful call. *)
Definition guarded (expected : OutputState) (call : MuxCall) (next : OutputState) (ret : Z) (o : Output) :
    res FfmpegError unit * Output :=
  if decide (state o = expected) then
    let o := mkOutput (state o) (made o ++ [(call, ret)]) in
    match ffmpeg_result ret with
    | Ok _ => (Ok tt, mkOutput next (made o))
    | Err e => (Err e, o)
    | Panic => (Panic, o)
    | Fuel => (Fuel, o)
    end
  else (Err Arguments, o).

Definition write_header : Z -> Output -> res FfmpegError unit * Output :=
  guarded Uninitialized avformat_write_header HeaderWritten.
(** The options only reach the C library. *)
Definition write_header_with_options : Z -> Output -> res FfmpegError unit * Output :=
  guarded Uninitialized avformat_write_header HeaderWritten.
Definition write_trailer : Z -> Output -> res FfmpegError unit * Output :=
  guarded HeaderWritten av_write_trailer TrailerWritten.
Definition write_interleaved_packet : Z -> Output -> res FfmpegError unit * Output :=
  guarded HeaderWritten av_interleaved_write_frame HeaderWritten.
Definition output_write_packet : Z -> Output -> res FfmpegError unit * Output :=
  guarded HeaderWritten av_write_frame HeaderWritten.

(** ** Laws *)

(** *** The channel *)

Section channel_laws.
Context {T : Type} `{ChannelLaws T}.

(** What is still to be read. *)
Definition content (s : ChannelCompat T) : list byte := buffer s ++ concat (queued (inner s)).

Lemma read_more_spec fuel n : forall got s, (length (queued (inner s)) < fuel)%nat ->
  (length got <= n)%nat -> (length got < n -> buffer s = [])%nat ->
  exists got' s', read_more fuel n got s = (Ok (got ++ got'), s') /\ content s = got' ++ content s'
    /\ (length (got ++ got') <= n)%nat /\ poisoned s' = poisoned s
    /\ (length (queued (inner s')) <= length (queued (inner s)))%nat.
Proof.
  induction fuel as [|fuel IH]; intros got s Hf Hn Hb; [lia|]. simpl. case_decide as Hlt.
  2: { exists [], s. rewrite app_nil_r. split_and!; done. }
  destruct (try_channel_recv (inner s)) as [[data|] c] eqn:Ht.
  - pose proof (try_recv_some _ _ _ Ht) as Hq. set (min := Nat.min (length data) (n - length got)).
    destruct (IH (got ++ take min data) (mkCompat c (poisoned s) (buffer s ++ drop min data)))
      as (got' & s' & -> & Hc & Hl & Hp & Hq').
    + simpl. rewrite Hq in Hf. simpl in Hf. lia.
    + rewrite length_app, length_take. lia.
    + rewrite length_app, length_take. simpl. intros. rewrite Hb by done. apply drop_ge. lia.
    + exists (take min data ++ got'), s'. rewrite <-app_assoc. split_and!; [done| | |done|].
      * unfold content in *. rewrite Hq. simpl in Hc |- *. rewrite Hb in * by done.
        rewrite <-app_assoc, <-Hc. simpl. by rewrite app_assoc, take_drop.
      * by rewrite app_assoc.
      * rewrite Hq. simpl in *. lia.
  - apply try_recv_none in Ht. eexists [], _. rewrite app_nil_r. split_and!; [done| |lia|done|simpl; by rewrite Ht].
    unfold content. simpl. by rewrite Ht.
Qed.

(** The next message is shorter than the buffer that is to be filled. *)
Definition short_message (n : nat) (s : ChannelCompat T) : Prop :=
  buffer s = [] /\ exists d ds, queued (inner s) = d :: ds /\ (length d < n)%nat.

Lemma channel_read_spec fuel n s : (length (queued (inner s)) < fuel)%nat -> poisoned s = false ->
  (short_message n s /\ exists c, channel_read fuel n s = (Panic, mkCompat c true [])) \/
  (~ short_message n s /\ exists got s', channel_read fuel n s = (Ok got, s') /\ content s = got ++ content s'
    /\ (length got <= n)%nat /\ (got = [] -> n = 0%nat \/ content s = []) /\ poisoned s' = false
    /\ (length (queued (inner s')) <= length (queued (inner s)))%nat).
Proof.
  intros Hf Hp. unfold channel_read, short_message. rewrite Hp. case_decide as Hn.
  { right. split; [intros (He & d & ds & _ & ?); rewrite He in Hn; simpl in Hn; lia|].
    eexists _, _. split_and!; [done| |rewrite length_take; lia| |done|done].
    - unfold content. simpl. by rewrite app_assoc, take_drop.
    - intros Ht%(f_equal length). rewrite length_take in Ht. simpl in Ht. lia. }
  destruct (buffer s) as [|b bs] eqn:Hb.
  - destruct (channel_recv (inner s)) as [[data|] c] eqn:Hr.
    + pose proof (recv_some _ _ _ Hr) as Hq. case_decide as Hm.
      * right. split; [rewrite Hq; intros (_ & d & ds & [= <- <-] & ?); lia|].
        destruct (read_more_spec fuel n (take (Nat.min (length data) n) data)
          (mkCompat c false (drop (Nat.min (length data) n) data))) as (got & s' & -> & Hc & Hl & Hp' & Hq').
        { simpl. rewrite Hq in Hf. simpl in Hf. lia. }
        { rewrite length_take. lia. }
        { rewrite length_take. intros. lia. }
        eexists _, _. split_and!; [done| |done| |done|rewrite Hq; simpl in *; lia].
        -- unfold content in *. rewrite Hb, Hq. simpl in Hc |- *. rewrite <-app_assoc, <-Hc.
           by rewrite app_assoc, take_drop.
        -- intros [Ht _]%app_eq_nil. apply (f_equal length) in Ht. rewrite length_take in Ht. simpl in Ht. lia.
      * left. split; [|by eexists]. split; [done|]. exists data, (queued c). split; [done|lia].
    + right. apply recv_none in Hr as [Hq Hq']. rewrite Hq. split; [naive_solver|].
      eexists _, _. split_and!; [done|..]; simpl; try done; unfold content; simpl; rewrite ?Hb, ?Hq, ?Hq'; simpl; auto; lia.
  - right. split; [naive_solver|].
    destruct (read_more_spec fuel n (b :: bs) (mkCompat (inner s) false [])) as (got & s' & -> & Hc & Hl & Hp' & Hq');
      [done|lia|done|].
    eexists _, _. split_and!; [done| |done|done|done|done].
    unfold content in *. rewrite Hb. simpl in Hc |- *. by rewrite Hc, app_assoc.
Qed.

Lemma read_more_suffix fuel n : forall got s got' s', read_more fuel n got s = (Ok got', s') ->
  forall d, d ∈ queued (inner s') -> d ∈ queued (inner s).
Proof.
  induction fuel as [|fuel IH]; intros got s got' s'; simpl; [done|].
  case_decide; [|by intros [= <- <-]]. destruct (try_channel_recv (inner s)) as [[data|] c] eqn:E.
  - intros Hr d Hd. rewrite (try_recv_some _ _ _ E). constructor. by eapply (IH _ _ _ _ Hr).
  - intros [= <- <-]. simpl. by rewrite (try_recv_none _ _ E).
Qed.

Lemma channel_read_suffix fuel n s got s' : channel_read fuel n s = (Ok got, s') ->
  forall d, d ∈ queued (inner s') -> d ∈ queued (inner s).
Proof.
  unfold channel_read. case_decide; [by intros [= <- <-]|]. destruct (poisoned s); [done|].
  destruct (buffer s); [|apply read_more_suffix].
  destruct (channel_recv (inner s)) as [[data|] c] eqn:E.
  - case_decide; [|done]. intros Hr d Hd. rewrite (recv_some _ _ _ E). constructor.
    by apply (read_more_suffix _ _ _ _ _ _ Hr).
  - intros [= <- <-]. simpl. by rewrite (proj2 (recv_none _ _ E)), (proj1 (recv_none _ _ E)).
Qed.

(** A run of reads: as long as none of them panics, what was returned, in
    order, followed by what is left is what was to be read. *)
Lemma channel_reads_spec fuel ns : forall s, (length (queued (inner s)) < fuel)%nat -> poisoned s = false ->
  forall gots s', channel_reads fuel ns s = (Ok gots, s') ->
    content s = concat gots ++ content s' /\ Forall2 (fun got n => length got <= n)%nat gots ns.
Proof.
  induction ns as [|n ns IH]; intros s Hf Hp gots s'; simpl.
  { intros [= <- <-]. by split. }
  unfold bind. destruct (channel_read_spec fuel n s Hf Hp) as [(_ & c & ->)|(_ & got & t & -> & Hc & Hl & _ & Hp' & Hq)];
    [done|].
  destruct (channel_reads fuel ns t) as [[gots'| | |] t'] eqn:E; try done. intros [= <- <-].
  destruct (IH t ltac:(lia) Hp' gots' t' E) as [Hc' Hl']. split; [|by constructor].
  simpl. by rewrite <-app_assoc, <-Hc'.
Qed.

(** Messages that fill the largest buffer are read without a panic. *)
Lemma channel_reads_ok fuel ns : forall s, (length (queued (inner s)) < fuel)%nat -> poisoned s = false ->
  (forall n d, n ∈ ns -> d ∈ queued (inner s) -> (n <= length d)%nat) ->
  exists gots s', channel_reads fuel ns s = (Ok gots, s').
Proof.
  induction ns as [|n ns IH]; intros s Hf Hp Hlong; simpl; [by eexists _, _|].
  destruct (channel_read_spec fuel n s Hf Hp) as [((_ & d & ds & Hq & Hd) & _)|(_ & got & t & E & _ & _ & _ & Hp' & Hq)].
  - specialize (Hlong n d ltac:(constructor)). rewrite Hq in Hlong. specialize (Hlong ltac:(constructor)). lia.
  - unfold bind. rewrite E. destruct (IH t) as (gots & s' & ->); [lia|done| |by eexists _, _].
    intros m d Hm Hd. apply Hlong; [by constructor|].
    apply (channel_read_suffix fuel n s got t); done.
Qed.

End channel_laws.

(** *** The callbacks *)

Section callback_laws.
Context `{AvConsts}.

(** The size query of a cursor returns the length and does not move it. *)
Lemma seek_size_cursor c offset : fits 63 (blen (Io.inner c)) -> fits 63 (Z.of_N (pos c)) ->
  seek_callback offset AVSEEK_SIZE c = (Ok (blen (Io.inner c)), c).
Proof.
  intros Hl Hp. destruct seek_values as (_ & _ & _ & Hsize & _). unfold seek_callback. rewrite Hsize. simpl.
  assert (forall z, fits 63 z -> fits 64 z /\ swrap 64 z = z) as Hw.
  { unfold fits, swrap. intros z Hz. rewrite Z.mod_small by lia. rewrite (proj2 (Z.ltb_lt _ _)) by lia. lia. }
  unfold seek_size, stream_position. simpl. unfold cursor_seek. simpl.
  rewrite decide_True by (rewrite Z.add_0_r; by apply Hw). simpl.
  rewrite decide_True by (rewrite Z.add_0_r; by apply Hw). rewrite !Z.add_0_r.
  destruct (_ =? _) eqn:E; simpl; rewrite (proj2 (Hw _ Hl)); destruct c as [bs q]; simpl in *.
  - apply Z.eqb_eq in E. do 2 f_equal. rewrite E. by rewrite N2Z.id.
  - do 2 f_equal. by rewrite N2Z.id.
Qed.

(** A cursor is read packet by packet; the end of file is reported as such,
    never as an empty packet. *)
Lemma read_packet_cursor n c : (0 < n)%nat -> Z.of_nat n < 2 ^ 31 ->
  exists ret got c', read_packet n c = (Ok (ret, got), c') /\ got = take n (cursor_rest c)
    /\ (cursor_rest c = [] -> ret = AVERROR_EOF) /\ (cursor_rest c <> [] -> ret = blen got /\ 0 < ret).
Proof.
  intros Hn Hb. unfold read_packet. simpl. eexists _, _, _. split_and!; [done|done|..].
  - intros ->. by rewrite take_nil.
  - intros Hne. assert (0 < blen (take n (cursor_rest c)) < 2 ^ 31) as Hr.
    { unfold blen. rewrite length_take. destruct (cursor_rest c); [done|]. simpl. lia. }
    assert (swrap 32 (blen (take n (cursor_rest c))) = blen (take n (cursor_rest c))) as ->.
    { unfold swrap. rewrite Z.mod_small by lia. by rewrite (proj2 (Z.ltb_lt _ _)) by lia. }
    rewrite (proj2 (Z.eqb_neq _ _)) by lia. lia.
Qed.
End callback_laws.

(** *** The output *)

(** What the muxer requires of the calls: frames and the trailer only between
    a successful header and a successful trailer. *)
Fixpoint protocol (st : OutputState) (calls : list (MuxCall * Z)) : option OutputState :=
  match calls with
  | [] => Some st
  | (call, ret) :: calls =>
      match st, call with
      | Uninitialized, avformat_write_header => protocol (if 0 <=? ret then HeaderWritten else Uninitialized) calls
      | HeaderWritten, av_write_trailer => protocol (if 0 <=? ret then TrailerWritten else HeaderWritten) calls
      | HeaderWritten, (av_interleaved_write_frame | av_write_frame) => protocol HeaderWritten calls
      | _, _ => None
      end
  end.

Lemma protocol_app l1 : forall st l2,
  protocol st (l1 ++ l2) = match protocol st l1 with Some st => protocol st l2 | None => None end.
Proof. induction l1 as [|[[] ret] l1 IH]; intros [] l2; simpl; done || apply IH. Qed.

(** The methods of an output. *)
Inductive output_step : Output -> Output -> Prop :=
| step_header ret o : output_step o (write_header ret o).2
| step_trailer ret o : output_step o (write_trailer ret o).2
| step_interleaved ret o : output_step o (write_interleaved_packet ret o).2
| step_packet ret o : output_step o (output_write_packet ret o).2.

(** Whatever the application calls, the muxer is used as it must be. *)
Lemma output_protocol o : rtc output_step output_new o -> protocol Uninitialized (made o) = Some (state o).
Proof.
  intros Hr. remember output_new as o0 eqn:E. assert (protocol Uninitialized (made o0) = Some (state o0)) as H0 by by subst.
  clear E. induction Hr as [|o1 o2 o3 Hs _ IH]; [done|]. apply IH. clear IH.
  destruct Hs as [ret [st l]|ret [st l]|ret [st l]|ret [st l]];
    unfold write_header, write_trailer, write_interleaved_packet, output_write_packet, guarded, ffmpeg_result;
    simpl in *; case_decide; subst; try done;
    destruct (0 <=? ret) eqn:Er; simpl; rewrite ?protocol_app, ?H0; simpl; rewrite ?Er; done.
Qed.

End FfmpegIo.

Module FfmpegProps.
Import FfmpegIo.

(** C24. A channel used as a reader, for every channel that keeps its messages
    in order: whatever the sizes of the buffers, the bytes returned by the
    reads are the bytes sent, in order, none lost and none twice, and no read
    returns more than its buffer holds; a read of a non-empty buffer returns
    nothing only at the end; and a read panics, and poisons the channel,
    exactly when nothing is buffered and the next message is shorter than the
    buffer. *)
Theorem channel_reads_in_order {T} `{ChannelLaws T} fuel (s : ChannelCompat T) :
  (length (queued (inner s)) < fuel)%nat -> poisoned s = false ->
  (forall ns gots s', channel_reads fuel ns s = (Ok gots, s') ->
     content s = concat gots ++ content s' /\ Forall2 (fun got n => length got <= n)%nat gots ns)
  /\ (forall n s', channel_read fuel n s = (Ok [], s') -> n = 0%nat \/ content s = [])
  /\ (forall n, (exists s', channel_read fuel n s = (Panic, s') /\ poisoned s' = true) <-> short_message n s)
  /\ (forall ns, (forall n d, n ∈ ns -> d ∈ queued (inner s) -> (n <= length d)%nat) ->
       exists gots s', channel_reads fuel ns s = (Ok gots, s')).
Proof.
  intros Hf Hp. split_and!.
  - intros ns. by apply channel_reads_spec.
  - intros n s' Hr. destruct (channel_read_spec fuel n s Hf Hp) as [(_ & c & E)|(_ & got & t & E & _ & _ & He & _)];
      rewrite Hr in E; [done|]. simplify_eq. auto.
  - intros n. destruct (channel_read_spec fuel n s Hf Hp) as [(Hs & c & E)|(Hs & got & t & E & _)]; split; try done.
    + intros _. by exists (mkCompat c true []).
    + intros (s' & E' & _). by rewrite E in E'.
  - intros ns. by apply channel_reads_ok.
Qed.

(** Witness of C0: two messages, of which the second is late. *)
Lemma channel_reads_in_order_witness :
  let s := channel_new [Arrived [x01; x02; x03]; Later; Arrived [x04; x05; x06]] in
  channel_reads 3 [2; 2; 3]%nat s = (Ok [[x01; x02]; [x03]; [x04; x05; x06]], channel_new [])
  /\ content s = concat [[x01; x02]; [x03]; [x04; x05; x06]] ++ content (channel_new ([] : list Arrival))
  /\ exists s', channel_read 3 4 s = (Panic, s') /\ poisoned s' = true.
Proof.
  split; [reflexivity|].
  destruct (channel_reads_in_order 3 (channel_new [Arrived [x01; x02; x03]; Later; Arrived [x04; x05; x06]]))
    as (Hall & _ & Hpanic & _); [simpl; lia|reflexivity|].
  split; [by apply (Hall [2; 2; 3]%nat)|]. apply Hpanic. split; [reflexivity|].
  exists [x01; x02; x03], [[x04; x05; x06]]. split; [reflexivity|simpl; lia].
Defined.

End FfmpegProps.
