(* ===== verification/HttpBody.v ===== *)
(** * Request and response bodies of the HTTP server (crates/http/src)

    [http_body::Body] as a class; the body of a QUIC request as the state
    machine of backend/quic/body.rs, the body a handler receives and the one
    that tracks a response (body.rs), and the copy of a response body into an
    HTTP/3 stream. The streams of the h3 crate are parameters: what a poll of
    them returns. *)

From Stdlib Require Import Strings.Byte.
From stdpp Require Import base list numbers option.
From S2P Require Import Prelude.

(** [Poll] and [Result] *)
Inductive Poll (A : Type) := Ready (a : A) | Pending.
Arguments Ready {A} _.
Arguments Pending {A}.

Inductive result (E A : Type) := ok (a : A) | err (e : E).
Arguments ok {E A} _.
Arguments err {E A} _.

(** [http_body::Frame] *)
Inductive Frame (T : Type) := FData (data : list byte) | FTrailers (trailers : T).
Arguments FData {T} _.
Arguments FTrailers {T} _.

(** [http_body::SizeHint] *)
Record SizeHint := mkHint { lower : Z; upper : option Z }.
Definition with_exact (n : Z) : SizeHint := mkHint n (Some n).
Definition hint_default : SizeHint := mkHint 0 None.

(** [http_body::Body]; [T] are the trailers and [E] the errors. *)
Class HttpBody (T E B : Type) := {
  poll_frame : B -> Poll (option (result E (Frame T))) * B;
  is_end_stream : B -> bool;
  size_hint : B -> SizeHint;
}.

(** What [n] polls of a body return, the pending ones left out. *)
Fixpoint polls {T E B} `{HttpBody T E B} (n : nat) (b : B) : list (option (result E (Frame T))) * B :=
  match n with
  | O => ([], b)
  | S n =>
      match poll_frame b with
      | (Ready r, b) => let '(rs, b) := polls n b in (r :: rs, b)
      | (Pending, b) => polls n b
      end
  end.

(** ** backend/quic/body.rs *)

Module QuicBody.

(** [h3::server::RequestStream], its receiving half. *)
Class RecvStream (T E S : Type) := {
  poll_recv_data : S -> Poll (result E (option (list byte))) * S;
  poll_recv_trailers : S -> Poll (result E (option T)) * S;
}.

Inductive State := Data (remaining : option Z) | Trailers | Done.

(** [h3::Error], with the code the body itself reports. *)
Inductive Error (E : Type) := Stream (e : E) | H3_FRAME_UNEXPECTED.
Arguments Stream {E} _.
Arguments H3_FRAME_UNEXPECTED {E}.

Record QuicIncomingBodyInner (S : Type) := mkBody { stream : S; state : State }.
Arguments mkBody {S} _ _.
Arguments stream {S} _.
Arguments state {S} _.

Section body.
Context {T E S : Type} `{RecvStream T E S}.

(** [QuicIncomingBodyInner::new] *)
Definition new (s : S) (hint : option Z) : QuicIncomingBodyInner S := mkBody s (Data hint).

(** The part of [poll_frame] after the data: nothing but trailers may follow. *)
Definition poll_tail (b : QuicIncomingBodyInner S) :
    Poll (option (result (Error E) (Frame T))) * QuicIncomingBodyInner S :=
  match poll_recv_data (stream b) with
  | (Ready (ok None), s) =>
      match poll_recv_trailers s with
      | (Ready (ok (Some trailers)), s) => (Ready (Some (ok (FTrailers trailers))), mkBody s Done)
      | (Pending, s) => (Ready None, mkBody s Done)
      | (Ready (ok None), s) => (Ready None, mkBody s Done)
      | (Ready (err e), s) => (Ready (Some (err (Stream e))), mkBody s Done)
      end
  | (Ready (ok (Some _)), s) => (Ready (Some (err H3_FRAME_UNEXPECTED)), mkBody s Done)
  | (Ready (err e), s) => (Ready (Some (err (Stream e))), mkBody s Done)
  | (Pending, s) => (Pending, mkBody s (state b))
  end.

Definition quic_poll_frame (b : QuicIncomingBodyInner S) :
    Poll (option (result (Error E) (Frame T))) * QuicIncomingBodyInner S :=
  match state b with
  | Done => (Ready None, b)
  | Data remaining =>
      match poll_recv_data (stream b) with
      | (Ready (ok (Some buf)), s) =>
          match remaining with
          | Some r =>
              if r <? blen buf then (Ready (Some (err H3_FRAME_UNEXPECTED)), mkBody s Done)
              else (Ready (Some (ok (FData buf))), mkBody s (Data (Some (r - blen buf))))
          | None => (Ready (Some (ok (FData buf))), mkBody s (Data None))
          end
      | (Ready (ok None), s) => poll_tail (mkBody s Trailers)
      | (Ready (err e), s) => (Ready (Some (err (Stream e))), mkBody s Done)
      | (Pending, s) => (Pending, mkBody s (Data remaining))
      end
  | Trailers => poll_tail b
  end.

Definition quic_size_hint (b : QuicIncomingBodyInner S) : SizeHint :=
  match state b with
  | Data (Some remaining) => with_exact remaining
  | Data None => hint_default
  | Trailers | Done => with_exact 0
  end.

Definition quic_is_end_stream (b : QuicIncomingBodyInner S) : bool :=
  match state b with
  | Data (Some 0) | Trailers | Done => true
  | Data _ => false
  end.

#[export] Instance quic_HttpBody : HttpBody T (Error E) (QuicIncomingBodyInner S) :=
  {| poll_frame := quic_poll_frame; is_end_stream := quic_is_end_stream; size_hint := quic_size_hint |}.
End body.

(** [h3::server::RequestStream], its sending half. *)
Class SendStream (T E S : Type) := {
  send_data : list byte -> S -> result E unit * S;
  send_trailers : T -> S -> result E unit * S;
  finish : S -> result E unit * S;
}.

Section copy.
Context {T E E' B W : Type} `{HttpBody T E B} `{SendStream T E' W}.

(** [copy_body]: the error is of the body or of the stream. *)
Fixpoint copy_body (fuel : nat) (send : W) (body : B) : res (E + E') unit * W :=
  match fuel with
  | O => (Fuel, send)
  | S fuel =>
      match poll_frame body with
      | (Pending, body) => copy_body fuel send body
      | (Ready (Some (ok (FData data))), body) =>
          match send_data data send with
          | (ok _, send) => copy_body fuel send body
          | (err e, send) => (Err (inr e), send)
          end
      | (Ready (Some (ok (FTrailers trailers))), _) =>
          match send_trailers trailers send with
          | (ok _, send) => (Ok tt, send)
          | (err e, send) => (Err (inr e), send)
          end
      | (Ready (Some (err e)), _) => (Err (inl e), send)
      | (Ready None, _) =>
          match finish send with
          | (ok _, send) => (Ok tt, send)
          | (err e, send) => (Err (inr e), send)
          end
      end
  end.
End copy.

End QuicBody.

(** ** body.rs *)

Module Body.

Section incoming.
Context {T ET EQ Tcp Quic : Type} `{HttpBody T ET Tcp} `{HttpBody T EQ Quic}.

(** [IncomingBody] over hyper's body and the one above. *)
Inductive IncomingBody := ITcp (body : Tcp) | IQuic (body : Quic) | IEmpty.

(** [Poll::map_err] *)
Definition poll_map_err {E E'} (f : E -> E') (p : Poll (option (result E (Frame T)))) :
    Poll (option (result E' (Frame T))) :=
  match p with
  | Ready (Some (err e)) => Ready (Some (err (f e)))
  | Ready (Some (ok x)) => Ready (Some (ok x))
  | Ready None => Ready None
  | Pending => Pending
  end.

Definition incoming_poll_frame (b : IncomingBody) : Poll (option (result (ET + EQ) (Frame T))) * IncomingBody :=
  match b with
  | ITcp body => let '(p, body) := poll_frame body in (poll_map_err inl p, ITcp body)
  | IQuic body => let '(p, body) := poll_frame body in (poll_map_err inr p, IQuic body)
  | IEmpty => (Ready None, IEmpty)
  end.

Definition incoming_is_end_stream (b : IncomingBody) : bool :=
  match b with
  | ITcp body => is_end_stream body
  | IQuic body => is_end_stream body
  | IEmpty => true
  end.

Definition incoming_size_hint (b : IncomingBody) : SizeHint :=
  match b with
  | ITcp body => size_hint body
  | IQuic body => size_hint body
  | IEmpty => with_exact 0
  end.

#[export] Instance incoming_HttpBody : HttpBody T (ET + EQ) IncomingBody :=
  {| poll_frame := incoming_poll_frame; is_end_stream := incoming_is_end_stream; size_hint := incoming_size_hint |}.
End incoming.

(** [Tracker]: called with the size of every data frame. *)
Class Tracker (E K : Type) := { on_data : Z -> K -> result E unit * K }.

Section tracked.
Context {T E E' B K : Type} `{HttpBody T E B} `{Tracker E' K}.

Record TrackedBody := mkTracked { body : B; tracker : K }.

Definition tracked_poll_frame (t : TrackedBody) : Poll (option (result (E + E') (Frame T))) * TrackedBody :=
  match poll_frame (body t) with
  | (Pending, b) => (Pending, mkTracked b (tracker t))
  | (Ready frame, b) =>
      let pass k := (poll_map_err inl (Ready frame), mkTracked b k) in
      match frame with
      | Some (ok (FData data)) =>
          match on_data (blen data) (tracker t) with
          | (err e, k) => (Ready (Some (err (inr e))), mkTracked b k)
          | (ok _, k) => pass k
          end
      | _ => pass (tracker t)
      end
  end.

#[export] Instance tracked_HttpBody : HttpBody T (E + E') TrackedBody :=
  {| poll_frame := tracked_poll_frame; is_end_stream := is_end_stream ∘ body; size_hint := size_hint ∘ body |}.
End tracked.

(** [http::Method] and [has_body] *)
Inductive Method := GET | HEAD | OPTIONS | CONNECT | TRACE | POST | PUT | DELETE | PATCH | Extension (name : list byte).

Definition has_body (m : Method) : bool :=
  match m with GET | HEAD | OPTIONS | CONNECT | TRACE => false | _ => true end.

End Body.

(** ** Theorems *)

Module BodyProps.
Import QuicBody Body.

Section quic.
Context {T E S : Type} `{RecvStream T E S}.

(** How a body ends: once with trailers, an error or nothing, and with nothing
    ever after; or not yet. *)
Inductive ending : list (option (result (Error E) (Frame T))) -> Prop :=
| not_yet : ending []
| ended k x : (forall d, x <> Some (ok (FData d))) -> ending (x :: replicate k None).

Definition frames (datas : list (list byte)) : list (option (result (Error E) (Frame T))) :=
  (fun d => Some (ok (FData d))) <$> datas.

Definition total (datas : list (list byte)) : Z := blen (concat datas).

Lemma polls_done n s : (polls n (mkBody s Done)).1 = replicate n (None : option (result (Error E) (Frame T))).
Proof.
  induction n as [|n IH]; [done|]. simpl. destruct (polls n _) as [rs b]. simpl in *. by rewrite IH.
Qed.

(** After the data, a poll either is pending or ends the body. *)
Lemma poll_tail_spec b : state b = Trailers ->
  (exists s, poll_tail b = (Pending, mkBody s Trailers))
  \/ exists x s, poll_tail b = (Ready x, mkBody s Done) /\ forall d, x <> Some (ok (FData d)).
Proof.
  intros Hs. unfold poll_tail. rewrite Hs.
  destruct (poll_recv_data (stream b)) as [[[[buf|]|e]|] s]; [by right; eauto| |by right; eauto|by left; eauto].
  destruct (poll_recv_trailers s) as [[[[tr|]|e]|] s']; right; eexists _, _; (split; [done|]); by intros.
Qed.

Lemma polls_trailers n : forall s, ending (polls n (mkBody s Trailers)).1.
Proof.
  induction n as [|n IH]; intros s; [constructor|]. simpl. unfold quic_poll_frame. simpl.
  destruct (poll_tail_spec (mkBody s Trailers) eq_refl) as [[s' ->]|(x & s' & -> & Hx)]; [apply IH|].
  pose proof (polls_done n s') as Hd. destruct (polls n _) as [rs b]. simpl in *. rewrite Hd. by constructor.
Qed.

Lemma polls_ended n x s : (forall d, x <> Some (ok (FData d))) ->
  ending (let '(rs, b) := polls n (mkBody s Done) in (x :: rs, b)).1.
Proof.
  intros Hx. pose proof (polls_done n s) as Hd. destruct (polls n _) as [rs b]. simpl in *. rewrite Hd. by constructor.
Qed.

Lemma polls_data n : forall s remaining, (forall r, remaining = Some r -> 0 <= r) ->
  exists datas tail, (polls n (mkBody s (Data remaining))).1 = frames datas ++ tail /\ ending tail
    /\ forall r, remaining = Some r -> total datas <= r.
Proof.
  assert (forall r, total [] <= r <-> 0 <= r) as H0 by done.
  induction n as [|n IH]; intros s remaining Hr; [exists [], []; split_and!; [done|constructor|naive_solver]|].
  assert (forall tail, ending tail -> exists datas t, tail = frames datas ++ t /\ ending t
            /\ forall r, remaining = Some r -> total datas <= r) as Hend.
  { intros tail Ht. exists [], tail. naive_solver. }
  simpl. unfold quic_poll_frame. simpl.
  destruct (poll_recv_data s) as [[[[buf|]|e]|] s'].
  - destruct remaining as [r|].
    + destruct (r <? blen buf) eqn:Hlt; [by apply Hend, polls_ended|]. apply Z.ltb_ge in Hlt.
      destruct (IH s' (Some (r - blen buf))) as (datas & tail & Hp & Ht & Hb); [intros ? [= <-]; lia|].
      destruct (polls n _) as [rs b]. simpl in *. subst rs. exists (buf :: datas), tail. split_and!; [done|done|].
      intros ? [= <-]. specialize (Hb _ eq_refl). unfold total in *. simpl. rewrite blen_app. lia.
    + destruct (IH s' None) as (datas & tail & Hp & Ht & _); [done|].
      destruct (polls n _) as [rs b]. simpl in *. subst rs. by exists (buf :: datas), tail.
  - destruct (poll_tail_spec (mkBody s' Trailers) eq_refl) as [[s2 ->]|(x & s2 & -> & Hx)].
    + apply Hend, polls_trailers.
    + by apply Hend, polls_ended.
  - by apply Hend, polls_ended.
  - apply (IH s' remaining Hr).
Qed.

(** C23. The body of a QUIC request, for every behaviour of the stream below it
    and every number of polls: the frames are data, then at most one of
    trailers, an error or the end, and nothing after that; and when the request
    declared a length, the data never exceeds it. *)
Theorem quic_body_frames (s : S) hint n : (forall r, hint = Some r -> 0 <= r) ->
  exists datas tail, (polls n (new s hint)).1 = frames datas ++ tail /\ ending tail
    /\ forall r, hint = Some r -> total datas <= r.
Proof. apply polls_data. Qed.

End quic.

(** A stream given by the outcomes of its polls: data, and then trailers. *)
Record Script := mkScript { datas : list (Poll (option (list byte))); tail : option nat }.

#[export] Instance script_RecvStream : RecvStream nat unit Script := {|
  poll_recv_data s :=
    match datas s with
    | [] => (Ready (ok None), s)
    | Ready d :: ds => (Ready (ok d), mkScript ds (tail s))
    | Pending :: ds => (Pending, mkScript ds (tail s))
    end;
  poll_recv_trailers s := (Ready (ok (tail s)), s);
|}.

(** Witness of C0: the third data frame exceeds the declared length. *)
Lemma quic_body_frames_witness :
  let b := new (mkScript [Ready (Some [x01; x02]); Pending; Ready (Some [x03]); Ready (Some [x04])] None) (Some 3) in
  (polls 6 b).1 = frames [[x01; x02]; [x03]] ++ [Some (err H3_FRAME_UNEXPECTED); None; None]
  /\ exists ds t, (polls 6 b).1 = frames ds ++ t /\ ending t /\ total ds <= 3.
Proof.
  split; [reflexivity|].
  destruct (quic_body_frames (mkScript [Ready (Some [x01; x02]); Pending; Ready (Some [x03]); Ready (Some [x04])] None)
    (Some 3) 6) as (ds & t & Hp & Ht & Hb); [intros r Hr; injection Hr; lia|].
  exists ds, t. split; [exact Hp|]. split; [exact Ht|]. by apply Hb.
Defined.

(** A body that is shorter than the declared length ends like a complete one,
    although the size hint was exact. *)
Example short_body_accepted :
  let b := new (mkScript [Ready (Some [x01])] None) (Some 3) in
  (polls 2 b).1 = [Some (ok (FData [x01])); None] /\ quic_size_hint b = with_exact 3.
Proof. done. Qed.

(** [is_end_stream] before the trailers are read: they are still to come. *)
Example end_stream_before_trailers :
  let b := (polls 1 (new (mkScript [Ready (Some [x01])] (Some 7%nat)) (Some 1))).2 in
  quic_is_end_stream b = true /\ (polls 1 b).1 = [Some (ok (FTrailers 7%nat))].
Proof. done. Qed.

(** *** [copy_body] *)

(** A stream that takes everything, and what it took. *)
Inductive Sent (T : Type) := SentData (data : list byte) | SentTrailers (trailers : T) | Finished.
Arguments SentData {T} _.
Arguments SentTrailers {T} _.
Arguments Finished {T}.

#[export] Instance log_SendStream {T} : SendStream T Empty_set (list (Sent T)) := {|
  send_data d l := (ok tt, l ++ [SentData d]);
  send_trailers t l := (ok tt, l ++ [SentTrailers t]);
  finish l := (ok tt, l ++ [Finished]);
|}.

Section copy_laws.
Context {T E B : Type} `{HttpBody T E B}.

(** What is sent for the frame that ends a body, and the result. *)
Definition last_frame (x : option (result E (Frame T))) : res (E + Empty_set) unit * list (Sent T) :=
  match x with
  | None => (Ok tt, [Finished])
  | Some (ok (FTrailers t)) => (Ok tt, [SentTrailers t])
  | Some (ok (FData _)) => (Ok tt, [])
  | Some (err e) => (Err (inl e), [])
  end.

(** A body is sent frame by frame, in order, up to the frame that ends it; a
    failing body is not finished. *)
Lemma copy_body_forwards n : forall b log datas x rest, (forall d, x <> Some (ok (FData d))) ->
  (polls n b).1 = ((fun d => Some (ok (FData d))) <$> datas) ++ x :: rest ->
  copy_body n log b = ((last_frame x).1, log ++ (SentData <$> datas) ++ (last_frame x).2).
Proof.
  induction n as [|n IH]; intros b log datas x rest Hx; simpl; [by destruct datas|].
  destruct (poll_frame b) as [[r|] b'] eqn:E0; [|by apply IH].
  destruct (polls n b') as [rs b2] eqn:Ep. simpl. destruct datas as [|d datas]; simpl; intros [= -> ->].
  - destruct x as [[[d|t]|e]|]; simpl; [by destruct (Hx d)|..]; by rewrite ?app_nil_r.
  - rewrite (IH b' (log ++ [SentData d]) datas x rest Hx) by (by rewrite Ep). by rewrite <-!app_assoc.
Qed.
End copy_laws.

End BodyProps.
