(* ===== verification/HttpIdle.v ===== *)
(** * The idle timeout of a connection (crates/http/src/util.rs)

    [TimeoutTracker] counts the requests in flight; the task that serves the
    connection awaits [wait], which returns when the connection has been idle
    for the timeout. Every atomic operation and every poll of [wait] is an
    event, in any interleaving; time passes in steps of its own, and only when
    no task that was woken is still to run. *)

From stdpp Require Import base list numbers option relations.
From S2P Require Import Prelude.

Module Idle.

(** [wait]: sleeping until the deadline of its [select], or returned. *)
Inductive Wait := Sleeping (deadline : Z) | WaitReturned (at_ : Z).

(** [guards]: the drop guards alive. [notifying]: drops that are between
    [fetch_sub] and [notify_one]. [permit]: a notification is stored or was
    received. [busy_until]: when a request was in flight last, or the start. *)
Record TimeoutTracker := mk {
  timeout : Z;
  requests_inflight : Z;
  permit : bool;
  guards : Z;
  notifying : nat;
  waiting : Wait;
  now : Z;
  busy_until : Z;
}.

(** [TimeoutTracker::new], and the first turn of [wait]. *)
Definition new (timeout now : Z) : TimeoutTracker := mk timeout 0 false 0 0 (Sleeping (now + timeout)) now now.

(** [new_guard], [incr_inflight] *)
Definition new_guard (s : TimeoutTracker) : TimeoutTracker :=
  mk (timeout s) (wrap 64 (requests_inflight s + 1)) (permit s) (guards s + 1) (notifying s) (waiting s) (now s) (now s).

(** [decr_inflight] up to its condition. *)
Definition drop_guard (s : TimeoutTracker) : TimeoutTracker :=
  mk (timeout s) (wrap 64 (requests_inflight s - 1)) (permit s) (guards s - 1)
    (if requests_inflight s =? 1 then S (notifying s) else notifying s) (waiting s) (now s) (now s).

(** [notify.notify_one()] *)
Definition notify_one (s : TimeoutTracker) : TimeoutTracker :=
  mk (timeout s) (requests_inflight s) true (guards s) (Nat.pred (notifying s)) (waiting s) (now s) (busy_until s).

Definition set_waiting (w : Wait) (permit : bool) (s : TimeoutTracker) : TimeoutTracker :=
  mk (timeout s) (requests_inflight s) permit (guards s) (notifying s) w (now s) (busy_until s).

(** A poll of [wait]: the [select] looks at the sleep first. *)
Definition poll_wait (s : TimeoutTracker) : TimeoutTracker :=
  match waiting s with
  | WaitReturned _ => s
  | Sleeping deadline =>
      if deadline <=? now s then
        if requests_inflight s =? 0 then set_waiting (WaitReturned (now s)) (permit s) s
        else set_waiting (Sleeping (now s + timeout s)) (permit s) s
      else if permit s then set_waiting (Sleeping (now s + timeout s)) false s
      else s
  end.

(** [wait] has something to do. *)
Definition ready (s : TimeoutTracker) : Prop :=
  match waiting s with Sleeping deadline => deadline <= now s \/ permit s = true | WaitReturned _ => False end.

Definition tick (s : TimeoutTracker) : TimeoutTracker :=
  mk (timeout s) (requests_inflight s) (permit s) (guards s) (notifying s) (waiting s) (now s + 1)
    (if 0 <? guards s then now s + 1 else busy_until s).

Inductive step : TimeoutTracker -> TimeoutTracker -> Prop :=
| step_new_guard s : guards s < 2 ^ 64 - 1 -> step s (new_guard s)
| step_drop_guard s : 0 < guards s -> step s (drop_guard s)
| step_notify s : (0 < notifying s)%nat -> step s (notify_one s)
| step_poll s : step s (poll_wait s)
| step_tick s : ~ ready s -> notifying s = 0%nat -> step s (tick s).

(** ** The invariant *)

Record inv (s : TimeoutTracker) : Prop := {
  inv_timeout : 0 <= timeout s;
  inv_ahead d : waiting s = Sleeping d -> d <= now s + timeout s;
  inv_count : requests_inflight s = guards s;
  inv_range : 0 <= guards s < 2 ^ 64;
  inv_busy : busy_until s <= now s;
  inv_deadline d : waiting s = Sleeping d ->
    0 < guards s \/ permit s = true \/ (0 < notifying s)%nat \/ busy_until s + timeout s <= d;
  inv_fresh d : waiting s = Sleeping d -> permit s = true \/ (0 < notifying s)%nat ->
    busy_until s = now s \/ busy_until s + timeout s <= d;
}.

Lemma idle_inv_new T t : 0 <= T -> inv (new T t).
Proof. intros. split; simpl; try lia; intros ? [= <-]; lia. Qed.

Lemma inv_poll s : inv s -> inv (poll_wait s).
Proof.
  intros Hi. pose proof Hi as [Ht Ha Hc Hr Hb Hd Hf]. unfold poll_wait. destruct (waiting s) as [d|t] eqn:Hw; [|exact Hi].
  specialize (Ha d eq_refl). specialize (Hd d eq_refl). specialize (Hf d eq_refl).
  destruct (Z.leb_spec d (now s)); [destruct (Z.eqb_spec (requests_inflight s) 0)|destruct (permit s) eqn:Hp];
    split; simpl; rewrite ?Hw, ?Hp; try done; intros d' [= <-]; rewrite ?Hp in *; try lia; naive_solver lia.
Qed.

Lemma idle_inv_step s s' : step s s' -> inv s -> inv s'.
Proof.
  intros Hs Hi. pose proof Hi as [Ht Ha Hc Hr Hb Hd Hf].
  destruct Hs as [s Hg|s Hg|s Hn|s|s Hrd Hn]; [..|by apply inv_poll|].
  - split; simpl; auto; try lia. unfold wrap. rewrite Z.mod_small by lia. lia.
  - split; simpl; auto; try lia; [unfold wrap; rewrite Z.mod_small by lia; lia|intros].
    destruct (Z.eqb_spec (requests_inflight s) 1); [right; right; left; lia|left; lia].
  - split; simpl; try done; intros d Hw; [auto|]. intros _. apply (Hf d Hw). auto.
  - split; simpl; try done; try lia.
    + intros d Hw. specialize (Ha d Hw). lia.
    + destruct (Z.ltb_spec 0 (guards s)); lia.
    + intros d Hw. destruct (Z.ltb_spec 0 (guards s)); [by left|]. auto.
    + intros d Hw [Hp|Hp]; [|lia]. destruct Hrd. unfold ready. rewrite Hw. auto.
Qed.

Definition reachable (T t : Z) (s : TimeoutTracker) : Prop := rtc step (new T t) s.

Lemma idle_reachable_inv T t s : 0 <= T -> reachable T t s -> inv s.
Proof.
  intros HT Hr. pose proof (idle_inv_new T t HT) as H0. unfold reachable in Hr.
  induction Hr as [|s1 s2 s3 Hs _ IH]; [done|]. apply IH. by eapply idle_inv_step.
Qed.

Lemma timeout_step s s' : step s s' -> timeout s' = timeout s.
Proof.
  destruct 1 as [| | |s|]; try done. unfold poll_wait. destruct (waiting s); [|done]. by repeat case_match.
Qed.

(** ** Quiet steps: no request starts *)

Inductive quiet : TimeoutTracker -> TimeoutTracker -> Prop :=
| quiet_notify s : (0 < notifying s)%nat -> quiet s (notify_one s)
| quiet_poll s : quiet s (poll_wait s)
| quiet_tick s : ~ ready s -> notifying s = 0%nat -> quiet s (tick s).

Lemma quiet_step s s' : quiet s s' -> step s s'.
Proof. destruct 1; by constructor. Qed.

Lemma quiet_sleep n : forall s d, waiting s = Sleeping d -> notifying s = 0%nat -> permit s = false ->
  requests_inflight s = 0 -> guards s = 0 -> d - now s <= Z.of_nat n ->
  exists s' t, rtc quiet s s' /\ waiting s' = WaitReturned t /\ t <= Z.max d (now s).
Proof.
  induction n as [|n IH]; intros s d Hw Hn Hp Hi Hg Hd; destruct (Z.leb_spec d (now s)) as [Hle|Hlt]; try lia.
  1,2: exists (poll_wait s), (now s); split; [by apply rtc_once; constructor|]; split; [|lia];
       unfold poll_wait; rewrite Hw, (proj2 (Z.leb_le _ _)), Hi by lia; done.
  destruct (IH (tick s) d) as (s' & t & Hr & Hw' & Ht); try done; [simpl; lia|].
  exists s', t. split_and!; [|done|simpl in Ht; lia]. eapply rtc_l; [|exact Hr]. constructor; [|done].
  unfold ready. rewrite Hw, Hp. intros [?|?]; [lia|done].
Qed.

Lemma quiet_notified n : forall s, inv s -> notifying s = n -> guards s = 0 ->
  (forall t, waiting s <> WaitReturned t) ->
  exists s' t, rtc quiet s s' /\ waiting s' = WaitReturned t /\ t <= now s + timeout s.
Proof.
  induction n as [|n IH]; intros s Hi Hn Hg Hw.
  - destruct (waiting s) as [d|t] eqn:Ew; [|by destruct (Hw t)]. pose proof (inv_ahead s Hi d Ew) as Ha.
    pose proof (inv_timeout s Hi) as Ht. pose proof (inv_count s Hi) as Hc.
    destruct (permit s) eqn:Hp.
    + destruct (Z.leb_spec d (now s)) as [Hle|Hlt].
      { exists (poll_wait s), (now s). split; [by apply rtc_once; constructor|]. split; [|lia].
        unfold poll_wait. by rewrite Ew, (proj2 (Z.leb_le _ _)), Hc, Hg by lia. }
      assert (poll_wait s = set_waiting (Sleeping (now s + timeout s)) false s) as Ep.
      { unfold poll_wait. by rewrite Ew, (proj2 (Z.leb_gt _ _)), Hp by lia. }
      destruct (quiet_sleep (Z.to_nat (timeout s)) (poll_wait s) (now s + timeout s)) as (s' & t & Hr & Hw' & Hb);
        rewrite ?Ep; simpl; try done; try lia.
      exists s', t. rewrite Ep in Hb. simpl in Hb. split_and!; [|done|lia]. eapply rtc_l; [apply quiet_poll|done].
    + destruct (quiet_sleep (Z.to_nat (d - now s)) s d) as (s' & t & Hr & Hw' & Hb); try done; try lia.
      exists s', t. split_and!; [done..|lia].
  - destruct (IH (notify_one s)) as (s' & t & Hr & Hw' & Hb); [|simpl; lia|done|done|].
    { apply (idle_inv_step s); [|done]. constructor. lia. }
    exists s', t. split_and!; [|done|done]. eapply rtc_l; [|exact Hr]. constructor. lia.
Qed.

End Idle.

Module IdleProps.
Import Idle.

(** C26. The idle timeout of a connection, under every interleaving of
    requests, notifications and polls: [wait] returns only when no request is
    in flight, and then the connection has been idle for the whole timeout,
    unless the last request ended at the very moment at which a sleep of the
    task expired; and while no request is in flight and none starts, it can
    return within the timeout. *)
Theorem idle_timeout T t s : 0 <= T -> reachable T t s ->
  (forall d at_, waiting s = Sleeping d -> waiting (poll_wait s) = WaitReturned at_ ->
     requests_inflight s = 0 /\ guards s = 0 /\ at_ = now s
     /\ (busy_until s + T <= at_ \/ busy_until s = at_ /\ (permit s = true \/ (0 < notifying s)%nat)))
  /\ (guards s = 0 -> (forall at_, waiting s <> WaitReturned at_) ->
       exists s' at_, rtc quiet s s' /\ waiting s' = WaitReturned at_ /\ at_ <= now s + T).
Proof.
  intros HT Hr. pose proof (idle_reachable_inv T t s HT Hr) as Hi.
  assert (timeout s = T) as Htm.
  { clear Hi. unfold reachable in Hr. assert (timeout (new T t) = T) as H0 by done. revert H0.
    induction Hr as [|s1 s2 s3 Hs _ IH]; [done|]. intros H0. apply IH. by rewrite (timeout_step _ _ Hs). }
  split.
  - intros d at_ Hw. unfold poll_wait. rewrite Hw.
    destruct (Z.leb_spec d (now s)) as [Hd|Hd]; [|by destruct (permit s); simpl; rewrite ?Hw].
    destruct (Z.eqb_spec (requests_inflight s) 0) as [H0|H0]; simpl; [|done]. intros [= <-].
    pose proof (inv_count s Hi) as Hc. pose proof (inv_range s Hi). pose proof (inv_deadline s Hi d Hw) as Hdl.
    pose proof (inv_fresh s Hi d Hw) as Hf. rewrite Htm in *.
    split_and!; [done|lia|done|]. destruct Hdl as [?|[Hp|[Hn|?]]]; [lia|..|left; lia].
    + destruct (Hf (or_introl Hp)); [right; auto|left; lia].
    + destruct (Hf (or_intror Hn)); [right; auto|left; lia].
  - intros Hg Hw. destruct (quiet_notified (notifying s) s Hi eq_refl Hg Hw) as (s' & at_ & Hq & Hw' & Hb).
    exists s', at_. rewrite Htm in Hb. auto.
Qed.

(** Witness of C0: no request at all, timeout 2. *)
Lemma idle_timeout_witness :
  reachable 2 0 (tick (tick (new 2 0)))
  /\ (waiting (poll_wait (tick (tick (new 2 0)))) = WaitReturned 2)
  /\ exists s' at_, rtc quiet (new 2 0) s' /\ waiting s' = WaitReturned at_ /\ at_ <= 0 + 2.
Proof.
  assert (reachable 2 0 (tick (tick (new 2 0)))) as Hr.
  { eapply rtc_l; [apply step_tick; [intros [?|?]; simpl in *; done|done]|].
    eapply rtc_l; [apply step_tick; [intros [?|?]; simpl in *; done|done]|]. apply rtc_refl. }
  split; [exact Hr|]. split; [reflexivity|].
  apply (idle_timeout 2 0 (new 2 0)); [lia|apply rtc_refl|reflexivity|intros ?; discriminate].
Defined.

End IdleProps.
