(* ===== verification/HttpTcp.v ===== *)
(** * The TCP backend of the HTTP server (crates/http/src/backend/tcp)

    The accept loop of serve.rs and the helpers of util.rs: which errors end
    the loop, and how the first bytes of a connection to a TLS port are
    classified before the handshake. *)

From Stdlib Require Import Strings.Byte Strings.String.
From stdpp Require Import base list numbers option.
From S2P Require Import Prelude Amf0.

Module HttpTcp.

(** ** [is_fatal_tcp_error] *)

(** The [errno] values, with those of Linux. *)
Definition ENOMEM := 12.
Definition EFAULT := 14.
Definition EINVAL := 22.
Definition ENFILE := 23.
Definition EMFILE := 24.
Definition ENOBUFS := 105.

(** [err.raw_os_error()] *)
Definition is_fatal_tcp_error (raw_os_error : option Z) : bool :=
  match raw_os_error with
  | Some e => existsb (Z.eqb e) [EFAULT; EINVAL; ENFILE; EMFILE; ENOBUFS; ENOMEM]
  | None => false
  end.

(** ** [serve_tcp_inner] *)

(** What [listener.accept().with_context(&ctx).await] returns: a connection,
    an error with its [errno], or that the context is done. *)
Inductive Accepted (C : Type) := Connection (c : C) | AcceptError (raw_os_error : option Z) | ContextDone.
Arguments Connection {C} _.
Arguments AcceptError {C} _.
Arguments ContextDone {C}.

(** The loop over the outcomes of [accept], with the connections that are
    served; [Fuel] when the list of outcomes ends and the loop still waits. *)
Fixpoint serve_tcp_inner {C} (service_accept : C -> bool) (outcomes : list (Accepted C)) (served : list C) :
    res Z unit * list C :=
  match outcomes with
  | [] => (Fuel, served)
  | Connection c :: outcomes =>
      serve_tcp_inner service_accept outcomes (if service_accept c then served ++ [c] else served)
  | AcceptError e :: outcomes =>
      if is_fatal_tcp_error e then (Err (default 0 e), served)
      else serve_tcp_inner service_accept outcomes served
  | ContextDone :: _ => (Ok tt, served)
  end.

(** ** [is_tls] *)

Definition H2_PREFACE : list byte :=
  str "PRI * HTTP/2.0" ++ [x0d; x0a; x0d; x0a] ++ str "SM" ++ [x0d; x0a; x0d; x0a].

(** [s.contains(needle)] *)
Fixpoint contains (needle s : list byte) : bool :=
  bool_decide (take (length needle) s = needle)
  || match s with [] => false | _ :: s => contains needle s end.

(** What is done with the connection: go on with the handshake, or close it,
    after one of the two responses or without one. *)
Inductive Verdict := Tls | Refuse | RefusePlainOnTls | RefuseBadRequest.

(** [buf[..n]] after [peek]; [None] is an error of [peek]. *)
Definition is_tls (peeked : option (list byte)) : Verdict :=
  match peeked with
  | None => Refuse
  | Some buf =>
      if bool_decide (buf = H2_PREFACE) then Refuse
      else if Utf8.valid buf && contains (str "HTTP/1.1") buf then RefusePlainOnTls
      else
        match buf with
        | b0 :: b1 :: b2 :: _ =>
            if negb (b2z b0 =? 0x16) || negb (b2z b1 =? 0x03) || (b2z b2 <? 0x01) then RefuseBadRequest else Tls
        | _ => RefuseBadRequest
        end
  end.

(** ** Laws *)

(** The accept loop serves every accepted connection, in order, until the
    context is done or a fatal error. *)
Lemma serve_tcp_serves {C} service_accept outcomes : forall served : list C,
  exists k, (serve_tcp_inner service_accept outcomes served).2 =
    served ++ filter (fun c => service_accept c = true)
      (omap (fun o => match o with Connection c => Some c | _ => None end) (take k outcomes))
  /\ match (serve_tcp_inner service_accept outcomes served).1 with
     | Ok _ => outcomes !! k = Some ContextDone
     | Err e => exists e', outcomes !! k = Some (AcceptError e') /\ is_fatal_tcp_error e' = true
     | Panic => False
     | Fuel => k = length outcomes /\ ContextDone ∉ outcomes
     end.
Proof.
  induction outcomes as [|[c|e|] outcomes IH]; intros served; simpl.
  - exists 0%nat. rewrite app_nil_r. split_and!; [done..|]. by intros ?%elem_of_nil.
  - destruct (IH (if service_accept c then served ++ [c] else served)) as (k & -> & Hk). exists (S k). split.
    + simpl. rewrite filter_cons. destruct (service_accept c); [rewrite decide_True by done|by rewrite decide_False].
      by rewrite <-app_assoc.
    + destruct (serve_tcp_inner _ _ _).1; try done. destruct Hk as [-> Hk]. split; [done|]. by rewrite elem_of_cons; intros [|].
  - destruct (is_fatal_tcp_error e) eqn:E.
    + exists 0%nat. rewrite app_nil_r. split; [done|]. by exists e.
    + destruct (IH served) as (k & -> & Hk). exists (S k). split; [done|].
      destruct (serve_tcp_inner _ _ _).1; try done. destruct Hk as [-> Hk]. split; [done|]. by rewrite elem_of_cons; intros [|].
  - exists 0%nat. by rewrite app_nil_r.
Qed.

(** A TLS client hello is a handshake record; nothing else is let through. *)
Lemma is_tls_record buf : is_tls (Some buf) = Tls ->
  exists version rest, buf = x16 :: x03 :: version :: rest /\ 1 <= b2z version.
Proof.
  unfold is_tls. destruct (bool_decide _); [done|]. destruct (_ && _); [done|].
  destruct buf as [|b0 [|b1 [|b2 rest]]]; try done.
  destruct (Z.eqb_spec (b2z b0) 0x16) as [H0|]; [|done]. destruct (Z.eqb_spec (b2z b1) 0x03) as [H1|]; [|done].
  destruct (Z.ltb_spec (b2z b2) 0x01); [done|]. intros _. exists b2, rest. split; [|lia].
  apply (b2z_inj b0 x16) in H0 as ->. by apply (b2z_inj b1 x03) in H1 as ->.
Qed.

(** Plain requests are told so. *)
Example plain_http : is_tls (Some (str "GET / HTTP/1.1")) = RefusePlainOnTls /\ is_tls (Some H2_PREFACE) = Refuse.
Proof. by vm_compute. Qed.

End HttpTcp.
