(* ===== verification/WebTransport.v ===== *)
(** * WebTransport over HTTP/3 (crates/h3-webtransport/src/server.rs, session.rs)

    The driver of a connection takes streams and datagrams from the HTTP/3
    connection and hands them to the WebTransport session they belong to, or
    to the application as requests. It is one future, [drive], which is
    suspended at its awaits: [Drive] says at which one. The application holds
    the other ends of the channels. Every stretch of [drive] between two
    awaits and every operation of the application is an event, in any order.
    The h3 crate is a parameter: what it returns is part of the events. A
    stream is a number; [sid] is the number of the stream of its CONNECT
    request. *)

From stdpp Require Import base list numbers option gmap.
From S2P Require Import Prelude.

Module WebTransport.

Abbreviation stream := nat.

(** The three channels of a session, as seen from its receiving side, and the
    streams it has taken from them. [waiting]: the upgrade is not answered
    yet; [alive]: the receivers exist. With every stream goes the session its
    header named. *)
Record Session := mkSession {
  session_id : stream;
  bidi : list (stream * stream);
  uni : list (stream * stream);
  datagram : list (stream * Z);
  taken : list (stream * stream);
  waiting : bool;
  alive : bool;
}.

(** [WebTransportRequest]; the [Upgrade] carries the senders of session [i]. *)
Inductive WebTransportRequest := Upgrade (i : nat) | SendDatagram (sid : stream) (payload : Z).

(** Where [drive] is suspended. *)
Inductive Drive :=
| Polling
| SendingUni (i : nat) (sid s : stream)
| SendingDatagram (i : nat) (sid : stream) (payload : Z)
| SendingBidi (i : nat) (sid s : stream)
| ReadingFrame (s : stream)
| Resolving (s : stream)
| SendingRequest (s : stream) (can_upgrade : bool)
| Returned (success : bool).

(** [ConnectionDriver] with the other ends of its channels. [handed]: the
    requests the application has accepted. The last four are what happened to
    streams: taken from the transport, rejected, dropped; datagrams sent. *)
Record t := mk {
  webtransport_session_map : gmap stream nat;
  requests : list (stream * bool);
  webtransport_requests : list WebTransportRequest;
  session_closes : list stream;
  drive : Drive;
  sessions : list Session;
  incoming_open : bool;
  handed : list (stream * bool);
  accepted : list stream;
  rejected : list stream;
  dropped : list stream;
  sent_datagrams : list (stream * Z);
}.

(** [Connection::new] *)
Definition new : t := mk ∅ [] [] [] Polling [] true [] [] [] [] [].

(** ** Updates *)

Definition set_drive (d : Drive) (s : t) : t :=
  mk (webtransport_session_map s) (requests s) (webtransport_requests s) (session_closes s) d (sessions s)
    (incoming_open s) (handed s) (accepted s) (rejected s) (dropped s) (sent_datagrams s).
Definition set_sessions (ss : list Session) (s : t) : t :=
  mk (webtransport_session_map s) (requests s) (webtransport_requests s) (session_closes s) (drive s) ss
    (incoming_open s) (handed s) (accepted s) (rejected s) (dropped s) (sent_datagrams s).
Definition set_map (m : gmap stream nat) (s : t) : t :=
  mk m (requests s) (webtransport_requests s) (session_closes s) (drive s) (sessions s)
    (incoming_open s) (handed s) (accepted s) (rejected s) (dropped s) (sent_datagrams s).
Definition set_wt (rs : list WebTransportRequest) (s : t) : t :=
  mk (webtransport_session_map s) (requests s) rs (session_closes s) (drive s) (sessions s)
    (incoming_open s) (handed s) (accepted s) (rejected s) (dropped s) (sent_datagrams s).
Definition set_closes (cs : list stream) (s : t) : t :=
  mk (webtransport_session_map s) (requests s) (webtransport_requests s) cs (drive s) (sessions s)
    (incoming_open s) (handed s) (accepted s) (rejected s) (dropped s) (sent_datagrams s).
Definition set_requests (rs : list (stream * bool)) (s : t) : t :=
  mk (webtransport_session_map s) rs (webtransport_requests s) (session_closes s) (drive s) (sessions s)
    (incoming_open s) (handed s) (accepted s) (rejected s) (dropped s) (sent_datagrams s).
Definition hand (r : stream * bool) (s : t) : t :=
  mk (webtransport_session_map s) (requests s) (webtransport_requests s) (session_closes s) (drive s) (sessions s)
    (incoming_open s) (handed s ++ [r]) (accepted s) (rejected s) (dropped s) (sent_datagrams s).
Definition accept (st : stream) (s : t) : t :=
  mk (webtransport_session_map s) (requests s) (webtransport_requests s) (session_closes s) (drive s) (sessions s)
    (incoming_open s) (handed s) (accepted s ++ [st]) (rejected s) (dropped s) (sent_datagrams s).
Definition reject (st : stream) (s : t) : t :=
  mk (webtransport_session_map s) (requests s) (webtransport_requests s) (session_closes s) (drive s) (sessions s)
    (incoming_open s) (handed s) (accepted s) (rejected s ++ [st]) (dropped s) (sent_datagrams s).
Definition drop_streams (sts : list stream) (s : t) : t :=
  mk (webtransport_session_map s) (requests s) (webtransport_requests s) (session_closes s) (drive s) (sessions s)
    (incoming_open s) (handed s) (accepted s) (rejected s) (dropped s ++ sts) (sent_datagrams s).
Definition send_datagram (d : stream * Z) (s : t) : t :=
  mk (webtransport_session_map s) (requests s) (webtransport_requests s) (session_closes s) (drive s) (sessions s)
    (incoming_open s) (handed s) (accepted s) (rejected s) (dropped s) (sent_datagrams s ++ [d]).
Definition close_incoming (s : t) : t :=
  mk (webtransport_session_map s) [] (webtransport_requests s) (session_closes s) (drive s) (sessions s)
    false (handed s) (accepted s) (rejected s) (dropped s ++ (requests s).*1) (sent_datagrams s).

(** The stream that is local to the suspended [drive]. *)
Definition in_flight (d : Drive) : list stream :=
  match d with
  | SendingUni _ _ s | SendingBidi _ _ s | ReadingFrame s | Resolving s | SendingRequest s _ => [s]
  | _ => []
  end.

(** [drive] returns: what it holds is dropped. *)
Definition return_ (success : bool) (s : t) : t :=
  set_drive (Returned success) (drop_streams (in_flight (drive s)) s).

(** ** [drive] *)

(** The first two polls of [poll_inner]: closed sessions, then requests of
    sessions. *)
Definition housekeep (s : t) : option t :=
  match drive s with
  | Polling =>
      match session_closes s with
      | sid :: cs => Some (set_map (delete sid (webtransport_session_map s)) (set_closes cs s))
      | [] =>
          match webtransport_requests s with
          | SendDatagram sid payload :: rs => Some (send_datagram (sid, payload) (set_wt rs s))
          | Upgrade i :: rs =>
              let s := set_wt rs s in
              match sessions s !! i with
              | Some w =>
                  if waiting w then
                    Some (set_map (<[session_id w := i]> (webtransport_session_map s))
                      (set_sessions (<[i := mkSession (session_id w) (bidi w) (uni w) (datagram w) (taken w) false (alive w)]>
                        (sessions s)) s))
                  else Some s
              | None => Some s
              end
          | [] => None
          end
      end
  | _ => None
  end.

(** What the HTTP/3 connection yields: a bidirectional stream, a WebTransport
    stream, a datagram, the end, or an error ([closed]: of kind [Closed]). *)
Inductive Transport :=
| TRequest (s : stream)
| TUni (sid s : stream)
| TDatagram (sid : stream) (payload : Z)
| TEnd
| TError (closed : bool).

(** The rest of [poll_inner], and what is done with the winner. *)
Definition accept_transport (o : Transport) (s : t) : option t :=
  match drive s, session_closes s, webtransport_requests s with
  | Polling, [], [] =>
      match o with
      | TRequest st => Some (set_drive (ReadingFrame st) (accept st s))
      | TUni sid st =>
          match webtransport_session_map s !! sid with
          | Some i => Some (set_drive (SendingUni i sid st) (accept st s))
          | None => Some (reject st (accept st s))
          end
      | TDatagram sid payload =>
          match webtransport_session_map s !! sid with
          | Some i => Some (set_drive (SendingDatagram i sid payload) s)
          | None => Some s
          end
      | TEnd => Some (return_ true s)
      | TError closed => Some (return_ closed s)
      end
  | _, _, _ => None
  end.

(** The first frame of a stream, or what [accept_with_frame] makes of it. *)
Inductive FirstFrame := NoFrame | WebTransportStream (sid : stream) | AcceptNone | AcceptErr | AcceptOk.

Definition read_frame (f : FirstFrame) (s : t) : option t :=
  match drive s with
  | ReadingFrame st =>
      match f with
      | NoFrame | AcceptNone => Some (return_ true s)
      | AcceptErr => Some (return_ false s)
      | WebTransportStream sid =>
          match webtransport_session_map s !! sid with
          | Some i => Some (set_drive (SendingBidi i sid st) s)
          | None => Some (set_drive Polling (reject st s))
          end
      | AcceptOk => Some (set_drive (Resolving st) s)
      end
  | _ => None
  end.

(** [req.resolve().await?]; [is_connect] is [validate_wt_connect]. *)
Definition resolve (outcome : option bool) (s : t) : option t :=
  match drive s with
  | Resolving st =>
      match outcome with
      | None => Some (return_ false s)
      | Some is_connect => Some (set_drive (SendingRequest st is_connect) s)
      end
  | _ => None
  end.

Definition push_uni (x : stream * stream) (w : Session) : Session :=
  mkSession (session_id w) (bidi w) (uni w ++ [x]) (datagram w) (taken w) (waiting w) (alive w).
Definition push_bidi (x : stream * stream) (w : Session) : Session :=
  mkSession (session_id w) (bidi w ++ [x]) (uni w) (datagram w) (taken w) (waiting w) (alive w).
Definition push_datagram (x : stream * Z) (w : Session) : Session :=
  mkSession (session_id w) (bidi w) (uni w) (datagram w ++ [x]) (taken w) (waiting w) (alive w).

(** A [send(..).await]: into a channel with room; a closed channel returns the
    value; on a full one the driver stays suspended. *)
Definition continue_send (s : t) : option t :=
  match drive s with
  | SendingUni i sid st =>
      w ← sessions s !! i;
      if alive w then
        if Nat.ltb (length (uni w)) 16
        then Some (set_drive Polling (set_sessions (<[i := push_uni (sid, st) w]> (sessions s)) s)) else None
      else Some (set_drive Polling (reject st s))
  | SendingBidi i sid st =>
      w ← sessions s !! i;
      if alive w then
        if Nat.ltb (length (bidi w)) 16
        then Some (set_drive Polling (set_sessions (<[i := push_bidi (sid, st) w]> (sessions s)) s)) else None
      else Some (set_drive Polling (reject st s))
  | SendingDatagram i sid payload =>
      w ← sessions s !! i;
      if alive w then
        if Nat.ltb (length (datagram w)) 16
        then Some (set_drive Polling (set_sessions (<[i := push_datagram (sid, payload) w]> (sessions s)) s)) else None
      else Some (set_drive Polling s)
  | SendingRequest st can_upgrade =>
      if incoming_open s then
        if Nat.ltb (length (requests s)) 128
        then Some (set_drive Polling (set_requests (requests s ++ [(st, can_upgrade)]) s)) else None
      else Some (return_ false s)
  | _ => None
  end.

(** ** The application *)

(** [Incoming::accept] *)
Definition incoming_accept (s : t) : option t :=
  match requests s with
  | r :: rs => Some (hand r (set_requests rs s))
  | [] => None
  end.

(** [Connection::accept] when [drive] is suspended and a request is there: the
    request is returned, and the future of [drive] is dropped. *)
Definition connection_accept (s : t) : option t :=
  match drive s, requests s with
  | Returned _, _ => None
  | d, r :: rs => Some (set_drive Polling (drop_streams (in_flight d) (hand r (set_requests rs s))))
  | _, [] => None
  end.

(** [WebTransportSession::new] up to the answer of the driver, on request
    number [k] of those handed out. The code's ownership of the stream lets a
    request be upgraded once; here it may be upgraded again, so the runs
    include those of the code. *)
Definition begin_upgrade (k : nat) (s : t) : option t :=
  match handed s !! k with
  | Some (st, true) =>
      if Nat.ltb (length (webtransport_requests s)) 128
      then Some (set_wt (webtransport_requests s ++ [Upgrade (length (sessions s))])
             (set_sessions (sessions s ++ [mkSession st [] [] [] [] true true]) s))
      else None
  | _ => None
  end.

(** The future of [WebTransportSession::new] is dropped before the answer. *)
Definition abandon (i : nat) (s : t) : option t :=
  w ← sessions s !! i;
  if waiting w
  then Some (set_sessions (<[i := mkSession (session_id w) (bidi w) (uni w) (datagram w) (taken w) false false]> (sessions s)) s)
  else None.

(** [WebTransportSession::send_datagram] *)
Definition session_send_datagram (i : nat) (payload : Z) (s : t) : option t :=
  w ← sessions s !! i;
  if Nat.ltb (length (webtransport_requests s)) 128
  then Some (set_wt (webtransport_requests s ++ [SendDatagram (session_id w) payload]) s) else None.

(** [poll_accept_bi], [poll_accept_uni], [poll_accept_datagram] *)
Definition accept_bi (i : nat) (s : t) : option t :=
  w ← sessions s !! i;
  match bidi w with
  | x :: xs => Some (set_sessions (<[i := mkSession (session_id w) xs (uni w) (datagram w) (taken w ++ [x]) (waiting w) (alive w)]> (sessions s)) s)
  | [] => None
  end.
Definition accept_uni (i : nat) (s : t) : option t :=
  w ← sessions s !! i;
  match uni w with
  | x :: xs => Some (set_sessions (<[i := mkSession (session_id w) (bidi w) xs (datagram w) (taken w ++ [x]) (waiting w) (alive w)]> (sessions s)) s)
  | [] => None
  end.
Definition accept_datagram (i : nat) (s : t) : option t :=
  w ← sessions s !! i;
  match datagram w with
  | x :: xs => Some (set_sessions (<[i := mkSession (session_id w) (bidi w) (uni w) xs (taken w) (waiting w) (alive w)]> (sessions s)) s)
  | [] => None
  end.

(** [WebTransportSession::drop] *)
Definition drop_session (i : nat) (s : t) : option t :=
  w ← sessions s !! i;
  if alive w && negb (waiting w)
  then Some (set_closes (session_closes s ++ [session_id w])
         (set_sessions (<[i := mkSession (session_id w) (bidi w) (uni w) (datagram w) (taken w) false false]> (sessions s)) s))
  else None.

(** ** Runs *)

Inductive event :=
| EHousekeep
| ETransport (o : Transport)
| EFrame (f : FirstFrame)
| EResolve (outcome : option bool)
| EContinue
| EIncomingAccept
| EConnectionAccept
| ECloseIncoming
| EBeginUpgrade (k : nat)
| EAbandon (i : nat)
| ESendDatagram (i : nat) (payload : Z)
| EAcceptBi (i : nat)
| EAcceptUni (i : nat)
| EAcceptDatagram (i : nat)
| EDropSession (i : nat).

Definition step (e : event) (s : t) : option t :=
  match e with
  | EHousekeep => housekeep s
  | ETransport o => accept_transport o s
  | EFrame f => read_frame f s
  | EResolve outcome => resolve outcome s
  | EContinue => continue_send s
  | EIncomingAccept => incoming_accept s
  | EConnectionAccept => connection_accept s
  | ECloseIncoming => Some (close_incoming s)
  | EBeginUpgrade k => begin_upgrade k s
  | EAbandon i => abandon i s
  | ESendDatagram i payload => session_send_datagram i payload s
  | EAcceptBi i => accept_bi i s
  | EAcceptUni i => accept_uni i s
  | EAcceptDatagram i => accept_datagram i s
  | EDropSession i => drop_session i s
  end.

Fixpoint run (es : list event) (s : t) : option t :=
  match es with
  | [] => Some s
  | e :: es => s' ← step e s; run es s'
  end.

End WebTransport.
