(* ===== verification/WebTransportTheorems.v ===== *)
(** * Theorems on the WebTransport driver

    No stream that the driver takes from the connection gets lost or
    duplicated, and every session receives its own streams only; except that
    [Connection::accept] drops the stream its driver is working on. *)

From Stdlib Require Import Permutation.
From stdpp Require Import base list numbers option gmap.
From S2P Require Import Prelude WebTransport.

Module WebTransportLaws.
Import WebTransport.

(** ** Where a stream is *)

(** The streams a session has received. *)
Definition held (w : Session) : list stream := (bidi w).*2 ++ (uni w).*2 ++ (taken w).*2.
Definition all_held (ws : list Session) : list stream := concat (held <$> ws).

Definition places (s : t) : list stream :=
  in_flight (drive s) ++ all_held (sessions s) ++ rejected s ++ (requests s).*1 ++ (handed s).*1 ++ dropped s.

Definition cnt (x : stream) (l : list stream) : nat := count_occ Nat.eq_dec l x.

Arguments cnt : simpl never.

Lemma cnt_app x l1 l2 : cnt x (l1 ++ l2) = (cnt x l1 + cnt x l2)%nat.
Proof. apply count_occ_app. Qed.

Lemma cnt_cons x y l : cnt x (y :: l) = (cnt x [y] + cnt x l)%nat.
Proof. apply (cnt_app x [y]). Qed.

Lemma cnt_nil x : cnt x [] = 0%nat.
Proof. done. Qed.

Lemma cnt_fst x (l : list (stream * bool)) r : cnt x (l ++ [r]).*1 = (cnt x l.*1 + cnt x [r.1])%nat.
Proof. by rewrite fmap_app, cnt_app. Qed.

Lemma all_held_app ws w : all_held (ws ++ [w]) = all_held ws ++ held w.
Proof. unfold all_held. rewrite fmap_app, concat_app. simpl. by rewrite app_nil_r. Qed.

Lemma cnt_insert x i w w' ws : ws !! i = Some w ->
  (cnt x (all_held (<[i := w']> ws)) + cnt x (held w) = cnt x (all_held ws) + cnt x (held w'))%nat.
Proof.
  revert i. unfold all_held. induction ws as [|v ws IH]; intros [|i]; csimpl; [done..| |].
  - intros [= ->]. rewrite !cnt_app. lia.
  - intros Hi. specialize (IH i Hi). rewrite !cnt_app. lia.
Qed.

Definition balanced (s : t) : Prop := forall x, cnt x (accepted s) = cnt x (places s).

(** ** Who receives what *)

(** Everything in the channels of a session was addressed to it. *)
Definition addressed (w : Session) : Prop :=
  Forall (fun p => p.1 = session_id w) (bidi w ++ uni w ++ taken w) /\ Forall (fun p => p.1 = session_id w) (datagram w).

(** The session number [i] exists and has the identifier [sid]. *)
Definition names (ws : list Session) (i : nat) (sid : stream) : Prop :=
  exists w, ws !! i = Some w /\ session_id w = sid.

Definition drive_names (ws : list Session) (d : Drive) : Prop :=
  match d with
  | SendingUni i sid _ | SendingDatagram i sid _ | SendingBidi i sid _ => names ws i sid
  | _ => True
  end.

#[local] Hint Extern 1 (drive_names _ _) => exact I : core.

Record inv (s : t) : Prop := {
  inv_balanced : balanced s;
  inv_map sid i : webtransport_session_map s !! sid = Some i -> names (sessions s) i sid;
  inv_drive : drive_names (sessions s) (drive s);
  inv_addressed w : w ∈ sessions s -> addressed w;
}.

Lemma names_insert ws i w w' j sid : ws !! i = Some w -> session_id w' = session_id w ->
  names ws j sid -> names (<[i := w']> ws) j sid.
Proof.
  intros Hi Hs (v & Hj & Hv). destruct (decide (i = j)) as [-> |Hne].
  - exists w'. rewrite list_lookup_insert_eq by (by eapply lookup_lt_Some). split; [done|]. congruence.
  - exists v. by rewrite list_lookup_insert_ne.
Qed.

Lemma names_app ws w j sid : names ws j sid -> names (ws ++ [w]) j sid.
Proof. intros (v & Hj & Hv). exists v. split; [|done]. by apply lookup_app_l_Some. Qed.

Lemma drive_names_insert ws i w w' d : ws !! i = Some w -> session_id w' = session_id w ->
  drive_names ws d -> drive_names (<[i := w']> ws) d.
Proof. intros. destruct d; simpl in *; eauto using names_insert. Qed.

(** The parts of the invariant that a change of one session keeps. *)
Lemma inv_update s i w w' s' : sessions s !! i = Some w -> inv s ->
  sessions s' = <[i := w']> (sessions s) -> session_id w' = session_id w -> addressed w' ->
  webtransport_session_map s' = webtransport_session_map s \/
    webtransport_session_map s' = <[session_id w := i]> (webtransport_session_map s) ->
  drive s' = drive s \/ drive s' = Polling ->
  (forall x, cnt x (accepted s') + cnt x (in_flight (drive s)) + cnt x (held w) + cnt x (rejected s) + cnt x (requests s).*1
       + cnt x (handed s).*1 + cnt x (dropped s)
     = cnt x (accepted s) + cnt x (in_flight (drive s')) + cnt x (held w') + cnt x (rejected s') + cnt x (requests s').*1
       + cnt x (handed s').*1 + cnt x (dropped s'))%nat -> inv s'.
Proof.
  intros Hi [Hb Hm Hd Ha] Hs Hid Hw' Hmap Hdr Hcnt. split.
  - intros x. specialize (Hb x). specialize (Hcnt x). unfold places in *. rewrite Hs. rewrite !cnt_app in *.
    pose proof (cnt_insert x i w w' (sessions s) Hi). lia.
  - intros sid j. rewrite Hs. destruct Hmap as [-> | ->]; [intros Hj; eapply names_insert; eauto|].
    rewrite lookup_insert_Some. intros [[<- <-]|[_ Hj]]; eapply names_insert; eauto. by exists w.
  - rewrite Hs. destruct Hdr as [-> | ->]; [|done]. by eapply drive_names_insert.
  - intros v. rewrite Hs. intros [j Hj]%list_elem_of_lookup.
    destruct (decide (i = j)) as [-> |Hne].
    + rewrite list_lookup_insert_eq in Hj by (by eapply lookup_lt_Some). by simplify_eq.
    + rewrite list_lookup_insert_ne in Hj by done. apply Ha. by eapply list_elem_of_lookup_2.
Qed.

(** The parts of the invariant when no session changes. *)
Lemma inv_same s s' : inv s -> sessions s' = sessions s ->
  (forall sid i, webtransport_session_map s' !! sid = Some i -> webtransport_session_map s !! sid = Some i) ->
  drive_names (sessions s) (drive s') ->
  (forall x, cnt x (accepted s') + cnt x (in_flight (drive s)) + cnt x (rejected s) + cnt x (requests s).*1
       + cnt x (handed s).*1 + cnt x (dropped s)
     = cnt x (accepted s) + cnt x (in_flight (drive s')) + cnt x (rejected s') + cnt x (requests s').*1
       + cnt x (handed s').*1 + cnt x (dropped s'))%nat -> inv s'.
Proof.
  intros [Hb Hm Hd Ha] Hs Hmap Hdr Hcnt. split; rewrite ?Hs; auto.
  intros x. specialize (Hb x). specialize (Hcnt x). unfold places in *. rewrite Hs. rewrite !cnt_app in *. lia.
Qed.

(** Closes the counting of what moved. *)
Ltac tally := simpl; rewrite ?cnt_nil; lia.

Lemma inv_return b s : inv s -> inv (return_ b s).
Proof. intros Hi. apply (inv_same s); simpl; auto. intros x. rewrite cnt_app. tally. Qed.

Lemma inv_housekeep s s' : housekeep s = Some s' -> inv s -> inv s'.
Proof.
  unfold housekeep. intros Hs Hi. destruct (drive s) eqn:Hd; try done.
  destruct (session_closes s) as [|sid cs]; simplify_eq.
  2: { apply (inv_same s); simpl; auto; rewrite ?Hd; auto. intros sid' i Hl%lookup_delete_Some. tauto. }
  destruct (webtransport_requests s) as [|[i|sid p] rs]; simplify_eq.
  2: { apply (inv_same s); simpl; auto; by rewrite ?Hd. }
  simpl in Hs. destruct (sessions s !! i) as [w|] eqn:Hw; [destruct (waiting w)|]; simplify_eq.
  2,3: apply (inv_same s); simpl; auto; by rewrite ?Hd.
  pose proof (inv_addressed s Hi w (list_elem_of_lookup_2 _ _ _ Hw)) as Hadd.
  eapply (inv_update s i w); simpl; auto; by rewrite ?Hd.
Qed.

Lemma inv_transport o s s' : accept_transport o s = Some s' -> inv s -> inv s'.
Proof.
  unfold accept_transport. intros Hs Hi. destruct (drive s) eqn:Hd; try done.
  destruct (session_closes s); [|done]. destruct (webtransport_requests s); [|done].
  destruct o as [st|sid st|sid p| |closed]; simpl in Hs; [| | |by simplify_eq; apply inv_return..].
  - simplify_eq. apply (inv_same s); simpl; auto. intros x. rewrite ?Hd, cnt_app. tally.
  - destruct (webtransport_session_map s !! sid) as [i|] eqn:Hm; simplify_eq; apply (inv_same s); simpl; auto;
      rewrite ?Hd; eauto using inv_map; intros x; rewrite ?Hd, !cnt_app; tally.
  - destruct (webtransport_session_map s !! sid) as [i|] eqn:Hm; simplify_eq; [|done].
    apply (inv_same s); simpl; auto; rewrite ?Hd; eauto using inv_map.
Qed.

Lemma inv_read_frame f s s' : read_frame f s = Some s' -> inv s -> inv s'.
Proof.
  unfold read_frame. intros Hs Hi. destruct (drive s) as [| | | |st| | |] eqn:Hd; try done.
  destruct f as [|sid| | |]; simplify_eq; [by apply inv_return| |by apply inv_return..|].
  - destruct (webtransport_session_map s !! sid) as [i|] eqn:Hm; simplify_eq; apply (inv_same s); simpl; auto;
      rewrite ?Hd; eauto using inv_map; intros x; rewrite ?Hd, ?cnt_app; tally.
  - apply (inv_same s); simpl; auto. intros x. by rewrite ?Hd.
Qed.

Lemma inv_resolve o s s' : resolve o s = Some s' -> inv s -> inv s'.
Proof.
  unfold resolve. intros Hs Hi. destruct (drive s) as [| | | | |st| |] eqn:Hd; try done.
  destruct o; simplify_eq; [|by apply inv_return]. apply (inv_same s); simpl; auto. intros x. by rewrite ?Hd.
Qed.

Lemma addressed_push (w : Session) sid st : addressed w -> session_id w = sid ->
  addressed (push_uni (sid, st) w) /\ addressed (push_bidi (sid, st) w).
Proof.
  intros [Hs Hd] <-. unfold addressed in *. simpl. rewrite !Forall_app in *. simpl.
  rewrite !Forall_singleton. simpl. tauto.
Qed.

Lemma inv_continue s s' : continue_send s = Some s' -> inv s -> inv s'.
Proof.
  unfold continue_send. intros Hs Hi. pose proof (inv_drive s Hi) as Hn.
  destruct (drive s) as [|i sid st|i sid p|i sid st| | |st c|] eqn:Hd; try done; simpl in Hn.
  1,2,3: destruct Hn as (w & Hw & Hid); rewrite Hw in Hs; simpl in Hs;
    pose proof (inv_addressed s Hi w (list_elem_of_lookup_2 _ _ _ Hw)) as Hadd.
  - destruct (alive w); [destruct (Nat.ltb _ _); [|done]|]; simplify_eq.
    + eapply (inv_update s i w); simpl; eauto; [by apply addressed_push|].
      intros x. rewrite ?Hd. unfold held. simpl. rewrite !fmap_app, !cnt_app. tally.
    + apply (inv_same s); simpl; auto. intros x. rewrite ?Hd, cnt_app. tally.
  - destruct (alive w); [destruct (Nat.ltb _ _); [|done]|]; simplify_eq.
    + eapply (inv_update s i w); simpl; eauto; [|by rewrite ?Hd].
      destruct Hadd as [Ha1 Ha2]. split; simpl; [done|]. by rewrite Forall_app, Forall_singleton.
    + apply (inv_same s); simpl; auto. by rewrite ?Hd.
  - destruct (alive w); [destruct (Nat.ltb _ _); [|done]|]; simplify_eq.
    + eapply (inv_update s i w); simpl; eauto; [by apply addressed_push|].
      intros x. rewrite ?Hd. unfold held. simpl. rewrite !fmap_app, !cnt_app. tally.
    + apply (inv_same s); simpl; auto. intros x. rewrite ?Hd, cnt_app. tally.
  - destruct (incoming_open s); [destruct (Nat.ltb _ _); [|done]|]; simplify_eq; [|by apply inv_return].
    apply (inv_same s); simpl; auto. intros x. rewrite ?Hd, fmap_app, cnt_app. tally.
Qed.

Lemma inv_incoming s s' : incoming_accept s = Some s' -> inv s -> inv s'.
Proof.
  unfold incoming_accept. intros Hs Hi. destruct (requests s) as [|r rs] eqn:Hr; simplify_eq.
  apply (inv_same s); simpl; auto using inv_drive. intros x. rewrite Hr, fmap_app, cnt_app. csimpl. rewrite (cnt_cons x r.1 rs.*1). tally.
Qed.

Lemma inv_connection s s' : connection_accept s = Some s' -> inv s -> inv s'.
Proof.
  unfold connection_accept. intros Hs Hi. destruct (requests s) as [|r rs] eqn:Hr; [by destruct (drive s)|].
  assert (s' = set_drive Polling (drop_streams (in_flight (drive s)) (hand r (set_requests rs s)))) as ->
    by (destruct (drive s); by simplify_eq).
  apply (inv_same s); simpl; auto. intros x. rewrite Hr, fmap_app, !cnt_app. csimpl. rewrite (cnt_cons x r.1 rs.*1). tally.
Qed.

Lemma inv_close s : inv s -> inv (close_incoming s).
Proof. intros Hi. apply (inv_same s); simpl; auto using inv_drive. intros x. rewrite cnt_app. tally. Qed.

Lemma inv_upgrade k s s' : begin_upgrade k s = Some s' -> inv s -> inv s'.
Proof.
  unfold begin_upgrade. intros Hs [Hb Hm Hd Ha]. destruct (handed s !! k) as [[st []]|]; try done.
  destruct (Nat.ltb _ _); simplify_eq. split; simpl.
  - intros x. specialize (Hb x). unfold places in *. simpl. rewrite all_held_app. rewrite !cnt_app in *. tally.
  - intros sid i Hi. by apply names_app, Hm.
  - destruct (drive s); simpl in *; auto using names_app.
  - intros w [Hw| ->%list_elem_of_singleton]%elem_of_app; [auto|]. split; constructor.
Qed.

(** A change of a session that keeps the streams it has. *)
Lemma inv_touch i w w' s s' : sessions s !! i = Some w -> inv s -> sessions s' = <[i := w']> (sessions s) ->
  session_id w' = session_id w -> bidi w' ++ uni w' ++ taken w' ≡ₚ bidi w ++ uni w ++ taken w ->
  (forall d, d ∈ datagram w' -> d ∈ datagram w) ->
  webtransport_session_map s' = webtransport_session_map s -> drive s' = drive s -> accepted s' = accepted s ->
  rejected s' = rejected s -> requests s' = requests s -> handed s' = handed s -> dropped s' = dropped s -> inv s'.
Proof.
  intros Hw Hi Hs Hid Hp Hdg Hm Hd Ha Hr Hq Hh Hdr.
  pose proof (inv_addressed s Hi w (list_elem_of_lookup_2 _ _ _ Hw)) as [Hadd1 Hadd2].
  apply (inv_update s i w w' s' Hw Hi Hs Hid); [|by left..|].
  - split; rewrite Hid; [by rewrite Hp|]. rewrite Forall_forall in *. auto.
  - intros x. rewrite ?Hd, Ha, Hr, Hq, Hh, Hdr.
    assert (held w' ≡ₚ held w) as Hheld by (unfold held; rewrite <-!fmap_app; by rewrite Hp).
    assert (cnt x (held w') = cnt x (held w)) by (by apply Permutation_count_occ). lia.
Qed.

Lemma wt_inv_step e s s' : step e s = Some s' -> inv s -> inv s'.
Proof.
  destruct e as [|o|f|o| | | | |k|i|i p|i|i|i|i]; simpl; intros Hs Hi;
    [by eapply inv_housekeep|by eapply inv_transport|by eapply inv_read_frame|by eapply inv_resolve|by eapply inv_continue
    |by eapply inv_incoming|by eapply inv_connection|simplify_eq; by apply inv_close|by eapply inv_upgrade|..];
    (unfold abandon, session_send_datagram, accept_bi, accept_uni, accept_datagram, drop_session in Hs;
     destruct (sessions s !! i) as [w|] eqn:Hw; [|done]; simpl in Hs).
  - destruct (waiting w); simplify_eq. eapply (inv_touch i w); try done; simpl; done.
  - destruct (Nat.ltb _ _); simplify_eq. apply (inv_same s); simpl; auto using inv_drive.
  - destruct (bidi w) as [|x xs] eqn:Hx; simplify_eq. eapply (inv_touch i w); simpl; try done; simpl; try done.
    rewrite Hx. simpl. by rewrite !app_assoc, <-Permutation_cons_append.
  - destruct (uni w) as [|x xs] eqn:Hx; simplify_eq. eapply (inv_touch i w); simpl; try done; simpl; try done.
    rewrite Hx. f_equiv. simpl. by rewrite !app_assoc, <-Permutation_cons_append.
  - destruct (datagram w) as [|x xs] eqn:Hx; simplify_eq. eapply (inv_touch i w); simpl; try done; simpl; try done.
    intros d Hd. rewrite Hx. by constructor.
  - destruct (alive w && negb (waiting w)); simplify_eq. eapply (inv_touch i w); try done; simpl; done.
Qed.

Lemma wt_inv_new : inv new.
Proof. split; simpl; try done. intros w Hw. by apply elem_of_nil in Hw. Qed.

Lemma inv_run es : forall s s', run es s = Some s' -> inv s -> inv s'.
Proof.
  induction es as [|e es IH]; intros s s'; simpl; [by intros [= <-]|].
  destruct (step e s) as [t|] eqn:E; [|done]. simpl. intros Hr Hi. by eapply IH, wt_inv_step.
Qed.

(** ** Dropped streams *)

(** Nothing was dropped, or the driver has returned. *)
Definition kept (s : t) : Prop := dropped s = [] \/ exists b, drive s = Returned b.

Definition safe_event (e : event) : bool :=
  match e with EConnectionAccept | ECloseIncoming => false | _ => true end.

Lemma kept_step e s s' : step e s = Some s' -> safe_event e = true -> kept s -> kept s'.
Proof.
  unfold kept. intros Hs He Hk.
  destruct e; simpl in *; try done; unfold housekeep, accept_transport, read_frame, resolve, continue_send, incoming_accept,
    begin_upgrade, abandon, session_send_datagram, accept_bi, accept_uni, accept_datagram, drop_session in Hs;
    repeat (case_match; simplify_eq/=; try done); simplify_option_eq; eauto;
    repeat (case_match; simplify_eq/=; try done); destruct Hk as [?|[? ?]]; simpl in *; eauto; congruence.
Qed.

Lemma kept_run es : forall s s', run es s = Some s' -> forallb safe_event es = true -> kept s -> kept s'.
Proof.
  induction es as [|e es IH]; intros s s'; simpl; [by intros [= <-]|].
  destruct (step e s) as [t|] eqn:E; [|done]. simpl. intros Hr [He Hes]%andb_true_iff Hk.
  by eapply IH, kept_step.
Qed.

End WebTransportLaws.

Module WebTransportProps.
Import WebTransport WebTransportLaws.


(** A CONNECT request on stream 0 becomes a session, which gets stream 7; the
    stream 9 names no session. *)
Definition sample_run : list event :=
  [ETransport (TRequest 0); EFrame AcceptOk; EResolve (Some true); EContinue; EIncomingAccept; EBeginUpgrade 0;
   EHousekeep; ETransport (TUni 0 7); EContinue; ETransport (TUni 4 9); EAcceptUni 0].


(** [Connection::accept] returns the first request while the driver waits for
    the first frame of the second, which is lost. *)
Example accept_drops_stream :
  option_map dropped (run [ETransport (TRequest 0); EFrame AcceptOk; EResolve (Some false); EContinue;
    ETransport (TRequest 4); EConnectionAccept] new) = Some [4%nat].
Proof. done. Qed.

(** A session that does not take its streams stops the driver, and with it all
    other sessions of the connection. *)
Example full_session_blocks_driver :
  exists s, run ([ETransport (TRequest 0); EFrame AcceptOk; EResolve (Some true); EContinue; EIncomingAccept;
    EBeginUpgrade 0; EHousekeep] ++ concat (replicate 16 [ETransport (TUni 0 7); EContinue]) ++ [ETransport (TUni 0 7)]) new
    = Some s /\ continue_send s = None /\ housekeep s = None /\ forall o, accept_transport o s = None.
Proof. eexists. split; [vm_compute; reflexivity|]. by split_and!. Qed.

End WebTransportProps.
