(* ===== verification/Metrics.v ===== *)
(** * The Prometheus exporter (crates/metrics/src/prometheus/mod.rs)

    The exporter collects the OpenTelemetry metrics and writes them with the
    encoder of prometheus-client. The encoder is a parameter that is not
    interpreted: the model is the sequence of what it is given (descriptors
    and samples with their labels). Strings are lists of Unicode scalar
    values. *)

From Stdlib Require Import Floats.SpecFloat Strings.String.
From stdpp Require Import base numbers option list.
From S2P Require Import Prelude F64.

Module Metrics.

(** A [str]: its characters. *)
Abbreviation text := (list Z).

Definition text_of (s : string) : text := b2z <$> str s.

(** ** [RawNumber] *)

(** An [f32] is a [spec_float] of precision 24; the conversion to [f64]
    rounds nothing. *)
Inductive RawNumber :=
| U64 (v : Z) | I64 (v : Z) | NF64 (v : spec_float)
| U32 (v : Z) | U16 (v : Z) | U8 (v : Z) | I32 (v : Z) | I16 (v : Z) | I8 (v : Z) | F32 (v : spec_float).

Definition f32_as_f64 (v : spec_float) : F64.t :=
  match v with
  | S754_finite s m e => binary_normalize 53 1024 (if s then Z.neg m else Z.pos m) e s
  | v => v
  end.

Definition as_f64 (n : RawNumber) : F64.t :=
  match n with
  | U64 v | I64 v | U32 v | U16 v | U8 v | I32 v | I16 v | I8 v => F64.of_int v
  | NF64 v => v
  | F32 v => f32_as_f64 v
  end.

(** What is given to the encoder of a gauge or of a counter. *)
Inductive Value := VI64 (v : Z) | VU64 (v : Z) | VU32 (v : Z) | VF64 (v : F64.t).

(** [EncodeGaugeValue::encode] *)
Definition gauge_value (n : RawNumber) : Value :=
  match n with
  | U64 v => VI64 (swrap 64 v)
  | I64 v => VI64 v
  | NF64 v => VF64 v
  | U32 v => VU32 v
  | U16 v | U8 v => VU32 v
  | I32 v | I16 v | I8 v => VI64 v
  | F32 v => VF64 (f32_as_f64 v)
  end.

(** [EncodeCounterValue::encode] *)
Definition counter_value (n : RawNumber) : Value :=
  match n with
  | U64 v => VU64 v
  | I64 v => VF64 (F64.of_int v)
  | NF64 v => VF64 v
  | U32 v | U16 v | U8 v => VU64 v
  | I32 v | I16 v | I8 v => VF64 (F64.of_int v)
  | F32 v => VF64 (f32_as_f64 v)
  end.

(** ** Labels *)

(** [char::is_alphanumeric], which is [is_ascii_alphanumeric] on ASCII. *)
Definition is_ascii_digit (c : Z) : bool := (48 <=? c) && (c <=? 57).
Definition is_ascii_alphanumeric (c : Z) : bool :=
  is_ascii_digit c || ((65 <=? c) && (c <=? 90)) || ((97 <=? c) && (c <=? 122)).

Class Unicode := {
  is_alphanumeric : Z -> bool;
  is_alphanumeric_ascii : forall c, c < 128 -> is_alphanumeric c = is_ascii_alphanumeric c;
}.

Section labels.
Context `{Unicode}.

Definition underscore : Z := 95.
Definition colon : Z := 58.

(** The condition of the search, on a character that is not a leading digit. *)
Definition invalid (c : Z) : bool := negb (is_alphanumeric c) && negb (c =? underscore) && negb (c =? colon).

(** The first invalid character. *)
Fixpoint find_invalid (s : text) : option nat :=
  match s with
  | [] => None
  | c :: s => if invalid c then Some 0%nat else S <$> find_invalid s
  end.

(** The replacement of the characters from there on. *)
Definition replace (c : Z) : Z :=
  if is_ascii_alphanumeric c || (c =? underscore) || (c =? colon) then c else underscore.

Definition escape_key (s : text) : text :=
  let '(prefix, found) :=
    match s with
    | c :: _ => if is_ascii_digit c then ([underscore], Some 0%nat) else ([], find_invalid s)
    | [] => ([], None)
    end in
  match found with
  | Some replace_idx => prefix ++ take replace_idx s ++ (replace <$> drop replace_idx s)
  | None => s
  end.

Definition KeyValue : Type := text * text.

(** [InstrumentationScope] *)
Record Scope := mkScope { scope_name : text; version : option text; schema_url : option text; scope_attributes : list KeyValue }.

Definition scope_to_iter (scope : Scope) : list KeyValue :=
  omap (fun '(key, value) => pair key <$> value)
    ([(text_of "otel.scope.name", Some (scope_name scope)); (text_of "otel.scope.version", version scope);
      (text_of "otel.scope.schema_url", schema_url scope)]
     ++ ((fun kv => (kv.1, Some kv.2)) <$> scope_attributes scope)).

Record KeyValueEncoder := mkEncoder {
  resource : option (list KeyValue);
  scope : option Scope;
  attrs : option (list KeyValue);
  prometheus_full_utf8 : bool;
}.

Definition encoder_new (full_utf8 : bool) : KeyValueEncoder := mkEncoder None None None full_utf8.
Definition with_resource (r : option (list KeyValue)) (e : KeyValueEncoder) : KeyValueEncoder :=
  mkEncoder r (scope e) (attrs e) (prometheus_full_utf8 e).
Definition with_scope (s : option Scope) (e : KeyValueEncoder) : KeyValueEncoder :=
  mkEncoder (resource e) s (attrs e) (prometheus_full_utf8 e).
Definition with_attrs (a : option (list KeyValue)) (e : KeyValueEncoder) : KeyValueEncoder :=
  mkEncoder (resource e) (scope e) a (prometheus_full_utf8 e).

(** [write_kv] *)
Definition write_kv (full_utf8 : bool) (kv : KeyValue) : KeyValue :=
  (if full_utf8 then kv.1 else escape_key kv.1, kv.2).

(** [EncodeLabelSet::encode]: the labels that are written, in order. *)
Definition labels (e : KeyValueEncoder) : list KeyValue :=
  write_kv (prometheus_full_utf8 e) <$>
    (default [] (resource e) ++ default [] (scope_to_iter <$> scope e) ++ default [] (attrs e)).

(** ** Metrics *)

Record DataPoint := mkPoint { attributes : list KeyValue; value : RawNumber }.
Record HistogramDataPoint := mkHistogramPoint {
  h_attributes : list KeyValue; count : Z; bounds : list F64.t; bucket_counts : list Z; sum : RawNumber }.

(** [KnownMetricT] for one of the number types. *)
Inductive KnownMetric :=
| Gauge (data_points : list DataPoint)
| Sum (data_points : list DataPoint) (is_monotonic : bool)
| Histogram (data_points : list HistogramDataPoint).

Inductive MetricType := TInfo | TGauge | TCounter | THistogram.

Definition metric_type (m : KnownMetric) : MetricType :=
  match m with
  | Gauge _ => TGauge
  | Sum _ is_monotonic => if is_monotonic then TCounter else TGauge
  | Histogram _ => THistogram
  end.

(** What the encoder of prometheus-client is given. *)
Inductive Encoded :=
| Descriptor (name help : text) (unit_ : option text) (type : MetricType)
| Info (ls : list KeyValue)
| GaugeSample (ls : list KeyValue) (v : Value)
| CounterSample (ls : list KeyValue) (v : Value)
| HistogramSample (ls : list KeyValue) (sum : F64.t) (count : Z) (buckets : list (F64.t * Z)).

(** [KnownMetricT::encode] *)
Definition metric_encode (m : KnownMetric) (e : KeyValueEncoder) : list Encoded :=
  match m with
  | Gauge points =>
      (fun p => GaugeSample (labels (with_attrs (Some (attributes p)) e)) (gauge_value (value p))) <$> points
  | Sum points is_monotonic =>
      (fun p => let ls := labels (with_attrs (Some (attributes p)) e) in
        if is_monotonic : bool then CounterSample ls (counter_value (value p)) else GaugeSample ls (gauge_value (value p)))
      <$> points
  | Histogram points =>
      (fun p => HistogramSample (labels (with_attrs (Some (h_attributes p)) e)) (as_f64 (sum p)) (count p)
        (zip (bounds p) (bucket_counts p))) <$> points
  end.

(** A metric of a scope; its data may be of a type that is not known. *)
Record Metric := mkMetric { name : text; description : text; unit_ : text; data : option KnownMetric }.
Record ScopeMetrics := mkScopeMetrics { metrics_scope : Scope; metrics : list Metric }.
Record ResourceMetrics := mkResourceMetrics { rm_resource : list KeyValue; scope_metrics : list ScopeMetrics }.

Definition encode_metric (e : KeyValueEncoder) (m : Metric) : list Encoded :=
  match data m with
  | None => []
  | Some known =>
      Descriptor (name m) (description m) (if decide (unit_ m = []) then None else Some (unit_ m)) (metric_type known)
      :: metric_encode known e
  end.

(** [Collector::encode]; [None] is a failure of [reader.collect]. *)
Definition encode (full_utf8 : bool) (collected : option ResourceMetrics) : option (list Encoded) :=
  rm ← collected;
  let e := encoder_new full_utf8 in
  Some ([Descriptor (text_of "target") (text_of "Information about the target") None TInfo;
         Info (labels (with_resource (Some (rm_resource rm)) e))]
        ++ concat ((fun sm => concat (encode_metric (with_scope (Some (metrics_scope sm)) e) <$> metrics sm)) <$> scope_metrics rm)).

(** ** Laws *)

(** A name of the exposition format: letters, digits, [_] and [:], and no
    digit first. *)
Definition name_char (c : Z) : bool := is_ascii_alphanumeric c || (c =? underscore) || (c =? colon).
Definition valid_name (s : text) : Prop :=
  match s with [] => False | c :: _ => is_ascii_digit c = false /\ Forall (fun c => name_char c = true) s end.

Lemma replace_char c : name_char (replace c) = true.
Proof. unfold replace. destruct (_ || _) eqn:E; [exact E|reflexivity]. Qed.

Lemma replace_id c : name_char c = true -> replace c = c.
Proof. unfold replace. intros Hc. fold (name_char c). by rewrite Hc. Qed.

Lemma invalid_ascii c : c < 128 -> invalid c = negb (name_char c).
Proof.
  intros Hc. unfold invalid, name_char. rewrite is_alphanumeric_ascii by done. by rewrite !negb_orb.
Qed.

Lemma find_invalid_None s : find_invalid s = None <-> Forall (fun c => invalid c = false) s.
Proof.
  induction s as [|c s IH]; simpl; [done|]. rewrite Forall_cons_iff. destruct (invalid c).
  - split; [done|]. by intros [? _].
  - rewrite <-IH. destruct (find_invalid s); simpl; split; try done. by intros [_ ?].
Qed.

Lemma find_invalid_Some s k : find_invalid s = Some k -> Forall (fun c => invalid c = false) (take k s).
Proof.
  revert k. induction s as [|c s IH]; intros k; simpl; [done|]. destruct (invalid c) eqn:E; [by intros [= <-]|].
  destruct (find_invalid s) as [j|] eqn:Ej; simpl; [|done]. intros [= <-]. simpl. auto.
Qed.

Lemma name_chars s : Forall (fun c => c < 128) s -> Forall (fun c => invalid c = false) s -> Forall (fun c => name_char c = true) s.
Proof.
  intros Ha Hi. rewrite Forall_forall in *. intros c Hc. specialize (Hi c Hc). rewrite invalid_ascii in Hi by auto.
  by apply negb_false_iff in Hi.
Qed.

(** Escaping an ASCII key gives a valid name. *)
Lemma escape_key_ascii s : s <> [] -> Forall (fun c => c < 128) s -> valid_name (escape_key s).
Proof.
  intros Hne Ha. destruct s as [|c s]; [done|]. unfold escape_key.
  destruct (is_ascii_digit c) eqn:Hd.
  { simpl. split; [done|]. repeat constructor; [apply replace_char|]. apply Forall_fmap, Forall_true. intros; apply replace_char. }
  assert (Forall (fun c => name_char c = true) (replace <$> (c :: s))) as Hr
    by (apply Forall_fmap, Forall_true; intros; apply replace_char).
  destruct (find_invalid (c :: s)) as [[|k]|] eqn:Hf.
  - simpl in *. split; [|done]. unfold replace. destruct (is_ascii_alphanumeric c) eqn:E; simpl; [done|].
    destruct (Z.eqb_spec c underscore); [by subst|]. destruct (Z.eqb_spec c colon); by subst.
  - simpl. split; [done|]. apply find_invalid_Some in Hf. apply Forall_cons_iff in Ha as [Hc Ha]. simpl in Hf.
    apply Forall_cons_iff in Hf as [Hic Hf]. constructor.
    + rewrite invalid_ascii in Hic by done. by apply negb_false_iff in Hic.
    + apply Forall_app. split; [apply name_chars; [by apply Forall_take|done]|].
      apply Forall_fmap, Forall_true. intros; apply replace_char.
  - split; [done|]. apply name_chars; [done|]. by apply find_invalid_None.
Qed.

(** A valid name is not changed. *)
Lemma escape_key_valid s : valid_name s -> escape_key s = s.
Proof.
  destruct s as [|c s]; [done|]. intros [Hd Hs]. unfold escape_key. rewrite Hd.
  assert (find_invalid (c :: s) = None) as ->; [|done]. apply find_invalid_None.
  eapply Forall_impl; [exact Hs|]. intros x Hx. unfold invalid, name_char in *. simpl in Hx.
  destruct (is_ascii_alphanumeric x) eqn:E; simpl in Hx.
  - assert (x < 128). { unfold is_ascii_alphanumeric, is_ascii_digit in E. lia. }
    by rewrite is_alphanumeric_ascii, E.
  - destruct (x =? underscore), (x =? colon); try done; by rewrite ?andb_false_r.
Qed.

(** A gauge keeps the value of every number below [2^63], and shows larger
    ones as negative. *)
Lemma gauge_value_u64 v : fits 64 v -> gauge_value (U64 v) = VI64 (if v <? 2 ^ 63 then v else v - 2 ^ 64).
Proof. unfold fits. intros Hv. simpl. unfold swrap. by rewrite Z.mod_small by lia. Qed.

(** The labels of an encoded item. *)
Definition labels_of (x : Encoded) : list KeyValue :=
  match x with
  | Descriptor _ _ _ _ => []
  | Info ls | GaugeSample ls _ | CounterSample ls _ | HistogramSample ls _ _ _ => ls
  end.

(** The keys the application has given. *)
Definition metric_keys (m : Metric) : list text :=
  match data m with
  | None => []
  | Some (Gauge ps) | Some (Sum ps _) => (concat (attributes <$> ps)).*1
  | Some (Histogram ps) => (concat (h_attributes <$> ps)).*1
  end.

Definition given_keys (rm : ResourceMetrics) : list text :=
  (rm_resource rm).*1
  ++ concat ((fun sm => (scope_attributes (metrics_scope sm)).*1 ++ concat (metric_keys <$> metrics sm)) <$> scope_metrics rm).

(** A non-empty ASCII key. *)
Definition ascii_key (k : text) : Prop := k <> [] /\ Forall (fun c => c < 128) k.

Lemma scope_keys sc k v : (k, v) ∈ scope_to_iter sc -> (forall k, k ∈ (scope_attributes sc).*1 -> ascii_key k) -> ascii_key k.
Proof.
  unfold scope_to_iter. intros ((k' & v') & Hin & Hv)%list_elem_of_omap Ha.
  destruct v' as [v'|]; simpl in Hv; [|done]. injection Hv as -> ->.
  apply elem_of_app in Hin as [Hin|Hin].
  - assert (Forall (fun p => ascii_key p.1) [(text_of "otel.scope.name", Some (scope_name sc));
      (text_of "otel.scope.version", version sc); (text_of "otel.scope.schema_url", schema_url sc)]) as Hall.
    { repeat constructor; done. }
    rewrite Forall_forall in Hall. by apply (Hall _ Hin).
  - apply list_elem_of_fmap in Hin as ([k2 v2] & [= -> ->] & Hin). apply Ha. apply list_elem_of_fmap. by exists (k2, v2).
Qed.

Lemma labels_valid e kv : prometheus_full_utf8 e = false ->
  (forall k, k ∈ (default [] (resource e)).*1 -> ascii_key k) ->
  (forall sc k, scope e = Some sc -> k ∈ (scope_attributes sc).*1 -> ascii_key k) ->
  (forall k, k ∈ (default [] (attrs e)).*1 -> ascii_key k) ->
  kv ∈ labels e -> valid_name kv.1.
Proof.
  intros Hf Hr Hs Ha (p & -> & Hin)%list_elem_of_fmap. unfold write_kv. rewrite Hf. simpl.
  assert (ascii_key p.1) as [Hne Has]; [|by apply escape_key_ascii].
  apply elem_of_app in Hin as [Hin|[Hin|Hin]%elem_of_app].
  - apply Hr, list_elem_of_fmap. by exists p.
  - destruct (scope e) as [sc|]; simpl in Hin; [|by apply elem_of_nil in Hin].
    destruct p as [k v]. by apply (scope_keys sc k v); [|intros; eapply Hs].
  - apply Ha, list_elem_of_fmap. by exists p.
Qed.

Lemma metric_labels_valid e m x kv : prometheus_full_utf8 e = false -> resource e = None ->
  (forall sc k, scope e = Some sc -> k ∈ (scope_attributes sc).*1 -> ascii_key k) ->
  (forall k, k ∈ metric_keys m -> ascii_key k) ->
  x ∈ encode_metric e m -> kv ∈ labels_of x -> valid_name kv.1.
Proof.
  intros Hf Hr Hs Hm Hx Hkv. unfold encode_metric, metric_keys in *. destruct (data m) as [known|]; [|by apply elem_of_nil in Hx].
  apply elem_of_cons in Hx as [-> |Hx]; [by apply elem_of_nil in Hkv|].
  assert (forall a, (forall k, k ∈ a.*1 -> ascii_key k) -> kv ∈ labels (with_attrs (Some a) e) -> valid_name kv.1) as Hl.
  { intros a Ha. apply labels_valid; simpl; [done|by rewrite Hr; intros ? ?%elem_of_nil|done|done]. }
  assert (forall (a : list KeyValue) l k, a ∈ l -> k ∈ a.*1 -> k ∈ (concat l).*1) as Hc.
  { intros a l k Ha ([k' v] & -> & Hk)%list_elem_of_fmap. apply list_elem_of_fmap. exists (k', v). split; [done|].
    apply list_elem_of_In, in_concat. exists a. split; by apply list_elem_of_In. }
  destruct known as [ps|ps mono|ps]; apply list_elem_of_fmap in Hx as (p & -> & Hp).
  - apply (Hl (attributes p)); [|done]. intros k Hk. apply Hm. eapply Hc; [|exact Hk]. apply list_elem_of_fmap. eauto.
  - apply (Hl (attributes p)); [|by destruct mono]. intros k Hk. apply Hm. eapply Hc; [|exact Hk]. apply list_elem_of_fmap. eauto.
  - apply (Hl (h_attributes p)); [|done]. intros k Hk. apply Hm. eapply Hc; [|exact Hk]. apply list_elem_of_fmap. eauto.
Qed.

End labels.
End Metrics.

Module MetricsProps.
Import Metrics.


(** The alphanumeric characters of Latin-1. *)
#[export] Instance latin1 : Unicode.
Proof.
  refine {| is_alphanumeric c := is_ascii_alphanumeric c || ((192 <=? c) && (c <=? 255)) |}.
  intros c Hc. rewrite (proj2 (Z.leb_gt 192 c)) by lia. by rewrite orb_false_r.
Defined.

Definition sample : ResourceMetrics :=
  mkResourceMetrics [(text_of "service.name", text_of "x")]
    [mkScopeMetrics (mkScope (text_of "s") None None [])
      [mkMetric (text_of "requests") [] [] (Some (Gauge [mkPoint [(text_of "2xx", text_of "y")] (U64 5)]))]].


(** A letter that is not ASCII is kept when no other character in front of it
    is invalid, and replaced otherwise. *)
Example escape_non_ascii : escape_key [233] = [233] /\ escape_key [45; 233] = [95; 95].
Proof. done. Qed.

End MetricsProps.
