(* ===== verification/Signal.v ===== *)
(** * Signal handling (crates/signal/src)

    [SignalHandler] (lib.rs) listens to several signals; [SignalSvc]
    (bootstrap.rs) turns them into the shutdown of the process. The signal
    streams of tokio are parameters by their documented behaviour: a stream
    is ready when its signal was raised since the last time it was received,
    and signals raised in between coalesce. *)

From stdpp Require Import base numbers option sets list.
From S2P Require Import Prelude.

Module Signal.

(** A [SignalKind] is a number; with it, whether its stream is ready. *)
Record SignalHandler := mkHandler { signals : list (Z * bool) }.

Definition new : SignalHandler := mkHandler [].

(** [with_signal], [add_signal] *)
Definition with_signal (kind : Z) (h : SignalHandler) : SignalHandler :=
  if existsb (fun s => s.1 =? kind) (signals h) then h else mkHandler (signals h ++ [(kind, false)]).

Definition with_signals (kinds : list Z) : SignalHandler := foldl (fun h kind => with_signal kind h) new kinds.

(** The process receives a signal. *)
Definition raise (kind : Z) (h : SignalHandler) : SignalHandler :=
  mkHandler ((fun s => if s.1 =? kind then (s.1, true) else s) <$> signals h).

Fixpoint poll_list (ss : list (Z * bool)) : option Z * list (Z * bool) :=
  match ss with
  | [] => (None, [])
  | (kind, ready) :: ss =>
      if ready : bool then (Some kind, (kind, false) :: ss)
      else let '(r, ss) := poll_list ss in (r, (kind, ready) :: ss)
  end.

(** [poll_recv]; [None] is [Poll::Pending]. *)
Definition poll_recv (h : SignalHandler) : option Z * SignalHandler :=
  let '(r, ss) := poll_list (signals h) in (r, mkHandler ss).

(** ** [SignalSvc::run] *)

(** Where the service is: waiting for the first signal or the context, in
    [on_shutdown], waiting for the end, or returned. *)
Inductive Error := ShutdownFailed | Forced (signal : option Z).
Inductive Stage := Waiting | ShuttingDown | Draining (deadline : option Z) | Finished (r : res Error unit).

Record Service := mkService { handler : SignalHandler; stage : Stage; context_held : bool }.

(** [enabled] *)
Definition enabled (kinds : list Z) : bool := negb (bool_decide (kinds = [])).

Definition start (kinds : list Z) : Service := mkService (with_signals kinds) Waiting true.

(** [SignalConfig::on_force_shutdown], unless it is overridden. *)
Definition on_force_shutdown (signal : option Z) : res Error unit := Err (Forced signal).

Section service.
Context (on_force : option Z -> res Error unit).

(** One poll of the service at time [now]: is the context done, did
    [on_shutdown] succeed, is the global handler shut down. The branches of
    the [select!] that are ready are tried in the order [order] gives. *)
Inductive Branch := OnSignal | OnShutdown | OnTimeout.

Definition try_branch (now : Z) (global_shut : bool) (deadline : option Z) (h : SignalHandler) (b : Branch) :
    option (res Error unit) * SignalHandler :=
  match b with
  | OnSignal => match poll_recv h with (Some kind, h) => (Some (on_force (Some kind)), h) | (None, h) => (None, h) end
  | OnShutdown => (if global_shut then Some (Ok tt) else None, h)
  | OnTimeout => (match deadline with Some d => if d <=? now then Some (on_force None) else None | None => None end, h)
  end.

Fixpoint select (now : Z) (global_shut : bool) (deadline : option Z) (order : list Branch) (h : SignalHandler) :
    option (res Error unit) * SignalHandler :=
  match order with
  | [] => (None, h)
  | b :: order =>
      match try_branch now global_shut deadline h b with
      | (Some r, h) => (Some r, h)
      | (None, h) => select now global_shut deadline order h
      end
  end.

Definition poll (timeout : option Z) (now : Z) (context_done on_shutdown_ok global_shut : bool) (order : list Branch)
    (s : Service) : Service :=
  match stage s with
  | Waiting =>
      match poll_recv (handler s) with
      | (Some _, h) => mkService h ShuttingDown (context_held s)
      | (None, h) => mkService h (if context_done then ShuttingDown else Waiting) (context_held s)
      end
  | ShuttingDown =>
      if on_shutdown_ok then mkService (handler s) (Draining ((fun t => now + t) <$> timeout)) false
      else mkService (handler s) (Finished (Err ShutdownFailed)) false
  | Draining deadline =>
      match select now global_shut deadline order (handler s) with
      | (Some r, h) => mkService h (Finished r) (context_held s)
      | (None, h) => mkService h (Draining deadline) (context_held s)
      end
  | Finished _ => s
  end.

End service.

(** ** Laws *)

Definition kinds (h : SignalHandler) : list Z := (signals h).*1.

Lemma with_signal_kinds kind h : NoDup (kinds h) ->
  NoDup (kinds (with_signal kind h)) /\ forall k, k ∈ kinds (with_signal kind h) <-> k = kind \/ k ∈ kinds h.
Proof.
  intros Hnd. unfold with_signal, kinds in *.
  assert (existsb (fun s => s.1 =? kind) (signals h) = true <-> kind ∈ (signals h).*1) as He.
  { rewrite existsb_exists, list_elem_of_fmap. split.
    - intros (s & Hs & Hk%Z.eqb_eq). exists s. split; [done|]. by apply list_elem_of_In.
    - intros (s & -> & Hs). exists s. split; [by apply list_elem_of_In|]. apply Z.eqb_refl. }
  destruct (existsb _ _).
  - assert (kind ∈ (signals h).*1) by by apply He. split; [done|]. set_solver.
  - assert (kind ∉ (signals h).*1) by (intros ?%He; done). simpl. rewrite fmap_app. split.
    + apply NoDup_app. split_and!; [done|set_solver|apply NoDup_singleton].
    + set_solver.
Qed.

(** A handler listens once to each of its signals. *)
Lemma with_signals_kinds ks : NoDup (kinds (with_signals ks)) /\ forall k, k ∈ kinds (with_signals ks) <-> k ∈ ks.
Proof.
  unfold with_signals. assert (forall h, NoDup (kinds h) ->
    NoDup (kinds (foldl (fun h kind => with_signal kind h) h ks))
    /\ forall k, k ∈ kinds (foldl (fun h kind => with_signal kind h) h ks) <-> k ∈ kinds h \/ k ∈ ks) as H.
  { induction ks as [|x ks IH]; intros h Hh; simpl; [set_solver|].
    destruct (with_signal_kinds x h Hh) as [Hn Hk]. destruct (IH _ Hn) as [Hn' Hk']. split; [done|].
    intros k. rewrite Hk', Hk. set_solver. }
  destruct (H new) as [Hn Hk]; [constructor|]. split; [done|]. intros k. rewrite Hk. set_solver.
Qed.

(** A poll returns a signal that was raised, and only that one is consumed. *)
Lemma poll_list_spec ss :
  match poll_list ss with
  | (Some kind, ss') => exists l1 l2, ss = l1 ++ (kind, true) :: l2 /\ ss' = l1 ++ (kind, false) :: l2
      /\ Forall (fun s => s.2 = false) l1
  | (None, ss') => ss' = ss /\ Forall (fun s => s.2 = false) ss
  end.
Proof.
  induction ss as [|[kind []] ss IH]; simpl; [by auto|by exists [], ss|].
  destruct (poll_list ss) as [[k|] ss'].
  - destruct IH as (l1 & l2 & -> & -> & Hl). exists ((kind, false) :: l1), l2. by split_and!; [..|constructor].
  - destruct IH as [-> Hl]. split; [done|]. by constructor.
Qed.

(** A raised signal is received: by the next poll, or a later one. *)
Lemma raise_received kind h : kind ∈ kinds h -> exists k h', poll_recv (raise kind h) = (Some k, h').
Proof.
  intros (s & -> & Hs)%list_elem_of_fmap. unfold poll_recv.
  pose proof (poll_list_spec (signals (raise s.1 h))) as Hp. destruct (poll_list _) as [[k|] ss']; [by eauto|].
  destruct Hp as [_ Hall]. exfalso. rewrite Forall_forall in Hall. unfold raise in Hall. simpl in Hall.
  specialize (Hall (s.1, true)). simpl in Hall. discriminate Hall. apply list_elem_of_fmap. exists s.
  by rewrite Z.eqb_refl.
Qed.

(** Once the service drains and its time is over, the next poll ends it,
    whatever the order of the branches. *)
Lemma drain_ends on_force timeout now done ok_ shut order s d : stage s = Draining (Some d) -> d <= now -> OnTimeout ∈ order ->
  exists r, stage (poll on_force timeout now done ok_ shut order s) = Finished r.
Proof.
  intros Hs Hd Ho. unfold poll. rewrite Hs.
  assert (forall h, exists r h', select on_force now shut (Some d) order h = (Some r, h')) as Hsel.
  { induction order as [|b order IH]; intros h; [by apply elem_of_nil in Ho|]. simpl.
    destruct (try_branch on_force now shut (Some d) h b) as [[r|] h'] eqn:E; [by eauto|].
    apply IH. apply elem_of_cons in Ho as [<-|]; [|done]. simpl in E. by rewrite (proj2 (Z.leb_le _ _)) in E by lia. }
  destruct (Hsel (handler s)) as (r & h' & ->). by exists r.
Qed.

End Signal.
