(* ===== verification/HttpError.v ===== *)
(** * Errors of the HTTP server (crates/http/src/error.rs)

    An [Error] has a kind, a stack of contexts, a scope and a severity, which
    says whether it is worth reporting. Errors of the libraries arrive as
    trait objects and are sorted by their type; the severity of a wrapper is
    that of the first error on its chain of sources whose type decides it.
    What a library's error carries (its text, its own source) is part of the
    value; call sites and backtraces are left out. *)

From stdpp Require Import base list numbers option strings.
From S2P Require Import Prelude.

Module HttpError.

Inductive ErrorSeverity := SUnknown | SError | Warning | Info | Debug.
Inductive ErrorScope := Protocol | Connection | Request | Response | ScUnknown.
#[global] Instance ErrorScope_eq_dec : EqDecision ErrorScope.
Proof. solve_decision. Defined.

(** What the code looks at in the errors of h3, quinn and std. *)
Inductive H3Code := H3_NO_ERROR | H3_REQUEST_CANCELLED | H3_REQUEST_INCOMPLETE | OtherCode (code : Z).
Inductive H3Kind := Application (code : H3Code) | OtherH3.
Inductive TransportErrorCode := NO_ERROR | FLOW_CONTROL_ERROR | STREAM_LIMIT_ERROR | STREAM_STATE_ERROR
  | OtherTransport (code : Z).
Inductive ConnectionError := CidsExhausted | TimedOut | ConnectionClosed | Reset | VersionMismatch
  | TransportError (code : TransportErrorCode) | ApplicationClosed | LocallyClosed.
Inductive IoKind := IoTimedOut | ConnectionReset | ConnectionAborted | UnexpectedEof | BrokenPipe | OtherIo.

(** An error of a library: what it says of itself, its text and its source. *)
Record foreign (D K : Type) := mkForeign { what : K; text : string; src : option D }.
Arguments mkForeign {D K}.
Arguments what {D K}.
Arguments text {D K}.
Arguments src {D K}.

(** [ErrorInner] *)
Record ErrorInner (K : Type) := mkError {
  kind : option K;
  context : list string;
  severity : ErrorSeverity;
  scope : ErrorScope;
}.
Arguments mkError {K}.
Arguments kind {K}.
Arguments context {K}.
Arguments severity {K}.
Arguments scope {K}.

(** [ErrorKind], and [dyn std::error::Error] by the type of the value. *)
Inductive ErrorKind : Type :=
| Http (e : foreign dyn unit)
| H3 (e : foreign dyn H3Kind)
| Hyper (incomplete_message : foreign dyn bool)
| Closed
| Unknown (e : dyn)
| Axum (e : foreign dyn unit)
| QuinnConnection (e : foreign dyn ConnectionError)
| Io (e : foreign dyn IoKind)
| Timeout
| Configuration
| BadRequest
with dyn : Type :=
| AnError (e : ErrorInner ErrorKind)
| AKind (k : ErrorKind)
| AnHttp (e : foreign dyn unit)
| AnH3 (e : foreign dyn H3Kind)
| AHyper (e : foreign dyn bool)
| AQuinn (e : foreign dyn ConnectionError)
| AnIo (e : foreign dyn IoKind)
| AnAxum (e : foreign dyn unit)
| Elapsed
| Other (e : foreign dyn unit).

Abbreviation Error := (ErrorInner ErrorKind).

(** [std::error::Error::source]; a [#[error(transparent)]] kind has the source
    of the error it holds. *)
Fixpoint source (d : dyn) : option dyn :=
  match d with
  | AnError e => AKind <$> kind e
  | AKind k => kind_source k
  | AnHttp e | AnAxum e | Other e => src e
  | AnH3 e => src e
  | AHyper e => src e
  | AQuinn e => src e
  | AnIo e => src e
  | Elapsed => None
  end
with kind_source (k : ErrorKind) : option dyn :=
  match k with
  | Http e => Some (AnHttp e)
  | H3 e => Some (AnH3 e)
  | Hyper e => Some (AHyper e)
  | Unknown d => source d
  | Axum e => Some (AnAxum e)
  | QuinnConnection e => Some (AQuinn e)
  | Io e => Some (AnIo e)
  | Closed | Timeout | Configuration | BadRequest => None
  end.

(** ** Severities ([ErrorKindExt::severity]) *)

Definition transport_severity (c : TransportErrorCode) : ErrorSeverity :=
  match c with
  | NO_ERROR | FLOW_CONTROL_ERROR | STREAM_LIMIT_ERROR | STREAM_STATE_ERROR => Debug
  | OtherTransport _ => SError
  end.

Definition quinn_severity (c : ConnectionError) : ErrorSeverity :=
  match c with
  | CidsExhausted => SError
  | TransportError code => transport_severity code
  | TimedOut | ConnectionClosed | Reset | VersionMismatch | ApplicationClosed | LocallyClosed => Debug
  end.

Definition io_severity (k : IoKind) : ErrorSeverity :=
  match k with
  | IoTimedOut | ConnectionReset | ConnectionAborted | UnexpectedEof | BrokenPipe => Debug
  | OtherIo => SError
  end.

Section find.
Variable find : dyn -> option ErrorSeverity.

Definition h3_severity (e : foreign dyn H3Kind) : ErrorSeverity :=
  match what e with
  | Application (H3_NO_ERROR | H3_REQUEST_CANCELLED | H3_REQUEST_INCOMPLETE) => Debug
  | Application (OtherCode _) => SError
  | OtherH3 => default SError (src e ≫= find)
  end.

Definition hyper_severity (e : foreign dyn bool) : ErrorSeverity :=
  if what e then Debug else default SError (src e ≫= find).

(** One round of the loop of [find_source]: the severity, if the type of the
    error is one of those it knows. *)
Definition known_severity (d : dyn) : option ErrorSeverity :=
  match d with
  | AnError e => Some (severity e)
  | AnHttp _ => Some Debug
  | AnH3 e => Some (h3_severity e)
  | AHyper e => Some (hyper_severity e)
  | AQuinn e => Some (quinn_severity (what e))
  | AnIo e => Some (io_severity (what e))
  | AnAxum _ => Some SError
  | Elapsed => Some Debug
  | AKind _ | Other _ => None
  end.
End find.

Fixpoint find_loop (fuel : nat) (error : dyn) : option ErrorSeverity :=
  match fuel with
  | O => None
  | S fuel =>
      match known_severity (find_loop fuel) error with
      | Some s => Some s
      | None => source error ≫= find_loop fuel
      end
  end.

(** The length of the longest chain of sources below an error. *)
Fixpoint depth (d : dyn) : nat :=
  match d with
  | AnError e => S (match kind e with Some k => S (kind_depth k) | None => O end)
  | AKind k => S (kind_depth k)
  | AnHttp e | AnAxum e | Other e => S (match src e with Some d => depth d | None => O end)
  | AnH3 e => S (match src e with Some d => depth d | None => O end)
  | AHyper e => S (match src e with Some d => depth d | None => O end)
  | AQuinn e => S (match src e with Some d => depth d | None => O end)
  | AnIo e => S (match src e with Some d => depth d | None => O end)
  | Elapsed => 1
  end
with kind_depth (k : ErrorKind) : nat :=
  match k with
  | Http e | Axum e => S (match src e with Some d => depth d | None => O end)
  | H3 e => S (match src e with Some d => depth d | None => O end)
  | Hyper e => S (match src e with Some d => depth d | None => O end)
  | Unknown d => depth d
  | QuinnConnection e => S (match src e with Some d => depth d | None => O end)
  | Io e => S (match src e with Some d => depth d | None => O end)
  | Closed | Timeout | Configuration | BadRequest => O
  end.

Definition find_source (error : dyn) : option ErrorSeverity := find_loop (depth error) error.

(** [ErrorKind::severity] *)
Definition kind_severity (k : ErrorKind) : ErrorSeverity :=
  match k with
  | Timeout | BadRequest | Closed => Debug
  | Configuration | Unknown _ => SError
  | H3 e => h3_severity find_source e
  | Hyper e => hyper_severity find_source e
  | Axum _ => SError
  | QuinnConnection e => quinn_severity (what e)
  | Io e => io_severity (what e)
  | Http _ => Debug
  end.

(** ** Building errors *)

Definition new : Error := mkError None [] SError ScUnknown.
Definition with_severity (s : ErrorSeverity) (e : Error) : Error := mkError (kind e) (context e) s (scope e).
Definition with_scope (s : ErrorScope) (e : Error) : Error := mkError (kind e) (context e) (severity e) s.
Definition with_context (request : string) (e : Error) : Error :=
  mkError (kind e) (context e ++ [request]) (severity e) (scope e).
Definition with_kind (k : ErrorKind) : Error := mkError (Some k) (context new) (kind_severity k) (scope new).

Record ErrorConfig := mkConfig { config_severity : ErrorSeverity; config_scope : ErrorScope; config_context : string }.

Definition with_config (c : ErrorConfig) (e : Error) : Error :=
  with_context (config_context c) (with_scope (config_scope c) (with_severity (config_severity c) e)).

(** [ErrorConfig::build] *)
Definition build (c : ErrorConfig) : Error := with_config c new.

(** The function [downcast] *)
Definition downcast (d : dyn) : Error :=
  match d with
  | AnError e => e
  | AKind k => with_kind k
  | AnHttp e => with_kind (Http e)
  | AnH3 e => with_kind (H3 e)
  | AHyper e => with_kind (Hyper e)
  | AQuinn e => with_kind (QuinnConnection e)
  | AnIo e => with_kind (Io e)
  | AnAxum e => with_kind (Axum e)
  | Elapsed => with_kind Timeout
  | Other _ => with_kind (Unknown d)
  end.

(** ** Text *)

Definition scope_text (s : ErrorScope) : string :=
  match s with
  | Protocol => "protocol"
  | Connection => "connection"
  | Request => "request"
  | Response => "response"
  | ScUnknown => "unknown"
  end.

(** The contexts, innermost last pushed first, each after a separator unless
    it is the first part. *)
Fixpoint display_contexts (first : bool) (cs : list string) : bool * string :=
  match cs with
  | [] => (first, "")
  | c :: cs => let '(first', s) := display_contexts false cs in (first', (if first then "" else ": ") +:+ c +:+ s)
  end.

(** [Error::fmt], given the text of its kind. *)
Definition fmt_error (kind_text : option string) (context : list string) (scope : ErrorScope) : string :=
  let '(first, a) := if bool_decide (scope = ScUnknown) then (true, "") else (false, scope_text scope) in
  let '(first, b) := display_contexts first (reverse context) in
  let c := match kind_text with Some t => (if first then "" else ": ") +:+ t | None => "" end in
  a +:+ b +:+ c.

Fixpoint display_kind (k : ErrorKind) : string :=
  match k with
  | Http e => "http: " +:+ text e
  | H3 e => "h3: " +:+ text e
  | Hyper e => "hyper: " +:+ text e
  | Closed => "closed"
  | Unknown d => display_dyn d
  | Axum e => "axum: " +:+ text e
  | QuinnConnection e => "quinn: " +:+ text e
  | Io e => "io: " +:+ text e
  | Timeout => "timeout"
  | Configuration => "configuration"
  | BadRequest => "bad request"
  end
with display_dyn (d : dyn) : string :=
  match d with
  | AnError e => fmt_error (match kind e with Some k => Some (display_kind k) | None => None end) (context e) (scope e)
  | AKind k => display_kind k
  | AnHttp e | AnAxum e | Other e => text e
  | AnH3 e => text e
  | AHyper e => text e
  | AQuinn e => text e
  | AnIo e => text e
  | Elapsed => "deadline has elapsed"
  end.

Definition display (e : Error) : string := display_dyn (AnError e).

(** ** The loop of [find_source] ends *)

Lemma source_depth : forall d e, source d = Some e -> (depth e < depth d)%nat.
Proof.
  fix IH 1. intros d e. destruct d as [[[k|] c v w]|k|x|x|x|x|x|x| |x]; cbn; try (intros ->; lia); try done.
  - intros [= <-]. cbn. lia.
  - destruct k as [x|x|x| |d|x|x|x| | |]; cbn; try done; try (intros [= <-]; cbn; lia).
    intros H%IH. lia.
Qed.

Lemma known_severity_ext f g d : (forall e, source d = Some e -> f e = g e) -> known_severity f d = known_severity g d.
Proof.
  intros Hs. destruct d as [x|k|x|x|x|x|x|x| |x]; cbn in *; try done; f_equal; unfold h3_severity, hyper_severity;
    destruct (src x) as [e|]; cbn; by rewrite ?(Hs e).
Qed.

Lemma find_loop_fuel n : forall m d, (depth d <= n)%nat -> (depth d <= m)%nat -> find_loop n d = find_loop m d.
Proof.
  induction n as [|n IH]; intros m d Hn Hm; [destruct d; cbn in Hn; lia|].
  destruct m as [|m]; [destruct d; cbn in Hm; lia|]. cbn [find_loop].
  assert (forall e, source d = Some e -> find_loop n e = find_loop m e) as Hs.
  { intros e He%source_depth. apply IH; lia. }
  rewrite (known_severity_ext _ _ _ Hs). destruct (known_severity _ _); [done|].
  destruct (source d) as [e|]; cbn; [by apply Hs|done].
Qed.

(** The loop, without fuel. *)
Lemma find_source_eq d :
  find_source d = match known_severity find_source d with
                  | Some s => Some s
                  | None => source d ≫= find_source
                  end.
Proof.
  unfold find_source at 1. destruct (depth d) as [|n] eqn:Hd; [destruct d; cbn in Hd; lia|]. cbn [find_loop].
  assert (forall e, source d = Some e -> find_loop n e = find_source e) as Hs.
  { intros e He%source_depth. apply find_loop_fuel; lia. }
  rewrite (known_severity_ext _ _ _ Hs). destruct (known_severity _ _); [done|].
  destruct (source d) as [e|]; cbn; [by apply Hs|done].
Qed.

(** ** The severity of a chain of errors *)

(** [chained d l]: [l] is [d], its source, the source of that, and so on. *)
Inductive chained : dyn -> list dyn -> Prop :=
| chained_end d : source d = None -> chained d [d]
| chained_more d e l : source d = Some e -> chained e l -> chained d (d :: l).

Lemma chained_exists d : exists l, chained d l.
Proof.
  remember (depth d) as n eqn:Hn. revert d Hn. induction (lt_wf n) as [n _ IH]. intros d ->.
  destruct (source d) as [e|] eqn:He; [|by exists [d]; constructor].
  destruct (IH (depth e) (source_depth _ _ He) e eq_refl) as [l Hl]. exists (d :: l). by econstructor.
Qed.

(** The severity an error has whatever its source. *)
Definition own_severity (d : dyn) : option ErrorSeverity :=
  match d with
  | AnError e => Some (severity e)
  | AnHttp _ | Elapsed => Some Debug
  | AnH3 e => match what e with
              | Application (OtherCode _) => Some SError
              | Application _ => Some Debug
              | OtherH3 => None
              end
  | AHyper e => if what e then Some Debug else None
  | AQuinn e => Some (quinn_severity (what e))
  | AnIo e => Some (io_severity (what e))
  | AnAxum _ => Some SError
  | AKind _ | Other _ => None
  end.

(** h3 and hyper errors count as errors when nothing below says otherwise. *)
Definition transport_error (d : dyn) : bool :=
  match d with AnH3 _ | AHyper _ => true | _ => false end.

Definition chain_severity (l : list dyn) : option ErrorSeverity :=
  match list_find (fun d => is_Some (own_severity d)) l with
  | Some (_, d) => own_severity d
  | None => if existsb transport_error l then Some SError else None
  end.

Lemma chain_severity_cons d l :
  chain_severity (d :: l) = match own_severity d with
                            | Some s => Some s
                            | None => if transport_error d then Some (default SError (chain_severity l)) else chain_severity l
                            end.
Proof.
  unfold chain_severity. cbn [list_find existsb].
  destruct (own_severity d) as [s|] eqn:Hd.
  { rewrite decide_True by eauto. done. }
  rewrite decide_False by (by intros [? ?]).
  destruct (list_find _ l) as [[i x]|] eqn:Hl; cbn.
  - apply list_find_Some in Hl as (_ & [s Hs] & _). rewrite Hs. by destruct (transport_error d).
  - destruct (transport_error d); [by destruct (existsb _ l)|done].
Qed.

Lemma find_source_chain d l : chained d l -> find_source d = chain_severity l.
Proof.
  induction 1 as [d Hd|d e l Hd Hl IH]; rewrite find_source_eq, chain_severity_cons.
  - destruct d as [x|k|x|x|x|x|x|x| |x]; cbn in *; rewrite ?Hd; try done.
    + unfold h3_severity. rewrite Hd. by destruct (what x) as [[]|].
    + unfold hyper_severity. rewrite Hd. by destruct (what x).
  - destruct d as [x|k|x|x|x|x|x|x| |x]; cbn in *; rewrite ?Hd, ?IH; try done; cbn.
    + unfold h3_severity. rewrite Hd. cbn. rewrite IH. by destruct (what x) as [[]|].
    + unfold hyper_severity. rewrite Hd. cbn. rewrite IH. by destruct (what x).
Qed.

(** ** [downcast] *)

Lemma downcast_kind d : match d with
                        | AnError e => downcast d = e
                        | _ => context (downcast d) = [] /\ scope (downcast d) = ScUnknown /\ kind (downcast d) <> None
                        end.
Proof. by destruct d. Qed.

(** An error whose type is known keeps the severity it has inside a chain. *)
Lemma downcast_severity d : find_source d = Some (severity (downcast d)) \/ (exists k, d = AKind k) \/ (exists e, d = Other e).
Proof.
  rewrite find_source_eq. destruct d; cbn; eauto.
Qed.

(** ** [fmt] *)

Lemma append_assoc (a b c : string) : (a +:+ b) +:+ c = a +:+ (b +:+ c).
Proof. induction a as [|x a IH]; [done|]. exact (f_equal (String x) IH). Qed.
Lemma append_empty (a : string) : a +:+ "" = a.
Proof. induction a as [|x a IH]; [done|]. exact (f_equal (String x) IH). Qed.

(** The parts of a text, each after a separator. *)
Fixpoint separated (l : list string) : string :=
  match l with [] => "" | x :: l => ": " +:+ x +:+ separated l end.

Lemma concat_separated x l : String.concat ": " (x :: l) = x +:+ separated l.
Proof.
  revert x. induction l as [|y l IH]; intros x; [cbn; by rewrite append_empty|].
  change (x +:+ ": " +:+ String.concat ": " (y :: l) = x +:+ ": " +:+ y +:+ separated l). by rewrite IH.
Qed.

Lemma separated_app a b : separated (a ++ b) = separated a +:+ separated b.
Proof. induction a as [|x a IH]; [done|]. cbn [app separated]. by rewrite IH, !append_assoc. Qed.

Lemma display_contexts_separated cs : display_contexts false cs = (false, separated cs).
Proof. induction cs as [|c cs IH]; cbn [display_contexts]; [done|]. by rewrite IH. Qed.

(** The text of an error is its scope, its contexts from the last pushed to the
    first and its kind, those there are, joined by colons. *)
Lemma fmt_error_parts kind_text cs sc :
  fmt_error kind_text cs sc =
  String.concat ": " ((if bool_decide (sc = ScUnknown) then [] else [scope_text sc]) ++ reverse cs
    ++ match kind_text with Some t => [t] | None => [] end).
Proof.
  unfold fmt_error. case_bool_decide as Hs.
  - destruct (reverse cs) as [|c l]; [by destruct kind_text|].
    cbn [display_contexts app]. rewrite display_contexts_separated, concat_separated, separated_app.
    destruct kind_text; cbn [separated]; rewrite ?append_empty; cbn; by rewrite ?append_assoc.
  - rewrite display_contexts_separated. cbn [app]. rewrite concat_separated, separated_app.
    by destruct kind_text; cbn [separated]; rewrite ?append_empty.
Qed.

(** An unknown error counts as an error even when the first error below it
    whose type is known does not. *)
Example unknown_is_error :
  let io := AnIo (mkForeign ConnectionReset "reset" None) in
  let d := Other (mkForeign tt "wrapped" (Some io)) in
  find_source d = Some Debug /\ severity (downcast d) = SError /\ display (with_context "read" (downcast io)) = "read: io: reset".
Proof. done. Qed.

End HttpError.
